(* ===== verification/_CoqProject ===== *)
-Q . S2P
Prelude.v
StateLogic.v
PyString.v
PyCollections.v
PyFloat.v
PyValue.v
PyJson.v
Regex.v
Exceptions.v
ToolFallback.v
ProviderErrors.v
ModelGroup.v
EndpointRace.v
Agents.v
AgentHealth.v
EffortProfile.v
Ranking.v
Transport.v
Failover.v
ToolLoop.v
Recovery.v
RequestPartition.v
JobRegistry.v
FileRegistry.v
Workflow.v
Budget.v
Judge.v
ResponseCache.v
Gateway.v
AgentStore.v
AgentPool.v
Conduct.v
RouteOnce.v
Triage.v
Response.v
Complete.v
PyDecimal.v
PriceBook.v
LedgerStore.v
SqlLedger.v
LedgerQueue.v
CostLedger.v
VideoJobs.v
BatchRoute.v
WorkerPool.v
BatchRouting.v
EmbeddingJobs.v
