(* ===== verification/Prelude.v ===== *)
(** * Contextual Orchestrator: verification library

    Contextual Orchestrator is a gateway in front of many model providers. A
    request names a model or a virtual model; the gateway ranks the agents of
    its pool, calls one, classifies what went wrong, and retries, fails over,
    races equivalent endpoints or stops. This library models that core — the
    Python package [src/contextual_orchestrator/] — as executable Rocq
    definitions and proves what makes it correct.

    ** Files, bottom up

    - [Prelude]: results ([Ok]/[Raise]), a state-and-error monad, tactics.
    - [StateLogic]: a program logic of that monad: postconditions under an
      invariant of the state, operations that only append to a log, replay.
    - [PyString], [PyCollections], [PyFloat], [PyValue], [Regex]: the Python the
      source is written in. Strings are Latin-1 code points; a dict is an
      association list in insertion order ([od_*]), or a [gmap] where order
      cannot be observed; [float] is IEEE binary64 ([SpecFloat], 53 bits,
      exponent 1024); [sorted] is a stable insertion sort; regular expressions
      are matched by derivatives of the patterns the source compiles.
    - [PyJson]: [json.dumps] and a reader of its text, with the round trip that
      makes canonical texts injective.
    - [Exceptions]: exception objects in a heap of locations (causes and
      contexts alias and may form cycles), the class hierarchy, and the bounded
      walk [tool_fallback._exception_chain].
    - [ToolFallback]: tool_fallback.py, failure kinds and replay decisions.
    - [ProviderErrors]: provider_errors.py, from an exception to a caller-safe
      upstream error.
    - [ModelGroup]: model_group.py and conventions.py, group names and the
      measured ledger of members.
    - [EndpointRace]: endpoint_race.py. [race_first_valid] is a step relation
      between the worker threads, the waiting caller and the clock.
    - [Agents]: orchestrator.py [ModelAgent], its validation and configuration
      round trip; chat_capability.py; the eligibility predicates.
    - [AgentHealth]: the circuit breaker, cooldowns and the rate-limit wait of
      [TaskOrchestrator].
    - [EffortProfile]: reasoning_effort_profile.py.
    - [Ranking]: [_ranked_agents], [_select_agent], the request-shaped pools and
      the choice of race members.
    - [Transport]: the HTTP-error recognisers, [ModelClient._send_with_retry]
      and the output-token clamp.
    - [Failover]: [_failover_candidates] and the whole of [_invoke].
    - [ToolLoop]: the memory of emitted tool calls and the route it gives a tool
      result ([_record_tool_loop_agents], [_apply_tool_loop_route]).
    - [Recovery]: [_invoke_with_rate_limit_recovery], the loop around [_invoke].
    - [RequestPartition]: request_partitioning/__init__.py, the checkpoint store
      and the executor that maps and reduces partitioned evidence over it.
    - [JobRegistry]: batch_job_registry.py, named registries over a Valkey hash
      or a dict, claim leases and the scripts that move a durable job.
    - [FileRegistry]: file_registry.py, the files of each principal and the
      provider replicas behind them.

    - [Workflow]: workflow plans: the policy, the template and generated plans,
      the parser of a planner's reply ([_plan], [_parse_workflow_plan]).
    - [Budget]: the spend meter of stored runs, its rebuild, the budget checks
      and the redacted copy kept under zero data retention.
    - [Judge]: [_model_judge_verification] and the quality ledger it feeds.
    - [ResponseCache]: response_cache.py and the in-memory [_ResponseCache].
    - [Gateway]: the mutable state the request flows share, one guarded
      invocation as the interface [Invoker] with the laws [InvokerLaws], and its
      instance, the recovery loop.
    - [AgentStore]: [_AgentPoolStore], the SQLite tables of the pool, their
      transactions and [load_all]; the interface [AgentStore] with the laws
      [AgentStoreLaws] that the pool relies on, and SQLite as their instance.
    - [AgentPool]: the administration of the pool: [patch_agent],
      [restore_model_timeout], the model groups, [add_agent], [remove_agent],
      [sync_discovered_agents] and the start from a seed and a store.
    - [Conduct], [RouteOnce]: the request flows [conduct] and [route_once].
    - [Triage]: the verdict that chooses between them.
    - [Response]: the response dictionaries of both and what is read back.
    - [Complete]: [complete] (triage, cache, dispatch) and [run] (admission,
      the stored record, its spend).
    - [PyDecimal]: [decimal.Decimal] in its default context: 28 digits, half
      even, [quantize] half up, and the shortest text of a float it is read from.
    - [PriceBook]: the configuration store and the price table of cost_ledger.py.
    - [LedgerStore]: a usage record and its row, the interface [LedgerStore] of a
      store of records with the laws [LedgerStoreLaws], and the store in memory.
    - [SqlLedger]: [SqlLedgerStore], the tables, their statements, the
      transactions of the store and of its caller, the migration.
    - [LedgerQueue]: [NonBlockingLedgerStore], the actions of its worker, its
      callers and the application, interleaved.
    - [CostLedger]: [CostLedger] over an inline store, and its reports.
    - [VideoJobs]: video_jobs.py, the jobs of each principal over three
      registries and the documents that may cross the public boundary.
    - [BatchRoute]: [batch_route] and the batch client's validation.
    - [WorkerPool], [BatchRouting], [EmbeddingJobs]: batch_routing.py: the pool of
      daemon threads; the routing policy and the batch backends, local and over
      a provider's Batch API; the embedding jobs that run on the pool, with the
      actions of their clients and workers interleaved.

    ** How the parts interact

    [_invoke] (Failover) asks [_failover_candidates], which calls
    [_ranked_agents] (Ranking) and the health probes (AgentHealth); when the
    candidates are declared equivalent it races them (EndpointRace), else it
    calls them in order through the transport (Transport). A failed call is
    classified by [classify_provider_failure] (ProviderErrors) or
    [classify_tool_failure] (ToolFallback); the outcome feeds the breaker, the
    cooldowns (AgentHealth) and the group ledger (ModelGroup), which the next
    ranking reads. Recovery runs [_invoke] in rounds, waits out a rate-limit
    storm between them and restricts the next round to the agents it may call
    again. ToolLoop reorders ranked candidates before the passthrough flows call
    them.

    A request enters at [Complete.run], which checks the budget (Budget) and
    calls [Complete.complete]: unless retention forbids it a cached response may
    answer (ResponseCache, through the class [CacheProvider]); else the request
    is triaged (Triage) and conducted over a plan (Conduct, Workflow) or routed
    to workers in turn (RouteOnce). Both flows are written and proved against
    [Invoker] alone; Gateway shows that the recovery loop satisfies its laws.
    Their answers are judged (Judge), the verdicts feed the quality ledger the
    next ranking reads, and the returned record is charged to the meter.

    The pool those flows rank is changed by AgentPool alone. It persists every
    accepted change through the class [AgentStore] before serving it, and keeps
    the ledgers and the meter in step; [AgentPool.pool_stays_wellformed] hands
    the flows the invariant [Gateway.gateway_pool] they assume.

    Usage is billed apart from that: CostLedger prices a request (PriceBook),
    builds its record and appends it through the class [LedgerStore], in memory,
    to the tables (SqlLedger), or by way of the queue (LedgerQueue), whose
    theorems hold over every store with the laws. Reports read the rows back.

    [BatchRoute.batch_route] is the third request flow: it ranks each prompt's
    worker like the others, sends the prompts of one worker in one provider
    batch, and stores, charges and judges the answers over the same [gateway].
    The backends of BatchRouting take requests of clients instead; their
    registries are the class [Mapping] too. EmbeddingJobs runs its jobs as the
    tasks of WorkerPool, whose invariant [pool_inv] its own contains.

    RequestPartition sits outside that policy: it calls the gateway through
    the two ports of its executor and keeps its checkpoints in a store that other
    executors use at the same time. FileRegistry and VideoJobs are proved against the class
    [Mapping] of JobRegistry and its laws [MappingLaws]; the dict and the Valkey
    hash are the instances, the latter over the interfaces [HashClient] (the
    server) and [JsonCodec] (the JSON library).

    ** State and effects

    Mutable objects are records passed explicitly: [health], [group_router],
    [invoke_state], [race_state], [gateway], [pool], [pool_file], [connection],
    [NonBlockingLedgerStore], [CostLedger]. A provider is
    an oracle from the number of the call to its reply or the location of the
    exception it raised; theorems hold for every oracle. Clock readings, jitter
    and sleeps are arguments or recorded in the state. JSON decoding, HTTP-date
    parsing, URL splitting, float parsing and printing, embedding affinities,
    the judge library, SHA-256, the Redis client and the psychometric statistics
    are parameters, as they are libraries or other services; so is what SQLite
    or Postgres raises in a transaction. A JSON writer that meets an object it cannot write
    is the flag [cq_foreign] of a request.

    ** What the theorems show

    - Complete: a cache hit is an earlier live answer of the same request; the
      cache changes no answer otherwise; a run is charged once.
    - Conduct, RouteOnce: the trace follows the plan and each step sees exactly
      the outputs its plan lists; effects are confined; the number of calls is
      bounded; an answer is a step's output and acceptance a verdict.
    - AgentPool: a restart serves what was served; the pool keeps its invariant
      over every history; a refused operation changes nothing; guarded
      operations keep an enabled agent and the fail-closed roles.
    - AgentStore: the tables keep their integrity, a saved agent loads back, a
      timeout change is a compare-and-swap.
    - Triage, Judge, Budget: verdicts and admission fail closed; the incremental
      meter equals its rebuild; redacted copies carry no content.
    - Workflow: an accepted plan is well formed and round-trips through JSON.
    - ResponseCache: the memory cache is a bounded, expiring LRU map.
    - Failover: calls are bounded and ordered and never an unsafe replay; an
      unsafe failure stops the invocation; the first success is served; the
      exhaustion error is independent of the order of failures; the route
      evidence is complete; quota rejections never count as health failures;
      candidates are sound and health pressure cannot empty them.
    - Recovery: later rounds replay only agents that rejected the request,
      evidence covers every round, the loop ends once the clock passes its one
      deadline.
    - ToolLoop: the memory is an LRU of the abstract recency log; affinity only
      permutes the candidates; a tool result returns to the agent that asked.
    - Transport: the retry loop is bounded and an unknown outcome is final; the
      clamp enforces the ceiling.
    - EndpointRace: winners are valid and called, losers reported honestly, no
      call is duplicated, the race terminates and fails for the reason it names.
    - Ranking: ranking permutes the admitted candidates and respects the
      operator's order; pools agree with it.
    - AgentHealth: the breaker refines an abstract breaker; cooldowns only
      extend; a storm wait sleeps at most once, within its budget.
    - ToolFallback, ProviderErrors: replay decisions are safe, classified
      messages leak nothing, retryability follows from the status.
    - RequestPartition: a published result covers the inventory in order, a
      call is made at most once, budgets hold under interleaving, a repeated run
      resumes without calls, plans do not disturb each other, reduction ends.
    - JobRegistry: a registry is the finite map whichever backs it; terminal
      states are final; publication is fenced by the claim.
    - FileRegistry: binding a request is sound and complete, principals are
      isolated, registration hides the provider's id.
    - Agents, EffortProfile, ModelGroup: construction invariants, round trips,
      the sliding observation window, stable measured ranking.
    - PriceBook: the cost of a request is exact to the millionth.
    - SqlLedger: the tables give the answers of the store in memory; no row is
      stranded without its satellites, whatever fails and whoever rolls back; the
      migration loses nothing.
    - LedgerQueue: accepted records are accounted for exactly once, exports are
      durable and unrepeated while nothing is rolled back, the queue drains and
      every call returns, for every interleaving.
    - CostLedger: a rollup is a group-by and partitions the total; a caller's
      attribution never changes what a record says was executed and what it cost;
      recording fails only for the reasons of its own arguments.
    - BatchRoute: whatever ends a batch, each answer that came back and stands on
      its own is stored and charged exactly once; a batch that returns has judged
      every prompt's row.
    - VideoJobs: a job keeps its owner and its first measured usage through every
      history of replicas; no text of a public document holds the provider's id
      where the two ids cannot overlap.
    - BatchRouting: results are returned only one to one with the submission, each
      beside its own request and vectors in the order of the inputs; a descriptor
      recovers a batch whose registry is lost; the upstream chosen is the cheapest
      priced one.
    - WorkerPool: each accepted task is taken once, cancelled or queued, for every
      interleaving of submits, shutdowns and threads, and the pool comes to rest.
    - EmbeddingJobs: a job is run at most once, its end is backed by its
      documents, and a document a client was shown is final.
    - Some theorems exhibit behaviours the code's comments rule out (a stale
      cooldown label, a lost observation, an over-admitting free pool, a lost
      size-rejection class, incomplete clamp evidence, a cache hit charged
      again, rediscovery that disables an enabled agent, a contract saved for
      one agent that changes another's, a re-added agent with an old policy, a
      rolled back record that is billed, a retried one that is billed twice, a
      reading of the records that erases usage, a salvage of batch answers that
      the gateway's own client never reaches, a provider id that comes back, a
      cancelled job that is run, a missing answer that becomes a text).

    ** Bounds and fuel

    Recursion is structural: the exception walk counts down from the source's
    own bound of 8 objects, the attempts of an agent and of the transport count
    down from the retry limit, the race has a decreasing measure. [Recovery.recover]
    takes the number of rounds as fuel; [recovery_terminates] shows some number
    is enough, and [Gateway.recovering] takes the fuel of each invocation.
    [RequestPartition.run] reduces with fuel; the number of units is
    enough ([partition_terminates]). The circuit breaker's floating-point counter is exact up to 2^53 events, which its
    refinement theorem assumes. Costs are exact rationals: the source's decimal
    products are exact within the 28 digits of its context. In the ledger,
    [Decimal] itself is modelled and rounds as the code does; exactness is proved
    for prices below 10^4 in units of 10^-12, token counts below 10^11 and sums of
    costs below 10^28 millionths. The text of a float has at most 17 digits, which
    determine it. Ids are looked up in chunks of 500, as in the source. The
    actions of the ledger's queue and of the worker pool have a decreasing weight.

    ** Not modelled, and next

    Outside of the model, as input and output, adapters or scripts: the HTTP
    server and admin payloads, the state store of runs and events, discovery and
    the provider catalog, credentials, telemetry and logging, web search, offline
    evaluation and benchmarks. Receipts, timings, audit and analytics events of
    the modelled flows are not state of the model. The judge's and triage's calls
    are parameters and do not pass through the gateway state; likewise the
    Postgres adapter of the configuration store. Not modelled though it is logic:
    the stream and passthrough flows, the cost router, metering and token counting;
    of batch_routing.py, the durable registry of [ProviderEmbeddingBatchBackend]
    (leased claims, jobs found at start-up) and the events that wake [wait]. *)

From Stdlib Require Import Ascii String ZArith.
From stdpp Require Export prelude strings gmap list sorting.
#[global] Open Scope Z_scope.
#[global] Set Default Goal Selector "!".

(** ** Scopes and hint databases *)

Declare Scope py_scope.
Delimit Scope py_scope with py.

Create HintDb pydb discriminated.
Create Rewrite HintDb pydb.

(** ** Results: a Python call returns a value or raises *)

(** [Ok v] is a normal return, [Raise e] an exception that propagates. *)
Inductive res (E A : Type) : Type :=
| Ok (a : A)
| Raise (e : E).
Arguments Ok {E A} a.
Arguments Raise {E A} e.

#[global] Instance res_ret {E} : MRet (res E) := λ A a, Ok a.
#[global] Instance res_bind {E} : MBind (res E) := λ A B f m,
  match m with Ok a => f a | Raise e => Raise e end.
#[global] Instance res_fmap {E} : FMap (res E) := λ A B f m,
  match m with Ok a => Ok (f a) | Raise e => Raise e end.

(** [require b e]: the guard [if not b: raise e]. *)
Definition require {E} (b : bool) (e : E) : res E unit :=
  if b then Ok tt else Raise e.

(** [map_res f l] is a comprehension [[f x for x in l]] whose first exception
    propagates. *)
Fixpoint map_res {E A B} (f : A → res E B) (l : list A) : res E (list B) :=
  match l with
  | [] => Ok []
  | x :: l' =>
      match f x with
      | Raise e => Raise e
      | Ok y => match map_res f l' with Raise e => Raise e | Ok ys => Ok (y :: ys) end
      end
  end.

(** Translate the exception, as [except E as exc: raise F(...) from exc]. *)
Definition map_raise {E F A} (f : E → F) (m : res E A) : res F A :=
  match m with Ok a => Ok a | Raise e => Raise (f e) end.

Section res_lemmas.
Context {E A B : Type}.
Implicit Types (m : res E A) (f : A → res E B).

Lemma bind_Ok_inv m f b : m ≫= f = Ok b → ∃ a, m = Ok a ∧ f a = Ok b.
Proof. destruct m as [a|e]; cbn; [by exists a | done]. Qed.

Lemma require_Ok (b : bool) (e : E) u : require b e = Ok u ↔ b = true.
Proof. destruct b, u; cbn; split; congruence. Qed.

Lemma require_Raise (b : bool) (e e' : E) :
    require b e = Raise e' ↔ b = false ∧ e' = e.
Proof. destruct b; cbn; split; intuition congruence. Qed.

Lemma map_res_length f l l' : map_res f l = Ok l' → length l' = length l.
Proof.
    revert l'; induction l as [|x l IH]; intros l'; cbn; [by intros [= <-]|].
    destruct (f x); [|done]. destruct (map_res f l) eqn:Hl; [|done].
    intros [= <-]; cbn. f_equal. by apply IH.
Qed.

Lemma map_res_Forall2 f l l' :
    map_res f l = Ok l' ↔ Forall2 (λ x y, f x = Ok y) l l'.
Proof.
    revert l'; induction l as [|x l IH]; intros l'; cbn.
    { split; [intros [= <-]; constructor | by inversion 1]. }
    split.
    - destruct (f x) eqn:Hx; [|done]. destruct (map_res f l) eqn:Hl; [|done].
      intros [= <-]. constructor; [done|]. by apply IH.
    - inversion 1 as [|? y ? ys Hx Hl]; subst. apply IH in Hl. by rewrite Hx, Hl.
Qed.

Lemma map_raise_Ok {F} (g : E → F) m a : map_raise g m = Ok a ↔ m = Ok a.
Proof. destruct m; cbn; naive_solver. Qed.
End res_lemmas.

#[export] Hint Rewrite @require_Ok @require_Raise @map_raise_Ok : pydb.

(** ** State and exceptions

    A Python method that mutates its object and may raise is a function from
    the state to the state and a result; the state survives the exception. *)
Definition ST (S E A : Type) : Type := S → S * res E A.

Module st.
Definition ret {S E A} (a : A) : ST S E A := λ s, (s, Ok a).
Definition bind {S E A B} (m : ST S E A) (k : A → ST S E B) : ST S E B := λ s,
    match m s with
    | (s', Ok a) => k a s'
    | (s', Raise e) => (s', Raise e)
    end.
Definition raise {S E A} (e : E) : ST S E A := λ s, (s, Raise e).
Definition get {S E} : ST S E S := λ s, (s, Ok s).
Definition modify {S E} (f : S → S) : ST S E unit := λ s, (f s, Ok tt).
Definition lift {S E A} (m : res E A) : ST S E A := λ s, (s, m).
End st.

Notation "'let*' x ':=' c1 'in' c2" := (st.bind c1 (λ x, c2))
  (at level 10, x pattern, c1 at level 100, c2 at level 200) : py_scope.

(** ** Tactics *)

(** Destruct the existentials and conjunctions of the context. *)
Ltac deex :=
  repeat match goal with
  | H : ∃ x, _ |- _ => let x' := fresh x in destruct H as [x' H]
  | H : _ ∧ _ |- _ => destruct H
  end.

(** Split on the boolean or option a [match]/[if] of the goal or of [H] looks at. *)
Ltac case_goal :=
  match goal with
  | |- context [match ?b with _ => _ end] =>
      lazymatch b with context [match _ with _ => _ end] => fail | _ => destruct b eqn:? end
  end.
Ltac case_in H :=
  match type of H with
  | context [match ?b with _ => _ end] =>
      lazymatch b with context [match _ with _ => _ end] => fail | _ => destruct b eqn:? end
  end.

(** Run a chain of guards in a hypothesis [H : ... = Ok _]: every guard that
    raises contradicts it. *)
Ltac run_ok H :=
  repeat (case_in H; simplify_eq/=; try discriminate H).

(** Boolean guards of the context to propositions. *)
Ltac bools :=
  repeat match goal with
  | H : _ && _ = true |- _ => apply andb_true_iff in H; destruct H
  | H : _ || _ = false |- _ => apply orb_false_iff in H; destruct H
  | H : negb _ = true |- _ => apply negb_true_iff in H
  | H : negb _ = false |- _ => apply negb_false_iff in H
  | H : bool_decide _ = true |- _ => apply bool_decide_eq_true in H
  | H : bool_decide _ = false |- _ => apply bool_decide_eq_false in H
  | H : (_ <? _)%Z = true |- _ => apply Z.ltb_lt in H
  | H : (_ <? _)%Z = false |- _ => apply Z.ltb_ge in H
  | H : (_ <=? _)%Z = true |- _ => apply Z.leb_le in H
  | H : (_ <=? _)%Z = false |- _ => apply Z.leb_gt in H
  | H : (_ =? _)%Z = true |- _ => apply Z.eqb_eq in H
  | H : (_ =? _)%Z = false |- _ => apply Z.eqb_neq in H
  | H : Is_true _ |- _ => apply Is_true_true in H
  end.
