(* ===== verification/StateLogic.v ===== *)
(** A program logic for the state-and-exception monad [ST] of the prelude:
    postconditions of one computation under an invariant of the state, and a
    replay relation between two computations. *)

From S2P Require Import Prelude.

Module stm.
(** [[f x for x in l]] where [f] has effects; the first exception stops it. *)
Fixpoint mapM {S E A B} (f : A → ST S E B) (l : list A) : ST S E (list B) :=
  match l with
  | [] => st.ret []
  | x :: l' => st.bind (f x) (λ y, st.bind (mapM f l') (λ ys, st.ret (y :: ys)))
  end.

Definition guard {S E} (b : bool) (e : E) : ST S E unit := if b then st.ret tt else st.raise e.
End stm.

Lemma st_bind_ext {S E A B} (m : ST S E A) (k k' : A → ST S E B) s :
  (∀ s' a, m s = (s', Ok a) → k a s' = k' a s') → st.bind m k s = st.bind m k' s.
Proof. intros Hk. unfold st.bind. destruct (m s) as [s' [a|e]]; [by apply Hk|done]. Qed.

Lemma st_bind_inv {S E A B} (m : ST S E A) (k : A → ST S E B) s s' r :
  st.bind m k s = (s', r) →
  (∃ s1 a, m s = (s1, Ok a) ∧ k a s1 = (s', r)) ∨ (∃ e, m s = (s', Raise e) ∧ r = Raise e).
Proof. unfold st.bind. destruct (m s) as [s1 [a|e]]; [by left; exists s1, a|intros [= <- <-]; right; by exists e]. Qed.

Lemma st_bind_Ok_inv {S E A B} (m : ST S E A) (k : A → ST S E B) s s' b :
  st.bind m k s = (s', Ok b) → ∃ s1 a, m s = (s1, Ok a) ∧ k a s1 = (s', Ok b).
Proof. intros [H|(e & _ & [=])]%st_bind_inv. exact H. Qed.

Lemma mapM_length {S E A B} (f : A → ST S E B) l s s' ys :
  stm.mapM f l s = (s', Ok ys) → length ys = length l.
Proof.
  revert s s' ys. induction l as [|x l IH]; intros s s' ys; cbn; [by intros [= _ <-]|].
  unfold st.bind. destruct (f x s) as [s1 [y|]]; [|done].
  destruct (stm.mapM f l s1) as [s2 [ys'|]] eqn:Hm; [|done]. intros [= _ <-]. cbn.
  f_equal. by eapply IH.
Qed.

(** ** Postconditions

    From a state of [I], the computation ends in a state of [I]; a value
    satisfies [Q], an exception [X]. *)

Definition ends_in {S E A} (I : S → Prop) (X : E → Prop) (Q : A → Prop) (p : S * res E A) : Prop :=
  I p.1 ∧ match p.2 with Ok a => Q a | Raise e => X e end.

Definition post {S E A} (I : S → Prop) (X : E → Prop) (m : ST S E A) (Q : A → Prop) : Prop :=
  ∀ s, I s → ends_in I X Q (m s).

Section post.
Context {S E : Type} (I : S → Prop) (X : E → Prop).

Lemma post_ret {A} (a : A) (Q : A → Prop) : Q a → post I X (st.ret a) Q.
Proof. intros HQ s Hs. by split. Qed.

Lemma post_raise {A} e (Q : A → Prop) : X e → post I X (st.raise e) Q.
Proof. intros HX s Hs. by split. Qed.

Lemma post_bind {A B} (m : ST S E A) (k : A → ST S E B) P Q :
  post I X m P → (∀ a, P a → post I X (k a) Q) → post I X (st.bind m k) Q.
Proof.
  intros Hm Hk s Hs. unfold st.bind. destruct (Hm s Hs) as [Hs' Ha].
  destruct (m s) as [s' [a|e]]; cbn in *; [by apply (Hk a Ha)|by split].
Qed.

Lemma post_weaken {A} (m : ST S E A) (P Q : A → Prop) :
  post I X m P → (∀ a, P a → Q a) → post I X m Q.
Proof. intros Hm HPQ s Hs. destruct (Hm s Hs). split; [done|]. destruct (m s).2; auto. Qed.

Lemma post_conj {A} (m : ST S E A) (P Q : A → Prop) :
  post I X m P → post I X m Q → post I X m (λ a, P a ∧ Q a).
Proof. intros H1 H2 s Hs. destruct (H1 s Hs), (H2 s Hs). split; [done|]. by destruct (m s).2. Qed.

Lemma post_guard b e (Q : unit → Prop) :
  (b = false → X e) → (b = true → Q tt) → post I X (stm.guard b e) Q.
Proof. intros He HQ. destruct b; [by apply post_ret, HQ|by apply post_raise, He]. Qed.

Lemma post_mapM {A B} (f : A → ST S E B) (R : A → B → Prop) l :
  (∀ x, x ∈ l → post I X (f x) (R x)) → post I X (stm.mapM f l) (Forall2 R l).
Proof.
  induction l as [|x l IH]; intros Hf; cbn; [apply post_ret; constructor|].
  eapply post_bind; [apply Hf, list_elem_of_here|]. intros y Hy.
  eapply post_bind; [apply IH; intros z Hz; by apply Hf, list_elem_of_further|].
  intros ys Hys. apply post_ret. by constructor.
Qed.
End post.

Create HintDb postdb discriminated.
#[export] Hint Resolve post_ret post_raise post_guard : postdb.

(** ** Replay

    [extends] orders states by what they have recorded; [quiet s s'] says a
    computation only added records and was silent. A run of [m1] that returned
    is replayed by [m2] from every state that has recorded as much. *)
Class Recording (S : Type) := {
  extends : relation S;
  #[global] extends_preorder :: PreOrder extends;
  silent : S → S → Prop;
  #[global] silent_preorder :: PreOrder silent;
}.

Section replay.
Context {S E : Type} `{!Recording S}.

Definition grows {A} (m : ST S E A) : Prop := ∀ s, extends s (m s).1.

Definition replays {A} (m1 m2 : ST S E A) : Prop :=
  ∀ s s1 a, m1 s = (s1, Ok a) → ∀ s2, extends s1 s2 →
    ∃ s2', m2 s2 = (s2', Ok a) ∧ extends s2 s2' ∧ silent s2 s2'.

Lemma grows_ret {A} (a : A) : grows (st.ret a).
Proof. intros s. cbn. reflexivity. Qed.

Lemma grows_raise {A} (e : E) : grows (A := A) (st.raise e).
Proof. intros s. cbn. reflexivity. Qed.

Lemma grows_bind {A B} (m : ST S E A) (k : A → ST S E B) :
  grows m → (∀ a, grows (k a)) → grows (st.bind m k).
Proof.
  intros Hm Hk s. unfold st.bind. pose proof (Hm s) as H.
  destruct (m s) as [s' [a|e]]; cbn in *; [etrans; [exact H|apply Hk]|done].
Qed.

Lemma grows_guard b (e : E) : grows (stm.guard b e).
Proof. destruct b; [apply grows_ret|apply grows_raise]. Qed.

Lemma grows_mapM {A B} (f : A → ST S E B) l : (∀ x, grows (f x)) → grows (stm.mapM f l).
Proof.
  intros Hf. induction l as [|x l IH]; [apply grows_ret|].
  apply grows_bind; [apply Hf|]. intros y. apply grows_bind; [done|]. intros ys. apply grows_ret.
Qed.

Lemma replays_ret {A} (a : A) : replays (st.ret a) (st.ret a).
Proof. intros s s1 b [= <- <-] s2 He. exists s2. split_and!; [done|reflexivity..]. Qed.

Lemma replays_raise {A} (e : E) (m : ST S E A) : replays (st.raise e) m.
Proof. done. Qed.

Lemma replays_bind {A B} (m1 m2 : ST S E A) (k1 k2 : A → ST S E B) :
  replays m1 m2 → (∀ a, grows (k1 a)) → (∀ a, replays (k1 a) (k2 a)) →
  replays (st.bind m1 k1) (st.bind m2 k2).
Proof.
  intros Hm Hg Hk s s1 b. unfold st.bind. destruct (m1 s) as [s' [a|e]] eqn:H1; [|done].
  intros Hk1 s2 He. pose proof (Hg a s') as Hext. rewrite Hk1 in Hext. cbn in Hext.
  destruct (Hm s s' a H1 s2) as (s2' & -> & He2 & Hs2); [by etrans|].
  destruct (Hk a s' s1 b Hk1 s2') as (s3 & Hr & He3 & Hs3); [by etrans|].
  exists s3. split_and!; [done|by etrans..].
Qed.

Lemma replays_guard b (e : E) : replays (stm.guard b e) (stm.guard b e).
Proof. destruct b; [apply replays_ret|apply replays_raise]. Qed.

Lemma replays_mapM {A B} (f1 f2 : A → ST S E B) l :
  (∀ x, grows (f1 x)) → (∀ x, replays (f1 x) (f2 x)) → replays (stm.mapM f1 l) (stm.mapM f2 l).
Proof.
  intros Hg Hf. induction l as [|x l IH]; [apply replays_ret|].
  apply replays_bind; [apply Hf| |].
  - intros y. apply grows_bind; [by apply grows_mapM|]. intros ys. apply grows_ret.
  - intros y. apply replays_bind; [done| |]; intros ys; [apply grows_ret|apply replays_ret].
Qed.
End replay.

#[export] Hint Resolve grows_ret grows_raise grows_guard grows_mapM grows_bind : postdb.
#[export] Hint Resolve replays_ret replays_raise replays_guard : postdb.

(** Growth is closed under everything; the components add their own steps to the
    hint database. *)
Ltac grow :=
  repeat first
    [ progress intros
    | solve [auto with postdb]
    | apply grows_bind
    | apply grows_mapM
    | match goal with |- grows (match ?x with _ => _ end) => destruct x end ].

(** So is replay, where the two computations take the same branches. *)
Ltac replay :=
  repeat first
    [ progress intros
    | solve [auto with postdb]
    | apply replays_bind
    | apply replays_mapM
    | match goal with |- replays (match ?x with _ => _ end) _ => destruct x end
    | progress grow ].
