(* ===== verification/PyString.v ===== *)
(** Python's [str] on code points below 256, and the methods of [str] the
    modelled code uses.  A [string] of this development is the sequence of the
    code points of a Python string, one [ascii] per code point. *)

From Stdlib Require Import Ascii String.
From S2P Require Import Prelude.
#[global] Open Scope string_scope.
#[global] Open Scope Z_scope.
#[global] Open Scope list_scope.

(** ** Code points *)

Definition ord (c : ascii) : Z := Z.of_N (N_of_ascii c).
Definition chr (z : Z) : ascii := ascii_of_N (Z.to_N z).

Definition str_list : string → list ascii := list_ascii_of_string.
Definition list_str : list ascii → string := string_of_list_ascii.

(** [len(s)]. *)
Definition str_len (s : string) : Z := Z.of_nat (String.length s).

(** [s == ""] and the truth value of a string. *)
Definition str_truthy (s : string) : bool := negb (String.eqb s "").

(** ** str.lower, str.strip, slicing *)

(** Lower case on Latin-1: A-Z, and U+00C0..U+00DE without the multiplication
    sign U+00D7. *)
Definition lower_char (c : ascii) : ascii :=
  let z := ord c in
  if ((65 <=? z) && (z <=? 90)) || ((192 <=? z) && (z <=? 222) && negb (z =? 215))
  then chr (z + 32) else c.

Definition str_map (f : ascii → ascii) (s : string) : string :=
  list_str (map f (str_list s)).

Definition str_lower : string → string := str_map lower_char.

(** [str.isspace] on one code point of Latin-1. *)
Definition is_space (c : ascii) : bool :=
  let z := ord c in
  ((9 <=? z) && (z <=? 13)) || ((28 <=? z) && (z <=? 32)) || (z =? 133) || (z =? 160).

Fixpoint drop_while {A} (p : A → bool) (l : list A) : list A :=
  match l with
  | x :: l' => if p x then drop_while p l' else l
  | [] => []
  end.

(** [s.strip()]. *)
Definition str_strip (s : string) : string :=
  list_str (rev (drop_while is_space (rev (drop_while is_space (str_list s))))).

(** [not s.strip()]: nothing but white space. *)
Definition str_blank (s : string) : bool := forallb is_space (str_list s).

(** [s[:n]] for [n >= 0]. *)
Definition str_take (n : Z) (s : string) : string := list_str (firstn (Z.to_nat n) (str_list s)).

(** [s.startswith(p)]. *)
Definition str_startswith (p s : string) : bool := String.prefix p s.

(** [p in s]. *)
Fixpoint str_contains (p s : string) : bool :=
  String.prefix p s ||
  match s with
  | EmptyString => false
  | String _ s' => str_contains p s'
  end.

(** [any(p in s for p in ps)]. *)
Definition contains_any (s : string) (ps : list string) : bool :=
  existsb (λ p, str_contains p s) ps.

(** [s.isdigit()] on ASCII text: non-empty and only digits.  (U+00B2, U+00B3
    and U+00B9 are digits for Python too; [int] refuses them.) *)
Definition is_digit (c : ascii) : bool := (48 <=? ord c) && (ord c <=? 57).
Definition is_superscript (c : ascii) : bool :=
  (ord c =? 178) || (ord c =? 179) || (ord c =? 185).
Definition str_isdigit (s : string) : bool :=
  str_truthy s && forallb (λ c, is_digit c || is_superscript c) (str_list s).

(** [int(s)] on a digit string; [None] is the [ValueError]. *)
Definition int_of_digits (s : string) : option Z :=
  if str_truthy s && forallb is_digit (str_list s)
  then Some (fold_left (λ n c, 10 * n + (ord c - 48)) (str_list s) 0)
  else None.

(** Decimal text of an integer, as in an f-string. *)
Fixpoint digits_of (fuel : nat) (n : Z) (acc : list ascii) : list ascii :=
  match fuel with
  | O => acc
  | S fuel' =>
      let acc' := chr (48 + n mod 10) :: acc in
      if n <? 10 then acc' else digits_of fuel' (n / 10) acc'
  end.

(** [str(n)]: [n] has at most [log2 n + 1] decimal digits. *)
Definition str_of_Z (n : Z) : string :=
  let m := Z.abs n in
  let body := list_str (digits_of (S (Z.to_nat (Z.log2 m))) m []) in
  if n <? 0 then String.append "-" body else body.

(** Number of bytes of [s.encode("utf-8")]. *)
Definition utf8_len (s : string) : Z :=
  fold_right (λ c n, (if ord c <? 128 then 1 else 2) + n) 0 (str_list s).

(** [sep.join(ss)]. *)
Definition str_join (sep : string) (ss : list string) : string := String.concat sep ss.

(** ** Lemmas *)

Lemma ord_range c : 0 <= ord c < 256.
Proof. unfold ord. pose proof (N_ascii_bounded c). lia. Qed.

Lemma list_str_list s : list_str (str_list s) = s.
Proof. apply string_of_list_ascii_of_string. Qed.

Lemma str_list_str l : str_list (list_str l) = l.
Proof. apply list_ascii_of_string_of_list_ascii. Qed.

Lemma str_len_list s : str_len s = Z.of_nat (length (str_list s)).
Proof.
  unfold str_len, str_list. f_equal.
  induction s; cbn; [done | by rewrite IHs].
Qed.

Lemma str_len_nonneg s : 0 <= str_len s.
Proof. unfold str_len. lia. Qed.

Lemma str_take_len n s : 0 <= n → str_len (str_take n s) <= n.
Proof. intros Hn. rewrite str_len_list. unfold str_take. rewrite str_list_str, length_firstn. lia. Qed.

Lemma int_of_digits_nonneg s n : int_of_digits s = Some n → 0 <= n.
Proof.
  unfold int_of_digits. destruct (str_truthy s && _) eqn:H; [|done]. intros [= <-].
  apply andb_true_iff in H as [_ H]. rewrite forallb_forall in H.
  assert (∀ l m, (∀ c, In c l → is_digit c = true) → 0 <= m →
            0 <= fold_left (λ n c, 10 * n + (ord c - 48)) l m) as Hgen.
  { induction l as [|c l IH]; intros m Hl Hm; cbn; [done|]. apply IH; [auto with datatypes|].
    assert (is_digit c = true) as Hc by (apply Hl; by left).
    unfold is_digit in Hc. lia. }
  by apply Hgen.
Qed.

Lemma str_take_forall (p : ascii → bool) n s :
  forallb p (str_list s) = true → forallb p (str_list (str_take n s)) = true.
Proof.
  unfold str_take. rewrite str_list_str, !forallb_forall.
  intros H x Hx. apply H. rewrite <- (firstn_skipn (Z.to_nat n)). apply in_or_app. by left.
Qed.

Lemma drop_while_sub {A} (p : A → bool) l x : In x (drop_while p l) → In x l.
Proof. induction l as [|y l IH]; cbn; [done|]. destruct (p y); cbn; auto. Qed.

Lemma str_strip_forall (p : ascii → bool) s :
  forallb p (str_list s) = true → forallb p (str_list (str_strip s)) = true.
Proof.
  unfold str_strip. rewrite str_list_str, !forallb_forall. intros H x Hx.
  apply H. apply in_rev, drop_while_sub, in_rev, drop_while_sub in Hx. done.
Qed.

Lemma str_map_forall (p : ascii → bool) f s :
  (∀ c, p (f c) = true) → forallb p (str_list (str_map f s)) = true.
Proof.
  intros H. unfold str_map. rewrite str_list_str, forallb_forall.
  intros x [y [<- _]]%in_map_iff. apply H.
Qed.

Lemma str_truthy_spec s : str_truthy s = true ↔ s ≠ "".
Proof. unfold str_truthy. rewrite negb_true_iff. apply String.eqb_neq. Qed.

#[export] Hint Rewrite list_str_list str_list_str : pydb.

(** Text the normalisers leave alone. *)
Lemma drop_while_none {A} (p : A → bool) l :
  forallb (λ x, negb (p x)) l = true → drop_while p l = l.
Proof. destruct l as [|x l]; cbn; [done|]. by destruct (p x). Qed.

Lemma str_strip_id s : forallb (λ c, negb (is_space c)) (str_list s) = true → str_strip s = s.
Proof.
  intros H. unfold str_strip. rewrite (drop_while_none _ (str_list s)) by done.
  rewrite drop_while_none; [by rewrite rev_involutive, list_str_list|].
  rewrite forallb_forall in H |- *. intros x Hx. apply H. by apply in_rev.
Qed.

Lemma str_map_id f s : (∀ c, In c (str_list s) → f c = c) → str_map f s = s.
Proof.
  intros H. unfold str_map. rewrite (map_ext_in _ id) by done. by rewrite map_id, list_str_list.
Qed.

(** ** The order of strings (code points, lexicographic) *)

Lemma string_leb_cons a s b t :
  String.leb (String a s) (String b t) =
  (ord a <? ord b) || ((ord a =? ord b) && String.leb s t).
Proof.
  unfold String.leb. cbn [String.compare]. unfold Ascii.compare, ord.
  destruct (N.compare_spec (N_of_ascii a) (N_of_ascii b)) as [He|Hl|Hg].
  - rewrite He, Z.ltb_irrefl, Z.eqb_refl. done.
  - rewrite (proj2 (Z.ltb_lt _ _)) by lia. done.
  - rewrite (proj2 (Z.ltb_ge _ _)), (proj2 (Z.eqb_neq _ _)) by lia. done.
Qed.

Lemma string_leb_trans s t u :
  String.leb s t = true → String.leb t u = true → String.leb s u = true.
Proof.
  revert t u. induction s as [|a s IH]; intros [|b t] [|c u]; try done.
  rewrite !string_leb_cons, !orb_true_iff, !andb_true_iff, !Z.ltb_lt, !Z.eqb_eq.
  intros [?|[? Hst]] [?|[? Htu]]; [left; lia..|]. right. split; [lia|]. by eapply IH.
Qed.

Lemma str_list_append a b : str_list (String.append a b) = str_list a ++ str_list b.
Proof. induction a as [|c a IH]; [done|]. exact (f_equal (cons c) IH). Qed.
