(* ===== verification/PyCollections.v ===== *)
(** Python's collections as the modelled code uses them: [sorted] (stable),
    [dict.fromkeys], insertion-ordered dictionaries and [OrderedDict]. *)

From S2P Require Import Prelude.
From Stdlib Require Import Permutation.
#[global] Open Scope list_scope.

(** ** sorted(l, key=...): a stable sort

    [le x y] is the comparison [key x <= key y].  Insertion in front of the
    first element that is not smaller keeps equal elements in input order. *)
Section py_sorted.
Context {A : Type} (le : A → A → bool).

Fixpoint insert_sorted (x : A) (l : list A) : list A :=
    match l with
    | [] => [x]
    | y :: l' => if le x y then x :: y :: l' else y :: insert_sorted x l'
    end.

Fixpoint py_sorted (l : list A) : list A :=
    match l with
    | [] => []
    | x :: l' => insert_sorted x (py_sorted l')
    end.

Lemma insert_sorted_perm x l : insert_sorted x l ≡ₚ x :: l.
Proof.
    induction l as [|y l IH]; cbn; [done|].
    destruct (le x y); [done|]. by rewrite IH, Permutation_swap.
Qed.

Lemma py_sorted_perm l : py_sorted l ≡ₚ l.
Proof. induction l as [|x l IH]; cbn; [done|]. by rewrite insert_sorted_perm, IH. Qed.

Lemma py_sorted_elem l x : x ∈ py_sorted l ↔ x ∈ l.
Proof. by rewrite py_sorted_perm. Qed.

Lemma py_sorted_length l : length (py_sorted l) = length l.
Proof. by rewrite py_sorted_perm. Qed.

(** Sortedness, for a total preorder. *)
Section order.
Context (P : A → Prop)
      (le_total : ∀ x y, P x → P y → le x y = true ∨ le y x = true)
      (le_trans : ∀ x y z, P x → P y → P z → le x y = true → le y z = true → le x z = true).

Lemma insert_sorted_sorted x l :
      P x → Forall P l →
      StronglySorted (λ a b, le a b = true) l →
      StronglySorted (λ a b, le a b = true) (insert_sorted x l).
Proof.
      intros Hx HP. induction 1 as [|y l Hs IH Hy]; cbn; [repeat constructor|].
      apply Forall_cons in HP as [HPy HPl].
      destruct (le x y) eqn:Hxy.
      - constructor; [by constructor|]. constructor; [done|].
        rewrite Forall_forall in Hy, HPl |- *. intros z Hz.
        apply (le_trans x y z); auto.
      - constructor; [by apply IH|].
        rewrite insert_sorted_perm. constructor; [|done].
        destruct (le_total x y); congruence.
Qed.

Lemma py_sorted_sorted l :
      Forall P l → StronglySorted (λ a b, le a b = true) (py_sorted l).
Proof.
      induction 1 as [|x l Hx Hl IH]; cbn; [constructor|].
      apply insert_sorted_sorted; [done| |done]. by rewrite py_sorted_perm.
Qed.
End order.

(** Stability: the elements that compare equal to [k] keep their input order. *)
Definition same_key (k x : A) : bool := le k x && le x k.

Lemma insert_sorted_filter_other (p : A → bool) x l :
    p x = false → List.filter p (insert_sorted x l) = List.filter p l.
Proof.
    intros Hx. induction l as [|y l IH]; cbn; [by rewrite Hx|].
    destruct (le x y); cbn; [by rewrite Hx | by rewrite IH].
Qed.

Lemma insert_sorted_filter_same (p : A → bool) x l :
    p x = true → (∀ y, y ∈ l → p y = true → le x y = true) →
    List.filter p (insert_sorted x l) = x :: List.filter p l.
Proof.
    intros Hx. induction l as [|y l IH]; intros Hle; cbn; [by rewrite Hx|].
    destruct (le x y) eqn:Hxy; cbn; [by rewrite Hx|].
    destruct (p y) eqn:Hy.
    - rewrite (Hle y) in Hxy; [done|left|done].
    - apply IH. intros z Hz. apply Hle. by right.
Qed.

Lemma py_sorted_stable (p : A → bool) l :
    (∀ x y, x ∈ l → y ∈ l → p x = true → p y = true → le x y = true) →
    List.filter p (py_sorted l) = List.filter p l.
Proof.
    induction l as [|x l IH]; intros H; cbn; [done|].
    assert (List.filter p (py_sorted l) = List.filter p l) as IH'.
    { apply IH. intros; apply H; by try right. }
    destruct (p x) eqn:Hx.
    - rewrite insert_sorted_filter_same; [by rewrite IH'|done|].
      intros y Hy Hpy. apply H; [left|right|..]; try done. by apply py_sorted_elem.
    - by rewrite insert_sorted_filter_other.
Qed.

Lemma insert_sorted_head x l :
    Forall (λ y, le x y = true) l → insert_sorted x l = x :: l.
Proof. by destruct 1 as [|y l Hy _]; cbn; rewrite ?Hy. Qed.

Lemma py_sorted_id l : StronglySorted (λ a b, le a b = true) l → py_sorted l = l.
Proof. induction 1 as [|x l Hs IH Hx]; cbn; [done|]. by rewrite IH, insert_sorted_head. Qed.
End py_sorted.

(** ** list(dict.fromkeys(l)): first occurrences, in order *)
Section fromkeys.
Context {A : Type} `{EqDecision A}.

Fixpoint fromkeys_from (seen : list A) (l : list A) : list A :=
    match l with
    | [] => []
    | x :: l' =>
        if decide (x ∈ seen) then fromkeys_from seen l'
        else x :: fromkeys_from (x :: seen) l'
    end.

Definition fromkeys (l : list A) : list A := fromkeys_from [] l.

Lemma fromkeys_from_elem seen l x :
    x ∈ fromkeys_from seen l ↔ x ∈ l ∧ x ∉ seen.
Proof.
    revert seen; induction l as [|y l IH]; intros seen; cbn; [set_solver|].
    destruct (decide (y ∈ seen)).
    - rewrite IH. set_solver.
    - rewrite elem_of_cons, IH. destruct (decide (x = y)); set_solver.
Qed.

Lemma fromkeys_elem l x : x ∈ fromkeys l ↔ x ∈ l.
Proof. unfold fromkeys. rewrite fromkeys_from_elem. set_solver. Qed.

Lemma fromkeys_from_NoDup seen l : NoDup (fromkeys_from seen l).
Proof.
    revert seen; induction l as [|y l IH]; intros seen; cbn; [constructor|].
    destruct (decide (y ∈ seen)); [done|].
    constructor; [|done]. rewrite fromkeys_from_elem. set_solver.
Qed.

Lemma fromkeys_from_id seen l :
    NoDup l → (∀ x, x ∈ l → x ∉ seen) → fromkeys_from seen l = l.
Proof.
    intros Hnd. revert seen. induction Hnd as [|x l Hx Hnd IH]; intros seen Hs; [done|].
    cbn. rewrite decide_False by (apply Hs; by left). f_equal. apply IH.
    intros y Hy [->|Hin]%elem_of_cons; [done|]. by eapply Hs; [right|].
Qed.

Lemma fromkeys_id l : NoDup l → fromkeys l = l.
Proof. intros Hl. apply fromkeys_from_id; [done|]. intros x _. apply not_elem_of_nil. Qed.

Lemma fromkeys_NoDup l : NoDup (fromkeys l).
Proof. apply fromkeys_from_NoDup. Qed.
End fromkeys.

(** ** Insertion-ordered dictionaries (dict, OrderedDict) *)
Section odict.
Context {K V : Type} `{EqDecision K}.
Implicit Types (d : list (K * V)) (k : K) (v : V).

(** [d.get(k)]. *)
Fixpoint od_get k d : option V :=
    match d with
    | [] => None
    | (k', v) :: d' => if decide (k = k') then Some v else od_get k d'
    end.

(** [d[k] = v]: a present key keeps its place. *)
Fixpoint od_set k v d : list (K * V) :=
    match d with
    | [] => [(k, v)]
    | (k', v') :: d' => if decide (k = k') then (k, v) :: d' else (k', v') :: od_set k v d'
    end.

(** [d.pop(k, None)] / [del d[k]] on a present key. *)
Fixpoint od_del k d : list (K * V) :=
    match d with
    | [] => []
    | (k', v) :: d' => if decide (k = k') then od_del k d' else (k', v) :: od_del k d'
    end.

(** [d.move_to_end(k)] of a present key. *)
Definition od_move_to_end k d : list (K * V) :=
    match od_get k d with
    | Some v => od_del k d ++ [(k, v)]
    | None => d
    end.

(** [while len(d) > n: d.popitem(last=False)]. *)
Definition od_trim (n : nat) d : list (K * V) := skipn (length d - n) d.

Definition od_wf d : Prop := NoDup d.*1.

Lemma od_get_set k k' v d :
    od_get k' (od_set k v d) = if decide (k' = k) then Some v else od_get k' d.
Proof.
    induction d as [|[k0 v0] d IH]; cbn; repeat case_decide; cbn; repeat case_decide; congruence.
Qed.

Lemma od_set_keys k v d x : x ∈ (od_set k v d).*1 ↔ x = k ∨ x ∈ d.*1.
Proof.
    induction d as [|[k0 v0] d IH]; cbn; [set_solver|].
    case_decide; cbn; rewrite !elem_of_cons; [set_solver|]. rewrite IH. set_solver.
Qed.

Lemma od_set_wf k v d : od_wf d → od_wf (od_set k v d).
Proof.
    unfold od_wf. induction d as [|[k0 v0] d IH]; cbn.
    { intros _. constructor; [set_solver | constructor]. }
    intros [Hk Hd]%NoDup_cons. case_decide; cbn; [subst; by constructor|].
    constructor; [|by apply IH]. rewrite od_set_keys. set_solver.
Qed.

Lemma od_del_keys k d x : x ∈ (od_del k d).*1 ↔ x ≠ k ∧ x ∈ d.*1.
Proof.
    induction d as [|[k0 v0] d IH]; cbn; [set_solver|].
    case_decide; cbn; rewrite ?elem_of_cons, IH; set_solver.
Qed.

Lemma od_del_wf k d : od_wf d → od_wf (od_del k d).
Proof.
    unfold od_wf. induction d as [|[k0 v0] d IH]; cbn; [done|].
    intros [Hk Hd]%NoDup_cons. case_decide; cbn; [by apply IH|].
    constructor; [|by apply IH]. rewrite od_del_keys. set_solver.
Qed.

Lemma od_get_del k k' d : od_get k' (od_del k d) = if decide (k' = k) then None else od_get k' d.
Proof.
    induction d as [|[k0 v0] d IH]; cbn; repeat case_decide; try done;
      cbn; repeat case_decide; congruence.
Qed.

Lemma od_get_elem k d : is_Some (od_get k d) ↔ k ∈ d.*1.
Proof.
    induction d as [|[k0 v0] d IH]; cbn.
    { split; [by intros [? ?] | set_solver]. }
    case_decide; rewrite elem_of_cons; [naive_solver|]. rewrite IH. naive_solver.
Qed.

Lemma od_get_Some_elem k v d : od_get k d = Some v → (k, v) ∈ d.
Proof.
    induction d as [|[k0 v0] d IH]; cbn; [done|].
    case_decide; [intros; simplify_eq; left | intros; right; auto].
Qed.

Lemma od_get_in k v d : od_wf d → (k, v) ∈ d → od_get k d = Some v.
Proof.
    unfold od_wf. induction d as [|[k' v'] d IH]; cbn; [by rewrite elem_of_nil|].
    intros [Hni Hnd]%NoDup_cons [[= <- <-]|Hin]%elem_of_cons; [by rewrite decide_True|].
    rewrite decide_False; [by apply IH|]. intros ->. apply Hni. by apply (list_elem_of_fmap_2 fst _ _ Hin).
Qed.

Lemma od_get_app k d1 d2 :
    od_get k (d1 ++ d2) = match od_get k d1 with Some v => Some v | None => od_get k d2 end.
Proof. induction d1 as [|[k0 v0] d1 IH]; cbn; [done|]. by case_decide. Qed.

Lemma od_get_move_to_end k k' d : od_get k' (od_move_to_end k d) = od_get k' d.
Proof.
    unfold od_move_to_end. destruct (od_get k d) eqn:Hk; [|done].
    rewrite od_get_app, od_get_del. cbn. repeat case_decide; subst; try done.
    by destruct (od_get k' d).
Qed.

Lemma od_move_to_end_wf k d : od_wf d → od_wf (od_move_to_end k d).
Proof.
    intros Hd. unfold od_move_to_end. destruct (od_get k d) eqn:Hk; [|done].
    unfold od_wf. rewrite fmap_app. apply NoDup_app. split; [by apply od_del_wf|].
    split; [|apply NoDup_singleton]. intros x [Hx _]%od_del_keys. set_solver.
Qed.

Lemma od_trim_length n d : (length (od_trim n d) ≤ n)%nat.
Proof. unfold od_trim. rewrite length_skipn. lia. Qed.

Lemma od_trim_wf n d : od_wf d → od_wf (od_trim n d).
Proof.
    unfold od_wf, od_trim. intros Hd. rewrite fmap_drop.
    eapply sublist_NoDup; [done | apply sublist_drop].
Qed.

Lemma od_set_length k v d :
    length (od_set k v d) = (if od_get k d is Some _ then length d else S (length d)).
Proof.
    induction d as [|[k0 v0] d IH]; cbn; [done|].
    case_decide; cbn; [done|]. rewrite IH. by destruct (od_get k d).
Qed.
End odict.

(** A weaker relation on the elements of a sorted list. *)
Lemma StronglySorted_mono {A} (P : A → Prop) (R R' : A → A → Prop) l :
  (∀ a b, P a → P b → R a b → R' a b) →
  StronglySorted R l → Forall P l → StronglySorted R' l.
Proof.
  intros HR. induction 1 as [|x l Hs IH Hx]; [constructor|].
  intros [HPx HPl]%Forall_cons. constructor; [by apply IH|].
  rewrite Forall_forall in Hx, HPl |- *. auto.
Qed.

Lemma StronglySorted_filter {A} (R : A → A → Prop) (p : A → bool) l :
  StronglySorted R l → StronglySorted R (List.filter p l).
Proof.
  induction 1 as [|x l Hs IH Hx]; cbn; [constructor|]. destruct (p x); [|done].
  constructor; [done|]. rewrite Forall_forall in *.
  intros y [Hy _]%list_elem_of_In%filter_In. apply Hx. by apply list_elem_of_In.
Qed.

(** ** Sums over a finite map, in any commutative monoid *)
Section total.
Context {A G : Type} (op : G → G → G) (e : G) `{!Assoc eq op} `{!Comm eq op} `{!LeftId eq e op}.
Context (f : string → A → G).

Definition sum_list (l : list (string * A)) : G := foldr (λ kv n, op (f kv.1 kv.2) n) e l.

Definition total (m : gmap string A) : G := sum_list (map_to_list m).

Lemma sum_list_perm l l' : l ≡ₚ l' → sum_list l = sum_list l'.
Proof.
  unfold sum_list. induction 1 as [|x l l' _ IH|x y l|l1 l2 l3 _ IH1 _ IH2]; cbn;
    [done|by rewrite IH| |by rewrite IH1].
  by rewrite !(assoc op), (comm op (f _ _) (f _ _)).
Qed.

Lemma sum_list_left l a : fold_left (λ acc kv, op acc (f kv.1 kv.2)) l a = op a (sum_list l).
Proof.
  unfold sum_list. revert a. induction l as [|x l IH]; intros a; cbn; [by rewrite (comm op), (left_id e op)|].
  by rewrite IH, <- (assoc op).
Qed.

Lemma total_empty : total ∅ = e.
Proof. unfold total. by rewrite map_to_list_empty. Qed.

Lemma total_insert_new m k a : m !! k = None → total (<[k := a]> m) = op (f k a) (total m).
Proof. intros Hk. unfold total. by rewrite (sum_list_perm _ _ (map_to_list_insert m k a Hk)). Qed.

Lemma total_insert m k a : total (<[k := a]> m) = op (f k a) (total (delete k m)).
Proof. rewrite <- insert_delete_eq. apply total_insert_new, lookup_delete_eq. Qed.

Lemma total_lookup m k a : m !! k = Some a → total m = op (f k a) (total (delete k m)).
Proof. intros Hk. rewrite <- total_insert. by rewrite insert_id. Qed.

(** Entries that weigh nothing do not matter. *)
Lemma total_filter (P : string * A → Prop) `{!∀ x, Decision (P x)} m :
  (∀ k a, m !! k = Some a → ¬ P (k, a) → f k a = e) → total (filter P m) = total m.
Proof.
  induction m as [|k a m Hk IH] using map_ind; intros Hz; [by rewrite map_filter_empty|].
  rewrite total_insert_new by done.
  assert (Hm : total (filter P m) = total m).
  { apply IH. intros k' a' Hk'. apply Hz. rewrite lookup_insert_ne; [done|]. by intros ->; rewrite Hk in Hk'. }
  destruct (decide (P (k, a))) as [HP|HP].
  - rewrite map_filter_insert_True by done. rewrite total_insert_new, Hm; [done|].
    apply map_lookup_filter_None. by left.
  - rewrite map_filter_insert_False by done. rewrite delete_id by done.
    rewrite Hm, (Hz k a), (left_id e op); [done|by rewrite lookup_insert_eq|done].
Qed.
End total.

(** A new key goes to the end of a dictionary. *)
Lemma od_set_new `{EqDecision K} {V} (k : K) (v : V) d : k ∉ d.*1 → od_set k v d = d ++ [(k, v)].
Proof.
  induction d as [|[k' v'] d IH]; cbn; [done|]. rewrite not_elem_of_cons. intros [Hk Hd].
  rewrite decide_False by done. by rewrite IH.
Qed.

Lemma od_get_None `{EqDecision K} {V} (k : K) (d : list (K * V)) : od_get k d = None ↔ (k ∉ d.*1).
Proof. rewrite <- od_get_elem. by rewrite eq_None_not_Some. Qed.
