(* ===== verification/PyFloat.v ===== *)
(** Python's [float]: IEEE 754 binary64, on the executable [spec_float] of the
    Standard Library (no primitive, no axiom). *)

From Stdlib Require Import Bool.
From Stdlib Require Export Floats.SpecFloat.
From S2P Require Import Prelude.
#[global] Open Scope Z_scope.

Abbreviation float := spec_float.

(** ** Operations, rounded to nearest even *)

Definition fadd : float → float → float := SFadd 53 1024.
Definition fsub : float → float → float := SFsub 53 1024.
Definition fmul : float → float → float := SFmul 53 1024.
Definition fdiv : float → float → float := SFdiv 53 1024.
Definition fopp : float → float := SFopp.

(** Comparisons: every comparison with a NaN is false. *)
Definition fltb : float → float → bool := SFltb.
Definition fleb : float → float → bool := SFleb.
Definition feqb : float → float → bool := SFeqb.

(** [float(n)]; the integers of the modelled code are far below the overflow
    threshold 2^1024. *)
Definition float_of_Z (n : Z) : float := binary_normalize 53 1024 n 0 false.

(** The float nearest to the non-negative decimal literal [n / d]: the quotient
    of the two exact mantissas, rounded once. *)
Definition float_lit (n : Z) (d : positive) : float :=
  match n with
  | Zpos p => fdiv (S754_finite false p 0) (S754_finite false d 0)
  | _ => S754_zero false
  end.

Definition f0 : float := S754_zero false.
Definition f1 : float := float_of_Z 1.

Definition is_nan (x : float) : bool := match x with S754_nan => true | _ => false end.

(** [math.isfinite(x)]. *)
Definition is_finite (x : float) : bool :=
  match x with S754_zero _ | S754_finite _ _ _ => true | _ => false end.

(** The truth value of a float: [x != 0.0]. *)
Definition float_truthy (x : float) : bool := negb (feqb x f0).

(** [max(x, y)] and [min(x, y)]: the first argument unless the second one
    compares strictly better. *)
Definition fmax (x y : float) : float := if fltb x y then y else x.
Definition fmin (x y : float) : float := if fltb y x then y else x.

Definition float_eq_dec (x y : float) : {x = y} + {x ≠ y}.
Proof. decide equality; try apply Pos.eq_dec; try apply Z.eq_dec; apply bool_dec. Defined.
#[export] Instance float_eqdec : EqDecision float := float_eq_dec.

(** ** The order

    [SFcompare] is the lexicographic order of a rank, so the comparisons of
    floats that are not NaN form a total preorder. *)

Definition rank (x : float) : Z * Z * Z :=
  match x with
  | S754_infinity true => (-2, 0, 0)
  | S754_finite true m e => (-1, - e, Z.neg m)
  | S754_zero _ => (0, 0, 0)
  | S754_finite false m e => (1, e, Z.pos m)
  | S754_infinity false => (2, 0, 0)
  | S754_nan => (3, 0, 0)
  end.

Definition lex_ltb (x y : Z * Z * Z) : bool :=
  let '(a, b, c) := x in
  let '(a', b', c') := y in
  (a <? a') || ((a =? a') && ((b <? b') || ((b =? b') && (c <? c')))).

Lemma fltb_rank x y :
  is_nan x = false → is_nan y = false → fltb x y = lex_ltb (rank x) (rank y).
Proof.
  intros Hx Hy. unfold fltb, SFltb, SFcompare, lex_ltb, rank.
  destruct x as [[]|[]| |[] mx ex], y as [[]|[]| |[] my ey];
    try done; cbn; repeat rewrite Z.ltb_irrefl; cbn; try done.
  - destruct (Z.compare_spec ex ey); cbn [CompOpp]; [subst|..].
    + rewrite Z.ltb_irrefl, Z.eqb_refl. cbn. unfold Z.ltb. cbn.
      change (PosDef.Pos.compare_cont Eq mx my) with (mx ?= my)%positive.
      by destruct (mx ?= my)%positive.
    + rewrite (proj2 (Z.ltb_ge _ _)), (proj2 (Z.eqb_neq _ _)); [done|lia..].
    + rewrite (proj2 (Z.ltb_lt (- ex) (- ey))); [done|lia].
  - destruct (Z.compare_spec ex ey); [subst|..].
    + rewrite Z.ltb_irrefl, Z.eqb_refl. done.
    + rewrite (proj2 (Z.ltb_lt ex ey)); [done|lia].
    + rewrite (proj2 (Z.ltb_ge _ _)), (proj2 (Z.eqb_neq _ _)); [done|lia..].
Qed.

Lemma lex_ltb_spec x y :
  lex_ltb x y = true ↔
  (x.1.1 < y.1.1 ∨ (x.1.1 = y.1.1 ∧ (x.1.2 < y.1.2 ∨ (x.1.2 = y.1.2 ∧ x.2 < y.2)))).
Proof.
  destruct x as [[a b] c], y as [[a' b'] c']; cbn.
  rewrite !orb_true_iff, !andb_true_iff, !orb_true_iff, !andb_true_iff. lia.
Qed.

Lemma fltb_irrefl x : fltb x x = false.
Proof.
  destruct (is_nan x) eqn:Hx; [by destruct x|].
  rewrite fltb_rank by done. apply not_true_iff_false. rewrite lex_ltb_spec. lia.
Qed.

Lemma fltb_trans x y z :
  is_nan y = false → fltb x y = true → fltb y z = true → fltb x z = true.
Proof.
  intros Hy Hxy Hyz.
  assert (is_nan x = false) by (by destruct x).
  assert (is_nan z = false) by (by destruct y, z).
  rewrite fltb_rank, lex_ltb_spec in * by done. lia.
Qed.

Lemma fltb_asym x y : fltb x y = true → fltb y x = false.
Proof.
  intros H.
  assert (is_nan x = false) by (by destruct x).
  assert (is_nan y = false) by (by destruct x, y).
  rewrite fltb_rank, lex_ltb_spec in H by done.
  rewrite fltb_rank by done. apply not_true_iff_false. rewrite lex_ltb_spec. lia.
Qed.

(** The negated comparison is a total preorder on the floats that are not NaN. *)
Lemma not_fltb_trans x y z :
  is_nan x = false → is_nan y = false → is_nan z = false →
  fltb y x = false → fltb z y = false → fltb z x = false.
Proof.
  intros Hx Hy Hz. rewrite !fltb_rank by done.
  rewrite <- !not_true_iff_false, !lex_ltb_spec. lia.
Qed.

(** [x <= y] is "not [y < x]" when neither is NaN. *)
Lemma fleb_fltb x y :
  is_nan x = false → is_nan y = false → fleb x y = negb (fltb y x).
Proof.
  intros Hx Hy. unfold fleb, fltb, SFleb, SFltb, SFcompare.
  destruct x as [[]|[]| |[] mx ex], y as [[]|[]| |[] my ey]; try done;
    rewrite (Z.compare_antisym ex ey); destruct (ex ?= ey) eqn:?; cbn; try done;
    change (Pos.compare_cont Eq my mx) with (Pos.compare my mx);
    change (Pos.compare_cont Eq mx my) with (Pos.compare mx my);
    rewrite (Pos.compare_antisym mx my); by destruct (mx ?= my)%positive.
Qed.

(** A float that is not below zero. *)
Lemma float_of_nonneg n : 0 <= n → fltb (float_of_Z n) f0 = false.
Proof.
  intros Hn. unfold float_of_Z, binary_normalize.
  destruct n as [|p|p]; [done| |lia].
  unfold binary_round, binary_round_aux.
  repeat case_match; try done.
Qed.

Lemma fltb_fmax_l x y : fltb (fmax x y) x = false.
Proof. unfold fmax. destruct (fltb x y) eqn:H; [by apply fltb_asym | apply fltb_irrefl]. Qed.

Lemma fltb_fmax_r x y : fltb (fmax x y) y = false.
Proof. unfold fmax. destruct (fltb x y) eqn:H; [apply fltb_irrefl | done]. Qed.

Lemma fleb_nonneg x : fleb f0 x = true → fltb x f0 = false.
Proof. by destruct x as [[]|[]| |[]]. Qed.

(** ** Small integers are exact

    [float_of_Z n] for [0 < n < 2^53] has the mantissa of [n] scaled to 53 bits,
    so integer additions and comparisons on such floats are exact. *)

Definition shl_pos (n : nat) (p : positive) : positive := Nat.iter n xO p.
Definition digits (p : positive) : Z := Zpos (digits2_pos p).

Definition canonical_float (p : positive) : float :=
  S754_finite false (shl_pos (Z.to_nat (53 - digits p)) p) (digits p - 53).

Lemma shl_pos_Z n p : Zpos (shl_pos n p) = Zpos p * 2 ^ Z.of_nat n.
Proof.
  induction n as [|n IH]; [cbn; lia|].
  change (shl_pos (S n) p) with (xO (shl_pos n p)).
  rewrite Pos2Z.inj_xO, IH, Nat2Z.inj_succ, Z.pow_succ_r by lia. lia.
Qed.

Lemma shl_pos_add a b p : shl_pos a (shl_pos b p) = shl_pos (a + b) p.
Proof. unfold shl_pos. by rewrite Nat.iter_add. Qed.

Lemma digits_shl n p : digits (shl_pos n p) = digits p + Z.of_nat n.
Proof.
  unfold digits. induction n as [|n IH]; [cbn; lia|].
  change (shl_pos (S n) p) with (xO (shl_pos n p)). cbn [digits2_pos]. lia.
Qed.

Lemma digits_bounds p : 2 ^ (digits p - 1) <= Zpos p < 2 ^ digits p.
Proof.
  unfold digits. induction p as [p IH|p IH|]; cbn [digits2_pos]; [| |done].
  all: rewrite Pos2Z.inj_succ, Z.pow_succ_r by lia.
  all: replace (Z.succ (Z.pos (digits2_pos p)) - 1) with (Z.succ (Z.pos (digits2_pos p) - 1)) by lia.
  all: rewrite Z.pow_succ_r by lia; lia.
Qed.

Lemma iter_pos_nat {A} (f : A → A) n x : SpecFloat.iter_pos f n x = Nat.iter (Pos.to_nat n) f x.
Proof.
  revert x. induction n as [n IH|n IH|]; intros x; cbn [SpecFloat.iter_pos]; [| |done].
  - rewrite !IH, Pos2Nat.inj_xI, Nat.iter_succ_r.
    replace (2 * Pos.to_nat n)%nat with (Pos.to_nat n + Pos.to_nat n)%nat by lia.
    by rewrite Nat.iter_add.
  - rewrite !IH, Pos2Nat.inj_xO.
    replace (2 * Pos.to_nat n)%nat with (Pos.to_nat n + Pos.to_nat n)%nat by lia.
    by rewrite Nat.iter_add.
Qed.

Lemma shl_align_neg m e e' :
  e' < e → shl_align m e e' = (shl_pos (Z.to_nat (e - e')) m, e').
Proof.
  intros He. unfold shl_align. destruct (e' - e) as [|q|q] eqn:Hd; try lia.
  replace (Z.to_nat (e - e')) with (Pos.to_nat q) by lia.
  by rewrite Pos2Nat.inj_iter.
Qed.

Lemma shl_align_nonneg m e e' : e <= e' → shl_align m e e' = (m, e).
Proof. intros He. unfold shl_align. destruct (e' - e) eqn:Hd; [done..|lia]. Qed.

Lemma shr_1_exact n p :
  Nat.iter n shr_1 {| shr_m := Zpos (shl_pos n p); shr_r := false; shr_s := false |} =
  {| shr_m := Zpos p; shr_r := false; shr_s := false |}.
Proof.
  induction n as [|n IH]; [done|]. rewrite Nat.iter_succ_r. by apply IH.
Qed.

Lemma fexp_small d : 1 <= d <= 53 → fexp 53 1024 d = d - 53.
Proof. unfold fexp, emin. lia. Qed.

Lemma shr_fexp_exact k p :
  digits p <= 53 → 53 <= digits p + Z.of_nat k →
  shr_fexp 53 1024 (Zpos (shl_pos k p)) (- Z.of_nat k) loc_Exact =
  ({| shr_m := Zpos (shl_pos (Z.to_nat (53 - digits p)) p); shr_r := false; shr_s := false |},
   digits p - 53).
Proof.
  intros Hd Hk. unfold shr_fexp, shr_record_of_loc. cbn [Zdigits2].
  change (Z.pos (digits2_pos (shl_pos k p))) with (digits (shl_pos k p)). rewrite digits_shl.
  assert (1 <= digits p) by (unfold digits; lia).
  replace (digits p + Z.of_nat k + - Z.of_nat k) with (digits p) by lia.
  rewrite fexp_small by lia. unfold shr.
  destruct (digits p - 53 - - Z.of_nat k) as [|q|q] eqn:Hq; [| |lia].
  - f_equal; [|lia]. by replace (Z.to_nat (53 - digits p)) with k by lia.
  - rewrite iter_pos_nat. f_equal; [|lia].
    replace k with (Pos.to_nat q + Z.to_nat (53 - digits p))%nat by lia.
    rewrite <- shl_pos_add. apply shr_1_exact.
Qed.

(** Rounding [p * 2^k] at exponent [- k] is exact. *)
Lemma binary_round_exact k p :
  digits p <= 53 →
  binary_round 53 1024 false (shl_pos k p) (- Z.of_nat k) = canonical_float p.
Proof.
  intros Hd. assert (1 <= digits p) by (unfold digits; lia). unfold binary_round.
  change (Z.pos (digits2_pos (shl_pos k p))) with (digits (shl_pos k p)). rewrite digits_shl.
  replace (digits p + Z.of_nat k + - Z.of_nat k) with (digits p) by lia.
  rewrite fexp_small by lia.
  assert (∃ j, 53 <= digits p + Z.of_nat j ∧
    shl_align (shl_pos k p) (- Z.of_nat k) (digits p - 53) = (shl_pos j p, - Z.of_nat j))
    as (j & Hj & ->).
  { destruct (decide (digits p - 53 < - Z.of_nat k)) as [Hlt|Hge].
    - exists (Z.to_nat (53 - digits p)). split; [lia|]. rewrite shl_align_neg, shl_pos_add by done.
      f_equal; [f_equal|]; lia.
    - exists k. split; [lia|]. apply shl_align_nonneg. lia. }
  unfold binary_round_aux. rewrite shr_fexp_exact by done. cbn [shr_m loc_of_shr_record round_nearest_even].
  set (m := shl_pos (Z.to_nat (53 - digits p)) p).
  assert (He : shr_fexp 53 1024 (Zpos m) (digits p - 53) loc_Exact =
    ({| shr_m := Zpos m; shr_r := false; shr_s := false |}, digits p - 53)).
  { subst m. pose proof (shr_fexp_exact (Z.to_nat (53 - digits p)) p Hd) as H'.
    rewrite <- H' by lia. f_equal. lia. }
  rewrite He. cbn [shr_m]. rewrite (proj2 (Z.leb_le _ _)) by lia. done.
Qed.

Definition exact_int (n : Z) : Prop := 0 <= n < 2 ^ 53.

Lemma exact_digits p : exact_int (Zpos p) → digits p <= 53.
Proof.
  intros [_ Hp]. destruct (digits_bounds p) as [Hlo _].
  destruct (decide (digits p <= 53)) as [|Hgt]; [done|].
  assert (2 ^ 53 <= 2 ^ (digits p - 1)) by (apply Z.pow_le_mono_r; lia). lia.
Qed.

Lemma float_of_pos p : exact_int (Zpos p) → float_of_Z (Zpos p) = canonical_float p.
Proof. intros Hp. unfold float_of_Z, binary_normalize. by apply (binary_round_exact 0), exact_digits. Qed.

Lemma fadd_exact a b :
  0 <= a → 0 <= b → exact_int (a + b) → fadd (float_of_Z a) (float_of_Z b) = float_of_Z (a + b).
Proof.
  intros Ha Hb Hab.
  destruct a as [|p|]; [|clear Ha|lia].
  { destruct b as [|q|]; [done| |lia]. change (0 + Zpos q) with (Zpos q) in *.
    by rewrite float_of_pos. }
  destruct b as [|q|]; [|clear Hb|lia].
  { change (Zpos p + 0) with (Zpos p) in *. by rewrite float_of_pos. }
  assert (exact_int (Zpos p)) as Hp by (unfold exact_int in *; lia).
  assert (exact_int (Zpos q)) as Hq by (unfold exact_int in *; lia).
  change (Zpos p + Zpos q) with (Zpos (p + q)) in *.
  rewrite (float_of_pos p), (float_of_pos q), (float_of_pos (p + q)) by done.
  apply exact_digits in Hp, Hq. apply exact_digits in Hab.
  assert (1 <= digits p) by (unfold digits; lia). assert (1 <= digits q) by (unfold digits; lia).
  unfold canonical_float at 1 2, fadd, SFadd. cbv zeta.
  set (ez := Z.min _ _). cbn [cond_Zopp].
  assert (Hal : ∀ r, 1 <= digits r <= 53 → ez <= digits r - 53 →
    fst (shl_align (shl_pos (Z.to_nat (53 - digits r)) r) (digits r - 53) ez) =
    shl_pos (Z.to_nat (- ez)) r).
  { intros r Hr Hez. destruct (decide (ez < digits r - 53)).
    - rewrite shl_align_neg, shl_pos_add by done. cbn [fst]. f_equal. lia.
    - rewrite shl_align_nonneg by lia. cbn [fst]. f_equal. lia. }
  rewrite !Hal by lia. unfold binary_normalize.
  assert (Hsum : Zpos (shl_pos (Z.to_nat (- ez)) p) + Zpos (shl_pos (Z.to_nat (- ez)) q) =
                 Zpos (shl_pos (Z.to_nat (- ez)) (p + q))).
  { rewrite !shl_pos_Z, Pos2Z.inj_add. lia. }
  rewrite Hsum.
  replace ez with (- Z.of_nat (Z.to_nat (- ez))) at 2 by lia. by apply binary_round_exact.
Qed.

Lemma digits_mono p q : (p <= q)%positive → digits p <= digits q.
Proof.
  intros Hpq. destruct (digits_bounds p) as [Hp _], (digits_bounds q) as [_ Hq].
  destruct (decide (digits p <= digits q)) as [|Hgt]; [done|].
  assert (2 ^ digits q <= 2 ^ (digits p - 1)) by (apply Z.pow_le_mono_r; unfold digits in *; lia). lia.
Qed.

(** Comparisons of small integers are exact. *)
Lemma fltb_exact a b :
  exact_int a → exact_int b → fltb (float_of_Z a) (float_of_Z b) = (a <? b).
Proof.
  intros Ha Hb.
  destruct a as [|p|]; [| |by destruct Ha]; destruct b as [|q|]; try by destruct Hb.
  - by rewrite float_of_pos.
  - by rewrite float_of_pos.
  - rewrite !float_of_pos by done. rewrite fltb_rank by done. apply eq_true_iff_eq.
    rewrite lex_ltb_spec, Z.ltb_lt. unfold canonical_float, rank. cbn [fst snd].
    rewrite !shl_pos_Z.
    apply exact_digits in Ha, Hb. rewrite !Z2Nat.id by lia.
    destruct (Z.lt_trichotomy (digits p) (digits q)) as [Hlt|[Heq|Hgt]].
    + split; [|lia]. intros _. destruct (decide (p < q)%positive) as [?|?]; [lia|].
      pose proof (digits_mono q p). lia.
    + rewrite Heq. assert (0 < 2 ^ (53 - digits q)) by (apply Z.pow_pos_nonneg; lia). nia.
    + split; [lia|]. intros Hpq. pose proof (digits_mono p q). lia.
Qed.

Lemma float_of_Z_not_nan a : exact_int a → is_nan (float_of_Z a) = false.
Proof. intros Ha. destruct a as [|p|]; [done|by rewrite float_of_pos|by destruct Ha]. Qed.

Lemma fleb_exact a b :
  exact_int a → exact_int b → fleb (float_of_Z a) (float_of_Z b) = (a <=? b).
Proof.
  intros Ha Hb. rewrite fleb_fltb, fltb_exact by (done || by apply float_of_Z_not_nan).
  apply eq_true_iff_eq. rewrite negb_true_iff, Z.ltb_ge, Z.leb_le. lia.
Qed.
