(* ===== verification/PyValue.v ===== *)
(** Dynamically typed Python values: what [json.loads] returns and what
    caller-supplied documents contain. *)

From S2P Require Import Prelude PyString PyCollections PyFloat.

(** A dictionary is its list of items in insertion order. *)
Inductive pyval :=
| VNone
| VBool (b : bool)
| VInt (z : Z)
| VFloat (f : float)
| VStr (s : string)
| VList (l : list pyval)
| VTuple (l : list pyval)
| VDict (d : list (pyval * pyval)).

(** ** Induction through the nested lists *)
Definition pyval_rect_nested (P : pyval → Prop)
    (HNone : P VNone) (HBool : ∀ b, P (VBool b)) (HInt : ∀ z, P (VInt z))
    (HFloat : ∀ f, P (VFloat f)) (HStr : ∀ s, P (VStr s))
    (HList : ∀ l, Forall P l → P (VList l))
    (HTuple : ∀ l, Forall P l → P (VTuple l))
    (HDict : ∀ d, Forall (λ kv, P kv.1 ∧ P kv.2) d → P (VDict d)) : ∀ v, P v :=
  fix go v : P v :=
    match v with
    | VNone => HNone
    | VBool b => HBool b
    | VInt z => HInt z
    | VFloat f => HFloat f
    | VStr s => HStr s
    | VList l => HList l ((fix gol l : Forall P l :=
        match l with [] => Forall_nil_2 P | x :: l' => Forall_cons_2 P x l' (go x) (gol l') end) l)
    | VTuple l => HTuple l ((fix gol l : Forall P l :=
        match l with [] => Forall_nil_2 P | x :: l' => Forall_cons_2 P x l' (go x) (gol l') end) l)
    | VDict d => HDict d ((fix god d : Forall (λ kv, P kv.1 ∧ P kv.2) d :=
        match d with
        | [] => Forall_nil_2 _
        | kv :: d' => Forall_cons_2 _ kv d' (conj (go kv.1) (go kv.2)) (god d')
        end) d)
    end.

(** ** Truth value *)
Definition truthy (v : pyval) : bool :=
  match v with
  | VNone => false
  | VBool b => b
  | VInt z => negb (z =? 0)
  | VFloat f => float_truthy f
  | VStr s => str_truthy s
  | VList l | VTuple l => match l with [] => false | _ => true end
  | VDict d => match d with [] => false | _ => true end
  end.

(** [a or b]. *)
Definition py_or (a b : pyval) : pyval := if truthy a then a else b.

(** ** Dictionaries with string keys *)

Definition key_is (k : string) (v : pyval) : bool :=
  match v with VStr s => String.eqb s k | _ => false end.

(** [d.get(k)], with [None] for an absent key. *)
Fixpoint dict_get (k : string) (d : list (pyval * pyval)) : option pyval :=
  match d with
  | [] => None
  | (k', v) :: d' => if key_is k k' then Some v else dict_get k d'
  end.

Definition dget (k : string) (d : list (pyval * pyval)) : pyval := default VNone (dict_get k d).

(** [d[k] = v]. *)
Fixpoint dict_set (k : string) (v : pyval) (d : list (pyval * pyval)) : list (pyval * pyval) :=
  match d with
  | [] => [(VStr k, v)]
  | (k', v') :: d' => if key_is k k' then (k', v) :: d' else (k', v') :: dict_set k v d'
  end.

(** [d.pop(k, None)]. *)
Fixpoint dict_del (k : string) (d : list (pyval * pyval)) : list (pyval * pyval) :=
  match d with
  | [] => []
  | (k', v') :: d' => if key_is k k' then dict_del k d' else (k', v') :: dict_del k d'
  end.

Definition as_str (v : pyval) : option string :=
  match v with VStr s => Some s | _ => None end.

Lemma dict_get_set k k' v d :
  dict_get k' (dict_set k v d) = if decide (k' = k) then Some v else dict_get k' d.
Proof.
  induction d as [|[k0 v0] d IH]; cbn.
  - destruct (String.eqb_spec k k'); case_decide; congruence.
  - destruct (key_is k k0) eqn:Hk; cbn.
    + case_decide; subst; [by rewrite Hk|].
      destruct (key_is k' k0) eqn:Hk'; [|done]. destruct k0; cbn in *; try done.
      apply String.eqb_eq in Hk, Hk'. congruence.
    + destruct (key_is k' k0) eqn:Hk'; [|done].
      case_decide; [congruence|done].
Qed.

Lemma dict_get_del k k' d :
  dict_get k' (dict_del k d) = if decide (k' = k) then None else dict_get k' d.
Proof.
  induction d as [|[k0 v0] d IH]; cbn; [by case_decide|].
  destruct (key_is k k0) eqn:Hk; cbn.
  - rewrite IH. case_decide; [done|].
    destruct (key_is k' k0) eqn:Hk'; [|done]. destruct k0; cbn in *; try done.
    apply String.eqb_eq in Hk, Hk'. congruence.
  - destruct (key_is k' k0) eqn:Hk'; [|done]. case_decide; [congruence|done].
Qed.

#[export] Hint Rewrite dict_get_set dict_get_del : pydb.
