(* ===== verification/PyJson.v ===== *)
(** [json.dumps] with [ensure_ascii=False] and the separators [","] and [":"],
    the canonical text every digest of the source is taken of, and its
    injectivity: two documents with the same text are the same document up to
    the order of keys. *)

From Stdlib Require Import Ascii String.
From S2P Require Import Prelude PyString PyCollections PyFloat PyValue.

(** ** Text *)

Definition hex_digit (z : Z) : ascii := if z <? 10 then chr (48 + z) else chr (87 + z).

(** [ESCAPE_DCT] of [json.encoder]: the quote, the backslash and the control
    characters. *)
Definition json_escape (c : ascii) : list ascii :=
  let z := ord c in
  if (z =? 34) || (z =? 92) then [chr 92; c]
  else if z =? 8 then [chr 92; "b"%char] else if z =? 9 then [chr 92; "t"%char]
  else if z =? 10 then [chr 92; "n"%char] else if z =? 12 then [chr 92; "f"%char]
  else if z =? 13 then [chr 92; "r"%char]
  else if z <? 32
  then [chr 92; "u"%char; "0"%char; "0"%char; hex_digit (z / 16); hex_digit (z mod 16)]
  else [c].

Definition json_string (s : string) : list ascii :=
  chr 34 :: flat_map json_escape (str_list s) ++ [chr 34].

(** The items, comma separated. *)
Definition json_items (items : list (list ascii)) : list ascii :=
  match items with [] => [] | x :: xs => x ++ flat_map (λ y, ","%char :: y) xs end.

(** Documents have string keys: they come from JSON or from literal dicts. *)
Definition json_key (k : pyval) : list ascii :=
  match k with VStr s => json_string s | _ => [] end.

(** [sorted(dct.items())] at every level; the encoder writes a tuple as an array. *)
Definition key_le (a b : pyval * pyval) : bool :=
  match a.1, b.1 with VStr s, VStr t => String.leb s t | _, _ => true end.

Fixpoint json_view (sort_keys : bool) (v : pyval) : pyval :=
  match v with
  | VList l => VList (map (json_view sort_keys) l)
  | VTuple l => VList (map (json_view sort_keys) l)
  | VDict d =>
      let items := map (λ kv, (kv.1, json_view sort_keys kv.2)) d in
      VDict (if sort_keys then py_sorted key_le items else items)
  | _ => v
  end.

Section render.
Context (float_repr : float → string).

Fixpoint json_render (v : pyval) : list ascii :=
  match v with
  | VNone => str_list "null"
  | VBool b => str_list (if b then "true" else "false")
  | VInt z => str_list (str_of_Z z)
  | VFloat f => str_list (float_repr f)
  | VStr s => json_string s
  | VList l => "["%char :: json_items (map json_render l) ++ ["]"%char]
  | VTuple l => "["%char :: json_items (map json_render l) ++ ["]"%char]
  | VDict d =>
      "{"%char :: json_items (map (λ kv, json_key kv.1 ++ ":"%char :: json_render kv.2) d) ++ ["}"%char]
  end.

Definition json_dumps (sort_keys : bool) (v : pyval) : string :=
  list_str (json_render (json_view sort_keys v)).
End render.

Example json_dumps_example :
  json_dumps (λ _, "") true
    (VDict [(VStr "b", VTuple [VInt (-12); VNone]); (VStr "a", VStr (list_str [chr 34; chr 10]))]) =
  list_str ("{"%char :: chr 34 :: "a"%char :: chr 34 :: ":"%char :: chr 34 :: chr 92 :: chr 34 ::
            chr 92 :: "n"%char :: chr 34 :: ","%char :: chr 34 :: "b"%char :: chr 34 ::
            str_list ":[-12,null]}").
Proof. vm_compute. reflexivity. Qed.

(** Documents without floats, with string keys at every level. *)
Fixpoint plain_json (v : pyval) : bool :=
  match v with
  | VFloat _ => false
  | VList l | VTuple l => forallb plain_json l
  | VDict d => forallb (λ kv, match kv.1 with VStr _ => true | _ => false end && plain_json kv.2) d
  | _ => true
  end.

(** ** Decimal text *)

Definition digits_value (l : list ascii) : Z := fold_left (λ n c, 10 * n + (ord c - 48)) l 0.

Lemma ord_chr z : 0 <= z < 256 → ord (chr z) = z.
Proof. intros Hz. unfold ord, chr. rewrite N_ascii_embedding by lia. lia. Qed.

Lemma digit_char n : 0 <= n < 10 → is_digit (chr (48 + n)) = true ∧ ord (chr (48 + n)) - 48 = n.
Proof.
  intros Hn. unfold is_digit. rewrite ord_chr by lia.
  split; [apply andb_true_iff; split; apply Z.leb_le; lia|lia].
Qed.

Lemma digits_of_spec fuel n acc :
  0 <= n < 2 ^ Z.of_nat fuel → (0 < fuel)%nat →
  ∃ ds, digits_of fuel n acc = ds ++ acc ∧ ds ≠ [] ∧ forallb is_digit ds = true ∧ digits_value ds = n.
Proof.
  revert n acc. induction fuel as [|fuel IH]; intros n acc Hn Hf; [lia|]. cbn [digits_of].
  destruct (Z.ltb_spec n 10) as [Hlt|Hge].
  - rewrite Z.mod_small by lia. destruct (digit_char n) as [H1 H2]; [lia|].
    exists [chr (48 + n)]. cbn [app forallb]. rewrite H1. unfold digits_value. cbn [fold_left].
    split_and!; [done..|lia].
  - rewrite Nat2Z.inj_succ, Z.pow_succ_r in Hn by lia.
    assert (Hm : 0 <= n mod 10 < 10) by (apply Z.mod_pos_bound; lia).
    destruct (digit_char (n mod 10) Hm) as [H1 H2].
    destruct (decide (fuel = 0)%nat) as [->|Hne]; [cbn in Hn; lia|].
    assert (0 <= n / 10 < 2 ^ Z.of_nat fuel).
    { split; [apply Z.div_pos; lia|]. apply Z.div_lt_upper_bound; lia. }
    destruct (IH (n / 10) (chr (48 + n mod 10) :: acc)) as (ds & -> & Hds & Hall & Hval); [done|lia|].
    exists (ds ++ [chr (48 + n mod 10)]). rewrite <- app_assoc. split_and!; [done| | |].
    + by destruct ds.
    + rewrite forallb_app, Hall. cbn. by rewrite H1.
    + unfold digits_value in *. rewrite fold_left_app, Hval. cbn [fold_left]. rewrite H2.
      pose proof (Z.div_mod n 10). lia.
Qed.

(** The text of an integer: a sign, then at least one digit. *)
Lemma str_of_Z_spec z :
  ∃ ds, str_list (str_of_Z z) = (if z <? 0 then "-"%char :: ds else ds) ∧ ds ≠ [] ∧
    forallb is_digit ds = true ∧ digits_value ds = Z.abs z.
Proof.
  unfold str_of_Z. set (m := Z.abs z).
  destruct (digits_of_spec (S (Z.to_nat (Z.log2 m))) m []) as (ds & Heq & Hne & Hall & Hval); [|lia|].
  - split; [lia|]. rewrite Nat2Z.inj_succ, Z2Nat.id by apply Z.log2_nonneg.
    destruct (decide (m = 0)) as [Hm|]; [rewrite Hm; cbn; lia|]. apply Z.log2_spec. lia.
  - rewrite Heq, app_nil_r. exists ds. split_and!; [|done..].
    destruct (z <? 0); [|by rewrite str_list_str].
    change (str_list (String.append "-" (list_str ds))) with ("-"%char :: str_list (list_str ds)).
    by rewrite str_list_str.
Qed.

(** ** Reading

    The reader of the writer's own output: enough of [json.loads] to state what a
    store that keeps such text gives back. A reader returns the rest of the
    input. *)

(** The decoder of one escaped character: the character and the rest. *)
Definition unescape (l : list ascii) : option (ascii * list ascii) :=
  match l with
  | [] => None
  | c :: r =>
      if negb (ord c =? 92) then Some (c, r) else
      match r with
      | [] => None
      | k :: r' =>
          let z := ord k in
          if z =? 98 then Some (chr 8, r') else if z =? 116 then Some (chr 9, r')
          else if z =? 110 then Some (chr 10, r') else if z =? 102 then Some (chr 12, r')
          else if z =? 114 then Some (chr 13, r')
          else if z =? 117 then
            match r' with
            | _ :: _ :: a :: b :: r'' =>
                let digit c := if ord c <? 58 then ord c - 48 else ord c - 87 in
                Some (chr (16 * digit a + digit b), r'')
            | _ => None
            end
          else Some (k, r')
      end
  end.

Lemma unescape_escape c rest : unescape (json_escape c ++ rest) = Some (c, rest).
Proof. destruct c as [[] [] [] [] [] [] [] []]; reflexivity. Qed.

Fixpoint read_string (fuel : nat) (l : list ascii) : option (list ascii * list ascii) :=
  match fuel, l with
  | S fuel, c :: r =>
      if ord c =? 34 then Some ([], r) else
      '(c, r) ← unescape l; '(s, r) ← read_string fuel r; Some (c :: s, r)
  | _, _ => None
  end.

Fixpoint span (p : ascii → bool) (l : list ascii) : list ascii * list ascii :=
  match l with
  | c :: r => if p c then let '(a, b) := span p r in (c :: a, b) else ([], l)
  | [] => ([], [])
  end.

Definition read_int (l : list ascii) : option (Z * list ascii) :=
  let '(sign, l) := match l with c :: r => if ord c =? 45 then (-1, r) else (1, l) | [] => (1, l) end in
  match span is_digit l with ([], _) => None | (ds, r) => Some (sign * digits_value ds, r) end.

(** The characters of an integer, and of any number. *)
Definition int_char (c : ascii) : bool := is_digit c || (ord c =? 45).
Definition number_char (c : ascii) : bool :=
  int_char c || Ascii.eqb c "." || Ascii.eqb c "+" || Ascii.eqb c "e" || Ascii.eqb c "E".

(** The literal [word] at the start of [l]. *)
Fixpoint read_word (word l : list ascii) : option (list ascii) :=
  match word, l with
  | [], _ => Some l
  | c :: word, c' :: l => if Ascii.eqb c c' then read_word word l else None
  | _, [] => None
  end.

Section items.
Context {A : Type} (item : list ascii → option (A * list ascii)) (close : ascii).

Fixpoint read_tail (fuel : nat) (l : list ascii) : option (list A * list ascii) :=
  match fuel, l with
  | S fuel, c :: r =>
      if Ascii.eqb c close then Some ([], r)
      else if Ascii.eqb c "," then '(x, r) ← item r; '(xs, r) ← read_tail fuel r; Some (x :: xs, r)
      else None
  | _, _ => None
  end.

Definition read_items (l : list ascii) : option (list A * list ascii) :=
  match l with
  | [] => None
  | c :: r =>
      if Ascii.eqb c close then Some ([], r)
      else '(x, r) ← item l; '(xs, r) ← read_tail (S (length r)) r; Some (x :: xs, r)
  end.
End items.

Definition read_entry (value : list ascii → option (pyval * list ascii)) (l : list ascii)
    : option (pyval * pyval * list ascii) :=
  r ← read_word [chr 34] l; '(s, r) ← read_string (S (length r)) r;
  r ← read_word [":"%char] r; '(v, r) ← value r; Some ((VStr (list_str s), v), r).

Section reader.
Context (float_of_token : list ascii → option float).

Definition read_number (l : list ascii) : option (pyval * list ascii) :=
  let '(token, r) := span number_char l in
  if forallb int_char token then '(z, r) ← read_int l; Some (VInt z, r)
  else f ← float_of_token token; Some (VFloat f, r).

Fixpoint read_value (fuel : nat) (l : list ascii) : option (pyval * list ascii) :=
  match fuel, l with
  | S fuel, c :: r =>
      if Ascii.eqb c "n" then r ← read_word (str_list "null") l; Some (VNone, r)
      else if Ascii.eqb c "t" then r ← read_word (str_list "true") l; Some (VBool true, r)
      else if Ascii.eqb c "f" then r ← read_word (str_list "false") l; Some (VBool false, r)
      else if ord c =? 34 then '(s, r) ← read_string (S (length r)) r; Some (VStr (list_str s), r)
      else if Ascii.eqb c "[" then '(xs, r) ← read_items (read_value fuel) "]" r; Some (VList xs, r)
      else if Ascii.eqb c "{" then
        '(kvs, r) ← read_items (read_entry (read_value fuel)) "}" r; Some (VDict kvs, r)
      else read_number l
  | _, _ => None
  end.

Definition json_read_with (s : string) : option pyval :=
  match read_value (length (str_list s)) (str_list s) with
  | Some (v, []) => Some v
  | _ => None
  end.
End reader.

(** The reader of documents without floats. *)
Definition json_read : string → option pyval := json_read_with (λ _, None).

(** ** Round trip

    What follows a value in a document starts with a delimiter, or is empty. *)

(** What the encoder sees of a plain document: arrays, no floats, string keys. *)
Fixpoint json_normal (v : pyval) : bool :=
  match v with
  | VFloat _ | VTuple _ => false
  | VList l => forallb json_normal l
  | VDict d => forallb (λ kv, match kv.1 with VStr _ => true | _ => false end && json_normal kv.2) d
  | _ => true
  end.

(** The same, floats apart. *)
Fixpoint json_shape (v : pyval) : bool :=
  match v with
  | VTuple _ => false
  | VList l => forallb json_shape l
  | VDict d => forallb (λ kv, match kv.1 with VStr _ => true | _ => false end && json_shape kv.2) d
  | _ => true
  end.

Fixpoint json_floats (v : pyval) : list float :=
  match v with
  | VFloat f => [f]
  | VList l | VTuple l => flat_map json_floats l
  | VDict d => flat_map (λ kv, json_floats kv.2) d
  | _ => []
  end.

Definition delim (r : list ascii) : Prop :=
  match r with [] => True | c :: _ => c = ","%char ∨ c = "]"%char ∨ c = "}"%char end.

Lemma forallb_Forall {A} (p : A → bool) l : forallb p l = true ↔ Forall (λ x, p x = true) l.
Proof. rewrite forallb_forall, Forall_forall. by setoid_rewrite list_elem_of_In. Qed.

Lemma escape_length c : (1 ≤ length (json_escape c))%nat ∧
  match json_escape c with a :: _ => (ord a =? 34) = false | [] => False end.
Proof. destruct c as [[] [] [] [] [] [] [] []]; vm_compute; split; (lia || done). Qed.

Lemma escaped_length s : (length s ≤ length (flat_map json_escape s))%nat.
Proof.
  induction s as [|c s IH]; [done|]. cbn. rewrite length_app. destruct (escape_length c). lia.
Qed.

Lemma read_escaped fuel s r :
  (length s < fuel)%nat → read_string fuel (flat_map json_escape s ++ chr 34 :: r) = Some (s, r).
Proof.
  revert fuel. induction s as [|c s IH]; intros [|fuel] Hf; cbn in Hf; [lia|done|lia|].
  cbn [flat_map]. rewrite <- app_assoc. pose proof (unescape_escape c (flat_map json_escape s ++ chr 34 :: r)) as Hu.
  destruct (escape_length c) as [_ Hq]. destruct (json_escape c) as [|a l]; [done|].
  cbn [app read_string]. rewrite Hq. change (a :: l ++ ?x) with ((a :: l) ++ x). rewrite Hu.
  cbn. by rewrite IH by lia.
Qed.

Lemma span_spec p ds r :
  forallb p ds = true → match r with [] => True | c :: _ => p c = false end → span p (ds ++ r) = (ds, r).
Proof.
  intros Hds Hr. induction ds as [|c ds IH]; cbn.
  - destruct r as [|c r]; [done|]. cbn. by rewrite Hr.
  - cbn in Hds. apply andb_true_iff in Hds as [-> Hds]. by rewrite IH.
Qed.

Lemma read_int_text z r : delim r → read_int (str_list (str_of_Z z) ++ r) = Some (z, r).
Proof.
  intros Hr. destruct (str_of_Z_spec z) as (ds & -> & Hne & Hall & Hval).
  assert (Hstop : match r with [] => True | c :: _ => is_digit c = false end).
  { destruct r as [|c r]; [done|]. by destruct Hr as [-> | [-> | ->]]. }
  unfold read_int. destruct (Z.ltb_spec z 0).
  - cbn [app]. change (ord "-" =? 45) with true. cbn iota beta.
    rewrite span_spec by done. destruct ds; [done|]. f_equal. f_equal. lia.
  - destruct ds as [|c ds]; [done|]. cbn [app].
    assert ((ord c =? 45) = false) as ->.
    { cbn in Hall. apply andb_true_iff in Hall as [Hd _]. unfold is_digit in Hd.
      apply andb_true_iff in Hd as [Hd _]. apply Z.leb_le in Hd. apply Z.eqb_neq. lia. }
    change (c :: ds ++ r) with ((c :: ds) ++ r). rewrite span_spec by done. f_equal. f_equal. lia.
Qed.

Section items_roundtrip.
Context {A : Type} (f : A → list ascii) (item : list ascii → option (A * list ascii)) (close : ascii).
Hypothesis Hclose : close = "]"%char ∨ close = "}"%char.

Definition reads_back (x : A) : Prop := ∀ r, delim r → item (f x ++ r) = Some (x, r).
Definition item_head (x : A) : Prop :=
  match f x with c :: _ => c ≠ "]"%char ∧ c ≠ "}"%char | [] => False end.

Lemma tail_delim (xs : list A) r : delim (flat_map (λ y, ","%char :: y) (map f xs) ++ close :: r).
Proof. destruct xs; cbn; destruct Hclose; tauto. Qed.

Lemma read_tail_text xs fuel r :
  Forall reads_back xs → (length xs < fuel)%nat →
  read_tail item close fuel (flat_map (λ y, ","%char :: y) (map f xs) ++ close :: r) = Some (xs, r).
Proof.
  intros Hxs. revert fuel. induction Hxs as [|x xs Hx _ IH]; intros [|fuel] Hf; cbn in Hf; try lia;
    cbn [map flat_map app read_tail].
  - by rewrite Ascii.eqb_refl.
  - assert (Ascii.eqb "," close = false) as -> by (by destruct Hclose as [-> | ->]).
    change (Ascii.eqb "," ",") with true. cbn iota.
    rewrite <- app_assoc, Hx by apply tail_delim. cbn. by rewrite IH by lia.
Qed.

Lemma tail_length (xs : list A) r :
  (length xs ≤ length (flat_map (λ y, ","%char :: y) (map f xs) ++ close :: r))%nat.
Proof. induction xs as [|x xs IH]; cbn; [lia|]. rewrite length_app in *. rewrite length_app. lia. Qed.

Lemma read_items_text xs r :
  Forall reads_back xs → Forall item_head xs →
  read_items item close (json_items (map f xs) ++ close :: r) = Some (xs, r).
Proof.
  intros Hxs Hh. destruct xs as [|x xs]; cbn; [by rewrite Ascii.eqb_refl|].
  apply Forall_cons in Hxs as [Hx Hxs]. apply Forall_cons in Hh as [Hh _]. unfold item_head in Hh.
  rewrite <- app_assoc.
  set (tail := flat_map _ _ ++ _). specialize (Hx tail (tail_delim xs r)).
  unfold read_items. destruct (f x) as [|c l]; [done|]. cbn [app] in Hx |- *.
  destruct (Ascii.eqb_spec c close) as [->|_]; [destruct Hclose; naive_solver|].
  rewrite Hx. cbn [mbind option_bind]. unfold tail. rewrite read_tail_text; [done..|].
  pose proof (tail_length xs r). lia.
Qed.
End items_roundtrip.

Section roundtrip.
Context (float_repr : float → string) (float_of_token : list ascii → option float).
Abbreviation render := (json_render float_repr).

(** A float whose text is a number, not an integer, and reads back. *)
Definition float_text (f : float) : Prop :=
  let t := str_list (float_repr f) in
  forallb number_char t = true ∧ forallb int_char t = false ∧ float_of_token t = Some f.

(** What can be read back: a shape, and floats that can. *)
Definition readable (v : pyval) : Prop := json_shape v = true ∧ Forall float_text (json_floats v).

Lemma number_first v :
  match v with VInt _ => True | VFloat f => float_text f | _ => False end →
  ∃ c l, render v = c :: l ∧ number_char c = true.
Proof.
  destruct v as [| |z|f| | | |]; try done; cbn [json_render].
  - intros _. destruct (str_of_Z_spec z) as (ds & -> & Hne & Hall & _). destruct (z <? 0).
    + by eexists _, _.
    + destruct ds as [|c ds]; [done|]. eexists _, _. split; [done|]. cbn in Hall.
      apply andb_true_iff in Hall as [Hd _]. unfold number_char, int_char. by rewrite Hd.
  - intros (Hn & Hi & _). destruct (str_list (float_repr f)) as [|c l]; [done|]. exists c, l. split; [done|].
    cbn in Hn. by apply andb_true_iff in Hn as [? _].
Qed.

Lemma number_char_not c a : number_char c = true → number_char a = false → Ascii.eqb c a = false.
Proof. intros Hc Ha. apply Ascii.eqb_neq. congruence. Qed.

Lemma render_head v : readable v → item_head render v.
Proof.
  intros [Hs Hf]. unfold item_head. destruct v as [|[]|z|f|s|l|l|d]; try done; try by vm_compute.
  - destruct (number_first (VInt z) I) as (c & l & -> & Hc). by split; intros ->.
  - cbn in Hf. apply Forall_cons in Hf as [Hf _].
    destruct (number_first (VFloat f) Hf) as (c & l & -> & Hc). by split; intros ->.
Qed.

Lemma readable_item l x : readable (VList l) → x ∈ l → readable x.
Proof.
  intros [Hs Hf] Hx. cbn in Hs, Hf. rewrite forallb_Forall, Forall_forall in Hs. split; [by apply Hs|].
  apply Forall_forall. intros f Hin. rewrite Forall_forall in Hf. apply Hf.
  apply list_elem_of_In, in_flat_map. exists x. by rewrite <- !list_elem_of_In.
Qed.

Lemma readable_entry d k x : readable (VDict d) → (k, x) ∈ d → (∃ s, k = VStr s) ∧ readable x.
Proof.
  intros [Hs Hf] Hx. cbn in Hs, Hf. rewrite forallb_Forall, Forall_forall in Hs.
  specialize (Hs _ Hx). cbn in Hs. apply andb_true_iff in Hs as [Hk Hs].
  split; [destruct k; naive_solver|]. split; [done|].
  apply Forall_forall. intros f Hin. rewrite Forall_forall in Hf. apply Hf.
  apply list_elem_of_In, in_flat_map. exists (k, x). by rewrite <- !list_elem_of_In.
Qed.

Lemma number_stop r : delim r → match r with [] => True | c :: _ => number_char c = false end.
Proof. destruct r as [|c r]; [done|]. by intros [-> | [-> | ->]]. Qed.

Lemma read_number_text v r :
  match v with VInt _ => True | VFloat f => float_text f | _ => False end → delim r →
  read_number float_of_token (render v ++ r) = Some (v, r).
Proof.
  intros Hv Hr. pose proof (number_stop r Hr) as Hstop. unfold read_number.
  destruct v as [| |z|f| | | |]; try done; cbn [json_render].
  - assert (Hi : forallb int_char (str_list (str_of_Z z)) = true).
    { destruct (str_of_Z_spec z) as (ds & -> & _ & Hall & _).
      assert (forallb int_char ds = true).
      { rewrite forallb_Forall in Hall |- *. eapply Forall_impl; [exact Hall|]. intros c Hc. cbn in Hc.
        unfold int_char. by rewrite Hc. }
      by destruct (z <? 0). }
    rewrite span_spec; [|rewrite forallb_Forall in Hi |- *; eapply Forall_impl; [exact Hi|];
      intros c Hc; unfold number_char; cbn in Hc; by rewrite Hc|done].
    rewrite Hi, read_int_text by done. done.
  - destruct Hv as (Hn & Hi & Hf). rewrite span_spec by done. rewrite Hi, Hf. done.
Qed.

Lemma item_length x l : x ∈ l → (length (render x) ≤ length (json_items (map render l)))%nat.
Proof.
  destruct l as [|y l]; cbn; [by rewrite elem_of_nil|]. rewrite elem_of_cons, length_app.
  intros [->|Hx]; [lia|]. assert (length (render x) ≤ length (flat_map (λ y, ","%char :: y) (map render l)))%nat; [|lia].
  induction l as [|z l IH]; [by apply elem_of_nil in Hx|]. cbn. rewrite length_app.
  apply elem_of_cons in Hx as [->|Hx]; [lia|]. specialize (IH Hx). lia.
Qed.

Abbreviation render_entry := (λ kv : pyval * pyval, json_key kv.1 ++ ":"%char :: render kv.2).

Lemma entry_length kv d :
  kv ∈ d → (length (render kv.2) ≤ length (json_items (map render_entry d)))%nat.
Proof.
  destruct d as [|y d]; cbn; [by rewrite elem_of_nil|]. rewrite elem_of_cons, !length_app. cbn.
  intros [->|Hx]; [lia|].
  assert (length (render kv.2) ≤ length (flat_map (λ y, ","%char :: y) (map render_entry d)))%nat; [|lia].
  induction d as [|z d IH]; [by apply elem_of_nil in Hx|]. cbn. rewrite !length_app. cbn.
  apply elem_of_cons in Hx as [->|Hx]; [lia|]. specialize (IH Hx). lia.
Qed.

Lemma read_string_text s r :
  read_string (S (length (flat_map json_escape (str_list s) ++ chr 34 :: r)))
    (flat_map json_escape (str_list s) ++ chr 34 :: r) = Some (str_list s, r).
Proof. apply read_escaped. rewrite length_app. pose proof (escaped_length (str_list s)). lia. Qed.

Lemma read_entry_text value k v r :
  (∀ r, delim r → value (render v ++ r) = Some (v, r)) → delim r →
  read_entry value (render_entry (VStr k, v) ++ r) = Some ((VStr k, v), r).
Proof.
  intros Hv Hr. cbn [fst snd json_key]. unfold json_string, read_entry. cbn [app].
  rewrite <- !app_assoc. cbn [app read_word]. rewrite Ascii.eqb_refl.
  cbn [mbind option_bind]. rewrite read_string_text. cbn [mbind option_bind read_word].
  rewrite Ascii.eqb_refl. cbn [mbind option_bind]. rewrite Hv by done. cbn. by rewrite list_str_list.
Qed.

(** A number is not taken for anything else. *)
Lemma read_number_value v fuel r :
  match v with VInt _ => True | VFloat f => float_text f | _ => False end → delim r →
  (length (render v) ≤ fuel)%nat → read_value float_of_token fuel (render v ++ r) = Some (v, r).
Proof.
  intros Hv Hr Hf. pose proof (read_number_text v r Hv Hr) as Hn.
  destruct (number_first v Hv) as (c & l & Heq & Hc). rewrite Heq in *. destruct fuel; [cbn in Hf; lia|].
  cbn [app read_value] in *. rewrite !(number_char_not c) by done.
  assert ((ord c =? 34) = false) as ->; [|done].
  destruct (Z.eqb_spec (ord c) 34) as [H34|]; [|done]. assert (c = chr 34) as ->; [|done].
  unfold chr. rewrite <- H34. unfold ord. by rewrite N2Z.id, ascii_N_embedding.
Qed.

(** Reading stops exactly at the end of the value. *)
Lemma read_render v fuel r :
  readable v → delim r → (length (render v) ≤ fuel)%nat →
  read_value float_of_token fuel (render v ++ r) = Some (v, r).
Proof.
  revert fuel r. induction v as [|b|z|f|s|l IH|l IH|d IH] using pyval_rect_nested; intros fuel r Hv Hr Hf.
  - destruct fuel; [cbn in Hf; lia|done].
  - destruct b, fuel; try (cbn in Hf; lia); done.
  - by apply read_number_value.
  - apply read_number_value; [|done..]. destruct Hv as [_ Hv]. cbn in Hv. by apply Forall_cons in Hv as [? _].
  - destruct fuel; [cbn in Hf; lia|]. cbn [json_render json_string app read_value].
    cbn [json_render json_string]. rewrite <- app_assoc. cbn [app].
    change (Ascii.eqb (chr 34) "n") with false. change (Ascii.eqb (chr 34) "t") with false.
    change (Ascii.eqb (chr 34) "f") with false. change (ord (chr 34) =? 34) with true. cbn iota.
    rewrite read_string_text. cbn. by rewrite list_str_list.
  - destruct fuel; [cbn in Hf; lia|]. cbn [json_render app read_value].
    change (Ascii.eqb "[" "n") with false. change (Ascii.eqb "[" "t") with false.
    change (Ascii.eqb "[" "f") with false. change (ord "[" =? 34) with false.
    change (Ascii.eqb "[" "[") with true. cbn iota. rewrite <- app_assoc. cbn [app].
    rewrite (read_items_text render); [done|by left|..].
    + apply Forall_forall. intros x Hx r' Hr'. rewrite Forall_forall in IH.
      apply IH; [done|by eapply readable_item|done|].
      pose proof (item_length x l Hx). cbn [json_render length] in Hf. rewrite length_app in Hf.
      cbn [length] in Hf. lia.
    + apply Forall_forall. intros x Hx. by eapply render_head, readable_item.
  - destruct Hv as [Hv _]. done.
  - destruct fuel; [cbn in Hf; lia|]. cbn [json_render app read_value].
    change (Ascii.eqb "{" "n") with false. change (Ascii.eqb "{" "t") with false.
    change (Ascii.eqb "{" "f") with false. change (ord "{" =? 34) with false.
    change (Ascii.eqb "{" "[") with false. change (Ascii.eqb "{" "{") with true.
    cbn iota. rewrite <- app_assoc. cbn [app].
    rewrite (read_items_text render_entry); [done|by right|..].
    + apply Forall_forall. intros [k x] Hx r' Hr'. rewrite Forall_forall in IH.
      destruct (readable_entry d k x Hv Hx) as [[k' ->] Hn]. apply read_entry_text; [|done].
      intros r2 Hr2. destruct (IH _ Hx) as [_ IHx]. apply IHx; [done..|].
      pose proof (entry_length _ d Hx) as Hlen. cbn [json_render length] in Hf. rewrite length_app in Hf.
      cbn [length] in Hf. cbn [snd] in Hlen |- *. lia.
    + apply Forall_forall. intros [k x] Hx. unfold item_head.
      by destruct (readable_entry d k x Hv Hx) as [[k' ->] _].
Qed.

(** The reader gives back what the encoder saw. *)
Lemma json_read_with_render v : readable v → json_read_with float_of_token (list_str (render v)) = Some v.
Proof.
  intros Hv. unfold json_read_with. rewrite str_list_str. rewrite <- (app_nil_r (render v)) at 2.
  by rewrite read_render by (done || lia).
Qed.

(** Documents with floats that have the same text look the same to the encoder. *)
Lemma json_dumps_inj_floats b v v' :
  readable (json_view b v) → readable (json_view b v') →
  json_dumps float_repr b v = json_dumps float_repr b v' → json_view b v = json_view b v'.
Proof.
  intros Hv Hv' Heq. apply (f_equal (json_read_with float_of_token)) in Heq. unfold json_dumps in Heq.
  rewrite !json_read_with_render in Heq by done. by injection Heq.
Qed.
End roundtrip.

Lemma normal_readable float_repr float_of_token v :
  json_normal v = true → readable float_repr float_of_token v.
Proof.
  induction v as [|b|z|f|s|l IH|l IH|d IH] using pyval_rect_nested; try done; cbn;
    rewrite forallb_Forall; intros Hv; unfold readable; cbn.
  - split.
    + rewrite forallb_Forall, !Forall_forall in *. intros x Hx. by apply IH, Hv.
    + induction IH as [|x l Hx _ IHl]; [constructor|]. apply Forall_cons in Hv as [Hv ?]. cbn.
      apply Forall_app. split; [by apply Hx|by apply IHl].
  - split.
    + rewrite forallb_Forall, !Forall_forall in *. intros [k x] Hx. specialize (Hv _ Hx). cbn in *.
      apply andb_true_iff in Hv as [-> Hv]. by apply (IH _ Hx).
    + induction IH as [|[k x] d [_ Hx] _ IHd]; [constructor|]. apply Forall_cons in Hv as [Hv ?]. cbn in *.
      apply andb_true_iff in Hv as [_ Hv]. apply Forall_app. split; [by apply Hx|by apply IHd].
Qed.

Section plain.
Context (float_repr : float → string).

Lemma json_read_render v : json_normal v = true → json_read (list_str (json_render float_repr v)) = Some v.
Proof. intros Hv. by apply json_read_with_render, normal_readable. Qed.

Lemma view_normal b v : plain_json v = true → json_normal (json_view b v) = true.
Proof.
  assert (Hmap : ∀ l, Forall (λ v, plain_json v = true → json_normal (json_view b v) = true) l →
            forallb plain_json l = true → forallb json_normal (map (json_view b) l) = true).
  { intros l Hl Hp. rewrite forallb_Forall in Hp |- *. apply Forall_map.
    apply Forall_forall. intros x Hx. rewrite Forall_forall in Hl, Hp. by apply Hl, Hp. }
  induction v as [| | | | |l IH|l IH|d IH] using pyval_rect_nested; try done; cbn; [by apply Hmap..|].
  intros Hp. rewrite forallb_Forall in Hp |- *.
  set (items := map _ d). assert (Hall : Forall (λ kv : pyval * pyval,
      match kv.1 with VStr _ => true | _ => false end && json_normal kv.2 = true) items).
  { apply Forall_map, Forall_forall. intros [k x] Hx. rewrite Forall_forall in IH, Hp. cbn.
    specialize (Hp _ Hx). cbn in Hp. apply andb_true_iff in Hp as [Hk Hpx]. rewrite Hk.
    by apply (IH _ Hx). }
  destruct b; [|done]. by rewrite (py_sorted_perm key_le items).
Qed.

Lemma json_read_dumps b v :
  plain_json v = true → json_read (json_dumps float_repr b v) = Some (json_view b v).
Proof. intros Hv. apply json_read_render. by apply view_normal. Qed.

(** Documents with the same text look the same to the encoder. *)
Lemma json_dumps_inj b v v' :
  plain_json v = true → plain_json v' = true →
  json_dumps float_repr b v = json_dumps float_repr b v' → json_view b v = json_view b v'.
Proof.
  intros Hv Hv' Heq. apply (f_equal json_read) in Heq. rewrite !json_read_dumps in Heq by done.
  by injection Heq.
Qed.
End plain.

(** A document without tuples is what the encoder sees of it. *)
Lemma json_view_normal v : json_normal v = true → json_view false v = v.
Proof.
  induction v as [| | | | |l IH|l IH|d IH] using pyval_rect_nested; try done; cbn;
    rewrite forallb_Forall; intros Hv; f_equal.
  - induction IH as [|x l Hx _ IHl]; [done|]. apply Forall_cons in Hv as [? ?]. cbn. by rewrite Hx, IHl.
  - induction IH as [|[k x] d [_ Hx] _ IHd]; [done|]. apply Forall_cons in Hv as [Hkx ?]. cbn in *.
    apply andb_true_iff in Hkx as [_ ?]. by rewrite Hx, IHd.
Qed.
