(* ===== verification/Regex.v ===== *)
(** The part of Python's [re] the modelled patterns use: a backtracking matcher
    that returns every end position, on code points below 256. *)

From Stdlib Require Import Ascii.
From S2P Require Import Prelude PyString.

Inductive regex :=
| RChar (p : ascii → bool)
| RSeq (r1 r2 : regex)
| RAlt (r1 r2 : regex)
| REmpty
| RStar (r : regex)
| RWordB           (* \b *)
| RStart           (* ^  *)
| REnd.            (* $, without MULTILINE *)

(** A position: the character before it and the text after it. *)
Abbreviation pos := (option ascii * list ascii)%type.

(** [\w] on Latin-1: letters, digits, numeric signs and the underscore. *)
Definition is_word (c : ascii) : bool :=
  let z := ord c in
  ((48 <=? z) && (z <=? 57)) || ((65 <=? z) && (z <=? 90)) || (z =? 95) ||
  ((97 <=? z) && (z <=? 122)) || (z =? 170) || (z =? 178) || (z =? 179) || (z =? 181) ||
  (z =? 185) || (z =? 186) || ((188 <=? z) && (z <=? 190)) ||
  ((192 <=? z) && (z <=? 214)) || ((216 <=? z) && (z <=? 246)) || (248 <=? z).

Definition word_boundary (p : pos) : bool :=
  let before := match p.1 with Some c => is_word c | None => false end in
  let after := match p.2 with c :: _ => is_word c | [] => false end in
  xorb before after.

Definition at_end (p : pos) : bool :=
  match p.2 with
  | [] => true
  | [c] => ord c =? 10
  | _ => false
  end.

(** Every way to match [r] at [p].  A repetition consumes at least one character
    per round, so the length of the text is enough fuel. *)
Fixpoint run (r : regex) (p : pos) : list pos :=
  match r with
  | REmpty => [p]
  | RChar f =>
      match p.2 with
      | c :: l => if f c then [(Some c, l)] else []
      | [] => []
      end
  | RSeq r1 r2 => flat_map (run r2) (run r1 p)
  | RAlt r1 r2 => run r1 p ++ run r2 p
  | RStar r0 =>
      (fix loop (fuel : nat) (p : pos) : list pos :=
         p :: match fuel with
              | O => []
              | S fuel' =>
                  flat_map (λ q, if Nat.ltb (length q.2) (length p.2) then loop fuel' q else [])
                    (run r0 p)
              end) (length p.2) p
  | RWordB => if word_boundary p then [p] else []
  | RStart => match p.1 with None => [p] | Some _ => [] end
  | REnd => if at_end p then [p] else []
  end.

Definition ends_match (l : list pos) : bool := match l with [] => false | _ => true end.

Fixpoint search_from (r : regex) (before : option ascii) (l : list ascii) : bool :=
  ends_match (run r (before, l)) ||
  match l with
  | [] => false
  | c :: l' => search_from r (Some c) l'
  end.

(** [re.search(r, s) is not None]. *)
Definition re_search (r : regex) (s : string) : bool := search_from r None (str_list s).

(** [re.fullmatch(r, s) is not None]. *)
Definition re_fullmatch (r : regex) (s : string) : bool :=
  existsb (λ q, match q.2 with [] => true | _ => false end) (run r (None, str_list s)).

(** ** Pattern combinators *)

(** Literal text, without regard to ASCII case ([re.IGNORECASE]). *)
Fixpoint rlit_ci (s : string) : regex :=
  match s with
  | EmptyString => REmpty
  | String c s' => RSeq (RChar (λ x, Ascii.eqb (lower_char x) (lower_char c))) (rlit_ci s')
  end.

Definition rset (cs : string) : regex :=
  RChar (λ x, existsb (Ascii.eqb x) (str_list cs)).

Definition ropt (r : regex) : regex := RAlt r REmpty.

Definition ralts (rs : list regex) : regex :=
  match rs with
  | [] => RChar (λ _, false)
  | r :: rs' => fold_left RAlt rs' r
  end.

Definition rseqs (rs : list regex) : regex := foldr RSeq REmpty rs.

Definition rdigit : regex := RChar is_digit.

Definition rplus (r : regex) : regex := RSeq r (RStar r).

Definition rrange (lo hi : Z) : regex := RChar (λ c, (lo <=? ord c) && (ord c <=? hi)).

(** ** What a match consumes *)

(** Every character test of [r] is within [p]. *)
Fixpoint regex_within (p : ascii → bool) (r : regex) : Prop :=
  match r with
  | RChar f => ∀ c, f c = true → p c = true
  | RSeq r1 r2 | RAlt r1 r2 => regex_within p r1 ∧ regex_within p r2
  | RStar r0 => regex_within p r0
  | REmpty | RWordB | RStart | REnd => True
  end.

Definition consumes (p : ascii → bool) (a b : pos) : Prop :=
  ∃ pre, a.2 = pre ++ b.2 ∧ forallb p pre = true.

Lemma consumes_refl p a : consumes p a a.
Proof. by exists []. Qed.

Lemma consumes_trans p a b c : consumes p a b → consumes p b c → consumes p a c.
Proof.
  intros (l1 & H1 & F1) (l2 & H2 & F2). exists (l1 ++ l2).
  by rewrite <- app_assoc, <- H2, forallb_app, F1, F2.
Qed.

Lemma run_consumes p r a b : regex_within p r → In b (run r a) → consumes p a b.
Proof.
  revert a b; induction r as [f|r1 IH1 r2 IH2|r1 IH1 r2 IH2| |r IH| | |]; intros a b Hr.
  - cbn. destruct a as [before [|c l]]; cbn; [done|]. destruct (f c) eqn:Hf; cbn; [|done].
    intros [<-|[]]. exists [c]. cbn. by rewrite (Hr c Hf).
  - destruct Hr as [Hr1 Hr2]. cbn. rewrite in_flat_map. intros (q & Hq & Hb).
    eapply consumes_trans; eauto.
  - destruct Hr as [Hr1 Hr2]. cbn. rewrite in_app_iff. intros [?|?]; eauto.
  - cbn. intros [<-|[]]. apply consumes_refl.
  - cbn [run regex_within] in *. generalize (length a.2) as fuel. intros fuel; revert a b.
    induction fuel as [|fuel IHf]; intros a b; cbn.
    { intros [<-|[]]. apply consumes_refl. }
    intros [<-|Hb]; [apply consumes_refl|]. apply in_flat_map in Hb as (q & Hq & Hb).
    match type of Hb with In _ (if ?c then _ else _) => destruct c; [|done] end.
    eapply consumes_trans; eauto.
  - cbn. destruct (word_boundary a); [|done]. intros [<-|[]]. apply consumes_refl.
  - cbn. destruct a as [[c|] l]; cbn; [done|]. intros [<-|[]]. apply consumes_refl.
  - cbn. destruct (at_end a); [|done]. intros [<-|[]]. apply consumes_refl.
Qed.

(** A fully matched text is made of characters the pattern tests for. *)
Lemma fullmatch_chars p r s :
  regex_within p r → re_fullmatch r s = true → forallb p (str_list s) = true.
Proof.
  intros Hr. unfold re_fullmatch. rewrite existsb_exists. intros ([bq lq] & Hq & Hend).
  apply (run_consumes p) in Hq as (pre & Hpre & Hall); [|done]. cbn in *.
  destruct lq; [|done]. by rewrite Hpre, app_nil_r.
Qed.
