(* ===== verification/Exceptions.v ===== *)
(** The exceptions that cross the provider boundary: the classes the gateway
    defines (tool_fallback.py, provider_errors.py, orchestrator.py), the
    standard-library classes it tests with [isinstance], and the object graph of
    [__cause__]/[__context__] links, with the bounded walk over it. *)

From S2P Require Import Prelude PyString PyCollections PyFloat.

(** ** tool_fallback.py: failure kinds, actions, decisions *)

Inductive ToolFailureKind :=
| TOOL_NOT_FOUND
| TOOL_UNAVAILABLE
| TIMEOUT
| RATE_LIMITED
| TRANSPORT_ERROR
| INVALID_ARGUMENTS
| PERMISSION_DENIED
| POLICY_BLOCKED
| EXECUTION_FAILED
| AMBIGUOUS_OUTCOME
| UNKNOWN.

Inductive ToolFallbackAction :=
| RETRY_SAME_AGENT
| FAILOVER_AGENT
| FAIL_CLOSED.

#[export] Instance ToolFailureKind_eqdec : EqDecision ToolFailureKind.
Proof. solve_decision. Defined.
#[export] Instance ToolFallbackAction_eqdec : EqDecision ToolFallbackAction.
Proof. solve_decision. Defined.

(** [kind.value] and [action.value]. *)
Definition kind_value (k : ToolFailureKind) : string :=
  match k with
  | TOOL_NOT_FOUND => "tool_not_found"
  | TOOL_UNAVAILABLE => "tool_unavailable"
  | TIMEOUT => "timeout"
  | RATE_LIMITED => "rate_limited"
  | TRANSPORT_ERROR => "transport_error"
  | INVALID_ARGUMENTS => "invalid_arguments"
  | PERMISSION_DENIED => "permission_denied"
  | POLICY_BLOCKED => "policy_blocked"
  | EXECUTION_FAILED => "execution_failed"
  | AMBIGUOUS_OUTCOME => "ambiguous_outcome"
  | UNKNOWN => "unknown"
  end.

Definition action_value (a : ToolFallbackAction) : string :=
  match a with
  | RETRY_SAME_AGENT => "retry_same_agent"
  | FAILOVER_AGENT => "failover_agent"
  | FAIL_CLOSED => "fail_closed"
  end.

Record ToolFailureDecision := {
  td_kind : ToolFailureKind;
  td_action : ToolFallbackAction;
  td_reason_code : string;
  td_retry_safe : bool;
  td_circuit_failure : bool;
  td_observed_kind : option ToolFailureKind;
}.

(** ** orchestrator.py: per-attempt route evidence

    A row of ["attempted"]; a key the row does not carry is [None]. *)
Record attempt_entry := {
  at_agent_id : string;
  at_model : string;
  at_outcome : string;
  at_error_code : option string;
  at_provider_status : option Z;
  at_retryable : option bool;
  at_transport : option string;
}.

Record route_evidence := {
  eligible_agent_ids : list string;
  attempted : list attempt_entry;
  terminal_reason : string;
}.

(** The keys the gateway ever stores in [extra_detail]. *)
Record upstream_detail := {
  ud_retry_after_seconds : option float;
  ud_cooldown_source : option string;
  ud_route : option route_evidence;
}.

Definition no_detail : upstream_detail :=
  {| ud_retry_after_seconds := None; ud_cooldown_source := None; ud_route := None |}.

(** ** provider_errors.py: ProviderUpstreamError *)
Record ProviderUpstreamError := {
  ue_agent_id : string;
  ue_model : string;
  ue_error_code : string;
  ue_message : string;
  ue_client_status : Z;
  ue_provider_status : option Z;
  ue_retryable : bool;
  ue_transport : string;
  ue_extra_detail : upstream_detail;
}.

(** ** Exception classes and objects *)

(** An exception object is known by its identity [id(exc)]. *)
Definition loc := positive.

Inductive exc_class :=
| CToolExecutionError (tool_name : string) (kind : ToolFailureKind)
    (idempotent outcome_unknown : bool)
| CToolFallbackStoppedError (agent_id : string) (decision : ToolFailureDecision)
    (route : option route_evidence)
| CProviderUpstreamError (e : ProviderUpstreamError)
| CProviderRequestTooLargeError (e : ProviderUpstreamError)
| CProviderResponseError (failure_kind : string) (route : option route_evidence)
| CLocalProviderAdmissionTimeout
| CAdministratorModelTimeout
| CHTTPError (code : Z) (headers : option (list (string * string))) (body : option string)
| CURLError (reason : option loc)
| CTimeoutError
| CConnectionError
| CPermissionError
| CSSLError
| CSSLCertVerificationError
| CGaiError (errno : Z)
| CHTTPException
| CRuntimeError
| COther (type_name : string).

Record exc := {
  exc_type : exc_class;
  exc_str : string;           (* str(exc) *)
  exc_arg0 : option string;   (* exc.args[0] when it is a string *)
  exc_url : string;           (* getattr(exc, "url", "") when it is a string *)
  exc_cause : option loc;     (* exc.__cause__ *)
  exc_context : option loc;   (* exc.__context__ *)
  exc_suppress : bool;        (* exc.__suppress_context__ *)
}.

Abbreviation exc_heap := (gmap loc exc).

(** ** isinstance on the class hierarchy *)

Definition is_upstream (c : exc_class) : option ProviderUpstreamError :=
  match c with
  | CProviderUpstreamError e | CProviderRequestTooLargeError e => Some e
  | _ => None
  end.

Definition is_request_too_large_class (c : exc_class) : bool :=
  match c with CProviderRequestTooLargeError _ => true | _ => false end.

Definition is_tool_execution_error (c : exc_class) : bool :=
  match c with CToolExecutionError _ _ _ _ => true | _ => false end.

Definition is_http_error (c : exc_class) : option Z :=
  match c with CHTTPError code _ _ => Some code | _ => None end.

(** [urllib.error.HTTPError] is a [URLError]. *)
Definition is_url_error (c : exc_class) : bool :=
  match c with CHTTPError _ _ _ | CURLError _ => true | _ => false end.

(** [socket.timeout] is [TimeoutError]; both gateway timeouts subclass it. *)
Definition is_timeout_error (c : exc_class) : bool :=
  match c with
  | CTimeoutError | CLocalProviderAdmissionTimeout | CAdministratorModelTimeout => true
  | _ => false
  end.

Definition is_connection_error (c : exc_class) : bool :=
  match c with CConnectionError => true | _ => false end.

Definition is_permission_error (c : exc_class) : bool :=
  match c with CPermissionError => true | _ => false end.

Definition is_http_exception (c : exc_class) : bool :=
  match c with CHTTPException => true | _ => false end.

Definition is_cert_error (c : exc_class) : bool :=
  match c with CSSLCertVerificationError => true | _ => false end.

(** [SSLCertVerificationError] is an [SSLError]. *)
Definition is_ssl_error (c : exc_class) : bool :=
  match c with CSSLError | CSSLCertVerificationError => true | _ => false end.

Definition gai_errno (c : exc_class) : option Z :=
  match c with CGaiError n => Some n | _ => None end.

(** [socket.EAI_AGAIN] on Linux. *)
Definition EAI_AGAIN : Z := -3.

Definition is_runtime_error (c : exc_class) : bool :=
  match c with
  | CToolExecutionError _ _ _ _ | CToolFallbackStoppedError _ _ _
  | CProviderUpstreamError _ | CProviderRequestTooLargeError _
  | CProviderResponseError _ _ | CRuntimeError => true
  | _ => false
  end.

(** ** The walk over __cause__ and __context__ *)

(** The next exception of the chain: the cause, else the context unless it is
    suppressed. *)
Definition exc_next (e : exc) : option loc :=
  match exc_cause e with
  | Some c => Some c
  | None => if exc_suppress e then None else exc_context e
  end.

(** The [while] loop of [_exception_chain]; [room] is [8 - len(chain)]. *)
Fixpoint exception_chain_from (room : nat) (h : exc_heap) (seen : list loc)
    (current : option loc) : list (loc * exc) :=
  match room, current with
  | S room', Some l =>
      if decide (l ∈ seen) then [] else
      match h !! l with
      | Some e => (l, e) :: exception_chain_from room' h (l :: seen) (exc_next e)
      | None => []
      end
  | _, _ => []
  end.

Definition _exception_chain (h : exc_heap) (error : loc) : list (loc * exc) :=
  exception_chain_from 8 h [] (Some error).

(** ** Lemmas *)

Lemma exception_chain_from_length room h seen cur :
  (length (exception_chain_from room h seen cur) ≤ room)%nat.
Proof.
  revert seen cur; induction room as [|room IH]; intros seen [l|]; cbn; try lia.
  case_decide; cbn; [lia|]. destruct (h !! l); cbn; [|lia]. specialize (IH (l :: seen) (exc_next e)).
  lia.
Qed.

Lemma exception_chain_from_fresh room h seen cur l :
  l ∈ (exception_chain_from room h seen cur).*1 → l ∉ seen.
Proof.
  revert seen cur; induction room as [|room IH]; intros seen [l'|]; cbn; try set_solver.
  case_decide; [set_solver|]. destruct (h !! l'); [|set_solver]. cbn.
  rewrite elem_of_cons. intros [->|Hl]; [done|]. apply IH in Hl. set_solver.
Qed.

Lemma exception_chain_from_NoDup room h seen cur :
  NoDup (exception_chain_from room h seen cur).*1.
Proof.
  revert seen cur; induction room as [|room IH]; intros seen [l'|]; cbn; try constructor.
  case_decide; [constructor|]. destruct (h !! l'); [|constructor]. cbn.
  constructor; [|apply IH]. intros Hl%exception_chain_from_fresh. set_solver.
Qed.

Lemma exception_chain_from_heap room h seen cur l e :
  (l, e) ∈ exception_chain_from room h seen cur → h !! l = Some e.
Proof.
  revert seen cur; induction room as [|room IH]; intros seen [l'|]; cbn; try set_solver.
  case_decide; [set_solver|]. destruct (h !! l') eqn:Hl'; [|set_solver].
  rewrite elem_of_cons. intros [?|?]; [by simplify_eq | by eapply IH].
Qed.

Lemma exception_chain_head h l e :
  h !! l = Some e → ∃ rest, _exception_chain h l = (l, e) :: rest.
Proof.
  intros Hl. unfold _exception_chain. cbn [exception_chain_from].
  case_decide; [set_solver|]. rewrite Hl. eauto.
Qed.

Lemma exception_chain_from_first room h seen cur l e rest :
  exception_chain_from room h seen cur = (l, e) :: rest → cur = Some l.
Proof.
  destruct room, cur; cbn; try done. case_decide; [done|].
  destruct (h !! l0); [|done]. by intros [= -> -> _].
Qed.

(** Consecutive elements are linked by [exc_next]. *)
Lemma exception_chain_from_links room h seen cur i l e l' e' :
  exception_chain_from room h seen cur !! i = Some (l, e) →
  exception_chain_from room h seen cur !! S i = Some (l', e') →
  exc_next e = Some l'.
Proof.
  revert seen cur i; induction room as [|room IH]; intros seen [l0|] i; cbn; try done.
  case_decide; [done|]. destruct (h !! l0) as [e0|] eqn:He0; [|done].
  destruct i as [|i]; cbn.
  - intros [= -> ->] Hnext.
    destruct (exception_chain_from room h (l :: seen) (exc_next e)) as [|[l1 e1] rest] eqn:Hrest;
      [done|]. cbn in Hnext. simplify_eq. by eapply exception_chain_from_first.
  - apply IH.
Qed.

(** A chain that ends before its room does ends for a reason. *)
Lemma exception_chain_from_stop room h seen cur i l e l' :
  exception_chain_from room h seen cur !! i = Some (l, e) →
  S i = length (exception_chain_from room h seen cur) →
  (length (exception_chain_from room h seen cur) < room)%nat →
  exc_next e = Some l' →
  (l' ∈ seen ∨ l' ∈ (exception_chain_from room h seen cur).*1) ∨ h !! l' = None.
Proof.
  revert seen cur i; induction room as [|room IH]; intros seen [l0|] i; cbn; try done.
  case_decide; [done|]. destruct (h !! l0) as [e0|] eqn:He0; [|done].
  destruct i as [|i]; cbn.
  - intros [= -> ->] Hlen Hroom Hnext. rewrite Hnext in Hlen, Hroom |- *.
    destruct room as [|room]; [cbn in Hroom; lia|].
    cbn in Hlen |- *. case_decide; [set_solver|].
    destruct (h !! l') eqn:Hl'; [done | by right].
  - intros Hi Hlen Hroom Hnext.
    destruct (IH (l0 :: seen) (exc_next e0) i) as [[?|?]|?]; try done; try lia; set_solver.
Qed.

(** The exception walk terminates on every object graph, cycles included: it
    visits at most eight distinct objects, starts at the raised exception, follows
    the cause before the unsuppressed context, and stops early only at the end of
    the chain or at an object it has already visited. *)
Theorem exception_chain_bounded h error :
  let chain := _exception_chain h error in
  (length chain ≤ 8)%nat ∧
  NoDup chain.*1 ∧
  (∀ l e, (l, e) ∈ chain → h !! l = Some e) ∧
  (∀ i l e l' e', chain !! i = Some (l, e) → chain !! S i = Some (l', e') →
     exc_next e = Some l') ∧
  (∀ i l e l', chain !! i = Some (l, e) → S i = length chain → (length chain < 8)%nat →
     exc_next e = Some l' → l' ∈ chain.*1 ∨ h !! l' = None).
Proof.
  cbn zeta. unfold _exception_chain. split; [apply exception_chain_from_length|].
  split; [apply exception_chain_from_NoDup|].
  split; [apply exception_chain_from_heap|].
  split; [apply exception_chain_from_links|].
  intros i l e l' Hi Hlen Hlt Hnext.
  destruct (exception_chain_from_stop 8 h [] (Some error) i l e l') as [H|H]; try done.
  - destruct H as [H|H]; [set_solver | by left].
  - by right.
Qed.
