(* ===== verification/ToolFallback.v ===== *)
(** tool_fallback.py: classification of tool and provider failures into
    bounded, safety-aware fallback decisions. *)

From S2P Require Import Prelude PyString PyCollections Exceptions.

(** ** Constants and decisions *)

Definition MAX_TOOL_RETRY_ATTEMPTS : Z := 4.

(** [ToolExecutionError.__init__]: the tool name must not be blank. *)
Definition ToolExecutionError_init (tool_name : string) (kind : ToolFailureKind)
    (idempotent outcome_unknown : bool) : res string exc_class :=
  if str_blank tool_name then Raise "tool_name must be non-empty"
  else Ok (CToolExecutionError tool_name kind idempotent outcome_unknown).

(** [ToolFallbackStoppedError.__init__]: the message names agent and reason. *)
Definition ToolFallbackStoppedError_message (agent_id : string) (d : ToolFailureDecision) : string :=
  str_join "" ["tool execution stopped safely (agent="; agent_id; ", reason=";
               td_reason_code d; ")"].

Definition _decision (kind : ToolFailureKind) (action : ToolFallbackAction)
    (retry_safe circuit_failure : bool) (observed_kind : option ToolFailureKind)
    : ToolFailureDecision :=
  {| td_kind := kind;
     td_action := action;
     td_reason_code := str_join "." ["tool_failure"; kind_value kind; action_value action];
     td_retry_safe := retry_safe;
     td_circuit_failure := circuit_failure;
     td_observed_kind := Some (default kind observed_kind) |}.

Definition downgrade_to_failover (d : ToolFailureDecision) : ToolFailureDecision :=
  _decision (td_kind d) FAILOVER_AGENT false (td_circuit_failure d) (td_observed_kind d).

Definition classify_provider_transport_failure (retryable : bool) : ToolFailureDecision :=
  if retryable
  then _decision TRANSPORT_ERROR RETRY_SAME_AGENT true true None
  else _decision TRANSPORT_ERROR FAILOVER_AGENT false true None.

(** ** Legacy exceptions: HTTP status and message markers *)

Definition _HTTP_FAILURE_KIND (status : Z) : option ToolFailureKind :=
  match status with
  | 400 => Some INVALID_ARGUMENTS
  | 401 => Some PERMISSION_DENIED
  | 403 => Some PERMISSION_DENIED
  | 404 => Some TOOL_NOT_FOUND
  | 405 => Some TOOL_UNAVAILABLE
  | 406 => Some INVALID_ARGUMENTS
  | 407 => Some PERMISSION_DENIED
  | 408 => Some TIMEOUT
  | 409 => Some EXECUTION_FAILED
  | 410 => Some TOOL_UNAVAILABLE
  | 411 => Some INVALID_ARGUMENTS
  | 412 => Some INVALID_ARGUMENTS
  | 413 => Some INVALID_ARGUMENTS
  | 414 => Some INVALID_ARGUMENTS
  | 415 => Some INVALID_ARGUMENTS
  | 416 => Some INVALID_ARGUMENTS
  | 417 => Some INVALID_ARGUMENTS
  | 422 => Some INVALID_ARGUMENTS
  | 423 => Some POLICY_BLOCKED
  | 424 => Some EXECUTION_FAILED
  | 425 => Some TRANSPORT_ERROR
  | 426 => Some TOOL_UNAVAILABLE
  | 428 => Some INVALID_ARGUMENTS
  | 429 => Some RATE_LIMITED
  | 431 => Some INVALID_ARGUMENTS
  | 451 => Some POLICY_BLOCKED
  | 500 => Some EXECUTION_FAILED
  | 501 => Some TOOL_UNAVAILABLE
  | 502 => Some TRANSPORT_ERROR
  | 503 => Some TRANSPORT_ERROR
  | 504 => Some TIMEOUT
  | 507 => Some TRANSPORT_ERROR
  | 508 => Some EXECUTION_FAILED
  | 511 => Some PERMISSION_DENIED
  | _ => None
  end.

Definition _exception_text (h : exc_heap) (error : loc) : string :=
  str_join " | " (map (λ le, str_lower (exc_str le.2)) (_exception_chain h error)).

Definition _looks_tool_related (h : exc_heap) (error : loc) (text : string) : bool :=
  contains_any text ["tool"; "command"; "mcp"; "function call"; "sandbox"] ||
  existsb (λ le, str_contains "tool" (str_lower (exc_url le.2))) (_exception_chain h error).

Fixpoint first_some {A B} (f : A → option B) (l : list A) : option B :=
  match l with
  | [] => None
  | x :: l' => match f x with Some y => Some y | None => first_some f l' end
  end.

Definition _http_status (h : exc_heap) (error : loc) : option Z :=
  first_some (λ le, is_http_error (exc_type le.2)) (_exception_chain h error).

(** [isinstance(error, ...)] on the exception object itself. *)
Definition error_is (h : exc_heap) (error : loc) (p : exc_class → bool) : bool :=
  match h !! error with Some e => p (exc_type e) | None => false end.

Definition _classify_unstructured (h : exc_heap) (error : loc) : ToolFailureKind :=
  let text := _exception_text h error in
  if negb (_looks_tool_related h error text) then UNKNOWN else
  if contains_any text
       ["outcome unknown"; "may have completed"; "might have completed";
        "acknowledgement lost"; "acknowledgment lost"]
  then AMBIGUOUS_OUTCOME else
  if contains_any text
       ["not found in agent"; "unknown tool"; "no such tool"; "unregistered tool";
        "tool does not exist"]
  then TOOL_NOT_FOUND else
  if error_is h error is_permission_error ||
     contains_any text ["permission denied"; "access denied"; "unauthorized"; "forbidden"]
  then PERMISSION_DENIED else
  if contains_any text
       ["denied by policy"; "policy blocked"; "blocked by policy"; "sandbox denied";
        "approval required"]
  then POLICY_BLOCKED else
  if contains_any text
       ["invalid tool arguments"; "invalid arguments"; "malformed arguments";
        "missing required argument"; "schema validation"]
  then INVALID_ARGUMENTS else
  match _http_status h error with
  | Some status => default UNKNOWN (_HTTP_FAILURE_KIND status)
  | None =>
      if contains_any text ["rate limit"; "too many requests"; "throttl"]
      then RATE_LIMITED else
      if error_is h error is_timeout_error ||
         contains_any text ["timed out"; "timeout"; "deadline exceeded"]
      then TIMEOUT else
      if error_is h error is_url_error ||
         contains_any text ["connection reset"; "connection refused"; "dns failure";
                            "network unreachable"; "broken pipe"]
      then TRANSPORT_ERROR else
      if contains_any text
           ["tool server unavailable"; "tool unavailable"; "tool is unavailable";
            "tool disabled"; "tool not configured"; "mcp server unavailable"]
      then TOOL_UNAVAILABLE else
      if contains_any text
           ["tool execution failed"; "command failed"; "non-zero exit"; "nonzero exit";
            "exit status"]
      then EXECUTION_FAILED else UNKNOWN
  end.

(** ** classify_tool_failure *)

(** The first [ToolExecutionError] of the chain. *)
Definition structured_error (h : exc_heap) (error : loc) : option (ToolFailureKind * bool * bool) :=
  first_some
    (λ le, match exc_type le.2 with
           | CToolExecutionError _ kind idem unk => Some (kind, idem, unk)
           | _ => None
           end)
    (_exception_chain h error).

(** [(kind, observed_kind, effective_idempotent)]. *)
Definition failure_evidence (h : exc_heap) (error : loc) (idempotent : bool)
    : ToolFailureKind * ToolFailureKind * bool :=
  match structured_error h error with
  | Some (kind, idem, unk) => ((if unk : bool then AMBIGUOUS_OUTCOME else kind), kind, idem)
  | None =>
      let kind := _classify_unstructured h error in
      (kind, kind, idempotent)
  end.

(** The decision for one kind. *)
Definition decide_kind (kind observed : ToolFailureKind) (idem : bool) : ToolFailureDecision :=
  match kind with
  | AMBIGUOUS_OUTCOME => _decision kind FAIL_CLOSED false false (Some observed)
  | TOOL_NOT_FOUND | TOOL_UNAVAILABLE => _decision kind FAILOVER_AGENT false true None
  | INVALID_ARGUMENTS | PERMISSION_DENIED | POLICY_BLOCKED =>
      _decision kind FAIL_CLOSED false false None
  | TIMEOUT | TRANSPORT_ERROR =>
      if idem then _decision kind RETRY_SAME_AGENT true true None
      else _decision AMBIGUOUS_OUTCOME FAIL_CLOSED false false (Some kind)
  | RATE_LIMITED =>
      if idem then _decision kind RETRY_SAME_AGENT true true None
      else _decision kind FAILOVER_AGENT false true None
  | EXECUTION_FAILED =>
      _decision kind (if idem then FAILOVER_AGENT else FAIL_CLOSED) false idem None
  | UNKNOWN => _decision UNKNOWN FAILOVER_AGENT false true None
  end.

Definition classify_tool_failure (h : exc_heap) (error : loc) (idempotent : bool)
    : ToolFailureDecision :=
  let '(kind, observed, idem) := failure_evidence h error idempotent in
  decide_kind kind observed idem.

(** ** Properties *)

(** What replaying a failure of this kind could do: nothing was executed, the
    call may have had its effect, or the request is refused for good. *)
Inductive replay_risk := NothingExecuted | MayHaveExecuted | Refused.

Definition risk_of (k : ToolFailureKind) : replay_risk :=
  match k with
  | TOOL_NOT_FOUND | TOOL_UNAVAILABLE | RATE_LIMITED | UNKNOWN => NothingExecuted
  | TIMEOUT | TRANSPORT_ERROR | EXECUTION_FAILED | AMBIGUOUS_OUTCOME => MayHaveExecuted
  | INVALID_ARGUMENTS | PERMISSION_DENIED | POLICY_BLOCKED => Refused
  end.

Lemma decide_kind_retry k o b :
  td_action (decide_kind k o b) = RETRY_SAME_AGENT ↔ td_retry_safe (decide_kind k o b) = true.
Proof. by destruct k, b. Qed.

(** A failed tool call is replayed on the same agent only when the failure is
    a timeout, a transport error or a rate limit and the operation is known to be
    idempotent; and whatever may have executed without being idempotent, or was
    refused by policy, permission or argument checks, fails closed: neither the
    same agent nor another one sees the request again. *)
Theorem classify_never_replays_unsafely h error idempotent :
  let '(kind, observed, idem) := failure_evidence h error idempotent in
  let d := classify_tool_failure h error idempotent in
  (td_action d = RETRY_SAME_AGENT →
     idem = true ∧ (kind = TIMEOUT ∨ kind = TRANSPORT_ERROR ∨ kind = RATE_LIMITED)) ∧
  (td_action d = RETRY_SAME_AGENT ↔ td_retry_safe d = true) ∧
  (risk_of kind = MayHaveExecuted → idem = false → td_action d = FAIL_CLOSED) ∧
  (risk_of kind = Refused → td_action d = FAIL_CLOSED) ∧
  (td_action d = FAIL_CLOSED → td_circuit_failure d = false) ∧
  td_observed_kind d = Some observed.
Proof.
  unfold classify_tool_failure.
  destruct (failure_evidence h error idempotent) as [[kind observed] idem] eqn:Hev.
  assert (kind = AMBIGUOUS_OUTCOME ∨ observed = kind) as Hobs.
  { unfold failure_evidence in Hev. destruct (structured_error h error) as [[[k i] u]|];
      [destruct u|]; simplify_eq; auto. }
  destruct kind, idem; cbn; destruct Hobs as [? | ->]; try done; naive_solver.
Qed.

(** A declared unknown outcome hides the declared kind. *)
Lemma structured_unknown_ambiguous h error idempotent k i :
  structured_error h error = Some (k, i, true) →
  failure_evidence h error idempotent = (AMBIGUOUS_OUTCOME, k, i).
Proof. intros H. unfold failure_evidence. by rewrite H. Qed.

(** A structured tool error decides by itself: its declared outcome, kind and
    idempotence fix the decision whatever the caller's idempotence flag and the
    text of the exceptions say, and a declared unknown outcome fails closed even
    for an idempotent tool. *)
Theorem structured_error_authoritative h error b1 b2 k i u :
  structured_error h error = Some (k, i, u) →
  classify_tool_failure h error b1 = classify_tool_failure h error b2 ∧
  classify_tool_failure h error b1 = decide_kind (if u then AMBIGUOUS_OUTCOME else k) k i ∧
  (u = true → td_action (classify_tool_failure h error b1) = FAIL_CLOSED).
Proof.
  intros H. unfold classify_tool_failure, failure_evidence. rewrite H.
  split; [done|]. split; [done|]. by intros ->.
Qed.

(** A cyclic chain with a structured error below a wrapper. *)
Definition wrapped_timeout : exc_heap :=
  <[1%positive := {| exc_type := CRuntimeError; exc_str := "wrapped"; exc_arg0 := None;
                     exc_url := ""; exc_cause := Some 2%positive; exc_context := None;
                     exc_suppress := true |}]>
  (<[2%positive := {| exc_type := CToolExecutionError "search" TIMEOUT true true;
                      exc_str := "tool timed out"; exc_arg0 := None; exc_url := "";
                      exc_cause := None; exc_context := Some 1%positive;
                      exc_suppress := false |}]> ∅).

Lemma structured_error_authoritative_witness :
  td_action (classify_tool_failure wrapped_timeout 1%positive true) = FAIL_CLOSED.
Proof.
  exact (proj2 (proj2 (structured_error_authoritative wrapped_timeout 1%positive true false
           TIMEOUT true true eq_refl)) eq_refl).
Defined.
