(* ===== verification/ProviderErrors.v ===== *)
(** provider_errors.py: the caller-facing taxonomy of provider failures.

    What Python's library decides for it is a parameter: the JSON decoder, the
    HTTP-date parser (seconds since the epoch), the [float] constructor on text
    and [repr] of a float. *)

From Stdlib Require Import Ascii.
From S2P Require Import Prelude PyString PyCollections PyFloat PyValue Regex Exceptions.

Definition PROVIDER_OUTCOME_UNKNOWN_CODE : string := "provider_outcome_unknown".
Definition PROVIDER_RATE_LIMITED_CODE : string := "provider_rate_limited".

Definition _RATE_LIMIT_RESET_HEADERS : list string :=
  ["x-ratelimit-reset-requests"; "x-ratelimit-reset-tokens"; "x-ratelimit-reset"].

Definition MAX_SAFE_MESSAGE_CHARS : Z := 300.
Definition MAX_PROVIDER_ERROR_BODY_BYTES : Z := 65536.

(** ** Message filters *)

Definition not_digit_char : regex := RChar (λ c, negb (is_digit c)).

(** [0-9]{1,3} *)
Definition one_to_three_digits : regex := RSeq rdigit (RSeq (ropt rdigit) (ropt rdigit)).

Definition _SENSITIVE_PROVIDER_MESSAGE : regex :=
  ralts
    [ rseqs [rlit_ci "http"; ropt (rlit_ci "s"); rlit_ci "://"];
      rseqs [RAlt RStart not_digit_char;
             one_to_three_digits; rset "."; one_to_three_digits; rset ".";
             one_to_three_digits; rset "."; one_to_three_digits;
             RAlt not_digit_char REnd];
      rseqs [RWordB;
             ralts [ rseqs [rlit_ci "api"; ropt (rset "_ -"); rlit_ci "key"];
                     rlit_ci "authorization"; rlit_ci "bearer"; rlit_ci "password";
                     rlit_ci "secret"; rlit_ci "token"; rlit_ci "prompt"; rlit_ci "input";
                     rseqs [rlit_ci "message"; ropt (rlit_ci "s")];
                     rlit_ci "content" ];
             RWordB] ].

(** ['\""]? : an optional quote. *)
Definition quote_char : regex := ropt (RChar (λ c, (ord c =? 39) || (ord c =? 34))).

Definition _SAFE_SCHEMA_DIAGNOSTIC : regex :=
  rseqs
    [ quote_char; rlit_ci "messages"; quote_char; rlit_ci " must contain the word ";
      quote_char; rlit_ci "json"; quote_char;
      ropt (rlit_ci " in some form,"); rlit_ci " to use ";
      RAlt (rseqs [quote_char; rlit_ci "response_format"; quote_char; rlit_ci " of type ";
                   quote_char; rlit_ci "json_object"; quote_char])
           (rlit_ci "json_object");
      RAlt (rset ".") REnd ].

Definition _SAFE_SCHEMA_ERROR_SUMMARY : string :=
  "messages must mention json when response_format is json_object".

(** ** HTTP status surfaces: (client_status, error_code, retryable) *)

Definition PROVIDER_STATUS_SURFACES (status : Z) : option (Z * string * bool) :=
  match status with
  | 400 => Some (400, "invalid_request_error", false)
  | 401 => Some (401, "authentication_error", false)
  | 402 => Some (402, "payment_required", false)
  | 403 => Some (403, "permission_error", false)
  | 404 => Some (404, "model_not_found", false)
  | 405 => Some (502, "api_error", false)
  | 408 => Some (504, "provider_timeout", true)
  | 409 => Some (409, "conflict", true)
  | 410 => Some (404, "model_not_found", false)
  | 413 => Some (413, "request_too_large", false)
  | 415 => Some (400, "invalid_request_error", false)
  | 422 => Some (400, "invalid_request_error", false)
  | 425 => Some (429, "rate_limit_exceeded", true)
  | 429 => Some (429, "rate_limit_exceeded", true)
  | 500 => Some (502, "api_error", true)
  | 501 => Some (502, "api_error", false)
  | 502 => Some (502, "api_error", true)
  | 503 => Some (503, "service_unavailable", true)
  | 504 => Some (504, "provider_timeout", true)
  | 529 => Some (503, "service_unavailable", true)
  | _ => None
  end.

Definition _UNMAPPED_UPSTREAM_SURFACE : Z * string * bool := (502, "api_error", false).

(** [provider_error_body]: a bounded prefix of the body; a failed read is empty. *)
Definition provider_error_body (body : option string) : string :=
  match body with
  | Some b => str_take MAX_PROVIDER_ERROR_BODY_BYTES (str_take (MAX_PROVIDER_ERROR_BODY_BYTES + 1) b)
  | None => ""
  end.

(** [headers.get(name)]: header names compare without case. *)
Fixpoint header_get (name : string) (headers : list (string * string)) : option string :=
  match headers with
  | [] => None
  | (k, v) :: hs =>
      if String.eqb (str_lower k) (str_lower name) then Some v else header_get name hs
  end.

(** C0 and C1 control characters and DEL, the tab excepted. *)
Definition is_control (c : ascii) : bool :=
  let z := ord c in
  negb (z =? 9) && ((z <? 32) || ((127 <=? z) && (z <=? 159))).

Definition collapse_char (c : ascii) : ascii := if is_control c then chr 32 else c.

(** The text half of [safe_provider_message]: collapse, strip, bound, filter. *)
Definition safe_text (raw : string) : option string :=
  let collapsed := str_take MAX_SAFE_MESSAGE_CHARS (str_strip (str_map collapse_char raw)) in
  if re_search _SAFE_SCHEMA_DIAGNOSTIC collapsed then Some _SAFE_SCHEMA_ERROR_SUMMARY
  else if negb (str_truthy collapsed) || re_search _SENSITIVE_PROVIDER_MESSAGE collapsed then None
  else Some collapsed.

(** [type(exc).__name__]. *)
Definition type_name (c : exc_class) : string :=
  match c with
  | CToolExecutionError _ _ _ _ => "ToolExecutionError"
  | CToolFallbackStoppedError _ _ _ => "ToolFallbackStoppedError"
  | CProviderUpstreamError _ => "ProviderUpstreamError"
  | CProviderRequestTooLargeError _ => "ProviderRequestTooLargeError"
  | CProviderResponseError _ _ => "ProviderResponseError"
  | CLocalProviderAdmissionTimeout => "_LocalProviderAdmissionTimeout"
  | CAdministratorModelTimeout => "_AdministratorModelTimeout"
  | CHTTPError _ _ _ => "HTTPError"
  | CURLError _ => "URLError"
  | CTimeoutError => "TimeoutError"
  | CConnectionError => "ConnectionError"
  | CPermissionError => "PermissionError"
  | CSSLError => "SSLError"
  | CSSLCertVerificationError => "SSLCertVerificationError"
  | CGaiError _ => "gaierror"
  | CHTTPException => "HTTPException"
  | CRuntimeError => "RuntimeError"
  | COther name => name
  end.

Section provider_errors.
Context (json_loads : string → option pyval)
        (parse_http_date : string → option float)
        (float_of_text : string → option float)
        (float_repr : float → string).

(** [parse_retry_after], at the instant [now]. *)
Definition parse_retry_after (value : option string) (now : float) : option float :=
  match value with
  | None => None
  | Some value =>
      let stripped := str_strip value in
      if negb (str_truthy stripped) then None else
      if str_isdigit stripped then
        n ← int_of_digits stripped;
        if is_finite (float_of_Z n) then Some (float_of_Z n) else None
      else
      match parse_http_date stripped with
      | None => None
      | Some target => Some (fmax (fsub target now) f0)
      end
  end.

(** [resolve_retry_after_seconds]. *)
Definition resolve_retry_after_seconds (headers : option (list (string * string))) (now : float)
    : option float :=
  match headers with
  | None => None
  | Some hs =>
      match parse_retry_after (header_get "Retry-After" hs) now with
      | Some s => Some s
      | None =>
          (fix reset (names : list string) : option float :=
             match names with
             | [] => None
             | name :: names' =>
                 match header_get name hs with
                 | None => reset names'
                 | Some raw =>
                     match float_of_text (str_strip raw) with
                     | Some v => if is_finite v && fleb f0 v then Some v else reset names'
                     | None => reset names'
                     end
                 end
             end) _RATE_LIMIT_RESET_HEADERS
      end
  end.

(** [rate_limited_storm_error]. *)
Definition rate_limited_storm_error (agent_id model : string) (retry_after_seconds : float)
    (transport cooldown_source : string) : ProviderUpstreamError :=
  let assumed_note :=
    if String.eqb cooldown_source "assumed"
    then " (the provider stated no cooldown; this is an assumed wait)" else "" in
  {| ue_agent_id := agent_id;
     ue_model := model;
     ue_error_code := PROVIDER_RATE_LIMITED_CODE;
     ue_message := str_join "" ["every eligible provider is rate-limited past this request's wait budget"; assumed_note];
     ue_client_status := 429;
     ue_provider_status := Some 429;
     ue_retryable := true;
     ue_transport := transport;
     ue_extra_detail := {| ud_retry_after_seconds := Some retry_after_seconds;
                           ud_cooldown_source := Some cooldown_source;
                           ud_route := None |} |}.

(** [str(raw)] of a JSON string or number; [None] for what the code refuses. *)
Definition raw_text (raw : pyval) : option string :=
  match raw with
  | VStr s => if str_truthy s then Some s else None
  | VBool true => Some "True"
  | VBool false => Some "False"
  | VInt z => Some (str_of_Z z)
  | VFloat f => Some (float_repr f)
  | _ => None
  end.

(** The message field of a JSON error body. *)
Definition error_field (payload : pyval) : pyval :=
  match payload with
  | VDict d =>
      match dget "error" d with
      | VDict e => py_or (dget "message" e) (dget "code" e)
      | VStr s => VStr s
      | _ => py_or (py_or (dget "message" d) (dget "detail" d)) (dget "code" d)
      end
  | _ => VNone
  end.

(** [safe_provider_message]. *)
Definition safe_provider_message (e : exc) : option string :=
  match exc_type e with
  | CHTTPError _ _ body =>
      match json_loads (provider_error_body body) with
      | None => None
      | Some payload => raw ← raw_text (error_field payload); safe_text raw
      end
  | c =>
      let first_arg := default "" (exc_arg0 e) in
      safe_text (if str_truthy first_arg then first_arg else type_name c)
  end.

(** A classified failure without provider status. *)
Definition gateway_error (agent_id model transport code message : string) (retryable : bool)
    : ProviderUpstreamError :=
  {| ue_agent_id := agent_id; ue_model := model; ue_error_code := code;
     ue_message := message; ue_client_status := 502; ue_provider_status := None;
     ue_retryable := retryable; ue_transport := transport; ue_extra_detail := no_detail |}.

(** The [gaierror] behind a failure: itself or its cause. *)
Definition dns_errno (h : exc_heap) (e : exc) : option Z :=
  match gai_errno (exc_type e) with
  | Some n => Some n
  | None => c ← exc_cause e; ce ← h !! c; gai_errno (exc_type ce)
  end.

(** The fixed sentence for an HTTP rejection without a usable message. *)
Definition rejected_message (status : Z) : string :=
  String.append "provider rejected the request with HTTP " (str_of_Z status).

(** The branch for an HTTP response. *)
Definition classify_http_failure (e : exc) (status : Z) (headers : option (list (string * string)))
    (agent_id model transport : string) (now : float) : ProviderUpstreamError :=
  let '(client_status, error_code, retryable) :=
    default _UNMAPPED_UPSTREAM_SURFACE (PROVIDER_STATUS_SURFACES status) in
  {| ue_agent_id := agent_id;
     ue_model := model;
     ue_error_code := error_code;
     ue_message := default (rejected_message status) (safe_provider_message e);
     ue_client_status := client_status;
     ue_provider_status := Some status;
     ue_retryable := retryable;
     ue_transport := transport;
     ue_extra_detail :=
       {| ud_retry_after_seconds :=
            if (status =? 429) || (status =? 503)
            then resolve_retry_after_seconds headers now else None;
          ud_cooldown_source := None;
          ud_route := None |} |}.

(** [classify_provider_failure]; [None] is a call with no exception. *)
Definition classify_provider_failure (h : exc_heap) (e : option exc)
    (agent_id model transport : string) (now : float) : ProviderUpstreamError :=
  let gateway := gateway_error agent_id model transport in
  let failed := gateway "api_error" (str_join "" ["provider "; agent_id; " request failed"]) false in
  match e with
  | None => failed
  | Some e =>
      match is_upstream (exc_type e) with
      | Some u =>
          if String.eqb (ue_transport u) transport then u else
          {| ue_agent_id := ue_agent_id u; ue_model := ue_model u;
             ue_error_code := ue_error_code u; ue_message := exc_str e;
             ue_client_status := ue_client_status u;
             ue_provider_status := ue_provider_status u;
             ue_retryable := ue_retryable u; ue_transport := transport;
             ue_extra_detail := ue_extra_detail u |}
      | None =>
          match exc_type e with
          | CHTTPError status headers _ =>
              classify_http_failure e status headers agent_id model transport now
          | CSSLCertVerificationError =>
              gateway "tls_verification_failed"
                (str_join "" ["provider "; agent_id; " endpoint failed TLS certificate verification"]) false
          | CSSLError =>
              gateway "tls_failure"
                (str_join "" ["a TLS error interrupted the provider "; agent_id; " connection"]) true
          | c =>
              match dns_errno h e with
              | Some errno =>
                  gateway "provider_connection_error"
                    (str_join "" ["the provider "; agent_id; " host could not be resolved"])
                    (errno =? EAI_AGAIN)
              | None =>
                  if is_url_error c || is_timeout_error c || is_connection_error c ||
                     is_http_exception c
                  then gateway "provider_connection_error"
                         (str_join "" ["the provider "; agent_id;
                                       " connection failed or did not finish in time"]) true
                  else failed
              end
          end
      end
  end.
End provider_errors.

(** ** Lemmas *)

(** What [safe_text] lets through. *)
Definition caller_safe (m : string) : Prop :=
  m = _SAFE_SCHEMA_ERROR_SUMMARY ∨
  (m ≠ "" ∧ str_len m <= MAX_SAFE_MESSAGE_CHARS ∧
   forallb (λ c, negb (is_control c)) (str_list m) = true ∧
   re_search _SENSITIVE_PROVIDER_MESSAGE m = false).

Lemma collapse_char_safe c : negb (is_control (collapse_char c)) = true.
Proof.
  unfold collapse_char. destruct (is_control c) eqn:H; [done|]. by rewrite H.
Qed.

Lemma safe_text_safe raw m : safe_text raw = Some m → caller_safe m.
Proof.
  unfold safe_text. set (c := str_take _ _).
  destruct (re_search _SAFE_SCHEMA_DIAGNOSTIC c); [by intros [= <-]; left|].
  destruct (negb (str_truthy c)) eqn:Hc; [done|].
  destruct (re_search _SENSITIVE_PROVIDER_MESSAGE c) eqn:Hs; [done|].
  intros [= <-]. right. split_and!; [| | |done].
  - apply str_truthy_spec. by apply negb_false_iff.
  - by apply str_take_len.
  - apply str_take_forall, str_strip_forall, str_map_forall, collapse_char_safe.
Qed.

(** The rows of the status table. *)
Lemma surfaces_table status cs code r :
  default _UNMAPPED_UPSTREAM_SURFACE (PROVIDER_STATUS_SURFACES status) = (cs, code, r) →
  r = bool_decide (status ∈ [408; 409; 425; 429; 500; 502; 503; 504; 529]) ∧ 400 <= cs < 505.
Proof.
  destruct (decide (status ∈ [400; 401; 402; 403; 404; 405; 408; 409; 410; 413; 415; 422; 425;
                              429; 500; 501; 502; 503; 504; 529])) as [Hin|Hout].
  - set_unfold. repeat destruct Hin as [->|Hin]; try (intros [= <- <- <-]; split; [done|lia]); done.
  - assert (PROVIDER_STATUS_SURFACES status = None) as ->.
    { unfold PROVIDER_STATUS_SURFACES. repeat case_match; try done; exfalso; apply Hout; set_solver. }
    intros [= <- <- <-]. split; [|lia]. symmetry. apply bool_decide_eq_false. set_solver.
Qed.

(** The same exception with other diagnostic text. *)
Definition with_text (e : exc) (str url : string) (arg0 : option string) : exc :=
  {| exc_type := exc_type e; exc_str := str; exc_arg0 := arg0; exc_url := url;
     exc_cause := exc_cause e; exc_context := exc_context e; exc_suppress := exc_suppress e |}.

Section provider_properties.
Context (json_loads : string → option pyval)
        (parse_http_date : string → option float)
        (float_of_text : string → option float)
        (float_repr : float → string).

Local Abbreviation classify :=
  (classify_provider_failure json_loads parse_http_date float_of_text float_repr).
Local Abbreviation resolve := (resolve_retry_after_seconds parse_http_date float_of_text).

Lemma parse_retry_after_nonneg value now s :
  parse_retry_after parse_http_date value now = Some s → fltb s f0 = false.
Proof.
  unfold parse_retry_after. destruct value as [value|]; [|done].
  destruct (negb _); [done|]. destruct (str_isdigit _).
  - destruct (int_of_digits _) as [n|] eqn:Hn; [|done]. cbn.
    destruct (is_finite _); [|done]. intros [= <-]. apply float_of_nonneg.
    by eapply int_of_digits_nonneg.
  - destruct (parse_http_date _); [|done]. intros [= <-]. apply fltb_fmax_r.
Qed.

Lemma resolve_nonneg headers now s : resolve headers now = Some s → fltb s f0 = false.
Proof.
  unfold resolve_retry_after_seconds. destruct headers as [hs|]; [|done].
  destruct (parse_retry_after _ _ _) as [s'|] eqn:Hp.
  { intros [= <-]. by eapply parse_retry_after_nonneg. }
  generalize _RATE_LIMIT_RESET_HEADERS as names.
  induction names as [|n names IH]; [done|].
  destruct (header_get n hs); [|done].
  destruct (float_of_text _) as [v|]; [|done].
  destruct (is_finite v && fleb f0 v) eqn:Hv; [|done].
  intros [= <-]. bools. by apply fleb_nonneg.
Qed.

(** C38. No provider text reaches a caller unfiltered: the message of a classified
    HTTP failure is the gateway's own sentence, or at most 300 characters without
    control characters in which the sensitive-text pattern finds nothing; and the
    message (and every other field) of a classified transport failure does not
    depend on the exception's text at all. *)
Theorem classified_message_never_leaks h e agent_id model transport now :
  is_upstream (exc_type e) = None →
  let u := classify h (Some e) agent_id model transport now in
  (∀ status headers body, exc_type e = CHTTPError status headers body →
     ue_message u = rejected_message status ∨ caller_safe (ue_message u)) ∧
  (is_http_error (exc_type e) = None → ∀ str url arg0,
     classify h (Some (with_text e str url arg0)) agent_id model transport now = u).
Proof.
  intros Hup u. subst u. split.
  - intros status headers body He. unfold classify_provider_failure. rewrite Hup, He.
    unfold classify_http_failure. destruct (default _ _) as [[cs code] r]; cbn.
    destruct (safe_provider_message _ _ e) as [m|] eqn:Hm; [right | by left]. cbn.
    unfold safe_provider_message in Hm. rewrite He in Hm.
    destruct (json_loads _); [|done]. destruct (raw_text _ _); [|done].
    by eapply safe_text_safe.
  - intros Hhttp str url arg0. unfold classify_provider_failure, with_text, dns_errno; cbn.
    rewrite Hup. by destruct (exc_type e).
Qed.

(** The retry decision of an HTTP rejection is a function of its status: the
    failure is retryable, and the router then retries the same agent instead of
    failing over, exactly for the nine transient statuses; the status is kept as
    evidence; and a cooldown is recorded only for 429 and 503, never negative. *)
Theorem http_status_decides_retry h e status headers body agent_id model transport now :
  exc_type e = CHTTPError status headers body →
  let u := classify_provider_failure json_loads parse_http_date float_of_text float_repr
             h (Some e) agent_id model transport now in
  ue_retryable u = bool_decide (status ∈ [408; 409; 425; 429; 500; 502; 503; 504; 529]) ∧
  ue_provider_status u = Some status ∧
  ue_agent_id u = agent_id ∧
  ue_transport u = transport ∧
  400 <= ue_client_status u < 505 ∧
  (∀ s, ud_retry_after_seconds (ue_extra_detail u) = Some s →
     (status = 429 ∨ status = 503) ∧ fltb s f0 = false).
Proof.
  intros He u. subst u. unfold classify_provider_failure. rewrite He. cbn [is_upstream].
  unfold classify_http_failure.
  assert (∀ cs code r, default _UNMAPPED_UPSTREAM_SURFACE (PROVIDER_STATUS_SURFACES status)
                       = (cs, code, r) →
            r = bool_decide (status ∈ [408; 409; 425; 429; 500; 502; 503; 504; 529]) ∧
            400 <= cs < 505) as Htable by apply surfaces_table.
  destruct (default _ _) as [[cs code] r]. destruct (Htable _ _ _ eq_refl) as [-> Hcs]. cbn.
  split_and!; try done; try lia.
  intros s Hs. destruct ((status =? 429) || (status =? 503)) eqn:Hst; [|done].
  split; [apply orb_true_iff in Hst; lia | by eapply resolve_nonneg].
Qed.
End provider_properties.

(** A 429 whose body quotes a credential, with a [Retry-After] of 20 seconds. *)
Definition leaking_body : string → option pyval :=
  λ _, Some (VDict [(VStr "error", VDict [(VStr "message", VStr "bad api_key sk-123")])]).

Definition rejected_429 : exc :=
  {| exc_type := CHTTPError 429 (Some [("retry-after", "20")]) (Some "body"); exc_str := "";
     exc_arg0 := None; exc_url := "https://provider.example"; exc_cause := None; exc_context := None;
     exc_suppress := false |}.

Lemma classified_message_never_leaks_witness :
  let u := classify_provider_failure leaking_body (λ _, None) (λ _, None) (λ _, "") ∅
             (Some rejected_429) "agent_one" "m" "chat" f0 in
  (ue_message u = rejected_message 429 ∨ caller_safe (ue_message u)) ∧
  ue_message u = "provider rejected the request with HTTP 429".
Proof.
  intros u. split; [|vm_compute; reflexivity].
  apply (proj1 (classified_message_never_leaks leaking_body (λ _, None) (λ _, None) (λ _, "") ∅
           rejected_429 "agent_one" "m" "chat" f0 eq_refl) 429 (Some [("retry-after", "20")])
           (Some "body") eq_refl).
Defined.

Lemma http_status_decides_retry_witness :
  let u := classify_provider_failure leaking_body (λ _, None) (λ _, None) (λ _, "") ∅
             (Some rejected_429) "agent_one" "m" "chat" f0 in
  ue_provider_status u = Some 429 ∧
  ud_retry_after_seconds (ue_extra_detail u) = Some (float_of_Z 20).
Proof.
  intros u.
  destruct (http_status_decides_retry leaking_body (λ _, None) (λ _, None) (λ _, "") ∅ rejected_429 429
           (Some [("retry-after", "20")]) (Some "body") "agent_one" "m" "chat" f0 eq_refl)
    as (_ & H & _).
  split; [exact H|vm_compute; reflexivity].
Defined.
