(* ===== verification/ModelGroup.v ===== *)
(** conventions.py and model_group.py: canonical object names, and the measured
    speed/stability ledger that orders the members of a model group. *)

From Stdlib Require Import Ascii.
From S2P Require Import Prelude PyString PyCollections PyFloat Regex.

(** ** conventions.py *)

Definition rlower : regex := rrange 97 122.
Definition rlower_digit : regex := RAlt rlower (rrange 48 57).

(** [^[a-z][a-z0-9]*_[a-z0-9]+(?:_[a-z0-9]+)*$] *)
Definition TWO_WORD_SNAKE_CASE : regex :=
  rseqs [RStart; rlower; RStar rlower_digit; rset "_"; rplus rlower_digit;
         RStar (RSeq (rset "_") (rplus rlower_digit)); REnd].

Definition is_two_word_snake_case (value : string) : bool :=
  re_fullmatch TWO_WORD_SNAKE_CASE value.

Definition require_object_name (value field_name : string) : res string unit :=
  require (is_two_word_snake_case value)
    (String.append field_name " must be two or more words in snake_case").

(** [_LEGACY_DISCOVERED_MODEL_SLUG.sub("_", s)]: every run of characters outside
    [[a-z0-9]] becomes one underscore. *)
Definition is_slug_char (c : ascii) : bool :=
  ((97 <=? ord c) && (ord c <=? 122)) || ((48 <=? ord c) && (ord c <=? 57)).

Fixpoint slug_sub (inside : bool) (l : list ascii) : list ascii :=
  match l with
  | [] => []
  | c :: l' =>
      if is_slug_char c then c :: slug_sub false l'
      else (if inside then [] else [chr 95]) ++ slug_sub true l'
  end.

Definition strip_underscores (s : string) : string :=
  let p := λ c, ord c =? 95 in
  list_str (rev (drop_while p (rev (drop_while p (str_list s))))).

Definition legacy_discovered_agent_id (provider_name model_id : string) : string :=
  let model_slug := strip_underscores (list_str (slug_sub false (str_list (str_lower model_id)))) in
  String.append provider_name
    (String.append "_" (if str_truthy model_slug then model_slug else "model")).

(** ** canonical_group_name *)

Definition is_group_separator (c : ascii) : bool := (ord c =? 45) || is_space c.

(** [_GROUP_NAME_NORMALIZE_RE.sub("_", s)]: every run of separators becomes one
    underscore; [inside] is "the previous character was a separator". *)
Fixpoint normalize_separators (inside : bool) (l : list ascii) : list ascii :=
  match l with
  | [] => []
  | c :: l' =>
      if is_group_separator c
      then (if inside then [] else [chr 95]) ++ normalize_separators true l'
      else c :: normalize_separators false l'
  end.

Definition canonical_group_name (raw_name : string) : res string string :=
  let normalized :=
    list_str (normalize_separators false (str_list (str_lower (str_strip raw_name)))) in
  if negb (str_truthy normalized) || forallb (λ c, ord c =? 95) (str_list normalized)
  then Raise "group name must contain at least one word character"
  else match require_object_name normalized "model_group.name" with
       | Raise e => Raise e
       | Ok _ => Ok normalized
       end.

(** ** ModelGroupRouter: state *)

Definition EWMA_LATENCY_GAIN : float := float_lit 1 8.
Definition BETA_PRIOR_SUCCESS_COUNT : float := f1.
Definition BETA_PRIOR_FAILURE_COUNT : float := f1.
Definition MIN_ROUTING_LATENCY_SECONDS : float := float_lit 1 1000.
Definition RATE_OBSERVATION_WINDOW_SECONDS : float := float_of_Z 60.
Definition UNOBSERVED_MEMBER_SCORE : float :=
  fdiv BETA_PRIOR_SUCCESS_COUNT (fadd BETA_PRIOR_SUCCESS_COUNT BETA_PRIOR_FAILURE_COUNT).

(** One ledger row. *)
Record member_state := {
  ms_alpha : float;
  ms_beta : float;
  ms_prior_alpha : float;
  ms_prior_beta : float;
  ms_ewma : option float;
  ms_ewma_tps : option float;
}.

Record group_router := {
  gr_members : gmap string member_state;
  gr_minute_observations : gmap string (list (float * option Z));
  gr_max_observed_rpm : gmap string Z;
  gr_max_observed_tpm : gmap string Z;
}.

(** The constructor's fields that never change. *)
Record router_config := {
  rc_ewma_gain : float;
  rc_min_latency_seconds : float;
  rc_prior_resolver : option (string → float * float);
}.

Definition empty_router : group_router :=
  {| gr_members := ∅; gr_minute_observations := ∅;
     gr_max_observed_rpm := ∅; gr_max_observed_tpm := ∅ |}.

(** [ModelGroupRouter.__init__]. *)
Definition ModelGroupRouter_init (ewma_gain min_latency_seconds : float)
    (prior_resolver : option (string → float * float)) : res string (router_config * group_router) :=
  if negb (fltb f0 ewma_gain && fleb ewma_gain f1)
  then Raise "ewma_gain must be within (0, 1]"
  else if negb (is_finite min_latency_seconds) || fleb min_latency_seconds f0
  then Raise "min_latency_seconds must be finite and positive"
  else Ok ({| rc_ewma_gain := ewma_gain; rc_min_latency_seconds := min_latency_seconds;
              rc_prior_resolver := prior_resolver |}, empty_router).

Definition default_config : router_config :=
  {| rc_ewma_gain := EWMA_LATENCY_GAIN;
     rc_min_latency_seconds := MIN_ROUTING_LATENCY_SECONDS;
     rc_prior_resolver := None |}.

(** ** ModelGroupRouter: operations *)

Definition _blank_state (cfg : router_config) (member_id : string) : member_state :=
  let '(alpha, beta) :=
    match rc_prior_resolver cfg with
    | Some resolve => resolve member_id
    | None => (BETA_PRIOR_SUCCESS_COUNT, BETA_PRIOR_FAILURE_COUNT)
    end in
  {| ms_alpha := alpha; ms_beta := beta; ms_prior_alpha := alpha; ms_prior_beta := beta;
     ms_ewma := None; ms_ewma_tps := None |}.

Definition set_member (member_id : string) (m : member_state) (r : group_router) : group_router :=
  {| gr_members := <[member_id := m]> (gr_members r);
     gr_minute_observations := gr_minute_observations r;
     gr_max_observed_rpm := gr_max_observed_rpm r;
     gr_max_observed_tpm := gr_max_observed_tpm r |}.

(** [_ensure_locked]: [setdefault]; the row is (now) in the ledger. *)
Definition _ensure_locked (cfg : router_config) (member_id : string) (r : group_router)
    : group_router * member_state :=
  match gr_members r !! member_id with
  | Some m => (r, m)
  | None => let m := _blank_state cfg member_id in (set_member member_id m r, m)
  end.

Definition register_member (cfg : router_config) (member_id : string) (r : group_router)
    : group_router := (_ensure_locked cfg member_id r).1.

Definition drop_member (member_id : string) (r : group_router) : group_router :=
  {| gr_members := delete member_id (gr_members r);
     gr_minute_observations := delete member_id (gr_minute_observations r);
     gr_max_observed_rpm := delete member_id (gr_max_observed_rpm r);
     gr_max_observed_tpm := delete member_id (gr_max_observed_tpm r) |}.

Definition forget_members (keep_member_ids : gset string) (r : group_router) : group_router :=
  foldr (λ member_id r, if decide (member_id ∈ keep_member_ids) then r else drop_member member_id r)
    r (map_to_list (gr_members r)).*1.

Definition reset_members (member_ids : gset string) (r : group_router) : group_router :=
  foldr drop_member r (elements member_ids).

Definition update_prior (cfg : router_config) (member_id : string) (prior_alpha prior_beta : float)
    (r : group_router) : res string group_router :=
  if negb (is_finite prior_alpha) || fltb prior_alpha f0
  then Raise "prior_alpha must be finite and non-negative"
  else if negb (is_finite prior_beta) || fltb prior_beta f0
  then Raise "prior_beta must be finite and non-negative"
  else
    let '(r, state) := _ensure_locked cfg member_id r in
    let delta_alpha := fsub prior_alpha (ms_prior_alpha state) in
    let delta_beta := fsub prior_beta (ms_prior_beta state) in
    Ok (set_member member_id
          {| ms_alpha := fadd (ms_alpha state) delta_alpha;
             ms_beta := fadd (ms_beta state) delta_beta;
             ms_prior_alpha := prior_alpha; ms_prior_beta := prior_beta;
             ms_ewma := ms_ewma state; ms_ewma_tps := ms_ewma_tps state |} r).

(** One step of the exponentially weighted moving average. *)
Definition ewma_step (gain : float) (old : option float) (sample : float) : float :=
  match old with
  | None => sample
  | Some e => fadd (fmul (fsub f1 gain) e) (fmul gain sample)
  end.

(** The [while observations and observations[0][0] <= cutoff: popleft()] loop. *)
Definition evict_old (cutoff : float) (obs : list (float * option Z)) : list (float * option Z) :=
  drop_while (λ o, fleb o.1 cutoff) obs.

Definition sum_tokens (obs : list (float * option Z)) : Z :=
  foldr (λ o n, default 0 o.2 + n) 0 obs.

(** The validation half of [observe_success]: the clamped latency and the
    throughput sample. *)
Definition validate_success (cfg : router_config) (latency_seconds : option float)
    (output_tokens total_tokens : option Z) : res string (option float * option float) :=
  match
    match latency_seconds with
    | None => Ok None
    | Some latency =>
        if negb (is_finite latency) then Raise "latency_seconds must be finite"
        else if fltb latency f0 then Raise "latency_seconds must be nonnegative"
        else Ok (Some (fmax latency (rc_min_latency_seconds cfg)))
    end
  with
  | Raise e => Raise e
  | Ok clamped =>
      if bool_decide (default 1 output_tokens <= 0)
      then Raise "output_tokens must be a positive integer when provided"
      else if bool_decide (default 1 total_tokens <= 0)
      then Raise "total_tokens must be a positive integer when provided"
      else
        match output_tokens, clamped with
        | Some tokens, Some c =>
            let sample := fdiv (float_of_Z tokens) c in
            if is_finite (float_of_Z tokens) && is_finite sample
            then Ok (clamped, Some sample)
            else Raise "output_tokens must be representable as a finite float"
        | _, _ => Ok (clamped, None)
        end
  end.

(** [observe_success], at the clock reading [now]. *)
Definition observe_success (cfg : router_config) (member_id : string)
    (latency_seconds : option float) (output_tokens total_tokens : option Z) (now : float)
    (r : group_router) : res string group_router :=
  match validate_success cfg latency_seconds output_tokens total_tokens with
  | Raise e => Raise e
  | Ok (clamped, throughput_sample) =>
      let '(r, state) := _ensure_locked cfg member_id r in
      let gain := rc_ewma_gain cfg in
      let state' :=
        {| ms_alpha := fadd (ms_alpha state) f1;
           ms_beta := ms_beta state;
           ms_prior_alpha := ms_prior_alpha state;
           ms_prior_beta := ms_prior_beta state;
           ms_ewma := match clamped with
                      | Some c => Some (ewma_step gain (ms_ewma state) c)
                      | None => ms_ewma state
                      end;
           ms_ewma_tps := match throughput_sample with
                          | Some s => Some (ewma_step gain (ms_ewma_tps state) s)
                          | None => ms_ewma_tps state
                          end |} in
      let observations :=
        evict_old (fsub now RATE_OBSERVATION_WINDOW_SECONDS)
          (default [] (gr_minute_observations r !! member_id) ++ [(now, total_tokens)]) in
      Ok {| gr_members := <[member_id := state']> (gr_members r);
            gr_minute_observations := <[member_id := observations]> (gr_minute_observations r);
            gr_max_observed_rpm :=
              <[member_id := Z.max (default 0 (gr_max_observed_rpm r !! member_id))
                                   (Z.of_nat (length observations))]> (gr_max_observed_rpm r);
            gr_max_observed_tpm :=
              <[member_id := Z.max (default 0 (gr_max_observed_tpm r !! member_id))
                                   (sum_tokens observations)]> (gr_max_observed_tpm r) |}
  end.

Definition observe_failure (cfg : router_config) (member_id : string) (r : group_router)
    : group_router :=
  let '(r, state) := _ensure_locked cfg member_id r in
  set_member member_id
    {| ms_alpha := ms_alpha state; ms_beta := fadd (ms_beta state) f1;
       ms_prior_alpha := ms_prior_alpha state; ms_prior_beta := ms_prior_beta state;
       ms_ewma := ms_ewma state; ms_ewma_tps := ms_ewma_tps state |} r.

(** [_score_locked]; the division by a zero evidence mass raises. *)
Definition _score_locked (cfg : router_config) (r : group_router) (member_id : string)
    : res string float :=
  match gr_members r !! member_id with
  | None => Ok UNOBSERVED_MEMBER_SCORE
  | Some state =>
      let mass := fadd (ms_alpha state) (ms_beta state) in
      if feqb mass f0 then Raise "ZeroDivisionError"
      else
        let stability := fdiv (ms_alpha state) mass in
        match ms_ewma state with
        | None => Ok (fdiv stability f1)
        | Some e => Ok (fdiv stability (fmax e (rc_min_latency_seconds cfg)))
        end
  end.

(** [int(x)] of a finite float: truncation towards zero. *)
Definition int_of_float (x : float) : Z :=
  match x with
  | S754_finite s m e =>
      let v := if 0 <=? e then Z.pos m * 2 ^ e else Z.pos m / 2 ^ (- e) in
      if s then - v else v
  | _ => 0
  end.

Definition member_observation_count (r : group_router) (member_id : string) : Z :=
  match gr_members r !! member_id with
  | None => 0
  | Some state =>
      int_of_float (fmax (fsub (ms_alpha state) (ms_prior_alpha state)) f0) +
      int_of_float (fmax (fsub (ms_beta state) (ms_prior_beta state)) f0)
  end.

(** [ranked_member_ids]: scores first (any of them may raise), then a stable sort
    on the negated score. *)
Definition score_le (scored : list (string * float)) (a b : string) : bool :=
  let key m := fopp (default f0 (od_get m scored)) in
  negb (fltb (key b) (key a)).

Definition ranked_member_ids (cfg : router_config) (r : group_router) (member_ids : list string)
    : res string (list string) :=
  match map_res (λ m, (λ s, (m, s)) <$> _score_locked cfg r m) member_ids with
  | Raise e => Raise e
  | Ok scored => Ok (py_sorted (score_le scored) member_ids)
  end.

(** ** Lemmas: names *)

(** The characters of an object name. *)
Definition name_char (c : ascii) : bool :=
  ((97 <=? ord c) && (ord c <=? 122)) || ((48 <=? ord c) && (ord c <=? 57)) || (ord c =? 95).

Lemma object_name_chars s :
  is_two_word_snake_case s = true → forallb name_char (str_list s) = true.
Proof.
  apply fullmatch_chars. unfold name_char. repeat split; cbn; intros c Hc.
  all: try (destruct (Ascii.eqb_spec c "_"); [by subst|done]).
  all: unfold rrange in Hc; rewrite Hc; by rewrite ?orb_true_r.
Qed.

Lemma name_char_plain c :
  name_char c = true →
  is_space c = false ∧ lower_char c = c ∧ is_group_separator c = false.
Proof.
  unfold name_char. intros Hc.
  assert (is_space c = false) as Hsp.
  { unfold is_space. apply not_true_iff_false. intros Hs.
    rewrite !orb_true_iff, !andb_true_iff in *. lia. }
  split; [done|]. split.
  - unfold lower_char. case_match eqn:Hb; [|done].
    rewrite !orb_true_iff, !andb_true_iff in *. lia.
  - unfold is_group_separator. rewrite Hsp, orb_false_r.
    apply not_true_iff_false. intros Hs. rewrite !orb_true_iff, !andb_true_iff in *. lia.
Qed.

Lemma normalize_separators_plain l :
  forallb (λ c, negb (is_group_separator c)) l = true → normalize_separators false l = l.
Proof.
  induction l as [|c l IH]; cbn; [done|]. intros H. bools.
  rewrite H. cbn. by rewrite IH.
Qed.

(** ** Lemmas: ranking *)

Lemma fltb_opp x y : fltb (fopp x) (fopp y) = fltb y x.
Proof.
  destruct (is_nan x) eqn:Hx; [destruct x, y as [[]|[]| |[]]; done|].
  destruct (is_nan y) eqn:Hy; [destruct y, x as [[]|[]| |[]]; done|].
  rewrite !fltb_rank by (by destruct x, y). apply eq_true_iff_eq. rewrite !lex_ltb_spec.
  destruct x as [[]|[]| |[]], y as [[]|[]| |[]]; cbn in *; try done; lia.
Qed.

Lemma map_res_od_get (cfg : router_config) r ms scored m :
  map_res (λ m, (λ s, (m, s)) <$> _score_locked cfg r m) ms = Ok scored → m ∈ ms →
  ∃ s, _score_locked cfg r m = Ok s ∧ od_get m scored = Some s.
Proof.
  rewrite map_res_Forall2. induction 1 as [|m' [k s] ms scored Hs Hrest IH]; [set_solver|].
  destruct (_score_locked cfg r m') as [s'|] eqn:Hm'; cbn in Hs; [|done]. simplify_eq.
  rewrite elem_of_cons. cbn. intros [->|Hin]; [exists s; by rewrite decide_True|].
  case_decide; subst; [by exists s|]. by apply IH.
Qed.

(** ** Lemmas: the sliding window *)

(** Observation times never decrease and none is NaN. *)
Definition window_ordered (obs : list (float * option Z)) : Prop :=
  Forall (λ o, is_nan o.1 = false) obs ∧
  StronglySorted (λ o o', fltb o'.1 o.1 = false) obs.

Lemma evict_old_filter cutoff obs :
  is_nan cutoff = false → window_ordered obs →
  evict_old cutoff obs = List.filter (λ o, negb (fleb o.1 cutoff)) obs.
Proof.
  intros Hc [Hnan Hs]. unfold evict_old. induction Hs as [|o obs Hs IH Ho]; cbn; [done|].
  apply Forall_cons in Hnan as [Hno Hnan].
  destruct (fleb o.1 cutoff) eqn:Hle; cbn; [by apply IH|].
  f_equal. symmetry. apply List.forallb_filter_id. rewrite forallb_forall. intros x Hx.
  rewrite Forall_forall in Ho, Hnan. apply list_elem_of_In in Hx.
  assert (is_nan x.1 = false) as Hnx by by apply Hnan.
  rewrite fleb_fltb in Hle |- * by done. rewrite negb_involutive.
  apply negb_false_iff in Hle. destruct (fltb cutoff x.1) eqn:Hx'; [done|].
  assert (fltb cutoff o.1 = false); [|congruence].
  apply (not_fltb_trans o.1 x.1 cutoff); auto.
Qed.

Lemma window_ordered_snoc obs t k :
  window_ordered obs → is_nan t = false → Forall (λ o, fltb t o.1 = false) obs →
  window_ordered (obs ++ [(t, k)]).
Proof.
  intros [Hn Hs] Ht Hall. split; [apply Forall_app; split; [done|by repeat constructor]|].
  apply StronglySorted_app_2; [|done|repeat constructor].
  intros x1 x2 Hx1 Hx2. rewrite Forall_forall in Hall.
  apply list_elem_of_singleton in Hx2 as ->. by apply Hall.
Qed.

(** ** Properties *)

(** An object name is its own canonical form. *)
Lemma canonical_object_name n :
  is_two_word_snake_case n = true →
  negb (str_truthy n) || forallb (λ c, ord c =? 95) (str_list n) = false →
  canonical_group_name n = Ok n.
Proof.
  intros Hn Hempty. pose proof (object_name_chars n Hn) as Hchars. rewrite forallb_forall in Hchars.
  assert (str_strip n = n) as Hstrip.
  { apply str_strip_id. rewrite forallb_forall. intros c Hc.
    by rewrite (proj1 (name_char_plain c (Hchars c Hc))). }
  assert (str_lower n = n) as Hlower.
  { apply str_map_id. intros c Hc. by apply name_char_plain, Hchars. }
  assert (normalize_separators false (str_list n) = str_list n) as Hsep.
  { apply normalize_separators_plain. rewrite forallb_forall. intros c Hc.
    by rewrite (proj2 (proj2 (name_char_plain c (Hchars c Hc)))). }
  unfold canonical_group_name. cbn zeta. rewrite Hstrip, Hlower, Hsep, list_str_list, Hempty.
  unfold require_object_name. by rewrite Hn.
Qed.

Lemma canonical_group_name_fixed raw name :
  canonical_group_name raw = Ok name →
  is_two_word_snake_case name = true ∧ canonical_group_name name = Ok name.
Proof.
  unfold canonical_group_name at 1. cbn zeta. set (n := list_str _). intros H.
  destruct (_ || _) eqn:Hempty; [done|].
  unfold require_object_name in H. destruct (is_two_word_snake_case n) eqn:Hn; cbn in H; [|done].
  injection H as <-. split; [done|]. by apply canonical_object_name.
Qed.

(** A group name is normalised to the repository's object-name convention, and
    normalising is idempotent: the stored form of an alias is its own canonical
    form, so hyphenated, spaced and upper-case spellings name one group. *)
Theorem canonical_group_name_idempotent raw name :
  canonical_group_name raw = Ok name →
  is_two_word_snake_case name = true ∧ canonical_group_name name = Ok name.
Proof. apply canonical_group_name_fixed. Qed.

Lemma canonical_group_name_idempotent_witness :
  canonical_group_name "shared_reasoning_model" = Ok "shared_reasoning_model".
Proof.
  exact (proj2 (canonical_group_name_idempotent " Shared-Reasoning model" "shared_reasoning_model"
           eq_refl)).
Defined.

(** Measured ranking only reorders: when every member has a score that is a
    number, the ranked list is a permutation of the input in which no member
    precedes a strictly better one, and members with equal scores keep the
    caller's static order. *)
Theorem ranked_member_ids_spec cfg r member_ids score :
  (∀ m, m ∈ member_ids → _score_locked cfg r m = Ok (score m) ∧ is_nan (score m) = false) →
  ∃ ranked, ranked_member_ids cfg r member_ids = Ok ranked ∧
    ranked ≡ₚ member_ids ∧
    StronglySorted (λ a b, fltb (score a) (score b) = false) ranked ∧
    (∀ s, List.filter (λ m, bool_decide (score m = s)) ranked =
          List.filter (λ m, bool_decide (score m = s)) member_ids).
Proof.
  intros Hscore. unfold ranked_member_ids.
  destruct (map_res _ member_ids) as [scored|e] eqn:Hm; cycle 1.
  { exfalso. revert Hm. clear -Hscore. induction member_ids as [|m ms IH]; cbn; [done|].
    destruct (Hscore m) as [-> _]; [left|]. cbn.
    destruct (map_res _ ms) eqn:Hms; [done|]. intros [= ->].
    apply IH; [intros; apply Hscore; by right | done]. }
  assert (∀ m, m ∈ member_ids → od_get m scored = Some (score m)) as Hget.
  { intros m Hin. destruct (map_res_od_get cfg r _ _ _ Hm Hin) as (s & Hs & ->).
    destruct (Hscore m Hin) as [Hs' _]. congruence. }
  assert (∀ a b, a ∈ member_ids → b ∈ member_ids →
            score_le scored a b = negb (fltb (score a) (score b))) as Hle.
  { intros a b Ha Hb. unfold score_le. rewrite !Hget by done. cbn. by rewrite fltb_opp. }
  eexists. split; [done|]. split; [apply py_sorted_perm|]. split.
  - assert (StronglySorted (λ a b, score_le scored a b = true)
              (py_sorted (score_le scored) member_ids)) as Hs.
    { apply py_sorted_sorted with (P := λ m, m ∈ member_ids).
      - intros a b Ha Hb. rewrite !Hle by done. destruct (fltb (score a) (score b)) eqn:Hab; auto.
        right. by rewrite (fltb_asym _ _ Hab).
      - intros a b c Ha Hb Hc. rewrite !Hle by done. rewrite !negb_true_iff. intros Hab Hbc.
        apply (not_fltb_trans (score c) (score b) (score a)); try done; by apply Hscore.
      - by apply Forall_forall. }
    eapply (StronglySorted_mono (λ m, m ∈ member_ids)); [|exact Hs|].
    2: { apply Forall_forall. intros x Hx. by apply (py_sorted_elem (score_le scored)). }
    intros a b Ha Hb Hab. cbv beta in Hab. rewrite Hle in Hab by done. by apply negb_true_iff.
  - intros s. apply py_sorted_stable. intros a b Ha Hb Hsa Hsb. bools.
    rewrite Hle by done. rewrite Hsa, Hsb. by rewrite fltb_irrefl.
Qed.

Definition two_member_router : group_router :=
  {| gr_members :=
       <["slow_agent" := {| ms_alpha := float_of_Z 3; ms_beta := f1; ms_prior_alpha := f1;
                            ms_prior_beta := f1; ms_ewma := Some (float_of_Z 4);
                            ms_ewma_tps := None |}]>
       (<["fast_agent" := {| ms_alpha := float_of_Z 3; ms_beta := f1; ms_prior_alpha := f1;
                             ms_prior_beta := f1; ms_ewma := Some (float_of_Z 2);
                             ms_ewma_tps := None |}]> ∅);
     gr_minute_observations := ∅; gr_max_observed_rpm := ∅; gr_max_observed_tpm := ∅ |}.

Definition two_member_score (m : string) : float :=
  match _score_locked default_config two_member_router m with Ok s => s | Raise _ => S754_nan end.

Lemma ranked_member_ids_spec_witness :
  ∃ ranked,
    ranked_member_ids default_config two_member_router ["slow_agent"; "new_agent"; "fast_agent"]
      = Ok ranked ∧
    ranked ≡ₚ ["slow_agent"; "new_agent"; "fast_agent"].
Proof.
  destruct (ranked_member_ids_spec default_config two_member_router
              ["slow_agent"; "new_agent"; "fast_agent"] two_member_score)
    as (ranked & H1 & H2 & _).
  - intros m Hm. rewrite !elem_of_cons, elem_of_nil in Hm.
    destruct Hm as [->|[->|[->|[]]]]; by vm_compute.
  - by exists ranked.
Defined.

(** The popping loop is a sliding window: for a member whose observations are
    in clock order, an observed success leaves exactly the observations (the new
    one included) that are younger than the sixty-second window, its high-water
    marks are the maxima of the window's request count and token sum, they never
    decrease, and no other member's evidence moves. *)
Theorem observe_success_window cfg m latency out total now r r' :
  let old := default [] (gr_minute_observations r !! m) in
  let cutoff := fsub now RATE_OBSERVATION_WINDOW_SECONDS in
  let window := List.filter (λ o, negb (fleb o.1 cutoff)) (old ++ [(now, total)]) in
  window_ordered old → Forall (λ o, fltb now o.1 = false) old →
  is_nan now = false → is_nan cutoff = false →
  observe_success cfg m latency out total now r = Ok r' →
  gr_minute_observations r' !! m = Some window ∧
  (∃ rpm tpm, gr_max_observed_rpm r' !! m = Some rpm ∧ gr_max_observed_tpm r' !! m = Some tpm ∧
     rpm = Z.max (default 0 (gr_max_observed_rpm r !! m)) (Z.of_nat (length window)) ∧
     tpm = Z.max (default 0 (gr_max_observed_tpm r !! m)) (sum_tokens window)) ∧
  (∀ m', m' ≠ m →
     gr_members r' !! m' = gr_members r !! m' ∧
     gr_minute_observations r' !! m' = gr_minute_observations r !! m' ∧
     gr_max_observed_rpm r' !! m' = gr_max_observed_rpm r !! m').
Proof.
  cbn zeta. intros Hord Hlate Hnow Hcut H.
  unfold observe_success in H.
  destruct (validate_success _ _ _ _) as [[clamped sample]|]; [|done].
  destruct (_ensure_locked cfg m r) as [r1 state] eqn:He.
  assert (gr_minute_observations r1 = gr_minute_observations r ∧
          gr_max_observed_rpm r1 = gr_max_observed_rpm r ∧
          gr_max_observed_tpm r1 = gr_max_observed_tpm r ∧
          ∀ m', m' ≠ m → gr_members r1 !! m' = gr_members r !! m') as (Ho & Hr & Ht & Hm).
  { unfold _ensure_locked in He. destruct (gr_members r !! m); simplify_eq; [done|].
    split_and!; try done. intros m' Hne. cbn. by rewrite lookup_insert_ne. }
  injection H as <-. cbn. rewrite Ho, Hr, Ht.
  rewrite evict_old_filter; [|done|by apply window_ordered_snoc].
  rewrite !lookup_insert_eq. split; [done|]. split; [by eauto 10|].
  intros m' Hne. rewrite !lookup_insert_ne by done. auto.
Qed.

Lemma observe_success_window_witness :
  ∃ r', observe_success default_config "fast_agent" (Some f1) (Some 10) (Some 20) (float_of_Z 100)
          {| gr_members := ∅;
             gr_minute_observations :=
               <["fast_agent" := [(float_of_Z 20, Some 5); (float_of_Z 70, None)]]> ∅;
             gr_max_observed_rpm := ∅; gr_max_observed_tpm := ∅ |} = Ok r' ∧
        gr_minute_observations r' !! "fast_agent" =
          Some [(float_of_Z 70, None); (float_of_Z 100, Some 20)].
Proof.
  eexists. split; [by vm_compute|].
  refine (eq_trans (proj1 (observe_success_window default_config "fast_agent" (Some f1) (Some 10)
           (Some 20) (float_of_Z 100)
           {| gr_members := ∅;
              gr_minute_observations :=
                <["fast_agent" := [(float_of_Z 20, Some 5); (float_of_Z 70, None)]]> ∅;
              gr_max_observed_rpm := ∅; gr_max_observed_tpm := ∅ |} _ _ _ _ _ _)) _).
  - split; repeat constructor.
  - repeat constructor.
  - by vm_compute.
  - by vm_compute.
  - by vm_compute.
  - by vm_compute.
Defined.

(** ** Evidence accounting *)

(** One hundred percent minus 0.3: what one uptime poll adds to the prior. *)
Definition uptime_share : float := fdiv (float_lit 997 10) (float_of_Z 100).

(** One observed success, then three prior refreshes as the uptime collector makes
    them ([1 + next_alpha], [1 + next_beta]). *)
Definition refreshed_router : res string group_router :=
  match observe_success default_config "free_agent" None None None (float_of_Z 7) empty_router with
  | Raise e => Raise e
  | Ok r0 =>
      let poll n r :=
        match r with
        | Raise e => Raise e
        | Ok r =>
            let share k := Nat.iter k (fadd uptime_share) f0 in
            let rest k := Nat.iter k (fadd (fsub f1 uptime_share)) f0 in
            update_prior default_config "free_agent" (fadd f1 (share n)) (fadd f1 (rest n)) r
        end in
      poll 3%nat (poll 2%nat (poll 1%nat (Ok r0)))
  end.

(** Refreshing a prior does not keep the observed-outcome accounting
    identical: with binary64 rounding, one observed success followed by three
    uptime refreshes of 99.7 percent is reported as no observation at all. *)
Theorem update_prior_loses_observation :
  (∃ r, observe_success default_config "free_agent" None None None (float_of_Z 7) empty_router
          = Ok r ∧ member_observation_count r "free_agent" = 1) ∧
  (∃ r, refreshed_router = Ok r ∧ member_observation_count r "free_agent" = 0).
Proof.
  split; eexists; (split; [by vm_compute|]); by vm_compute.
Qed.

(** A prior that [update_prior] accepts can make the score undefined: after a
    refresh to the zero prior a member without outcomes has no evidence mass, and
    asking for its score (or for any ranking that includes it) divides by zero. *)
Theorem zero_prior_breaks_ranking :
  ∃ r, update_prior default_config "new_agent" f0 f0 empty_router = Ok r ∧
       _score_locked default_config r "new_agent" = Raise "ZeroDivisionError" ∧
       ∀ others, "new_agent" ∈ others → ∃ e, ranked_member_ids default_config r others = Raise e.
Proof.
  eexists. split; [by vm_compute|]. split; [by vm_compute|].
  intros others Hin. unfold ranked_member_ids.
  destruct (map_res _ others) as [scored|e] eqn:Hm; [|by exists e].
  destruct (map_res_od_get _ _ _ _ _ Hm Hin) as (s & Hs & _). by vm_compute in Hs.
Qed.
