(* ===== verification/EndpointRace.v ===== *)
(** endpoint_race.py: a bounded race between endpoints of one reviewed
    equivalence class, as a transition system of worker threads and the waiting
    caller. *)

From Stdlib Require Import Ascii.
From S2P Require Import Prelude PyString PyCollections PyFloat.

(** ** EndpointEquivalenceContract *)

Record EndpointEquivalenceContract := {
  contract_id : string;
  model_revision : string;
  reasoning_effort_profile : string;
  capability_set : list string;
  structured_output_contract : string;
  accuracy_class : string;
  data_residency_policy : string;
  retention_policy : string;
  context_limit : Z;
  pricing_evidence_id : string;
  hedge_eligible : bool;
  cancellation_supported : bool;
  execution_policy : string;
}.

#[export] Instance contract_eqdec : EqDecision EndpointEquivalenceContract.
Proof. solve_decision. Defined.

(** [sorted(set(capabilities))]. *)
Definition sorted_set (l : list string) : list string := py_sorted String.leb (fromkeys l).

(** [__post_init__] on a contract whose fields have their declared types. *)
Definition contract_post_init (c : EndpointEquivalenceContract)
    : res string EndpointEquivalenceContract :=
  if existsb str_blank
       [contract_id c; model_revision c; reasoning_effort_profile c;
        structured_output_contract c; accuracy_class c; data_residency_policy c;
        retention_policy c; pricing_evidence_id c]
  then Raise "every equivalence field must be explicitly declared" else
  if context_limit c <=? 0 then Raise "context_limit must be a positive integer" else
  match capability_set c with
  | [] => Raise "capability_set must be explicitly declared"
  | _ =>
      if negb (bool_decide (execution_policy c ∈ ["sequential_failover"; "immediate_race"]))
      then Raise "unsupported endpoint execution policy"
      else Ok {| contract_id := contract_id c;
                 model_revision := model_revision c;
                 reasoning_effort_profile := reasoning_effort_profile c;
                 capability_set := sorted_set (capability_set c);
                 structured_output_contract := structured_output_contract c;
                 accuracy_class := accuracy_class c;
                 data_residency_policy := data_residency_policy c;
                 retention_policy := retention_policy c;
                 context_limit := context_limit c;
                 pricing_evidence_id := pricing_evidence_id c;
                 hedge_eligible := hedge_eligible c;
                 cancellation_supported := cancellation_supported c;
                 execution_policy := execution_policy c |}
  end.

(** ** EndpointAttempt *)

Record EndpointAttempt := {
  endpoint_id : string;
  contract : EndpointEquivalenceContract;
  attempt_cancellation_supported : bool;
  has_cancel : bool;    (* attempt.cancel is not None *)
}.

(** The admission checks of [race_first_valid], in their order. *)
Definition race_admission (attempts : list EndpointAttempt) (deadline_seconds : option float)
    (max_concurrency : Z) : res string unit :=
  let n := Z.of_nat (length attempts) in
  match attempts with
  | [] | [_] => Raise "a race requires at least two endpoint attempts"
  | first :: rest =>
      if max_concurrency <? 2
      then Raise "immediate_race requires concurrency capacity of at least two"
      else if max_concurrency <? n
      then Raise "immediate_race capacity must cover every declared endpoint"
      else if match deadline_seconds with Some d => fleb d f0 | None => false end
      then Raise "deadline_seconds must be positive"
      else if existsb (λ a, bool_decide (contract a ≠ contract first)) rest
      then Raise "endpoint equivalence cannot be proven"
      else if negb (bool_decide (NoDup (map endpoint_id attempts)))
      then Raise "endpoint identifiers must be unique"
      else Ok tt
  end.

Lemma admission_ok attempts deadline capacity :
  race_admission attempts deadline capacity = Ok tt →
  (2 ≤ length attempts)%nat ∧ NoDup (map endpoint_id attempts) ∧
  (∀ a b, a ∈ attempts → b ∈ attempts → contract a = contract b).
Proof.
  unfold race_admission. destruct attempts as [|a [|b rest]]; [done|done|].
  cbv zeta. repeat match goal with
  | |- (if ?b then Raise _ else _) = _ → _ => destruct b eqn:?; [done|]
  end.
  intros _. bools. split; [cbn; lia|]. split; [done|].
  assert (Hc : ∀ x, x ∈ a :: b :: rest → contract x = contract a).
  { intros x [->|Hx]%elem_of_cons; [done|].
    destruct (decide (contract x = contract a)) as [|Hne]; [done|].
    match goal with Hf : existsb _ _ = false |- _ =>
      assert (existsb (λ a0, bool_decide (contract a0 ≠ contract a)) (b :: rest) = true) as Ht;
      [apply existsb_exists; exists x; split; [by apply list_elem_of_In|by apply bool_decide_eq_true]
      |cbn in Hf, Ht; congruence] end. }
  intros x y Hx Hy. by rewrite (Hc x), (Hc y).
Qed.

Inductive race_error (E : Type) :=
| TimedOut                      (* TimeoutError *)
| AllFailed (last : option E).  (* RuntimeError from last_error *)
Arguments TimedOut {E}.
Arguments AllFailed {E} last.

Section race.
Context {T E : Type}
        (attempts : list EndpointAttempt)
        (has_deadline : bool)
        (validate : T → res E bool)
        (invalid_response : E)
        (on_attempt_complete : string → option T → option E → option E).

(** ** Workers and futures *)

Inductive fstate :=
| Pending
| Running
| Cancelled
| Finished (r : res E T).

(** What [execute] settles its future with once the provider call has ended. *)
Definition settle (id : string) (called : res E T) : res E T :=
  let outcome :=
    match called with
    | Raise e => Raise e
    | Ok v =>
        match validate v with
        | Raise e => Raise e
        | Ok true => Ok v
        | Ok false => Raise invalid_response
        end
    end in
  match outcome with
  | Raise e =>
      match on_attempt_complete id None (Some e) with
      | Some callback_exc => Raise callback_exc
      | None => Raise e
      end
  | Ok v =>
      match on_attempt_complete id (Some v) None with
      | Some callback_exc => Raise callback_exc
      | None => Ok v
      end
  end.

(** The caller: in its [wait] loop, cancelling the losers of a published winner,
    cancelling what is pending on the way out of a timeout, or done. *)
Inductive caller :=
| Waiting (pending : list nat) (last_error : option E)
| Publishing (winner : nat) (value : T) (todo : list nat) (done : list (nat * string))
| Draining (todo : list nat) (done : list (nat * string)) (error : race_error E)
| Returned (winner : nat) (value : T) (cancellations : list (nat * string))
| Failed (error : race_error E).

Record race_state := {
  rs_futures : list fstate;
  rs_calls : list nat;           (* provider calls started, newest first *)
  rs_cancels : list nat;         (* transports asked to cancel, newest first *)
  rs_caller : caller;
}.

Definition is_done (f : fstate) : bool :=
  match f with Cancelled | Finished _ => true | _ => false end.

Definition race_start : race_state :=
  {| rs_futures := replicate (length attempts) Pending;
     rs_calls := [];
     rs_cancels := [];
     rs_caller := Waiting (seq 0 (length attempts)) None |}.

Definition set_future (i : nat) (f : fstate) (s : race_state) : race_state :=
  {| rs_futures := <[i := f]> (rs_futures s); rs_calls := rs_calls s;
     rs_cancels := rs_cancels s; rs_caller := rs_caller s |}.

Definition set_caller (c : caller) (s : race_state) : race_state :=
  {| rs_futures := rs_futures s; rs_calls := rs_calls s;
     rs_cancels := rs_cancels s; rs_caller := c |}.

(** [cancel_loser] on a future whose outcome is not recorded yet; [cancel_fails]
    is whether the transport's [cancel()] raises. *)
Definition cancel_loser (i : nat) (cancel_fails : bool) (s : race_state) : race_state * string :=
  match rs_futures s !! i with
  | Some Cancelled => (s, "queued_cancelled")
  | Some (Finished (Raise _)) => (s, "failed")
  | Some (Finished (Ok _)) => (s, "completed")
  | Some Pending => (set_future i Cancelled s, "queued_cancelled")
  | Some Running =>
      match attempts !! i with
      | Some a =>
          if match attempts with
             | first :: _ => cancellation_supported (contract first)
             | [] => false
             end && attempt_cancellation_supported a && has_cancel a
          then ({| rs_futures := rs_futures s; rs_calls := rs_calls s;
                   rs_cancels := i :: rs_cancels s; rs_caller := rs_caller s |},
                if cancel_fails then "safe_drain" else "cancellation_requested")
          else (s, "safe_drain")
      | None => (s, "safe_drain")
      end
  | None => (s, "safe_drain")
  end.

(** The [for future in sorted(done)] loop: the first valid result in declaration
    order, else the last error. *)
Fixpoint first_valid (fs : list fstate) (done : list nat) (last_error : option E)
    : (nat * T) + option E :=
  match done with
  | [] => inr last_error
  | i :: done' =>
      match fs !! i with
      | Some (Finished (Ok v)) => inl (i, v)
      | Some (Finished (Raise e)) => first_valid fs done' (Some e)
      | _ => first_valid fs done' last_error
      end
  end.

(** The futures of [pending] that [wait] reports done, in declaration order (the
    caller keeps [pending] in that order). *)
Definition done_of (fs : list fstate) (pending : list nat) : list nat :=
  List.filter (λ i, match fs !! i with Some f => is_done f | None => false end) pending.

Definition not_done_of (fs : list fstate) (pending : list nat) : list nat :=
  List.filter (λ i, match fs !! i with Some f => negb (is_done f) | None => true end) pending.

(** One return of [wait(pending, FIRST_COMPLETED)] with something done. *)
Definition after_wait (s : race_state) (pending : list nat) (last_error : option E) : caller :=
  let fs := rs_futures s in
  match first_valid fs (done_of fs pending) last_error with
  | inl (i, v) =>
      Publishing i v (List.filter (λ j, negb (Nat.eqb j i)) (seq 0 (length attempts))) []
  | inr last' => Waiting (not_done_of fs pending) last'
  end.

(** ** Steps

    Workers and the caller interleave freely; the provider decides when a call
    ends and with what, the clock when a deadline fires. *)
Inductive step : race_state → race_state → Prop :=
| worker_starts s i :
    rs_futures s !! i = Some Pending →
    step s {| rs_futures := <[i := Running]> (rs_futures s);
              rs_calls := i :: rs_calls s;
              rs_cancels := rs_cancels s; rs_caller := rs_caller s |}
| worker_finishes s i a called :
    rs_futures s !! i = Some Running →
    attempts !! i = Some a →
    step s (set_future i (Finished (settle (endpoint_id a) called)) s)
| caller_wakes s pending last_error :
    rs_caller s = Waiting pending last_error →
    done_of (rs_futures s) pending ≠ [] →
    step s (set_caller (after_wait s pending last_error) s)
| caller_exhausted s last_error :
    rs_caller s = Waiting [] last_error →
    step s (set_caller (Failed (AllFailed last_error)) s)
| caller_times_out s pending last_error :
    rs_caller s = Waiting pending last_error →
    has_deadline = true →
    pending ≠ [] →
    step s (set_caller (Draining pending [] TimedOut) s)
| caller_cancels s i v j todo done cancel_fails :
    rs_caller s = Publishing i v (j :: todo) done →
    step s (let '(s', outcome) := cancel_loser j cancel_fails s in
            set_caller (Publishing i v todo (done ++ [(j, outcome)])) s')
| caller_returns s i v done :
    rs_caller s = Publishing i v [] done →
    step s (set_caller (Returned i v done) s)
| caller_drains s j todo done error cancel_fails :
    rs_caller s = Draining (j :: todo) done error →
    step s (let '(s', outcome) := cancel_loser j cancel_fails s in
            set_caller (Draining todo (done ++ [(j, outcome)]) error) s')
| caller_raises s done error :
    rs_caller s = Draining [] done error →
    step s (set_caller (Failed error) s).

Inductive reachable : race_state → Prop :=
| reach_start : reachable race_start
| reach_step s s' : reachable s → step s s' → reachable s'.

(** The [RaceOutcome] of a returned race, [completion_ms] apart. *)
Record RaceOutcome := {
  ro_value : T;
  winner_endpoint_id : string;
  attempted_endpoint_ids : list string;
  cancellation_outcomes : list (string * string);
}.

Definition id_at (i : nat) : string := default "" (endpoint_id <$> attempts !! i).

Definition race_outcome (winner : nat) (value : T) (cancellations : list (nat * string))
    : RaceOutcome :=
  {| ro_value := value;
     winner_endpoint_id := id_at winner;
     attempted_endpoint_ids := map endpoint_id attempts;
     cancellation_outcomes := map (λ jo, (id_at jo.1, jo.2)) cancellations |}.

(** ** Invariant *)

(** A future that was cancelled before its worker started, or is still pending,
    has seen no provider call; every other one has seen exactly one. *)
Definition called_ok (s : race_state) : Prop :=
  NoDup (rs_calls s) ∧
  ∀ i f, rs_futures s !! i = Some f →
    (i ∈ rs_calls s ↔ match f with Running | Finished _ => True | _ => False end).

(** A recorded outcome agrees with the future. *)
Definition outcome_ok (s : race_state) (j : nat) (outcome : string) : Prop :=
  match outcome with
  | "queued_cancelled" => rs_futures s !! j = Some Cancelled
  | "failed" => ∃ e, rs_futures s !! j = Some (Finished (Raise e))
  | "completed" => ∃ v, rs_futures s !! j = Some (Finished (Ok v))
  | "cancellation_requested" => j ∈ rs_calls s ∧ j ∈ rs_cancels s
  | "safe_drain" => j ∈ rs_calls s
  | _ => False
  end.

Definition outcomes_ok (s : race_state) (done : list (nat * string)) : Prop :=
  Forall (λ jo, outcome_ok s jo.1 jo.2) done.

Definition winner_ok (s : race_state) (i : nat) (v : T) : Prop :=
  rs_futures s !! i = Some (Finished (Ok v)).

Definition losers (i : nat) : list nat :=
  List.filter (λ j, negb (Nat.eqb j i)) (seq 0 (length attempts)).

Definition caller_ok (s : race_state) : Prop :=
  match rs_caller s with
  | Waiting pending _ =>
      (∀ i, (i < length attempts)%nat → i ∈ pending ∨
         ∃ e, rs_futures s !! i = Some (Finished (Raise e))) ∧
      (∀ i, i ∈ pending → (i < length attempts)%nat) ∧
      (∀ i, rs_futures s !! i ≠ Some Cancelled)
  | Publishing i v todo done =>
      winner_ok s i v ∧ done.*1 ++ todo = losers i ∧ outcomes_ok s done
  | Returned i v done => winner_ok s i v ∧ done.*1 = losers i ∧ outcomes_ok s done
  | Draining todo done error =>
      error = TimedOut ∧ has_deadline = true ∧
      (∀ j, j ∈ todo → (j < length attempts)%nat) ∧ outcomes_ok s done
  | Failed TimedOut => has_deadline = true
  | Failed (AllFailed _) =>
      ∀ i, (i < length attempts)%nat → ∃ e, rs_futures s !! i = Some (Finished (Raise e))
  end.

Definition race_inv (s : race_state) : Prop :=
  length (rs_futures s) = length attempts ∧ called_ok s ∧ caller_ok s ∧
  (∀ i v, rs_futures s !! i = Some (Finished (Ok v)) → validate v = Ok true).

(** ** Preservation

    What a step never undoes: a settled future, a provider call, a cancel
    request. *)
Definition evolves (s s' : race_state) : Prop :=
  (∀ i f, rs_futures s !! i = Some f → is_done f = true → rs_futures s' !! i = Some f) ∧
  (∀ i, i ∈ rs_calls s → i ∈ rs_calls s') ∧
  (∀ i, i ∈ rs_cancels s → i ∈ rs_cancels s').

Lemma evolves_set_caller c s s' : evolves s s' → evolves s (set_caller c s').
Proof. done. Qed.

Lemma evolves_refl s : evolves s s.
Proof. done. Qed.

Lemma evolves_trans s1 s2 s3 : evolves s1 s2 → evolves s2 s3 → evolves s1 s3.
Proof. unfold evolves. naive_solver. Qed.

Lemma evolves_insert i f g calls c s :
  rs_futures s !! i = Some f → is_done f = false →
  (∀ j, j ∈ rs_calls s → j ∈ calls) →
  evolves s {| rs_futures := <[i := g]> (rs_futures s); rs_calls := calls;
               rs_cancels := rs_cancels s; rs_caller := c |}.
Proof.
  intros Hi Hf Hcalls. repeat split; cbn; [|done|done].
  intros j h Hj Hh. rewrite list_lookup_insert_ne; [done|]. intros ->. congruence.
Qed.

Lemma cancel_loser_evolves j b s : evolves s (cancel_loser j b s).1.
Proof.
  unfold cancel_loser. destruct (rs_futures s !! j) as [[| | |[v|e]]|] eqn:Hj; cbn;
    try apply evolves_refl.
  - by eapply evolves_insert.
  - destruct (attempts !! j); [|apply evolves_refl]. case_match; [|apply evolves_refl].
    repeat split; cbn; try done. intros i Hi. by right.
Qed.

Lemma step_evolves s s' : step s s' → evolves s s'.
Proof.
  destruct 1; try (by apply evolves_set_caller, evolves_refl).
  - eapply evolves_insert; [done..|]. intros j Hj. by right.
  - by eapply evolves_insert.
  - pose proof (cancel_loser_evolves j cancel_fails s) as Hev.
    destruct (cancel_loser j cancel_fails s). by apply evolves_set_caller.
  - pose proof (cancel_loser_evolves j cancel_fails s) as Hev.
    destruct (cancel_loser j cancel_fails s). by apply evolves_set_caller.
Qed.

Lemma outcome_ok_evolves s s' j o : evolves s s' → outcome_ok s j o → outcome_ok s' j o.
Proof.
  intros (Hf & Hc & Hk). unfold outcome_ok.
  repeat case_match; try done; try (intros; deex; eauto; fail).
  all: intros; deex; eauto.
Qed.

Lemma outcomes_ok_evolves s s' l : evolves s s' → outcomes_ok s l → outcomes_ok s' l.
Proof. intros Hev H. eapply Forall_impl; [exact H|]. intros jo. by apply outcome_ok_evolves. Qed.

Lemma winner_ok_evolves s s' i v : evolves s s' → winner_ok s i v → winner_ok s' i v.
Proof. intros (Hf & _) Hw. by apply Hf. Qed.

(** The cancelled future and its label. *)
Lemma cancel_loser_outcome j b s :
  called_ok s → (j < length (rs_futures s))%nat →
  outcome_ok (cancel_loser j b s).1 j (cancel_loser j b s).2.
Proof.
  intros [Hnd Hcall] Hlt. apply lookup_lt_is_Some in Hlt as [f Hj].
  specialize (Hcall _ _ Hj). unfold cancel_loser. rewrite Hj.
  destruct f as [| | |[v|e]]; cbn; eauto.
  - rewrite list_lookup_insert_eq; [done|]. by eapply lookup_lt_Some.
  - assert (j ∈ rs_calls s) by tauto.
    destruct (attempts !! j); [|done]. case_match; [|done].
    destruct b; cbn; [done|]. split; [done|]. by left.
Qed.

Lemma cancel_loser_called_ok j b s : called_ok s → called_ok (cancel_loser j b s).1.
Proof.
  intros [Hnd Hcall]. unfold cancel_loser.
  destruct (rs_futures s !! j) as [[| | |[v|e]]|] eqn:Hj; cbn; try done.
  - split; [done|]. intros i f. cbn.
    destruct (decide (i = j)) as [->|].
    + rewrite list_lookup_insert_eq by (by eapply lookup_lt_Some).
      intros [= <-]. by apply (Hcall _ _ Hj).
    + rewrite list_lookup_insert_ne by done. apply Hcall.
  - destruct (attempts !! j); [|done]. by case_match.
Qed.

Lemma cancel_loser_length j b s :
  length (rs_futures (cancel_loser j b s).1) = length (rs_futures s).
Proof. unfold cancel_loser. repeat case_match; cbn; rewrite ?length_insert; done. Qed.

Lemma cancel_loser_valid j b s i v :
  rs_futures (cancel_loser j b s).1 !! i = Some (Finished (Ok v)) →
  rs_futures s !! i = Some (Finished (Ok v)).
Proof.
  unfold cancel_loser. destruct (rs_futures s !! j) as [[| | |[w|e]]|] eqn:Hj; cbn; try done.
  - intros [[_ [? _]]|[_ ?]]%list_lookup_insert_Some; [done|done].
  - destruct (attempts !! j); [|done]. by case_match.
Qed.

Lemma settle_valid id called v : settle id called = Ok v → validate v = Ok true.
Proof.
  unfold settle. destruct called as [w|e].
  - destruct (validate w) as [[|]|] eqn:Hv; repeat case_match; congruence.
  - repeat case_match; congruence.
Qed.

(** *** The caller's loop over the finished futures *)

Lemma first_valid_inl fs done last i v :
  first_valid fs done last = inl (i, v) →
  i ∈ done ∧ fs !! i = Some (Finished (Ok v)).
Proof.
  revert last. induction done as [|j done IH]; intros last; cbn; [done|].
  destruct (fs !! j) as [[| | |[w|e]]|] eqn:Hj;
    try (intros H%IH; destruct H; split; [by right|done]).
  intros [= <- <-]. split; [by left|done].
Qed.

Lemma first_valid_inr fs done last last' i v :
  first_valid fs done last = inr last' → i ∈ done → fs !! i ≠ Some (Finished (Ok v)).
Proof.
  revert last. induction done as [|j done IH]; intros last; cbn; [by intros _ ?%elem_of_nil|].
  intros Hf [->|Hi]%elem_of_cons.
  - intros Hj. by rewrite Hj in Hf.
  - destruct (fs !! j) as [[| | |[w|e]]|] eqn:Hj; [by eapply IH..|done|by eapply IH|by eapply IH].
Qed.

Lemma first_valid_least fs done last i v :
  first_valid fs done last = inl (i, v) → StronglySorted lt done →
  ∀ j w, j ∈ done → fs !! j = Some (Finished (Ok w)) → (i ≤ j)%nat.
Proof.
  intros Hf Hs. revert last Hf. induction Hs as [|k done Hs IH Hk]; intros last; cbn; [done|].
  destruct (fs !! k) as [[| | |[w|e]]|] eqn:Hfk; intros Hf j u Hj Hfj;
    apply elem_of_cons in Hj as [->|Hj]; simplify_eq; try (by eapply IH).
  - done.
  - rewrite Forall_forall in Hk. by apply Nat.lt_le_incl, Hk.
Qed.

Lemma elem_of_done_of fs pending i :
  i ∈ done_of fs pending ↔ i ∈ pending ∧ ∃ f, fs !! i = Some f ∧ is_done f = true.
Proof.
  unfold done_of. rewrite !list_elem_of_In, filter_In.
  destruct (fs !! i) as [f|]; naive_solver.
Qed.

Lemma elem_of_not_done_of fs pending i :
  i ∈ not_done_of fs pending ↔
  i ∈ pending ∧ ∀ f, fs !! i = Some f → is_done f = false.
Proof.
  unfold not_done_of. rewrite !list_elem_of_In, filter_In.
  destruct (fs !! i) as [f|]; [|naive_solver].
  rewrite negb_true_iff. naive_solver.
Qed.

Lemma elem_of_losers i j : j ∈ losers i ↔ (j < length attempts)%nat ∧ j ≠ i.
Proof.
  unfold losers. rewrite list_elem_of_In, filter_In, negb_true_iff, Nat.eqb_neq, in_seq. lia.
Qed.

Lemma after_wait_ok s pending last_error :
  length (rs_futures s) = length attempts →
  rs_caller s = Waiting pending last_error →
  caller_ok s → caller_ok (set_caller (after_wait s pending last_error) s).
Proof.
  intros Hlen Hc. unfold caller_ok, after_wait. rewrite Hc. cbn. intros (Hcov & Hlt & Hcan).
  destruct (first_valid _ _ _) as [[i v]|last'] eqn:Hf; cbn.
  - apply first_valid_inl in Hf as [_ Hw]. split; [done|]. split; [done|]. constructor.
  - split; [|split; [|done]].
    + intros i Hi. destruct (Hcov i Hi) as [Hp|?]; [|by right].
      destruct (rs_futures s !! i) as [f|] eqn:Hfi.
      2: { apply lookup_ge_None in Hfi. lia. }
      destruct f as [| | |[v|e]].
      * left. apply elem_of_not_done_of. naive_solver.
      * left. apply elem_of_not_done_of. naive_solver.
      * by apply Hcan in Hfi.
      * exfalso. eapply first_valid_inr; [done| |exact Hfi].
        apply elem_of_done_of. naive_solver.
      * right. eauto.
    + intros i [Hp _]%elem_of_not_done_of. by apply Hlt.
Qed.

Lemma start_inv : race_inv race_start.
Proof.
  unfold race_inv, called_ok, caller_ok, race_start; cbn.
  split; [by rewrite length_replicate|]. split; [|split].
  - split; [constructor|]. intros i f [-> _]%lookup_replicate. split; [by intros ?%elem_of_nil|done].
  - split; [|split].
    + intros i Hi. left. apply elem_of_seq. lia.
    + intros i Hi%elem_of_seq. lia.
    + intros i [H _]%lookup_replicate. done.
  - intros i v [H _]%lookup_replicate. done.
Qed.

(** A worker's step: the caller's view survives it. *)
Lemma caller_ok_worker s s' i g :
  evolves s s' → rs_caller s' = rs_caller s → rs_futures s' = <[i := g]> (rs_futures s) →
  g ≠ Cancelled → caller_ok s → caller_ok s'.
Proof.
  intros Hev Hc Hfs Hg. assert (Hev' := Hev). destruct Hev' as [Hf _].
  unfold caller_ok. rewrite Hc.
  destruct (rs_caller s) as [pending last|w v todo done|todo done err|w v done|[|last]].
  - intros (Hcov & Hlt & Hcan). split; [|split; [done|]].
    + intros j Hj. destruct (Hcov j Hj) as [?|[e He]]; [by left|]. right. exists e. by apply Hf.
    + intros j. rewrite Hfs. by intros [[_ [? _]]|[_ ?%Hcan]]%list_lookup_insert_Some.
  - intros (? & ? & ?). split; [by eapply winner_ok_evolves|]. split; [done|].
    by eapply outcomes_ok_evolves.
  - intros (? & ? & ? & ?). do 3 (split; [done|]). by eapply outcomes_ok_evolves.
  - intros (? & ? & ?). split; [by eapply winner_ok_evolves|]. split; [done|].
    by eapply outcomes_ok_evolves.
  - done.
  - intros H j Hj. destruct (H j Hj) as [e He]. exists e. by apply Hf.
Qed.

Lemma worker_starts_inv s i :
  rs_futures s !! i = Some Pending → race_inv s →
  race_inv {| rs_futures := <[i := Running]> (rs_futures s); rs_calls := i :: rs_calls s;
              rs_cancels := rs_cancels s; rs_caller := rs_caller s |}.
Proof.
  intros Hi (Hlen & [Hnd Hcall] & Hok & Hval). unfold race_inv; cbn.
  split; [by rewrite length_insert|]. split; [|split].
  - assert (i ∉ rs_calls s) by (intros Hin; by apply (Hcall _ _ Hi)).
    split; cbn; [by constructor|]. intros j f.
    destruct (decide (j = i)) as [->|Hne].
    + rewrite list_lookup_insert_eq by (by eapply lookup_lt_Some).
      intros [= <-]. split; [done|]. intros _. by left.
    + rewrite list_lookup_insert_ne by done. intros Hj%Hcall.
      rewrite elem_of_cons. naive_solver.
  - eapply (caller_ok_worker s); [| |reflexivity| |]; [|done..].
    by apply step_evolves, worker_starts.
  - intros j v [[_ [? _]]|[_ ?%Hval]]%list_lookup_insert_Some; done.
Qed.

Lemma worker_finishes_inv s i a called :
  rs_futures s !! i = Some Running → attempts !! i = Some a → race_inv s →
  race_inv (set_future i (Finished (settle (endpoint_id a) called)) s).
Proof.
  intros Hi Ha (Hlen & [Hnd Hcall] & Hok & Hval). unfold race_inv; cbn.
  split; [by rewrite length_insert|]. split; [|split].
  - split; [done|]. intros j f. cbn.
    destruct (decide (j = i)) as [->|Hne].
    + rewrite list_lookup_insert_eq by (by eapply lookup_lt_Some).
      intros [= <-]. apply (Hcall _ _ Hi).
    + rewrite list_lookup_insert_ne by done. apply Hcall.
  - eapply (caller_ok_worker s); [| |reflexivity| |]; [|done..].
    by apply step_evolves, worker_finishes.
  - intros j v [[_ [Hs _]]|[_ ?%Hval]]%list_lookup_insert_Some; [|done].
    injection Hs as Hs. by apply settle_valid in Hs.
Qed.

(** Cancelling one loser keeps everything but the caller's own record. *)
Lemma cancel_inv s j b c :
  race_inv s → caller_ok (set_caller c (cancel_loser j b s).1) →
  race_inv (set_caller c (cancel_loser j b s).1).
Proof.
  intros (Hlen & Hcalled & _ & Hval) Hok. split; [by cbn; rewrite cancel_loser_length|].
  split; [by apply (cancel_loser_called_ok j b)|]. split; [done|].
  cbn. intros i v Hi%cancel_loser_valid. by eapply Hval.
Qed.

Lemma publish_cancel_inv s i v j todo done b :
  rs_caller s = Publishing i v (j :: todo) done → race_inv s →
  race_inv (set_caller (Publishing i v todo (done ++ [(j, (cancel_loser j b s).2)]))
                       (cancel_loser j b s).1).
Proof.
  intros Hc Hinv. apply cancel_inv; [done|]. destruct Hinv as (Hlen & Hcalled & Hok & _).
  unfold caller_ok in *. rewrite Hc in Hok. cbn. destruct Hok as (Hw & Hl & Ho).
  pose proof (cancel_loser_evolves j b s) as Hev.
  split; [by eapply winner_ok_evolves|]. split; [by rewrite fmap_app, <-app_assoc|].
  apply Forall_app; split; [by eapply outcomes_ok_evolves|].
  constructor; [|constructor]. apply (cancel_loser_outcome j b); [done|].
  rewrite Hlen. assert (j ∈ losers i) as [? _]%elem_of_losers; [|done].
  rewrite <-Hl, elem_of_app. right. by left.
Qed.

Lemma drain_cancel_inv s j todo done err b :
  rs_caller s = Draining (j :: todo) done err → race_inv s →
  race_inv (set_caller (Draining todo (done ++ [(j, (cancel_loser j b s).2)]) err)
                       (cancel_loser j b s).1).
Proof.
  intros Hc Hinv. apply cancel_inv; [done|]. destruct Hinv as (Hlen & Hcalled & Hok & _).
  unfold caller_ok in *. rewrite Hc in Hok. cbn. destruct Hok as (He & Hd & Hl & Ho).
  split; [done|]. split; [done|]. split; [intros k Hk; apply Hl; by right|].
  apply Forall_app; split.
  - eapply outcomes_ok_evolves; [|done]. apply cancel_loser_evolves.
  - constructor; [|constructor]. apply (cancel_loser_outcome j b); [done|].
    rewrite Hlen. apply Hl. by left.
Qed.

Lemma caller_inv s c : race_inv s → caller_ok (set_caller c s) → race_inv (set_caller c s).
Proof. by intros (? & ? & _ & ?) Hok. Qed.

Lemma step_inv s s' : step s s' → race_inv s → race_inv s'.
Proof.
  destruct 1 as [s i Hi|s i a called Hi Ha|s pending last Hc Hd|s last Hc|s pending last Hc Hd Hne
                |s i v j todo done b Hc|s i v done Hc|s j todo done err b Hc|s done err Hc];
    intros Hinv; assert (Hinv' := Hinv); destruct Hinv' as (Hlen & _ & Hok & _).
  - by apply worker_starts_inv.
  - by apply worker_finishes_inv.
  - apply caller_inv; [done|]. by apply after_wait_ok.
  - apply caller_inv; [done|]. unfold caller_ok in *. rewrite Hc in Hok.
    destruct Hok as (Hcov & _). cbn. intros i Hi. by destruct (Hcov i Hi) as [?%elem_of_nil|?].
  - apply caller_inv; [done|]. unfold caller_ok in *. rewrite Hc in Hok.
    destruct Hok as (_ & Hlt & _). cbn. repeat split; [done|done|]. constructor.
  - pose proof (publish_cancel_inv _ _ _ _ _ _ b Hc Hinv) as H'. by destruct (cancel_loser j b s).
  - apply caller_inv; [done|]. unfold caller_ok in *. rewrite Hc in Hok. cbn.
    rewrite app_nil_r in Hok. done.
  - pose proof (drain_cancel_inv _ _ _ _ _ b Hc Hinv) as H'. by destruct (cancel_loser j b s).
  - apply caller_inv; [done|]. unfold caller_ok in *. rewrite Hc in Hok. cbn.
    destruct Hok as (-> & ? & _). done.
Qed.

Lemma reachable_inv s : reachable s → race_inv s.
Proof. induction 1; [apply start_inv | by eapply step_inv]. Qed.

(** ** Termination

    Every step uses up a worker transition or a round of the caller's loops. *)
Definition future_weight (f : fstate) : nat :=
  match f with Pending => 2 | Running => 1 | _ => 0 end.

Definition caller_weight (c : caller) : nat :=
  match c with
  | Waiting pending _ => length pending + length attempts + 3
  | Publishing _ _ todo _ | Draining todo _ _ => length todo + 1
  | Returned _ _ _ | Failed _ => 0
  end.

Definition race_measure (s : race_state) : nat :=
  sum_list_with future_weight (rs_futures s) + caller_weight (rs_caller s).

Lemma sum_insert (fs : list fstate) i f g :
  fs !! i = Some f →
  (sum_list_with future_weight (<[i := g]> fs) + future_weight f =
   sum_list_with future_weight fs + future_weight g)%nat.
Proof.
  revert i. induction fs as [|h fs IH]; intros [|i] Hi; [done|done| |].
  - injection Hi as ->. cbn. lia.
  - specialize (IH i Hi).
    change (<[S i := g]> (h :: fs)) with (h :: <[i := g]> fs). cbn [sum_list_with] in *. lia.
Qed.

Lemma filter_length_lt {A} (p : A → bool) l x :
  In x l → p x = false → (length (List.filter p l) < length l)%nat.
Proof.
  induction l as [|y l IH]; cbn; [done|].
  intros [->|Hin] Hp.
  - rewrite Hp. pose proof (filter_length_le p l). lia.
  - destruct (p y); cbn; specialize (IH Hin Hp); lia.
Qed.

Lemma losers_length i : (length (losers i) ≤ length attempts)%nat.
Proof. unfold losers. etrans; [apply filter_length_le|]. by rewrite length_seq. Qed.

Lemma cancel_loser_weight j b s :
  (sum_list_with future_weight (rs_futures (cancel_loser j b s).1)
     ≤ sum_list_with future_weight (rs_futures s))%nat.
Proof.
  unfold cancel_loser. repeat case_match; cbn; try lia.
  match goal with H : rs_futures s !! j = Some Pending |- _ =>
    pose proof (sum_insert _ _ _ Cancelled H) as Hs end. cbn in Hs. lia.
Qed.

Lemma after_wait_weight s pending last :
  done_of (rs_futures s) pending ≠ [] →
  (caller_weight (after_wait s pending last) < caller_weight (Waiting pending last))%nat.
Proof.
  intros Hd. unfold after_wait. destruct (first_valid _ _ _) as [[i v]|last']; cbn.
  - pose proof (losers_length i) as H. unfold losers in H. lia.
  - destruct (done_of (rs_futures s) pending) as [|i l] eqn:Hl; [done|].
    assert (i ∈ done_of (rs_futures s) pending) as Hi by (rewrite Hl; by left).
    apply elem_of_done_of in Hi as [Hin (f & Hf & Hfd)].
    apply list_elem_of_In in Hin.
    assert (length (not_done_of (rs_futures s) pending) < length pending)%nat; [|lia].
    eapply filter_length_lt; [exact Hin|]. cbn. by rewrite Hf, Hfd.
Qed.

Lemma step_measure s s' : step s s' → (race_measure s' < race_measure s)%nat.
Proof.
  unfold race_measure.
  destruct 1 as [s i Hi|s i a called Hi Ha|s pending last Hc Hd|s last Hc|s pending last Hc Hd Hne
                |s i v j todo done b Hc|s i v done Hc|s j todo done err b Hc|s done err Hc]; cbn.
  - pose proof (sum_insert _ _ _ Running Hi) as Hs. cbn in Hs. lia.
  - pose proof (sum_insert _ _ _ (Finished (settle (endpoint_id a) called)) Hi) as Hs.
    cbn in Hs. lia.
  - rewrite Hc. pose proof (after_wait_weight _ _ last Hd). lia.
  - rewrite Hc. cbn. lia.
  - rewrite Hc. cbn. lia.
  - pose proof (cancel_loser_weight j b s) as H. destruct (cancel_loser j b s); cbn in *.
    rewrite Hc. cbn. lia.
  - rewrite Hc. cbn. lia.
  - pose proof (cancel_loser_weight j b s) as H. destruct (cancel_loser j b s); cbn in *.
    rewrite Hc. cbn. lia.
  - rewrite Hc. cbn. lia.
Qed.

(** Steps after [s]. *)
Inductive steps : race_state → race_state → Prop :=
| steps_refl s : steps s s
| steps_step s s' s'' : step s s' → steps s' s'' → steps s s''.

Definition caller_done (c : caller) : Prop :=
  match c with Returned _ _ _ | Failed _ => True | _ => False end.

Definition all_settled (s : race_state) : Prop :=
  ∀ i f, rs_futures s !! i = Some f → is_done f = true.

(** The caller is never stuck on settled futures. *)
Lemma caller_progress s :
  race_inv s → all_settled s → ¬ caller_done (rs_caller s) →
  ∃ s', step s s' ∧ all_settled s'.
Proof.
  intros (Hlen & _ & Hok & _) Hall Hnd. unfold caller_ok in Hok.
  assert (Hkeep : ∀ s', step s s' → length (rs_futures s') = length (rs_futures s) → all_settled s').
  { intros s' (Hev & _)%step_evolves Hl i f Hf.
    assert (i < length (rs_futures s))%nat as [g Hg]%lookup_lt_is_Some
      by (rewrite <-Hl; by eapply lookup_lt_Some).
    specialize (Hev _ _ Hg (Hall _ _ Hg)). rewrite Hf in Hev. injection Hev as ->.
    by eapply Hall. }
  destruct (rs_caller s) as [pending last|w v todo done|todo done err|w v done|err] eqn:Hc; cbn in *;
    try tauto.
  - destruct pending as [|i pending].
    { eexists; split; [by eapply caller_exhausted|]. by apply Hkeep; [eapply caller_exhausted|]. }
    destruct Hok as (_ & Hlt & _).
    assert (Hd : done_of (rs_futures s) (i :: pending) ≠ []).
    { assert (i ∈ done_of (rs_futures s) (i :: pending)) as Hi; [|by intros H; rewrite H in Hi; apply elem_of_nil in Hi].
      apply elem_of_done_of. split; [by left|].
      assert (i < length (rs_futures s))%nat as [f Hf]%lookup_lt_is_Some
        by (rewrite Hlen; apply Hlt; by left). eauto. }
    eexists; split; [by eapply caller_wakes|]. by apply Hkeep; [eapply caller_wakes|].
  - destruct todo as [|j todo].
    { eexists; split; [by eapply caller_returns|]. by apply Hkeep; [eapply caller_returns|]. }
    pose proof (caller_cancels s w v j todo done false Hc) as Hst.
    eexists; split; [exact Hst|]. apply Hkeep; [exact Hst|].
    pose proof (cancel_loser_length j false s). by destruct (cancel_loser j false s).
  - destruct todo as [|j todo].
    { eexists; split; [by eapply caller_raises|]. by apply Hkeep; [eapply caller_raises|]. }
    pose proof (caller_drains s j todo done err false Hc) as Hst.
    eexists; split; [exact Hst|]. apply Hkeep; [exact Hst|].
    pose proof (cancel_loser_length j false s). by destruct (cancel_loser j false s).
Qed.

Lemma caller_done_dec c : {caller_done c} + {¬ caller_done c}.
Proof. destruct c; cbn; tauto. Qed.

Lemma settled_race_ends n s :
  (race_measure s ≤ n)%nat → race_inv s → all_settled s →
  ∃ s', steps s s' ∧ caller_done (rs_caller s').
Proof.
  revert s. induction n as [|n IH]; intros s Hn Hinv Hall;
    (destruct (caller_done_dec (rs_caller s)) as [Hd|Hd];
      [exists s; split; [constructor|done]|]);
    destruct (caller_progress s Hinv Hall Hd) as (s' & Hst & Hall');
    assert (Hm := step_measure _ _ Hst); [lia|].
  destruct (IH s') as (s2 & Hss & Hd2); [lia|by eapply step_inv|done|].
  exists s2. split; [by econstructor|done].
Qed.

Lemma steps_evolves s s' : steps s s' → evolves s s'.
Proof. induction 1; [apply evolves_refl|]. eapply evolves_trans; [by apply step_evolves|done]. Qed.

Lemma steps_inv s s' : steps s s' → race_inv s → race_inv s'.
Proof. induction 1; [done|]. intros Hi. apply IHsteps. by eapply step_inv. Qed.

(** ** The pending futures stay in declaration order *)

Definition pending_sorted (c : caller) : Prop :=
  match c with Waiting pending _ => StronglySorted lt pending | _ => True end.

Lemma seq_sorted a n : StronglySorted lt (seq a n).
Proof.
  revert a. induction n as [|n IH]; intros a; cbn; constructor; [done|].
  apply Forall_forall. intros x Hx%elem_of_seq. lia.
Qed.

Lemma cancel_loser_caller j b s : rs_caller (cancel_loser j b s).1 = rs_caller s.
Proof. unfold cancel_loser. by repeat case_match. Qed.

Lemma reachable_sorted s : reachable s → pending_sorted (rs_caller s).
Proof.
  induction 1 as [|s s' _ IH Hst]; [apply seq_sorted|].
  destruct Hst as [s i Hi|s i a called Hi Ha|s pending last Hc Hd|s last Hc|s pending last Hc Hd Hne
                |s i v j todo done b Hc|s i v done Hc|s j todo done err b Hc|s done err Hc];
    cbn [set_caller set_future rs_caller]; try exact IH; try exact I.
  - rewrite Hc in IH. cbn in IH |- *. unfold after_wait. destruct (first_valid _ _ _) as [[i v]|last']; [done|].
    by apply StronglySorted_filter.
  - by destruct (cancel_loser j b s).
  - by destruct (cancel_loser j b s).
Qed.

(** ** Theorems *)

Lemma id_at_losers_notin i :
  NoDup (map endpoint_id attempts) → (i < length attempts)%nat →
  id_at i ∉ map id_at (losers i).
Proof.
  intros Hnd Hi Hin. apply list_elem_of_fmap in Hin as (j & He & [Hj Hne]%elem_of_losers).
  apply lookup_lt_is_Some in Hi as [a Ha], Hj as [b Hb].
  unfold id_at in He. rewrite Ha, Hb in He. cbn in He.
  apply Hne. symmetry. eapply NoDup_lookup; [exact Hnd| |].
  - change (map endpoint_id attempts) with (endpoint_id <$> attempts).
    by rewrite list_lookup_fmap, Ha.
  - change (map endpoint_id attempts) with (endpoint_id <$> attempts).
    by rewrite list_lookup_fmap, Hb, He.
Qed.

Lemma cancellations_labelled s done id o :
  called_ok s → outcomes_ok s done → (id, o) ∈ map (λ jo, (id_at jo.1, jo.2)) done →
  ∃ j, id = id_at j ∧ outcome_ok s j o ∧ (o = "queued_cancelled" → j ∉ rs_calls s).
Proof.
  intros [_ Hcall] Ho Hin. apply list_elem_of_fmap in Hin as ([j o'] & [= -> ->] & Hin).
  exists j. split; [done|]. unfold outcomes_ok in Ho. rewrite Forall_forall in Ho.
  specialize (Ho _ Hin). cbn in Ho. split; [done|].
  intros ->. cbn in Ho. intros Hj. by apply (Hcall _ _ Ho).
Qed.

(** C37. An admitted race that returns publishes a result the validator accepted,
    from an attempt whose provider was called, under the contract of every
    other attempt; its cancellation report names every other endpoint exactly
    once, in declaration order and never the winner, and a loser reported
    [queued_cancelled] had no provider call. *)
Theorem race_winner_sound deadline capacity s i v cancellations :
  race_admission attempts deadline capacity = Ok tt →
  reachable s → rs_caller s = Returned i v cancellations →
  let out := race_outcome i v cancellations in
  validate (ro_value out) = Ok true ∧ i ∈ rs_calls s ∧
  winner_endpoint_id out ∈ attempted_endpoint_ids out ∧
  map fst (cancellation_outcomes out) = map id_at (losers i) ∧
  (winner_endpoint_id out ∉ map fst (cancellation_outcomes out)) ∧
  (∀ a b, a ∈ attempts → b ∈ attempts → contract a = contract b) ∧
  (∀ id o, (id, o) ∈ cancellation_outcomes out →
    ∃ j, id = id_at j ∧ outcome_ok s j o ∧ (o = "queued_cancelled" → j ∉ rs_calls s)).
Proof.
  intros (_ & Hnd & Heq)%admission_ok (Hlen & Hcalled & Hok & Hval)%reachable_inv Hc.
  unfold caller_ok in Hok. rewrite Hc in Hok. destruct Hok as (Hw & Hl & Ho).
  assert (Hi : (i < length attempts)%nat) by (rewrite <-Hlen; by eapply lookup_lt_Some).
  assert (Hfst : map fst (cancellation_outcomes (race_outcome i v cancellations)) = map id_at (losers i)).
  { cbn. rewrite <-Hl, !map_map. done. }
  cbn [ro_value winner_endpoint_id attempted_endpoint_ids race_outcome].
  split; [by eapply Hval|]. split; [by apply (proj2 Hcalled _ _ Hw)|].
  split; [|split; [exact Hfst|split; [|split; [exact Heq|]]]].
  - apply lookup_lt_is_Some in Hi as [a Ha]. unfold id_at. rewrite Ha. cbn.
    apply (list_elem_of_fmap_2 endpoint_id). by eapply list_elem_of_lookup_2.
  - rewrite Hfst. by apply id_at_losers_notin.
  - intros id o. by apply cancellations_labelled.
Qed.

(** Simultaneous valid completions are decided by declaration order: the
    attempt the caller publishes after a [wait] is the first one declared among
    all that hold a valid result. *)
Theorem race_tie_break s pending last_error i v todo done :
  reachable s → rs_caller s = Waiting pending last_error →
  after_wait s pending last_error = Publishing i v todo done →
  ∀ j w, rs_futures s !! j = Some (Finished (Ok w)) → (i ≤ j)%nat.
Proof.
  intros Hr Hc Ha j w Hj. pose proof (reachable_sorted _ Hr) as Hs.
  apply reachable_inv in Hr as (Hlen & _ & Hok & _). unfold caller_ok in Hok.
  rewrite Hc in Hok, Hs. destruct Hok as (Hcov & _ & _). unfold after_wait in Ha.
  destruct (first_valid _ _ _) as [[i' v']|] eqn:Hf; [|done]. injection Ha as -> -> _ _.
  eapply first_valid_least; [exact Hf|by apply StronglySorted_filter| |exact Hj].
  apply elem_of_done_of. split; [|by eauto].
  destruct (Hcov j) as [?|[e He]]; [rewrite <-Hlen; by eapply lookup_lt_Some|done|congruence].
Qed.

(** Duplicate-cost honesty: no provider is ever called twice, and an attempt
    cancelled before its worker started is not called then nor in any later
    step of the race. *)
Theorem race_calls_honest s s' i :
  reachable s → steps s s' →
  NoDup (rs_calls s') ∧ (rs_futures s !! i = Some Cancelled → i ∉ rs_calls s').
Proof.
  intros Hr%reachable_inv Hs. destruct (steps_inv _ _ Hs Hr) as (_ & [Hnd Hcall] & _).
  split; [done|]. intros Hi Hin. destruct (steps_evolves _ _ Hs) as [Hev _].
  by apply (Hcall _ _ (Hev _ _ Hi eq_refl)).
Qed.

(** The race raises for the reason it names: a [TimeoutError] only under a
    deadline, and "all endpoints failed" only when every attempt was called and
    ended in an error. *)
Theorem race_failure_honest s err :
  reachable s → rs_caller s = Failed err →
  match err with
  | TimedOut => has_deadline = true
  | AllFailed _ => ∀ i, (i < length attempts)%nat →
      i ∈ rs_calls s ∧ ∃ e, rs_futures s !! i = Some (Finished (Raise e))
  end.
Proof.
  intros (_ & [_ Hcall] & Hok & _)%reachable_inv Hc. unfold caller_ok in Hok.
  rewrite Hc in Hok. destruct err as [|last]; [done|].
  intros i Hi. destruct (Hok i Hi) as [e He]. split; [|by eauto]. by apply (Hcall _ _ He).
Qed.

(** The race terminates: no step sequence is infinite (each one lowers a
    natural measure), and once every provider call has ended the caller can
    finish from any reachable state. *)
Theorem race_terminates s :
  reachable s →
  (∀ s', step s s' → (race_measure s' < race_measure s)%nat) ∧
  (all_settled s → ∃ s', steps s s' ∧ caller_done (rs_caller s')).
Proof.
  intros Hr%reachable_inv. split; [intros s'; apply step_measure|].
  by apply (settled_race_ends (race_measure s)).
Qed.

End race.

Arguments Pending {T E}.
Arguments Running {T E}.
Arguments Cancelled {T E}.
Arguments Finished {T E} r.
Arguments Waiting {T E} pending last_error.
Arguments Publishing {T E} winner value todo done.
Arguments Draining {T E} todo done error.
Arguments Returned {T E} winner value cancellations.
Arguments Failed {T E} error.

(** ** A concrete race *)

Definition demo_contract : EndpointEquivalenceContract :=
  {| contract_id := "c"; model_revision := "r"; reasoning_effort_profile := "medium";
     capability_set := ["tools"]; structured_output_contract := "json";
     accuracy_class := "a"; data_residency_policy := "eu"; retention_policy := "zdr";
     context_limit := 8192; pricing_evidence_id := "p"; hedge_eligible := true;
     cancellation_supported := false; execution_policy := "immediate_race" |}.

Definition demo_attempts : list EndpointAttempt :=
  [ {| endpoint_id := "one"; contract := demo_contract;
       attempt_cancellation_supported := false; has_cancel := false |};
    {| endpoint_id := "two"; contract := demo_contract;
       attempt_cancellation_supported := false; has_cancel := false |} ].

Definition demo_validate (n : nat) : res string bool := Ok (0 <? n)%nat.

Abbreviation demo_state := (@race_state nat string).
Abbreviation demo_reachable :=
  (reachable demo_attempts false demo_validate "invalid" (λ _ _ _, None)).

(** Both workers finished, the first with an invalid response. *)
Definition demo_settled : demo_state :=
  {| rs_futures := [Finished (Raise "invalid"); Finished (Ok 7%nat)];
     rs_calls := [1%nat; 0%nat]; rs_cancels := [];
     rs_caller := Waiting [0%nat; 1%nat] None |}.

(** The first worker answered while the second never started. *)
Definition demo_returned : demo_state :=
  {| rs_futures := [Finished (Ok 7%nat); Cancelled]; rs_calls := [0%nat]; rs_cancels := [];
     rs_caller := Returned 0%nat 7%nat [(1%nat, "queued_cancelled")] |}.

(** Both failed. *)
Definition demo_failed : demo_state :=
  {| rs_futures := [Finished (Raise "boom"); Finished (Raise "invalid")];
     rs_calls := [1%nat; 0%nat]; rs_cancels := [];
     rs_caller := Failed (AllFailed (Some "invalid")) |}.

Lemma reach_to s s1 s2 :
  demo_reachable s → step demo_attempts false demo_validate "invalid" (λ _ _ _, None) s s1 →
  s1 = s2 → demo_reachable s2.
Proof. intros Hr Hs <-. by eapply reach_step. Qed.

Lemma demo_one_called :
  demo_reachable {| rs_futures := [Running; Pending]; rs_calls := [0%nat]; rs_cancels := [];
                    rs_caller := Waiting [0%nat; 1%nat] None |}.
Proof. by eapply reach_to; [apply reach_start|by apply worker_starts with (i := 0%nat)|]. Qed.

Lemma demo_both_called :
  demo_reachable {| rs_futures := [Running; Running]; rs_calls := [1%nat; 0%nat]; rs_cancels := [];
                    rs_caller := Waiting [0%nat; 1%nat] None |}.
Proof. by eapply reach_to; [exact demo_one_called|by apply worker_starts with (i := 1%nat)|]. Qed.

Lemma demo_settled_reachable : demo_reachable demo_settled.
Proof.
  eapply reach_to; [eapply reach_to; [exact demo_both_called| |reflexivity]| |].
  - by eapply worker_finishes with (i := 0%nat) (called := Ok 0%nat).
  - by eapply worker_finishes with (i := 1%nat) (called := Ok 7%nat).
  - reflexivity.
Qed.

Lemma demo_returned_reachable : demo_reachable demo_returned.
Proof.
  eapply reach_to; [eapply reach_to; [eapply reach_to; [eapply reach_to;
    [exact demo_one_called| |reflexivity]| |reflexivity]| |reflexivity]| |].
  - by eapply worker_finishes with (i := 0%nat) (called := Ok 7%nat).
  - by eapply caller_wakes.
  - by eapply caller_cancels with (cancel_fails := false).
  - by eapply caller_returns.
  - reflexivity.
Qed.

Lemma demo_failed_reachable : demo_reachable demo_failed.
Proof.
  eapply reach_to; [eapply reach_to; [eapply reach_to; [eapply reach_to;
    [exact demo_both_called| |reflexivity]| |reflexivity]| |reflexivity]| |].
  - by eapply worker_finishes with (i := 0%nat) (called := Raise "boom").
  - by eapply worker_finishes with (i := 1%nat) (called := Ok 0%nat).
  - by eapply caller_wakes.
  - by eapply caller_exhausted.
  - reflexivity.
Qed.

Lemma race_winner_sound_witness :
  race_admission demo_attempts None 2 = Ok tt ∧
  winner_endpoint_id (race_outcome demo_attempts 0%nat 7%nat [(1%nat, "queued_cancelled")])
    ∉ ["two"].
Proof.
  split; [reflexivity|].
  apply (race_winner_sound demo_attempts false demo_validate "invalid" (λ _ _ _, None)
           None 2 demo_returned 0%nat 7%nat [(1%nat, "queued_cancelled")]);
    [reflexivity|exact demo_returned_reachable|reflexivity].
Defined.

Lemma race_tie_break_witness : (1 ≤ 1)%nat.
Proof.
  eapply (race_tie_break demo_attempts false demo_validate "invalid" (λ _ _ _, None)
            demo_settled [0%nat; 1%nat] None 1%nat 7%nat _ _ demo_settled_reachable);
    reflexivity.
Defined.

Lemma race_calls_honest_witness : 1%nat ∉ [0%nat].
Proof.
  eapply (race_calls_honest demo_attempts false demo_validate "invalid" (λ _ _ _, None)
            demo_returned demo_returned 1%nat demo_returned_reachable);
    [constructor|reflexivity].
Defined.

Lemma race_failure_honest_witness : 1%nat ∈ [1%nat; 0%nat].
Proof.
  eapply (race_failure_honest demo_attempts false demo_validate "invalid" (λ _ _ _, None)
            demo_failed _ demo_failed_reachable eq_refl 1%nat).
  vm_compute. lia.
Defined.

Lemma race_terminates_witness :
  ∃ s', steps demo_attempts false demo_validate "invalid" (λ _ _ _, None) demo_settled s' ∧
        caller_done (rs_caller s').
Proof.
  apply (race_terminates demo_attempts false demo_validate "invalid" (λ _ _ _, None)
           demo_settled demo_settled_reachable).
  intros [|[|i]] f; cbn; [by intros [= <-]|by intros [= <-]|done].
Defined.
