(* ===== verification/Agents.v ===== *)
(** The agent pool's data: [ModelAgent] (orchestrator.py) with its construction,
    configuration round trip and effort evidence; chat_capability.py; and the
    eligibility predicates of one agent under the active request. *)

From Stdlib Require Import Ascii.
From S2P Require Import Prelude PyString PyCollections PyFloat PyValue Regex ModelGroup EndpointRace.

(** Exceptions of this component. [Unmodelled f] is no exception of the code: the
    field [f] holds a value outside its declared type that the code would store
    unchecked. *)
Inductive config_error :=
| ValueErr (message : string)
| TypeErr (message : string)
| KeyErr (key : string)
| Unmodelled (field : string).

(** ** Strings *)

Definition str_drop (n : Z) (s : string) : string := list_str (skipn (Z.to_nat n) (str_list s)).

(** [str.casefold] on Latin-1: sharp s becomes "ss" (the micro sign folds to a
    letter outside Latin-1 and stays; no test of the code can tell). *)
Definition fold_char (c : ascii) : list ascii :=
  if ord c =? 223 then [chr 115; chr 115] else [lower_char c].
Definition str_casefold (s : string) : string := list_str (flat_map fold_char (str_list s)).

(** [tag.split(":", 1)[1]] for a tag that starts with [prefix ++ ":"]. *)
Definition tag_value (prefix tag : string) : option string :=
  if str_startswith prefix tag then Some (str_drop (str_len prefix) tag) else None.

Definition tag_values (prefix : string) (tags : list string) : list string :=
  omap (tag_value prefix) tags.

Definition in_strs (s : string) (l : list string) : bool := existsb (String.eqb s) l.

Lemma in_strs_spec s l : in_strs s l = true ↔ s ∈ l.
Proof.
  unfold in_strs. rewrite existsb_exists, list_elem_of_In. split.
  - intros (x & Hx & He%String.eqb_eq). by subst.
  - intros Hs. exists s. by rewrite String.eqb_refl.
Qed.

(** ** chat_capability.py *)

(** [_MODEL_TOKEN_RE.findall(s)]: the maximal runs of [[a-z0-9]]. *)
Fixpoint token_runs (current : list ascii) (l : list ascii) : list string :=
  match l with
  | [] => if current is [] then [] else [list_str (rev current)]
  | c :: l' =>
      if is_slug_char c then token_runs (c :: current) l'
      else (if current is [] then [] else [list_str (rev current)]) ++ token_runs [] l'
  end.

Definition _model_tokens (model_id : string) : list string :=
  token_runs [] (str_list (str_casefold model_id)).

Definition _TRANSPORT_INCOMPATIBLE_EXACT_TOKENS : list string :=
  ["bge"; "clip"; "dall"; "e5"; "embed"; "embedding"; "embeddings"; "gte"; "image"; "images";
   "moderation"; "realtime"; "rerank"; "reranker"; "siglip"; "sora"; "speech"; "transcribe";
   "transcription"; "tts"; "whisper"].

Definition _TRANSPORT_INCOMPATIBLE_PREFIXES : list string :=
  ["embed"; "moderat"; "rerank"; "transcrib"].

Definition transport_incompatible (token : string) : bool :=
  in_strs token _TRANSPORT_INCOMPATIBLE_EXACT_TOKENS ||
  existsb (λ p, str_startswith p token) _TRANSPORT_INCOMPATIBLE_PREFIXES.

Definition _is_transport_compatible_tokens (tokens : list string) : bool :=
  match tokens with
  | [] => false
  | _ => forallb (λ t, negb (transport_incompatible t)) tokens
  end.

Definition is_chat_compatible_model_id (model_id : string) : bool :=
  _is_transport_compatible_tokens (_model_tokens model_id).

Definition policy_classifier (token : string) : bool :=
  String.eqb token "safety" || String.eqb token "guard" || String.eqb token "shieldgemma" ||
  str_startswith "nemoguard" token.

Definition is_general_chat_agent_model_id (model_id : string) : bool :=
  let tokens := _model_tokens model_id in
  _is_transport_compatible_tokens tokens && negb (existsb policy_classifier tokens).

(** The non-blank values, stripped and folded. *)
Definition normalized (values : list string) : list string :=
  map (λ v, str_casefold (str_strip v)) (List.filter (λ v, negb (str_blank v)) values).

Definition requires_non_text_input (input_modalities : list string) : bool :=
  existsb (λ m, negb (String.eqb m "text")) (normalized input_modalities).

Definition is_general_chat_candidate (model_id : string) (capabilities output_modalities : list string)
    : bool :=
  match normalized output_modalities with
  | [] =>
      match normalized capabilities with
      | [] => is_general_chat_agent_model_id model_id
      | declared => in_strs "chat" declared && is_general_chat_agent_model_id model_id
      end
  | outputs => in_strs "text" outputs && is_general_chat_agent_model_id model_id
  end.

(** ** ModelAgent *)

Record ModelAgent := {
  id : string;
  model : string;
  base_url : string;
  api_key_env : string;
  credential_key : string;
  tags : list string;
  priority : Z;
  disabled : bool;
  provider_name : string;
  provider_exclusions : list string;
  local_credential_key : string;
  auth_scheme : string;
  max_output_tokens : option Z;
  context_window : option Z;
  group_name : string;
  reasoning_effort_supported : option bool;
  endpoint_equivalence : option EndpointEquivalenceContract;
  stream_usage_supported : bool;
  model_timeout_seconds : option float;
  model_timeout_revision : Z;
}.

Definition _AGENT_POOL_INTEGER_MAX : Z := 9223372036854775807.
Definition MAX_MODEL_TIMEOUT_SECONDS : float := float_of_Z 2147483647.
Definition AUTH_SCHEME_RAW_TOKEN : string := "raw-token".

Definition format_authorization_header (auth_scheme api_key : string) : string :=
  if String.eqb auth_scheme AUTH_SCHEME_RAW_TOKEN then api_key
  else String.append auth_scheme (String.append " " api_key).

(** A resolved credential's name: [api_key_env or credential_key]. *)
Definition credential_name (a : ModelAgent) : string :=
  if str_truthy (api_key_env a) then api_key_env a else credential_key a.

(** *** The equivalence contract of a configuration *)

(** [tuple(v)]. *)
Definition tuple_of (v : pyval) : res config_error (list pyval) :=
  match v with
  | VList l | VTuple l => Ok l
  | VStr s => Ok (map (λ c, VStr (list_str [c])) (str_list s))
  | VDict d => Ok (map fst d)
  | _ => Raise (TypeErr "object is not iterable")
  end.

Definition strings_of (field : string) (l : list pyval) : res config_error (list string) :=
  map_res (λ v, match v with VStr s => Ok s | _ => Raise (Unmodelled field) end) l.

Definition contract_fields : list string :=
  ["contract_id"; "model_revision"; "reasoning_effort_profile"; "capability_set";
   "structured_output_contract"; "accuracy_class"; "data_residency_policy"; "retention_policy";
   "context_limit"; "pricing_evidence_id"; "hedge_eligible"; "cancellation_supported";
   "execution_policy"].

(** The keyword call [EndpointEquivalenceContract( **d)]: exactly the declared
    fields. *)
Definition contract_arguments_ok (d : list (pyval * pyval)) : bool :=
  forallb (λ f, if dict_get f d is Some _ then true else false) contract_fields &&
  forallb (λ kv, match kv.1 with VStr k => in_strs k contract_fields | _ => false end) d.

Definition declared_str (v : pyval) : option string :=
  match v with VStr s => if str_blank s then None else Some s | _ => None end.

Definition undeclared : config_error :=
  ValueErr "every equivalence field must be explicitly declared".

(** [EndpointEquivalenceContract( **d)] with [__post_init__]'s checks in their
    order. *)
Definition contract_of_dict (d : list (pyval * pyval))
    : res config_error EndpointEquivalenceContract :=
  if negb (contract_arguments_ok d) then Raise (TypeErr "unexpected or missing argument") else
  match map_res (λ f, match declared_str (dget f d) with Some s => Ok s | None => Raise undeclared end)
          ["contract_id"; "model_revision"; "reasoning_effort_profile";
           "structured_output_contract"; "accuracy_class"; "data_residency_policy";
           "retention_policy"; "pricing_evidence_id"] with
  | Raise e => Raise e
  | Ok [cid; rev; eff; soc; acc; res_; ret; price] =>
      match dget "context_limit" d with
      | VInt limit =>
          if limit <=? 0 then Raise (ValueErr "context_limit must be a positive integer") else
          let caps := dget "capability_set" d in
          if negb (truthy caps) then Raise (ValueErr "capability_set must be explicitly declared") else
          match tuple_of caps with
          | Raise e => Raise e
          | Ok l =>
              if existsb (λ v, match v with VStr _ => false | _ => true end) l
              then Raise (ValueErr "capability_set must be explicitly declared")
              else
              match dget "hedge_eligible" d, dget "cancellation_supported" d with
              | VBool hedge, VBool cancel =>
                  match dget "execution_policy" d with
                  | VStr policy =>
                      if in_strs policy ["sequential_failover"; "immediate_race"]
                      then Ok {| contract_id := cid; model_revision := rev;
                                 reasoning_effort_profile := eff;
                                 capability_set := sorted_set (omap as_str l);
                                 structured_output_contract := soc; accuracy_class := acc;
                                 data_residency_policy := res_; retention_policy := ret;
                                 context_limit := limit; pricing_evidence_id := price;
                                 hedge_eligible := hedge; cancellation_supported := cancel;
                                 execution_policy := policy |}
                      else Raise (ValueErr "unsupported endpoint execution policy")
                  | VList _ | VDict _ => Raise (TypeErr "unhashable type")
                  | _ => Raise (ValueErr "unsupported endpoint execution policy")
                  end
              | _, _ => Raise (TypeErr "hedge and cancellation declarations must be boolean")
              end
          end
      | _ => Raise (ValueErr "context_limit must be a positive integer")
      end
  | Ok _ => Raise undeclared
  end.

(** [dict(contract.__dict__)]. *)
Definition contract_to_dict (c : EndpointEquivalenceContract) : list (pyval * pyval) :=
  [ (VStr "contract_id", VStr (contract_id c));
    (VStr "model_revision", VStr (model_revision c));
    (VStr "reasoning_effort_profile", VStr (reasoning_effort_profile c));
    (VStr "capability_set", VTuple (map VStr (capability_set c)));
    (VStr "structured_output_contract", VStr (structured_output_contract c));
    (VStr "accuracy_class", VStr (accuracy_class c));
    (VStr "data_residency_policy", VStr (data_residency_policy c));
    (VStr "retention_policy", VStr (retention_policy c));
    (VStr "context_limit", VInt (context_limit c));
    (VStr "pricing_evidence_id", VStr (pricing_evidence_id c));
    (VStr "hedge_eligible", VBool (hedge_eligible c));
    (VStr "cancellation_supported", VBool (cancellation_supported c));
    (VStr "execution_policy", VStr (execution_policy c)) ].

(** *** Construction *)

Section agent.
(** [urlparse(url).scheme]. *)
Context (url_scheme : string → string).

(** [__post_init__]'s check of one optional token limit. *)
Definition token_limit (field : string) (v : pyval) : res config_error (option Z) :=
  match v with
  | VNone => Ok None
  | VInt n =>
      if (n <=? 0) || (_AGENT_POOL_INTEGER_MAX <? n)
      then Raise (TypeErr (String.append field " must be a positive integer or null"))
      else Ok (Some n)
  | _ => Raise (TypeErr (String.append field " must be a positive integer or null"))
  end.

Definition timeout_error : config_error :=
  ValueErr "model_timeout_seconds must be finite positive seconds".

(** [0 < value <= MAX_MODEL_TIMEOUT_SECONDS] and [float(value)]; the integer
    comparison is exact. *)
Definition timeout_seconds (v : pyval) : res config_error (option float) :=
  match v with
  | VNone => Ok None
  | VInt n =>
      if (0 <? n) && (n <=? 2147483647) then Ok (Some (float_of_Z n)) else Raise timeout_error
  | VFloat x =>
      if fltb f0 x && fleb x MAX_MODEL_TIMEOUT_SECONDS then Ok (Some x) else Raise timeout_error
  | _ => Raise timeout_error
  end.

(** The construction of a [ModelAgent] with [__post_init__]; the arguments it
    checks dynamically are Python values, the others have their declared type. *)
Definition ModelAgent_init (id_ model_ base_url_ api_key_env_ credential_key_ : string)
    (tags_ : list string) (priority_ : Z) (disabled_ : bool) (provider_name_ : string)
    (provider_exclusions_ : list string) (local_credential_key_ auth_scheme_ max_output_tokens_
     context_window_ group_name_ reasoning_effort_supported_ endpoint_equivalence_
     stream_usage_supported_ model_timeout_seconds_ model_timeout_revision_ : pyval)
    : res config_error ModelAgent :=
  map_raise ValueErr (require_object_name id_ "agent.id") ≫= λ _ : unit,
  match group_name_ with
  | VStr g => if str_truthy g then map_raise ValueErr (canonical_group_name g) else Ok g
  | v => if truthy v then Raise (TypeErr "group name must be a string") else Raise (Unmodelled "group_name")
  end ≫= λ group,
  match local_credential_key_ with
  | VStr k =>
      if str_truthy k && negb (String.eqb (url_scheme base_url_) "local")
      then Raise (ValueErr "local_credential_key requires a local:// gateway URL") else Ok k
  | _ => Raise (TypeErr "local_credential_key must be a string")
  end ≫= λ local_key,
  match auth_scheme_ with
  | VStr s => if str_truthy s then Ok s else Raise (ValueErr "auth_scheme must be a non-empty string")
  | _ => Raise (ValueErr "auth_scheme must be a non-empty string")
  end ≫= λ scheme,
  token_limit "max_output_tokens" max_output_tokens_ ≫= λ max_out,
  token_limit "context_window" context_window_ ≫= λ window,
  match reasoning_effort_supported_ with
  | VNone => Ok None
  | VBool b => Ok (Some b)
  | _ => Raise (TypeErr "reasoning_effort_supported must be true, false, or null")
  end ≫= λ effort,
  match stream_usage_supported_ with
  | VBool b => Ok b
  | _ => Raise (TypeErr "stream_usage_supported must be a boolean")
  end ≫= λ stream_usage,
  timeout_seconds model_timeout_seconds_ ≫= λ timeout,
  match model_timeout_revision_ with
  | VInt n =>
      if n <? 0 then Raise (ValueErr "model_timeout_revision must be a non-negative integer") else Ok n
  | _ => Raise (ValueErr "model_timeout_revision must be a non-negative integer")
  end ≫= λ revision,
  match endpoint_equivalence_ with
  | VNone => Ok None
  | VDict d => Some <$> contract_of_dict d
  | _ => Raise (TypeErr "argument after ** must be a mapping")
  end ≫= λ equivalence,
  Ok {| id := id_; model := model_; base_url := base_url_; api_key_env := api_key_env_;
        credential_key := credential_key_; tags := tags_; priority := priority_;
        disabled := disabled_; provider_name := provider_name_;
        provider_exclusions := provider_exclusions_; local_credential_key := local_key;
        auth_scheme := scheme; max_output_tokens := max_out; context_window := window;
        group_name := group; reasoning_effort_supported := effort;
        endpoint_equivalence := equivalence; stream_usage_supported := stream_usage;
        model_timeout_seconds := timeout; model_timeout_revision := revision |}.

(** *** Configuration *)

Definition opt_val {A} (f : A → pyval) (o : option A) : pyval :=
  match o with Some x => f x | None => VNone end.

Definition to_config (a : ModelAgent) : list (pyval * pyval) :=
  [ (VStr "id", VStr (id a));
    (VStr "model", VStr (model a));
    (VStr "base_url", VStr (base_url a));
    (VStr "api_key_env", VStr (api_key_env a));
    (VStr "credential_key", VStr (credential_key a));
    (VStr "tags", VList (map VStr (tags a)));
    (VStr "priority", VInt (priority a));
    (VStr "disabled", VBool (disabled a));
    (VStr "provider_name", VStr (provider_name a));
    (VStr "provider_exclusions", VList (map VStr (provider_exclusions a)));
    (VStr "local_credential_key", VStr (local_credential_key a));
    (VStr "auth_scheme", VStr (auth_scheme a));
    (VStr "max_output_tokens", opt_val VInt (max_output_tokens a));
    (VStr "context_window", opt_val VInt (context_window a));
    (VStr "group_name", VStr (group_name a));
    (VStr "reasoning_effort_supported", opt_val VBool (reasoning_effort_supported a));
    (VStr "endpoint_equivalence", opt_val (λ c, VDict (contract_to_dict c)) (endpoint_equivalence a));
    (VStr "stream_usage_supported", VBool (stream_usage_supported a));
    (VStr "model_timeout_seconds", opt_val VFloat (model_timeout_seconds a));
    (VStr "model_timeout_revision", VInt (model_timeout_revision a)) ].

(** [value.get(k, default)]. *)
Definition get_or (k : string) (dflt : pyval) (d : list (pyval * pyval)) : pyval :=
  default dflt (dict_get k d).

Definition typed_str (field : string) (v : pyval) : res config_error string :=
  match v with VStr s => Ok s | _ => Raise (Unmodelled field) end.

Definition required_key (k : string) (d : list (pyval * pyval)) : res config_error pyval :=
  match dict_get k d with Some v => Ok v | None => Raise (KeyErr k) end.

(** [int(v)] for the numbers of a JSON document. *)
Definition int_of (v : pyval) : res config_error Z :=
  match v with
  | VInt n => Ok n
  | VBool b => Ok (if b then 1 else 0)
  | VFloat x =>
      match x with
      | S754_infinity _ | S754_nan => Raise (ValueErr "cannot convert float to integer")
      | _ => Ok (int_of_float x)
      end
  | VStr _ => Raise (Unmodelled "int(str)")
  | _ => Raise (TypeErr "int() argument must be a string or a number")
  end.

Definition from_dict (value : list (pyval * pyval)) : res config_error ModelAgent :=
  (required_key "id" value ≫= typed_str "id") ≫= λ id_,
  map_raise ValueErr (require_object_name id_ "agent.id") ≫= λ _ : unit,
  (required_key "model" value ≫= typed_str "model") ≫= λ model_,
  typed_str "base_url" (get_or "base_url" (VStr "mock://local") value) ≫= λ url,
  typed_str "api_key_env" (get_or "api_key_env" (VStr "") value) ≫= λ key_env,
  typed_str "credential_key" (get_or "credential_key" (VStr "OPENAI_API_KEY") value) ≫= λ key,
  (tuple_of (get_or "tags" (VTuple []) value) ≫= strings_of "tags") ≫= λ tags_,
  int_of (get_or "priority" (VInt 0) value) ≫= λ priority_,
  typed_str "provider_name" (get_or "provider_name" (VStr "") value) ≫= λ provider,
  (tuple_of (get_or "provider_exclusions" (get_or "provider_exclusion" (VTuple []) value) value)
     ≫= strings_of "provider_exclusions") ≫= λ exclusions,
  ModelAgent_init id_ model_ url key_env key tags_ priority_
    (match get_or "disabled" (VBool false) value with VBool b => b | _ => true end)
    provider exclusions
    (get_or "local_credential_key" (VStr "") value)
    (get_or "auth_scheme" (VStr "Bearer") value)
    (dget "max_output_tokens" value)
    (dget "context_window" value)
    (get_or "group_name" (VStr "") value)
    (dget "reasoning_effort_supported" value)
    (dget "endpoint_equivalence" value)
    (get_or "stream_usage_supported" (VBool false) value)
    (dget "model_timeout_seconds" value)
    (get_or "model_timeout_revision" (VInt 0) value).

(** What construction establishes. *)
Record agent_wf (a : ModelAgent) : Prop := {
  wf_id : is_two_word_snake_case (id a) = true;
  wf_group : group_name a = "" ∨ canonical_group_name (group_name a) = Ok (group_name a);
  wf_local : local_credential_key a = "" ∨ url_scheme (base_url a) = "local";
  wf_auth : auth_scheme a ≠ "";
  wf_max_output : ∀ n, max_output_tokens a = Some n → 0 < n <= _AGENT_POOL_INTEGER_MAX;
  wf_window : ∀ n, context_window a = Some n → 0 < n <= _AGENT_POOL_INTEGER_MAX;
  wf_timeout : ∀ x, model_timeout_seconds a = Some x →
    fltb f0 x && fleb x MAX_MODEL_TIMEOUT_SECONDS = true;
  wf_revision : 0 <= model_timeout_revision a;
  wf_contract : ∀ c, endpoint_equivalence a = Some c → contract_of_dict (contract_to_dict c) = Ok c;
}.
End agent.

(** ** Reasoning-effort evidence *)

Definition agent_proves_reasoning_effort_support (a : ModelAgent) : bool :=
  match reasoning_effort_supported a with
  | Some b => b
  | None => str_startswith "mock://" (base_url a)
  end.

(** [unsupported_provider_fallback] is the profile's field, [None] for no
    profile. *)
Definition _eligible_role_effort_candidates (candidates : list ModelAgent)
    (unsupported_provider_fallback : option string) : list ModelAgent :=
  match unsupported_provider_fallback with
  | None => candidates
  | Some fallback =>
      if String.eqb fallback "omit" then candidates else
      match List.filter agent_proves_reasoning_effort_support candidates with
      | [] => candidates
      | supported => supported
      end
  end.

(** ** Context-window filter *)

(** [_context_window_exclusions]: the candidates kept, the ids excluded. *)
Definition window_excluded (lower_bound_tokens : Z) (a : ModelAgent) : bool :=
  match context_window a with
  | Some window => (0 <? window) && (window <? lower_bound_tokens)
  | None => false
  end.

Definition _context_window_exclusions (candidates : list ModelAgent) (lower_bound_tokens : Z)
    : list ModelAgent * list string :=
  (List.filter (λ a, negb (window_excluded lower_bound_tokens a)) candidates,
   map id (List.filter (window_excluded lower_bound_tokens) candidates)).

(** ** Chat and image eligibility *)

Definition IMAGE_INPUT_EVIDENCE_TAG : string := "input:image".
Definition LEGACY_VISION_CAPABILITY_TAG : string := "vision".
Definition SINGLE_TOOL_CALL_EVIDENCE_TAG : string := "tool_call:single".

Definition has_tag (t : string) (a : ModelAgent) : bool := in_strs t (tags a).

Definition _is_general_chat_agent (a : ModelAgent) : bool :=
  negb (has_tag "structured:blocked" a) &&
  is_general_chat_candidate (model a) (tag_values "capability:" (tags a))
    (tag_values "output:" (tags a)).

Definition _normalized_agent_input_tags (a : ModelAgent) : list string :=
  List.filter (str_startswith "input:") (map (λ t, str_casefold (str_strip t)) (tags a)).

Definition _agent_requires_non_text_input (a : ModelAgent) : bool :=
  requires_non_text_input (map (str_drop (str_len "input:")) (_normalized_agent_input_tags a)).

Definition _agent_supports_image_input (a : ModelAgent) : bool :=
  match _normalized_agent_input_tags a with
  | [] => existsb (λ t, String.eqb (str_casefold (str_strip t)) LEGACY_VISION_CAPABILITY_TAG) (tags a)
  | input_tags => in_strs IMAGE_INPUT_EVIDENCE_TAG input_tags
  end.

Definition _is_mixed_image_chat_agent (a : ModelAgent) : bool :=
  let input_tags := _normalized_agent_input_tags a in
  _is_general_chat_agent a && _agent_supports_image_input a &&
  (match input_tags with [] => true | _ => in_strs "input:text" input_tags end).

Definition _agent_matches_required_tags (a : ModelAgent) (required_tags : list string) : bool :=
  match required_tags with
  | [] => true
  | _ =>
      if bool_decide (required_tags = [IMAGE_INPUT_EVIDENCE_TAG]) ||
         bool_decide (required_tags = [LEGACY_VISION_CAPABILITY_TAG])
      then _agent_supports_image_input a
      else forallb (λ t, has_tag t a) required_tags
  end.

(** [_image_input_required_tags(messages)] on messages that are dictionaries. *)
Definition image_part (part : pyval) : bool :=
  match part with
  | VDict d =>
      match dget "type" d with
      | VStr t => in_strs (str_casefold (str_strip t)) ["image_url"; "input_image"]
      | _ => false
      end
  | _ => false
  end.

Definition message_has_image (message : list (pyval * pyval)) : bool :=
  match dget "content" message with VList parts => existsb image_part parts | _ => false end.

Definition _image_input_required_tags (messages : list (list (pyval * pyval))) : list string :=
  if existsb message_has_image messages then [IMAGE_INPUT_EVIDENCE_TAG] else [].

(** ** Tool shape and price *)

Definition is_true_val (v : pyval) : bool := match v with VBool true => true | _ => false end.
Definition is_false_val (v : pyval) : bool := match v with VBool false => true | _ => false end.

Definition _request_requires_parallel_tool_calls (body : list (pyval * pyval)) : bool :=
  match dget "tools" body with
  | VList (t :: ts) =>
      let parallel := dget "parallel_tool_calls" body in
      if is_false_val parallel then false
      else is_true_val parallel || (1 <? length (t :: ts))%nat
  | _ => false
  end.

Definition _agent_rejected_by_single_tool_call_evidence (a : ModelAgent)
    (chat_body : option (list (pyval * pyval))) : bool :=
  match chat_body with
  | None => false
  | Some body => has_tag SINGLE_TOOL_CALL_EVIDENCE_TAG a && _request_requires_parallel_tool_calls body
  end.

(** [settings] is [client.request_settings_snapshot()] when the client has one. *)
Definition _request_shaped_chat_body (settings chat_body : option (list (pyval * pyval)))
    : option (list (pyval * pyval)) :=
  match chat_body with
  | Some b => Some b
  | None =>
      match settings with
      | None => None
      | Some st =>
          match dget "tools" st with
          | VList (t :: ts) =>
              let shaped := [(VStr "tools", VList (t :: ts))] in
              match dict_get "parallel_tool_calls" st with
              | Some p => Some (dict_set "parallel_tool_calls" p shaped)
              | None => Some shaped
              end
          | _ => None
          end
      end
  end.

(** [_is_free_agent]: the operator's prices and the whole pool are the
    orchestrator's. *)
Definition zero_price (prices : gmap string float) (k : string) : bool :=
  match prices !! k with Some p => feqb p f0 | None => false end.

Definition same_model_count (candidates : list ModelAgent) (m : string) : nat :=
  length (List.filter (λ c, String.eqb (model c) m) candidates).

Definition _is_free_agent (prices : gmap string float) (candidates : list ModelAgent)
    (a : ModelAgent) : bool :=
  if String.eqb (provider_name a) "experiential_labs" then false
  else if has_tag "cost:free" a || zero_price prices (id a) then true
  else zero_price prices (model a) && (same_model_count candidates (model a) =? 1)%nat.

Definition _is_general_free_agent (prices : gmap string float) (candidates : list ModelAgent)
    (chat_body : option (list (pyval * pyval))) (a : ModelAgent) : bool :=
  _is_free_agent prices candidates a && negb (_agent_requires_non_text_input a) &&
  negb (_agent_rejected_by_single_tool_call_evidence a chat_body).

Definition _is_image_capable_free_agent (prices : gmap string float) (candidates : list ModelAgent)
    (chat_body : option (list (pyval * pyval))) (a : ModelAgent) : bool :=
  _is_free_agent prices candidates a && _is_mixed_image_chat_agent a &&
  negb (_agent_rejected_by_single_tool_call_evidence a chat_body).

(** ** Lemmas: construction *)

Lemma sorted_set_idemp l : sorted_set (sorted_set l) = sorted_set l.
Proof.
  unfold sorted_set. rewrite fromkeys_id by (rewrite py_sorted_perm; apply fromkeys_NoDup).
  apply py_sorted_id. apply (py_sorted_sorted _ (λ _, True)).
  - intros x y _ _. apply String.leb_total.
  - intros x y z _ _ _. apply string_leb_trans.
  - by apply Forall_forall.
Qed.

Lemma sorted_set_nil l : sorted_set l = [] → l = [].
Proof.
  unfold sorted_set. intros H. apply (f_equal length) in H. rewrite py_sorted_length in H.
  destruct l as [|x l]; [done|]. destruct (fromkeys (x :: l)) eqn:Hf; [|done].
  assert (x ∈ fromkeys (x :: l)) as Hx by (apply fromkeys_elem; by left).
  rewrite Hf in Hx. by apply elem_of_nil in Hx.
Qed.

Lemma omap_as_str_VStr l : omap as_str (map VStr l) = l.
Proof. induction l as [|x l IH]; [done|]. cbn. by rewrite IH. Qed.

Lemma strings_of_VStr field l : strings_of field (map VStr l) = Ok l.
Proof. unfold strings_of. induction l as [|x l IH]; [done|]. cbn in *. by rewrite IH. Qed.

Lemma existsb_VStr l :
  existsb (λ v, match v with VStr _ => false | _ => true end) (map VStr l) = false.
Proof. by induction l. Qed.

(** What the contract's construction establishes of its fields. *)
Record contract_wf (c : EndpointEquivalenceContract) : Prop := {
  cwf_strings : forallb (λ s, negb (str_blank s))
    [contract_id c; model_revision c; reasoning_effort_profile c; structured_output_contract c;
     accuracy_class c; data_residency_policy c; retention_policy c; pricing_evidence_id c] = true;
  cwf_limit : 0 < context_limit c;
  cwf_caps : capability_set c ≠ [] ∧ sorted_set (capability_set c) = capability_set c;
  cwf_policy : in_strs (execution_policy c) ["sequential_failover"; "immediate_race"] = true;
}.

Lemma declared_str_Some v s : declared_str v = Some s → v = VStr s ∧ str_blank s = false.
Proof. destruct v as [| | | |s'| | |]; cbn; try done. destruct (str_blank s') eqn:Hb; [done|]. by intros [= ->]. Qed.

Lemma contract_of_dict_wf d c : contract_of_dict d = Ok c → contract_wf c.
Proof.
  unfold contract_of_dict. destruct (negb _); [done|].
  destruct (map_res _ _) as [l|] eqn:Hl; [|done].
  apply map_res_Forall2 in Hl.
  assert (Hs : Forall (λ s, str_blank s = false) l).
  { clear -Hl. induction Hl as [|f s fs l Hf _ IH]; constructor; [|done].
    destruct (declared_str _) as [s'|] eqn:Hd; [|done]. injection Hf as ->.
    by apply declared_str_Some in Hd as [_ ?]. }
  destruct l as [|s1 [|s2 [|s3 [|s4 [|s5 [|s6 [|s7 [|s8 [|]]]]]]]]]; try done.
  destruct (dget "context_limit" d) as [| |limit| | | | |]; try done.
  destruct (limit <=? 0) eqn:Hlim; [done|]. destruct (truthy _) eqn:Ht; [cbn|done].
  destruct (tuple_of _) as [caps|] eqn:Hcaps; [|done].
  destruct (existsb _ caps) eqn:Hstr; [done|].
  destruct (dget "hedge_eligible" d) as [|hedge| | | | | |]; try done.
  destruct (dget "cancellation_supported" d) as [|cancel| | | | | |]; try done.
  destruct (dget "execution_policy" d) as [| | | |policy| | |]; try done.
  case_match eqn:Hp; [|done]. intros [= <-].
  repeat (apply Forall_cons in Hs as [? Hs]).
  assert (Hall : omap as_str caps = [] → caps = []).
  { destruct caps as [|v caps]; [done|]. cbn in Hstr |- *. by destruct v. }
  split; cbn [contract_id model_revision reasoning_effort_profile structured_output_contract
    accuracy_class data_residency_policy retention_policy pricing_evidence_id context_limit
    capability_set execution_policy].
  - cbn. by rewrite !andb_true_iff, !negb_true_iff.
  - by apply Z.leb_gt.
  - split; [|apply sorted_set_idemp]. intros Hn%sorted_set_nil%Hall. subst caps.
    destruct (dget "capability_set" d) as [| | | |[]|[]|[]|[]]; cbn in Ht, Hcaps;
      try done; congruence.
  - done.
Qed.

Lemma contract_dict_roundtrip c : contract_wf c → contract_of_dict (contract_to_dict c) = Ok c.
Proof.
  intros [Hs Hl [Hc1 Hc2] Hp].
  cbn in Hs. rewrite !andb_true_iff, !negb_true_iff in Hs.
  destruct Hs as (H1 & H2 & H3 & H4 & H5 & H6 & H7 & H8 & _).
  unfold contract_of_dict. change (contract_arguments_ok (contract_to_dict c)) with true.
  cbn -[in_strs sorted_set Z.leb omap]. rewrite H1, H2, H3, H4, H5, H6, H7, H8.
  rewrite (proj2 (Z.leb_gt _ _)) by done.
  destruct c as [c1 c2 c3 caps c4 c5 c6 c7 c8 c9 c10 c11 c12].
  cbn [capability_set contract_id model_revision reasoning_effort_profile
    structured_output_contract accuracy_class data_residency_policy retention_policy
    pricing_evidence_id context_limit execution_policy hedge_eligible cancellation_supported] in *.
  destruct caps as [|cap caps]; [done|].
  rewrite omap_as_str_VStr, existsb_VStr, Hc2. cbn -[in_strs]. by rewrite Hp.
Qed.

(** ** Construction and configuration *)

Section agent_lemmas.
Context (url_scheme : string → string).

Lemma timeout_int n :
  (0 <? n) && (n <=? 2147483647) = true →
  fltb f0 (float_of_Z n) && fleb (float_of_Z n) MAX_MODEL_TIMEOUT_SECONDS = true.
Proof.
  intros H. bools. unfold MAX_MODEL_TIMEOUT_SECONDS. change f0 with (float_of_Z 0).
  rewrite fltb_exact, fleb_exact by (unfold exact_int; lia).
  by rewrite (proj2 (Z.ltb_lt _ _)), (proj2 (Z.leb_le _ _)).
Qed.

Lemma timeout_seconds_ok v x :
  timeout_seconds v = Ok (Some x) → fltb f0 x && fleb x MAX_MODEL_TIMEOUT_SECONDS = true.
Proof.
  destruct v; cbn; try done.
  - destruct (_ && _) eqn:H; [|done]. intros [= <-]. by apply timeout_int.
  - destruct (_ && _) eqn:H; [|done]. by intros [= <-].
Qed.

Lemma token_limit_ok field v n :
  token_limit field v = Ok (Some n) → 0 < n <= _AGENT_POOL_INTEGER_MAX.
Proof.
  destruct v as [| |k| | | | |]; cbn; try done. destruct (_ || _) eqn:H; [done|].
  intros [= <-]. apply orb_false_iff in H as [?%Z.leb_gt ?%Z.ltb_ge]. lia.
Qed.

Lemma ModelAgent_init_wf id_ model_ url key_env key tags_ prio dis prov excl lk au mo cw gn re ee su mt mr a :
  ModelAgent_init url_scheme id_ model_ url key_env key tags_ prio dis prov excl
    lk au mo cw gn re ee su mt mr = Ok a → agent_wf url_scheme a.
Proof.
  unfold ModelAgent_init. intros H.
  apply bind_Ok_inv in H as (u & Hid & H). apply bind_Ok_inv in H as (g & Hg & H).
  apply bind_Ok_inv in H as (k & Hk & H). apply bind_Ok_inv in H as (sch & Hsch & H).
  apply bind_Ok_inv in H as (o & Ho & H). apply bind_Ok_inv in H as (w & Hw & H).
  apply bind_Ok_inv in H as (e & He & H). apply bind_Ok_inv in H as (su' & Hsu & H).
  apply bind_Ok_inv in H as (t & Ht & H). apply bind_Ok_inv in H as (r & Hr & H).
  apply bind_Ok_inv in H as (c & Hc & H). injection H as <-.
  apply map_raise_Ok, require_Ok in Hid.
  split; cbn [id group_name local_credential_key auth_scheme max_output_tokens context_window
              model_timeout_seconds model_timeout_revision endpoint_equivalence base_url].
  - done.
  - destruct gn as [| | | |g'| | |]; try (by destruct (truthy _)).
    destruct (str_truthy g') eqn:Hg'.
    + apply map_raise_Ok in Hg. right. by apply canonical_group_name_fixed in Hg as [_ ?].
    + left. injection Hg as ->. destruct (decide (g = "")) as [|Hne]; [done|].
      apply str_truthy_spec in Hne. congruence.
  - destruct lk as [| | | |k'| | |]; try done. destruct (str_truthy k') eqn:Hk'; cbn in Hk.
    + destruct (String.eqb_spec (url_scheme url) "local") as [->|]; cbn in Hk; [by right|done].
    + left. injection Hk as ->. destruct (decide (k = "")) as [|Hne]; [done|].
      apply str_truthy_spec in Hne. congruence.
  - destruct au as [| | | |s'| | |]; try done. destruct (str_truthy s') eqn:Hs; [|done].
    injection Hsch as ->. by apply str_truthy_spec.
  - intros n ->. by apply token_limit_ok in Ho.
  - intros n ->. by apply token_limit_ok in Hw.
  - intros x ->. by apply timeout_seconds_ok in Ht.
  - destruct mr as [| |n| | | | |]; try done. destruct (n <? 0) eqn:Hn; [done|].
    injection Hr as ->. by apply Z.ltb_ge.
  - intros c' ->. destruct ee as [| | | | | | |d]; try done.
    destruct (contract_of_dict d) eqn:Hd; [|done]. injection Hc as ->.
    by apply contract_dict_roundtrip, (contract_of_dict_wf d).
Qed.

Lemma token_limit_opt field o :
  (∀ n, o = Some n → 0 < n <= _AGENT_POOL_INTEGER_MAX) → token_limit field (opt_val VInt o) = Ok o.
Proof.
  intros H. destruct o as [n|]; [|done]. specialize (H n eq_refl). cbn.
  by rewrite (proj2 (Z.leb_gt _ _)), (proj2 (Z.ltb_ge _ _)) by lia.
Qed.

(** The constructor accepts the fields of a well-formed agent and builds it. *)
Lemma ModelAgent_init_fields a :
  agent_wf url_scheme a →
  ModelAgent_init url_scheme (id a) (model a) (base_url a) (api_key_env a) (credential_key a) (tags a)
    (priority a) (disabled a) (provider_name a) (provider_exclusions a) (VStr (local_credential_key a))
    (VStr (auth_scheme a)) (opt_val VInt (max_output_tokens a)) (opt_val VInt (context_window a))
    (VStr (group_name a)) (opt_val VBool (reasoning_effort_supported a))
    (opt_val (λ c, VDict (contract_to_dict c)) (endpoint_equivalence a)) (VBool (stream_usage_supported a))
    (opt_val VFloat (model_timeout_seconds a)) (VInt (model_timeout_revision a)) = Ok a.
Proof.
  intros [Hid Hg Hl Ha Hm Hw Ht Hr Hc].
  unfold ModelAgent_init, require_object_name. rewrite Hid. cbn -[token_limit opt_val contract_of_dict contract_to_dict].
  assert ((if str_truthy (group_name a) then map_raise ValueErr (canonical_group_name (group_name a))
           else Ok (group_name a)) = Ok (group_name a)) as ->.
  { destruct Hg as [->| ->]; [done|by case_match]. }
  cbn -[token_limit opt_val contract_of_dict contract_to_dict].
  assert (str_truthy (local_credential_key a) && negb (String.eqb (url_scheme (base_url a)) "local")
          = false) as ->.
  { destruct Hl as [->| ->]; [done|]. by rewrite String.eqb_refl, andb_false_r. }
  apply str_truthy_spec in Ha. rewrite Ha.
  cbn -[token_limit opt_val contract_of_dict contract_to_dict].
  rewrite !token_limit_opt by done. cbn -[opt_val contract_of_dict contract_to_dict].
  assert (match opt_val VBool (reasoning_effort_supported a) with
          | VNone => Ok None | VBool b => Ok (Some b)
          | _ => Raise (TypeErr "reasoning_effort_supported must be true, false, or null")
          end = Ok (reasoning_effort_supported a)) as -> by (by destruct (reasoning_effort_supported a)).
  cbn -[opt_val contract_of_dict contract_to_dict].
  assert (timeout_seconds (opt_val VFloat (model_timeout_seconds a)) = Ok (model_timeout_seconds a)) as ->.
  { destruct (model_timeout_seconds a) as [x|]; [|done]. cbn [opt_val timeout_seconds]. by rewrite (Ht x). }
  cbn -[opt_val contract_of_dict contract_to_dict].
  rewrite (proj2 (Z.ltb_ge _ _)) by done. cbn -[opt_val contract_of_dict contract_to_dict].
  destruct a as [? ? ? ? ? ? ? ? ? ? ? ? ? ? ? ? ee ? ? ?]. cbn [endpoint_equivalence] in *.
  destruct ee as [c|]; [|done]. cbn [opt_val]. by rewrite (Hc c).
Qed.

Lemma from_dict_to_config a : agent_wf url_scheme a → from_dict url_scheme (to_config a) = Ok a.
Proof.
  intros Hwf. unfold from_dict. cbn -[ModelAgent_init strings_of require_object_name opt_val].
  rewrite !strings_of_VStr. unfold require_object_name at 1. rewrite (wf_id _ _ Hwf).
  by apply ModelAgent_init_fields.
Qed.

(** A constructed agent satisfies its type invariant: an object name for its
    id, a canonical group or none, a local credential only on a local gateway,
    positive bounded token limits and timeout, a well-formed contract; and its
    configuration round-trips: [from_dict(to_config(a)) == a]. *)
Theorem agent_config_roundtrip id_ model_ url key_env key tags_ prio dis prov excl lk au mo cw gn re ee su mt mr a :
  ModelAgent_init url_scheme id_ model_ url key_env key tags_ prio dis prov excl
    lk au mo cw gn re ee su mt mr = Ok a →
  agent_wf url_scheme a ∧ from_dict url_scheme (to_config a) = Ok a.
Proof.
  intros H. apply ModelAgent_init_wf in H. split; [done|]. by apply from_dict_to_config.
Qed.
End agent_lemmas.

(** The scheme of a URL without leading blanks: the text before the first colon. *)
Fixpoint demo_scheme (s : string) : string :=
  match s with
  | EmptyString => ""
  | String c s' => if ord c =? 58 then "" else String c (demo_scheme s')
  end.

Definition demo_contract_dict : list (pyval * pyval) :=
  contract_to_dict demo_contract.

Lemma agent_config_roundtrip_witness :
  ∃ a, ModelAgent_init demo_scheme "openrouter_free" "google/gemma-4" "https://openrouter.ai/api/v1" ""
         "OPENROUTER_API_KEY" ["cost:free"; "capability:chat"] 3 false "openrouter" ["judge"]
         (VStr "") (VStr "Bearer") (VInt 4096) VNone (VStr "Shared-Reasoning Model") (VBool true)
         (VDict demo_contract_dict) (VBool false) (VInt 30) (VInt 2) = Ok a ∧
       group_name a = "shared_reasoning_model" ∧
       from_dict demo_scheme (to_config a) = Ok a.
Proof.
  eexists. split; [vm_compute; reflexivity|]. split; [reflexivity|].
  eapply (agent_config_roundtrip demo_scheme "openrouter_free" "google/gemma-4"
    "https://openrouter.ai/api/v1" ""
         "OPENROUTER_API_KEY" ["cost:free"; "capability:chat"] 3 false "openrouter" ["judge"]
         (VStr "") (VStr "Bearer") (VInt 4096) VNone (VStr "Shared-Reasoning Model") (VBool true)
         (VDict demo_contract_dict) (VBool false) (VInt 30) (VInt 2)).
  vm_compute. reflexivity.
Defined.

(** Narrowing candidates to proven reasoning-effort support never empties
    them and never reorders them; under a fail-closed profile, when any
    candidate proves support, only candidates that prove it are left. *)
Theorem effort_filter_safe candidates fallback :
  _eligible_role_effort_candidates candidates fallback `sublist_of` candidates ∧
  (candidates ≠ [] → _eligible_role_effort_candidates candidates fallback ≠ []) ∧
  (fallback ≠ None → fallback ≠ Some "omit" →
   Exists (λ a, agent_proves_reasoning_effort_support a = true) candidates →
   Forall (λ a, agent_proves_reasoning_effort_support a = true)
     (_eligible_role_effort_candidates candidates fallback)).
Proof.
  assert (Hsub : List.filter agent_proves_reasoning_effort_support candidates `sublist_of` candidates).
  { induction candidates as [|a l IH]; cbn; [constructor|]. case_match; by constructor. }
  unfold _eligible_role_effort_candidates. destruct fallback as [f|]; [|done].
  destruct (String.eqb_spec f "omit") as [->|Hf]; [by split; [|split]|].
  destruct (List.filter _ candidates) as [|a l] eqn:Hl.
  - split; [done|]. split; [done|]. intros _ _ Hex. exfalso.
    apply Exists_exists in Hex as (a & Ha & Hs). apply list_elem_of_In in Ha.
    assert (In a (List.filter agent_proves_reasoning_effort_support candidates)) as Hin
      by (by apply filter_In). by rewrite Hl in Hin.
  - split; [done|]. split; [done|]. intros _ _ _. rewrite <- Hl. apply Forall_forall.
    intros b Hb. by apply list_elem_of_In, filter_In in Hb as [_ ?].
Qed.

(** A context-window exclusion needs positive proof: the kept candidates, in
    their order, are those with an unknown window or one that can hold the
    prompt's lower bound, and every other candidate is reported by id. *)
Theorem context_window_exclusion_sound candidates bound :
  let '(kept, excluded) := _context_window_exclusions candidates bound in
  kept `sublist_of` candidates ∧
  (∀ a, a ∈ candidates → context_window a = None → a ∈ kept) ∧
  (∀ a, a ∈ candidates → a ∈ kept ∨
     (id a ∈ excluded ∧ ∃ w, context_window a = Some w ∧ 0 < w < bound)) ∧
  (length kept + length excluded = length candidates)%nat.
Proof.
  cbn. split; [|split; [|split]].
  - induction candidates as [|a l IH]; cbn; [constructor|]. case_match; by constructor.
  - intros a Ha Hw. apply list_elem_of_In, filter_In. split; [by apply list_elem_of_In|].
    unfold window_excluded. by rewrite Hw.
  - intros a Ha. destruct (window_excluded bound a) eqn:Hx.
    + right. split.
      * apply list_elem_of_In, in_map, filter_In. by apply list_elem_of_In in Ha.
      * unfold window_excluded in Hx. destruct (context_window a) as [w|]; [|done].
        bools. exists w. split; [done|lia].
    + left. apply list_elem_of_In, filter_In. rewrite Hx. by apply list_elem_of_In in Ha.
  - rewrite length_map. induction candidates as [|a l IH]; cbn; [done|].
    destruct (window_excluded bound a); cbn; lia.
Qed.

(** A pool entry with the given identity, base URL and tags. *)
Definition demo_agent (id_ model_ url : string) (tags_ : list string) : ModelAgent :=
  {| id := id_; model := model_; base_url := url; api_key_env := ""; credential_key := "K";
     tags := tags_; priority := 0; disabled := false; provider_name := "p";
     provider_exclusions := []; local_credential_key := ""; auth_scheme := "Bearer";
     max_output_tokens := None; context_window := None; group_name := "";
     reasoning_effort_supported := None; endpoint_equivalence := None;
     stream_usage_supported := false; model_timeout_seconds := None; model_timeout_revision := 0 |}.

Definition demo_mixed : list ModelAgent :=
  [demo_agent "real_one" "m" "https://api.example" []; demo_agent "mock_one" "m" "mock://local" []].

Lemma effort_filter_safe_witness :
  Forall (λ a, agent_proves_reasoning_effort_support a = true)
    (_eligible_role_effort_candidates demo_mixed (Some "fail")).
Proof.
  apply (effort_filter_safe demo_mixed (Some "fail")); [done|done|].
  apply Exists_exists. exists (demo_agent "mock_one" "m" "mock://local" []).
  split; [by right; left|reflexivity].
Defined.
