(* ===== verification/AgentHealth.v ===== *)
(** orchestrator.py: what the orchestrator remembers of an agent's health — the
    circuit breaker and the rate-limit cooldowns — and the wait a rate-limit
    storm admits. Clock readings are arguments. *)

From S2P Require Import Prelude PyString PyCollections PyFloat PyValue Exceptions ProviderErrors.
From S2P Require Import Agents.

(** ** Constructor *)

(** The checks of [rate_limit_wait_seconds] and of
    [rate_limit_unknown_cooldown_seconds]. *)
Definition finite_nonnegative (field : string) (v : pyval) : res string float :=
  let error := String.append field " must be a finite nonnegative number" in
  match v with
  | VInt n => if n <? 0 then Raise error else Ok (float_of_Z n)
  | VFloat x => if negb (is_finite x) || fltb x f0 then Raise error else Ok x
  | _ => Raise error
  end.

Definition circuit_failure_threshold : float := float_of_Z 3.
Definition circuit_reset_seconds : float := float_of_Z 30.

Record health_config := {
  rate_limit_wait_seconds : float;
  rate_limit_unknown_cooldown_seconds : float;
}.

(** ** State *)

Record circuit_entry := { failures : float; opened_at : float }.

Record health := {
  _circuit : gmap string circuit_entry;
  _rate_limit_until : list (string * float);     (* a dict, in insertion order *)
  _rate_limit_assumed : gset string;
  slept : list float;                            (* calls of _rate_limit_sleep, newest first *)
}.

Definition empty_health : health :=
  {| _circuit := ∅; _rate_limit_until := []; _rate_limit_assumed := ∅; slept := [] |}.

Definition set_circuit (c : gmap string circuit_entry) (h : health) : health :=
  {| _circuit := c; _rate_limit_until := _rate_limit_until h;
     _rate_limit_assumed := _rate_limit_assumed h; slept := slept h |}.

Definition set_limits (u : list (string * float)) (a : gset string) (h : health) : health :=
  {| _circuit := _circuit h; _rate_limit_until := u; _rate_limit_assumed := a; slept := slept h |}.

(** ** Circuit breaker *)

Definition _circuit_open (agent_id : string) (now : float) (h : health) : health * bool :=
  match _circuit h !! agent_id with
  | None => (h, false)
  | Some st =>
      if fltb (failures st) circuit_failure_threshold then (h, false)
      else if fleb circuit_reset_seconds (fsub now (opened_at st))
      then (set_circuit (<[agent_id := {| failures := f0; opened_at := f0 |}]> (_circuit h)) h, false)
      else (h, true)
  end.

Definition record_failure_entry (now : float) (st : circuit_entry) : circuit_entry :=
  let n := fadd (failures st) f1 in
  {| failures := n;
     opened_at := if fleb circuit_failure_threshold n && negb (float_truthy (opened_at st))
                  then now else opened_at st |}.

Definition _record_failure (agent_id : string) (now : float) (h : health) : health :=
  let st := default {| failures := f0; opened_at := f0 |} (_circuit h !! agent_id) in
  set_circuit (<[agent_id := record_failure_entry now st]> (_circuit h)) h.

Definition _record_success (agent_id : string) (h : health) : health :=
  set_circuit (delete agent_id (_circuit h)) h.

(** [_record_embedding_failure]: the status is the exception's [provider_status]
    attribute, or an [HTTPError]'s code; 413 is no health signal. The
    [observe_failure] of the group router and the analytics event are the
    caller's. *)
Definition embedding_status (e : exc_class) : option Z :=
  match is_upstream e with
  | Some u => match ue_provider_status u with Some s => Some s | None => is_http_error e end
  | None => is_http_error e
  end.

Definition _record_embedding_failure (agent_id : string) (e : exc_class) (now : float) (h : health)
    : health :=
  if bool_decide (embedding_status e = Some 413) then h else _record_failure agent_id now h.

(** ** Rate-limit cooldowns *)

Definition _ASSUMABLE_RATE_LIMIT_STATUSES : list Z := [429].

Definition _record_rate_limit (cfg : health_config) (agent_id : string)
    (retry_after_seconds : option float) (status : Z) (now : float) (h : health) : health :=
  let assumed := match retry_after_seconds with None => true | Some _ => false end in
  if assumed && negb (existsb (Z.eqb status) _ASSUMABLE_RATE_LIMIT_STATUSES) then h else
  let resolved :=
    match retry_after_seconds with
    | None => rate_limit_unknown_cooldown_seconds cfg
    | Some s => fmax s f0
    end in
  let until := fadd now resolved in
  if match od_get agent_id (_rate_limit_until h) with
     | None => true
     | Some current => fltb current until
     end
  then set_limits (od_set agent_id until (_rate_limit_until h))
         (if assumed then {[agent_id]} ∪ _rate_limit_assumed h
          else _rate_limit_assumed h ∖ {[agent_id]}) h
  else h.

Definition _rate_limit_remaining (agent_id : string) (now : float) (h : health)
    : health * option float :=
  match od_get agent_id (_rate_limit_until h) with
  | None => (h, None)
  | Some until =>
      let remaining := fsub until now in
      if fleb remaining f0
      then (set_limits (od_del agent_id (_rate_limit_until h))
              (_rate_limit_assumed h ∖ {[agent_id]}) h, None)
      else (h, Some remaining)
  end.

Definition _rate_limit_cooldown_source (agent_id : string) (h : health) : string :=
  if decide (agent_id ∈ _rate_limit_assumed h) then "assumed" else "provider".

(** [later] is the second clock reading, taken for each expired entry. *)
Definition expire_entry (later : float) (u : list (string * float)) (agent_id : string)
    : list (string * float) :=
  match od_get agent_id u with
  | Some stale => if fleb (fsub stale later) f0 then od_del agent_id u else u
  | None => u
  end.

Definition _rate_limited_snapshot (now later : float) (h : health)
    : health * list (string * float) :=
  let items := map (λ '(k, until), (k, fsub until now)) (_rate_limit_until h) in
  let snapshot := List.filter (λ '(_, remaining), fltb f0 remaining) items in
  let expired := map fst (List.filter (λ '(_, remaining), negb (fltb f0 remaining)) items) in
  (set_limits (fold_left (expire_entry later) expired (_rate_limit_until h))
     (_rate_limit_assumed h) h, snapshot).

(** ** Waiting out a storm *)

(** [resolved] is [client._resolved_model_timeout(agent)] when the client has
    that method. *)
Definition _rate_limit_wait_budget (cfg : health_config) (resolved : option float) : float :=
  match resolved with Some t => t | None => rate_limit_wait_seconds cfg end.

(** The comprehension over [candidates]: each expired cooldown is dropped on the
    way. *)
Fixpoint cooling_of (now : float) (candidates : list ModelAgent) (h : health)
    : health * list (ModelAgent * float) :=
  match candidates with
  | [] => (h, [])
  | c :: cs =>
      let '(h1, r) := _rate_limit_remaining (id c) now h in
      let '(h2, rest) := cooling_of now cs h1 in
      (h2, match r with Some s => (c, s) :: rest | None => rest end)
  end.

(** [min(cooling, key=remaining)]: the first of the least. *)
Fixpoint earliest (best : ModelAgent * float) (l : list (ModelAgent * float)) : ModelAgent * float :=
  match l with
  | [] => best
  | x :: l' => earliest (if fltb x.2 best.2 then x else best) l'
  end.

Definition _await_rate_limit_recovery (candidates : list ModelAgent) (deadline now : float)
    (transport : string) (virtual_selector : bool) (h : health)
    : health * res ProviderUpstreamError bool :=
  if negb virtual_selector then (h, Ok false) else
  match cooling_of now candidates h with
  | (h1, []) => (h1, Ok false)
  | (h1, c :: cs) =>
      let '(agent, ready) := earliest c cs in
      let remaining_budget := fsub deadline now in
      if fleb remaining_budget f0 || fltb remaining_budget ready
      then (h1, Raise (rate_limited_storm_error (id agent) (model agent) ready transport
                         (_rate_limit_cooldown_source (id agent) h1)))
      else ({| _circuit := _circuit h1; _rate_limit_until := _rate_limit_until h1;
               _rate_limit_assumed := _rate_limit_assumed h1; slept := ready :: slept h1 |}, Ok true)
  end.

(** ** The breaker's specification

    A streak of failures since the last success or reset, and the time at which
    the streak reached the threshold. *)
Record breaker := { streak : Z; tripped : option float }.

Inductive circuit_event :=
| Failure (now : float)
| Success
| Probe (now : float).

Definition breaker_closed : breaker := {| streak := 0; tripped := None |}.

Definition breaker_step (b : breaker) (e : circuit_event) : breaker * option bool :=
  match e with
  | Failure now =>
      ({| streak := streak b + 1;
          tripped := match tripped b with
                     | Some t => Some t
                     | None => if 3 <=? streak b + 1 then Some now else None
                     end |}, None)
  | Success => (breaker_closed, None)
  | Probe now =>
      match tripped b with
      | None => (b, Some false)
      | Some t =>
          if fleb (float_of_Z 30) (fsub now t) then (breaker_closed, Some false)
          else (b, Some true)
      end
  end.

Fixpoint breaker_run (b : breaker) (es : list circuit_event) : breaker * list bool :=
  match es with
  | [] => (b, [])
  | e :: es' =>
      let '(b1, o) := breaker_step b e in
      let '(b2, os) := breaker_run b1 es' in
      (b2, match o with Some x => x :: os | None => os end)
  end.

(** The code's methods on one agent, event by event. *)
Definition circuit_step (agent_id : string) (h : health) (e : circuit_event) : health * option bool :=
  match e with
  | Failure now => (_record_failure agent_id now h, None)
  | Success => (_record_success agent_id h, None)
  | Probe now => let '(h', b) := _circuit_open agent_id now h in (h', Some b)
  end.

Fixpoint circuit_run (agent_id : string) (h : health) (es : list circuit_event)
    : health * list bool :=
  match es with
  | [] => (h, [])
  | e :: es' =>
      let '(h1, o) := circuit_step agent_id h e in
      let '(h2, os) := circuit_run agent_id h1 es' in
      (h2, match o with Some x => x :: os | None => os end)
  end.

(** [time.monotonic()] is never exactly 0.0 while the process serves. *)
Definition event_clock_ok (e : circuit_event) : Prop :=
  match e with Failure now => float_truthy now = true | _ => True end.

(** The concrete entry of a breaker. *)
Definition entry_of (b : breaker) : circuit_entry :=
  {| failures := float_of_Z (streak b); opened_at := default f0 (tripped b) |}.

Definition represents (agent_id : string) (h : health) (b : breaker) : Prop :=
  (_circuit h !! agent_id = Some (entry_of b) ∨
   (_circuit h !! agent_id = None ∧ b = breaker_closed)) ∧
  0 <= streak b ∧
  match tripped b with
  | None => streak b < 3
  | Some t => 3 <= streak b ∧ float_truthy t = true
  end.

Lemma represents_step agent_id h b e :
  represents agent_id h b → streak b + 1 < 2 ^ 53 → event_clock_ok e →
  let '(h', o) := circuit_step agent_id h e in
  let '(b', o') := breaker_step b e in
  represents agent_id h' b' ∧ o = o' ∧ streak b' <= streak b + 1.
Proof.
  intros (Hent & Hnn & Htr) Hlt Hclock.
  assert (Hentry : default {| failures := f0; opened_at := f0 |} (_circuit h !! agent_id) = entry_of b).
  { destruct Hent as [->|[-> ->]]; done. }
  assert (Hcmp : ∀ n, 0 <= n < 2 ^ 53 → fleb circuit_failure_threshold (float_of_Z n) = (3 <=? n)).
  { intros n Hn. unfold circuit_failure_threshold. by rewrite fleb_exact. }
  destruct e as [now| |now]; cbn [circuit_step breaker_step].
  - unfold _record_failure. rewrite Hentry. unfold record_failure_entry, entry_of at 1 2 3 4.
    cbn [failures opened_at].
    assert (Hadd : fadd (float_of_Z (streak b)) f1 = float_of_Z (streak b + 1))
      by (apply (fadd_exact (streak b) 1); unfold exact_int; lia).
    rewrite Hadd, Hcmp by lia. split; [|split; [done|cbn; lia]].
    split; [left; cbn; rewrite lookup_insert_eq; unfold entry_of; cbn|cbn].
    + f_equal. f_equal. destruct (tripped b) as [t|]; cbn.
      * destruct Htr as [_ ->]. by rewrite andb_false_r.
      * rewrite andb_true_r. by destruct (3 <=? streak b + 1).
    + split; [lia|]. destruct (tripped b) as [t|]; [destruct Htr; split; [lia|done]|].
      destruct (Z.leb_spec 3 (streak b + 1)); [by split; [lia|]|lia].
  - split; [|split; [done|cbn; lia]].
    split; [|split; [done|cbn; lia]]. right. split; [|done]. cbn. apply lookup_delete_eq.
  - unfold _circuit_open. destruct Hent as [He|[He ->]]; rewrite He.
    2: { split; [|done]. split; [by right|]. done. }
    unfold entry_of at 1 2. cbn [failures opened_at].
    assert (Hl : fltb (float_of_Z (streak b)) circuit_failure_threshold = (streak b <? 3)).
    { unfold circuit_failure_threshold. apply fltb_exact; unfold exact_int; lia. }
    rewrite Hl. destruct (tripped b) as [t|] eqn:Ht; cbn [default].
    + destruct Htr as [H3 Htt]. rewrite (proj2 (Z.ltb_ge _ _)) by done.
      unfold circuit_reset_seconds. cbn [from_option Datatypes.id].
      change (default f0 (Some t)) with t.
      destruct (fleb (float_of_Z 30) (fsub now t)).
      * split; [|split; [done|cbn; lia]]. split; [|split; [done|cbn; lia]].
        left. cbn. by rewrite lookup_insert_eq.
      * split; [|split; [done|lia]]. split; [by left|]. by rewrite Ht.
    + rewrite (proj2 (Z.ltb_lt _ _)) by done. split; [|split; [done|lia]].
      split; [by left|]. by rewrite Ht.
Qed.

Lemma represents_run agent_id es h b :
  represents agent_id h b → streak b + Z.of_nat (length es) < 2 ^ 53 → Forall event_clock_ok es →
  represents agent_id (circuit_run agent_id h es).1 (breaker_run b es).1 ∧
  (circuit_run agent_id h es).2 = (breaker_run b es).2.
Proof.
  revert h b. induction es as [|e es IH]; intros h b Hr Hlen Hok; [done|].
  apply Forall_cons in Hok as [He Hok]. cbn [length] in Hlen.
  pose proof (represents_step agent_id h b e Hr ltac:(lia) He) as Hs. cbn [circuit_run breaker_run].
  destruct (circuit_step agent_id h e) as [h1 o], (breaker_step b e) as [b1 o'].
  destruct Hs as (Hr1 & -> & Hle).
  destruct (IH h1 b1 Hr1 ltac:(lia) Hok) as [IH1 IH2].
  destruct (circuit_run agent_id h1 es), (breaker_run b1 es). cbn in *. by subst.
Qed.

Lemma circuit_step_frame agent_id other h e :
  other ≠ agent_id → _circuit (circuit_step agent_id h e).1 !! other = _circuit h !! other.
Proof.
  intros Hne. destruct e as [now| |now]; cbn.
  - by rewrite lookup_insert_ne.
  - by rewrite lookup_delete_ne.
  - unfold _circuit_open. destruct (_circuit h !! agent_id) as [st|]; [|done].
    destruct (fltb _ _); [done|]. destruct (fleb _ _); [|done]. cbn. by rewrite lookup_insert_ne.
Qed.

Lemma circuit_run_frame agent_id other es h :
  other ≠ agent_id → _circuit (circuit_run agent_id h es).1 !! other = _circuit h !! other.
Proof.
  intros Hne. revert h. induction es as [|e es IH]; intros h; [done|]. cbn.
  pose proof (circuit_step_frame agent_id other h e Hne) as Hf.
  destruct (circuit_step agent_id h e) as [h1 o]. specialize (IH h1).
  destruct (circuit_run agent_id h1 es). cbn in *. congruence.
Qed.

(** The circuit breaker implements its specification: from a fresh
    orchestrator, on any interleaving of failures, successes and probes of an
    agent, the probes answer exactly what a breaker answers that opens at the
    third failure since the last success or reset, keeps the opening time
    through later failures, and closes again 30 seconds after it; other agents'
    entries are untouched. Floating-point counting is exact up to 2^53 events. *)
Theorem circuit_refines_breaker agent_id es :
  Z.of_nat (length es) < 2 ^ 53 → Forall event_clock_ok es →
  (circuit_run agent_id empty_health es).2 = (breaker_run breaker_closed es).2 ∧
  ∀ other, other ≠ agent_id → _circuit (circuit_run agent_id empty_health es).1 !! other = None.
Proof.
  intros Hlen Hok. split.
  - apply (represents_run agent_id es empty_health breaker_closed); [|done|done].
    split; [by right|done].
  - intros other Hne. by rewrite circuit_run_frame.
Qed.

Definition demo_events : list circuit_event :=
  [Failure (float_of_Z 1); Failure (float_of_Z 2); Probe (float_of_Z 3); Failure (float_of_Z 4);
   Probe (float_of_Z 5); Failure (float_of_Z 20); Probe (float_of_Z 33); Probe (float_of_Z 34);
   Probe (float_of_Z 35); Failure (float_of_Z 36); Probe (float_of_Z 37)].

Lemma circuit_refines_breaker_witness :
  (circuit_run "agent_one" empty_health demo_events).2 = [false; true; true; false; false; false].
Proof.
  rewrite (proj1 (circuit_refines_breaker "agent_one" demo_events ltac:(vm_compute; reflexivity)
                    ltac:(repeat constructor))).
  vm_compute. reflexivity.
Defined.

(** ** Cooldowns *)

(** Recording a rate limit for an agent, whatever its status and header. *)
Lemma record_rate_limit_until cfg a retry status now h :
  let h' := _record_rate_limit cfg a retry status now h in
  h' = h ∨
  ∃ until, od_get a (_rate_limit_until h') = Some until ∧
    until = fadd now (match retry with
                      | None => rate_limit_unknown_cooldown_seconds cfg
                      | Some s => fmax s f0 end) ∧
    (∀ current, od_get a (_rate_limit_until h) = Some current → fltb current until = true) ∧
    _rate_limit_cooldown_source a h' =
      (match retry with None => "assumed" | Some _ => "provider" end) ∧
    (retry = None → status = 429).
Proof.
  cbv zeta. unfold _record_rate_limit. destruct (_ && _) eqn:Hs; [by left|].
  set (until := fadd now _).
  destruct (match od_get a (_rate_limit_until h) with Some _ => _ | None => true end) eqn:Hc; [|by left].
  right. exists until. unfold _rate_limit_cooldown_source. cbn.
  split; [by rewrite od_get_set, decide_True|]. split; [done|]. split.
  { intros current Hcur. by rewrite Hcur in Hc. }
  split.
  - destruct retry; [rewrite decide_False by set_solver|rewrite decide_True by set_solver]; done.
  - intros ->. cbn in Hs. rewrite orb_false_r in Hs.
    apply negb_false_iff, Z.eqb_eq in Hs. done.
Qed.

(** A recorded cooldown only extends forward, and the label always belongs
    to the cooldown in force: recording either changes nothing, or replaces the
    agent's deadline by a strictly later one together with its label —
    "assumed" exactly when the provider stated no duration, which only a 429
    may do. *)
Theorem cooldown_only_extends cfg a retry status now h :
  let h' := _record_rate_limit cfg a retry status now h in
  _circuit h' = _circuit h ∧
  (h' = h ∨
   ∃ until, od_get a (_rate_limit_until h') = Some until ∧
    (∀ current, od_get a (_rate_limit_until h) = Some current → fltb current until = true) ∧
    _rate_limit_cooldown_source a h' =
      (match retry with None => "assumed" | Some _ => "provider" end) ∧
    (retry = None → status = 429)).
Proof.
  cbv zeta. split; [unfold _record_rate_limit; by repeat case_match|].
  destruct (record_rate_limit_until cfg a retry status now h) as [?|(u & ? & _ & ? & ? & ?)];
    [by left|right; by exists u].
Qed.

(** ** Waiting *)

(** What reading cooldowns leaves as it was: everything but expired entries. *)
Definition same_active (now : float) (h h' : health) : Prop :=
  slept h' = slept h ∧ _circuit h' = _circuit h ∧
  (∀ k u, od_get k (_rate_limit_until h') = Some u → od_get k (_rate_limit_until h) = Some u) ∧
  (∀ k u, od_get k (_rate_limit_until h) = Some u → fleb (fsub u now) f0 = false →
          od_get k (_rate_limit_until h') = Some u).

Lemma same_active_refl now h : same_active now h h.
Proof. done. Qed.

Lemma same_active_trans now h1 h2 h3 :
  same_active now h1 h2 → same_active now h2 h3 → same_active now h1 h3.
Proof.
  intros (Hs & Hc & Hb & Hf) (Hs' & Hc' & Hb' & Hf'). split; [congruence|]. split; [congruence|].
  split; eauto.
Qed.

Lemma remaining_spec a now h :
  let '(h', r) := _rate_limit_remaining a now h in
  same_active now h h' ∧
  ∀ s, r = Some s ↔
    ∃ u, od_get a (_rate_limit_until h) = Some u ∧ s = fsub u now ∧ fleb s f0 = false.
Proof.
  unfold _rate_limit_remaining.
  destruct (od_get a (_rate_limit_until h)) as [u|] eqn:Hu.
  2: { split; [done|]. intros s. split; [done|]. intros (u & ? & _). congruence. }
  destruct (fleb (fsub u now) f0) eqn:He.
  - split; [|intros s; split; [done|]; intros (u' & ? & -> & ?); congruence].
    split; [done|]. split; [done|]. cbn. split; intros k u'; rewrite od_get_del.
    + by case_decide.
    + intros Hk Hn. case_decide; [subst; congruence|done].
  - split; [done|]. intros s. split; [intros [= <-]; eauto|].
    intros (u' & ? & -> & ?). congruence.
Qed.

Lemma cooling_spec now cs h :
  let '(h', l) := cooling_of now cs h in
  same_active now h h' ∧
  ∀ c s, (c, s) ∈ l ↔
    c ∈ cs ∧ ∃ u, od_get (id c) (_rate_limit_until h) = Some u ∧ s = fsub u now ∧ fleb s f0 = false.
Proof.
  revert h. induction cs as [|c cs IH]; intros h; cbn [cooling_of].
  { split; [done|]. intros c s. rewrite !elem_of_nil. naive_solver. }
  pose proof (remaining_spec (id c) now h) as Hr.
  destruct (_rate_limit_remaining (id c) now h) as [h1 r]. destruct Hr as [Hsa Hr].
  specialize (IH h1). destruct (cooling_of now cs h1) as [h2 rest]. destruct IH as [Hsa' Hl].
  split; [by eapply same_active_trans|].
  destruct Hsa as (_ & _ & Hback & Hfwd).
  assert (Hrest : ∀ c' s, (c', s) ∈ rest ↔
    c' ∈ cs ∧ ∃ u, od_get (id c') (_rate_limit_until h) = Some u ∧ s = fsub u now ∧ fleb s f0 = false).
  { intros c' s. rewrite Hl. split.
    - intros (? & u & ? & -> & ?). split; [done|]. exists u. eauto.
    - intros (? & u & ? & -> & ?). split; [done|]. exists u. eauto. }
  intros c' s. destruct r as [s0|].
  - rewrite !elem_of_cons, Hrest. split.
    + intros [[= -> ->]|(? & ?)]; [|naive_solver]. split; [by left|]. by apply Hr.
    + intros [[->|?] Hu]; [|by right]. left. f_equal.
      apply Hr in Hu. by injection Hu as ->.
  - rewrite elem_of_cons, Hrest. split; [naive_solver|].
    intros [[->|?] Hu]; [|done]. apply Hr in Hu. done.
Qed.

Lemma earliest_in best l : earliest best l ∈ best :: l.
Proof.
  revert best. induction l as [|x l IH]; intros best; cbn; [by left|].
  specialize (IH (if fltb x.2 best.2 then x else best)). rewrite !elem_of_cons in *.
  destruct (fltb _ _); naive_solver.
Qed.

Lemma earliest_least best l :
  Forall (λ x, is_nan x.2 = false) (best :: l) →
  ∀ x, x ∈ best :: l → fltb x.2 (earliest best l).2 = false.
Proof.
  revert best. induction l as [|y l IH]; intros best Hn x Hx; cbn.
  { apply list_elem_of_singleton in Hx as ->. apply fltb_irrefl. }
  apply Forall_cons in Hn as [Hb Hn]. apply Forall_cons in Hn as [Hy Hn].
  set (b := if fltb y.2 best.2 then y else best).
  assert (Hnb : is_nan b.2 = false) by (subst b; by destruct (fltb _ _)).
  assert (Hall : Forall (λ z, is_nan z.2 = false) (b :: l)) by by constructor.
  specialize (IH b Hall).
  assert (Hbest : fltb b.2 (earliest b l).2 = false) by (apply IH; by left).
  assert (He : is_nan (earliest b l).2 = false).
  { rewrite Forall_forall in Hall. apply Hall, earliest_in. }
  apply elem_of_cons in Hx as [->|[->|Hx]%elem_of_cons]; [| |apply IH; by right].
  - apply (not_fltb_trans (earliest b l).2 b.2 best.2); try done.
    subst b. destruct (fltb y.2 best.2) eqn:Hlt; [by apply fltb_asym|apply fltb_irrefl].
  - apply (not_fltb_trans (earliest b l).2 b.2 y.2); try done.
    subst b. destruct (fltb y.2 best.2) eqn:Hlt; [apply fltb_irrefl|done].
Qed.

(** An active cooldown of a candidate, [r] seconds long at [now]. *)
Definition cools (now : float) (h : health) (c : ModelAgent) (r : float) : Prop :=
  ∃ u, od_get (id c) (_rate_limit_until h) = Some u ∧ r = fsub u now ∧ fleb r f0 = false.

(** Waiting out a rate-limit storm is admission-controlled: a pinned model
    never waits; a virtual selector sleeps exactly once, for the least active
    cooldown among the candidates and only when it fits the remaining budget;
    with nothing cooling it declines, and a cooldown beyond the budget raises a
    retryable 429 without sleeping. The breaker is never touched. *)
Theorem storm_wait_bounded candidates deadline now transport virtual_selector h :
  (∀ c u, c ∈ candidates → od_get (id c) (_rate_limit_until h) = Some u →
          is_nan (fsub u now) = false) →
  let '(h', out) :=
    _await_rate_limit_recovery candidates deadline now transport virtual_selector h in
  _circuit h' = _circuit h ∧
  match out with
  | Ok true =>
      virtual_selector = true ∧
      ∃ agent r, agent ∈ candidates ∧ cools now h agent r ∧ slept h' = r :: slept h ∧
        fltb (fsub deadline now) r = false ∧
        ∀ c r', c ∈ candidates → cools now h c r' → fltb r' r = false
  | Ok false =>
      slept h' = slept h ∧
      (virtual_selector = true → ∀ c r, c ∈ candidates → ¬ cools now h c r)
  | Raise e =>
      virtual_selector = true ∧ slept h' = slept h ∧
      ue_client_status e = 429 ∧ ue_retryable e = true ∧
      ∃ agent r, agent ∈ candidates ∧ cools now h agent r ∧
        ud_retry_after_seconds (ue_extra_detail e) = Some r ∧
        (fleb (fsub deadline now) f0 = true ∨ fltb (fsub deadline now) r = true)
  end.
Proof.
  intros Hnan. unfold _await_rate_limit_recovery. destruct virtual_selector; cbn [negb]; [|done].
  pose proof (cooling_spec now candidates h) as Hc.
  destruct (cooling_of now candidates h) as [h1 l]. destruct Hc as [(Hs & Hci & _) Hl].
  destruct l as [|c0 cs].
  { split; [done|]. split; [done|]. intros _ c r Hin Hcools.
    assert ((c, r) ∈ @nil (ModelAgent * float)) as Hx by (by apply Hl). by apply elem_of_nil in Hx. }
  assert (Hn : Forall (λ x : ModelAgent * float, is_nan x.2 = false) (c0 :: cs)).
  { apply Forall_forall. intros [c r] (Hin & u & Hu & -> & _)%Hl. by apply (Hnan c). }
  pose proof (earliest_in c0 cs) as Hin. pose proof (earliest_least c0 cs Hn) as Hleast.
  destruct (earliest c0 cs) as [agent r] eqn:He. cbn [fst snd] in *.
  apply Hl in Hin as [Hag Hcools].
  destruct (fleb _ f0 || fltb _ r) eqn:Hb.
  - split; [done|]. do 2 (split; [done|]). split; [done|]. split; [done|].
    exists agent, r. do 2 (split; [done|]). split; [done|]. by apply orb_true_iff.
  - apply orb_false_iff in Hb as [_ Hb]. split; [done|]. split; [done|].
    exists agent, r. do 2 (split; [done|]). split; [cbn; by rewrite Hs|]. split; [done|].
    intros c r' Hc' Hr'. apply (Hleast (c, r')). by apply Hl.
Qed.

Definition demo_health : health :=
  _record_rate_limit {| rate_limit_wait_seconds := float_of_Z 30;
                        rate_limit_unknown_cooldown_seconds := float_of_Z 5 |}
    "agent_one" None 429 (float_of_Z 100) empty_health.

Lemma storm_wait_bounded_witness :
  let '(h', out) :=
    _await_rate_limit_recovery [demo_agent "agent_one" "m" "u" []] (float_of_Z 130) (float_of_Z 102)
      "chat" true demo_health in
  out = Ok true ∧ slept h' = [float_of_Z 3] ∧ _circuit h' = ∅.
Proof.
  pose proof (storm_wait_bounded [demo_agent "agent_one" "m" "u" []] (float_of_Z 130)
    (float_of_Z 102) "chat" true demo_health) as H.
  destruct (_await_rate_limit_recovery _ _ _ _ _ _) as [h' out] eqn:E.
  assert (_circuit h' = _circuit demo_health) as ->.
  { apply H. intros c u Hc%list_elem_of_singleton. subst c. vm_compute. by intros [= <-]. }
  vm_compute in E. injection E as <- <-. split; [reflexivity|]. split; reflexivity.
Defined.

(** ** Labels *)

(** Every label belongs to a recorded cooldown. *)
Definition labels_ok (h : health) : Prop :=
  ∀ a, a ∈ _rate_limit_assumed h → is_Some (od_get a (_rate_limit_until h)).

Lemma record_rate_limit_labels cfg a retry status now h :
  labels_ok h → labels_ok (_record_rate_limit cfg a retry status now h).
Proof.
  intros Hl. unfold _record_rate_limit. destruct (_ && _); [done|].
  destruct (match od_get a (_rate_limit_until h) with Some _ => _ | None => true end); [|done].
  intros b. cbn. rewrite od_get_set. case_decide; [by eauto|].
  destruct retry; cbn; intros Hb; apply Hl; set_solver.
Qed.

Lemma remaining_labels a now h :
  labels_ok h → labels_ok (_rate_limit_remaining a now h).1.
Proof.
  intros Hl. unfold _rate_limit_remaining. destruct (od_get a _) as [u|]; [|done].
  destruct (fleb _ _); [|done]. intros b. cbn. rewrite elem_of_difference, not_elem_of_singleton.
  intros [Hb Hne]. rewrite od_get_del, decide_False by done. by apply Hl.
Qed.

(** Recording a cooldown and reading one keep every "assumed" label on a
    recorded cooldown; the snapshot does not: after it dropped an expired assumed
    cooldown, the agent has no cooldown left and is still reported "assumed",
    where its documentation promises "provider". *)
Theorem snapshot_leaves_stale_label :
  (∀ cfg a retry status now h, labels_ok h → labels_ok (_record_rate_limit cfg a retry status now h)) ∧
  (∀ a now h, labels_ok h → labels_ok (_rate_limit_remaining a now h).1) ∧
  labels_ok demo_health ∧
  let '(h', snapshot) := _rate_limited_snapshot (float_of_Z 110) (float_of_Z 110) demo_health in
  snapshot = [] ∧ (_rate_limit_remaining "agent_one" (float_of_Z 110) h').2 = None ∧
  _rate_limit_cooldown_source "agent_one" h' = "assumed" ∧ ¬ labels_ok h'.
Proof.
  split; [intros; by apply record_rate_limit_labels|].
  split; [intros; by apply remaining_labels|].
  split; [by apply record_rate_limit_labels; intros a Ha%elem_of_empty|].
  destruct (_rate_limited_snapshot _ _ demo_health) as [h' snapshot] eqn:E.
  vm_compute in E. injection E as <- <-.
  split; [reflexivity|]. split; [reflexivity|]. split; [vm_compute; reflexivity|].
  intros Hl. destruct (Hl "agent_one") as [u Hu]; [by vm_compute|]. discriminate.
Qed.
