(* ===== verification/EffortProfile.v ===== *)
(** reasoning_effort_profile.py: versioned compute profiles, their validation, and
    their application to an upstream request body.

    The digest of the canonical JSON of a catalog ([hashlib.sha256] over
    [json.dumps(..., sort_keys=True)]) is a parameter. The synthetic ablation
    ([estimate_theta] and its callers) is not modelled. *)

From S2P Require Import Prelude PyString PyCollections PyFloat PyValue ModelGroup Agents.

Definition PROFILE_VERSION : string := "reasoning_effort_profile.v1".
Definition WORKFLOW_ROLES : list string :=
  ["thinker"; "worker"; "verifier"; "synthesizer"; "planner"; "judge"].
Definition REASONING_EFFORT_LEVELS : list string := ["none"; "low"; "medium"; "high"].
Definition ACCESS_LIST_SCOPES : list string := ["none"; "role"; "workflow"].
Definition UNSUPPORTED_FALLBACKS : list string := ["abstain"; "omit"; "error"].
Definition _PROFILE_KEYS : list string :=
  ["profile_version"; "reasoning_effort"; "max_output_tokens"; "max_calls"; "max_workflow_steps";
   "max_recursion_depth"; "max_worker_fan_out"; "access_list_scope"; "deadline_ms";
   "cost_token_budget"; "temperature"; "top_p"; "seed"; "unsupported_provider_fallback"].

Inductive effort_error :=
| EffortProfileError (message : string)
| OverflowErr                              (* float() of an integer beyond binary64 *)
| EffortKeyError (key : string).

Record ReasoningEffortProfile := {
  rp_reasoning_effort : string;
  rp_max_output_tokens : Z;
  rp_max_calls : Z;
  rp_max_workflow_steps : Z;
  rp_max_recursion_depth : Z;
  rp_max_worker_fan_out : Z;
  rp_access_list_scope : string;
  rp_deadline_ms : Z;
  rp_cost_token_budget : Z;
  rp_temperature : float;
  rp_top_p : float;
  rp_seed : option Z;
  rp_unsupported_provider_fallback : string;
  rp_profile_version : string;
}.

Definition default_profile : ReasoningEffortProfile :=
  {| rp_profile_version := PROFILE_VERSION; rp_reasoning_effort := "medium";
     rp_max_output_tokens := 256; rp_max_calls := 1; rp_max_workflow_steps := 4;
     rp_max_recursion_depth := 1; rp_max_worker_fan_out := 1; rp_access_list_scope := "role";
     rp_deadline_ms := 120000; rp_cost_token_budget := 1024; rp_temperature := float_lit 1 5;
     rp_top_p := f1; rp_seed := None; rp_unsupported_provider_fallback := "abstain" |}.

(** [asdict(self)]. *)
Definition as_dict (p : ReasoningEffortProfile) : list (pyval * pyval) :=
  [ (VStr "profile_version", VStr (rp_profile_version p));
    (VStr "reasoning_effort", VStr (rp_reasoning_effort p));
    (VStr "max_output_tokens", VInt (rp_max_output_tokens p));
    (VStr "max_calls", VInt (rp_max_calls p));
    (VStr "max_workflow_steps", VInt (rp_max_workflow_steps p));
    (VStr "max_recursion_depth", VInt (rp_max_recursion_depth p));
    (VStr "max_worker_fan_out", VInt (rp_max_worker_fan_out p));
    (VStr "access_list_scope", VStr (rp_access_list_scope p));
    (VStr "deadline_ms", VInt (rp_deadline_ms p));
    (VStr "cost_token_budget", VInt (rp_cost_token_budget p));
    (VStr "temperature", VFloat (rp_temperature p));
    (VStr "top_p", VFloat (rp_top_p p));
    (VStr "seed", opt_val VInt (rp_seed p));
    (VStr "unsupported_provider_fallback", VStr (rp_unsupported_provider_fallback p)) ].

(** ** Numbers *)

(** [float(n)] overflows from the midpoint above the largest binary64 number. *)
Definition float_overflows (n : Z) : bool := 2 ^ 1024 - 2 ^ 970 <=? Z.abs n.

(** [_reject_non_finite_number]. *)
Definition _reject_non_finite_number (value : pyval) (field_name : string) : res effort_error unit :=
  match value with
  | VInt n => if float_overflows n then Raise OverflowErr else Ok tt
  | VFloat x =>
      if is_finite x then Ok tt
      else Raise (EffortProfileError (String.append field_name " must be finite"))
  | _ => Raise (EffortProfileError (String.append field_name " must be a finite number"))
  end.

(** [int(x) == x] for a finite float. *)
Definition float_integral (x : float) : bool :=
  match x with
  | S754_finite _ m e => (0 <=? e) || (Z.pos m mod 2 ^ (- e) =? 0)
  | _ => true
  end.

(** An integer-valued number of the merged payload. *)
Definition integral (v : pyval) : option Z :=
  match v with
  | VInt n => Some n
  | VFloat x => if float_integral x then Some (int_of_float x) else None
  | _ => None
  end.

Definition count_field (field_name : string) (v : pyval) : res effort_error Z :=
  match _reject_non_finite_number v field_name with
  | Raise e => Raise e
  | Ok _ =>
      match integral v with
      | Some n =>
          if n <? 0
          then Raise (EffortProfileError (String.append field_name " must be a non-negative integer"))
          else Ok n
      | None => Raise (EffortProfileError (String.append field_name " must be a non-negative integer"))
      end
  end.

Definition float_field (field_name : string) (v : pyval) : res effort_error float :=
  match _reject_non_finite_number v field_name with
  | Raise e => Raise e
  | Ok _ => Ok (match v with VInt n => float_of_Z n | VFloat x => x | _ => f0 end)
  end.

Definition seed_field (v : pyval) : res effort_error (option Z) :=
  match v with
  | VNone => Ok None
  | _ =>
      match _reject_non_finite_number v "seed" with
      | Raise e => Raise e
      | Ok _ =>
          match integral v with
          | Some n => Ok (Some n)
          | None => Raise (EffortProfileError "seed must be an integer or null")
          end
      end
  end.

(** ** parse_reasoning_effort_profile *)

Definition merged (raw : list (pyval * pyval)) (key : string) : pyval :=
  default (dget key (as_dict default_profile)) (dict_get key raw).

Definition unknown_keys (raw : list (pyval * pyval)) : bool :=
  existsb (λ kv, match kv.1 with VStr k => negb (in_strs k _PROFILE_KEYS) | _ => true end) raw.

(** [value in levels], for a tuple of strings. *)
Definition member_of (v : pyval) (levels : list string) : option string :=
  match v with VStr s => if in_strs s levels then Some s else None | _ => None end.

Definition need {A} (o : option A) (message : string) : res effort_error A :=
  match o with Some a => Ok a | None => Raise (EffortProfileError message) end.

Definition parse_reasoning_effort_profile (raw : list (pyval * pyval))
    : res effort_error ReasoningEffortProfile :=
  if unknown_keys raw then Raise (EffortProfileError "unknown reasoning_effort_profile keys") else
  need (member_of (merged raw "reasoning_effort") REASONING_EFFORT_LEVELS)
    "reasoning_effort must be one of none/low/medium/high" ≫= λ effort,
  count_field "max_output_tokens" (merged raw "max_output_tokens") ≫= λ max_output,
  count_field "max_calls" (merged raw "max_calls") ≫= λ max_calls,
  count_field "max_workflow_steps" (merged raw "max_workflow_steps") ≫= λ max_steps,
  count_field "max_recursion_depth" (merged raw "max_recursion_depth") ≫= λ depth,
  count_field "max_worker_fan_out" (merged raw "max_worker_fan_out") ≫= λ fan_out,
  count_field "deadline_ms" (merged raw "deadline_ms") ≫= λ deadline,
  count_field "cost_token_budget" (merged raw "cost_token_budget") ≫= λ budget,
  float_field "temperature" (merged raw "temperature") ≫= λ temperature,
  float_field "top_p" (merged raw "top_p") ≫= λ top_p,
  seed_field (merged raw "seed") ≫= λ seed,
  require (fleb f0 temperature && fleb temperature (float_of_Z 2))
    (EffortProfileError "temperature must be between 0 and 2") ≫= λ _ : unit,
  require (fltb f0 top_p && fleb top_p f1) (EffortProfileError "top_p must be in (0, 1]")
    ≫= λ _ : unit,
  need (member_of (merged raw "access_list_scope") ACCESS_LIST_SCOPES)
    "access_list_scope must be none, role, or workflow" ≫= λ scope,
  need (member_of (merged raw "unsupported_provider_fallback") UNSUPPORTED_FALLBACKS)
    "unsupported_provider_fallback must be abstain, omit, or error" ≫= λ fallback,
  require (negb ((max_calls <? 1) || (max_steps <? 1)))
    (EffortProfileError "max_calls and max_workflow_steps must be at least 1") ≫= λ _ : unit,
  need (member_of (merged raw "profile_version") [PROFILE_VERSION]) "unsupported profile_version"
    ≫= λ version,
  Ok {| rp_profile_version := version; rp_reasoning_effort := effort;
        rp_max_output_tokens := max_output; rp_max_calls := max_calls;
        rp_max_workflow_steps := max_steps; rp_max_recursion_depth := depth;
        rp_max_worker_fan_out := fan_out; rp_access_list_scope := scope;
        rp_deadline_ms := deadline; rp_cost_token_budget := budget;
        rp_temperature := temperature; rp_top_p := top_p; rp_seed := seed;
        rp_unsupported_provider_fallback := fallback |}.

(** The catalog of issue #568. *)
Definition catalog_profile (effort : string) : list (pyval * pyval) :=
  [ (VStr "max_output_tokens", VInt 256); (VStr "max_calls", VInt 1);
    (VStr "max_workflow_steps", VInt 4); (VStr "max_recursion_depth", VInt 1);
    (VStr "max_worker_fan_out", VInt 1); (VStr "cost_token_budget", VInt 1024);
    (VStr "temperature", VFloat (float_lit 1 5)); (VStr "top_p", VFloat f1);
    (VStr "seed", VInt 7); (VStr "reasoning_effort", VStr effort) ].

Definition default_role_effort_catalog : res effort_error (list (string * ReasoningEffortProfile)) :=
  parse_reasoning_effort_profile (catalog_profile "high") ≫= λ high,
  parse_reasoning_effort_profile (catalog_profile "medium") ≫= λ medium,
  Ok [("thinker", high); ("worker", medium); ("verifier", high); ("synthesizer", medium);
      ("planner", high); ("judge", high)].

(** ** apply_request_profile *)

(** [payload.setdefault(k, v)]. *)
Definition dict_setdefault (k : string) (v : pyval) (d : list (pyval * pyval))
    : list (pyval * pyval) :=
  match dict_get k d with Some _ => d | None => dict_set k v d end.

(** Both native spellings of the effort leave the payload. *)
Definition drop_effort (payload : list (pyval * pyval)) : list (pyval * pyval) :=
  let payload := dict_del "reasoning_effort" payload in
  match dget "reasoning" payload with
  | VDict options =>
      match dict_get "effort" options with
      | None => payload
      | Some _ =>
          match dict_del "effort" options with
          | [] => dict_del "reasoning" payload
          | remaining => dict_set "reasoning" (VDict remaining) payload
          end
      end
  | _ => payload
  end.

Definition apply_request_profile (payload : list (pyval * pyval))
    (profile : option ReasoningEffortProfile) (supports_reasoning_effort : pyval)
    (default_max_output_tokens : option Z) : res effort_error (list (pyval * pyval)) :=
  match profile with
  | None =>
      Ok (match default_max_output_tokens with
          | Some n => dict_setdefault "max_tokens" (VInt n) payload
          | None => payload
          end)
  | Some p =>
      parse_reasoning_effort_profile (as_dict p) ≫= λ validated,
      require (match supports_reasoning_effort with VNone | VBool _ => true | _ => false end)
        (EffortProfileError "supports_reasoning_effort must be a boolean or null") ≫= λ _ : unit,
      require (is_true_val supports_reasoning_effort ||
               String.eqb (rp_unsupported_provider_fallback validated) "omit")
        (EffortProfileError "provider reasoning_effort support is unproven") ≫= λ _ : unit,
      let payload := dict_set "max_tokens" (VInt (rp_max_output_tokens validated)) payload in
      let payload := dict_set "temperature" (VFloat (rp_temperature validated)) payload in
      let payload := dict_set "top_p" (VFloat (rp_top_p validated)) payload in
      let payload := match rp_seed validated with
                     | Some n => dict_set "seed" (VInt n) payload
                     | None => payload
                     end in
      Ok (if is_true_val supports_reasoning_effort
          then dict_set "reasoning_effort" (VStr (rp_reasoning_effort validated)) payload
          else drop_effort payload)
  end.

(** ** snapshot_role_effort_catalog *)

Record EffortCatalogSnapshot := {
  es_profile_version : string;
  es_snapshot_hash : string;
  es_role_profiles : list (string * list (pyval * pyval));
}.

Section snapshot.
Context (canonical_digest : string → list (string * list (pyval * pyval)) → string).

Definition snapshot_role_effort_catalog (catalog : list (string * ReasoningEffortProfile))
    : res effort_error EffortCatalogSnapshot :=
  if negb (forallb (λ r, in_strs r catalog.*1) WORKFLOW_ROLES &&
           forallb (λ r, in_strs r WORKFLOW_ROLES) catalog.*1)
  then Raise (EffortProfileError "catalog must bind exactly the workflow roles") else
  map_res (λ role,
    match od_get role catalog with
    | None => Raise (EffortProfileError "missing role")
    | Some p => (λ q, (role, as_dict q)) <$> parse_reasoning_effort_profile (as_dict p)
    end) WORKFLOW_ROLES ≫= λ role_profiles,
  Ok {| es_profile_version := PROFILE_VERSION;
        es_snapshot_hash := canonical_digest PROFILE_VERSION role_profiles;
        es_role_profiles := role_profiles |}.
End snapshot.

(** ** The legacy diagnostic's token estimate *)

Definition _EFFORT_RANK (effort : string) : option Z :=
  if String.eqb effort "none" then Some 0 else if String.eqb effort "low" then Some 1
  else if String.eqb effort "medium" then Some 2 else if String.eqb effort "high" then Some 3
  else None.

Definition _estimated_tokens_used (reasoning_effort : string)
    (extra_workflow_steps extra_recursion_depth budget_tokens : Z) : res effort_error Z :=
  match _EFFORT_RANK reasoning_effort with
  | None => Raise (EffortKeyError reasoning_effort)
  | Some rank =>
      let used := 128 + 64 * rank + 48 * extra_workflow_steps + 32 * extra_recursion_depth in
      if budget_tokens <? used
      then Raise (EffortProfileError "estimated token use exceeds equal-budget cap") else Ok used
  end.

Definition production_default_change_allowed (report : pyval) : bool := false.

(** ** Lemmas: numbers *)

Lemma int_of_float_bound x :
  valid_binary 53 1024 x = true → float_overflows (int_of_float x) = false.
Proof.
  intros Hv. unfold float_overflows. apply Z.leb_gt.
  destruct x as [s|s| |s m e]; [by vm_compute..|]. cbn [valid_binary] in Hv.
  unfold bounded in Hv. bools. unfold canonical_mantissa, fexp, emin in *.
  assert (Hd : digits m <= 53) by (unfold digits in *; lia).
  destruct (digits_bounds m) as [_ Hm].
  assert (Hm' : Z.pos m < 2 ^ 53).
  { eapply Z.lt_le_trans; [exact Hm|]. apply Z.pow_le_mono_r; lia. }
  assert (Habs : Z.abs (int_of_float (S754_finite s m e)) =
                 if 0 <=? e then Z.pos m * 2 ^ e else Z.pos m / 2 ^ (- e)).
  { cbn. destruct (0 <=? e) eqn:He.
    - assert (0 < 2 ^ e) by (apply Z.pow_pos_nonneg; lia). destruct s; nia.
    - assert (0 <= Z.pos m / 2 ^ (- e)) by (apply Z.div_pos; [lia|apply Z.pow_pos_nonneg; lia]).
      destruct s; lia. }
  rewrite Habs. destruct (0 <=? e) eqn:He.
  - bools. assert (2 ^ e <= 2 ^ 971) by (apply Z.pow_le_mono_r; lia).
    assert (0 < 2 ^ e) by (apply Z.pow_pos_nonneg; lia).
    apply Z.le_lt_trans with ((2 ^ 53 - 1) * 2 ^ 971); [nia|]. by vm_compute.
  - assert (Z.pos m / 2 ^ (- e) <= Z.pos m).
    { apply Z.div_le_upper_bound; [apply Z.pow_pos_nonneg; lia|].
      assert (0 < 2 ^ (- e)) by (apply Z.pow_pos_nonneg; lia). nia. }
    eapply Z.le_lt_trans; [eassumption|]. eapply Z.lt_trans; [exact Hm'|]. by vm_compute.
Qed.

Lemma bounded_finite x y : fleb f0 x && fleb x (float_of_Z y) = true → 0 <= y <= 2 → is_finite x = true.
Proof.
  intros H Hy. bools. assert (y = 0 ∨ y = 1 ∨ y = 2) as [->|[->| ->]] by lia;
    by destruct x as [|[]| |].
Qed.

(** A floating-point value of the payload is a binary64 number. *)
Definition valid_val (v : pyval) : Prop :=
  match v with VFloat x => valid_binary 53 1024 x = true | _ => True end.
Definition valid_floats (d : list (pyval * pyval)) : Prop := Forall (λ kv, valid_val kv.2) d.

Lemma dict_get_valid d k v : valid_floats d → dict_get k d = Some v → valid_val v.
Proof.
  induction 1 as [|[k' v'] d Hv _ IH]; cbn; [done|]. destruct (key_is k k'); [|done].
  by intros [= <-].
Qed.

Lemma merged_valid raw k : valid_floats raw → valid_val (merged raw k).
Proof.
  intros Hv. unfold merged. destruct (dict_get k raw) as [v|] eqn:Hk.
  - by eapply dict_get_valid.
  - unfold dget. destruct (dict_get k (as_dict default_profile)) as [v|] eqn:Hd; [|exact I].
    eapply (dict_get_valid (as_dict default_profile)); [|exact Hd].
    unfold valid_floats. vm_compute. by repeat constructor.
Qed.

Definition count_ok (n : Z) : Prop := 0 <= n ∧ float_overflows n = false.

Lemma integral_bound v n :
  valid_val v → _reject_non_finite_number v "" = Ok tt → integral v = Some n → float_overflows n = false.
Proof.
  destruct v as [| |k|x| | | |]; cbn; try done.
  - intros _. destruct (float_overflows k) eqn:Hk; [done|]. by intros _ [= <-].
  - intros Hv _. destruct (float_integral x); [|done]. intros [= <-]. by apply int_of_float_bound.
Qed.

Lemma reject_field f g v : _reject_non_finite_number v f = Ok tt → _reject_non_finite_number v g = Ok tt.
Proof. destruct v; cbn; try done; by case_match. Qed.

Lemma count_field_ok f v n : valid_val v → count_field f v = Ok n → count_ok n.
Proof.
  intros Hv. unfold count_field. destruct (_reject_non_finite_number v f) as [[]|] eqn:Hr; [|done].
  destruct (integral v) as [k|] eqn:Hi; [|done]. destruct (k <? 0) eqn:Hk; [done|]. intros [= <-].
  split; [by apply Z.ltb_ge|]. eapply integral_bound; [done|by eapply reject_field|done].
Qed.

Lemma count_field_int f n : count_ok n → count_field f (VInt n) = Ok n.
Proof. intros [Hn Ho]. unfold count_field. cbn. rewrite Ho. by rewrite (proj2 (Z.ltb_ge _ _)). Qed.

Lemma seed_field_ok v o :
  valid_val v → seed_field v = Ok o → ∀ n, o = Some n → float_overflows n = false.
Proof.
  intros Hv Hs n ->. unfold seed_field in Hs.
  destruct v as [| |k|x| | | |] eqn:Hvv; try done; rewrite <- Hvv in *.
  all: destruct (_reject_non_finite_number v "seed") as [[]|] eqn:Hr; [|done].
  all: destruct (integral v) as [m|] eqn:Hi; [|done]; injection Hs as ->.
  all: eapply integral_bound; [exact Hv|by eapply reject_field|done].
Qed.

Lemma seed_field_opt o :
  (∀ n, o = Some n → float_overflows n = false) → seed_field (opt_val VInt o) = Ok o.
Proof. intros H. destruct o as [n|]; [|done]. cbn. by rewrite (H n). Qed.

(** ** Lemmas: profiles *)

Record profile_wf (p : ReasoningEffortProfile) : Prop := {
  pw_version : rp_profile_version p = PROFILE_VERSION;
  pw_effort : rp_reasoning_effort p ∈ REASONING_EFFORT_LEVELS;
  pw_counts : Forall count_ok
    [rp_max_output_tokens p; rp_max_calls p; rp_max_workflow_steps p; rp_max_recursion_depth p;
     rp_max_worker_fan_out p; rp_deadline_ms p; rp_cost_token_budget p];
  pw_positive : 1 <= rp_max_calls p ∧ 1 <= rp_max_workflow_steps p;
  pw_scope : rp_access_list_scope p ∈ ACCESS_LIST_SCOPES;
  pw_temperature : fleb f0 (rp_temperature p) && fleb (rp_temperature p) (float_of_Z 2) = true;
  pw_top_p : fltb f0 (rp_top_p p) && fleb (rp_top_p p) f1 = true;
  pw_seed : ∀ n, rp_seed p = Some n → float_overflows n = false;
  pw_fallback : rp_unsupported_provider_fallback p ∈ UNSUPPORTED_FALLBACKS;
}.

Lemma need_member_of v levels m s :
  need (member_of v levels) m = Ok s ↔ v = VStr s ∧ s ∈ levels.
Proof.
  unfold need, member_of. destruct v as [| | | |t| | |]; try (split; [done|by intros [? _]]).
  rewrite <- in_strs_spec. destruct (in_strs t levels) eqn:Ht; split.
  - by intros [= <-].
  - by intros [[= ->] _].
  - done.
  - intros [[= ->] ?]. congruence.
Qed.

Lemma parse_profile_wf raw p :
  valid_floats raw → parse_reasoning_effort_profile raw = Ok p → profile_wf p.
Proof.
  intros Hv. unfold parse_reasoning_effort_profile. destruct (unknown_keys raw); [done|]. intros H.
  apply bind_Ok_inv in H as (eff & [_ Heff]%need_member_of & H).
  do 7 (let n := fresh "n" in let Hn := fresh "Hn" in
        apply bind_Ok_inv in H as (n & Hn%count_field_ok & H); [|by apply merged_valid]).
  apply bind_Ok_inv in H as (t & _ & H). apply bind_Ok_inv in H as (tp & _ & H).
  apply bind_Ok_inv in H as (sd & Hsd & H).
  apply bind_Ok_inv in H as (? & Ht%require_Ok & H). apply bind_Ok_inv in H as (? & Htp%require_Ok & H).
  apply bind_Ok_inv in H as (sc & [_ Hsc]%need_member_of & H).
  apply bind_Ok_inv in H as (fb & [_ Hfb]%need_member_of & H).
  apply bind_Ok_inv in H as (? & Hpos%require_Ok & H).
  apply bind_Ok_inv in H as (ver & [_ Hver%list_elem_of_singleton]%need_member_of & H).
  injection H as <-. apply negb_true_iff, orb_false_iff in Hpos as [?%Z.ltb_ge ?%Z.ltb_ge].
  split; cbn [rp_profile_version rp_reasoning_effort rp_max_output_tokens rp_max_calls
    rp_max_workflow_steps rp_max_recursion_depth rp_max_worker_fan_out rp_access_list_scope
    rp_deadline_ms rp_cost_token_budget rp_temperature rp_top_p rp_seed
    rp_unsupported_provider_fallback]; try done.
  - repeat (apply Forall_cons; split; [done|]). by apply Forall_nil.
  - intros k ->. eapply seed_field_ok; [|exact Hsd|done]. by apply merged_valid.
Qed.

Lemma parse_as_dict p : profile_wf p → parse_reasoning_effort_profile (as_dict p) = Ok p.
Proof.
  intros [Hver Heff Hc [Hp1 Hp2] Hsc Ht Htp Hsd Hfb].
  repeat (apply Forall_cons in Hc as [? Hc]).
  unfold parse_reasoning_effort_profile.
  change (unknown_keys (as_dict p)) with false. cbv iota.
  assert (Hm : ∀ k v, dict_get k (as_dict p) = Some v → merged (as_dict p) k = v).
  { intros k v Hk. unfold merged. by rewrite Hk. }
  rewrite (Hm "reasoning_effort" (VStr (rp_reasoning_effort p)) eq_refl).
  rewrite (proj2 (need_member_of _ _ _ (rp_reasoning_effort p)) (conj eq_refl Heff)). cbn [mbind res_bind].
  rewrite (Hm "max_output_tokens" (VInt (rp_max_output_tokens p)) eq_refl), count_field_int by done.
  rewrite (Hm "max_calls" (VInt (rp_max_calls p)) eq_refl), count_field_int by done.
  rewrite (Hm "max_workflow_steps" (VInt (rp_max_workflow_steps p)) eq_refl), count_field_int by done.
  rewrite (Hm "max_recursion_depth" (VInt (rp_max_recursion_depth p)) eq_refl), count_field_int by done.
  rewrite (Hm "max_worker_fan_out" (VInt (rp_max_worker_fan_out p)) eq_refl), count_field_int by done.
  rewrite (Hm "deadline_ms" (VInt (rp_deadline_ms p)) eq_refl), count_field_int by done.
  rewrite (Hm "cost_token_budget" (VInt (rp_cost_token_budget p)) eq_refl), count_field_int by done.
  cbn [mbind res_bind].
  rewrite (Hm "temperature" (VFloat (rp_temperature p)) eq_refl).
  rewrite (Hm "top_p" (VFloat (rp_top_p p)) eq_refl).
  rewrite (Hm "seed" (opt_val VInt (rp_seed p)) eq_refl), seed_field_opt by done.
  assert (is_finite (rp_temperature p) = true) as Hft by (by apply (bounded_finite _ 2)).
  assert (is_finite (rp_top_p p) = true) as Hfp.
  { apply (bounded_finite _ 1); [|lia]. bools. apply andb_true_iff. split; [|done].
    by destruct (rp_top_p p) as [|[]| |[]]. }
  unfold float_field. cbn [_reject_non_finite_number]. rewrite Hft, Hfp. cbn [mbind res_bind].
  rewrite Ht, Htp. cbn [require mbind res_bind].
  rewrite (Hm "access_list_scope" (VStr (rp_access_list_scope p)) eq_refl).
  rewrite (proj2 (need_member_of _ _ _ (rp_access_list_scope p)) (conj eq_refl Hsc)).
  cbn [mbind res_bind].
  rewrite (Hm "unsupported_provider_fallback" (VStr (rp_unsupported_provider_fallback p)) eq_refl).
  rewrite (proj2 (need_member_of _ _ _ (rp_unsupported_provider_fallback p)) (conj eq_refl Hfb)).
  cbn [mbind res_bind]. rewrite !(proj2 (Z.ltb_ge _ _)) by done. cbn [negb orb require mbind res_bind].
  rewrite (Hm "profile_version" (VStr (rp_profile_version p)) eq_refl).
  rewrite (proj2 (need_member_of _ [PROFILE_VERSION] _ (rp_profile_version p)))
    by (split; [done|by apply list_elem_of_singleton]).
  cbn [mbind res_bind]. by destruct p.
Qed.

(** An accepted profile is safe — its effort, scope and fallback are known
    words, its counts are non-negative integers with at least one call and step,
    0 <= temperature <= 2 and 0 < top_p <= 1, no NaN, no infinity — and parsing
    is idempotent: an accepted profile's own dictionary is accepted unchanged. *)
Theorem parse_profile_sound raw p :
  valid_floats raw → parse_reasoning_effort_profile raw = Ok p →
  profile_wf p ∧ parse_reasoning_effort_profile (as_dict p) = Ok p.
Proof. intros Hv Hp%parse_profile_wf; [|done]. split; [done|]. by apply parse_as_dict. Qed.

Lemma parse_profile_sound_witness :
  ∃ p, parse_reasoning_effort_profile (catalog_profile "high") = Ok p ∧
       parse_reasoning_effort_profile (as_dict p) = Ok p.
Proof.
  eexists. split; [vm_compute; reflexivity|].
  eapply (parse_profile_sound (catalog_profile "high")); [|vm_compute; reflexivity].
  unfold valid_floats. vm_compute. by repeat constructor.
Defined.

(** ** Applying a profile *)

Definition profile_keys : list string :=
  ["max_tokens"; "temperature"; "top_p"; "seed"; "reasoning_effort"; "reasoning"].

Lemma drop_effort_get k payload :
  k ≠ "reasoning_effort" → k ≠ "reasoning" → dict_get k (drop_effort payload) = dict_get k payload.
Proof.
  intros H1 H2. unfold drop_effort.
  assert (dict_get k (dict_del "reasoning_effort" payload) = dict_get k payload) as Hd
    by (by rewrite dict_get_del, decide_False).
  destruct (dget "reasoning" _) as [| | | | | | |options]; try done.
  destruct (dict_get "effort" options); [|done].
  destruct (dict_del "effort" options).
  - by rewrite dict_get_del, decide_False.
  - by rewrite dict_get_set, decide_False.
Qed.

Lemma drop_effort_effort payload :
  dict_get "reasoning_effort" (drop_effort payload) = None ∧
  ∀ options, dict_get "reasoning" (drop_effort payload) = Some (VDict options) →
    dict_get "effort" options = None.
Proof.
  unfold drop_effort. set (q := dict_del "reasoning_effort" payload).
  assert (Hq : dict_get "reasoning_effort" q = None)
    by (subst q; by rewrite dict_get_del, decide_True).
  unfold dget. destruct (dict_get "reasoning" q) as [v|] eqn:Hr; cbn [default];
    [|by split; [|rewrite Hr]].
  destruct v as [| | | | | | |options]; try (split; [done|intros o Ho; cbn in Ho; congruence]).
  cbn. destruct (dict_get "effort" options) eqn:He.
  2: { split; [done|]. intros o Ho. congruence. }
  destruct (dict_del "effort" options) as [|kv rest] eqn:Hd.
  - rewrite !dict_get_del. split; [by rewrite decide_False|].
    intros o. by rewrite decide_True.
  - split; [by rewrite dict_get_set, decide_False|]. intros o.
    rewrite dict_get_set, decide_True by done. intros [= <-]. rewrite <- Hd.
    by rewrite dict_get_del, decide_True.
Qed.

(** Applying a profile fails closed and touches only its own knobs: the
    provider-native effort is sent exactly when support is literally proven;
    without proof the call is refused unless the profile's fallback is "omit",
    and then neither native spelling survives, even inside a nested "reasoning"
    object; every other key of the caller's payload is untouched. *)
Theorem apply_profile_fails_closed payload p supports default_max out :
  apply_request_profile payload (Some p) supports default_max = Ok out →
  (supports = VBool true →
     dict_get "reasoning_effort" out = Some (VStr (rp_reasoning_effort p))) ∧
  (supports ≠ VBool true →
     rp_unsupported_provider_fallback p = "omit" ∧ dict_get "reasoning_effort" out = None ∧
     ∀ options, dict_get "reasoning" out = Some (VDict options) → dict_get "effort" options = None) ∧
  dict_get "max_tokens" out = Some (VInt (rp_max_output_tokens p)) ∧
  (∀ k, k ∉ profile_keys → dict_get k out = dict_get k payload).
Proof.
  unfold apply_request_profile. intros H.
  apply bind_Ok_inv in H as (q & Hq & H).
  apply bind_Ok_inv in H as (? & Hty%require_Ok & H).
  apply bind_Ok_inv in H as (? & Hsup%require_Ok & H). injection H as <-.
  assert (q = p) as ->.
  { unfold parse_reasoning_effort_profile in Hq. destruct (unknown_keys (as_dict p)); [done|].
    destruct p as [p1 p2 p3 p4 p5 p6 p7 p8 p9 p10 p11 p12 p13 p14].
    assert (Hcount : ∀ f k n, count_field f (VInt k) = Ok n → n = k).
    { intros f k n. unfold count_field. cbn. destruct (float_overflows k); [done|].
      destruct (k <? 0); [done|]. by intros [= <-]. }
    assert (Hfloat : ∀ f x y, float_field f (VFloat x) = Ok y → y = x).
    { intros f a b. unfold float_field. cbn. destruct (is_finite a); [|done]. by intros [= <-]. }
    assert (Hseed : ∀ o o', seed_field (opt_val VInt o) = Ok o' → o' = o).
    { intros [k|] o'; cbn; [|by intros [= <-]]. destruct (float_overflows k); [done|].
      by intros [= <-]. }
    apply bind_Ok_inv in Hq as (? & [[= <-] _]%need_member_of & Hq).
    do 7 (apply bind_Ok_inv in Hq as (? & ->%Hcount & Hq)).
    do 2 (apply bind_Ok_inv in Hq as (? & ->%Hfloat & Hq)).
    apply bind_Ok_inv in Hq as (? & ->%Hseed & Hq).
    do 2 (apply bind_Ok_inv in Hq as (? & _ & Hq)).
    do 2 (apply bind_Ok_inv in Hq as (? & [[= <-] _]%need_member_of & Hq)).
    apply bind_Ok_inv in Hq as (? & _ & Hq).
    apply bind_Ok_inv in Hq as (? & [[= <-] _]%need_member_of & Hq).
    by injection Hq as <-. }
  set (base := match rp_seed p with Some n => _ | None => _ end).
  assert (Hbase : ∀ k, k ∉ profile_keys → dict_get k base = dict_get k payload).
  { intros k Hk. unfold profile_keys in Hk. subst base.
    repeat (apply not_elem_of_cons in Hk as [? Hk]).
    destruct (rp_seed p); by rewrite !dict_get_set, !decide_False. }
  assert (Hmax : dict_get "max_tokens" base = Some (VInt (rp_max_output_tokens p))).
  { subst base. destruct (rp_seed p); by rewrite !dict_get_set. }
  destruct (is_true_val supports) eqn:Ht.
  - assert (supports = VBool true) as -> by (by destruct supports as [|[]| | | | | |]).
    split; [intros _; by rewrite dict_get_set, decide_True|]. split; [done|].
    split; [by rewrite dict_get_set, decide_False|]. intros k Hk.
    rewrite dict_get_set, decide_False; [by apply Hbase|]. intros ->. apply Hk. set_solver.
  - split; [by intros ->|]. split; [intros _|split].
    + split; [cbn in Hsup; by apply String.eqb_eq|]. apply drop_effort_effort.
    + by rewrite drop_effort_get.
    + intros k Hk. rewrite drop_effort_get; [by apply Hbase|..]; intros ->; apply Hk; set_solver.
Qed.

Definition omit_profile : ReasoningEffortProfile :=
  {| rp_profile_version := PROFILE_VERSION; rp_reasoning_effort := "high";
     rp_max_output_tokens := 256; rp_max_calls := 1; rp_max_workflow_steps := 4;
     rp_max_recursion_depth := 1; rp_max_worker_fan_out := 1; rp_access_list_scope := "role";
     rp_deadline_ms := 120000; rp_cost_token_budget := 1024; rp_temperature := float_lit 1 5;
     rp_top_p := f1; rp_seed := Some 7; rp_unsupported_provider_fallback := "omit" |}.

Definition nested_payload : list (pyval * pyval) :=
  [(VStr "reasoning", VDict [(VStr "effort", VStr "low"); (VStr "summary", VStr "auto")]);
   (VStr "model", VStr "m")].

Lemma apply_profile_fails_closed_witness :
  ∃ out, apply_request_profile nested_payload (Some omit_profile) VNone None = Ok out ∧
    dict_get "reasoning" out = Some (VDict [(VStr "summary", VStr "auto")]) ∧
    dict_get "model" out = Some (VStr "m").
Proof.
  eexists. split; [vm_compute; reflexivity|]. split; [reflexivity|].
  eapply (apply_profile_fails_closed nested_payload omit_profile VNone None);
    [vm_compute; reflexivity|].
  unfold profile_keys. set_solver.
Defined.

(** ** Snapshots *)

Lemma od_get_perm {V} (d d' : list (string * V)) k :
  od_wf d → d ≡ₚ d' → od_get k d = od_get k d'.
Proof.
  intros Hwf Hp. assert (Hwf' : od_wf d') by (unfold od_wf in *; by rewrite <- Hp).
  destruct (od_get k d) as [v|] eqn:Hk.
  - apply od_get_Some_elem in Hk. rewrite Hp in Hk. symmetry. by apply od_get_in.
  - destruct (od_get k d') as [v|] eqn:Hk'; [|done].
    assert (k ∈ d'.*1) as Hin by (apply od_get_elem; by eexists).
    rewrite <- Hp in Hin. apply od_get_elem in Hin as [w Hw]. congruence.
Qed.

(** The replayable snapshot of a role catalog depends on what the roles are
    bound to and not on the dictionary's order, records exactly the workflow
    roles, and stores each profile in its canonical, re-parseable form. *)
Theorem snapshot_canonical digest catalog catalog' s :
  od_wf catalog → catalog ≡ₚ catalog' →
  snapshot_role_effort_catalog digest catalog = Ok s →
  snapshot_role_effort_catalog digest catalog' = Ok s ∧
  (es_role_profiles s).*1 = WORKFLOW_ROLES ∧
  es_snapshot_hash s = digest PROFILE_VERSION (es_role_profiles s).
Proof.
  intros Hwf Hp Hs. split.
  - rewrite <- Hs. unfold snapshot_role_effort_catalog.
    assert (Hin : ∀ r, in_strs r catalog'.*1 = in_strs r catalog.*1).
    { intros r. apply eq_true_iff_eq. rewrite !in_strs_spec. by rewrite Hp. }
    assert (H1 : forallb (λ r, in_strs r catalog'.*1) WORKFLOW_ROLES =
                 forallb (λ r, in_strs r catalog.*1) WORKFLOW_ROLES) by (cbn; by rewrite !Hin).
    assert (H2 : forallb (λ r, in_strs r WORKFLOW_ROLES) catalog'.*1 =
                 forallb (λ r, in_strs r WORKFLOW_ROLES) catalog.*1).
    { apply eq_true_iff_eq. rewrite !forallb_forall. setoid_rewrite <- list_elem_of_In.
      by setoid_rewrite Hp. }
    rewrite H1, H2. cbn [map_res WORKFLOW_ROLES].
    by rewrite !(od_get_perm catalog catalog') by done.
  - unfold snapshot_role_effort_catalog in Hs. destruct (negb _); [done|].
    apply bind_Ok_inv in Hs as (l & Hl & [= <-]). cbn. split; [|done].
    apply map_res_Forall2 in Hl. clear -Hl.
    induction Hl as [|r y rs ys Hy _ IH]; [done|]. cbn. f_equal; [|done].
    destruct (od_get r catalog); [|done].
    destruct (parse_reasoning_effort_profile _); [|done]. by injection Hy as <-.
Qed.

Definition two_orders : list (string * ReasoningEffortProfile) :=
  [("thinker", omit_profile); ("worker", default_profile); ("verifier", omit_profile);
   ("synthesizer", omit_profile); ("planner", omit_profile); ("judge", omit_profile)].

Lemma snapshot_canonical_witness :
  ∃ s, snapshot_role_effort_catalog (λ v l, str_of_Z (Z.of_nat (length l))) (rev two_orders) = Ok s ∧
       es_snapshot_hash s = "6".
Proof.
  eexists. split.
  - eapply (snapshot_canonical (λ v l, str_of_Z (Z.of_nat (length l))) two_orders (rev two_orders)).
    + unfold od_wf. apply (bool_decide_unpack _). by vm_compute.
    + apply Permutation_rev.
    + vm_compute. reflexivity.
  - vm_compute. reflexivity.
Defined.
