(* ===== verification/Ranking.v ===== *)
(** orchestrator.py: which agents may serve a request and in which order.

    What comes from outside the ranking is an argument: the semantic affinities
    (cosine similarities of embeddings a provider computed), the candidates the
    psychometric evidence ranks, and the URL parser. *)

From Stdlib Require Import Ascii.
From S2P Require Import Prelude PyString PyCollections PyFloat PyValue Regex ModelGroup.
From S2P Require Import EndpointRace Agents.

(** ** The active request's policy *)

(** [urlparse(value)] with its [hostname] and [port] properties; a [ValueError]
    of any of the three is [None]. *)
Record parsed_url := {
  pu_scheme : string;
  pu_hostname : string;          (* "" for None *)
  pu_port : option Z;
  pu_userinfo : bool;            (* a username or a password *)
  pu_extra : bool;               (* params, a query or a fragment *)
  pu_path : string;
}.

Definition rstrip_char (p : ascii → bool) (s : string) : string :=
  list_str (rev (drop_while p (rev (str_list s)))).

Definition str_endswith (p s : string) : bool :=
  str_startswith (list_str (rev (str_list p))) (list_str (rev (str_list s))).

Definition removesuffix (p s : string) : string :=
  if str_endswith p s then str_take (str_len s - str_len p) s else s.

Section endpoint.
Context (urlparse : string → option parsed_url).

(** [normalize_endpoint_selector]; [None] is [EndpointUnavailableError]. *)
Definition normalize_endpoint_selector (value : string) : option string :=
  match urlparse value with
  | None => None
  | Some parsed =>
      let scheme := str_casefold (pu_scheme parsed) in
      if negb (in_strs scheme ["http"; "https"]) || negb (str_truthy (pu_hostname parsed)) ||
         pu_userinfo parsed || pu_extra parsed
      then None else
      let host := str_casefold (pu_hostname parsed) in
      let host := if str_contains ":" host then str_join "" ["["; host; "]"] else host in
      let host :=
        match pu_port parsed with
        | Some port =>
            if port =? (if String.eqb scheme "https" then 443 else 80) then host
            else str_join "" [host; ":"; str_of_Z port]
        | None => host
        end in
      let path := removesuffix "/v1" (rstrip_char (λ c, ord c =? 47) (pu_path parsed)) in
      (* urlunsplit((scheme, host, path, "", "")) *)
      Some (str_join "" [scheme; "://"; host;
              (if str_truthy path && negb (str_startswith "/" path) then "/" else ""); path])
  end.

Definition _configured_endpoint_matches (value normalized : string) : bool :=
  match normalize_endpoint_selector value with
  | Some n => String.eqb n normalized
  | None => false
  end.

(** The request-scoped context variables. *)
Record request_ctx := {
  rq_zdr_only : bool;
  rq_endpoint_agent_ids : option (list string);
  rq_endpoint_identity : option string;
}.

Definition _agent_matches_request_endpoint (rq : request_ctx) (a : ModelAgent) : bool :=
  match rq_endpoint_agent_ids rq, rq_endpoint_identity rq with
  | Some ids, Some identity =>
      in_strs (id a) ids && _configured_endpoint_matches (base_url a) identity
  | None, None => true
  | _, _ => false
  end.
End endpoint.

Definition _zdr_agent_allowed (rq : request_ctx) (a : ModelAgent) : bool :=
  negb (rq_zdr_only rq) || (has_tag "privacy:zdr" a && negb (has_tag "privacy:no_zdr" a)).

(** ** The static key *)

Definition ROLE_TAGS (role : string) : list string :=
  if String.eqb role "thinker" then ["planning"; "reasoning"; "research"]
  else if String.eqb role "worker" then ["coding"; "implementation"; "reasoning"]
  else if String.eqb role "verifier" then ["verification"; "security"; "review"; "debugging"]
  else if String.eqb role "judge" then ["verification"; "security"; "review"; "debugging"]
  else if String.eqb role "synthesizer" then ["writing"; "reasoning"; "planning"]
  else if String.eqb role "embedding" then ["embedding"]
  else [].

(** The tuple [(-role_fit, -priority, has_affinity, negated_affinity, id)]. *)
Record rank_key := {
  rk_fit : Z;
  rk_priority : Z;
  rk_unmeasured : Z;
  rk_affinity : float;
  rk_id : string;
}.

Definition _static_rank_key (role : string) (affinity : option float) (a : ModelAgent) : rank_key :=
  {| rk_fit := if existsb (λ t, in_strs t (ROLE_TAGS role)) (tags a) then -1 else 0;
     rk_priority := - priority a;
     rk_unmeasured := match affinity with None => 1 | Some _ => 0 end;
     rk_affinity := match affinity with None => f0 | Some x => fopp x end;
     rk_id := id a |}.

(** Python's [k < k'] on the tuples: the first components that differ decide. *)
Definition rank_key_lt (k k' : rank_key) : bool :=
  if negb (rk_fit k =? rk_fit k') then rk_fit k <? rk_fit k' else
  if negb (rk_priority k =? rk_priority k') then rk_priority k <? rk_priority k' else
  if negb (rk_unmeasured k =? rk_unmeasured k') then rk_unmeasured k <? rk_unmeasured k' else
  if negb (feqb (rk_affinity k) (rk_affinity k')) then fltb (rk_affinity k) (rk_affinity k') else
  if negb (String.eqb (rk_id k) (rk_id k')) then String.ltb (rk_id k) (rk_id k') else false.

(** ** Measured order *)

Definition excluded_for (role : string) (a : ModelAgent) : bool :=
  in_strs role (provider_exclusions a).

(** The two ledgers with their constructors' settings. *)
Record ledgers := {
  lg_group_cfg : router_config;
  lg_group : group_router;
  lg_quality_cfg : router_config;
  lg_quality : group_router;
}.

Definition _measured_member_order (lg : ledgers) (member_ids : list string)
    : res string (list string) :=
  if existsb (λ m, 0 <? member_observation_count (lg_quality lg) m) member_ids
  then ranked_member_ids (lg_quality_cfg lg) (lg_quality lg) member_ids
  else ranked_member_ids (lg_group_cfg lg) (lg_group lg) member_ids.

(** [{member.id: member for member in members}]: the last member of an id, at its
    first position. *)
Definition by_id (members : list ModelAgent) : list (string * ModelAgent) :=
  fold_left (λ d m, od_set (id m) m d) members [].

(** The groups dictionary of a partition, by group or by single agent. *)
Definition group_key (a : ModelAgent) : res string string :=
  if str_truthy (group_name a) then canonical_group_name (group_name a)
  else Ok (String.append "agent:" (id a)).

Fixpoint add_to_group (key : string) (a : ModelAgent) (groups : list (string * list ModelAgent))
    : list (string * list ModelAgent) :=
  match groups with
  | [] => [(key, [a])]
  | (k, members) :: rest =>
      if String.eqb k key then (k, members ++ [a]) :: rest else (k, members) :: add_to_group key a rest
  end.

Fixpoint group_agents (groups : list (string * list ModelAgent)) (partition : list ModelAgent)
    : res string (list (string * list ModelAgent)) :=
  match partition with
  | [] => Ok groups
  | a :: rest =>
      match group_key a with
      | Raise e => Raise e
      | Ok key => group_agents (add_to_group key a groups) rest
      end
  end.

Definition order_members (lg : ledgers) (members : list ModelAgent) : res string (list ModelAgent) :=
  let d := by_id members in
  match _measured_member_order lg d.*1 with
  | Raise e => Raise e
  | Ok ids => Ok (omap (λ i, od_get i d) ids)
  end.

(** One group: an ungrouped agent is left alone; members that exclude the role
    follow those that do not. *)
Definition refine_group (lg : ledgers) (role : string) (members : list ModelAgent)
    : res string (list ModelAgent) :=
  match members with
  | [] => Ok []
  | first :: _ =>
      if negb (str_truthy (group_name first)) then Ok members else
      order_members lg (List.filter (λ m, negb (excluded_for role m)) members) ≫= λ eligible,
      order_members lg (List.filter (excluded_for role) members) ≫= λ excluded,
      Ok (eligible ++ excluded)
  end.

Definition _refine_partition (lg : ledgers) (role : string) (partition : list ModelAgent)
    : res string (list ModelAgent) :=
  group_agents [] partition ≫= λ groups,
  match map_res (λ g, refine_group lg role g.2) groups with
  | Raise e => Raise e
  | Ok parts => Ok (List.concat parts)
  end.

(** [evidenced] is [by_evidence_id[i] for i in ranked_evidence(...)], [[]] when
    there is no evidence. *)
Definition _psychometric_order (evidenced : list ModelAgent → list ModelAgent)
    (prompt_context : option string) (candidates : list ModelAgent) : list ModelAgent :=
  if negb (match prompt_context with Some p => str_truthy p | None => false end) ||
     (length candidates <? 2)%nat
  then candidates else
  match evidenced candidates with
  | [] => candidates
  | first => first ++ List.filter (λ c, negb (in_strs (id c) (map id first))) candidates
  end.

(** ** _ranked_agents *)

(** What the orchestrator's state and the request contribute to a ranking. *)
Record ranking_env := {
  re_ctx : request_ctx;
  re_urlparse : string → option parsed_url;
  re_agents : list ModelAgent;               (* self.agents *)
  re_candidates : list ModelAgent;           (* self.candidates *)
  re_prices : gmap string float;             (* self.price_per_million *)
  re_settings : option (list (pyval * pyval));   (* client.request_settings_snapshot() *)
  re_ledgers : ledgers;
  re_affinities : string → list ModelAgent → string → option float;
  re_evidenced : string → list ModelAgent → list ModelAgent;
  re_role_fallback : string → option string; (* the role profile's unsupported_provider_fallback *)
}.

Definition image_required (required_tags : list string) : bool :=
  in_strs IMAGE_INPUT_EVIDENCE_TAG required_tags || in_strs LEGACY_VISION_CAPABILITY_TAG required_tags.

Definition request_admits (env : ranking_env) (a : ModelAgent) : bool :=
  negb (disabled a) && _agent_matches_request_endpoint (re_urlparse env) (re_ctx env) a &&
  _zdr_agent_allowed (re_ctx env) a.

(** The comprehension's filter. *)
Definition ranking_candidate (env : ranking_env) (required_tags : list string)
    (free_only chat_only : bool) (a : ModelAgent) : bool :=
  let shaped_body := _request_shaped_chat_body (re_settings env) None in
  request_admits env a &&
  (negb free_only ||
   (if image_required required_tags
    then _is_image_capable_free_agent (re_prices env) (re_candidates env) shaped_body a
    else if chat_only then _is_general_free_agent (re_prices env) (re_candidates env) shaped_body a
    else _is_free_agent (re_prices env) (re_candidates env) a)) &&
  (negb chat_only || _is_general_chat_agent a) &&
  _agent_matches_required_tags a required_tags &&
  (negb chat_only || negb (image_required required_tags) || _is_mixed_image_chat_agent a).

Definition no_candidate_error (env : ranking_env) (free_only chat_only : bool) : string :=
  if rq_zdr_only (re_ctx env)
  then "no ZDR-eligible agent is available for the active privacy policy"
  else if free_only then "no enabled zero-cost model is available"
  else if chat_only then "no chat-compatible agent available"
  else "no enabled zero-cost model is available".

(** The candidates of a ranking, before they are ordered. *)
Definition ranking_candidates (env : ranking_env) (role : string) (required_tags : list string)
    (free_only chat_only : bool) (effort_fallback : option string) (source : list ModelAgent)
    : list ModelAgent :=
  let candidates := List.filter (ranking_candidate env required_tags free_only chat_only) source in
  if chat_only
  then _eligible_role_effort_candidates candidates
         (match effort_fallback with Some f => Some f | None => re_role_fallback env role end)
  else candidates.

Definition static_le (env : ranking_env) (text role : string) (candidates : list ModelAgent)
    (a b : ModelAgent) : bool :=
  let key x := _static_rank_key role (re_affinities env text candidates (id x)) x in
  negb (rank_key_lt (key b) (key a)).

Definition _ranked_agents (env : ranking_env) (text role : string) (required_tags : list string)
    (free_only chat_only : bool) (candidate_pool : option (list ModelAgent))
    (prompt_context effort_fallback : option string) : res string (list ModelAgent) :=
  let source := match candidate_pool with None => re_agents env | Some pool => pool end in
  match ranking_candidates env role required_tags free_only chat_only effort_fallback source with
  | [] => Raise (no_candidate_error env free_only chat_only)
  | candidates =>
      let static := py_sorted (static_le env text role candidates) candidates in
      let evidenced := re_evidenced env (default "" prompt_context) in
      _refine_partition (re_ledgers env) role (List.filter (λ a, negb (excluded_for role a)) static)
        ≫= λ eligible,
      _refine_partition (re_ledgers env) role (List.filter (excluded_for role) static)
        ≫= λ excluded,
      Ok (_psychometric_order evidenced prompt_context eligible ++
          _psychometric_order evidenced prompt_context excluded)
  end.

(** ** _select_agent *)

Definition _select_agent (env : ranking_env) (text role : string) (free_only : bool)
    (required_tags prefer_tags : list string) (prompt_context effort_fallback : option string)
    : res string ModelAgent :=
  _ranked_agents env text role required_tags free_only true None prompt_context effort_fallback
    ≫= λ ranked,
  let ranked := List.filter (λ a, _is_general_chat_agent a && _agent_matches_required_tags a required_tags)
                  ranked in
  let ranked :=
    match prefer_tags with
    | [] => ranked
    | _ =>
        match List.filter (λ a, forallb (λ t, has_tag t a) prefer_tags) ranked with
        | [] => ranked
        | preferred => preferred
        end
    end in
  match ranked with
  | [] => Raise (String.append "no chat-compatible agent available for role=" role)
  | selected :: _ =>
      if disabled selected then Raise (String.append "no enabled agent available for role=" role)
      else if excluded_for role selected
      then Raise (String.append "no eligible agent available for role=" role)
      else Ok selected
  end.

(** ** The request-shaped pools *)

Definition _chat_pool_agent_ids (env : ranking_env)
    (messages : option (list (list (pyval * pyval)))) (chat_body : option (list (pyval * pyval)))
    (role : option string) (free_only : bool) : list string :=
  let require_image :=
    match messages with
    | Some ms => match _image_input_required_tags ms with [] => false | _ => true end
    | None =>
        match chat_body with
        | Some body =>
            match dget "messages" body with
            | VList ms =>
                match _image_input_required_tags
                        (omap (λ m, match m with VDict d => Some d | _ => None end) ms) with
                | [] => false | _ => true
                end
            | _ => false
            end
        | None => false
        end
    end in
  let shaped_body := _request_shaped_chat_body (re_settings env) chat_body in
  map id (List.filter (λ a,
    negb (disabled a) &&
    negb (match role with Some r => excluded_for r a | None => false end) &&
    (_agent_matches_request_endpoint (re_urlparse env) (re_ctx env) a &&
     _zdr_agent_allowed (re_ctx env) a) &&
    (if require_image
     then if free_only
          then _is_image_capable_free_agent (re_prices env) (re_candidates env) shaped_body a
          else _is_mixed_image_chat_agent a
     else if free_only
          then _is_general_free_agent (re_prices env) (re_candidates env) shaped_body a
          else _is_general_chat_agent a)) (re_agents env)).

Definition _free_pool_agent_ids (env : ranking_env)
    (messages : option (list (list (pyval * pyval)))) (chat_body : option (list (pyval * pyval)))
    (role : option string) : list string :=
  _chat_pool_agent_ids env messages chat_body role true.

(** ** Race members *)

Definition has_contract (a : ModelAgent) : bool :=
  match endpoint_equivalence a with Some _ => true | None => false end.

Definition _equivalent_race_members (candidates : list ModelAgent) (capability : string)
    : list ModelAgent :=
  match candidates with
  | first_candidate :: _ :: _ =>
      if negb (str_truthy (group_name first_candidate)) then [] else
      match List.filter has_contract candidates with
      | (first :: _ :: _) as declared =>
          match endpoint_equivalence first with
          | None => []
          | Some contract =>
              if negb (in_strs capability (capability_set contract)) ||
                 negb (hedge_eligible contract) ||
                 negb (String.eqb (execution_policy contract) "immediate_race")
              then [] else
              let peers := List.filter (λ a,
                String.eqb (group_name a) (group_name first) &&
                bool_decide (endpoint_equivalence a = Some contract)) declared in
              if (2 <=? length peers)%nat then peers else []
          end
      | _ => []
      end
  | _ => []
  end.

(** ** Lemmas: the key's order *)

(** [String.leb] as a number, so that [lia] can use its order laws. *)
Definition sle (a b : string) : Z := if String.leb a b then 1 else 0.

Lemma sle_range a b : 0 <= sle a b <= 1.
Proof. unfold sle. case_match; lia. Qed.

Lemma sle_trans a b c : sle a b + sle b c <= sle a c + 1.
Proof.
  unfold sle. pose proof (string_leb_trans a b c) as H.
  destruct (String.leb a b), (String.leb b c), (String.leb a c); lia.
Qed.

Lemma sle_total a b : 1 <= sle a b + sle b a.
Proof. unfold sle. destruct (String.leb_total a b) as [-> | ->]; case_match; lia. Qed.

Lemma ltb_leb a b : String.ltb a b = negb (String.leb b a).
Proof.
  unfold String.ltb, String.leb. rewrite (String.compare_antisym b a).
  by destruct (String.compare a b).
Qed.

Lemma feqb_rank x y :
  is_nan x = false → is_nan y = false →
  feqb x y = negb (fltb x y) && negb (fltb y x).
Proof.
  intros Hx Hy. unfold feqb, fltb, SFeqb, SFltb.
  destruct x as [[]|[]| |[] mx ex], y as [[]|[]| |[] my ey]; try done; unfold SFcompare.
  all: rewrite (Z.compare_antisym ex ey); destruct (ex ?= ey) eqn:?; cbn; try done.
  all: change (PosDef.Pos.compare_cont Eq my mx) with (Pos.compare my mx);
    change (PosDef.Pos.compare_cont Eq mx my) with (Pos.compare mx my);
    rewrite (Pos.compare_antisym mx my); by destruct (mx ?= my)%positive.
Qed.

(** The keys in order, component by component. *)
Definition rank_le_prop (k k' : rank_key) : Prop :=
  let '(a1, a2, a3) := rank (rk_affinity k) in
  let '(b1, b2, b3) := rank (rk_affinity k') in
  rk_fit k < rk_fit k' ∨ rk_fit k = rk_fit k' ∧
  (rk_priority k < rk_priority k' ∨ rk_priority k = rk_priority k' ∧
   (rk_unmeasured k < rk_unmeasured k' ∨ rk_unmeasured k = rk_unmeasured k' ∧
    (a1 < b1 ∨ a1 = b1 ∧ (a2 < b2 ∨ a2 = b2 ∧ (a3 < b3 ∨ a3 = b3 ∧
     sle (rk_id k) (rk_id k') = 1))))).

Definition rank_key_ok (k : rank_key) : Prop := is_nan (rk_affinity k) = false.

Lemma rank_key_lt_spec k k' :
  rank_key_ok k → rank_key_ok k' → negb (rank_key_lt k' k) = true ↔ rank_le_prop k k'.
Proof.
  unfold rank_key_ok, rank_key_lt, rank_le_prop. intros Hk Hk'.
  rewrite (feqb_rank (rk_affinity k')) by done. rewrite !fltb_rank, ltb_leb by done.
  pose proof (lex_ltb_spec (rank (rk_affinity k)) (rank (rk_affinity k'))) as H1.
  pose proof (lex_ltb_spec (rank (rk_affinity k')) (rank (rk_affinity k))) as H2.
  destruct (rank (rk_affinity k)) as [[a1 a2] a3], (rank (rk_affinity k')) as [[b1 b2] b3].
  cbn [fst snd] in H1, H2.
  assert (Hid : String.eqb (rk_id k') (rk_id k) = true → sle (rk_id k) (rk_id k') = 1).
  { intros ->%String.eqb_eq. unfold sle. by destruct (String.leb_total (rk_id k) (rk_id k)) as [-> | ->]. }
  assert (Hne : String.eqb (rk_id k') (rk_id k) = false →
    negb (negb (String.leb (rk_id k) (rk_id k'))) = true ↔ sle (rk_id k) (rk_id k') = 1).
  { intros _. unfold sle. destruct (String.leb _ _); cbn; split; done. }
  destruct (Z.eqb_spec (rk_fit k') (rk_fit k)); cbn [negb]; [|rewrite negb_true_iff, Z.ltb_ge; lia].
  destruct (Z.eqb_spec (rk_priority k') (rk_priority k)); cbn [negb];
    [|rewrite negb_true_iff, Z.ltb_ge; lia].
  destruct (Z.eqb_spec (rk_unmeasured k') (rk_unmeasured k)); cbn [negb];
    [|rewrite negb_true_iff, Z.ltb_ge; lia].
  destruct (lex_ltb (b1, b2, b3) (a1, a2, a3)) eqn:E2; cbn [negb andb].
  { assert (H3 := proj1 H2 eq_refl). split; [done|]. lia. }
  assert (H3 : ¬ _) by (intros H3; apply H2 in H3; exact (diff_false_true H3)).
  destruct (lex_ltb (a1, a2, a3) (b1, b2, b3)) eqn:E1; cbn [negb andb].
  { assert (H4 := proj1 H1 eq_refl). split; [lia|done]. }
  assert (H4 : ¬ _) by (intros H4; apply H1 in H4; exact (diff_false_true H4)).
  destruct (String.eqb (rk_id k') (rk_id k)) eqn:Ei; cbn [negb].
  - specialize (Hid eq_refl). split; [lia|done].
  - specialize (Hne eq_refl). rewrite Hne. lia.
Qed.

Lemma rank_le_total k k' :
  rank_key_ok k → rank_key_ok k' →
  negb (rank_key_lt k' k) = true ∨ negb (rank_key_lt k k') = true.
Proof.
  intros Hk Hk'. rewrite !rank_key_lt_spec by done. unfold rank_le_prop.
  pose proof (sle_total (rk_id k) (rk_id k')). pose proof (sle_range (rk_id k) (rk_id k')).
  pose proof (sle_range (rk_id k') (rk_id k)).
  destruct (rank (rk_affinity k)) as [[a1 a2] a3], (rank (rk_affinity k')) as [[b1 b2] b3]. lia.
Qed.

Lemma rank_le_trans k1 k2 k3 :
  rank_key_ok k1 → rank_key_ok k2 → rank_key_ok k3 →
  negb (rank_key_lt k2 k1) = true → negb (rank_key_lt k3 k2) = true → negb (rank_key_lt k3 k1) = true.
Proof.
  intros H1 H2 H3. rewrite !rank_key_lt_spec by done. unfold rank_le_prop.
  pose proof (sle_trans (rk_id k1) (rk_id k2) (rk_id k3)). pose proof (sle_range (rk_id k1) (rk_id k3)).
  destruct (rank (rk_affinity k1)) as [[a1 a2] a3], (rank (rk_affinity k2)) as [[b1 b2] b3],
    (rank (rk_affinity k3)) as [[c1 c2] c3]. lia.
Qed.

(** ** Lemmas: refining only reorders *)

Definition ids (l : list ModelAgent) : list string := map id l.

Lemma od_set_absent {V} (k : string) (v : V) d : k ∉ d.*1 → od_set k v d = d ++ [(k, v)].
Proof.
  induction d as [|[k' v'] d IH]; intros Hk; [done|]. cbn in *.
  apply not_elem_of_cons in Hk as [Hne Hk]. rewrite decide_False by congruence. by rewrite IH.
Qed.

Lemma by_id_from acc l :
  NoDup (acc.*1 ++ ids l) →
  fold_left (λ d m, od_set (id m) m d) l acc = acc ++ map (λ m, (id m, m)) l.
Proof.
  revert acc. induction l as [|m l IH]; intros acc Hnd; cbn; [by rewrite app_nil_r|].
  cbn in Hnd. assert (id m ∉ acc.*1) as Hm.
  { apply NoDup_app in Hnd as (_ & Hdis & _). intros Hin. apply (Hdis _ Hin). by left. }
  rewrite od_set_absent by done. rewrite IH.
  - by rewrite <- app_assoc.
  - rewrite fmap_app. cbn. by rewrite <- app_assoc.
Qed.

Lemma by_id_NoDup l : NoDup (ids l) → by_id l = map (λ m, (id m, m)) l.
Proof. intros Hnd. unfold by_id. by rewrite by_id_from. Qed.

Lemma map_fst_by_id l : (map (λ m, (id m, m)) l).*1 = ids l.
Proof. unfold ids. induction l as [|m l IH]; [done|]. cbn in *. by rewrite IH. Qed.

Lemma od_get_by_id l m : NoDup (ids l) → m ∈ l → od_get (id m) (map (λ m, (id m, m)) l) = Some m.
Proof.
  induction l as [|a l IH]; intros Hnd Hin; [by apply elem_of_nil in Hin|].
  cbn in *. apply NoDup_cons in Hnd as [Ha Hnd].
  apply elem_of_cons in Hin as [->|Hin]; [by rewrite decide_True|].
  rewrite decide_False; [by apply IH|]. intros He. apply Ha. rewrite <- He.
  by apply (list_elem_of_fmap_2 id _ _ Hin).
Qed.

Lemma omap_by_id l l' :
  NoDup (ids l) → (∀ m, m ∈ l' → m ∈ l) →
  omap (λ i, od_get i (map (λ m, (id m, m)) l)) (ids l') = l'.
Proof.
  intros Hnd. induction l' as [|m l' IH]; intros Hin; [done|]. cbn.
  rewrite od_get_by_id by (done || by apply Hin; left). f_equal. apply IH.
  intros x Hx. apply Hin. by right.
Qed.

Lemma ranked_member_ids_perm cfg r ms out : ranked_member_ids cfg r ms = Ok out → out ≡ₚ ms.
Proof.
  unfold ranked_member_ids. destruct (map_res _ ms); [|done]. intros [= <-]. apply py_sorted_perm.
Qed.

Lemma order_members_perm lg l out : NoDup (ids l) → order_members lg l = Ok out → out ≡ₚ l.
Proof.
  intros Hnd. unfold order_members. rewrite by_id_NoDup, map_fst_by_id by done.
  destruct (_measured_member_order lg (ids l)) as [out_ids|] eqn:Ho; [|done]. intros [= <-].
  assert (Hp : out_ids ≡ₚ ids l).
  { unfold _measured_member_order in Ho. case_match; by eapply ranked_member_ids_perm. }
  assert (Ho2 : omap (λ i, od_get i (map (λ m, (id m, m)) l)) out_ids ≡ₚ
                omap (λ i, od_get i (map (λ m, (id m, m)) l)) (ids l)) by (by rewrite Hp).
  by rewrite Ho2, omap_by_id.
Qed.

Lemma filter_partition_perm {A} (p : A → bool) l :
  List.filter (λ x, negb (p x)) l ++ List.filter p l ≡ₚ l.
Proof.
  induction l as [|x l IH]; cbn; [done|]. destruct (p x); cbn.
  - by rewrite <- Permutation_middle, IH.
  - by rewrite IH.
Qed.

Lemma NoDup_ids_filter (p : ModelAgent → bool) l : NoDup (ids l) → NoDup (ids (List.filter p l)).
Proof.
  unfold ids. induction l as [|a l IH]; cbn; [done|]. intros [Ha Hnd]%NoDup_cons.
  destruct (p a); cbn; [|by apply IH]. constructor; [|by apply IH].
  intros Hin. apply Ha. apply list_elem_of_In, in_map_iff in Hin as (b & <- & [Hb _]%filter_In).
  apply list_elem_of_In. by apply in_map.
Qed.

Lemma refine_group_perm lg role l out :
  NoDup (ids l) → refine_group lg role l = Ok out → out ≡ₚ l.
Proof.
  intros Hnd. unfold refine_group. destruct l as [|first rest]; [by intros [= <-]|].
  set (l := first :: rest) in *. destruct (negb (str_truthy _)); [by intros [= <-]|]. intros H.
  apply bind_Ok_inv in H as (e & He & H). apply bind_Ok_inv in H as (x & Hx & H). injection H as <-.
  apply order_members_perm in He; [|by apply NoDup_ids_filter].
  apply order_members_perm in Hx; [|by apply NoDup_ids_filter].
  rewrite He, Hx. apply filter_partition_perm.
Qed.

Lemma add_to_group_perm key a groups :
  List.concat (add_to_group key a groups).*2 ≡ₚ List.concat groups.*2 ++ [a].
Proof.
  induction groups as [|[k ms] groups IH]; [done|]. cbn.
  destruct (String.eqb k key); cbn.
  - rewrite <- !app_assoc. apply Permutation_app_head, Permutation_app_comm.
  - by rewrite IH, app_assoc.
Qed.

Lemma group_agents_perm groups partition out :
  group_agents groups partition = Ok out → List.concat out.*2 ≡ₚ List.concat groups.*2 ++ partition.
Proof.
  revert groups. induction partition as [|a partition IH]; intros groups; cbn.
  { intros [= <-]. by rewrite app_nil_r. }
  destruct (group_key a) as [key|]; [|done]. intros Hp%IH.
  by rewrite Hp, add_to_group_perm, <- app_assoc.
Qed.

Lemma ids_perm l l' : l ≡ₚ l' → ids l ≡ₚ ids l'.
Proof. apply Permutation_map. Qed.

Lemma NoDup_ids_concat (ls : list (list ModelAgent)) l :
  NoDup (ids (List.concat ls)) → l ∈ ls → NoDup (ids l).
Proof.
  induction ls as [|x ls IH]; intros Hnd Hin; [by apply elem_of_nil in Hin|].
  cbn in Hnd. unfold ids in Hnd. rewrite map_app in Hnd.
  apply NoDup_app in Hnd as (Hx & _ & Hls).
  apply elem_of_cons in Hin as [->|Hin]; [done|]. by apply IH.
Qed.

Lemma refine_parts_perm lg role (groups : list (string * list ModelAgent)) parts :
  Forall (λ g, NoDup (ids g.2)) groups →
  map_res (λ g, refine_group lg role g.2) groups = Ok parts →
  List.concat parts ≡ₚ List.concat groups.*2.
Proof.
  intros Hnd Hp. apply map_res_Forall2 in Hp.
  induction Hp as [|g part groups parts Hg _ IH]; [done|].
  apply Forall_cons in Hnd as [Hg' Hnd]. cbn. apply refine_group_perm in Hg; [|done].
  by rewrite Hg, IH.
Qed.

Lemma refine_partition_perm lg role l out :
  NoDup (ids l) → _refine_partition lg role l = Ok out → out ≡ₚ l.
Proof.
  intros Hnd. unfold _refine_partition. intros H. apply bind_Ok_inv in H as (groups & Hg & H).
  destruct (map_res _ groups) as [parts|] eqn:Hp; [|done]. injection H as <-.
  apply group_agents_perm in Hg. cbn in Hg.
  rewrite <- Hg. eapply refine_parts_perm; [|exact Hp].
  apply Forall_forall. intros g Hin. eapply NoDup_ids_concat.
  - rewrite (ids_perm _ _ Hg). exact Hnd.
  - by apply (list_elem_of_fmap_2 snd _ _ Hin).
Qed.

(** The evidence ranks some of the candidates it is given, each once. *)
Definition evidenced_ok (evidenced : list ModelAgent → list ModelAgent) : Prop :=
  ∀ l, NoDup (ids l) → NoDup (ids (evidenced l)) ∧ ∀ a, a ∈ evidenced l → a ∈ l.

Lemma psychometric_perm evidenced ctx l :
  evidenced_ok evidenced → NoDup (ids l) → _psychometric_order evidenced ctx l ≡ₚ l.
Proof.
  intros Hev Hnd. unfold _psychometric_order. destruct (_ || _); [done|].
  destruct (Hev l Hnd) as [Hnd' Hsub].
  destruct (evidenced l) as [|f fs] eqn:Hf; [done|]. rewrite <- Hf in *.
  assert (Hfst : evidenced l ≡ₚ List.filter (λ c, in_strs (id c) (map id (evidenced l))) l).
  { apply NoDup_Permutation.
    - by apply (NoDup_fmap_1 id).
    - by apply (NoDup_fmap_1 id), NoDup_ids_filter.
    - intros a. rewrite list_elem_of_In, (list_elem_of_In _ a), filter_In, in_strs_spec. split.
      + intros Ha%list_elem_of_In. split; [by apply list_elem_of_In, Hsub|].
        by apply (list_elem_of_fmap_2 id _ _ Ha).
      + intros [Ha Hin]. apply list_elem_of_In in Ha.
        apply (list_elem_of_fmap_1 id) in Hin as (b & Hid & Hb).
        assert (a = b) as ->; [|by apply list_elem_of_In].
        pose proof (od_get_by_id l a Hnd Ha) as H1.
        pose proof (od_get_by_id l b Hnd (Hsub _ Hb)) as H2. rewrite Hid in H1. congruence. }
  rewrite Hfst at 1. rewrite Permutation_app_comm. apply filter_partition_perm.
Qed.

(** ** Theorems *)

Lemma eligible_subset candidates fallback a :
  a ∈ _eligible_role_effort_candidates candidates fallback → a ∈ candidates.
Proof.
  unfold _eligible_role_effort_candidates. destruct fallback as [f|]; [|done].
  destruct (String.eqb f "omit"); [done|].
  destruct (List.filter _ candidates) as [|b l] eqn:Hl; [done|]. rewrite <- Hl.
  intros Ha. apply list_elem_of_In, filter_In in Ha as [Ha _]. by apply list_elem_of_In.
Qed.

Lemma NoDup_ids_eligible candidates fallback :
  NoDup (ids candidates) → NoDup (ids (_eligible_role_effort_candidates candidates fallback)).
Proof.
  intros Hnd. unfold _eligible_role_effort_candidates. destruct fallback as [f|]; [|done].
  destruct (String.eqb f "omit"); [done|].
  destruct (List.filter _ candidates) as [|b l] eqn:Hl; [done|]. rewrite <- Hl.
  by apply NoDup_ids_filter.
Qed.

Lemma ranking_candidates_spec env role rt fo co ef source a :
  a ∈ ranking_candidates env role rt fo co ef source →
  a ∈ source ∧ ranking_candidate env rt fo co a = true.
Proof.
  unfold ranking_candidates. intros Ha.
  assert (a ∈ List.filter (ranking_candidate env rt fo co) source) as Hin.
  { destruct co; [by eapply eligible_subset|done]. }
  apply list_elem_of_In, filter_In in Hin as [? ?]. by rewrite list_elem_of_In.
Qed.

Lemma NoDup_ranking_candidates env role rt fo co ef source :
  NoDup (ids source) → NoDup (ids (ranking_candidates env role rt fo co ef source)).
Proof.
  intros Hnd. unfold ranking_candidates.
  assert (NoDup (ids (List.filter (ranking_candidate env rt fo co) source)))
    by (by apply NoDup_ids_filter).
  destruct co; [by apply NoDup_ids_eligible|done].
Qed.

(** The shape of a successful ranking. *)
Lemma ranked_agents_shape env text role rt fo co pool ctx ef ranked :
  NoDup (ids (match pool with None => re_agents env | Some p => p end)) →
  evidenced_ok (re_evidenced env (default "" ctx)) →
  _ranked_agents env text role rt fo co pool ctx ef = Ok ranked →
  ∃ eligible excluded, ranked = eligible ++ excluded ∧
    eligible ++ excluded ≡ₚ
      ranking_candidates env role rt fo co ef (match pool with None => re_agents env | Some p => p end) ∧
    Forall (λ a, excluded_for role a = false) eligible ∧
    Forall (λ a, excluded_for role a = true) excluded.
Proof.
  set (source := match pool with None => _ | Some p => p end). intros Hnd Hev.
  unfold _ranked_agents. fold source.
  pose proof (NoDup_ranking_candidates env role rt fo co ef source Hnd) as Hc.
  destruct (ranking_candidates env role rt fo co ef source) as [|c0 cs] eqn:Hcs; [done|].
  set (cands := c0 :: cs) in *. set (static := py_sorted _ cands).
  assert (Hst : static ≡ₚ cands) by apply py_sorted_perm.
  assert (Hnds : NoDup (ids static)) by (rewrite (ids_perm _ _ Hst); exact Hc).
  intros H. apply bind_Ok_inv in H as (e & He & H). apply bind_Ok_inv in H as (x & Hx & H).
  injection H as <-. exists (_psychometric_order (re_evidenced env (default "" ctx)) ctx e),
    (_psychometric_order (re_evidenced env (default "" ctx)) ctx x).
  apply refine_partition_perm in He; [|by apply NoDup_ids_filter].
  apply refine_partition_perm in Hx; [|by apply NoDup_ids_filter].
  assert (Hpe : _psychometric_order (re_evidenced env (default "" ctx)) ctx e ≡ₚ e).
  { apply psychometric_perm; [done|]. rewrite (ids_perm _ _ He). by apply NoDup_ids_filter. }
  assert (Hpx : _psychometric_order (re_evidenced env (default "" ctx)) ctx x ≡ₚ x).
  { apply psychometric_perm; [done|]. rewrite (ids_perm _ _ Hx). by apply NoDup_ids_filter. }
  split; [done|]. split; [|split].
  - rewrite Hpe, Hpx, He, Hx, <- Hst. apply (filter_partition_perm (excluded_for role)).
  - rewrite Hpe, He. apply Forall_forall. intros a Ha.
    apply list_elem_of_In, filter_In in Ha as [_ Ha]. by apply negb_true_iff.
  - rewrite Hpx, Hx. apply Forall_forall. intros a Ha.
    by apply list_elem_of_In, filter_In in Ha as [_ ?].
Qed.

(** Ranking neither invents nor loses an agent: over a pool with distinct ids
    the ranked list is a permutation of the admitted candidates, every one of
    them enabled, on the requested endpoint, allowed by the privacy policy and
    carrying the required tags (zero-cost when only free agents are allowed, a
    chat model for chat); and an agent excluded from the role always follows
    every agent that is not. *)
Theorem ranked_agents_sound env text role rt fo co ctx ef ranked :
  NoDup (ids (re_agents env)) → evidenced_ok (re_evidenced env (default "" ctx)) →
  _ranked_agents env text role rt fo co None ctx ef = Ok ranked →
  ranked ≡ₚ ranking_candidates env role rt fo co ef (re_agents env) ∧
  Forall (λ a, a ∈ re_agents env ∧ disabled a = false ∧ _zdr_agent_allowed (re_ctx env) a = true ∧
    _agent_matches_request_endpoint (re_urlparse env) (re_ctx env) a = true ∧
    _agent_matches_required_tags a rt = true ∧
    (fo = true → _is_free_agent (re_prices env) (re_candidates env) a = true) ∧
    (co = true → _is_general_chat_agent a = true)) ranked ∧
  ∀ i j a b, ranked !! i = Some a → ranked !! j = Some b →
    excluded_for role a = true → excluded_for role b = false → (j < i)%nat.
Proof.
  intros Hnd Hev Hr. destruct (ranked_agents_shape _ _ _ _ _ _ None _ _ _ Hnd Hev Hr)
    as (e & x & -> & Hp & He & Hx).
  split; [exact Hp|]. split.
  - apply Forall_forall. intros a Ha. rewrite Hp in Ha.
    apply ranking_candidates_spec in Ha as [Hin Hc]. unfold ranking_candidate, request_admits in Hc.
    rewrite !andb_true_iff in Hc. destruct Hc as ((((((Hd & Hm) & Hz) & Hf) & Hch) & Ht) & _).
    split; [done|]. split; [by apply negb_true_iff|]. do 3 (split; [done|]). split.
    + intros ->. cbn in Hf. unfold _is_image_capable_free_agent, _is_general_free_agent in Hf.
      repeat case_match; rewrite ?andb_true_iff in Hf; tauto.
    + intros ->. done.
  - intros i j a b Hi Hj Ha Hb. rewrite Forall_forall in He, Hx.
    destruct (decide (i < length e)%nat) as [Hlt|Hge].
    { rewrite lookup_app_l in Hi by done. apply list_elem_of_lookup_2, He in Hi. congruence. }
    destruct (decide (j < length e)%nat) as [Hlt|Hge']; [lia|].
    rewrite lookup_app_r in Hj by lia. apply list_elem_of_lookup_2, Hx in Hj. congruence.
Qed.

(** *** Pools and rankings *)

Lemma image_tags_cases ms :
  _image_input_required_tags ms = [] ∨ _image_input_required_tags ms = [IMAGE_INPUT_EVIDENCE_TAG].
Proof. unfold _image_input_required_tags. destruct (existsb _ ms); [by right|by left]. Qed.

Lemma mixed_image_parts a :
  _is_mixed_image_chat_agent a = true →
  _is_general_chat_agent a = true ∧ _agent_supports_image_input a = true.
Proof. unfold _is_mixed_image_chat_agent. rewrite !andb_true_iff. tauto. Qed.

Lemma filter_ext_bool {A} (p q : A → bool) l :
  (∀ a, a ∈ l → p a = q a) → List.filter p l = List.filter q l.
Proof.
  induction l as [|a l IH]; intros H; [done|]. cbn. rewrite (H a) by (by left).
  rewrite IH; [done|]. intros b Hb. apply H. by right.
Qed.

(** A ranking candidate for the tags a request's messages demand. *)
Lemma image_candidate env fo a :
  ranking_candidate env [IMAGE_INPUT_EVIDENCE_TAG] fo true a =
  request_admits env a &&
  (if fo then _is_image_capable_free_agent (re_prices env) (re_candidates env)
                (_request_shaped_chat_body (re_settings env) None) a
   else _is_mixed_image_chat_agent a).
Proof.
  unfold ranking_candidate. cbv zeta. change (image_required [IMAGE_INPUT_EVIDENCE_TAG]) with true.
  change (_agent_matches_required_tags a [IMAGE_INPUT_EVIDENCE_TAG]) with (_agent_supports_image_input a).
  cbn [negb orb]. unfold _is_image_capable_free_agent.
  destruct (request_admits env a); [|done]. cbn [andb].
  destruct (_is_mixed_image_chat_agent a) eqn:Hm.
  - apply mixed_image_parts in Hm as [-> ->]. destruct fo; cbn; by rewrite ?andb_true_r.
  - by destruct fo; rewrite ?andb_false_r.
Qed.

Lemma text_candidate env fo a :
  ranking_candidate env [] fo true a =
  request_admits env a && _is_general_chat_agent a &&
  (if fo then _is_general_free_agent (re_prices env) (re_candidates env)
                (_request_shaped_chat_body (re_settings env) None) a
   else true).
Proof.
  unfold ranking_candidate. cbv zeta. change (image_required []) with false. cbn [negb orb].
  change (_agent_matches_required_tags a []) with true. rewrite !andb_true_r.
  destruct fo; cbn; [|by rewrite !andb_true_r].
  destruct (request_admits env a), (_is_general_chat_agent a); cbn; by rewrite ?andb_true_r, ?andb_false_r.
Qed.

Lemma pool_filter env ms fo :
  _chat_pool_agent_ids env (Some ms) None None fo =
  ids (List.filter (λ a, request_admits env a &&
    (if match _image_input_required_tags ms with [] => false | _ => true end
     then if fo then _is_image_capable_free_agent (re_prices env) (re_candidates env)
                (_request_shaped_chat_body (re_settings env) None) a
          else _is_mixed_image_chat_agent a
     else if fo then _is_general_free_agent (re_prices env) (re_candidates env)
                (_request_shaped_chat_body (re_settings env) None) a
          else _is_general_chat_agent a)) (re_agents env)).
Proof.
  unfold _chat_pool_agent_ids, ids. cbv zeta. f_equal. apply filter_ext_bool. intros a _.
  unfold request_admits. cbn [negb]. by rewrite andb_true_r, !andb_assoc.
Qed.

(** The admission pool and the ranking agree on who may serve: for every
    request, the pool's ids are exactly the ids the ranking admits under the
    tags the messages demand — for chat requests, and for free requests that
    carry images. For free text requests the pool is only an upper bound. *)
Theorem pool_matches_ranking env messages :
  let rt := _image_input_required_tags messages in
  _chat_pool_agent_ids env (Some messages) None None false =
    ids (List.filter (ranking_candidate env rt false true) (re_agents env)) ∧
  (rt ≠ [] → _free_pool_agent_ids env (Some messages) None None =
    ids (List.filter (ranking_candidate env rt true true) (re_agents env))) ∧
  (∀ a, a ∈ re_agents env → ranking_candidate env rt true true a = true →
     id a ∈ _free_pool_agent_ids env (Some messages) None None).
Proof.
  cbv zeta. unfold _free_pool_agent_ids. rewrite !pool_filter.
  destruct (image_tags_cases messages) as [-> | ->].
  - split; [|split; [done|]].
    + f_equal. apply filter_ext_bool. intros a _. rewrite text_candidate. by rewrite andb_true_r.
    + intros a Ha. rewrite text_candidate, !andb_true_iff. intros [[Hadm _] Hfree].
      apply (list_elem_of_fmap_2 id). apply list_elem_of_In, filter_In. rewrite Hadm, Hfree.
      by apply list_elem_of_In in Ha.
  - split; [|split].
    + f_equal. apply filter_ext_bool. intros a _. by rewrite image_candidate.
    + intros _. f_equal. apply filter_ext_bool. intros a _. by rewrite image_candidate.
    + intros a Ha. rewrite image_candidate. intros Hc.
      apply (list_elem_of_fmap_2 id). apply list_elem_of_In, filter_In. rewrite Hc.
      by apply list_elem_of_In in Ha.
Qed.

(** *** A concrete pool *)

Definition no_request : request_ctx :=
  {| rq_zdr_only := false; rq_endpoint_agent_ids := None; rq_endpoint_identity := None |}.

Definition fresh_ledgers : ledgers :=
  {| lg_group_cfg := default_config; lg_group := empty_router;
     lg_quality_cfg := default_config; lg_quality := empty_router |}.

Definition demo_env (agents : list ModelAgent) : ranking_env :=
  {| re_ctx := no_request; re_urlparse := λ _, None; re_agents := agents; re_candidates := agents;
     re_prices := ∅; re_settings := None; re_ledgers := fresh_ledgers;
     re_affinities := λ _ _ _, None; re_evidenced := λ _ _, []; re_role_fallback := λ _, None |}.

(** A zero-cost embedding model and nothing else. *)
Definition embedding_only : ranking_env :=
  demo_env [demo_agent "free_embedder" "text-embedding-3" "https://e.example" ["cost:free"]].

Definition text_message : list (list (pyval * pyval)) := [[(VStr "content", VStr "hello")]].

(** The free text pool over-admits: a zero-cost embedding model counts as
    free capacity, so the admission check that asks for a non-empty pool lets
    the request in, and the ranking that serves it has no candidate. *)
Theorem free_pool_overadmits :
  _free_pool_agent_ids embedding_only (Some text_message) None (Some "worker") = ["free_embedder"] ∧
  _ranked_agents embedding_only "hello" "worker" [] true true None None None =
    Raise "no enabled zero-cost model is available" ∧
  _chat_pool_agent_ids embedding_only (Some text_message) None (Some "worker") false = [].
Proof. repeat split; vm_compute; reflexivity. Qed.

Definition demo_pool : list ModelAgent :=
  [demo_agent "plain_one" "llama-3" "https://a.example" ["cost:free"];
   demo_agent "coder_one" "qwen-coder" "https://b.example" ["coding"];
   demo_agent "embed_one" "text-embedding-3" "https://c.example" []].

Lemma ranked_agents_sound_witness :
  ∃ ranked, _ranked_agents (demo_env demo_pool) "t" "worker" [] false true None None None = Ok ranked ∧
    ids ranked = ["coder_one"; "plain_one"] ∧
    ranked ≡ₚ ranking_candidates (demo_env demo_pool) "worker" [] false true None demo_pool.
Proof.
  eexists. split; [vm_compute; reflexivity|]. split; [reflexivity|].
  eapply (ranked_agents_sound (demo_env demo_pool) "t" "worker" [] false true None None).
  - apply (bool_decide_unpack _). vm_compute. exact I.
  - intros l _. split; [constructor|]. intros a Ha. by apply elem_of_nil in Ha.
  - vm_compute. reflexivity.
Defined.

(** *** Static order *)

Lemma append_inj p a b : String.append p a = String.append p b → a = b.
Proof. induction p as [|c p IH]; cbn; [done|]. intros [= H]. by apply IH. Qed.

Lemma group_agents_single groups l :
  Forall (λ a, group_name a = "") l →
  NoDup (groups.*1 ++ map (λ a, String.append "agent:" (id a)) l) →
  group_agents groups l = Ok (groups ++ map (λ a, (String.append "agent:" (id a), [a])) l).
Proof.
  revert groups. induction l as [|a l IH]; intros groups Hg Hnd; [by rewrite app_nil_r|].
  apply Forall_cons in Hg as [Ha Hg]. cbn [group_agents map]. unfold group_key. rewrite Ha.
  change (str_truthy "") with false. cbv iota.
  assert (Hadd : add_to_group (String.append "agent:" (id a)) a groups =
                 groups ++ [(String.append "agent:" (id a), [a])]).
  { apply NoDup_app in Hnd as (_ & Hdis & _). clear -Hdis.
    induction groups as [|[k ms] groups IHg]; [done|]. cbn [add_to_group].
    destruct (String.eqb_spec k (String.append "agent:" (id a))) as [->|_].
    - exfalso. eapply Hdis; [by left|by left].
    - cbn. rewrite IHg; [done|]. intros x Hx. apply Hdis. by right. }
  rewrite Hadd. rewrite IH; [|done|].
  - by rewrite <- app_assoc.
  - rewrite fmap_app, <- app_assoc. exact Hnd.
Qed.

Lemma refine_partition_ungrouped lg role l :
  Forall (λ a, group_name a = "") l → NoDup (ids l) → _refine_partition lg role l = Ok l.
Proof.
  intros Hg Hnd. unfold _refine_partition. rewrite group_agents_single; [|done|].
  - cbn [mbind res_bind app]. clear Hnd.
    assert (Hm : map_res (λ g : string * list ModelAgent, refine_group lg role g.2)
                  (map (λ a, (String.append "agent:" (id a), [a])) l) = Ok (map (λ a, [a]) l)).
    { induction l as [|a l IH]; [done|]. apply Forall_cons in Hg as [Ha Hg]. cbn [map map_res snd].
      unfold refine_group at 1. rewrite Ha. cbn [str_truthy]. change (negb (str_truthy "")) with true.
      cbv iota. by rewrite IH. }
    rewrite Hm. f_equal. clear. induction l as [|a l IH]; [done|]. cbn. by rewrite IH.
  - cbn. unfold ids in Hnd. induction l as [|a l IH]; [constructor|].
    cbn in *. apply NoDup_cons in Hnd as [Ha Hnd]. apply Forall_cons in Hg as [_ Hg].
    constructor; [|by apply IH]. intros Hin. apply Ha.
    apply list_elem_of_In, in_map_iff in Hin as (b & Hb & Hbl). apply append_inj in Hb.
    rewrite <- Hb. apply list_elem_of_In. by apply in_map.
Qed.

Lemma psychometric_none evidenced l : _psychometric_order evidenced None l = l.
Proof. done. Qed.

(** Without model groups and psychometric evidence the ranking is the
    operator's declared order: it succeeds exactly when some candidate is
    admitted, and within the eligible agents, and within the excluded ones,
    no agent follows one with a strictly greater static key — role fit first,
    then priority, then measured affinity, then id. *)
Theorem static_order_respected env text role rt fo co ef :
  let cands := ranking_candidates env role rt fo co ef (re_agents env) in
  let key a := _static_rank_key role (re_affinities env text cands (id a)) a in
  NoDup (ids (re_agents env)) → cands ≠ [] →
  Forall (λ a, group_name a = "") cands →
  Forall (λ a, rank_key_ok (key a)) cands →
  ∃ eligible excluded,
    _ranked_agents env text role rt fo co None None ef = Ok (eligible ++ excluded) ∧
    Forall (λ a, excluded_for role a = false) eligible ∧
    Forall (λ a, excluded_for role a = true) excluded ∧
    StronglySorted (λ a b, rank_key_lt (key b) (key a) = false) eligible ∧
    StronglySorted (λ a b, rank_key_lt (key b) (key a) = false) excluded.
Proof.
  cbv zeta. set (cands := ranking_candidates _ _ _ _ _ _ _).
  set (key := λ a, _static_rank_key role (re_affinities env text cands (id a)) a).
  intros Hnd Hne Hg Hk. pose proof (NoDup_ranking_candidates env role rt fo co ef _ Hnd) as Hndc.
  fold cands in Hndc. set (static := py_sorted (static_le env text role cands) cands).
  assert (Hst : static ≡ₚ cands) by apply py_sorted_perm.
  assert (Hnds : NoDup (ids static)) by (rewrite (ids_perm _ _ Hst); exact Hndc).
  assert (Hgs : Forall (λ a, group_name a = "") static) by (by rewrite Hst).
  assert (Hsorted : StronglySorted (λ a b, rank_key_lt (key b) (key a) = false) static).
  { assert (Hs : StronglySorted (λ a b, static_le env text role cands a b = true) static).
    { apply (py_sorted_sorted _ (λ a, rank_key_ok (key a))); [| |done].
      - intros a b Ha Hb. by apply rank_le_total.
      - intros a b c Ha Hb Hc. by apply rank_le_trans. }
    apply (StronglySorted_mono (λ _, True)
      (λ a b, static_le env text role cands a b = true) _ static); [|done|by apply Forall_forall].
    intros a b _ _. unfold static_le. by intros ?%negb_true_iff. }
  assert (Hfilter : ∀ p, _refine_partition (re_ledgers env) role (List.filter p static) =
                         Ok (List.filter p static)).
  { intros p. apply refine_partition_ungrouped; [|by apply NoDup_ids_filter].
    rewrite Forall_forall in *. intros a Ha. apply Hgs.
    apply list_elem_of_In, filter_In in Ha as [Ha _]. by apply list_elem_of_In. }
  exists (List.filter (λ a, negb (excluded_for role a)) static), (List.filter (excluded_for role) static).
  split; [|split; [|split; [|split]]].
  - assert (Hrun : _ranked_agents env text role rt fo co None None ef =
      (_refine_partition (re_ledgers env) role (List.filter (λ a, negb (excluded_for role a)) static)
         ≫= λ e, _refine_partition (re_ledgers env) role (List.filter (excluded_for role) static)
         ≫= λ x, Ok (e ++ x))).
    { unfold _ranked_agents. fold cands. subst static. by destruct cands. }
    by rewrite Hrun, !Hfilter.
  - apply Forall_forall. intros a Ha. apply list_elem_of_In, filter_In in Ha as [_ Ha].
    by apply negb_true_iff.
  - apply Forall_forall. intros a Ha. by apply list_elem_of_In, filter_In in Ha as [_ ?].
  - by apply StronglySorted_filter.
  - by apply StronglySorted_filter.
Qed.

Lemma static_order_respected_witness :
  ∃ eligible excluded,
    _ranked_agents (demo_env demo_pool) "t" "worker" [] false true None None None =
      Ok (eligible ++ excluded) ∧
    Forall (λ a, excluded_for "worker" a = false) eligible.
Proof.
  destruct (static_order_respected (demo_env demo_pool) "t" "worker" [] false true None)
    as (e & x & Hr & He & _).
  - apply (bool_decide_unpack _). vm_compute. exact I.
  - vm_compute. discriminate.
  - vm_compute. by repeat constructor.
  - unfold rank_key_ok. vm_compute. by repeat constructor.
  - exists e, x. by split.
Defined.

Lemma pool_matches_ranking_witness :
  "plain_one" ∈ _free_pool_agent_ids (demo_env demo_pool) (Some text_message) None None.
Proof.
  destruct (pool_matches_ranking (demo_env demo_pool) text_message) as (_ & _ & H).
  apply (H (demo_agent "plain_one" "llama-3" "https://a.example" ["cost:free"])); [by left|].
  vm_compute. reflexivity.
Defined.
