(* ===== verification/Transport.v ===== *)
(** orchestrator.py: recognising provider failures through their exception chain,
    the transport's retry loop [_send_with_retry], and the output-token clamp.

    Python's JSON decoder, date parser and number conversions are the parameters
    of ProviderErrors. *)

From S2P Require Import Prelude PyString PyCollections PyFloat PyValue Exceptions ToolFallback.
From S2P Require Import ProviderErrors ModelGroup EndpointRace Agents.

Definition TRANSIENT_HTTP_STATUS : list Z := [408; 409; 425; 429; 500; 502; 503; 504; 529].
Definition _PASSTHROUGH_REJECTED_STATUS : list Z := [404; 410; 413; 408; 409; 425; 429; 503].
Definition _PROVIDER_TOOL_DESCRIPTION_LIMIT_MESSAGE : string :=
  "each tool.function.description must be at most 1024 characters".
Definition _SINGLE_TOOL_CALL_LIMIT_MESSAGE : string :=
  "this model only supports single tool-calls at once".

Definition in_Z (n : Z) (l : list Z) : bool := existsb (Z.eqb n) l.

Section transport.
Context (json_loads : string → option pyval)
        (parse_http_date : string → option float)
        (float_of_text : string → option float)
        (float_repr : float → string).

(** ** HTTP error bodies *)

(** [_http_error_payload]: the JSON object of the bounded error body. *)
Definition _http_error_payload (e : exc) : option (list (pyval * pyval)) :=
  match exc_type e with
  | CHTTPError _ _ body =>
      match json_loads (provider_error_body body) with
      | Some (VDict d) => Some d
      | _ => None
      end
  | _ => None
  end.

(** [payload.get("error")] of the body, [None] without one. *)
Definition error_details (e : exc) : pyval :=
  match _http_error_payload e with Some d => dget "error" d | None => VNone end.

(** The message of the details: of an object, or the string itself. *)
Definition error_message (details : pyval) : option string :=
  match details with
  | VDict d => as_str (dget "message" d)
  | VStr s => Some s
  | _ => None
  end.

Definition details_field_is (field value : string) (details : pyval) : bool :=
  match details with VDict d => key_is value (dget field d) | _ => false end.

Definition _is_tool_execution_stopped (e : exc) : bool :=
  details_field_is "code" "tool_execution_stopped" (error_details e).

Definition http_400 (e : exc) : bool :=
  match is_http_error (exc_type e) with Some code => code =? 400 | None => false end.

Definition _is_provider_tool_description_limit_error (e : exc) : bool :=
  http_400 e &&
  match error_details e with
  | VStr s => str_contains _PROVIDER_TOOL_DESCRIPTION_LIMIT_MESSAGE (str_casefold s)
  | VDict d =>
      key_is "invalid_tools" (dget "code" d) &&
      key_is _PROVIDER_TOOL_DESCRIPTION_LIMIT_MESSAGE (dget "message" d)
  | _ => false
  end.

Definition _is_oversized_tool_description_error (e : exc) : bool :=
  http_400 e &&
  let details := error_details e in
  match error_message details with
  | Some message =>
      (match details with VStr _ => true | _ => details_field_is "code" "invalid_tools" details end) &&
      str_contains "tool.function.description" (str_casefold message) && str_contains "1024" message
  | None => false
  end.

Definition _is_single_tool_call_limit_error (e : exc) : bool :=
  http_400 e &&
  match error_message (error_details e) with
  | Some message => str_contains _SINGLE_TOOL_CALL_LIMIT_MESSAGE (str_casefold message)
  | None => false
  end.

Definition _is_context_length_exceeded_error (e : exc) : bool :=
  http_400 e &&
  let details := error_details e in
  if details_field_is "code" "context_length_exceeded" details then true else
  match error_message details with
  | None => false
  | Some message =>
      let folded := str_casefold message in
      if str_contains "maximum context length" folded then true
      else if str_contains "context length" folded && str_contains "tokens" folded then true
      else details_field_is "type" "invalid_request_error" details &&
           str_contains "prompt is too long" folded
  end.

(** ** Walking the exception chain

    The [for _ in range(_PROVIDER_ERROR_CHAIN_LIMIT)] loops visit the exceptions
    of [_exception_chain]: at most eight, none twice. *)

Definition chain_has (p : exc → bool) (h : exc_heap) (l : loc) : bool :=
  existsb (λ le, p le.2) (_exception_chain h l).

Definition too_large (e : exc) : bool :=
  is_request_too_large_class (exc_type e) ||
  match is_http_error (exc_type e) with
  | Some code =>
      (code =? 413) || _is_oversized_tool_description_error e || _is_context_length_exceeded_error e
  | None => false
  end.

Definition _is_request_too_large_error : exc_heap → loc → bool := chain_has too_large.

Definition local_admission_timeout (e : exc) : bool :=
  match exc_type e with CLocalProviderAdmissionTimeout => true | _ => false end.

Definition rejected_before_acceptance (e : exc) : bool :=
  match is_upstream (exc_type e) with
  | Some u => match ue_provider_status u with
              | Some status => in_Z status _PASSTHROUGH_REJECTED_STATUS
              | None => false
              end
  | None => false
  end ||
  match is_http_error (exc_type e) with
  | Some code =>
      in_Z code _PASSTHROUGH_REJECTED_STATUS || _is_provider_tool_description_limit_error e ||
      _is_single_tool_call_limit_error e
  | None => false
  end ||
  match gai_errno (exc_type e) with Some errno => errno =? EAI_AGAIN | None => false end.

Definition head_is (p : exc → bool) (h : exc_heap) (l : loc) : bool :=
  match h !! l with Some e => p e | None => false end.

Definition _is_passthrough_failover_error (h : exc_heap) (l : loc) : bool :=
  head_is local_admission_timeout h l || _is_request_too_large_error h l ||
  chain_has rejected_before_acceptance h l.

Definition reason_is_gai (h : exc_heap) (reason : option loc) : bool :=
  match reason with
  | Some r => match h !! r with
              | Some re => match gai_errno (exc_type re) with Some _ => true | None => false end
              | None => false
              end
  | None => false
  end.

Definition outcome_unknown (h : exc_heap) (e : exc) : bool :=
  is_timeout_error (exc_type e) || is_connection_error (exc_type e) || is_http_exception (exc_type e) ||
  match exc_type e with CURLError reason => negb (reason_is_gai h reason) | _ => false end.

Definition _is_ambiguous_passthrough_transport_failure (h : exc_heap) (l : loc) : bool :=
  chain_has (outcome_unknown h) h l.

Definition _is_timeout_transport_failure : exc_heap → loc → bool :=
  chain_has (λ e, is_timeout_error (exc_type e)).

Definition _is_capability_mismatch_failover_error : exc_heap → loc → bool :=
  chain_has (λ e, match is_http_error (exc_type e) with
                  | Some _ => _is_provider_tool_description_limit_error e ||
                              _is_single_tool_call_limit_error e
                  | None => false
                  end).

(** [is_transient_error]. *)
Definition is_transient_error (h : exc_heap) (l : loc) : bool :=
  match h !! l with
  | None => false
  | Some e =>
      match exc_type e with
      | CHTTPError code _ _ =>
          if _is_tool_execution_stopped e then false else in_Z code TRANSIENT_HTTP_STATUS
      | CURLError reason =>
          negb (match reason with
                | Some r => match h !! r with Some re => is_cert_error (exc_type re) | None => false end
                | None => false
                end)
      | c =>
          if is_timeout_error c || is_connection_error c then true else
          match gai_errno c with
          | Some errno => errno =? EAI_AGAIN
          | None =>
              let cause_errno := (r ← exc_cause e; ce ← h !! r; gai_errno (exc_type ce)) in
              match is_runtime_error c, cause_errno with
              | true, Some errno => errno =? EAI_AGAIN
              | _, _ => is_ssl_error c && negb (is_cert_error c)
              end
          end
      end
  end.

(** ** _send_with_retry *)

(** [_administrator_timeout_error]. *)
Definition _administrator_timeout_error (agent_id model transport : string) : ProviderUpstreamError :=
  {| ue_agent_id := agent_id; ue_model := model; ue_error_code := "model_timeout";
     ue_message := "administrator-configured model timeout elapsed";
     ue_client_status := 504; ue_provider_status := None; ue_retryable := false;
     ue_transport := transport; ue_extra_detail := no_detail |}.

Definition outcome_unknown_error (agent_id model : string) : ProviderUpstreamError :=
  {| ue_agent_id := agent_id; ue_model := model; ue_error_code := PROVIDER_OUTCOME_UNKNOWN_CODE;
     ue_message := "the provider request outcome is unknown; automatic replay is unsafe";
     ue_client_status := 502; ue_provider_status := None; ue_retryable := false;
     ue_transport := "chat"; ue_extra_detail := no_detail |}.

(** [ProviderRequestTooLargeError(...)]. *)
Definition request_too_large_error (message agent_id model : string) (provider_status : option Z)
    (transport : string) : ProviderUpstreamError :=
  {| ue_agent_id := agent_id; ue_model := model; ue_error_code := "request_too_large";
     ue_message := message; ue_client_status := 413; ue_provider_status := provider_status;
     ue_retryable := false; ue_transport := transport; ue_extra_detail := no_detail |}.

(** [_provider_tool_execution_stopped]: the fresh [ToolExecutionError] is alone in
    its heap. *)
Definition terminal_tool_error : exc :=
  {| exc_type := CToolExecutionError "provider_tool_runtime" TRANSPORT_ERROR false true;
     exc_str := "provider reported terminal tool execution state"; exc_arg0 := None; exc_url := "";
     exc_cause := None; exc_context := None; exc_suppress := false |}.

Definition _provider_tool_execution_stopped (agent_id : string) : exc_class :=
  CToolFallbackStoppedError agent_id
    (classify_tool_failure {[1%positive := terminal_tool_error]} 1%positive false) None.

(** What the transport raises: a new exception, or the failed call's own. *)
Inductive send_outcome :=
| Sent (content : string)
| RaisedNew (c : exc_class)
| Reraised (l : loc).

Record send_env := {
  se_agent_id : string;
  se_model : string;
  se_deadline : option float;              (* _model_deadline(timeout) *)
  se_clock : nat → float;                  (* time.monotonic() before attempt k *)
  se_send : nat → string + loc;            (* what attempt k of _send returns or raises *)
  se_wall : float;                         (* time.time() when the failure is classified *)
}.

(** The statements after the loop. *)
Definition send_failed (env : send_env) (h : exc_heap) (l : loc) : send_outcome :=
  match h !! l with
  | None => Reraised l
  | Some e =>
      match exc_type e with
      | CHTTPError code _ _ =>
          if _is_tool_execution_stopped e
          then RaisedNew (_provider_tool_execution_stopped (se_agent_id env))
          else if (code =? 413) || _is_oversized_tool_description_error e
          then RaisedNew (CProviderRequestTooLargeError
                 (request_too_large_error "provider request body is too large" (se_agent_id env)
                    (se_model env) (Some code) "chat"))
          else RaisedNew (CProviderUpstreamError
                 (classify_provider_failure json_loads parse_http_date float_of_text float_repr h
                    (Some e) (se_agent_id env) (se_model env) "chat" (se_wall env)))
      | CProviderResponseError _ _ => Reraised l
      | _ =>
          match is_upstream (exc_type e) with
          | Some u => if String.eqb (ue_transport u) "chat" then Reraised l
                      else RaisedNew (CProviderUpstreamError
                             (classify_provider_failure json_loads parse_http_date float_of_text
                                float_repr h (Some e) (se_agent_id env) (se_model env) "chat"
                                (se_wall env)))
          | None => RaisedNew (CProviderUpstreamError
                      (classify_provider_failure json_loads parse_http_date float_of_text float_repr
                         h (Some e) (se_agent_id env) (se_model env) "chat" (se_wall env)))
          end
      end
  end.

Definition deadline_passed (env : send_env) (attempt : nat) : bool :=
  match se_deadline env with
  | Some d => fleb (fsub d (se_clock env attempt)) f0
  | None => false
  end.

(** The attempts of the loop, [left] of them after this one; the first component
    lists the attempts that reached the provider. *)
Fixpoint send_attempts (env : send_env) (h : exc_heap) (left attempt : nat)
    : list nat * send_outcome :=
  if deadline_passed env attempt then ([], RaisedNew CAdministratorModelTimeout) else
  match se_send env attempt with
  | inl content => ([attempt], Sent content)
  | inr l =>
      let administrator :=
        head_is (λ e, match exc_type e with CAdministratorModelTimeout => true | _ => false end) h l in
      if administrator then ([attempt], Reraised l) else
      if _is_ambiguous_passthrough_transport_failure h l
      then ([attempt], RaisedNew (CProviderUpstreamError
             (if match se_deadline env with Some _ => _is_timeout_transport_failure h l | None => false end
              then _administrator_timeout_error (se_agent_id env) (se_model env) "chat"
              else outcome_unknown_error (se_agent_id env) (se_model env))))
      else
      match left with
      | S left' =>
          if is_transient_error h l
          then let '(calls, out) := send_attempts env h left' (S attempt) in (attempt :: calls, out)
          else ([attempt], send_failed env h l)
      | O => ([attempt], send_failed env h l)
      end
  end.

Definition _send_with_retry (env : send_env) (h : exc_heap) (retry_limit : nat)
    (allow_transient_retries : bool) : list nat * send_outcome :=
  send_attempts env h (if allow_transient_retries then retry_limit else O) O.

(** ** Output-token clamp *)

Definition budget_fields : list string := ["max_tokens"; "max_completion_tokens"; "max_output_tokens"].

Definition clamp_field (limit : Z) (payload : list (pyval * pyval)) (field : string)
    : list (pyval * pyval) :=
  match dict_get field payload with
  | Some (VInt v) => if limit <? v then dict_set field (VInt limit) payload else payload
  | _ => payload
  end.

Definition _clamp_agent_token_budget (a : ModelAgent) (payload : list (pyval * pyval))
    : list (pyval * pyval) :=
  match max_output_tokens a with
  | Some limit => if limit <=? 0 then payload else fold_left (clamp_field limit) budget_fields payload
  | None => payload
  end.

Record output_budget := {
  ob_requested : Z;
  ob_effective : Z;
  ob_clamped : bool;
}.

(** The first output-budget field the payload states as an integer. *)
Definition requested_tokens (payload : list (pyval * pyval)) : option Z :=
  first_some (λ f, match dict_get f payload with Some (VInt v) => Some v | _ => None end) budget_fields.

Definition _clamp_agent_token_budget_with_evidence (a : ModelAgent) (payload : list (pyval * pyval))
    : list (pyval * pyval) * option output_budget :=
  (_clamp_agent_token_budget a payload,
   match requested_tokens payload with
   | None => None
   | Some requested =>
       match max_output_tokens a with
       | Some limit =>
           let was_clamped := (0 <? limit) && (limit <? requested) in
           Some {| ob_requested := requested;
                   ob_effective := if was_clamped then limit else requested;
                   ob_clamped := was_clamped |}
       | None => Some {| ob_requested := requested; ob_effective := requested; ob_clamped := false |}
       end
   end).
End transport.

(** ** Theorems: retries *)

Section transport_theorems.
Context (json_loads : string → option pyval)
        (parse_http_date : string → option float)
        (float_of_text : string → option float)
        (float_repr : float → string).

Abbreviation send_attempts' := (send_attempts json_loads parse_http_date float_of_text float_repr).

Lemma send_failed_not_sent env h l c :
  send_failed json_loads parse_http_date float_of_text float_repr env h l ≠ Sent c.
Proof.
  unfold send_failed. destruct (h !! l) as [e|]; [|done].
  destruct (exc_type e); cbn; try done; repeat case_match; done.
Qed.

Lemma send_attempts_calls env h left attempt :
  let '(calls, out) := send_attempts' env h left attempt in
  calls = seq attempt (length calls) ∧ (length calls ≤ S left)%nat ∧
  (∀ k l, k ∈ calls → se_send env k = inr l → (S k < attempt + length calls)%nat →
     is_transient_error json_loads h l = true ∧
     _is_ambiguous_passthrough_transport_failure h l = false) ∧
  (∀ k l, k ∈ calls → se_send env k = inr l →
     _is_ambiguous_passthrough_transport_failure h l = true →
     S k = (attempt + length calls)%nat ∧
     (out = Reraised l ∨
      ∃ u, out = RaisedNew (CProviderUpstreamError u) ∧ ue_retryable u = false)) ∧
  (∀ content, out = Sent content →
     ∃ k, S k = (attempt + length calls)%nat ∧ k ∈ calls ∧ se_send env k = inl content).
Proof.
  revert attempt. induction left as [|left IH]; intros attempt; cbn [send_attempts];
    (destruct (deadline_passed env attempt) eqn:Hdl;
     [split; [done|]; split; [cbn; lia|]; split; [by intros k l ?%elem_of_nil|];
      split; [by intros k l ?%elem_of_nil|done]|]);
    (destruct (se_send env attempt) as [content|l] eqn:Hs;
     [split; [done|]; split; [cbn; lia|];
      split; [intros k l Hk%list_elem_of_singleton; subst; congruence|];
      split; [intros k l Hk%list_elem_of_singleton; subst; congruence|];
      intros c [= <-]; exists attempt; split; [cbn; lia|]; split; [by left|done]|]);
    (destruct (head_is _ h l) eqn:Hadm;
     [split; [done|]; split; [cbn; lia|];
      split; [intros k l' Hk%list_elem_of_singleton Hk'; subst; cbn; intros; lia|];
      split; [|done]; intros k l' Hk%list_elem_of_singleton Hk' _; subst;
      split; [cbn; lia|left; congruence]|]);
    (destruct (_is_ambiguous_passthrough_transport_failure h l) eqn:Hamb;
     [split; [done|]; split; [cbn; lia|];
      split; [intros k l' Hk%list_elem_of_singleton Hk'; subst; cbn; intros; lia|];
      split; [|done]; intros k l' Hk%list_elem_of_singleton Hk' _; subst;
      split; [cbn; lia|right; eexists; split; [reflexivity|by case_match]]|]).
  - split; [done|]. split; [cbn; lia|].
    split; [intros k l' Hk%list_elem_of_singleton Hk'; subst; cbn; intros; lia|].
    split; [intros k l' Hk%list_elem_of_singleton Hk' Hx; subst; congruence|].
    intros c Hc. by apply send_failed_not_sent in Hc.
  - destruct (is_transient_error json_loads h l) eqn:Htr.
    2: { split; [done|]. split; [cbn; lia|].
      split; [intros k l' Hk%list_elem_of_singleton Hk'; subst; cbn; intros; lia|].
      split; [intros k l' Hk%list_elem_of_singleton Hk' Hx; subst; congruence|].
      intros c Hc. by apply send_failed_not_sent in Hc. }
    specialize (IH (S attempt)). destruct (send_attempts' env h left (S attempt)) as [calls out].
    destruct IH as (Hseq & Hlen & Hmid & Hlast & Hsent). cbn [length].
    split; [cbn; by f_equal|]. split; [lia|]. split; [|split].
    + intros k l' [->|Hk]%elem_of_cons Hk' Hlt; [rewrite Hs in Hk'; by injection Hk' as <-|].
      apply (Hmid k l'); [done|done|lia].
    + intros k l' [->|Hk]%elem_of_cons Hk' Hx; [rewrite Hs in Hk'; injection Hk' as <-; congruence|].
      destruct (Hlast k l' Hk Hk' Hx) as [? ?]. split; [lia|done].
    + intros c Hc. destruct (Hsent c Hc) as (k & ? & ? & ?). exists k.
      split; [lia|]. split; [by right|done].
Qed.

(** The retry loop is bounded and never replays an unknown outcome: it makes
    consecutive calls, at most one more than the retry limit (exactly one at
    most under [single_attempt_transport]); only a transient failure is ever
    retried; and a call whose provider outcome is unknown is the last one, and
    surfaces as a non-retryable error. What is returned is what the last call
    returned. *)
Theorem send_never_replays_unknown env h retry_limit allow :
  let '(calls, out) :=
    _send_with_retry json_loads parse_http_date float_of_text float_repr env h retry_limit allow in
  calls = seq 0 (length calls) ∧
  (length calls ≤ S (if allow : bool then retry_limit else 0))%nat ∧
  (∀ k l, k ∈ calls → se_send env k = inr l → (S k < length calls)%nat →
     is_transient_error json_loads h l = true) ∧
  (∀ k l, k ∈ calls → se_send env k = inr l →
     _is_ambiguous_passthrough_transport_failure h l = true →
     S k = length calls ∧
     (out = Reraised l ∨
      ∃ u, out = RaisedNew (CProviderUpstreamError u) ∧ ue_retryable u = false)) ∧
  (∀ content, out = Sent content → ∃ k, S k = length calls ∧ se_send env k = inl content).
Proof.
  pose proof (send_attempts_calls env h (if allow then retry_limit else 0%nat) 0) as H.
  unfold _send_with_retry. destruct (send_attempts' env h _ 0) as [calls out].
  destruct H as (Hseq & Hlen & Hmid & Hlast & Hsent).
  split; [done|]. split; [done|]. split; [|split].
  - intros k l Hk Hs Hlt. by apply (Hmid k l).
  - intros k l Hk Hs Ha. by apply (Hlast k l).
  - intros c Hc. destruct (Hsent c Hc) as (k & ? & _ & ?). by exists k.
Qed.
End transport_theorems.

(** *** Size rejections *)

Definition overflow_body : string → option pyval :=
  λ _, Some (VDict [(VStr "error", VDict [(VStr "code", VStr "context_length_exceeded")])]).

Definition overflow_exc : exc :=
  {| exc_type := CHTTPError 400 None (Some "body"); exc_str := "HTTP Error 400"; exc_arg0 := None;
     exc_url := ""; exc_cause := None; exc_context := None; exc_suppress := false |}.

Definition overflow_heap : exc_heap := {[1%positive := overflow_exc]}.

Definition overflow_env : send_env :=
  {| se_agent_id := "agent_one"; se_model := "m"; se_deadline := None; se_clock := λ _, f0;
     se_send := λ _, inr 1%positive; se_wall := f0 |}.

(** The exception object of a class the transport raised anew. *)
Definition raised_exc (c : exc_class) : exc :=
  {| exc_type := c; exc_str := ""; exc_arg0 := None; exc_url := ""; exc_cause := None;
     exc_context := None; exc_suppress := true |}.

(** The chat transport loses the context-overflow taxonomy: a provider's 400
    [context_length_exceeded] is recognised as a request-size rejection, but what
    [_send_with_retry] raises for it is a plain 400 upstream error that the
    failover loop no longer recognises as one, unlike a 413. *)
Theorem context_overflow_lost_by_transport :
  _is_request_too_large_error overflow_body overflow_heap 1%positive = true ∧
  ∃ u, _send_with_retry overflow_body (λ _, None) (λ _, None) (λ _, "") overflow_env overflow_heap 2 true =
         ([0%nat], RaisedNew (CProviderUpstreamError u)) ∧
       ue_client_status u = 400 ∧
       _is_request_too_large_error overflow_body
         {[2%positive := raised_exc (CProviderUpstreamError u)]} 2%positive = false.
Proof.
  split; [by vm_compute|]. eexists. split; [vm_compute; reflexivity|].
  split; by vm_compute.
Qed.

(** ** Theorems: the clamp *)

Lemma clamp_field_get limit payload field k :
  dict_get k (clamp_field limit payload field) =
  if decide (k = field)
  then match dict_get k payload with
       | Some (VInt v) => Some (VInt (Z.min v limit))
       | o => o
       end
  else dict_get k payload.
Proof.
  unfold clamp_field. case_decide as Hk.
  - subst k. destruct (dict_get field payload) as [[| |v| | | | |]|] eqn:Hf; rewrite ?Hf; try done.
    destruct (limit <? v) eqn:Hl; bools.
    + rewrite dict_get_set, decide_True by done. do 2 f_equal. lia.
    + rewrite Hf. do 2 f_equal. lia.
  - destruct (dict_get field payload) as [[| |v| | | | |]|]; try done.
    destruct (limit <? v); [|done]. by rewrite dict_get_set, decide_False.
Qed.

Lemma clamp_get a payload k :
  dict_get k (_clamp_agent_token_budget a payload) =
  match max_output_tokens a, decide (k ∈ budget_fields) with
  | Some limit, left _ =>
      if limit <=? 0 then dict_get k payload else
      match dict_get k payload with
      | Some (VInt v) => Some (VInt (Z.min v limit))
      | o => o
      end
  | _, _ => dict_get k payload
  end.
Proof.
  unfold _clamp_agent_token_budget. destruct (max_output_tokens a) as [limit|]; [|done].
  destruct (limit <=? 0) eqn:Hl; [by case_decide|].
  unfold budget_fields. cbn [fold_left]. rewrite !clamp_field_get.
  assert (Hin : k ∈ ["max_tokens"; "max_completion_tokens"; "max_output_tokens"] ↔
    k = "max_tokens" ∨ k = "max_completion_tokens" ∨ k = "max_output_tokens")
    by (rewrite !elem_of_cons, elem_of_nil; tauto).
  repeat case_decide; subst; try done; tauto.
Qed.

(** The clamp enforces the published ceiling and nothing else: afterwards no
    integer output-budget field exceeds a positive ceiling, values are only
    ever lowered, every other key is untouched, and clamping twice is clamping
    once. *)
Theorem clamp_enforces_ceiling a payload :
  let out := _clamp_agent_token_budget a payload in
  (∀ limit f v, max_output_tokens a = Some limit → 0 < limit → f ∈ budget_fields →
     dict_get f out = Some (VInt v) → v <= limit) ∧
  (∀ f v, dict_get f payload = Some (VInt v) →
     ∃ v', dict_get f out = Some (VInt v') ∧ v' <= v) ∧
  (∀ k, k ∉ budget_fields → dict_get k out = dict_get k payload) ∧
  (∀ k, dict_get k (_clamp_agent_token_budget a out) = dict_get k out).
Proof.
  cbv zeta. split; [|split; [|split]].
  - intros limit f v Ha Hl Hf. rewrite clamp_get, Ha, decide_True by done.
    rewrite (proj2 (Z.leb_gt _ _)) by done.
    destruct (dict_get f payload) as [[| |w| | | | |]|]; try done. intros [= <-]. lia.
  - intros f v Hv. rewrite clamp_get, Hv. destruct (max_output_tokens a) as [limit|]; [|eauto with lia].
    case_decide; [|by exists v]. destruct (limit <=? 0); [by exists v|]. eexists. split; [done|lia].
  - intros k Hk. rewrite clamp_get. destruct (max_output_tokens a); [|done]. by case_decide.
  - intros k. rewrite !clamp_get. destruct (max_output_tokens a) as [limit|]; [|done].
    case_decide; [|done]. destruct (limit <=? 0); [done|].
    destruct (dict_get k payload) as [[| |w| | | | |]|]; try done. do 2 f_equal. lia.
Qed.

Definition capped_agent : ModelAgent :=
  {| id := "capped_one"; model := "m"; base_url := "u"; api_key_env := ""; credential_key := "K";
     tags := []; priority := 0; disabled := false; provider_name := "p";
     provider_exclusions := []; local_credential_key := ""; auth_scheme := "Bearer";
     max_output_tokens := Some 100; context_window := None; group_name := "";
     reasoning_effort_supported := None; endpoint_equivalence := None;
     stream_usage_supported := false; model_timeout_seconds := None; model_timeout_revision := 0 |}.

Definition two_budgets : list (pyval * pyval) :=
  [(VStr "max_tokens", VInt 10); (VStr "max_completion_tokens", VInt 9999)].

Lemma clamp_enforces_ceiling_witness :
  dict_get "max_completion_tokens" (_clamp_agent_token_budget capped_agent two_budgets) =
    Some (VInt 100) ∧ 100 <= 100.
Proof.
  split; [reflexivity|].
  destruct (clamp_enforces_ceiling capped_agent two_budgets) as [H _].
  apply (H 100 "max_completion_tokens"); [reflexivity|lia|unfold budget_fields; rewrite !elem_of_cons; tauto|reflexivity].
Defined.

(** The clamp evidence can deny a clamp that happened: with a small
    [max_tokens] and an oversized [max_completion_tokens] the payload is
    rewritten while the evidence says nothing was clamped. *)
Theorem clamp_evidence_incomplete :
  let '(out, evidence) := _clamp_agent_token_budget_with_evidence capped_agent two_budgets in
  dict_get "max_completion_tokens" two_budgets = Some (VInt 9999) ∧
  dict_get "max_completion_tokens" out = Some (VInt 100) ∧
  ∃ b, evidence = Some b ∧ ob_clamped b = false ∧ ob_effective b = 10.
Proof. cbn. split; [done|]. split; [done|]. by eexists. Qed.
