(* ===== verification/Failover.v ===== *)
(** orchestrator.py: the candidates of one invocation, the sequential failover loop
    of [_invoke], and its typed route evidence.

    A provider is an oracle: what the n-th call of the invocation returns or
    raises. Exceptions live in a heap, as in Exceptions. *)

From S2P Require Import Prelude PyString PyCollections PyFloat PyValue Exceptions ToolFallback.
From S2P Require Import ProviderErrors ModelGroup EndpointRace Agents AgentHealth Ranking Transport.

(** ** _failover_candidates *)

(** A comprehension whose condition reads, and may update, the health state. *)
Fixpoint filter_health (p : ModelAgent → health → health * bool) (l : list ModelAgent) (h : health)
    : health * list ModelAgent :=
  match l with
  | [] => (h, [])
  | a :: l' =>
      let '(h1, keep) := p a h in
      let '(h2, rest) := filter_health p l' h1 in
      (h2, if keep then a :: rest else rest)
  end.

Inductive failover_error :=
| NoRanking (message : string)             (* RuntimeError from _ranked_agents *)
| GroupNameError (message : string)        (* ValueError from canonical_group_name *)
| TooLarge (smallest_window lower_bound : Z).

Definition canonical_equal (g g' : string) : res string bool :=
  canonical_group_name g ≫= λ c, canonical_group_name g' ≫= λ c', Ok (String.eqb c c').

(** The primary's group, or every ungrouped agent. *)
Definition same_group (primary a : ModelAgent) : res string bool :=
  if str_truthy (group_name primary) && str_truthy (group_name a)
  then canonical_equal (group_name a) (group_name primary)
  else Ok (negb (str_truthy (group_name primary)) && negb (str_truthy (group_name a))).

Fixpoint filter_res {E A} (p : A → res E bool) (l : list A) : res E (list A) :=
  match l with
  | [] => Ok []
  | x :: l' =>
      p x ≫= λ keep, filter_res p l' ≫= λ rest, Ok (if keep : bool then x :: rest else rest)
  end.

(** [_apply_context_window_filter]. *)
Definition known_windows (l : list ModelAgent) : list Z :=
  omap (λ a, match context_window a with
             | Some w => if 0 <? w then Some w else None
             | None => None
             end) l.

Definition _apply_context_window_filter (candidates : list ModelAgent) (lower_bound_tokens : Z)
    : res failover_error (list ModelAgent * list string) :=
  match _context_window_exclusions candidates lower_bound_tokens with
  | ([], (_ :: _) as excluded) =>
      match known_windows candidates with
      | w :: ws => Raise (TooLarge (fold_left Z.min ws w) lower_bound_tokens)
      | [] => Ok ([], excluded)
      end
  | (kept, excluded) => Ok (kept, excluded)
  end.

(** The clock readings of the probes. *)
Record probe_clock := {
  pc_circuit : string → float;
  pc_rate : string → float;
}.

Definition circuit_closed (clock : probe_clock) (a : ModelAgent) (h : health) : health * bool :=
  let '(h', open) := _circuit_open (id a) (pc_circuit clock (id a)) h in (h', negb open).

Definition not_rate_limited (clock : probe_clock) (a : ModelAgent) (h : health) : health * bool :=
  let '(h', remaining) := _rate_limit_remaining (id a) (pc_rate clock (id a)) h in
  (h', match remaining with None => true | Some _ => false end).

(** [healthy or eligible]. *)
Definition or_list {A} (l l' : list A) : list A := match l with [] => l' | _ => l end.

(** The candidates that may serve, before health is looked at. *)
Definition failover_eligible (env : ranking_env) (primary : ModelAgent) (role : string)
    (required_tags : list string) (allowed_agent_ids : option (list string))
    (ranked : list ModelAgent) : res failover_error (list ModelAgent) :=
  match allowed_agent_ids with
  | Some allowed => Ok (List.filter (λ a, in_strs (id a) allowed) ranked)
  | None => map_raise GroupNameError (filter_res (same_group primary) ranked)
  end ≫= λ ranked,
  let primary_allowed :=
    match allowed_agent_ids with Some allowed => in_strs (id primary) allowed | None => true end in
  let ordered := (if primary_allowed then [primary] else []) ++
                 List.filter (λ a, negb (String.eqb (id a) (id primary))) ranked in
  Ok (List.filter (λ a, negb (disabled a) && _zdr_agent_allowed (re_ctx env) a &&
                        _is_general_chat_agent a && _agent_matches_required_tags a required_tags &&
                        negb (excluded_for role a)) ordered).

Definition _failover_candidates (env : ranking_env) (clock : probe_clock) (primary : ModelAgent)
    (text role : string) (required_tags : list string) (allowed_agent_ids : option (list string))
    (prompt_context effort_fallback : option string) (skip_rate_limited : bool)
    (prompt_token_lower_bound : option Z) (h : health)
    : health * res failover_error (list ModelAgent * list string) :=
  match _ranked_agents env text role required_tags false true None prompt_context effort_fallback with
  | Raise message =>
      (h, match ranking_candidates env role required_tags false true effort_fallback (re_agents env),
                required_tags with
          | _ :: _, _ => Raise (GroupNameError message)   (* a ValueError passes the handler *)
          | [], [] => Raise (NoRanking message)
          | [], _ => Ok ([], [])
          end)
  | Ok ranked =>
      match failover_eligible env primary role required_tags allowed_agent_ids ranked with
      | Raise e => (h, Raise e)
      | Ok eligible =>
          let '(h1, healthy) := filter_health (circuit_closed clock) eligible h in
          let healthy := or_list healthy eligible in
          let '(h2, healthy) :=
            if skip_rate_limited
            then let '(h2, ready) := filter_health (not_rate_limited clock) healthy h1 in
                 (h2, or_list ready healthy)
            else (h1, healthy) in
          (h2, match prompt_token_lower_bound with
               | None => Ok (healthy, [])
               | Some bound => _apply_context_window_filter healthy bound
               end)
      end
  end.

(** ** Route evidence *)

Definition _typed_attempt_entry (agent_id model : string) (classified : ProviderUpstreamError)
    (request_too_large : bool) : attempt_entry :=
  {| at_agent_id := agent_id; at_model := model;
     at_outcome :=
       if request_too_large then "request_too_large"
       else if String.eqb (ue_error_code classified) "model_timeout" then "deadline_exceeded"
       else if ue_retryable classified then "retryable_transport"
       else "fail_closed";
     at_error_code := Some (ue_error_code classified);
     at_provider_status := ue_provider_status classified;
     at_retryable := Some (ue_retryable classified);
     at_transport := Some (ue_transport classified) |}.

Definition tool_stop_entry (a : ModelAgent) (transport : string) : attempt_entry :=
  {| at_agent_id := id a; at_model := model a; at_outcome := "fail_closed"; at_error_code := None;
     at_provider_status := None; at_retryable := Some false; at_transport := Some transport |}.

Definition tool_retry_entry (a : ModelAgent) : attempt_entry :=
  {| at_agent_id := id a; at_model := model a; at_outcome := "retryable_transport";
     at_error_code := None; at_provider_status := None; at_retryable := Some true;
     at_transport := Some "chat" |}.

Definition served_entry (a : ModelAgent) : attempt_entry :=
  {| at_agent_id := id a; at_model := model a; at_outcome := "served"; at_error_code := None;
     at_provider_status := None; at_retryable := None; at_transport := None |}.

Definition _route_evidence_payload (eligible : list string) (attempts : list attempt_entry)
    (reason : string) : route_evidence :=
  {| eligible_agent_ids := eligible; attempted := attempts; terminal_reason := reason |}.

Definition _attach_route_evidence_to_upstream_error (u : ProviderUpstreamError) (r : route_evidence)
    : ProviderUpstreamError :=
  {| ue_agent_id := ue_agent_id u; ue_model := ue_model u; ue_error_code := ue_error_code u;
     ue_message := ue_message u; ue_client_status := ue_client_status u;
     ue_provider_status := ue_provider_status u; ue_retryable := ue_retryable u;
     ue_transport := ue_transport u;
     ue_extra_detail :=
       {| ud_retry_after_seconds := ud_retry_after_seconds (ue_extra_detail u);
          ud_cooldown_source := ud_cooldown_source (ue_extra_detail u);
          ud_route := Some r |} |}.

(** ** The invocation's state *)

Record fallback_event := {
  fe_agent_id : string;
  fe_action : string;
  fe_failure_kind : string;
  fe_reason_code : string;
  fe_retry_attempt : Z;
  fe_observed_failure_kind : option string;
}.

(** [_record_tool_fallback]'s event. *)
Definition tool_fallback_event (agent_id : string) (d : ToolFailureDecision) (retry_attempt : Z)
    : fallback_event :=
  let observed := default (td_kind d) (td_observed_kind d) in
  {| fe_agent_id := agent_id; fe_action := action_value (td_action d);
     fe_failure_kind := kind_value (td_kind d); fe_reason_code := td_reason_code d;
     fe_retry_attempt := retry_attempt;
     fe_observed_failure_kind :=
       if String.eqb (kind_value observed) (kind_value (td_kind d)) then None
       else Some (kind_value observed) |}.

Record served := {
  sv_output : string;
  sv_agent_id : string;
  sv_model : string;
  sv_usage : option (list (pyval * pyval));
}.

Record invoke_state := {
  iv_health : health;
  iv_router : group_router;
  iv_audit : list fallback_event;
  iv_calls : list string;                 (* agents called, in order *)
  iv_sleeps : list float;                 (* back-off sleeps, in order *)
  iv_attempts : list attempt_entry;       (* route_attempts *)
  iv_excluded : list string;              (* ids added to excluded_agent_ids *)
  iv_too_large : Z;                       (* bounded_request_too_large_failures *)
  iv_response_failures : Z;               (* bounded_provider_response_failures *)
  iv_all_too_large : bool;                (* every_failure_was_request_too_large *)
  iv_last_response : option string;       (* last_provider_response_error's failure_kind *)
  iv_last_upstream : option ProviderUpstreamError;
  iv_last_quota : option ProviderUpstreamError;
  iv_last_retryable : option ProviderUpstreamError;
}.

Definition invoke_start (h : health) (r : group_router) : invoke_state :=
  {| iv_health := h; iv_router := r; iv_audit := []; iv_calls := []; iv_sleeps := [];
     iv_attempts := []; iv_excluded := []; iv_too_large := 0; iv_response_failures := 0;
     iv_all_too_large := true; iv_last_response := None; iv_last_upstream := None;
     iv_last_quota := None; iv_last_retryable := None |}.

Definition with_health (h : health) (s : invoke_state) : invoke_state :=
  {| iv_health := h; iv_router := iv_router s; iv_audit := iv_audit s; iv_calls := iv_calls s;
     iv_sleeps := iv_sleeps s; iv_attempts := iv_attempts s; iv_excluded := iv_excluded s;
     iv_too_large := iv_too_large s; iv_response_failures := iv_response_failures s;
     iv_all_too_large := iv_all_too_large s; iv_last_response := iv_last_response s;
     iv_last_upstream := iv_last_upstream s; iv_last_quota := iv_last_quota s;
     iv_last_retryable := iv_last_retryable s |}.

Definition with_router (r : group_router) (s : invoke_state) : invoke_state :=
  {| iv_health := iv_health s; iv_router := r; iv_audit := iv_audit s; iv_calls := iv_calls s;
     iv_sleeps := iv_sleeps s; iv_attempts := iv_attempts s; iv_excluded := iv_excluded s;
     iv_too_large := iv_too_large s; iv_response_failures := iv_response_failures s;
     iv_all_too_large := iv_all_too_large s; iv_last_response := iv_last_response s;
     iv_last_upstream := iv_last_upstream s; iv_last_quota := iv_last_quota s;
     iv_last_retryable := iv_last_retryable s |}.

Definition audit (e : fallback_event) (s : invoke_state) : invoke_state :=
  {| iv_health := iv_health s; iv_router := iv_router s; iv_audit := iv_audit s ++ [e];
     iv_calls := iv_calls s; iv_sleeps := iv_sleeps s; iv_attempts := iv_attempts s;
     iv_excluded := iv_excluded s; iv_too_large := iv_too_large s;
     iv_response_failures := iv_response_failures s; iv_all_too_large := iv_all_too_large s;
     iv_last_response := iv_last_response s; iv_last_upstream := iv_last_upstream s;
     iv_last_quota := iv_last_quota s; iv_last_retryable := iv_last_retryable s |}.

Definition note_call (agent_id : string) (s : invoke_state) : invoke_state :=
  {| iv_health := iv_health s; iv_router := iv_router s; iv_audit := iv_audit s;
     iv_calls := iv_calls s ++ [agent_id]; iv_sleeps := iv_sleeps s; iv_attempts := iv_attempts s;
     iv_excluded := iv_excluded s; iv_too_large := iv_too_large s;
     iv_response_failures := iv_response_failures s; iv_all_too_large := iv_all_too_large s;
     iv_last_response := iv_last_response s; iv_last_upstream := iv_last_upstream s;
     iv_last_quota := iv_last_quota s; iv_last_retryable := iv_last_retryable s |}.

Definition note_sleep (delay : float) (s : invoke_state) : invoke_state :=
  {| iv_health := iv_health s; iv_router := iv_router s; iv_audit := iv_audit s;
     iv_calls := iv_calls s; iv_sleeps := iv_sleeps s ++ [delay]; iv_attempts := iv_attempts s;
     iv_excluded := iv_excluded s; iv_too_large := iv_too_large s;
     iv_response_failures := iv_response_failures s; iv_all_too_large := iv_all_too_large s;
     iv_last_response := iv_last_response s; iv_last_upstream := iv_last_upstream s;
     iv_last_quota := iv_last_quota s; iv_last_retryable := iv_last_retryable s |}.

Definition note_attempt (e : attempt_entry) (s : invoke_state) : invoke_state :=
  {| iv_health := iv_health s; iv_router := iv_router s; iv_audit := iv_audit s;
     iv_calls := iv_calls s; iv_sleeps := iv_sleeps s; iv_attempts := iv_attempts s ++ [e];
     iv_excluded := iv_excluded s; iv_too_large := iv_too_large s;
     iv_response_failures := iv_response_failures s; iv_all_too_large := iv_all_too_large s;
     iv_last_response := iv_last_response s; iv_last_upstream := iv_last_upstream s;
     iv_last_quota := iv_last_quota s; iv_last_retryable := iv_last_retryable s |}.

Definition note_excluded (agent_id : string) (s : invoke_state) : invoke_state :=
  {| iv_health := iv_health s; iv_router := iv_router s; iv_audit := iv_audit s;
     iv_calls := iv_calls s; iv_sleeps := iv_sleeps s; iv_attempts := iv_attempts s;
     iv_excluded := iv_excluded s ++ [agent_id]; iv_too_large := iv_too_large s;
     iv_response_failures := iv_response_failures s; iv_all_too_large := iv_all_too_large s;
     iv_last_response := iv_last_response s; iv_last_upstream := iv_last_upstream s;
     iv_last_quota := iv_last_quota s; iv_last_retryable := iv_last_retryable s |}.

Definition note_too_large (s : invoke_state) : invoke_state :=
  {| iv_health := iv_health s; iv_router := iv_router s; iv_audit := iv_audit s;
     iv_calls := iv_calls s; iv_sleeps := iv_sleeps s; iv_attempts := iv_attempts s;
     iv_excluded := iv_excluded s; iv_too_large := iv_too_large s + 1;
     iv_response_failures := iv_response_failures s; iv_all_too_large := iv_all_too_large s;
     iv_last_response := iv_last_response s; iv_last_upstream := iv_last_upstream s;
     iv_last_quota := iv_last_quota s; iv_last_retryable := iv_last_retryable s |}.

Definition note_other_failure (s : invoke_state) : invoke_state :=
  {| iv_health := iv_health s; iv_router := iv_router s; iv_audit := iv_audit s;
     iv_calls := iv_calls s; iv_sleeps := iv_sleeps s; iv_attempts := iv_attempts s;
     iv_excluded := iv_excluded s; iv_too_large := iv_too_large s;
     iv_response_failures := iv_response_failures s; iv_all_too_large := false;
     iv_last_response := iv_last_response s; iv_last_upstream := iv_last_upstream s;
     iv_last_quota := iv_last_quota s; iv_last_retryable := iv_last_retryable s |}.

Definition note_upstream (quota : bool) (u : ProviderUpstreamError) (s : invoke_state) : invoke_state :=
  {| iv_health := iv_health s; iv_router := iv_router s; iv_audit := iv_audit s;
     iv_calls := iv_calls s; iv_sleeps := iv_sleeps s; iv_attempts := iv_attempts s;
     iv_excluded := iv_excluded s; iv_too_large := iv_too_large s;
     iv_response_failures := iv_response_failures s; iv_all_too_large := iv_all_too_large s;
     iv_last_response := iv_last_response s; iv_last_upstream := Some u;
     iv_last_quota := if quota then Some u else iv_last_quota s;
     iv_last_retryable := if ue_retryable u then Some u else iv_last_retryable s |}.

Definition note_response (failure_kind : string) (s : invoke_state) : invoke_state :=
  {| iv_health := iv_health s; iv_router := iv_router s; iv_audit := iv_audit s;
     iv_calls := iv_calls s; iv_sleeps := iv_sleeps s; iv_attempts := iv_attempts s;
     iv_excluded := iv_excluded s; iv_too_large := iv_too_large s;
     iv_response_failures := iv_response_failures s + 1; iv_all_too_large := iv_all_too_large s;
     iv_last_response := Some failure_kind; iv_last_upstream := iv_last_upstream s;
     iv_last_quota := iv_last_quota s; iv_last_retryable := iv_last_retryable s |}.

(** ** One attempt *)

Record chat_reply := {
  cr_output : string;
  cr_usage : option (list (pyval * pyval));
  cr_latency : float;                     (* perf_counter() since the attempt started *)
}.

Record invoke_env := {
  in_heap : exc_heap;
  in_chat : nat → chat_reply + loc;       (* the n-th provider call *)
  in_now : nat → float;                   (* time.monotonic() after the n-th call *)
  in_wall : nat → float;                  (* time.time() after the n-th call *)
  in_jitter : nat → float → float;        (* _tool_retry_jitter(0.0, ceiling) *)
  in_health_cfg : health_config;
  in_group_cfg : router_config;
  in_backoff : float;                     (* tool_retry_backoff_seconds *)
  in_retry_limit : nat;                   (* min(tool_retry_attempts, MAX_TOOL_RETRY_ATTEMPTS) *)
  in_allowed : bool;                      (* allowed_agent_ids is not None *)
  in_tracks_excluded : bool;              (* excluded_agent_ids is not None *)
  in_eligible : list string;              (* eligible_agent_ids *)
}.

Inductive invoke_outcome :=
| Served (s : served)
| InvRaise (c : exc_class)
| InvRuntime (message : string)
| InvValueError (message : string).

Inductive next_step :=
| Retry
| Advance
| Stop (c : exc_class).

Section invoke.
Context (json_loads : string → option pyval)
        (parse_http_date : string → option float)
        (float_of_text : string → option float)
        (float_repr : float → string)
        (env : invoke_env).

Definition fail_closed_evidence (s : invoke_state) : route_evidence :=
  _route_evidence_payload (in_eligible env) (iv_attempts s) "fail_closed".

(** [_append_typed_route_failure]. *)
Definition append_typed_failure (a : ModelAgent) (e : exc) (request_too_large : bool)
    (s : invoke_state) : invoke_state :=
  let classified :=
    match is_upstream (exc_type e) with
    | Some u => u
    | None => classify_provider_failure json_loads parse_http_date float_of_text float_repr
                (in_heap env) (Some e) (id a) (model a) "chat" (in_wall env (length (iv_calls s)))
    end in
  note_attempt (_typed_attempt_entry (id a) (model a) classified request_too_large) s.

Definition record_failure (a : ModelAgent) (s : invoke_state) : invoke_state :=
  with_health (_record_failure (id a) (in_now env (length (iv_calls s))) (iv_health s)) s.

Definition is_quota (e : exc) : bool :=
  match is_upstream (exc_type e) with
  | Some u => bool_decide (ue_provider_status u = Some 429)
  | None => false
  end.

Definition measured (a : ModelAgent) : bool := str_truthy (group_name a) || in_allowed env.

(** [min(backoff * 2.0 ** min(retry_attempt - 1, 16), 30.0)]. *)
Definition retry_ceiling (retry_attempt : Z) : float :=
  fmin (fmul (in_backoff env) (float_of_Z (2 ^ Z.min (retry_attempt - 1) 16))) (float_of_Z 30).

(** From [action = decision.action] to the end of the handler. *)
Definition apply_decision (a : ModelAgent) (e : exc) (retry_attempt : Z) (can_retry : bool)
    (decision : ToolFailureDecision) (s : invoke_state) : invoke_state * next_step :=
  let quota := is_quota e in
  let is_retry := match td_action decision with RETRY_SAME_AGENT => true | _ => false end in
  if is_retry && can_retry then
    let retry_attempt := retry_attempt + 1 in
    let s := audit (tool_fallback_event (id a) decision retry_attempt) s in
    let s := if td_circuit_failure decision && negb quota then record_failure a s else s in
    let s := match is_upstream (exc_type e) with
             | Some _ => append_typed_failure a e false s
             | None => note_attempt (tool_retry_entry a) s
             end in
    let s := if float_truthy (in_backoff env)
             then note_sleep (in_jitter env (length (iv_calls s)) (retry_ceiling retry_attempt)) s
             else s in
    (s, Retry)
  else
    let decision := if is_retry then downgrade_to_failover decision else decision in
    let s := audit (tool_fallback_event (id a) decision retry_attempt) s in
    let s := if td_circuit_failure decision && negb quota then record_failure a s else s in
    match td_action decision with
    | FAIL_CLOSED =>
        let s := note_attempt (tool_stop_entry a "chat") s in
        (s, Stop (CToolFallbackStoppedError (id a) decision (Some (fail_closed_evidence s))))
    | _ => (append_typed_failure a e false s, Advance)
    end.

(** A measured group counts the failure, a quota rejection apart. *)
Definition feed_group (a : ModelAgent) (e : exc) (s : invoke_state) : invoke_state :=
  if measured a && negb (is_quota e)
  then with_router (observe_failure (in_group_cfg env) (id a) (iv_router s)) s
  else s.

(** A 429 or 503 records a cooldown. *)
Definition note_cooldown (a : ModelAgent) (u : ProviderUpstreamError) (s : invoke_state)
    : invoke_state :=
  match ue_provider_status u with
  | Some status =>
      if (status =? 429) || (status =? 503)
      then with_health
             (_record_rate_limit (in_health_cfg env) (id a)
                (ud_retry_after_seconds (ue_extra_detail u)) status
                (in_now env (length (iv_calls s))) (iv_health s)) s
      else s
  | None => s
  end.

(** From [isinstance(exc, ToolFallbackStoppedError)] on: the class of the
    exception selects the decision. *)
Definition dispatch_failure (a : ModelAgent) (retry_attempt : Z) (can_retry : bool) (l : loc)
    (e : exc) (s : invoke_state) : invoke_state * next_step :=
  match exc_type e with
  | CToolFallbackStoppedError aid d _ =>
      let s := note_attempt (tool_stop_entry a "chat") s in
      (s, Stop (CToolFallbackStoppedError aid d (Some (fail_closed_evidence s))))
  | CProviderUpstreamError u | CProviderRequestTooLargeError u =>
      let s := note_cooldown a u (note_upstream (is_quota e) u s) in
      if in_tracks_excluded env && String.eqb (ue_error_code u) "model_not_found"
      then (append_typed_failure a e false (record_failure a (note_excluded (id a) s)), Advance)
      else apply_decision a e retry_attempt can_retry
             (classify_provider_transport_failure (ue_retryable u)) s
  | CProviderResponseError failure_kind _ =>
      if negb (in_allowed env)
      then let s := append_typed_failure a e false s in
           (s, Stop (CProviderResponseError failure_kind (Some (fail_closed_evidence s))))
      else
        let s := note_response failure_kind s in
        let decision := classify_tool_failure (in_heap env) l false in
        let s := audit (tool_fallback_event (id a) decision retry_attempt) s in
        (append_typed_failure a e false (record_failure a s), Advance)
  | CLocalProviderAdmissionTimeout =>
      apply_decision a e retry_attempt can_retry
        (downgrade_to_failover (classify_tool_failure (in_heap env) l true)) s
  | _ => apply_decision a e retry_attempt can_retry
           (classify_tool_failure (in_heap env) l false) s
  end.

(** The [except Exception] handler of one attempt; a location that is not in
    the heap names no exception. *)
Definition handle_failure (a : ModelAgent) (retry_attempt : Z) (can_retry : bool) (l : loc)
    (s : invoke_state) : invoke_state * next_step :=
  match in_heap env !! l with
  | None => (s, Advance)
  | Some e =>
      if _is_request_too_large_error json_loads (in_heap env) l
      then (append_typed_failure a e true (note_too_large s), Advance)
      else dispatch_failure a retry_attempt can_retry l e (feed_group a e (note_other_failure s))
  end.

(** [_usage_completion_tokens] and [_usage_total_tokens]. *)
Definition usage_tokens (field : string) (usage : option (list (pyval * pyval))) : option Z :=
  match usage with
  | Some u => match dget field u with
              | VInt n => if n <=? 0 then None else Some n
              | _ => None
              end
  | None => None
  end.

(** The statements after a successful call. *)
Definition handle_success (a : ModelAgent) (r : chat_reply) (s : invoke_state)
    : invoke_state * invoke_outcome :=
  match
    (if measured a
     then observe_success (in_group_cfg env) (id a) (Some (cr_latency r))
            (usage_tokens "completion_tokens" (cr_usage r)) (usage_tokens "total_tokens" (cr_usage r))
            (in_now env (length (iv_calls s))) (iv_router s)
     else Ok (iv_router s)) with
  | Raise e => (s, InvValueError e)
  | Ok router =>
      let s := with_health (_record_success (id a) (iv_health s)) (with_router router s) in
      let s := match iv_attempts s with [] => s | _ => note_attempt (served_entry a) s end in
      (s, Served {| sv_output := cr_output r; sv_agent_id := id a; sv_model := model a;
                    sv_usage := cr_usage r |})
  end.

(** The [while True] of one agent; [left] retries remain. *)
Fixpoint attempt_agent (a : ModelAgent) (left : nat) (retry_attempt : Z) (s : invoke_state)
    : invoke_state * option invoke_outcome :=
  let n := length (iv_calls s) in
  let s := note_call (id a) s in
  match in_chat env n with
  | inl r => let '(s', out) := handle_success a r s in (s', Some out)
  | inr l =>
      match handle_failure a retry_attempt (match left with O => false | _ => true end) l s with
      | (s', Stop c) => (s', Some (InvRaise c))
      | (s', Advance) => (s', None)
      | (s', Retry) =>
          match left with
          | S left' => attempt_agent a left' (retry_attempt + 1) s'
          | O => (s', None)
          end
      end
  end.

Fixpoint attempt_candidates (candidates : list ModelAgent) (s : invoke_state)
    : invoke_state * option invoke_outcome :=
  match candidates with
  | [] => (s, None)
  | a :: rest =>
      match attempt_agent a (in_retry_limit env) 0 s with
      | (s', Some out) => (s', Some out)
      | (s', None) => attempt_candidates rest s'
      end
  end.

(** The upstream error that stands for the whole exhausted pool. *)
Definition terminal_upstream (last : ProviderUpstreamError)
    (quota retryable : option ProviderUpstreamError) : ProviderUpstreamError :=
  let terminal :=
    match quota with
    | Some q => if String.eqb (ue_error_code last) "model_not_found" then q else last
    | None => last
    end in
  match retryable with
  | Some r => if ue_retryable terminal then terminal else r
  | None => terminal
  end.

(** The statements after the candidate loop. *)
Definition invoke_exhausted (candidates : list ModelAgent) (role : string) (s : invoke_state)
    : invoke_outcome :=
  let n := Z.of_nat (length candidates) in
  let evidence := _route_evidence_payload (in_eligible env) (iv_attempts s) in
  let attached u := match iv_attempts s with
                    | [] => u
                    | _ => _attach_route_evidence_to_upstream_error u (evidence "eligible_set_exhausted")
                    end in
  match iv_last_response s, iv_response_failures s + iv_too_large s =? n with
  | Some kind, true =>
      InvRaise (CProviderResponseError kind
        (match iv_attempts s with [] => None | _ => Some (evidence "eligible_set_exhausted") end))
  | _, _ =>
      if negb (n =? 0) && iv_all_too_large s
      then InvRaise (CProviderRequestTooLargeError
             (_attach_route_evidence_to_upstream_error
                (request_too_large_error "request body exceeds every eligible provider limit" "" ""
                   None "chat") (evidence "request_too_large_exhausted")))
      else
        match iv_last_upstream s with
        | Some last =>
            InvRaise (CProviderUpstreamError
              (attached (terminal_upstream last (iv_last_quota s) (iv_last_retryable s))))
        | None =>
            InvRuntime (str_join "" ["all "; str_of_Z n; " candidate agents failed for role="; role])
        end
  end.

(** The sequential part of [_invoke]: everything after the race branch. *)
Definition invoke_sequential (candidates : list ModelAgent) (role : string) (h : health)
    (r : group_router) : invoke_state * invoke_outcome :=
  match attempt_candidates candidates (invoke_start h r) with
  | (s, Some out) => (s, out)
  | (s, None) => (s, invoke_exhausted candidates role s)
  end.

(** ** _invoke *)

(** A race among the equivalent members: its winner, "all failed" (a
    [RuntimeError], after which the sequential loop runs), or a timeout. *)
Inductive race_result :=
| RaceWon (winner_id : string) (s : served) (completion_ms : float)
| RaceLost
| RaceTimedOut.

Definition MAX_LOCAL_CONCURRENCY : nat := 64.

(** [reported > 0] of the first of the two usage fields that is present. *)
Definition race_output_tokens (usage : option (list (pyval * pyval))) : option Z :=
  match usage with
  | Some u =>
      match default (dget "output_tokens" u) (dict_get "completion_tokens" u) with
      | VInt n => if 0 <? n then Some n else None
      | _ => None
      end
  | None => None
  end.

Definition race_won (winner_id : string) (s : served) (completion_ms now : float) (h : health)
    (r : group_router) : invoke_state * invoke_outcome :=
  let start := invoke_start (_record_success winner_id h) r in
  match observe_success (in_group_cfg env) winner_id
          (Some (fdiv completion_ms (float_of_Z 1000))) (race_output_tokens (sv_usage s)) None now r with
  | Raise e => (start, InvValueError e)
  | Ok r' => (with_router r' start, Served s)
  end.

(** [_invoke] from the race on, over a non-empty candidate list. *)
Definition invoke_candidates (candidates : list ModelAgent) (role : string)
    (race : list ModelAgent → race_result) (race_now : float) (h : health) (r : group_router)
    : invoke_state * invoke_outcome :=
  match _equivalent_race_members candidates "text" with
  | [] => invoke_sequential candidates role h r
  | members =>
      if (MAX_LOCAL_CONCURRENCY <? length members)%nat
      then (invoke_start h r,
            InvValueError "immediate_race endpoint count exceeds the supported concurrency capacity")
      else
        match race members with
        | RaceWon winner_id s completion_ms => race_won winner_id s completion_ms race_now h r
        | RaceLost => invoke_sequential candidates role h r
        | RaceTimedOut => (invoke_start h r, InvRaise CTimeoutError)
        end
  end.
End invoke.

(** What [_invoke] knows before it has chosen its candidates: [in_eligible],
    [in_allowed] and [in_tracks_excluded] follow from the request. *)
Definition request_env (env : invoke_env) (candidates : list ModelAgent)
    (allowed_agent_ids excluded_agent_ids : option (list string)) : invoke_env :=
  {| in_heap := in_heap env; in_chat := in_chat env; in_now := in_now env; in_wall := in_wall env;
     in_jitter := in_jitter env; in_health_cfg := in_health_cfg env;
     in_group_cfg := in_group_cfg env; in_backoff := in_backoff env;
     in_retry_limit := in_retry_limit env;
     in_allowed := match allowed_agent_ids with Some _ => true | None => false end;
     in_tracks_excluded := match excluded_agent_ids with Some _ => true | None => false end;
     in_eligible := map id candidates |}.

Definition without_excluded (excluded_agent_ids : option (list string)) (l : list ModelAgent)
    : list ModelAgent :=
  match excluded_agent_ids with
  | None | Some [] => l
  | Some excluded => List.filter (λ a, negb (in_strs (id a) excluded)) l
  end.

Definition window_error (smallest_window lower_bound_tokens : Z) : ProviderUpstreamError :=
  request_too_large_error
    (str_join "" ["every eligible candidate's known context window (";
                  str_of_Z smallest_window;
                  " tokens, smallest known) is smaller than the prompt's lower-bound token count (";
                  str_of_Z lower_bound_tokens; ")"]) "" "" None "chat".

Definition failover_outcome (e : failover_error) : invoke_outcome :=
  match e with
  | NoRanking message => InvRuntime message
  | GroupNameError message => InvValueError message
  | TooLarge w bound => InvRaise (CProviderRequestTooLargeError (window_error w bound))
  end.

(** Ranking reads the ledger the invocation feeds. *)
Definition with_group_ledger (r : group_router) (env : ranking_env) : ranking_env :=
  {| re_ctx := re_ctx env; re_urlparse := re_urlparse env; re_agents := re_agents env;
     re_candidates := re_candidates env; re_prices := re_prices env; re_settings := re_settings env;
     re_ledgers := {| lg_group_cfg := lg_group_cfg (re_ledgers env); lg_group := r;
                      lg_quality_cfg := lg_quality_cfg (re_ledgers env);
                      lg_quality := lg_quality (re_ledgers env) |};
     re_affinities := re_affinities env; re_evidenced := re_evidenced env;
     re_role_fallback := re_role_fallback env |}.

(** [self._last_route_evidence] as an invocation leaves it. *)
Definition invoke_route (eligible : list string) (s : invoke_state) (out : invoke_outcome)
    : option route_evidence :=
  match out, iv_attempts s with
  | Served _, _ :: _ => Some (_route_evidence_payload eligible (iv_attempts s) "served")
  | _, _ => None
  end.

(** The whole of [_invoke]: the state, [_last_context_window_excluded],
    [_last_route_evidence], the outcome. *)
Definition _invoke (json_loads : string → option pyval) (parse_http_date : string → option float)
    (float_of_text : string → option float) (float_repr : float → string)
    (renv : ranking_env) (clock : probe_clock) (ienv : invoke_env) (primary : ModelAgent)
    (text role eligibility_role : string) (required_tags : list string)
    (allowed_agent_ids excluded_agent_ids : option (list string))
    (prompt_context effort_fallback : option string) (prompt_token_lower_bound : option Z)
    (race : list ModelAgent → race_result) (race_now : float) (h : health) (r : group_router)
    : invoke_state * list string * option route_evidence * invoke_outcome :=
  match _failover_candidates (with_group_ledger r renv) clock primary text
          (if str_truthy eligibility_role then eligibility_role else role) required_tags
          allowed_agent_ids prompt_context effort_fallback true prompt_token_lower_bound h with
  | (h, Raise e) => (invoke_start h r, [], None, failover_outcome e)
  | (h, Ok (candidates, window_excluded)) =>
      match without_excluded excluded_agent_ids candidates with
      | [] =>
          (invoke_start h r, window_excluded, None,
           match required_tags with
           | [] => InvRuntime (String.append "no chat-compatible agent available for role=" role)
           | _ => InvValueError (String.append "no enabled model supports required tags: "
                                   (str_join ", " required_tags))
           end)
      | candidates =>
          let '(s, out) :=
            invoke_candidates json_loads parse_http_date float_of_text float_repr
              (request_env ienv candidates allowed_agent_ids excluded_agent_ids)
              candidates role race race_now h r in
          (s, window_excluded, invoke_route (map id candidates) s out, out)
      end
  end.

(** ** What the handler decides

    The verdict on a failed call, read off the exception alone. *)

Inductive verdict := VRetry | VAdvance | VStop.

Definition next_verdict (n : next_step) : verdict :=
  match n with Retry => VRetry | Advance => VAdvance | Stop _ => VStop end.

Definition retry_if (b : bool) : verdict := if b then VRetry else VAdvance.

Section theory.
Context (json_loads : string → option pyval)
        (parse_http_date : string → option float)
        (float_of_text : string → option float)
        (float_repr : float → string)
        (env : invoke_env).

Abbreviation failing := (handle_failure json_loads parse_http_date float_of_text float_repr env).
Abbreviation attempt_one := (attempt_agent json_loads parse_http_date float_of_text float_repr env).
Abbreviation attempt_all := (attempt_candidates json_loads parse_http_date float_of_text float_repr env).
Abbreviation run := (invoke_sequential json_loads parse_http_date float_of_text float_repr env).
Abbreviation too_large_at := (_is_request_too_large_error json_loads (in_heap env)).

Definition failure_verdict (l : loc) (can_retry : bool) : verdict :=
  match in_heap env !! l with
  | None => VAdvance
  | Some e =>
      if too_large_at l then VAdvance else
      match exc_type e with
      | CToolFallbackStoppedError _ _ _ => VStop
      | CProviderUpstreamError u | CProviderRequestTooLargeError u =>
          if in_tracks_excluded env && String.eqb (ue_error_code u) "model_not_found" then VAdvance
          else retry_if (ue_retryable u && can_retry)
      | CProviderResponseError _ _ => if in_allowed env then VAdvance else VStop
      | CLocalProviderAdmissionTimeout => VAdvance
      | _ =>
          match td_action (classify_tool_failure (in_heap env) l false) with
          | RETRY_SAME_AGENT => retry_if can_retry
          | FAILOVER_AGENT => VAdvance
          | FAIL_CLOSED => VStop
          end
      end
  end.

(** Every provider call that fails raises an exception object of the heap. *)
Definition oracle_ok : Prop := ∀ n l, in_chat env n = inr l → is_Some (in_heap env !! l).

Definition failed_call (n : nat) (l : loc) (e : exc) : Prop :=
  in_chat env n = inr l ∧ in_heap env !! l = Some e.

Lemma apply_decision_verdict a e ra cr d s :
  next_verdict (apply_decision json_loads parse_http_date float_of_text float_repr env a e ra cr d s).2 =
  match td_action d with
  | RETRY_SAME_AGENT => retry_if cr
  | FAILOVER_AGENT => VAdvance
  | FAIL_CLOSED => VStop
  end.
Proof. unfold apply_decision. destruct (td_action d) eqn:Hd, cr; cbn; by rewrite ?Hd. Qed.

Lemma handle_failure_verdict a ra cr l s :
  next_verdict (failing a ra cr l s).2 = failure_verdict l cr.
Proof.
  unfold handle_failure, failure_verdict, dispatch_failure.
  destruct (in_heap env !! l) as [e|]; [|done]. destruct (too_large_at l); [done|].
  destruct (exc_type e); try (rewrite apply_decision_verdict; done); try done.
  all: try (destruct (_ && _) eqn:?; [done|]; rewrite apply_decision_verdict;
            by destruct (ue_retryable _)).
  destruct (in_allowed env); done.
Qed.

(** Bookkeeping that makes no call, writes no evidence row, and leaves other
    agents' breaker entries alone. *)
Definition quiet (a : ModelAgent) (s s' : invoke_state) : Prop :=
  iv_calls s' = iv_calls s ∧ iv_attempts s' = iv_attempts s ∧
  ∀ x, x ≠ id a → _circuit (iv_health s') !! x = _circuit (iv_health s) !! x.

(** What the handler of a failure of [a] leaves: the same, and one row of [a]. *)
Definition one_row (a : ModelAgent) (s s' : invoke_state) : Prop :=
  iv_calls s' = iv_calls s ∧
  (∃ row, iv_attempts s' = iv_attempts s ++ [row] ∧ at_agent_id row = id a ∧
          at_model row = model a ∧ at_outcome row ≠ "served") ∧
  ∀ x, x ≠ id a → _circuit (iv_health s') !! x = _circuit (iv_health s) !! x.

Lemma quiet_refl a s : quiet a s s.
Proof. done. Qed.

Lemma quiet_one_row a s1 s2 s3 : quiet a s1 s2 → one_row a s2 s3 → one_row a s1 s3.
Proof.
  intros (Hc & Ha & Hx) (Hc' & Hr & Hx'). split; [congruence|]. split; [by rewrite <- Ha|].
  intros x Hne. by rewrite Hx', Hx.
Qed.

Lemma one_row_quiet a s1 s2 s3 : one_row a s1 s2 → quiet a s2 s3 → one_row a s1 s3.
Proof.
  intros (Hc & Hr & Hx) (Hc' & Ha' & Hx'). split; [congruence|]. split; [by rewrite Ha'|].
  intros x Hne. by rewrite Hx', Hx.
Qed.

Lemma quiet_trans a s1 s2 s3 : quiet a s1 s2 → quiet a s2 s3 → quiet a s1 s3.
Proof.
  intros (? & ? & Hx) (? & ? & Hx'). split; [congruence|]. split; [congruence|].
  intros x Hne. by rewrite Hx', Hx.
Qed.

Lemma quiet_failure a s (b : bool) : quiet a s (if b then record_failure env a s else s).
Proof. destruct b; [|done]. split_and!; [done|done|]. intros x ?. cbn. by rewrite lookup_insert_ne. Qed.

Lemma record_rate_limit_circuit cfg aid retry st now h :
  _circuit (_record_rate_limit cfg aid retry st now h) = _circuit h.
Proof. unfold _record_rate_limit. by repeat case_match. Qed.

Lemma quiet_rate_limit a s cfg aid retry st now (b : bool) :
  quiet a s (if b then with_health (_record_rate_limit cfg aid retry st now (iv_health s)) s else s).
Proof. destruct b; [|done]. split_and!; [done|done|]. intros x ?. cbn. by rewrite record_rate_limit_circuit. Qed.

Lemma typed_outcome_not_served aid m u b : at_outcome (_typed_attempt_entry aid m u b) ≠ "served".
Proof. cbn. by repeat case_match. Qed.

Lemma one_row_typed a e b s :
  one_row a s (append_typed_failure json_loads parse_http_date float_of_text float_repr env a e b s).
Proof. split; [done|]. split; [|done]. eexists. by pose proof typed_outcome_not_served. Qed.

Lemma one_row_stop a t s : one_row a s (note_attempt (tool_stop_entry a t) s).
Proof. split; [done|]. split; [|done]. by eexists. Qed.

Lemma apply_decision_row a e ra cr d s :
  one_row a s
    (apply_decision json_loads parse_http_date float_of_text float_repr env a e ra cr d s).1.
Proof.
  unfold apply_decision. destruct (_ && cr) eqn:Hr; cbn [fst].
  - eapply quiet_one_row; [by eapply (quiet_trans _ _ (audit _ s)), quiet_failure|].
    eapply one_row_quiet; [|by destruct (float_truthy (in_backoff env))].
    destruct (is_upstream (exc_type e)); [apply one_row_typed|].
    split; [done|]. split; [|done]. by eexists.
  - eapply quiet_one_row; [by eapply (quiet_trans _ _ (audit _ s)), quiet_failure|].
    match goal with |- context [td_action (if ?b then ?x else ?y)] =>
      destruct (td_action (if b then x else y)) end;
    cbn [fst]; first [apply one_row_typed | apply one_row_stop].
Qed.

Lemma quiet_cooldown a u s s' : quiet a s' s → quiet a s' (note_cooldown env a u s).
Proof.
  intros Hq. unfold note_cooldown. destruct (ue_provider_status u); [|done].
  by eapply quiet_trans, quiet_rate_limit.
Qed.

Lemma quiet_feed a e s : quiet a s (feed_group env a e (note_other_failure s)).
Proof. unfold feed_group. by destruct (_ && _). Qed.

Lemma quiet_not_found a s : quiet a s (record_failure env a (note_excluded (id a) s)).
Proof. apply (quiet_trans a _ (note_excluded (id a) s)); [done|apply (quiet_failure a _ true)]. Qed.

Lemma dispatch_row a ra cr l e s :
  one_row a s
    (dispatch_failure json_loads parse_http_date float_of_text float_repr env a ra cr l e s).1.
Proof.
  unfold dispatch_failure.
  assert (Hup : ∀ u q, quiet a s (note_cooldown env a u (note_upstream q u s)))
    by (intros; by apply quiet_cooldown).
  destruct (exc_type e); try apply apply_decision_row; try apply one_row_stop.
  1,2: (destruct (_ && _); cbn [fst];
        [|eapply quiet_one_row; [apply Hup|apply apply_decision_row]];
        eapply quiet_one_row, one_row_typed;
        eapply quiet_trans; [apply Hup|];
        apply quiet_not_found).
  destruct (negb _); cbn [fst]; [apply one_row_typed|].
  eapply quiet_one_row; [|apply one_row_typed].
  eapply quiet_trans; [|apply (quiet_failure a _ true)]; done.
Qed.

Lemma handle_failure_row a ra cr l s :
  is_Some (in_heap env !! l) → one_row a s (failing a ra cr l s).1.
Proof.
  intros [e He]. unfold handle_failure. rewrite He.
  destruct (too_large_at l); [by eapply quiet_one_row, one_row_typed|].
  eapply quiet_one_row; [apply quiet_feed|apply dispatch_row].
Qed.

(** The errors the loop remembers for its exhaustion. *)
Definition memory (s : invoke_state)
    : option ProviderUpstreamError * option ProviderUpstreamError * option ProviderUpstreamError :=
  (iv_last_upstream s, iv_last_quota s, iv_last_retryable s).

Definition remember (l : loc) (e : exc)
    (m : option ProviderUpstreamError * option ProviderUpstreamError * option ProviderUpstreamError)
    : option ProviderUpstreamError * option ProviderUpstreamError * option ProviderUpstreamError :=
  if too_large_at l then m else
  match is_upstream (exc_type e) with
  | Some u => (Some u, if is_quota e then Some u else m.1.2,
               if ue_retryable u then Some u else m.2)
  | None => m
  end.

Lemma apply_decision_memory a e ra cr d s :
  memory (apply_decision json_loads parse_http_date float_of_text float_repr env a e ra cr d s).1 =
  memory s.
Proof. unfold apply_decision, append_typed_failure. by repeat case_match. Qed.

Lemma memory_not_found a e b s :
  memory (append_typed_failure json_loads parse_http_date float_of_text float_repr env a e b
            (record_failure env a (note_excluded (id a) s))) = memory s.
Proof. done. Qed.

Lemma handle_failure_memory a ra cr l e s :
  in_heap env !! l = Some e → memory (failing a ra cr l s).1 = remember l e (memory s).
Proof.
  intros He. unfold handle_failure, remember. rewrite He.
  destruct (too_large_at l); [done|].
  assert (Hf : memory (feed_group env a e (note_other_failure s)) = memory s)
    by (unfold feed_group; by destruct (_ && _)).
  rewrite <- Hf. set (s1 := feed_group _ _ _ _). clearbody s1. unfold dispatch_failure.
  assert (Hc : ∀ u s2, memory (note_cooldown env a u s2) = memory s2)
    by (intros; unfold note_cooldown; by repeat case_match).
  destruct (exc_type e) eqn:Ht; cbn [is_upstream]; try by rewrite ?apply_decision_memory.
  1,2: (destruct (_ && _); cbn [fst]; rewrite ?apply_decision_memory, ?memory_not_found;
        by rewrite Hc).
  by destruct (negb _).
Qed.

(** A quota rejection: status 429, and not a model that does not exist. *)
Definition quota_only (l : loc) (e : exc) : bool :=
  negb (too_large_at l) && is_quota e &&
  match is_upstream (exc_type e) with
  | Some u => negb (String.eqb (ue_error_code u) "model_not_found")
  | None => false
  end.

Lemma apply_decision_quota a e ra cr d s :
  is_quota e = true →
  let s' := (apply_decision json_loads parse_http_date float_of_text float_repr env a e ra cr d s).1 in
  _circuit (iv_health s') = _circuit (iv_health s) ∧ iv_router s' = iv_router s.
Proof.
  intros Hq. unfold apply_decision, append_typed_failure. rewrite Hq. cbn [negb].
  rewrite !andb_false_r. by repeat case_match.
Qed.

Lemma handle_failure_quota a ra cr l e s :
  in_heap env !! l = Some e → quota_only l e = true →
  let s' := (failing a ra cr l s).1 in
  _circuit (iv_health s') = _circuit (iv_health s) ∧ iv_router s' = iv_router s.
Proof.
  intros He Hq. unfold quota_only in Hq. bools. unfold handle_failure. rewrite He.
  destruct (too_large_at l) eqn:Htl; [done|]. unfold feed_group.
  match goal with H : is_quota e = true |- _ => rename H into Hquota end.
  rewrite Hquota. rewrite andb_false_r. unfold dispatch_failure.
  destruct (exc_type e) eqn:Ht; try done.
  all: cbn [is_upstream] in *; bools;
    (match goal with H : String.eqb _ _ = false |- _ => rewrite H end).
  all: rewrite andb_false_r.
  all: (edestruct apply_decision_quota as [Hc Hr]; [done|]; rewrite Hc, Hr);
    unfold note_cooldown; repeat case_match; cbn; by rewrite ?record_rate_limit_circuit.
Qed.

(** ** Induction over an invocation

    [I] holds between calls, [F] of the state and outcome of a call that ends
    the invocation. *)
Definition ends (I : invoke_state → Prop) (F : invoke_state → invoke_outcome → Prop)
    (p : invoke_state * option invoke_outcome) : Prop :=
  match p.2 with Some out => F p.1 out | None => I p.1 end.

Definition call_ok (I : invoke_state → Prop) (F : invoke_state → invoke_outcome → Prop)
    (a : ModelAgent) : Prop :=
  (∀ s l e ra cr, I s → failed_call (length (iv_calls s)) l e →
     let p := failing a ra cr l (note_call (id a) s) in
     match p.2 with Stop c => F p.1 (InvRaise c) | _ => I p.1 end) ∧
  (∀ s r, I s → in_chat env (length (iv_calls s)) = inl r →
     let p := handle_success env a r (note_call (id a) s) in F p.1 p.2).

Lemma attempt_agent_ends I F a left ra s :
  oracle_ok → call_ok I F a → I s → ends I F (attempt_one a left ra s).
Proof.
  intros Hor [Hfail Hok]. revert ra s. induction left as [|left IH]; intros ra s Hs;
    unfold ends; cbn [attempt_agent].
  all: destruct (in_chat env (length (iv_calls s))) as [r|l] eqn:Hc;
    [specialize (Hok s r Hs Hc); cbv zeta in Hok; by destruct (handle_success _ _ _ _)|].
  all: destruct (Hor _ _ Hc) as [e He].
  - specialize (Hfail s l e ra false Hs (conj Hc He)). cbv zeta in Hfail.
    by destruct (failing _ _ _ _ _) as [s' []].
  - specialize (Hfail s l e ra true Hs (conj Hc He)). cbv zeta in Hfail.
    destruct (failing _ _ _ _ _) as [s' []]; [|done|done]. by apply IH.
Qed.

Lemma attempt_candidates_ends I F cs s :
  oracle_ok → Forall (call_ok I F) cs → I s → ends I F (attempt_all cs s).
Proof.
  intros Hor Hcs. revert s. induction Hcs as [|a cs Ha Hcs IH]; intros s Hs; [done|].
  cbn [attempt_candidates].
  pose proof (attempt_agent_ends I F a (in_retry_limit env) 0 s Hor Ha Hs) as He.
  destruct (attempt_one _ _ _ _) as [s' [out|]]; [done|]. by apply IH.
Qed.

(** ** The order and number of calls *)

(** A block of calls of one agent: at most one per retry, and one more; every
    call of it but the last failed with an exception that allows a retry. *)
Definition retried (n : nat) : Prop :=
  ∃ l, in_chat env n = inr l ∧ failure_verdict l true = VRetry.

Lemma retry_is_retryable a ra cr l s :
  (failing a ra cr l s).2 = Retry → cr = true ∧ failure_verdict l true = VRetry.
Proof.
  intros H. pose proof (handle_failure_verdict a ra cr l s) as Hv. rewrite H in Hv. cbn in Hv.
  destruct cr; [done|]. exfalso. revert Hv. unfold failure_verdict.
  repeat case_match; cbn; try done; by rewrite ?andb_false_r.
Qed.

Lemma note_call_length x s : length (iv_calls (note_call x s)) = S (length (iv_calls s)).
Proof. cbn. rewrite length_app. cbn. lia. Qed.

Lemma handle_success_calls a r s : iv_calls (handle_success env a r s).1 = iv_calls s.
Proof. unfold handle_success. by repeat case_match. Qed.

Lemma attempt_agent_block a left ra s :
  oracle_ok → ∃ j, (j ≤ left)%nat ∧
    iv_calls (attempt_one a left ra s).1 = iv_calls s ++ replicate (S j) (id a) ∧
    ∀ m, (m < j)%nat → retried (length (iv_calls s) + m).
Proof.
  intros Hor. revert ra s. induction left as [|left IH]; intros ra s; cbn [attempt_agent];
    (destruct (in_chat env (length (iv_calls s))) as [r|l] eqn:Hc;
     [exists O; split; [lia|]; split; [|intros; lia];
      pose proof (handle_success_calls a r (note_call (id a) s)); by destruct (handle_success _ _ _ _)|]).
  - pose proof (handle_failure_row a ra false l (note_call (id a) s) (Hor _ _ Hc)) as [Hcalls _].
    exists O. split; [lia|]. split; [|intros; lia].
    by destruct (failing a ra false l _) as [s' []].
  - pose proof (handle_failure_row a ra true l (note_call (id a) s) (Hor _ _ Hc)) as [Hcalls _].
    pose proof (retry_is_retryable a ra true l (note_call (id a) s)) as Hret.
    destruct (failing a ra true l _) as [s' []]; cbn [fst snd] in *.
    2,3: exists O; split; [lia|]; split; [done|intros; lia].
    destruct (IH (ra + 1) s') as (j & Hj & Hcs & Hm). exists (S j). split; [lia|]. split.
    + rewrite Hcs, Hcalls. cbn. by rewrite <- app_assoc.
    + intros [|m] Hlt; [rewrite Nat.add_0_r; exists l; split; [done|by apply Hret]|].
      specialize (Hm m ltac:(lia)). rewrite Hcalls, note_call_length in Hm.
      by rewrite <- Nat.add_succ_comm.
Qed.

Lemma attempt_candidates_calls cs s :
  oracle_ok →
  let p := attempt_all cs s in
  ∃ ns, (length ns ≤ length cs)%nat ∧ Forall (λ n, 1 ≤ n ≤ S (in_retry_limit env))%nat ns ∧
    iv_calls p.1 = iv_calls s ++ concat (zip_with (λ a n, replicate n (id a)) cs ns) ∧
    (p.2 = None → length ns = length cs).
Proof.
  intros Hor. cbv zeta. revert s. induction cs as [|a cs IH]; intros s; cbn [attempt_candidates].
  { exists []. cbn. rewrite app_nil_r. by split_and!. }
  destruct (attempt_agent_block a (in_retry_limit env) 0 s Hor) as (j & Hj & Hcalls & _).
  destruct (attempt_one _ _ _ _) as [s' [out|]]; cbn [fst] in *.
  - exists [S j]. cbn [length]. split; [lia|]. split; [constructor; [lia|done]|].
    split; [|done]. rewrite Hcalls. f_equal. cbn. destruct cs; cbn; by rewrite app_nil_r.
  - destruct (IH s') as (ns & Hlen & Hns & Hc & Hex). exists (S j :: ns). cbn [length].
    split; [lia|]. split; [constructor; [lia|done]|]. split; [|intros Hp; f_equal; by apply Hex].
    rewrite Hc, Hcalls. cbn [zip_with concat]. by rewrite <- app_assoc.
Qed.

(** Two calls in a row to one agent are a retry the first failure allows. *)
Lemma attempt_candidates_retries cs s :
  oracle_ok → NoDup (map id cs) →
  ∃ new, iv_calls (attempt_all cs s).1 = iv_calls s ++ new ∧ Forall (λ x, x ∈ map id cs) new ∧
    ∀ p x, new !! p = Some x → new !! S p = Some x → retried (length (iv_calls s) + p).
Proof.
  intros Hor. revert s. induction cs as [|a cs IH]; intros s Hnd; cbn [attempt_candidates].
  { exists []. by rewrite app_nil_r. }
  apply NoDup_cons in Hnd as [Hnot Hnd].
  destruct (attempt_agent_block a (in_retry_limit env) 0 s Hor) as (j & Hj & Hcalls & Hm).
  destruct (attempt_one _ _ _ _) as [s' [out|]]; cbn [fst] in *.
  - exists (replicate (S j) (id a)). split; [done|]. split.
    + apply Forall_replicate. cbn. by left.
    + intros p x _ Hp%lookup_replicate. apply Hm. lia.
  - destruct (IH s' Hnd) as (new & Hc & Hin & Hret). exists (replicate (S j) (id a) ++ new).
    split; [by rewrite Hc, Hcalls, <- app_assoc|]. split.
    { apply Forall_app. split; [apply Forall_replicate; cbn; by left|].
      eapply Forall_impl; [done|]. intros x Hx. cbn. by right. }
    intros p x H1 H2. destruct (decide (p < j)%nat) as [|Hge]; [by apply Hm|].
    rewrite lookup_app_r in H2 by (rewrite length_replicate; lia). rewrite length_replicate in H2.
    destruct (decide (p = j)) as [->|Hne].
    + rewrite lookup_app_l in H1 by (rewrite length_replicate; lia).
      apply lookup_replicate in H1 as [-> _].
      apply list_elem_of_lookup_2 in H2. rewrite Forall_forall in Hin. exfalso. by apply Hnot, Hin.
    + rewrite lookup_app_r in H1 by (rewrite length_replicate; lia). rewrite length_replicate in H1.
      specialize (Hret (p - S j)%nat x H1).
      replace (S p - S j)%nat with (S (p - S j)) in H2 by lia. specialize (Hret H2).
      rewrite Hcalls, length_app, length_replicate in Hret.
      by replace (length (iv_calls s) + S j + (p - S j))%nat with (length (iv_calls s) + p)%nat in Hret by lia.
Qed.

(** ** What holds between calls, and at the end *)

(** Call [n] failed, and its failure let the invocation go on. *)
Definition went_on (n : nat) : Prop :=
  ∃ l e, failed_call n l e ∧ failure_verdict l true ≠ VStop.

Definition rows_match (s : invoke_state) : Prop := map at_agent_id (iv_attempts s) = iv_calls s.

Definition between (s : invoke_state) : Prop :=
  (∀ n, (n < length (iv_calls s))%nat → went_on n) ∧ rows_match s.

(** The route evidence an exception of the invocation carries. *)
Definition route_of (c : exc_class) : option route_evidence :=
  match c with
  | CToolFallbackStoppedError _ _ r | CProviderResponseError _ r => r
  | CProviderUpstreamError u | CProviderRequestTooLargeError u => ud_route (ue_extra_detail u)
  | _ => None
  end.

Definition stopped_by (s : invoke_state) (c : exc_class) : Prop :=
  is_upstream c = None ∧
  route_of c = Some (_route_evidence_payload (in_eligible env) (iv_attempts s) "fail_closed").

Definition final (s : invoke_state) (out : invoke_outcome) : Prop :=
  ∃ n, length (iv_calls s) = S n ∧ (∀ m, (m < n)%nat → went_on m) ∧
  match out with
  | Served sv =>
      ∃ r, in_chat env n = inl r ∧ sv_output sv = cr_output r ∧ sv_usage sv = cr_usage r ∧
        last (iv_calls s) = Some (sv_agent_id sv) ∧
        (if (n =? 0)%nat then iv_attempts s = []
         else rows_match s ∧ at_outcome <$> last (iv_attempts s) = Some "served")
  | InvRaise c =>
      ∃ l e, failed_call n l e ∧ failure_verdict l true = VStop ∧ rows_match s ∧ stopped_by s c
  | InvValueError _ => ∃ r, in_chat env n = inl r
  | InvRuntime _ => False
  end.

Lemma apply_decision_stop a e ra cr d s c :
  let p := apply_decision json_loads parse_http_date float_of_text float_repr env a e ra cr d s in
  p.2 = Stop c → stopped_by p.1 c.
Proof. unfold apply_decision. cbv zeta. by repeat case_match; intros [= <-]. Qed.

Lemma handle_failure_stop a ra cr l s c :
  (failing a ra cr l s).2 = Stop c → stopped_by (failing a ra cr l s).1 c.
Proof.
  unfold handle_failure. destruct (in_heap env !! l) as [e|]; [|done].
  destruct (too_large_at l); [done|]. set (s1 := feed_group _ _ _ _). clearbody s1.
  unfold dispatch_failure.
  destruct (exc_type e); try apply apply_decision_stop; try by intros [= <-].
  1,2: destruct (_ && _); [done|apply apply_decision_stop].
  destruct (negb _); [by intros [= <-]|done].
Qed.

Lemma verdict_stop_any l cr : failure_verdict l cr = VStop ↔ failure_verdict l true = VStop.
Proof. unfold failure_verdict. destruct cr; [done|]. repeat case_match; cbn; try done; by destruct (ue_retryable _). Qed.

Lemma rows_match_row a s s' :
  rows_match s → one_row a (note_call (id a) s) s' → rows_match s'.
Proof.
  intros Hr (Hc & (row & Hrow & Hid & _) & _). unfold rows_match. rewrite Hc, Hrow, map_app. cbn.
  by rewrite Hr, Hid.
Qed.

Lemma went_on_snoc a s s' l e :
  (∀ n, (n < length (iv_calls s))%nat → went_on n) → iv_calls s' = iv_calls s ++ [id a] →
  failed_call (length (iv_calls s)) l e → failure_verdict l true ≠ VStop →
  ∀ n, (n < length (iv_calls s'))%nat → went_on n.
Proof.
  intros Hall Hc Hf Hv n. rewrite Hc, length_app. cbn. intros Hn.
  destruct (decide (n = length (iv_calls s))) as [->|]; [by exists l, e|apply Hall; lia].
Qed.

Lemma between_failure a s l e ra cr :
  between s → failed_call (length (iv_calls s)) l e →
  let p := failing a ra cr l (note_call (id a) s) in
  match p.2 with Stop c => final p.1 (InvRaise c) | _ => between p.1 end.
Proof.
  intros [Hall Hrows] Hf. cbv zeta.
  pose proof (handle_failure_row a ra cr l (note_call (id a) s) (mk_is_Some _ _ (proj2 Hf))) as Hrow.
  pose proof (rows_match_row a s _ Hrows Hrow) as Hrows'. destruct Hrow as [Hc _].
  pose proof (handle_failure_verdict a ra cr l (note_call (id a) s)) as Hv.
  pose proof (handle_failure_stop a ra cr l (note_call (id a) s)) as Hstop.
  destruct (failing a ra cr l _) as [s' st]; cbn [fst snd] in *.
  assert (Hgo : st = Retry ∨ st = Advance → between s').
  { intros Hst. split; [|done]. apply (went_on_snoc a s s' l e); [done|exact Hc|done|].
    intros Hx%(proj2 (verdict_stop_any l cr)). rewrite Hx in Hv. by destruct Hst as [-> | ->]. }
  destruct st as [| |c]; [apply Hgo; by left|apply Hgo; by right|].
  exists (length (iv_calls s)). split; [rewrite Hc; apply note_call_length|]. split; [done|].
  exists l, e. split; [done|]. split; [by apply (verdict_stop_any l cr)|]. split; [done|].
  by apply Hstop.
Qed.

Lemma between_success a s r :
  between s → in_chat env (length (iv_calls s)) = inl r →
  let p := handle_success env a r (note_call (id a) s) in final p.1 p.2.
Proof.
  intros [Hall Hrows] Hr. cbv zeta. unfold handle_success.
  destruct (if measured env a then _ else _) as [router|msg]; cbn [fst snd].
  2: { exists (length (iv_calls s)). split; [apply note_call_length|]. by eauto. }
  cbn [iv_attempts with_health with_router note_call].
  destruct (iv_attempts s) as [|row rows] eqn:Hatt.
  - assert (Hnil : iv_calls s = []) by (by rewrite <- Hrows, Hatt).
    exists O. cbn. rewrite Hnil in *. split; [done|]. split; [intros; lia|]. exists r. by cbn.
  - exists (length (iv_calls s)). split; [apply note_call_length|]. split; [done|].
    exists r. cbn. rewrite Hatt. rewrite !last_snoc. split; [done|]. split; [done|]. split; [done|]. split; [done|].
    assert (Hlen : length (iv_calls s) = S (length rows))
      by (rewrite <- Hrows, Hatt; cbn; by rewrite length_map).
    rewrite Hlen. cbn [Nat.eqb]. split; [|by rewrite ?last_snoc].
    unfold rows_match. cbn. rewrite Hatt. cbn. rewrite map_app. cbn.
    pose proof Hrows as Hrows'. unfold rows_match in Hrows'. rewrite Hatt in Hrows'. cbn in Hrows'.
    by rewrite <- Hrows'.
Qed.

Lemma invoke_ends cs h r : oracle_ok → ends between final (attempt_all cs (invoke_start h r)).
Proof.
  intros Hor. apply attempt_candidates_ends; [done| |by split; [intros n Hn; cbn in Hn; lia|]].
  apply Forall_true. intros a. split; intros; by first [apply between_failure with e | apply between_success].
Qed.

(** ** What exhaustion remembers *)

(** Call [n] failed with the upstream error [u], and not as too large. *)
Definition upstream_call (n : nat) (u : ProviderUpstreamError) : Prop :=
  ∃ l e, failed_call n l e ∧ too_large_at l = false ∧ is_upstream (exc_type e) = Some u.

Definition seen_upstream (s : invoke_state) (u : ProviderUpstreamError) : Prop :=
  ∃ n, (n < length (iv_calls s))%nat ∧ upstream_call n u.

Definition remembers (s : invoke_state) : Prop :=
  (∀ u, iv_last_upstream s = Some u → seen_upstream s u) ∧
  (∀ u, iv_last_quota s = Some u → seen_upstream s u) ∧
  (∀ u, iv_last_retryable s = Some u → seen_upstream s u ∧ ue_retryable u = true) ∧
  (∀ u, seen_upstream s u → is_Some (iv_last_upstream s) ∧
        (ue_retryable u = true → is_Some (iv_last_retryable s))).

Lemma failed_call_unique n l e l' e' : failed_call n l e → failed_call n l' e' → l = l' ∧ e = e'.
Proof. intros [H1 H2] [H1' H2']. rewrite H1 in H1'. injection H1' as ->. split; [done|congruence]. Qed.

Lemma seen_upstream_snoc a s s' l e u :
  failed_call (length (iv_calls s)) l e → iv_calls s' = iv_calls s ++ [id a] →
  seen_upstream s' u ↔
  seen_upstream s u ∨ (too_large_at l = false ∧ is_upstream (exc_type e) = Some u).
Proof.
  intros Hf Hc. unfold seen_upstream. rewrite Hc, length_app. cbn. split.
  - intros (n & Hn & Hu). destruct (decide (n = length (iv_calls s))) as [->|].
    + right. destruct Hu as (l' & e' & Hf' & ? & ?).
      by destruct (failed_call_unique _ _ _ _ _ Hf Hf') as [-> ->].
    + left. exists n. split; [lia|done].
  - intros [(n & Hn & Hu)|[Hl Hu]]; [exists n; split; [lia|done]|].
    exists (length (iv_calls s)). split; [lia|]. by exists l, e.
Qed.

Lemma remembers_failure a s l e ra cr :
  remembers s → failed_call (length (iv_calls s)) l e →
  remembers (failing a ra cr l (note_call (id a) s)).1.
Proof.
  intros (Hu & Hq & Hr & Hall) Hf. pose proof Hf as [_ He].
  pose proof (handle_failure_memory a ra cr l e (note_call (id a) s) He) as Hmem.
  pose proof (handle_failure_row a ra cr l (note_call (id a) s) (mk_is_Some _ _ He)) as [Hc _].
  set (s' := (failing _ _ _ _ _).1) in *. clearbody s'.
  assert (Hseen : ∀ u, seen_upstream s' u ↔
    seen_upstream s u ∨ (too_large_at l = false ∧ is_upstream (exc_type e) = Some u))
    by (intros; by apply (seen_upstream_snoc a)).
  change (memory s' = remember l e (memory s)) in Hmem.
  assert (iv_last_upstream s' = (remember l e (memory s)).1.1 ∧
          iv_last_quota s' = (remember l e (memory s)).1.2 ∧
          iv_last_retryable s' = (remember l e (memory s)).2) as (H1 & H2 & H3)
    by (by rewrite <- Hmem).
  clear Hmem Hc. unfold remembers. rewrite H1, H2, H3. clear H1 H2 H3. unfold remember.
  destruct (match (too_large_at l, is_upstream (exc_type e)) with
            | (false, Some u) => Some u | _ => None end) as [u0|] eqn:Hcase.
  2: { assert (Hsame : ∀ u, seen_upstream s' u ↔ seen_upstream s u).
       { intros u. rewrite Hseen. split; [|by left]. intros [?|[Htl Hux]]; [done|].
         by rewrite Htl, Hux in Hcase. }
       destruct (too_large_at l); [|destruct (is_upstream (exc_type e)); [done|]];
         cbn [fst snd memory]; setoid_rewrite Hsame; done. }
  destruct (too_large_at l) eqn:Htl; [done|]. destruct (is_upstream (exc_type e)) as [u1|] eqn:Hup; [|done].
  injection Hcase as ->. cbn [fst snd memory]. setoid_rewrite Hseen. split_and!.
  - intros u [= <-]. by right.
  - intros u. destruct (is_quota e); [intros [= <-]; by right|]. intros ?. left. by apply Hq.
  - intros u. destruct (ue_retryable u0) eqn:Hret; [intros [= <-]; split; [by right|done]|].
    intros ?. destruct (Hr u); [done|]. split; [by left|done].
  - intros u [Hs|[_ [= <-]]]; (split; [done|]); intros Hret.
    + destruct (ue_retryable u0); [done|]. by apply (Hall u Hs).
    + by rewrite Hret.
Qed.

Lemma remembers_run cs h r :
  oracle_ok →
  ends remembers (λ _ out, match out with
                           | InvRaise c => is_upstream c = None
                           | _ => True
                           end) (attempt_all cs (invoke_start h r)).
Proof.
  intros Hor. apply attempt_candidates_ends; [done| |].
  2: { unfold remembers, seen_upstream. cbn. split_and!; try done. intros u (n & Hn & _). lia. }
  apply Forall_true. intros a. split.
  - intros s l e ra cr Hs Hf. cbv zeta. pose proof (remembers_failure a s l e ra cr Hs Hf) as Hr.
    pose proof (handle_failure_stop a ra cr l (note_call (id a) s)) as Hstop.
    destruct (failing a ra cr l _) as [s' []]; cbn in *; [done|done|]. by apply Hstop.
  - intros s rep Hs _. cbv zeta. unfold handle_success. by repeat case_match.
Qed.

(** ** Quota rejections *)

Definition quota_call (n : nat) : Prop := ∃ l e, failed_call n l e ∧ quota_only l e = true.

(** Agents that only met quota rejections keep their breaker entry; when nobody
    met anything else, the group ledgers are as they were. *)
Definition quota_blind (h : health) (r : group_router) (s : invoke_state) : Prop :=
  (∀ x, (∀ n, iv_calls s !! n = Some x → quota_call n) →
        _circuit (iv_health s) !! x = _circuit h !! x) ∧
  ((∀ n, (n < length (iv_calls s))%nat → quota_call n) → iv_router s = r).

Lemma quota_blind_failure h r a s l e ra cr :
  quota_blind h r s → failed_call (length (iv_calls s)) l e →
  quota_blind h r (failing a ra cr l (note_call (id a) s)).1.
Proof.
  intros [Hx Hr] Hf. pose proof Hf as [_ He].
  pose proof (handle_failure_row a ra cr l (note_call (id a) s) (mk_is_Some _ _ He)) as (Hc & _ & Hframe).
  pose proof (handle_failure_quota a ra cr l e (note_call (id a) s) He) as Hquota.
  set (s' := (failing _ _ _ _ _).1) in *. clearbody s'. cbn in Hc, Hframe, Hquota.
  assert (Hlast : quota_call (length (iv_calls s)) → quota_only l e = true).
  { intros (l' & e' & Hf' & Hq). by destruct (failed_call_unique _ _ _ _ _ Hf Hf') as [-> ->]. }
  assert (Hat : iv_calls s' !! length (iv_calls s) = Some (id a))
    by (rewrite Hc; apply list_lookup_middle; done).
  split.
  - intros x Hall.
    assert (Hprev : ∀ n, iv_calls s !! n = Some x → quota_call n)
      by (intros n Hn; apply Hall; rewrite Hc; by apply lookup_app_l_Some).
    destruct (decide (x = id a)) as [->|Hne]; [|by rewrite Hframe, Hx].
    destruct (Hquota (Hlast (Hall _ Hat))) as [-> _]. by apply Hx.
  - intros Hall. rewrite Hc, length_app in Hall. cbn in Hall.
    destruct (Hquota (Hlast (Hall (length (iv_calls s)) ltac:(lia)))) as [_ ->].
    apply Hr. intros n Hn. apply Hall. lia.
Qed.

Lemma quota_blind_success h r a s rep :
  quota_blind h r s → in_chat env (length (iv_calls s)) = inl rep →
  quota_blind h r (handle_success env a rep (note_call (id a) s)).1.
Proof.
  intros [Hx _] Hrep.
  assert (Hno : ¬ quota_call (length (iv_calls s))) by (intros (l & e & [Hc _] & _); congruence).
  assert (Hc : iv_calls (handle_success env a rep (note_call (id a) s)).1 = iv_calls s ++ [id a])
    by (by rewrite handle_success_calls).
  assert (Hcirc : ∀ x, x ≠ id a →
    _circuit (iv_health (handle_success env a rep (note_call (id a) s)).1) !! x =
    _circuit (iv_health s) !! x).
  { intros x Hne. unfold handle_success. destruct (if measured env a then _ else _); [|done]. cbn.
    destruct (iv_attempts s); cbn; by rewrite lookup_delete_ne. }
  split.
  - intros x Hall. rewrite Hc in Hall.
    assert (x ≠ id a) by (intros ->; apply Hno, Hall; by apply list_lookup_middle).
    rewrite Hcirc by done. apply Hx. intros n Hn. apply Hall. by apply lookup_app_l_Some.
  - intros Hall. exfalso. apply Hno, Hall. rewrite Hc, length_app. cbn. lia.
Qed.

Lemma quota_blind_run cs h r :
  oracle_ok → quota_blind h r (attempt_all cs (invoke_start h r)).1.
Proof.
  intros Hor.
  assert (He : ends (quota_blind h r) (λ s _, quota_blind h r s) (attempt_all cs (invoke_start h r))).
  { apply attempt_candidates_ends; [done| |done]. apply Forall_true. intros a. split.
    - intros s l e ra cr Hs Hf. cbv zeta. pose proof (quota_blind_failure h r a s l e ra cr Hs Hf).
      by destruct (failing a ra cr l _) as [s' []].
    - intros s rep Hs Hrep. by apply quota_blind_success. }
  unfold ends in He. by destruct (attempt_all _ _) as [s [out|]].
Qed.
End theory.

(** ** Candidates *)

Lemma filter_health_sublist p l h : (filter_health p l h).2 `sublist_of` l.
Proof.
  revert h. induction l as [|a l IH]; intros h; cbn; [constructor|].
  destruct (p a h) as [h1 keep]. specialize (IH h1). destruct (filter_health p l h1).
  destruct keep; by constructor.
Qed.

Lemma or_list_sublist {A} (l l' : list A) : l `sublist_of` l' → or_list l l' `sublist_of` l'.
Proof. by destruct l. Qed.

Lemma or_list_nonempty {A} (l l' : list A) : l' ≠ [] → or_list l l' ≠ [].
Proof. by destruct l. Qed.

Lemma filter_sublist {A} (p : A → bool) (l : list A) : List.filter p l `sublist_of` l.
Proof. induction l as [|x l IH]; cbn; [done|]. destruct (p x); by constructor. Qed.

Lemma apply_window_sublist l bound kept excluded :
  _apply_context_window_filter l bound = Ok (kept, excluded) → kept `sublist_of` l.
Proof.
  unfold _apply_context_window_filter, _context_window_exclusions.
  intros H.
  assert (kept = List.filter (λ a, negb (window_excluded bound a)) l) as ->; [|apply filter_sublist].
  revert H. repeat case_match; intros [= <- <-]; by simplify_eq.
Qed.

Lemma filter_res_sublist {E A} (p : A → res E bool) l out :
  filter_res p l = Ok out → out `sublist_of` l ∧ Forall (λ x, p x = Ok true) out.
Proof.
  revert out. induction l as [|x l IH]; intros out; cbn; [by intros [= <-]|]. intros H.
  apply bind_Ok_inv in H as (keep & Hk & H). apply bind_Ok_inv in H as (rest & Hr & [= <-]).
  destruct (IH rest Hr) as [Hs Hf]. destruct keep; (split; [by constructor|]); [by constructor|done].
Qed.

(** What every failover candidate satisfies. *)
Definition may_serve (env : ranking_env) (primary : ModelAgent) (role : string)
    (required_tags : list string) (allowed : option (list string)) (a : ModelAgent) : Prop :=
  (a = primary ∨ a ∈ re_agents env) ∧ disabled a = false ∧
  _zdr_agent_allowed (re_ctx env) a = true ∧ _is_general_chat_agent a = true ∧
  _agent_matches_required_tags a required_tags = true ∧ excluded_for role a = false ∧
  match allowed with
  | Some l => id a ∈ l
  | None => a = primary ∨ same_group primary a = Ok true
  end.

Lemma sublist_ids l l' : l `sublist_of` l' → NoDup (ids l') → NoDup (ids l).
Proof. intros Hs Hnd. eapply sublist_NoDup; [exact Hnd|]. unfold ids. by apply (fmap_sublist id). Qed.

Lemma failover_eligible_spec env primary role rt allowed ranked elig :
  NoDup (ids ranked) → (∀ a, a ∈ ranked → a ∈ re_agents env) →
  failover_eligible env primary role rt allowed ranked = Ok elig →
  NoDup (ids elig) ∧ Forall (may_serve env primary role rt allowed) elig.
Proof.
  intros Hnd Hin H. unfold failover_eligible in H. apply bind_Ok_inv in H as (r & Hr & [= <-]).
  assert (Hsub : r `sublist_of` ranked ∧ ∀ a, a ∈ r →
    match allowed with Some l => id a ∈ l | None => same_group primary a = Ok true end).
  { destruct allowed as [l|].
    - injection Hr as <-. split; [apply filter_sublist|]. intros a Ha.
      apply list_elem_of_In, filter_In in Ha as [_ Ha]. by apply in_strs_spec.
    - apply map_raise_Ok, filter_res_sublist in Hr as [Hs Hf]. split; [done|].
      by rewrite Forall_forall in Hf. }
  clear Hr. destruct Hsub as [Hsub Hr].
  set (others := List.filter _ r). 
  set (front := if match allowed with Some l => in_strs (id primary) l | None => true end
                then [primary] else []).
  assert (Hoth : ∀ a, a ∈ others → a ∈ r ∧ id a ≠ id primary).
  { intros a Ha. apply list_elem_of_In, filter_In in Ha as [Ha Hne]. split; [by apply list_elem_of_In|].
    apply negb_true_iff in Hne. by apply String.eqb_neq. }
  split.
  - eapply sublist_ids; [apply filter_sublist|].
    assert (Hno : NoDup (ids others)).
    { eapply sublist_ids; [apply filter_sublist|]. by eapply sublist_ids. }
    subst front. destruct allowed as [l|]; [destruct (in_strs (id primary) l); [|done]|].
    all: cbn; constructor; [|done].
    all: intros Hx; apply (list_elem_of_fmap_1 id) in Hx as (b & Hid & Hb); by apply Hoth in Hb as [_ ?].
  - apply Forall_forall. intros a Ha. apply list_elem_of_In, filter_In in Ha as [Ha Hp].
    rewrite !andb_true_iff, !negb_true_iff in Hp. destruct Hp as ((((Hd & Hz) & Hc) & Ht) & Hx).
    apply list_elem_of_In, elem_of_app in Ha. unfold may_serve.
    assert ((a = primary ∨ a ∈ re_agents env) ∧
            match allowed with Some l => id a ∈ l | None => a = primary ∨ same_group primary a = Ok true end)
      as [Hwho Hall].
    { destruct Ha as [Ha|Ha].
      - subst front. destruct allowed as [l|].
        + destruct (in_strs (id primary) l) eqn:Hl; [|by apply elem_of_nil in Ha].
          apply list_elem_of_singleton in Ha as ->. split; [by left|]. by apply in_strs_spec.
        + apply list_elem_of_singleton in Ha as ->. split; by left.
      - apply Hoth in Ha as [Ha _]. split.
        + right. apply Hin. by eapply elem_of_sublist.
        + specialize (Hr a Ha). destruct allowed; [done|by right]. }
    split_and!; done.
Qed.

Lemma probed_sublist p l h : or_list (filter_health p l h).2 l `sublist_of` l.
Proof. apply or_list_sublist, filter_health_sublist. Qed.

(** Health probes drop candidates but never add or reorder any, and never drop
    all of them. *)
Lemma failover_candidates_sublist env clock primary text role rt allowed ctx ef skip bound h h' cs ex :
  _failover_candidates env clock primary text role rt allowed ctx ef skip bound h = (h', Ok (cs, ex)) →
  (cs = [] ∧ ∃ m, _ranked_agents env text role rt false true None ctx ef = Raise m) ∨
  ∃ ranked elig, _ranked_agents env text role rt false true None ctx ef = Ok ranked ∧
    failover_eligible env primary role rt allowed ranked = Ok elig ∧
    cs `sublist_of` elig ∧ (bound = None → elig ≠ [] → cs ≠ []).
Proof.
  unfold _failover_candidates.
  destruct (_ranked_agents env text role rt false true None ctx ef) as [ranked|m] eqn:Hr.
  2: { intros H. left. split; [|by exists m]. revert H. repeat case_match; try done. by intros [= _ <- _]. }
  destruct (failover_eligible env primary role rt allowed ranked) as [elig|e] eqn:He; [|done].
  intros H. right. exists ranked, elig. split; [done|]. split; [done|].
  pose proof (probed_sublist (circuit_closed clock) elig h) as Hs1.
    pose proof (or_list_nonempty (filter_health (circuit_closed clock) elig h).2 elig) as Hn1.
    destruct (filter_health (circuit_closed clock) elig h) as [h1 l1]. cbn [snd] in *.
    set (l2 := or_list l1 elig) in *.
    pose proof (probed_sublist (not_rate_limited clock) l2 h1) as Hs2.
    pose proof (or_list_nonempty (filter_health (not_rate_limited clock) l2 h1).2 l2) as Hn2.
    destruct (filter_health (not_rate_limited clock) l2 h1) as [h2 l3]. cbn [snd] in *.
    assert (∃ l, l `sublist_of` elig ∧ (elig ≠ [] → l ≠ []) ∧
      (bound = None ∧ cs = l ∨ ∃ b, bound = Some b ∧ cs `sublist_of` l)) as (l & Hs & Hn & Hb).
    { destruct skip; destruct bound as [b|]; cbv beta iota zeta in H.
      - injection H as _ H. apply apply_window_sublist in H. exists (or_list l3 l2). split; [by etrans|]. split; [tauto|].
        right. by exists b.
      - injection H as _ <- _. exists (or_list l3 l2). split; [by etrans|]. split; [tauto|]. by left.
      - injection H as _ H. apply apply_window_sublist in H. exists l2. split; [done|]. split; [tauto|].
        right. by exists b.
      - injection H as _ <- _. exists l2. split; [done|]. split; [tauto|]. by left. }
    destruct Hb as [[-> ->]|(b & -> & Hc)]; [by split|]. split; [by etrans|done].
Qed.

(** Failover candidates are sound and complete under health pressure: every
    candidate is the selected agent or a configured one, enabled, admitted by
    the privacy policy, a chat model with the required tags, not excluded from
    the role, inside the caller's allow-list (or the primary's model group when
    there is none), and appears once; and neither open circuits nor cooldowns
    can empty a non-empty eligible set. *)
Theorem failover_candidates_sound env clock primary text role rt allowed ctx ef skip bound h h' cs ex :
  NoDup (ids (re_agents env)) → evidenced_ok (re_evidenced env (default "" ctx)) →
  _failover_candidates env clock primary text role rt allowed ctx ef skip bound h = (h', Ok (cs, ex)) →
  NoDup (ids cs) ∧ Forall (may_serve env primary role rt allowed) cs ∧
  ∀ ranked elig,
    _ranked_agents env text role rt false true None ctx ef = Ok ranked →
    failover_eligible env primary role rt allowed ranked = Ok elig →
    cs `sublist_of` elig ∧ (bound = None → elig ≠ [] → cs ≠ []).
Proof.
  intros Hnd Hev H.
  destruct (failover_candidates_sublist _ _ _ _ _ _ _ _ _ _ _ _ _ _ _ H)
    as [[-> [m Hr]]|(ranked & elig & Hr & He & Hsub & Hne)].
  { split; [constructor|]. split; [done|]. intros r elig Hr'. congruence. }
  destruct (ranked_agents_shape _ _ _ _ _ _ None _ _ _ Hnd Hev Hr) as (x & y & Hxy & Hp & _).
  assert (Hndr : NoDup (ids ranked)).
  { rewrite Hxy, (ids_perm _ _ Hp). by apply NoDup_ranking_candidates. }
  assert (Hinr : ∀ a, a ∈ ranked → a ∈ re_agents env).
  { intros a Ha. rewrite Hxy, Hp in Ha. by apply ranking_candidates_spec in Ha as [? _]. }
  destruct (failover_eligible_spec _ _ _ _ _ _ _ Hndr Hinr He) as [Hnde Hall].
  split; [by eapply sublist_ids|]. split.
  - apply Forall_forall. intros a Ha. rewrite Forall_forall in Hall. apply Hall. by eapply elem_of_sublist.
  - intros r elig' Hr' He'. rewrite Hr in Hr'. injection Hr' as <-. rewrite He in He'.
    by injection He' as <-.
Qed.

(** ** Theorems of the failover loop *)

Section theorems.
Context (json_loads : string → option pyval)
        (parse_http_date : string → option float)
        (float_of_text : string → option float)
        (float_repr : float → string).

Abbreviation run env := (invoke_sequential json_loads parse_http_date float_of_text float_repr env).
Abbreviation verdict_of env := (failure_verdict json_loads env).

Lemma run_cases env cs role h r :
  oracle_ok env →
  let p := run env cs role h r in
  final json_loads env p.1 p.2 ∨
  (between json_loads env p.1 ∧ p.2 = invoke_exhausted env cs role p.1).
Proof.
  intros Hor. cbv zeta. unfold invoke_sequential.
  pose proof (invoke_ends json_loads parse_http_date float_of_text float_repr env cs h r Hor) as He.
  unfold ends in He. destruct (attempt_candidates _ _ _ _ _ _ _) as [s [out|]]; cbn in *; [by left|by right].
Qed.

Lemma exhausted_not_served env cs role s sv : invoke_exhausted env cs role s ≠ Served sv.
Proof. unfold invoke_exhausted. by repeat case_match. Qed.

Lemma exhausted_route env cs role s c :
  iv_attempts s ≠ [] → invoke_exhausted env cs role s = InvRaise c →
  ∃ reason, route_of c = Some (_route_evidence_payload (in_eligible env) (iv_attempts s) reason).
Proof.
  intros Hne. unfold invoke_exhausted. destruct (iv_attempts s) as [|row rows]; [done|].
  repeat case_match; try done; intros [= <-]; cbn; by eexists.
Qed.

Lemma invoke_calls env cs role h r :
  iv_calls (run env cs role h r).1 =
  iv_calls (attempt_candidates json_loads parse_http_date float_of_text float_repr env cs
              (invoke_start h r)).1.
Proof. unfold invoke_sequential. by destruct (attempt_candidates _ _ _ _ _ _ _) as [s []]. Qed.

(** C29. The loop's calls are bounded, ordered and never an unsafe replay: they
    form one block per candidate, in candidate order, of at least one and at
    most retry-limit-plus-one calls each; and two consecutive calls go to the
    same agent only when the first one failed with an error whose decision is
    to retry the same agent. *)
Theorem invoke_calls_bounded env cs role h r :
  oracle_ok env → NoDup (map id cs) →
  let calls := iv_calls (run env cs role h r).1 in
  (∃ ns, (length ns ≤ length cs)%nat ∧ Forall (λ n, 1 ≤ n ≤ S (in_retry_limit env))%nat ns ∧
     calls = concat (zip_with (λ a n, replicate n (id a)) cs ns)) ∧
  ∀ p x, calls !! p = Some x → calls !! S p = Some x →
    ∃ l, in_chat env p = inr l ∧ verdict_of env l true = VRetry.
Proof.
  intros Hor Hnd. cbv zeta. rewrite invoke_calls. split.
  - destruct (attempt_candidates_calls json_loads parse_http_date float_of_text float_repr env cs
                (invoke_start h r) Hor) as (ns & Hl & Hf & Hc & _).
    by exists ns.
  - destruct (attempt_candidates_retries json_loads parse_http_date float_of_text float_repr env cs
                (invoke_start h r) Hor Hnd) as (new & Hc & _ & Hret).
    rewrite Hc. exact Hret.
Qed.

(** What is served is the first success: the reply belongs to the last call,
    to the agent named in the result, and every earlier call failed with an
    error that allowed the invocation to go on. *)
Theorem invoke_serves_first_success env cs role h r s sv :
  oracle_ok env → run env cs role h r = (s, Served sv) →
  ∃ n rep, length (iv_calls s) = S n ∧ in_chat env n = inl rep ∧
    sv_output sv = cr_output rep ∧ sv_usage sv = cr_usage rep ∧
    last (iv_calls s) = Some (sv_agent_id sv) ∧
    ∀ m, (m < n)%nat → ∃ l, in_chat env m = inr l ∧ verdict_of env l true ≠ VStop.
Proof.
  intros Hor Hr. pose proof (run_cases env cs role h r Hor) as Hc. rewrite Hr in Hc. cbn in Hc.
  destruct Hc as [(n & Hn & Hgo & rep & Hrep & Ho & Hu & Hl & _)|[_ He]];
    [|by symmetry in He; apply exhausted_not_served in He].
  exists n, rep. split_and!; try done.
  intros m Hm. destruct (Hgo m Hm) as (l & e & [Hl' _] & Hv). by exists l.
Qed.

(** A failure that must not be worked around ends the invocation: when a
    call fails with a tool stop, a fail-closed classification or, without an
    allow-list, a malformed response, no further provider is called, and the
    invocation raises a stop that carries the full route evidence. *)
Theorem invoke_stops_on_unsafe_failure env cs role h r n l e :
  oracle_ok env → failed_call env n l e → verdict_of env l true = VStop →
  let p := run env cs role h r in
  (n < length (iv_calls p.1))%nat →
  length (iv_calls p.1) = S n ∧ ∃ c, p.2 = InvRaise c ∧ stopped_by env p.1 c.
Proof.
  intros Hor Hf Hv. cbv zeta. intros Hn.
  assert (Hno : ¬ went_on json_loads env n).
  { intros (l' & e' & Hf' & Hv'). by destruct (failed_call_unique _ _ _ _ _ _ Hf Hf') as [-> _]. }
  destruct (run_cases env cs role h r Hor) as [(m & Hm & Hgo & Hfin)|[[Hgo _] _]];
    [|by destruct Hno; apply Hgo].
  destruct (run env cs role h r) as [s out]; cbn [fst snd] in *.
  assert (n = m) as -> by (destruct (decide (n < m)%nat); [by destruct Hno; apply Hgo|lia]).
  split; [done|]. destruct Hf as [Hf _].
  destruct out as [sv|c|?|?]; [|by destruct Hfin as (? & ? & _ & _ & _ & ?); exists c| |].
  - destruct Hfin as (rep & Hrep & _). congruence.
  - done.
  - destruct Hfin as (rep & Hrep). congruence.
Qed.

(** Route evidence is complete: it has exactly one row per provider call, in
    call order and naming the called agent, except that a first-call success
    writes none; and every exception raised after a call carries it. *)
Theorem route_evidence_complete env cs role h r :
  oracle_ok env →
  let p := run env cs role h r in
  match p.2 with
  | Served sv =>
      (iv_calls p.1 = [sv_agent_id sv] ∧ iv_attempts p.1 = []) ∨
      (rows_match p.1 ∧ at_outcome <$> last (iv_attempts p.1) = Some "served")
  | InvRaise c =>
      rows_match p.1 ∧
      (iv_calls p.1 ≠ [] → ∃ reason,
         route_of c = Some (_route_evidence_payload (in_eligible env) (iv_attempts p.1) reason))
  | InvRuntime _ => rows_match p.1
  | InvValueError _ => ∃ n rep, length (iv_calls p.1) = S n ∧ in_chat env n = inl rep
  end.
Proof.
  intros Hor. cbv zeta. pose proof (run_cases env cs role h r Hor) as Hc.
  destruct (run env cs role h r) as [s out]; cbn [fst snd] in *.
  destruct Hc as [(n & Hn & Hgo & Hfin)|[[_ Hrows] ->]].
  - destruct out as [sv|c|?|?].
    + destruct Hfin as (rep & _ & _ & _ & Hl & Hrow). destruct n as [|n]; cbn in Hrow; [|by right].
      left. split; [|done]. destruct (iv_calls s) as [|x [|]]; try done. cbn in Hl. congruence.
    + destruct Hfin as (l & e & _ & _ & Hrows & _ & Hroute). split; [done|]. intros _. by eexists.
    + done.
    + destruct Hfin as (rep & Hrep). by exists n, rep.
  - destruct (invoke_exhausted env cs role s) as [sv|c|?|?] eqn:He; [by apply exhausted_not_served in He| |done|].
    + split; [done|]. intros Hne. eapply exhausted_route; [|done].
      intros Hnil. apply Hne. unfold rows_match in Hrows. by rewrite <- Hrows, Hnil.
    + unfold invoke_exhausted in He. by repeat case_match.
Qed.

Lemma exhausted_upstream env cs role s u :
  invoke_exhausted env cs role s = InvRaise (CProviderUpstreamError u) →
  ∃ last, iv_last_upstream s = Some last ∧
    let t := terminal_upstream last (iv_last_quota s) (iv_last_retryable s) in
    u = t ∨ ∃ route, u = _attach_route_evidence_to_upstream_error t route.
Proof.
  unfold invoke_exhausted. destruct (iv_last_upstream s) as [last|];
    repeat case_match; try done; intros [= <-]; exists last; (split; [done|]); eauto.
Qed.

Lemma terminal_seen env s last :
  remembers json_loads env s → iv_last_upstream s = Some last →
  let t := terminal_upstream last (iv_last_quota s) (iv_last_retryable s) in
  seen_upstream json_loads env s t ∧
  ∀ v, seen_upstream json_loads env s v → ue_retryable v = true → ue_retryable t = true.
Proof.
  intros (Hlast & Hquota & Hret & Hall) Hl. cbv zeta. unfold terminal_upstream.
  set (t := match iv_last_quota s with Some q => _ | None => last end).
  assert (Ht : seen_upstream json_loads env s t).
  { subst t. destruct (iv_last_quota s) as [q|]; [|by apply Hlast].
    destruct (String.eqb _ _); [by apply Hquota|by apply Hlast]. }
  destruct (iv_last_retryable s) as [x|].
  - destruct (Hret x eq_refl) as [Hx Hrx]. destruct (ue_retryable t) eqn:Hrt; by split.
  - split; [done|]. intros v Hv Hr. destruct (Hall v Hv) as [_ Hs]. by destruct (Hs Hr).
Qed.

(** Exhaustion tells the truth about retryability, in whatever order the
    failures came: the upstream error raised when every candidate failed is
    retryable exactly when some provider call met a retryable upstream error,
    and its code, status and message are those of a call that was made. *)
Theorem exhaustion_order_independent env cs role h r s u :
  oracle_ok env → run env cs role h r = (s, InvRaise (CProviderUpstreamError u)) →
  (ue_retryable u = true ↔ ∃ u', seen_upstream json_loads env s u' ∧ ue_retryable u' = true) ∧
  ∃ u', seen_upstream json_loads env s u' ∧ ue_error_code u = ue_error_code u' ∧
    ue_provider_status u = ue_provider_status u' ∧ ue_message u = ue_message u' ∧
    ue_client_status u = ue_client_status u'.
Proof.
  intros Hor. unfold invoke_sequential.
  pose proof (remembers_run json_loads parse_http_date float_of_text float_repr env cs h r Hor) as Hm.
  unfold ends in Hm. destruct (attempt_candidates _ _ _ _ _ _ _) as [s' [out|]]; cbn in Hm.
  { intros [= -> ->]. done. }
  intros [= <- He]. apply exhausted_upstream in He as (last & Hlast & Hu).
  destruct (terminal_seen env s' last Hm Hlast) as [Hseen Hmax].
  set (t := terminal_upstream _ _ _) in *. split.
  - split; [intros Hr; exists t; split; [done|]; by destruct Hu as [<-|[? ->]]|].
    intros (v & Hv & Hr). specialize (Hmax v Hv Hr). by destruct Hu as [->|[? ->]].
  - exists t. split; [done|]. by destruct Hu as [->|[? ->]].
Qed.

(** A quota rejection is admission evidence, never a health failure: an agent
    whose calls all failed with a 429 keeps its circuit-breaker entry, whatever
    else happened in the invocation, and when every call was such a rejection
    the group ledgers are unchanged too. *)
Theorem quota_never_feeds_health env cs role h r :
  oracle_ok env →
  let s := (run env cs role h r).1 in
  (∀ x, (∀ n, iv_calls s !! n = Some x → quota_call json_loads env n) →
        _circuit (iv_health s) !! x = _circuit h !! x) ∧
  ((∀ n, (n < length (iv_calls s))%nat → quota_call json_loads env n) → iv_router s = r).
Proof.
  intros Hor. cbv zeta. unfold invoke_sequential.
  pose proof (quota_blind_run json_loads parse_http_date float_of_text float_repr env cs h r Hor) as Hq.
  by destruct (attempt_candidates _ _ _ _ _ _ _) as [s []].
Qed.
End theorems.

(** ** A pool of three *)

Definition plain_exc (c : exc_class) : exc :=
  {| exc_type := c; exc_str := ""; exc_arg0 := None; exc_url := ""; exc_cause := None;
     exc_context := None; exc_suppress := false |}.

Definition upstream (code : string) (status : Z) (retryable : bool) : ProviderUpstreamError :=
  {| ue_agent_id := ""; ue_model := ""; ue_error_code := code; ue_message := code;
     ue_client_status := status; ue_provider_status := Some status; ue_retryable := retryable;
     ue_transport := "chat"; ue_extra_detail := no_detail |}.

(** 1 is a rate limit, 2 a bad request, 3 a stop of the provider's tool. *)
Definition demo_heap : exc_heap :=
  <[1%positive := plain_exc (CProviderUpstreamError (upstream "rate_limited" 429 true))]>
  (<[2%positive := plain_exc (CProviderUpstreamError (upstream "invalid_request" 400 false))]>
  (<[3%positive := plain_exc (CToolFallbackStoppedError "a" (_decision PERMISSION_DENIED FAIL_CLOSED
                                false false None) None)]> ∅)).

Definition demo_invoke (chat : nat → chat_reply + loc) : invoke_env :=
  {| in_heap := demo_heap; in_chat := chat; in_now := λ n, float_of_Z (Z.of_nat n);
     in_wall := λ n, float_of_Z (Z.of_nat n); in_jitter := λ _ x, x;
     in_health_cfg := {| rate_limit_wait_seconds := float_of_Z 30;
                         rate_limit_unknown_cooldown_seconds := float_of_Z 20 |};
     in_group_cfg := default_config; in_backoff := f1; in_retry_limit := 1;
     in_allowed := false; in_tracks_excluded := false; in_eligible := ["a"; "b"; "c"] |}.

Definition demo_reply : chat_reply + loc :=
  inl {| cr_output := "hello"; cr_usage := None; cr_latency := f1 |}.

Definition demo_three : list ModelAgent :=
  [demo_agent "a" "m1" "https://a.example" []; demo_agent "b" "m2" "https://b.example" [];
   demo_agent "c" "m3" "https://c.example" []].

(** Twice a rate limit, then a reply. *)
Definition chat_recovers (n : nat) : chat_reply + loc :=
  match n with 0%nat | 1%nat => inr 1%positive | _ => demo_reply end.

(** A rate limit twice, then bad requests. *)
Definition chat_exhausts (n : nat) : chat_reply + loc :=
  match n with 0%nat | 1%nat => inr 1%positive | _ => inr 2%positive end.

(** A bad request, then a tool stop. *)
Definition chat_stops (n : nat) : chat_reply + loc :=
  match n with 0%nat => inr 2%positive | _ => inr 3%positive end.

Definition demo_run (chat : nat → chat_reply + loc) : invoke_state * invoke_outcome :=
  invoke_sequential (λ _, None) (λ _, None) (λ _, None) (λ _, "") (demo_invoke chat) demo_three
    "worker" empty_health empty_router.

Lemma demo_oracle_ok chat :
  (∀ n l, chat n = inr l → l ∈ [1%positive; 2%positive; 3%positive]) → oracle_ok (demo_invoke chat).
Proof.
  intros Hc n l Hl. apply Hc in Hl. rewrite !elem_of_cons, elem_of_nil in Hl.
  destruct Hl as [-> | [-> | [-> | []]]]; by eexists.
Qed.

Lemma recovers_ok : oracle_ok (demo_invoke chat_recovers).
Proof.
  apply demo_oracle_ok. intros n l. rewrite !elem_of_cons.
  destruct n as [|[|n]]; cbn; [intros [= <-]; tauto..|done].
Qed.

Lemma exhausts_ok : oracle_ok (demo_invoke chat_exhausts).
Proof.
  apply demo_oracle_ok. intros n l. rewrite !elem_of_cons.
  destruct n as [|[|n]]; cbn; intros [= <-]; tauto.
Qed.

Lemma stops_ok : oracle_ok (demo_invoke chat_stops).
Proof.
  apply demo_oracle_ok. intros n l. rewrite !elem_of_cons.
  destruct n as [|n]; cbn; intros [= <-]; tauto.
Qed.

Lemma demo_three_nodup : NoDup (map id demo_three).
Proof. apply (bool_decide_unpack _). vm_compute. exact I. Qed.

Lemma invoke_calls_bounded_witness :
  iv_calls (demo_run chat_recovers).1 = ["a"; "a"; "b"] ∧
  ∃ ns, iv_calls (demo_run chat_recovers).1 =
    concat (zip_with (λ a n, replicate n (id a)) demo_three ns).
Proof.
  split; [vm_compute; reflexivity|].
  destruct (invoke_calls_bounded (λ _, None) (λ _, None) (λ _, None) (λ _, "")
              (demo_invoke chat_recovers) demo_three "worker" empty_health empty_router
              recovers_ok demo_three_nodup) as [(ns & _ & _ & H) _].
  exists ns. exact H.
Defined.

Lemma invoke_serves_first_success_witness :
  ∃ n rep, (2 = n)%nat ∧ in_chat (demo_invoke chat_recovers) n = inl rep ∧ cr_output rep = "hello".
Proof.
  destruct (invoke_serves_first_success (λ _, None) (λ _, None) (λ _, None) (λ _, "")
              (demo_invoke chat_recovers) demo_three "worker" empty_health empty_router
              (demo_run chat_recovers).1
              {| sv_output := "hello"; sv_agent_id := "b"; sv_model := "m2"; sv_usage := None |}
              recovers_ok ltac:(vm_compute; reflexivity)) as (n & rep & Hn & Hr & Ho & _).
  exists n, rep. split; [|by split].
  assert (length (iv_calls (demo_run chat_recovers).1) = 3%nat) as H3 by (vm_compute; reflexivity).
  rewrite H3 in Hn. by injection Hn.
Defined.

Lemma invoke_stops_on_unsafe_failure_witness :
  length (iv_calls (demo_run chat_stops).1) = 2%nat ∧
  ∃ c, (demo_run chat_stops).2 = InvRaise c.
Proof.
  destruct (invoke_stops_on_unsafe_failure (λ _, None) (λ _, None) (λ _, None) (λ _, "")
              (demo_invoke chat_stops) demo_three "worker" empty_health empty_router 1 3%positive
              (plain_exc (CToolFallbackStoppedError "a" (_decision PERMISSION_DENIED FAIL_CLOSED
                                false false None) None))
              stops_ok ltac:(by split) ltac:(vm_compute; reflexivity))
    as (Hl & c & Hc & _).
  - apply Nat.ltb_lt. vm_compute. reflexivity.
  - split; [exact Hl|]. exists c. exact Hc.
Defined.

Lemma route_evidence_complete_witness :
  at_outcome <$> iv_attempts (demo_run chat_recovers).1 =
    ["retryable_transport"; "retryable_transport"; "served"] ∧
  match (demo_run chat_exhausts).2 with
  | InvRaise _ => map at_agent_id (iv_attempts (demo_run chat_exhausts).1) = ["a"; "a"; "b"; "c"]
  | _ => False
  end.
Proof.
  split; [vm_compute; reflexivity|].
  pose proof (route_evidence_complete (λ _, None) (λ _, None) (λ _, None) (λ _, "")
              (demo_invoke chat_exhausts) demo_three "worker" empty_health empty_router exhausts_ok) as H.
  cbv zeta in H. fold (demo_run chat_exhausts) in H.
  assert (∃ c, (demo_run chat_exhausts).2 = InvRaise c) as [c Hc]
    by (eexists; vm_compute; reflexivity).
  rewrite Hc in H |- *. destruct H as [Hrows _]. unfold rows_match in Hrows. rewrite Hrows.
  vm_compute. reflexivity.
Defined.

Lemma exhaustion_order_independent_witness :
  match (demo_run chat_exhausts).2 with
  | InvRaise (CProviderUpstreamError u) => ue_retryable u = true ∧ ue_error_code u = "rate_limited"
  | _ => False
  end.
Proof.
  destruct (demo_run chat_exhausts) as [s out] eqn:Hrun.
  assert (∃ u, out = InvRaise (CProviderUpstreamError u) ∧ ue_error_code u = "rate_limited") as (u & -> & Hcode).
  { assert (out = (demo_run chat_exhausts).2) as -> by (by rewrite Hrun).
    eexists. split; vm_compute; reflexivity. }
  cbn. split; [|exact Hcode].
  destruct (exhaustion_order_independent (λ _, None) (λ _, None) (λ _, None) (λ _, "")
              (demo_invoke chat_exhausts) demo_three "worker" empty_health empty_router s u
              exhausts_ok Hrun) as [[_ Hret] _].
  apply Hret. exists (upstream "rate_limited" 429 true). split; [|done].
  exists O. assert (s = (demo_run chat_exhausts).1) as -> by (by rewrite Hrun).
  split; [apply Nat.ltb_lt; vm_compute; reflexivity|].
  exists 1%positive, (plain_exc (CProviderUpstreamError (upstream "rate_limited" 429 true))).
  split; [by split|]. split; [vm_compute; reflexivity|done].
Defined.

Lemma quota_never_feeds_health_witness :
  _circuit (iv_health (demo_run chat_recovers).1) !! "a" = None.
Proof.
  destruct (quota_never_feeds_health (λ _, None) (λ _, None) (λ _, None) (λ _, "")
              (demo_invoke chat_recovers) demo_three "worker" empty_health empty_router
              recovers_ok) as [H _].
  apply H. assert (Hc : iv_calls (demo_run chat_recovers).1 = ["a"; "a"; "b"]) by (vm_compute; reflexivity).
  unfold demo_run in Hc. rewrite Hc.
  assert (Hq : ∀ n, (n < 2)%nat → quota_call (λ _, None) (demo_invoke chat_recovers) n).
  { intros n Hn. exists 1%positive, (plain_exc (CProviderUpstreamError (upstream "rate_limited" 429 true))).
    split; [split; [by destruct n as [|[|]]; [| |lia]|done]|vm_compute; reflexivity]. }
  intros n Hn. apply Hq. pose proof (lookup_lt_Some _ _ _ Hn) as Hlt. cbn in Hlt.
  destruct (decide (n = 2)%nat) as [->|]; [discriminate Hn|lia].
Defined.

Lemma failover_candidates_sound_witness :
  let clock := {| pc_circuit := λ _, f0; pc_rate := λ _, f0 |} in
  NoDup (map id (match (_failover_candidates (demo_env demo_pool) clock
      (demo_agent "plain_one" "llama-3" "https://a.example" ["cost:free"]) "t" "worker" [] None None None
      true None empty_health).2 with Ok (cs, _) => cs | Raise _ => [] end)) ∧
  (_failover_candidates (demo_env demo_pool) clock
      (demo_agent "plain_one" "llama-3" "https://a.example" ["cost:free"]) "t" "worker" [] None None None
      true None empty_health).2 ≠ Ok ([], []).
Proof.
  intros clock. destruct (_failover_candidates _ _ _ _ _ _ _ _ _ _ _ _) as [h' out] eqn:Hf.
  assert (∃ cs, out = Ok (cs, []) ∧ cs ≠ []) as (cs & -> & Hne).
  { assert (out = (h', out).2) as -> by done. rewrite <- Hf. eexists. split; [vm_compute; reflexivity|done]. }
  cbn. split; [|congruence].
  destruct (failover_candidates_sound (demo_env demo_pool) clock
              (demo_agent "plain_one" "llama-3" "https://a.example" ["cost:free"]) "t" "worker" [] None
              None None true None empty_health h' cs []) as (Hnd & _ & _).
  - apply (bool_decide_unpack _). vm_compute. exact I.
  - intros l _. split; [constructor|]. intros a Ha. by apply elem_of_nil in Ha.
  - exact Hf.
  - exact Hnd.
Defined.
