(* ===== verification/ToolLoop.v ===== *)
(** orchestrator.py: the tool-loop memory. Which agent emitted each tool call is
    remembered in a bounded least-recently-used map, and a follow-up request that
    carries the call's result moves that agent to the front of the candidates. *)

From S2P Require Import Prelude PyString PyCollections PyFloat PyValue Agents.

(** ** The tool calls of a response *)

Definition nonempty_str (v : pyval) : option string :=
  match v with VStr s => if str_truthy s then Some s else None | _ => None end.

(** The comprehension of [_record_tool_loop_agents]. *)
Definition recorded_call_ids (tool_calls : list pyval) : list string :=
  omap (λ call, match call with VDict d => nonempty_str (dget "id" d) | _ => None end) tool_calls.

Definition _chat_response_tool_calls (response : pyval) : option (list pyval) :=
  match response with
  | VDict d =>
      match dget "choices" d with
      | VList (VDict first :: _) =>
          match dget "message" first with
          | VDict message =>
              match dget "tool_calls" message with
              | VList (c :: cs) => Some (c :: cs)
              | _ => None
              end
          | _ => None
          end
      | _ => None
      end
  | _ => None
  end.

Definition function_call_id (item : pyval) : option string :=
  match item with
  | VDict d => if key_is "function_call" (dget "type" d) then nonempty_str (dget "call_id" d) else None
  | _ => None
  end.

Definition _responses_output_tool_calls (response : pyval) : option (list pyval) :=
  match response with
  | VDict d =>
      match dget "output" d with
      | VList items =>
          match omap function_call_id items with
          | [] => None
          | ids => Some (map (λ call_id, VDict [(VStr "id", VStr call_id)]) ids)
          end
      | _ => None
      end
  | _ => None
  end.

Definition _served_tool_calls (response : pyval) (api_surface : string) : option (list pyval) :=
  if String.eqb api_surface "responses" then _responses_output_tool_calls response
  else _chat_response_tool_calls response.

(** ** The memory *)

Definition TOOL_LOOP_MEMORY_MAX_ENTRIES : nat := 4096.

(** [OrderedDict], least recently used first. *)
Definition tool_loop_memory : Type := list (string * string).

Definition remember_call (agent_id : string) (memory : tool_loop_memory) (call_id : string)
    : tool_loop_memory :=
  od_move_to_end call_id (od_set call_id agent_id memory).

Definition _record_tool_loop_agents (max_entries : nat) (tool_calls : pyval)
    (agent_id : option string) (memory : tool_loop_memory) : tool_loop_memory :=
  match agent_id, tool_calls with
  | Some agent_id, VList calls =>
      if negb (str_truthy agent_id) then memory else
      match recorded_call_ids calls with
      | [] => memory
      | call_ids => od_trim max_entries (fold_left (remember_call agent_id) call_ids memory)
      end
  | _, _ => memory
  end.

(** ** Follow-up requests *)

Definition tool_result_id (message : pyval) : option string :=
  match message with
  | VDict d => if key_is "tool" (dget "role" d) then nonempty_str (dget "tool_call_id" d) else None
  | _ => None
  end.

Definition _tool_loop_call_ids (messages : pyval) : list string :=
  match messages with VList ms => omap tool_result_id ms | _ => [] end.

Fixpoint first_remembered (memory : tool_loop_memory) (call_ids : list string) : option string :=
  match call_ids with
  | [] => None
  | call_id :: rest =>
      match od_get call_id memory with
      | Some agent_id => Some agent_id
      | None => first_remembered memory rest
      end
  end.

Definition _remembered_tool_loop_agent (memory : tool_loop_memory) (messages : pyval)
    : option string :=
  first_remembered memory (_tool_loop_call_ids messages).

Record tool_loop_evidence := { tool_loop_route : string; tool_loop_agent_id : string }.

(** The [for index, candidate] loop; [before] is [candidates[:index]]. *)
Fixpoint find_emitting (agent_id : string) (before candidates : list ModelAgent)
    : option (list ModelAgent) :=
  match candidates with
  | [] => None
  | c :: after =>
      if String.eqb (id c) agent_id then Some (c :: before ++ after)
      else find_emitting agent_id (before ++ [c]) after
  end.

Definition _apply_tool_loop_route (memory : tool_loop_memory) (candidates : list ModelAgent)
    (messages : pyval) : list ModelAgent * option tool_loop_evidence :=
  match _remembered_tool_loop_agent memory messages with
  | None => (candidates, None)
  | Some agent_id =>
      match find_emitting agent_id [] candidates with
      | Some reordered =>
          (reordered, Some {| tool_loop_route := "emitting_agent"; tool_loop_agent_id := agent_id |})
      | None => (candidates, Some {| tool_loop_route := "fallback"; tool_loop_agent_id := agent_id |})
      end
  end.

(** ** Specification: a recency log

    The events are all calls ever recorded, oldest first; the log keeps the last
    event of each call. *)
Definition log_event (log : tool_loop_memory) (event : string * string) : tool_loop_memory :=
  od_del event.1 log ++ [event].

Definition recency_log (events : list (string * string)) : tool_loop_memory :=
  fold_left log_event events [].

(** The events of one call of [_record_tool_loop_agents]. *)
Definition record_events (r : pyval * option string) : list (string * string) :=
  match r with
  | (VList calls, Some agent_id) =>
      if str_truthy agent_id then map (λ c, (c, agent_id)) (recorded_call_ids calls) else []
  | _ => []
  end.

Definition record_all (max_entries : nat) (history : list (pyval * option string))
    : tool_loop_memory :=
  fold_left (λ memory r, _record_tool_loop_agents max_entries r.1 r.2 memory) history [].

(** ** Lemmas *)

Lemma remember_call_log agent_id memory call_id :
  remember_call agent_id memory call_id = log_event memory (call_id, agent_id).
Proof.
  unfold remember_call, od_move_to_end, log_event. rewrite od_get_set, decide_True by done. cbn.
  f_equal. induction memory as [|[k v] memory IH]; cbn; [by rewrite decide_True|].
  case_decide; cbn; [by rewrite decide_True|]. rewrite decide_False by done. by rewrite IH.
Qed.

Lemma log_event_wf memory e : od_wf memory → od_wf (log_event memory e).
Proof.
  intros Hwf. unfold od_wf, log_event. rewrite fmap_app. apply NoDup_app.
  split; [by apply od_del_wf|]. split; [|apply NoDup_singleton].
  intros x [Hx _]%od_del_keys. cbn. by rewrite list_elem_of_singleton.
Qed.

Lemma od_del_app {K V} `{EqDecision K} (k : K) (d d' : list (K * V)) :
  od_del k (d ++ d') = od_del k d ++ od_del k d'.
Proof. induction d as [|[k0 v0] d IH]; cbn; [done|]. case_decide; cbn; by rewrite IH. Qed.

Lemma od_del_absent {K V} `{EqDecision K} (k : K) (d : list (K * V)) : k ∉ d.*1 → od_del k d = d.
Proof.
  induction d as [|[k0 v0] d IH]; cbn; [done|]. rewrite not_elem_of_cons. intros [? ?].
  rewrite decide_False by done. by rewrite IH.
Qed.

Lemma od_del_length {K V} `{EqDecision K} (k : K) (d : list (K * V)) :
  od_wf d → (length d ≤ S (length (od_del k d)))%nat.
Proof.
  unfold od_wf. induction d as [|[k0 v0] d IH]; cbn; [lia|]. intros [Hk Hd]%NoDup_cons.
  case_decide; subst; cbn; [by rewrite od_del_absent|]. specialize (IH Hd). lia.
Qed.

Lemma od_trim_app {K V} (n : nat) (d d' : list (K * V)) :
  (n ≤ length d')%nat → od_trim n (d ++ d') = od_trim n d'.
Proof.
  intros Hn. unfold od_trim. rewrite length_app, skipn_app.
  rewrite skipn_all2 by lia. cbn. f_equal. lia.
Qed.

Lemma od_trim_all {K V} (n : nat) (d : list (K * V)) : (length d ≤ n)%nat → od_trim n d = d.
Proof. intros Hn. unfold od_trim. by replace (length d - n)%nat with O by lia. Qed.

Lemma od_trim_snoc {K V} (n : nat) (d : list (K * V)) x :
  od_trim (S n) (d ++ [x]) = od_trim n d ++ [x].
Proof.
  unfold od_trim. rewrite length_app, skipn_app. cbn. f_equal.
  - f_equal. lia.
  - by replace (length d + 1 - S n - length d)%nat with O by lia.
Qed.

(** Trimming before an event or only after it is the same. *)
Lemma trim_log_event n memory e :
  od_wf memory →
  od_trim (S n) (log_event (od_trim (S n) memory) e) = od_trim (S n) (log_event memory e).
Proof.
  intros Hwf. unfold log_event. rewrite !od_trim_snoc. f_equal.
  destruct (decide (length memory ≤ S n)%nat) as [Hle|Hgt]; [by rewrite (od_trim_all (S n))|].
  set (p := firstn (length memory - S n) memory).
  assert (Hsplit : memory = p ++ od_trim (S n) memory) by (unfold od_trim, p; by rewrite firstn_skipn).
  rewrite Hsplit at 2. rewrite od_del_app. symmetry. apply od_trim_app.
  assert (length (od_trim (S n) memory) = S n) by (unfold od_trim; rewrite length_skipn; lia).
  pose proof (od_del_length e.1 _ (od_trim_wf (S n) memory Hwf)). lia.
Qed.

Lemma trim_log_events n events memory memory' :
  od_wf memory → od_wf memory' → od_trim (S n) memory = od_trim (S n) memory' →
  od_wf (fold_left log_event events memory) ∧
  od_trim (S n) (fold_left log_event events memory) =
  od_trim (S n) (fold_left log_event events memory').
Proof.
  revert memory memory'. induction events as [|e events IH]; intros m m' Hm Hm' Heq; [done|].
  cbn. apply IH; [by apply log_event_wf..|].
  by rewrite <- (trim_log_event n m), <- (trim_log_event n m'), Heq.
Qed.

Lemma recency_log_wf events : od_wf (recency_log events).
Proof.
  unfold recency_log. assert (Hwf : od_wf (@nil (string * string))) by constructor.
  revert Hwf. generalize (@nil (string * string)) as m.
  induction events as [|e events IH]; intros m Hm; [done|]. cbn. by apply IH, log_event_wf.
Qed.

Lemma fold_remember agent_id call_ids memory :
  fold_left (remember_call agent_id) call_ids memory =
  fold_left log_event (map (λ c, (c, agent_id)) call_ids) memory.
Proof.
  revert memory. induction call_ids as [|c cs IH]; intros m; [done|]. cbn.
  by rewrite remember_call_log, IH.
Qed.

Lemma record_step n r memory log :
  od_wf log → memory = od_trim (S n) log →
  _record_tool_loop_agents (S n) r.1 r.2 memory =
    od_trim (S n) (fold_left log_event (record_events r) log).
Proof.
  intros Hwf ->. destruct r as [calls agent]. unfold _record_tool_loop_agents, record_events. cbn.
  destruct agent as [agent|]; [|by destruct calls].
  destruct calls as [| | | | |calls| |]; try done.
  destruct (str_truthy agent); [|done]. cbn [negb].
  assert (Hgoal : ∀ ids, od_trim (S n) (fold_left (remember_call agent) ids (od_trim (S n) log)) =
    od_trim (S n) (fold_left log_event (map (λ c, (c, agent)) ids) log)).
  2: { destruct (recorded_call_ids calls) as [|c cs]; [done|]. apply (Hgoal (c :: cs)). }
  intros ids. rewrite fold_remember. apply trim_log_events; [by apply od_trim_wf|done|].
  apply od_trim_all, od_trim_length.
Qed.

(** The tool-loop memory is a least-recently-used map: whatever was recorded,
    in whatever order and however often a call id came back, the memory holds
    exactly the [max_entries] most recent calls of the complete history, each
    with the agent that emitted it last, oldest first. *)
Theorem tool_loop_memory_is_lru max_entries history :
  (0 < max_entries)%nat →
  record_all max_entries history =
    od_trim max_entries (recency_log (concat (map record_events history))).
Proof.
  intros Hmax. destruct max_entries as [|n]; [lia|]. unfold record_all, recency_log.
  assert (H : ∀ history log, od_wf log →
    fold_left (λ memory r, _record_tool_loop_agents (S n) r.1 r.2 memory) history (od_trim (S n) log) =
    od_trim (S n) (fold_left log_event (concat (map record_events history)) log)).
  { clear. induction history as [|r history IH]; intros log Hwf; [done|]. cbn.
    rewrite (record_step n r _ log Hwf eq_refl), IH, fold_left_app; [done|].
    by apply (trim_log_events n _ log log). }
  apply (H history []). constructor.
Qed.

Lemma tool_loop_memory_is_lru_witness :
  let call i := VList [VDict [(VStr "id", VStr i)]] in
  record_all 2 [(call "c1", Some "a"); (call "c2", Some "b"); (call "c1", Some "c"); (call "c3", Some "d")]
  = [("c1", "c"); ("c3", "d")].
Proof.
  intros call. rewrite (tool_loop_memory_is_lru 2); [vm_compute; reflexivity|lia].
Defined.

(** ** Routing a follow-up *)

Lemma find_emitting_spec agent_id before candidates out :
  find_emitting agent_id before candidates = Some out →
  ∃ c l1 l2, candidates = l1 ++ c :: l2 ∧ id c = agent_id ∧ out = c :: before ++ l1 ++ l2 ∧
    Forall (λ x, id x ≠ agent_id) l1.
Proof.
  revert before. induction candidates as [|c cs IH]; intros before; cbn; [done|].
  destruct (String.eqb_spec (id c) agent_id) as [<-|Hne].
  - intros [= <-]. by exists c, [], cs.
  - intros (c' & l1 & l2 & -> & Hid & -> & Hf)%IH. exists c', (c :: l1), l2.
    split; [done|]. split; [done|]. split; [by rewrite <- app_assoc|by constructor].
Qed.

Lemma find_emitting_none agent_id before candidates :
  find_emitting agent_id before candidates = None → Forall (λ x, id x ≠ agent_id) candidates.
Proof.
  revert before. induction candidates as [|c cs IH]; intros before; cbn; [done|].
  destruct (String.eqb_spec (id c) agent_id) as [|Hne]; [done|]. intros H%IH. by constructor.
Qed.

Lemma tool_loop_route_perm memory candidates messages :
  (_apply_tool_loop_route memory candidates messages).1 ≡ₚ candidates.
Proof.
  unfold _apply_tool_loop_route. destruct (_remembered_tool_loop_agent memory messages) as [x|]; [|done].
  destruct (find_emitting x [] candidates) as [out|] eqn:Hf; [|done]. cbn.
  apply find_emitting_spec in Hf as (c & l1 & l2 & -> & _ & -> & _). cbn. by rewrite Permutation_middle.
Qed.

Lemma first_remembered_known memory call_ids agent_id :
  first_remembered memory call_ids = Some agent_id → ∃ c, c ∈ call_ids ∧ od_get c memory = Some agent_id.
Proof.
  induction call_ids as [|c cs IH]; cbn; [done|].
  destruct (od_get c memory) as [a|] eqn:Hc; [intros [= <-]; exists c; split; [by left|done]|].
  intros (c' & ? & ?)%IH. exists c'. split; [by right|done].
Qed.

(** Tool-loop routing only reorders: the candidates stay a permutation of the
    eligible ones; with evidence "emitting_agent" the head is the first candidate
    with the remembered id and the others keep their order; and without an
    eligible remembered agent nothing moves. A remembered agent was recorded for
    one of the request's own call ids. *)
Theorem tool_loop_route_reorders memory candidates messages :
  let '(out, evidence) := _apply_tool_loop_route memory candidates messages in
  out ≡ₚ candidates ∧
  match evidence with
  | None => out = candidates ∧ _remembered_tool_loop_agent memory messages = None
  | Some ev =>
      (∃ c, c ∈ _tool_loop_call_ids messages ∧ od_get c memory = Some (tool_loop_agent_id ev)) ∧
      ((tool_loop_route ev = "emitting_agent" ∧
        ∃ c l1 l2, candidates = l1 ++ c :: l2 ∧ out = c :: l1 ++ l2 ∧
          id c = tool_loop_agent_id ev ∧ Forall (λ x, id x ≠ tool_loop_agent_id ev) l1) ∨
       (tool_loop_route ev = "fallback" ∧ out = candidates ∧
        Forall (λ x, id x ≠ tool_loop_agent_id ev) candidates))
  end.
Proof.
  unfold _apply_tool_loop_route.
  destruct (_remembered_tool_loop_agent memory messages) as [agent_id|] eqn:Hr; [|done].
  apply first_remembered_known in Hr.
  destruct (find_emitting agent_id [] candidates) as [out|] eqn:Hf; cbn.
  - apply find_emitting_spec in Hf as (c & l1 & l2 & -> & Hid & -> & Hl). cbn.
    split; [by rewrite Permutation_middle|]. split; [done|]. left. split; [done|]. by exists c, l1, l2.
  - split; [done|]. split; [done|]. right. split; [done|]. split; [done|].
    by eapply find_emitting_none.
Qed.

Lemma od_trim_keeps {V} (n : nat) (d : list (string * V)) k v :
  od_wf d → (k, v) ∈ od_trim n d → od_get k (od_trim n d) = Some v.
Proof.
  intros Hwf Hin. apply (od_trim_wf n) in Hwf. revert Hwf Hin. generalize (od_trim n d) as l.
  unfold od_wf. induction l as [|[k' v'] l IH]; cbn; [by intros _ ?%elem_of_nil|].
  intros [Hk Hd]%NoDup_cons Hin. apply elem_of_cons in Hin as [[= <- <-]|Hin]; [by rewrite decide_True|].
  rewrite decide_False; [by apply IH|]. intros ->. apply Hk. by apply (list_elem_of_fmap_2 fst _ _ Hin).
Qed.

(** The round trip of a tool call: after an agent's response with one tool
    call is recorded, whatever the memory held, a follow-up carrying that call's
    result is routed to the same agent first whenever it is still a candidate. *)
Theorem tool_loop_roundtrip max_entries memory call_id agent_id content candidates :
  (0 < max_entries)%nat → od_wf memory → str_truthy call_id = true → str_truthy agent_id = true →
  agent_id ∈ map id candidates →
  let memory' := _record_tool_loop_agents max_entries
                   (VList [VDict [(VStr "id", VStr call_id)]]) (Some agent_id) memory in
  let follow_up := VList [VDict [(VStr "role", VStr "tool"); (VStr "tool_call_id", VStr call_id);
                                 (VStr "content", content)]] in
  ∃ c rest, (_apply_tool_loop_route memory' candidates follow_up).1 = c :: rest ∧ id c = agent_id.
Proof.
  intros Hmax Hwf Hc Ha Hin. cbv zeta. destruct max_entries as [|n]; [lia|].
  assert (Hids : recorded_call_ids [VDict [(VStr "id", VStr call_id)]] = [call_id])
    by (unfold recorded_call_ids; cbn; by rewrite Hc).
  unfold _record_tool_loop_agents. rewrite Ha, Hids. cbn [negb fold_left].
  rewrite remember_call_log. unfold log_event. rewrite od_trim_snoc. cbn [fst].
  set (m := od_trim n (od_del call_id memory) ++ [(call_id, agent_id)]).
  assert (Hget : od_get call_id m = Some agent_id).
  { unfold m. rewrite od_get_app.
    destruct (od_get call_id (od_trim n (od_del call_id memory))) as [v|] eqn:Hg; [|cbn; by rewrite decide_True].
    exfalso. apply od_get_Some_elem in Hg.
    assert (Hk : call_id ∈ (od_del call_id memory).*1).
    { eapply elem_of_sublist; [by apply (list_elem_of_fmap_2 fst _ _ Hg)|].
      unfold od_trim. apply fmap_sublist, sublist_drop. }
    by apply od_del_keys in Hk as [? _]. }
  assert (Hrem : _remembered_tool_loop_agent m
    (VList [VDict [(VStr "role", VStr "tool"); (VStr "tool_call_id", VStr call_id);
                   (VStr "content", content)]]) = Some agent_id).
  { unfold _remembered_tool_loop_agent, _tool_loop_call_ids. cbn -[m od_get]. rewrite Hc.
    cbn -[m od_get]. by rewrite Hget. }
  unfold _apply_tool_loop_route. rewrite Hrem.
  destruct (find_emitting agent_id [] candidates) as [out|] eqn:Hf.
  - apply find_emitting_spec in Hf as (c & l1 & l2 & _ & Hid & -> & _). by exists c, ([] ++ l1 ++ l2).
  - apply find_emitting_none in Hf. apply (list_elem_of_fmap_1 id) in Hin as (c & -> & Hin).
    rewrite Forall_forall in Hf. by destruct (Hf c Hin).
Qed.

Lemma tool_loop_roundtrip_witness :
  ∃ c rest, (_apply_tool_loop_route
    (_record_tool_loop_agents 1 (VList [VDict [(VStr "id", VStr "call_9")]]) (Some "mock_one")
       [("call_1", "real_one")]) demo_mixed
    (VList [VDict [(VStr "role", VStr "tool"); (VStr "tool_call_id", VStr "call_9");
                   (VStr "content", VNone)]])).1 = c :: rest ∧ id c = "mock_one".
Proof.
  apply (tool_loop_roundtrip 1 [("call_1", "real_one")] "call_9" "mock_one" VNone demo_mixed).
  - lia.
  - apply NoDup_singleton.
  - reflexivity.
  - reflexivity.
  - cbn. right. left.
Defined.
