(* ===== verification/Recovery.v ===== *)
(** orchestrator.py: [_invoke_with_rate_limit_recovery], the loop around
    [_invoke] that waits out a rate-limit storm and calls the cooled-down
    candidates again.

    The rounds of the loop are numbered; everything a round reads from outside
    (the pool, the providers, the clocks) is a function of its number. *)

From S2P Require Import Prelude PyString PyCollections PyFloat PyValue Exceptions ToolFallback.
From S2P Require Import ProviderErrors ModelGroup EndpointRace Agents AgentHealth Ranking Transport.
From S2P Require Import Failover.

(** ** Arguments, environment and state *)

Record recovery_request := {
  rq_primary : ModelAgent;
  rq_text : string;
  rq_role : string;
  rq_eligibility_role : string;                   (* "" when it is None *)
  rq_required_tags : list string;
  rq_prompt_context : option string;
  rq_effort_fallback : option string;
  rq_allowed : option (list string);
  rq_virtual_selector : bool;
  rq_token_lower_bound : option Z;
}.

Record recovery_env := {
  rv_ranking : nat → ranking_env;
  rv_invoke : nat → invoke_env;
  rv_probe : nat → probe_clock;                   (* clock readings inside _invoke *)
  rv_probe_again : nat → probe_clock;             (* and when candidates are listed again *)
  rv_race : nat → list ModelAgent → race_result;
  rv_race_now : nat → float;
  rv_snapshot_now : nat → float;
  rv_snapshot_later : nat → float;
  rv_cooling_now : nat → string → float;
  rv_ready_now : nat → string → float;
  rv_expired_now : nat → float;                   (* when an expired cooldown sets the deadline *)
  rv_deadline_now : nat → float;                  (* when it is compared with the deadline *)
  rv_budget_now : nat → float;                    (* when the wait sets the deadline *)
  rv_wait_now : nat → float;                      (* inside _await_rate_limit_recovery *)
  rv_health_cfg : health_config;
  rv_resolved_timeout : option float;             (* client._resolved_model_timeout(primary) *)
}.

(** What one round did, for the theorems. *)
Record round_log := {
  rl_permitted : option (list string);
  rl_calls : list string;
  rl_attempts : list attempt_entry;
  rl_ready : list string;
  rl_waited : bool;
}.

Record recovery_state := {
  rc_health : health;
  rc_router : group_router;
  rc_excluded : option (list string);             (* the caller's shared set *)
  rc_wait_deadline : option float;
  rc_recovery_ids : option (list string);         (* recovery_agent_ids *)
  rc_attempts : list attempt_entry;               (* recovered_attempts *)
  rc_eligible : list string;                      (* recovered_eligible_agent_ids *)
  rc_last_route : option route_evidence;          (* self._last_route_evidence *)
  rc_log : list round_log;
}.

Definition recovery_start (h : health) (r : group_router) (excluded : option (list string))
    : recovery_state :=
  {| rc_health := h; rc_router := r; rc_excluded := excluded; rc_wait_deadline := None;
     rc_recovery_ids := None; rc_attempts := []; rc_eligible := []; rc_last_route := None;
     rc_log := [] |}.

Inductive recovery_step :=
| Again
| Finished (out : invoke_outcome).

(** ** Pieces of the loop body *)

Definition permitted_ids (allowed recovery : option (list string)) : option (list string) :=
  match recovery, allowed with
  | None, _ => allowed
  | Some ids, None => Some ids
  | Some ids, Some l => Some (List.filter (λ i, in_strs i ids) l)
  end.

Definition route_attempts (r : option route_evidence) : list attempt_entry :=
  match r with Some e => attempted e | None => [] end.

Definition route_eligible (r : option route_evidence) : list string :=
  match r with Some e => eligible_agent_ids e | None => [] end.

Definition route_reason (r : option route_evidence) (otherwise : string) : string :=
  match r with Some e => terminal_reason e | None => otherwise end.

Definition merged_route (st : recovery_state) (current : option route_evidence) (otherwise : string)
    : route_evidence :=
  _route_evidence_payload (fromkeys (rc_eligible st ++ route_eligible current))
    (rc_attempts st ++ route_attempts current) (route_reason current otherwise).

(** [raise_with_recovered_route]. *)
Definition with_recovered_route (st : recovery_state) (u : ProviderUpstreamError)
    : ProviderUpstreamError :=
  let current := ud_route (ue_extra_detail u) in
  match rc_attempts st ++ route_attempts current with
  | [] => u
  | _ => _attach_route_evidence_to_upstream_error u (merged_route st current "eligible_set_exhausted")
  end.

Definition upstream_raised (c : exc_class) (u : ProviderUpstreamError) : exc_class :=
  match c with CProviderRequestTooLargeError _ => CProviderRequestTooLargeError u | _ => CProviderUpstreamError u end.

(** Agents that answered this round with an explicit 429. *)
Definition rejected_ids (attempts : list attempt_entry) : list string :=
  map at_agent_id (List.filter (λ row, bool_decide (at_provider_status row = Some 429)) attempts).

Definition is_cooling (clock : string → float) (a : ModelAgent) (h : health) : health * bool :=
  let '(h', remaining) := _rate_limit_remaining (id a) (clock (id a)) h in
  (h', match remaining with None => false | Some _ => true end).

Definition is_ready (clock : string → float) (a : ModelAgent) (h : health) : health * bool :=
  let '(h', remaining) := _rate_limit_remaining (id a) (clock (id a)) h in
  (h', match remaining with None => true | Some _ => false end).

(** The state of the next round. *)
Definition carry (st : recovery_state) (h : health) (deadline : option float)
    (recovery : option (list string)) (merged_attempts : list attempt_entry)
    (merged_eligible : list string) (log : round_log) : recovery_state :=
  {| rc_health := h; rc_router := rc_router st; rc_excluded := rc_excluded st;
     rc_wait_deadline := deadline; rc_recovery_ids := recovery; rc_attempts := merged_attempts;
     rc_eligible := merged_eligible; rc_last_route := rc_last_route st;
     rc_log := rc_log st ++ [log] |}.

Section recovery.
Context (json_loads : string → option pyval)
        (parse_http_date : string → option float)
        (float_of_text : string → option float)
        (float_repr : float → string)
        (env : recovery_env) (rq : recovery_request).

Definition role_or_eligibility : string :=
  if str_truthy (rq_eligibility_role rq) then rq_eligibility_role rq else rq_role rq.

Definition wait_budget : float :=
  _rate_limit_wait_budget (rv_health_cfg env) (rv_resolved_timeout env).

(** The candidates of the storm decision, cooldowns not skipped; when the
    required tags leave none, those without the tags. *)
Definition storm_candidates (k : nat) (permitted : option (list string)) (st : recovery_state)
    : health * res failover_error (list ModelAgent) :=
  let again tags allowed h :=
    _failover_candidates (with_group_ledger (rc_router st) (rv_ranking env k)) (rv_probe_again env k)
      (rq_primary rq) (rq_text rq) role_or_eligibility tags allowed (rq_prompt_context rq)
      (rq_effort_fallback rq) false (rq_token_lower_bound rq) h in
  let without r := match r with
                   | Ok (cs, _) => Ok (without_excluded (rc_excluded st) cs)
                   | Raise e => Raise e
                   end in
  match again (rq_required_tags rq) permitted (rc_health st) with
  | (h, Ok ([], _)) =>
      match rq_required_tags rq with
      | [] => (h, Ok [])
      | _ => let '(h', r) := again [] (rq_allowed rq) h in (h', without r)
      end
  | (h, r) => (h, without r)
  end.

(** The [except ProviderUpstreamError] handler, after the status checks. *)
Definition storm_decision (k : nat) (permitted : option (list string)) (cooling_at_start : list string)
    (c : exc_class) (u : ProviderUpstreamError) (calls : list string) (st : recovery_state)
    : recovery_state * recovery_step :=
  let current := ud_route (ue_extra_detail u) in
  let current_attempts := route_attempts current in
  let merged_attempts := rc_attempts st ++ current_attempts in
  let merged_eligible := fromkeys (rc_eligible st ++ route_eligible current) in
  let log ready waited :=
    {| rl_permitted := permitted; rl_calls := calls; rl_attempts := current_attempts;
       rl_ready := map id ready; rl_waited := waited |} in
  let reraise h ready :=
    (carry st h (rc_wait_deadline st) (rc_recovery_ids st) (rc_attempts st) (rc_eligible st)
       (log ready false),
     Finished (InvRaise (upstream_raised c (with_recovered_route st u)))) in
  match storm_candidates k permitted st with
  | (h, Raise e) =>
      (carry st h (rc_wait_deadline st) (rc_recovery_ids st) (rc_attempts st) (rc_eligible st)
         (log [] false), Finished (failover_outcome e))
  | (h, Ok candidates) =>
      let '(h, cooling) := filter_health (is_cooling (rv_cooling_now env k)) candidates h in
      let '(h, ready) := filter_health (is_ready (rv_ready_now env k)) candidates h in
      let expired_unattempted :=
        List.filter (λ a, in_strs (id a) cooling_at_start &&
                          negb (in_strs (id a) (map at_agent_id current_attempts))) ready in
      let wait_deadline :=
        match rc_wait_deadline st, expired_unattempted with
        | None, _ :: _ => Some (fadd (rv_expired_now env k) wait_budget)
        | d, _ => d
        end in
      if rq_virtual_selector rq && negb (bool_decide (ready = [])) &&
         (length expired_unattempted =? length ready)%nat &&
         match wait_deadline with Some d => fltb (rv_deadline_now env k) d | None => false end
      then (carry st h wait_deadline (rc_recovery_ids st) merged_attempts merged_eligible
              (log ready false), Again)
      else if negb (rq_virtual_selector rq) || bool_decide (cooling = []) then reraise h ready
      else
        let cooling :=
          match ready with
          | [] => cooling
          | _ => List.filter (λ a, in_strs (id a) (rejected_ids current_attempts)) cooling
          end in
        match cooling with
        | [] => reraise h ready
        | _ =>
            let deadline :=
              match wait_deadline with
              | Some d => d
              | None => fadd (rv_budget_now env k) wait_budget
              end in
            match _await_rate_limit_recovery cooling deadline (rv_wait_now env k) "chat"
                    (rq_virtual_selector rq) h with
            | (h, Raise wait_error) =>
                (carry st h (Some deadline) (rc_recovery_ids st) (rc_attempts st) (rc_eligible st)
                   (log ready false),
                 Finished (InvRaise (CProviderUpstreamError
                   (_attach_route_evidence_to_upstream_error wait_error
                      (_route_evidence_payload merged_eligible merged_attempts
                         "rate_limit_wait_budget_exhausted")))))
            | (h, Ok false) => reraise h ready
            | (h, Ok true) =>
                (carry st h (Some deadline) (Some (fromkeys (map id cooling))) merged_attempts
                   merged_eligible (log ready true), Again)
            end
        end
  end.

(** The statements after [_invoke] returned. *)
Definition served_route (st : recovery_state) (last_route : option route_evidence) (sv : served)
    : option route_evidence :=
  match rc_attempts st with
  | [] => last_route
  | _ =>
      let current :=
        match last_route with
        | Some r => r
        | None =>
            _route_evidence_payload [sv_agent_id sv]
              [{| at_agent_id := sv_agent_id sv; at_model := sv_model sv; at_outcome := "served";
                  at_error_code := None; at_provider_status := None; at_retryable := None;
                  at_transport := None |}] "served"
        end in
      Some (merged_route st (Some current) "served")
  end.

(** The other [except] clauses. *)
Definition other_outcome (st : recovery_state) (out : invoke_outcome) : invoke_outcome :=
  match rc_attempts st, out with
  | _ :: _, InvRaise (CProviderResponseError kind route) =>
      InvRaise (CProviderResponseError kind (Some (merged_route st route "eligible_set_exhausted")))
  | _ :: _, InvRaise (CToolFallbackStoppedError aid d route) =>
      let reason := route_reason route "fail_closed" in
      InvRaise (CToolFallbackStoppedError aid d (Some (_route_evidence_payload
        (fromkeys (rc_eligible st ++ route_eligible route)) (rc_attempts st ++ route_attempts route)
        (if str_truthy reason then reason else "fail_closed"))))
  | _, _ => out
  end.

(** One iteration of [while True]. *)
Definition recovery_round (k : nat) (st : recovery_state) : recovery_state * recovery_step :=
  let '(h, snapshot) := _rate_limited_snapshot (rv_snapshot_now env k) (rv_snapshot_later env k)
                          (rc_health st) in
  let permitted := permitted_ids (rq_allowed rq) (rc_recovery_ids st) in
  let '(s, _, last_route, out) :=
    _invoke json_loads parse_http_date float_of_text float_repr (rv_ranking env k) (rv_probe env k)
      (rv_invoke env k) (rq_primary rq) (rq_text rq) (rq_role rq) (rq_eligibility_role rq)
      (rq_required_tags rq) permitted (rc_excluded st) (rq_prompt_context rq) (rq_effort_fallback rq)
      (rq_token_lower_bound rq) (rv_race env k) (rv_race_now env k) h (rc_router st) in
  let log := {| rl_permitted := permitted; rl_calls := iv_calls s; rl_attempts := iv_attempts s;
                rl_ready := []; rl_waited := false |} in
  let st' :=
    {| rc_health := iv_health s; rc_router := iv_router s;
       rc_excluded := (λ l, l ++ iv_excluded s) <$> rc_excluded st;
       rc_wait_deadline := rc_wait_deadline st; rc_recovery_ids := rc_recovery_ids st;
       rc_attempts := rc_attempts st; rc_eligible := rc_eligible st;
       rc_last_route := None; rc_log := rc_log st |} in
  let finish last_route out :=
    ({| rc_health := rc_health st'; rc_router := rc_router st'; rc_excluded := rc_excluded st';
        rc_wait_deadline := rc_wait_deadline st'; rc_recovery_ids := rc_recovery_ids st';
        rc_attempts := rc_attempts st'; rc_eligible := rc_eligible st'; rc_last_route := last_route;
        rc_log := rc_log st' ++ [log] |}, Finished out) in
  match out with
  | Served sv => finish (served_route st' last_route sv) out
  | InvRaise c =>
      match is_upstream c with
      | Some u =>
          if negb (bool_decide (ue_provider_status u ∈ [Some 429; Some 503])) &&
             bool_decide (rejected_ids (route_attempts (ud_route (ue_extra_detail u))) = [])
          then finish None (InvRaise (upstream_raised c (with_recovered_route st' u)))
          else storm_decision k permitted snapshot.*1 c u (iv_calls s) st'
      | None => finish None (other_outcome st' out)
      end
  | _ => finish None out
  end.

(** The loop, for at most [fuel] rounds. *)
Fixpoint recover (fuel k : nat) (st : recovery_state) : recovery_state * option invoke_outcome :=
  match fuel with
  | O => (st, None)
  | S fuel' =>
      match recovery_round k st with
      | (st', Finished out) => (st', Some out)
      | (st', Again) => recover fuel' (S k) st'
      end
  end.
End recovery.

(** ** Who a round may call *)

Definition within (permitted : option (list string)) (x : string) : Prop :=
  match permitted with Some l => x ∈ l | None => True end.

Lemma failover_eligible_within env primary role rt l ranked elig :
  failover_eligible env primary role rt (Some l) ranked = Ok elig → Forall (λ a, id a ∈ l) elig.
Proof.
  intros H. unfold failover_eligible in H. apply bind_Ok_inv in H as (r & Hr & [= <-]).
  injection Hr as <-. apply Forall_forall. intros a Ha.
  apply list_elem_of_In, filter_In in Ha as [Ha _]. apply in_app_iff in Ha as [Ha|Ha].
  - destruct (in_strs (id primary) l) eqn:Hp; [|done]. destruct Ha as [<-|[]]. by apply in_strs_spec.
  - apply filter_In in Ha as [Ha _]. apply filter_In in Ha as [_ Ha]. by apply in_strs_spec.
Qed.

Lemma failover_candidates_within env clock primary text role rt permitted ctx ef skip bound h h' cs ex :
  _failover_candidates env clock primary text role rt permitted ctx ef skip bound h = (h', Ok (cs, ex)) →
  Forall (λ a, within permitted (id a)) cs.
Proof.
  intros H. destruct permitted as [l|]; [|by apply Forall_true].
  destruct (failover_candidates_sublist _ _ _ _ _ _ _ _ _ _ _ _ _ _ _ H)
    as [[-> _]|(ranked & elig & _ & He & Hs & _)]; [constructor|].
  apply failover_eligible_within in He. rewrite Forall_forall in He |- *.
  intros a Ha. apply He. by eapply elem_of_sublist.
Qed.

Lemma without_excluded_sublist excluded l : without_excluded excluded l `sublist_of` l.
Proof. unfold without_excluded. destruct excluded as [[|x ex]|]; [done|apply filter_sublist|done]. Qed.

Lemma elem_of_blocks (cs : list ModelAgent) ns x :
  x ∈ concat (zip_with (λ a n, replicate n (id a)) cs ns) → x ∈ map id cs.
Proof.
  revert ns. induction cs as [|a cs IH]; intros [|n ns]; cbn; try by intros ?%elem_of_nil.
  intros [Hx|Hx]%elem_of_app; [|right; by eapply IH].
  apply elem_of_replicate in Hx as [-> _]. by left.
Qed.

Section invocation.
Context (json_loads : string → option pyval)
        (parse_http_date : string → option float)
        (float_of_text : string → option float)
        (float_repr : float → string).

Abbreviation run env := (invoke_sequential json_loads parse_http_date float_of_text float_repr env).

Lemma run_calls env cs role h r x :
  oracle_ok env → x ∈ iv_calls (run env cs role h r).1 → x ∈ map id cs.
Proof.
  intros Hor. rewrite invoke_calls.
  destruct (attempt_candidates_calls json_loads parse_http_date float_of_text float_repr env cs
              (invoke_start h r) Hor) as (ns & _ & _ & -> & _). apply elem_of_blocks.
Qed.

(** The evidence an exception carries is the evidence of the invocation. *)
Definition carries (s : invoke_state) (out : invoke_outcome) : Prop :=
  ∀ c, out = InvRaise c → rows_match s ∧ route_attempts (route_of c) = iv_attempts s.

Lemma run_exhausted_called env cs role h r :
  oracle_ok env → cs ≠ [] →
  (attempt_candidates json_loads parse_http_date float_of_text float_repr env cs (invoke_start h r)).2 = None →
  iv_calls (run env cs role h r).1 ≠ [].
Proof.
  intros Hor Hne Hnone. rewrite invoke_calls.
  destruct (attempt_candidates_calls json_loads parse_http_date float_of_text float_repr env cs
              (invoke_start h r) Hor) as (ns & _ & Hns & -> & Hlen).
  specialize (Hlen Hnone). destruct cs as [|a cs]; [done|]. destruct ns as [|n ns]; [done|].
  apply Forall_cons in Hns as [Hn _]. destruct n as [|n]; [lia|]. done.
Qed.

Lemma run_carries env cs role h r :
  oracle_ok env → cs ≠ [] → carries (run env cs role h r).1 (run env cs role h r).2.
Proof.
  intros Hor Hne c Hc. pose proof (run_cases json_loads parse_http_date float_of_text float_repr env cs role h r Hor) as H.
  pose proof (run_exhausted_called env cs role h r Hor Hne) as Hcalled.
  assert (Hex : (run env cs role h r).2 = invoke_exhausted env cs role (run env cs role h r).1 →
    between json_loads env (run env cs role h r).1 → iv_calls (run env cs role h r).1 ≠ [] →
    rows_match (run env cs role h r).1 ∧ route_attempts (route_of c) = iv_attempts (run env cs role h r).1).
  { intros He [_ Hrows] Hcs. rewrite Hc in He. split; [done|].
    edestruct (exhausted_route env cs role (run env cs role h r).1 c) as [reason ->]; [|done|done].
    intros Hnil. apply Hcs. unfold rows_match in Hrows. by rewrite <- Hrows, Hnil. }
  destruct H as [(n & Hn & _ & Hfin)|[Hb He]].
  - rewrite Hc in Hfin. destruct Hfin as (l & e & _ & _ & Hrows & _ & Hroute). split; [done|].
    by rewrite Hroute.
  - apply Hex; [done|done|]. apply Hcalled. clear Hex. unfold invoke_sequential in *.
    pose proof (invoke_ends json_loads parse_http_date float_of_text float_repr env cs h r Hor) as Hends.
    unfold ends in Hends.
    destruct (attempt_candidates _ _ _ _ _ _ _) as [s [out|]]; [|done]. cbn in *. exfalso.
    rewrite Hc in Hends. destruct Hends as (n & Hn & Hgo & Hfin).
    destruct Hfin as (l & e & Hf & Hv & _). destruct Hb as [Hb _].
    destruct (Hb n ltac:(lia)) as (l' & e' & Hf' & Hv').
    by destruct (failed_call_unique _ _ _ _ _ _ Hf Hf') as [-> _].
Qed.

(** What one [_invoke] guarantees the loop: it calls permitted agents only, and
    its exceptions carry its evidence. *)
Lemma invoke_facts renv clock env primary text role elig rt permitted excluded ctx ef bound race now h r :
  oracle_ok env →
  let '(s, _, _, out) :=
    _invoke json_loads parse_http_date float_of_text float_repr renv clock env primary text role elig
      rt permitted excluded ctx ef bound race now h r in
  Forall (within permitted) (iv_calls s) ∧ carries s out.
Proof.
  intros Hor. unfold _invoke.
  destruct (_failover_candidates _ _ _ _ _ _ _ _ _ _ _ _) as [h1 [[cs wx]|e]] eqn:Hf.
  2: { split; [constructor|]. intros c Hc. split; [done|]. destruct e; try done. by injection Hc as <-. }
  apply failover_candidates_within in Hf.
  destruct (without_excluded excluded cs) as [|a cs'] eqn:Hw.
  { split; [constructor|]. intros c. by destruct rt. }
  assert (Hin : Forall (λ a, within permitted (id a)) (a :: cs')).
  { rewrite Forall_forall in Hf |- *. intros x Hx. apply Hf. rewrite <- Hw in Hx.
    eapply elem_of_sublist; [exact Hx|apply without_excluded_sublist]. }
  rewrite <- Hw in Hin |- *. set (l := without_excluded excluded cs) in *.
  assert (Hl : l ≠ []) by (by rewrite Hw). clearbody l. clear Hw.
  set (env' := request_env env l permitted excluded).
  assert (Hor' : oracle_ok env') by exact Hor.
  destruct (invoke_candidates _ _ _ _ env' l role race now h1 r) as [s out] eqn:Hi.
  assert (Hseq : invoke_sequential json_loads parse_http_date float_of_text float_repr env' l role h1 r = (s, out) →
    Forall (within permitted) (iv_calls s) ∧ carries s out).
  { intros Hs. pose proof (run_carries env' l role h1 r Hor' Hl) as Hcar. rewrite Hs in Hcar.
    split; [|done]. apply Forall_forall. intros x Hx.
    pose proof (run_calls env' l role h1 r x Hor') as Hx'. rewrite Hs in Hx'. specialize (Hx' Hx).
    apply (list_elem_of_fmap_1 id) in Hx' as (b & -> & Hb). rewrite Forall_forall in Hin. by apply Hin. }
  unfold invoke_candidates in Hi. destruct (_equivalent_race_members l "text"); [by apply Hseq|].
  destruct (_ <? _)%nat; [injection Hi as <- <-; split; [constructor|done]|].
  destruct (race _) as [w sv ms| |]; [|by apply Hseq|].
  - unfold race_won in Hi. destruct (observe_success _ _ _ _ _ _ _); injection Hi as <- <-;
      (split; [constructor|done]).
  - injection Hi as <- <-. split; [constructor|]. by intros c [= <-].
Qed.
End invocation.

(** ** One round *)

Lemma filter_length_all {A} (p : A → bool) (l : list A) :
  length (List.filter p l) = length l → Forall (λ x, p x = true) l.
Proof.
  induction l as [|x l IH]; cbn; [done|]. destruct (p x) eqn:Hp; cbn; intros H.
  - constructor; [done|]. apply IH. lia.
  - pose proof (filter_length_le p l). lia.
Qed.

Lemma await_true cs deadline now transport virtual h h' :
  _await_rate_limit_recovery cs deadline now transport virtual h = (h', Ok true) →
  fleb (fsub deadline now) f0 = false.
Proof.
  unfold _await_rate_limit_recovery. destruct (negb virtual); [done|].
  destruct (cooling_of now cs h) as [h1 [|c l]]; [done|]. destruct (earliest c l) as [a r].
  destruct (fleb (fsub deadline now) f0); [done|]. by destruct (fltb _ _).
Qed.

Section rounds.
Context (json_loads : string → option pyval)
        (parse_http_date : string → option float)
        (float_of_text : string → option float)
        (float_repr : float → string)
        (env : recovery_env) (rq : recovery_request).

Abbreviation round_of := (recovery_round json_loads parse_http_date float_of_text float_repr env rq).
Abbreviation loop := (recover json_loads parse_http_date float_of_text float_repr env rq).

Definition env_ok : Prop := ∀ k, oracle_ok (rv_invoke env k).

(** A deadline round [k] may set. *)
Definition loop_deadline (k : nat) (d : float) : Prop :=
  d = fadd (rv_expired_now env k) (wait_budget env) ∨
  d = fadd (rv_budget_now env k) (wait_budget env).

Definition next_deadline (k : nat) (st st' : recovery_state) : Prop :=
  ∃ d, rc_wait_deadline st' = Some d ∧
    (rc_wait_deadline st = Some d ∨ (rc_wait_deadline st = None ∧ loop_deadline k d)) ∧
    (fltb (rv_deadline_now env k) d = true ∨ fleb (fsub d (rv_wait_now env k)) f0 = false).

(** What a round that goes on has decided. *)
Definition went_again (k : nat) (lg : round_log) (st st' : recovery_state) : Prop :=
  rq_virtual_selector rq = true ∧
  rc_attempts st' = rc_attempts st ++ rl_attempts lg ∧
  next_deadline k st st' ∧
  if rl_waited lg
  then ∃ ids, rc_recovery_ids st' = Some ids ∧
         ∀ i, i ∈ ids → rl_ready lg ≠ [] → i ∈ rejected_ids (rl_attempts lg)
  else rc_recovery_ids st' = rc_recovery_ids st ∧
         ∀ i, i ∈ rl_ready lg → i ∉ map at_agent_id (rl_attempts lg).

(** The evidence a raised exception carries covers every round. *)
Definition raised_ok (lg : round_log) (st : recovery_state) (out : invoke_outcome) : Prop :=
  ∀ c route, out = InvRaise c → route_of c = Some route →
    attempted route = rc_attempts st ++ rl_attempts lg.

Lemma recovered_route_attempts st u route :
  ud_route (ue_extra_detail (with_recovered_route st u)) = Some route →
  attempted route = rc_attempts st ++ route_attempts (ud_route (ue_extra_detail u)).
Proof.
  unfold with_recovered_route.
  destruct (rc_attempts st ++ route_attempts (ud_route (ue_extra_detail u))) as [|row rows] eqn:Hm.
  - intros Hr. rewrite Hr in Hm. cbn in Hm. by apply app_eq_nil in Hm as [_ ?].
  - cbn. intros [= <-]. exact Hm.
Qed.

Lemma route_of_upstream c u : route_of (upstream_raised c u) = ud_route (ue_extra_detail u).
Proof. by destruct c. Qed.

Lemma storm_decision_spec k permitted start c u calls st st' step :
  storm_decision env rq k permitted start c u calls st = (st', step) →
  ∃ lg, rc_log st' = rc_log st ++ [lg] ∧ rl_permitted lg = permitted ∧ rl_calls lg = calls ∧
    rl_attempts lg = route_attempts (ud_route (ue_extra_detail u)) ∧
    match step with Again => went_again k lg st st' | Finished out => raised_ok lg st out end.
Proof.
  unfold storm_decision. set (current := ud_route (ue_extra_detail u)).
  destruct (storm_candidates env rq k permitted st) as [h [candidates|e]].
  2: { intros [= <- <-]. eexists. split_and!; try done. intros c' route Hc'.
       destruct e; try done. by injection Hc' as <-. }
  destruct (filter_health (is_cooling _) candidates h) as [h1 cooling].
  destruct (filter_health (is_ready _) candidates h1) as [h2 ready].
  set (expired := List.filter _ ready). set (wd := match rc_wait_deadline st with None => _ | d => d end).
  assert (Hreraise : ∀ h', (carry st h' (rc_wait_deadline st) (rc_recovery_ids st) (rc_attempts st)
      (rc_eligible st) {| rl_permitted := permitted; rl_calls := calls;
        rl_attempts := route_attempts current; rl_ready := map id ready; rl_waited := false |},
      Finished (InvRaise (upstream_raised c (with_recovered_route st u)))) = (st', step) →
    ∃ lg, rc_log st' = rc_log st ++ [lg] ∧ rl_permitted lg = permitted ∧ rl_calls lg = calls ∧
      rl_attempts lg = route_attempts current ∧
      match step with Again => went_again k lg st st' | Finished out => raised_ok lg st out end).
  { intros h' [= <- <-]. eexists. split_and!; try done. intros c' route [= <-].
    rewrite route_of_upstream. apply recovered_route_attempts. }
  assert (Hwd : ∀ d, wd = Some d → rc_wait_deadline st = Some d ∨
      (rc_wait_deadline st = None ∧ loop_deadline k d)).
  { subst wd. intros d. destruct (rc_wait_deadline st); [by left|].
    destruct expired; [done|]. intros [= <-]. right. split; [done|]. by left. }
  destruct (_ && _) eqn:Hexp.
  - intros [= <- <-]. rewrite !andb_true_iff in Hexp. destruct Hexp as (((Hv & _) & Hlen) & Hd).
    apply Nat.eqb_eq in Hlen. eexists. split_and!; try done. split; [done|]. split; [done|]. split.
    { destruct wd as [d|] eqn:Hwd'; [|done]. exists d. split; [done|]. split; [by apply Hwd|]. by left. }
    cbn. split; [done|]. intros i Hi. apply (list_elem_of_fmap_1 id) in Hi as (a & -> & Ha).
    apply filter_length_all in Hlen. rewrite Forall_forall in Hlen. specialize (Hlen a Ha).
    apply andb_true_iff in Hlen as [_ Hno]. apply negb_true_iff in Hno. intros Hin.
    apply in_strs_spec in Hin. congruence.
  - destruct (negb (rq_virtual_selector rq) || _) eqn:Hv; [apply Hreraise|].
    apply orb_false_iff in Hv as [Hv _]. apply negb_false_iff in Hv.
    set (cool := match ready with [] => cooling | _ => _ end).
    destruct cool as [|c0 cs] eqn:Hcool; [apply Hreraise|].
    set (deadline := match wd with Some d => d | None => _ end).
    destruct (_await_rate_limit_recovery _ _ _ _ _ _) as [h3 [[]|werr]] eqn:Haw; [|apply Hreraise|].
    + intros [= <- <-]. eexists. split_and!; try done. split; [done|]. split; [done|]. split.
      { exists deadline. split; [done|]. split; [|right; by eapply await_true].
        subst deadline. destruct wd as [d|] eqn:Hwd'; [by apply Hwd|]. right. split; [|by right].
        revert Hwd'. subst wd. by destruct (rc_wait_deadline st). }
      eexists. split; [done|]. intros i Hi Hne. cbn [rl_ready rl_attempts] in Hne |- *.
      rewrite fromkeys_elem in Hi.
      assert (Hi' : i ∈ map id cool) by (rewrite Hcool; exact Hi). clear Hi Hcool. subst cool.
      destruct ready as [|r0 rs]; [done|].
      apply (list_elem_of_fmap_1 id) in Hi' as (a & -> & Ha).
      apply list_elem_of_In, filter_In in Ha as [_ Ha]. by apply in_strs_spec.
    + intros [= <- <-]. eexists. split_and!; try done. intros c' route [= <-]. cbn. by intros [= <-].
Qed.

(** One round, whatever [_invoke] did: it calls permitted agents only, its
    evidence names its calls, and it goes on only as [went_again] allows. *)
Lemma round_spec k st st' step :
  env_ok → round_of k st = (st', step) →
  ∃ lg, rc_log st' = rc_log st ++ [lg] ∧
    rl_permitted lg = permitted_ids (rq_allowed rq) (rc_recovery_ids st) ∧
    Forall (within (rl_permitted lg)) (rl_calls lg) ∧
    match step with
    | Again => map at_agent_id (rl_attempts lg) = rl_calls lg ∧ went_again k lg st st'
    | Finished out => (∀ c, out = InvRaise c → route_of c ≠ None →
                         map at_agent_id (rl_attempts lg) = rl_calls lg) ∧ raised_ok lg st out
    end.
Proof.
  intros Hor. unfold recovery_round.
  destruct (_rate_limited_snapshot _ _ _) as [h0 snapshot].
  pose proof (invoke_facts json_loads parse_http_date float_of_text float_repr
    (rv_ranking env k) (rv_probe env k) (rv_invoke env k) (rq_primary rq) (rq_text rq) (rq_role rq)
    (rq_eligibility_role rq) (rq_required_tags rq) (permitted_ids (rq_allowed rq) (rc_recovery_ids st))
    (rc_excluded st) (rq_prompt_context rq) (rq_effort_fallback rq) (rq_token_lower_bound rq)
    (rv_race env k) (rv_race_now env k) h0 (rc_router st) (Hor k)) as Hinv.
  destruct (_invoke _ _ _ _ _ _ _ _ _ _ _ _ _ _ _ _ _ _ _ _ _) as [[[s wx] lr] out].
  destruct Hinv as [Hcalls Hcar].
  set (st1 := {| rc_health := iv_health s; rc_router := _; rc_excluded := _; rc_wait_deadline := _;
                 rc_recovery_ids := _; rc_attempts := _; rc_eligible := _; rc_last_route := _;
                 rc_log := _ |}).
  destruct out as [sv|c|m|m]; try (intros [= <- <-]; eexists; split_and!; done).
  destruct (Hcar c eq_refl) as [Hrows Hroute]. unfold rows_match in Hrows.
  destruct (is_upstream c) as [u|] eqn:Hup.
  - assert (Hu : route_of c = ud_route (ue_extra_detail u)) by (by destruct c; simplify_eq/=).
    destruct (_ && _).
    + intros [= <- <-]. eexists. split_and!; try done.
      intros c' route [= <-]. rewrite route_of_upstream. intros Hr.
      rewrite (recovered_route_attempts _ _ _ Hr). by rewrite <- Hu, Hroute.
    + intros Hsd. apply storm_decision_spec in Hsd as (lg & Hlog & Hperm & Hc & Hatt & Hst).
      exists lg. rewrite <- Hu, Hroute in Hatt. rewrite Hperm, Hc, Hatt. split_and!; try done.
      by destruct step.
  - intros [= <- <-]. eexists. split_and!; try done.
    intros c' route Ho Hr. unfold other_outcome in Ho. cbn in Ho.
    destruct (rc_attempts st) as [|row rows] eqn:Hatt.
    + injection Ho as <-. rewrite Hr in Hroute. cbn in Hroute |- *. by rewrite Hroute.
    + destruct c; try (injection Ho as <-; done); injection Ho as <-; injection Hr as <-;
        cbn in Hroute |- *; by rewrite Hroute.
Qed.

(** ** The whole loop *)

(** Consecutive rounds: the second one only replays what the first one allowed. *)
Definition replay_ok (lg lg' : round_log) : Prop :=
  rq_virtual_selector rq = true ∧
  (rl_waited lg = true → ∀ x, x ∈ rl_calls lg' → rl_ready lg ≠ [] →
     x ∈ rejected_ids (rl_attempts lg)) ∧
  (rl_waited lg = false → ∀ x, x ∈ rl_ready lg → x ∉ rl_calls lg).

(** The invariant between rounds. *)
Definition loop_inv (st : recovery_state) : Prop :=
  map at_agent_id (rc_attempts st) = concat (map rl_calls (rc_log st)) ∧
  Forall (λ lg, Forall (within (rl_permitted lg)) (rl_calls lg) ∧
                ∀ l, rq_allowed rq = Some l → Forall (λ x, x ∈ l) (rl_calls lg)) (rc_log st) ∧
  (∀ i lg lg', rc_log st !! i = Some lg → rc_log st !! S i = Some lg' → replay_ok lg lg') ∧
  (∀ lg, last (rc_log st) = Some lg →
     rq_virtual_selector rq = true ∧
     (rl_waited lg = true → ∃ ids, rc_recovery_ids st = Some ids ∧
        ∀ i, i ∈ ids → rl_ready lg ≠ [] → i ∈ rejected_ids (rl_attempts lg)) ∧
     (rl_waited lg = false → ∀ x, x ∈ rl_ready lg → x ∉ rl_calls lg)).

Lemma within_permitted x recovery :
  within (permitted_ids (rq_allowed rq) recovery) x →
  (∀ l, rq_allowed rq = Some l → x ∈ l) ∧ (∀ ids, recovery = Some ids → x ∈ ids).
Proof.
  unfold permitted_ids. destruct recovery as [ids|], (rq_allowed rq) as [l|]; cbn.
  - intros Hx. apply list_elem_of_In, filter_In in Hx as [Hx Hi]. apply in_strs_spec in Hi.
    split; intros ? [= <-]; [by apply list_elem_of_In|done].
  - intros Hx. split; [done|]. by intros ? [= <-].
  - intros Hx. split; [by intros ? [= <-]|done].
  - done.
Qed.

(** The log part of the invariant after one more round. *)
Lemma log_grows st lg :
  loop_inv st → rl_permitted lg = permitted_ids (rq_allowed rq) (rc_recovery_ids st) →
  Forall (within (rl_permitted lg)) (rl_calls lg) →
  Forall (λ lg, Forall (within (rl_permitted lg)) (rl_calls lg) ∧
                ∀ l, rq_allowed rq = Some l → Forall (λ x, x ∈ l) (rl_calls lg)) (rc_log st ++ [lg]) ∧
  (∀ i l l', (rc_log st ++ [lg]) !! i = Some l → (rc_log st ++ [lg]) !! S i = Some l' → replay_ok l l').
Proof.
  intros (_ & Hall & Hrep & Hlast) Hp Hw. rewrite Hp in Hw. split.
  - apply Forall_app. split; [done|]. constructor; [|done]. split; [by rewrite Hp|].
    intros l Hl. apply Forall_forall. intros x Hx. rewrite Forall_forall in Hw.
    destruct (within_permitted x _ (Hw x Hx)) as [H1 _]. by apply H1.
  - intros i l l' Hi Hi'. destruct (decide (S i < length (rc_log st))%nat) as [Hlt|Hge].
    { rewrite lookup_app_l in Hi by lia. rewrite lookup_app_l in Hi' by lia. by eapply Hrep. }
    pose proof (lookup_lt_Some _ _ _ Hi') as Hlen. rewrite length_app in Hlen. cbn in Hlen.
    rewrite lookup_app_r in Hi' by lia.
    replace (S i - length (rc_log st))%nat with O in Hi' by lia. injection Hi' as <-.
    rewrite lookup_app_l in Hi by lia.
    assert (Hl : last (rc_log st) = Some l).
    { rewrite last_lookup. by replace (pred (length (rc_log st))) with i by lia. }
    destruct (Hlast l Hl) as (Hv & Hwait & Hno). split; [done|]. split; [|done].
    intros Hwl x Hx Hne. destruct (Hwait Hwl) as (ids & Hids & Hrej). apply Hrej; [|done].
    rewrite Forall_forall in Hw. destruct (within_permitted x _ (Hw x Hx)) as [_ H2]. by apply H2.
Qed.

Lemma concat_map_snoc (l : list round_log) x :
  concat (map rl_calls (l ++ [x])) = concat (map rl_calls l) ++ rl_calls x.
Proof. rewrite map_app, concat_app. cbn. by rewrite app_nil_r. Qed.

Lemma round_keeps k st st' :
  env_ok → loop_inv st → round_of k st = (st', Again) → loop_inv st' ∧ next_deadline k st st'.
Proof.
  intros Hor Hinv Hr. destruct (round_spec k st st' Again Hor Hr)
    as (lg & Hlog & Hp & Hw & Hrows & Hv & Hatt & Hdl & Hgo).
  destruct (log_grows st lg Hinv Hp Hw) as [Hall Hrep]. split; [|done].
  destruct Hinv as (Hids & _). unfold loop_inv. rewrite Hlog. split; [|split; [done|split; [done|]]].
  - rewrite Hatt, map_app, Hids, Hrows. by rewrite concat_map_snoc.
  - intros l Hl. rewrite last_snoc in Hl. injection Hl as <-. split; [done|].
    destruct (rl_waited lg); [|rewrite Hrows in Hgo]; split; try done. intros _. by apply Hgo.
Qed.

(** What a finished loop leaves. *)
Definition loop_done (st : recovery_state) (out : option invoke_outcome) : Prop :=
  Forall (λ lg, Forall (within (rl_permitted lg)) (rl_calls lg) ∧
                ∀ l, rq_allowed rq = Some l → Forall (λ x, x ∈ l) (rl_calls lg)) (rc_log st) ∧
  (∀ i lg lg', rc_log st !! i = Some lg → rc_log st !! S i = Some lg' → replay_ok lg lg') ∧
  ∀ c route, out = Some (InvRaise c) → route_of c = Some route →
    map at_agent_id (attempted route) = concat (map rl_calls (rc_log st)).

Lemma loop_spec fuel k st :
  env_ok → loop_inv st → let p := loop fuel k st in loop_done p.1 p.2.
Proof.
  intros Hor. revert k st. induction fuel as [|fuel IH]; intros k st Hinv; cbn [recover].
  { destruct Hinv as (_ & Hall & Hrep & _). by split_and!. }
  destruct (round_of k st) as [st' [|out]] eqn:Hr.
  { apply IH. by eapply round_keeps. }
  destruct (round_spec k st st' _ Hor Hr) as (lg & Hlog & Hp & Hw & Hrows & Hraise).
  destruct (log_grows st lg Hinv Hp Hw) as [Hall Hrep]. destruct Hinv as (Hids & _).
  split; [by cbn; rewrite Hlog|]. split; [by cbn; rewrite Hlog|].
  intros c route [= ->] Hroute. cbn. rewrite Hlog, concat_map_snoc.
  rewrite (Hraise c route eq_refl Hroute), map_app, Hids. f_equal.
  apply (Hrows c eq_refl). by rewrite Hroute.
Qed.

Lemma recovery_start_inv h r excluded : loop_inv (recovery_start h r excluded).
Proof. split; [done|]. split; [constructor|]. split; [by intros [|i] ? ? ?|done]. Qed.
End rounds.

(** ** Theorems *)

Section recovery_theorems.
Context (json_loads : string → option pyval)
        (parse_http_date : string → option float)
        (float_of_text : string → option float)
        (float_repr : float → string).


(** Recovered evidence is complete: the route evidence of whatever exception
    the loop finally raises lists every provider call of every round, in order,
    one row per call. *)
Theorem recovery_evidence_complete env rq fuel h r excluded st c route :
  env_ok env →
  recover json_loads parse_http_date float_of_text float_repr env rq fuel 0
    (recovery_start h r excluded) = (st, Some (InvRaise c)) →
  route_of c = Some route →
  map at_agent_id (attempted route) = concat (map rl_calls (rc_log st)).
Proof.
  intros Hor Hr Hroute.
  destruct (loop_spec json_loads parse_http_date float_of_text float_repr env rq fuel 0
              (recovery_start h r excluded) Hor (recovery_start_inv rq h r excluded)) as (_ & _ & Hev).
  rewrite Hr in Hev. by apply (Hev c).
Qed.

Lemma past_deadline env rq d n :
  (∀ k, (n ≤ k)%nat → fltb (rv_deadline_now env k) d = false ∧ fleb (fsub d (rv_wait_now env k)) f0 = true) →
  env_ok env → ∀ m k st, rc_wait_deadline st = Some d → (n ≤ k + m)%nat →
  (recover json_loads parse_http_date float_of_text float_repr env rq (S m) k st).2 ≠ None.
Proof.
  intros Hpast Hor. induction m as [|m IH]; intros k st Hd Hle; cbn [recover].
  all: destruct (recovery_round _ _ _ _ _ _ k st) as [st' [|out]] eqn:Hr; [|done].
  all: destruct (round_spec json_loads parse_http_date float_of_text float_repr env rq k st st' _ Hor Hr)
         as (lg & _ & _ & _ & _ & _ & _ & (d' & Hd' & Hfrom & Hnot) & _).
  all: assert (d' = d) as -> by (destruct Hfrom as [?|[? _]]; congruence).
  - destruct (Hpast k ltac:(lia)) as [H1 H2]. destruct Hnot as [?|?]; congruence.
  - apply (IH (S k) st'); [done|lia].
Qed.

(** C31. Recovery terminates: a pinned model runs exactly one round, and for a
    virtual selector some number of rounds is enough as soon as the clock
    eventually passes the deadline round 0 set, the only one the loop ever sets. *)
Theorem recovery_terminates env rq h r excluded :
  env_ok env →
  (∀ d, loop_deadline env 0 d → ∃ n, ∀ k, (n ≤ k)%nat →
     fltb (rv_deadline_now env k) d = false ∧ fleb (fsub d (rv_wait_now env k)) f0 = true) →
  let run fuel := recover json_loads parse_http_date float_of_text float_repr env rq fuel 0
                    (recovery_start h r excluded) in
  (∃ fuel, (run fuel).2 ≠ None) ∧
  (rq_virtual_selector rq = false → ∀ fuel,
     (run (S fuel)).2 ≠ None ∧ length (rc_log (run (S fuel)).1) = 1%nat).
Proof.
  intros Hor Hclock. cbv zeta.
  destruct (recovery_round json_loads parse_http_date float_of_text float_repr env rq 0
              (recovery_start h r excluded)) as [st' step] eqn:Hr.
  pose proof (round_spec json_loads parse_http_date float_of_text float_repr env rq 0 _ st' step Hor Hr)
    as (lg & Hlog & _ & _ & Hstep). split.
  - destruct step as [|out]; [|exists 1%nat; cbn [recover]; by rewrite Hr].
    destruct Hstep as (_ & _ & _ & (d & Hd & Hfrom & _) & _).
    destruct Hfrom as [?|[_ Hloop]]; [done|]. destruct (Hclock d Hloop) as [n Hn].
    exists (S (S n)). cbn [recover]. rewrite Hr. apply (past_deadline env rq d n Hn Hor n 1 st'); [done|lia].
  - intros Hv fuel. cbn [recover]. rewrite Hr. destruct step as [|out].
    + destruct Hstep as (_ & Hvirt & _). congruence.
    + split; [done|]. cbn. by rewrite Hlog.
Qed.
End recovery_theorems.

(** ** A storm

    One agent that answers every call of round 0 with a 429; the caller may wait
    30 seconds, and the next round is played long after. *)

Definition storm_request (virtual : bool) : recovery_request :=
  {| rq_primary := demo_agent "a" "m1" "https://a.example" []; rq_text := "t"; rq_role := "worker";
     rq_eligibility_role := ""; rq_required_tags := []; rq_prompt_context := None;
     rq_effort_fallback := None; rq_allowed := None; rq_virtual_selector := virtual;
     rq_token_lower_bound := None |}.

(** Time zero in round 0, far past every cooldown afterwards. *)
Definition storm_now (k : nat) : float := match k with O => f0 | _ => float_of_Z 1000 end.

Definition storm_env (second : nat → chat_reply + loc) : recovery_env :=
  let probe k := {| pc_circuit := λ _, storm_now k; pc_rate := λ _, storm_now k |} in
  {| rv_ranking := λ _, demo_env [demo_agent "a" "m1" "https://a.example" []];
     rv_invoke := λ k, demo_invoke (match k with O => (λ _, inr 1%positive) | _ => second end);
     rv_probe := probe; rv_probe_again := probe;
     rv_race := λ _ _, RaceLost; rv_race_now := storm_now; rv_snapshot_now := storm_now;
     rv_snapshot_later := storm_now; rv_cooling_now := λ k _, storm_now k;
     rv_ready_now := λ k _, storm_now k; rv_expired_now := storm_now;
     rv_deadline_now := storm_now; rv_budget_now := storm_now; rv_wait_now := storm_now;
     rv_health_cfg := {| rate_limit_wait_seconds := float_of_Z 30;
                         rate_limit_unknown_cooldown_seconds := float_of_Z 20 |};
     rv_resolved_timeout := None |}.

Definition storm_run (second : nat → chat_reply + loc) : recovery_state * option invoke_outcome :=
  recover (λ _, None) (λ _, None) (λ _, None) (λ _, "") (storm_env second) (storm_request true) 3 0
    (recovery_start empty_health empty_router None).


Lemma storm_ok second :
  (∀ n l, second n = inr l → l ∈ [1%positive; 2%positive; 3%positive]) → env_ok (storm_env second).
Proof.
  intros Hs [|k]; apply demo_oracle_ok; [|exact Hs].
  intros n l [= <-]. apply list_elem_of_here.
Qed.


Lemma recovery_evidence_complete_witness :
  ∃ st c route, storm_run (λ _, inr 2%positive) = (st, Some (InvRaise c)) ∧
    route_of c = Some route ∧ map at_agent_id (attempted route) = ["a"; "a"; "a"].
Proof.
  destruct (storm_run (λ _, inr 2%positive)) as [st out] eqn:Hrun.
  assert (out = (storm_run (λ _, inr 2%positive)).2) as Hout by (by rewrite Hrun).
  assert (rc_log st = rc_log (storm_run (λ _, inr 2%positive)).1) as Hst by (by rewrite Hrun).
  assert (∃ c r, (storm_run (λ _, inr 2%positive)).2 = Some (InvRaise c) ∧ route_of c = Some r)
    as (c & r & Hc & Hr).
  { eexists _, _. split; [vm_compute; reflexivity|]. vm_compute. reflexivity. }
  rewrite Hc in Hout. subst out. exists st, c, r. split; [done|]. split; [done|].
  rewrite (recovery_evidence_complete (λ _, None) (λ _, None) (λ _, None) (λ _, "")
             (storm_env (λ _, inr 2%positive)) (storm_request true) 3 empty_health empty_router None
             st c r); [|apply storm_ok; intros n l [= <-]; rewrite !elem_of_cons; tauto|exact Hrun|done].
  rewrite Hst. vm_compute. reflexivity.
Defined.

Lemma recovery_terminates_witness :
  ∃ fuel, (recover (λ _, None) (λ _, None) (λ _, None) (λ _, "") (storm_env (λ _, inr 1%positive))
             (storm_request true) fuel 0 (recovery_start empty_health empty_router None)).2 ≠ None.
Proof.
  destruct (recovery_terminates (λ _, None) (λ _, None) (λ _, None) (λ _, "")
              (storm_env (λ _, inr 1%positive)) (storm_request true) empty_health empty_router None)
    as [H _].
  - apply storm_ok. intros n l [= <-]. apply list_elem_of_here.
  - intros d Hd. exists 1%nat. intros k Hk. destruct k as [|k]; [lia|].
    assert (d = float_of_Z 30) as -> by (destruct Hd as [-> | ->]; vm_compute; reflexivity).
    split; vm_compute; reflexivity.
  - exact H.
Defined.
