(* ===== verification/JobRegistry.v ===== *)
(** batch_job_registry.py: named registries over a Valkey hash or a dict, and the
    life of a durable provider-embedding job.

    The Valkey client and the JSON library are interfaces: a class of operations
    with the documented behaviour the module relies on. *)

From Stdlib Require Import Ascii String.
From S2P Require Import Prelude PyString PyCollections PyFloat PyValue PyJson.

(** ** Interfaces *)

(** [json.dumps(..., ensure_ascii=False)] and [json.loads] on the documents the
    gateway stores. *)
Class JsonCodec := {
  document : pyval → Prop;
  json_dumps_text : pyval → string;
  json_loads_text : string → option pyval;
  document_plain v : json_normal v = true → document v;
  json_loads_dumps v : document v → json_loads_text (json_dumps_text v) = Some v;
}.

(** The hash commands of Valkey: [HGET], [HSET], [HDEL], [HKEYS] and [EXPIRE],
    which changes no field. *)
Class HashClient (R : Type) := {
  hget : R → string → string → option string;
  hset : R → string → string → string → R;
  hdel : R → string → string → R;
  hkeys : R → string → list string;
  expire : R → string → Z → R;
  hget_hset r key f v key' f' :
    hget (hset r key f v) key' f' = if decide (key' = key ∧ f' = f) then Some v else hget r key' f';
  hget_hdel r key f key' f' :
    hget (hdel r key f) key' f' = if decide (key' = key ∧ f' = f) then None else hget r key' f';
  hget_expire r key t key' f' : hget (expire r key t) key' f' = hget r key' f';
  hkeys_spec r key f : f ∈ hkeys r key ↔ is_Some (hget r key f);
  hkeys_NoDup r key : NoDup (hkeys r key);
}.

(** What a registry offers to its clients: [MutableMapping], with the atomic
    first write. *)
Class Mapping (M V : Type) := {
  getitem : M → string → M * option V;              (* None is the KeyError *)
  setitem : M → string → V → M;
  delitem : M → string → option M;
  iter : M → list string;
  set_if_absent : M → string → V → M * bool;
}.

(** What it promises: [models m c] relates the registry to the finite map it
    stands for, and every operation is the one of the finite map, for the values
    it admits. *)
Class MappingLaws (M V : Type) `{!Mapping M V} (admissible : V → Prop) (models : M → gmap string V → Prop) := {
  models_admissible m c k v : models m c → c !! k = Some v → admissible v;
  getitem_models m c k : models m c → (getitem m k).2 = c !! k ∧ models (getitem m k).1 c;
  setitem_models m c k v : models m c → admissible v → models (setitem m k v) (<[k := v]> c);
  delitem_models m c k :
    models m c →
    match delitem m k with
    | None => c !! k = None
    | Some m' => is_Some (c !! k) ∧ models m' (delete k c)
    end;
  iter_models m c : models m c → NoDup (iter m) ∧ ∀ k, k ∈ iter m ↔ is_Some (c !! k);
  set_if_absent_models m c k v :
    models m c → admissible v →
    match c !! k with
    | Some _ => (set_if_absent m k v).2 = false ∧ models (set_if_absent m k v).1 c
    | None => (set_if_absent m k v).2 = true ∧ models (set_if_absent m k v).1 (<[k := v]> c)
    end;
}.

(** ** The dict *)

Section dict.
Context {V : Type}.

(** [set_if_absent] is the lock-protected test of the callers. *)
#[global] Instance dict_mapping : Mapping (list (string * V)) V := {
  getitem m k := (m, od_get k m);
  setitem m k v := od_set k v m;
  delitem m k := match od_get k m with None => None | Some _ => Some (od_del k m) end;
  iter m := m.*1;
  set_if_absent m k v := match od_get k m with None => (od_set k v m, true) | Some _ => (m, false) end;
}.
(** The dict [m] holds exactly the entries of [c]. *)
Definition dict_models (m : list (string * V)) (c : gmap string V) : Prop :=
  od_wf m ∧ ∀ k, od_get k m = c !! k.

#[global] Instance dict_laws : MappingLaws (list (string * V)) V (λ _, True) dict_models.
Proof.
  split; [done|..].
  - intros m c k [Hwf Hm]. split; [apply Hm|by split].
  - intros m c k v [Hwf Hm] _. split; [by apply od_set_wf|]. intros k'. cbn.
    rewrite od_get_set. case_decide; subst; by simplify_map_eq.
  - intros m c k [Hwf Hm]. cbn. destruct (od_get k m) as [v|] eqn:Hk; rewrite Hm in Hk; [|done].
    split; [by eexists|]. split; [by apply od_del_wf|]. intros k'.
    rewrite od_get_del. case_decide; subst; by simplify_map_eq.
  - intros m c [Hwf Hm]. split; [exact Hwf|]. intros k. by rewrite <- Hm, od_get_elem.
  - intros m c k v [Hwf Hm] _. cbn. rewrite Hm. destruct (c !! k) eqn:Hk; [by split|].
    split; [done|]. split; [by apply od_set_wf|]. intros k'. cbn [fst].
    rewrite od_get_set. case_decide; subst; by simplify_map_eq.
Qed.
End dict.

(** ** The Valkey hash *)

(** A registry value as a JSON document: a dataclass, a list of them, or plain. *)
Class Encodable (V : Type) `{!JsonCodec} := {
  payload : V → pyval;                          (* what _encode passes to json.dumps *)
  decode_document : pyval → option V;           (* _decode_document, after json.loads *)
  encodable : V → Prop;
  payload_document v : encodable v → document (payload v);
  decode_payload v : encodable v → decode_document (payload v) = Some v;
}.

Definition DEFAULT_RETENTION_SECONDS : Z := 7 * 24 * 3600.

Record ValkeyJsonMapping (R : Type) := {
  _client : R;
  _key : string;
  _retention_seconds : Z;
}.
Arguments _client {R}. Arguments _key {R}. Arguments _retention_seconds {R}.

Definition ValkeyJsonMapping_init {R} (client : R) (name : string) (retention : Z) : ValkeyJsonMapping R :=
  {| _client := client; _key := String.append "batch_job_registry:" name; _retention_seconds := retention |}.

Section valkey.
Context {R V : Type} `{!JsonCodec} `{!HashClient R} `{!Encodable V}.
Implicit Types (m : ValkeyJsonMapping R).

Definition with_client (m : ValkeyJsonMapping R) (c : R) : ValkeyJsonMapping R :=
  {| _client := c; _key := _key m; _retention_seconds := _retention_seconds m |}.

Definition refreshed (m : ValkeyJsonMapping R) (c : R) : ValkeyJsonMapping R :=
  with_client m (expire c (_key m) (_retention_seconds m)).

Definition _encode (value : V) : string := json_dumps_text (payload value).

Definition _decode_document (raw : string) : option V := json_loads_text raw ≫= decode_document.

Definition valkey_getitem m (job_id : string) : ValkeyJsonMapping R * option V :=
  match hget (_client m) (_key m) job_id with
  | None => (m, None)
  | Some raw => (refreshed m (_client m), _decode_document raw)
  end.

Definition valkey_setitem m (job_id : string) (value : V) : ValkeyJsonMapping R :=
  refreshed m (hset (_client m) (_key m) job_id (_encode value)).

(** [HSETNX]. *)
Definition valkey_set_if_absent m (job_id : string) (value : V) : ValkeyJsonMapping R * bool :=
  match hget (_client m) (_key m) job_id with
  | Some _ => (m, false)
  | None => (refreshed m (hset (_client m) (_key m) job_id (_encode value)), true)
  end.

Definition valkey_delitem m (job_id : string) : option (ValkeyJsonMapping R) :=
  match hget (_client m) (_key m) job_id with
  | None => None
  | Some _ => Some (with_client m (hdel (_client m) (_key m) job_id))
  end.

Definition valkey_iter m : list string := hkeys (_client m) (_key m).

#[global] Instance valkey_mapping : Mapping (ValkeyJsonMapping R) V := {
  getitem := valkey_getitem;
  setitem := valkey_setitem;
  delitem := valkey_delitem;
  iter := valkey_iter;
  set_if_absent := valkey_set_if_absent;
}.
(** Every field of the hash is the text of the value [c] has there. *)
Definition valkey_models (m : ValkeyJsonMapping R) (c : gmap string V) : Prop :=
  ∀ k, match c !! k with
       | Some v => encodable v ∧ hget (_client m) (_key m) k = Some (_encode v)
       | None => hget (_client m) (_key m) k = None
       end.

Lemma decode_encode v : encodable v → _decode_document (_encode v) = Some v.
Proof.
  intros Hv. unfold _decode_document, _encode. rewrite json_loads_dumps by by apply payload_document.
  cbn. by apply decode_payload.
Qed.

Lemma valkey_models_refreshed m c r :
  (∀ k, hget r (_key m) k = hget (_client m) (_key m) k) → valkey_models m c → valkey_models (refreshed m r) c.
Proof. intros Hr Hm k. specialize (Hm k). cbn. by rewrite hget_expire, Hr. Qed.

Lemma valkey_models_set m c k v :
  valkey_models m c → encodable v → valkey_models (valkey_setitem m k v) (<[k := v]> c).
Proof.
  intros Hm Hv k'. specialize (Hm k'). unfold valkey_setitem. cbn.
  rewrite hget_expire, hget_hset. destruct (decide (k' = k)) as [->|Hne].
  - rewrite lookup_insert_eq, decide_True by done. done.
  - rewrite lookup_insert_ne by done. rewrite decide_False by (by intros [_ ?]). done.
Qed.

#[global] Instance valkey_laws : MappingLaws (ValkeyJsonMapping R) V encodable valkey_models.
Proof.
  split.
  - intros m c k v Hm Hk. specialize (Hm k). rewrite Hk in Hm. apply Hm.
  - intros m c k Hm. pose proof (Hm k) as Hk. cbn. unfold valkey_getitem.
    destruct (c !! k) as [v|]; [destruct Hk as [Hv Hk]|]; rewrite Hk; cbn; [|done].
    split; [by apply decode_encode|]. by apply valkey_models_refreshed.
  - intros m c k v. apply valkey_models_set.
  - intros m c k Hm. pose proof (Hm k) as Hk. cbn. unfold valkey_delitem.
    destruct (c !! k) as [v|]; [destruct Hk as [Hv Hk]|]; rewrite Hk; [|done].
    split; [by eexists|]. intros k'. specialize (Hm k'). cbn. rewrite hget_hdel.
    destruct (decide (k' = k)) as [->|Hne].
    + rewrite lookup_delete_eq, decide_True by done. done.
    + rewrite lookup_delete_ne by done. rewrite decide_False by (by intros [_ ?]). done.
  - intros m c Hm. split; [apply hkeys_NoDup|]. intros k. cbn. unfold valkey_iter. rewrite hkeys_spec.
    specialize (Hm k). destruct (c !! k); [destruct Hm as [_ Hm]|]; rewrite Hm; [|done]. by split; eexists.
  - intros m c k v Hm Hv. pose proof (Hm k) as Hk. cbn. unfold valkey_set_if_absent.
    destruct (c !! k) as [w|]; [destruct Hk as [_ Hk]|]; rewrite Hk; [done|].
    split; [done|]. by apply (valkey_models_set m c k v).
Qed.
End valkey.

(** ** Any registry is the finite map

    A history of operations and what its caller sees. *)

Inductive registry_op (V : Type) :=
| RGet (k : string)
| RSet (k : string) (v : V)
| RDel (k : string)
| RSetIfAbsent (k : string) (v : V)
| RKeys.
Arguments RGet {V}. Arguments RSet {V}. Arguments RDel {V}. Arguments RSetIfAbsent {V}. Arguments RKeys {V}.

Inductive observation (V : Type) :=
| SawValue (v : option V)
| SawDone
| SawKeyError
| SawCreated (b : bool)
| SawKeys (ks : gset string).
Arguments SawValue {V}. Arguments SawDone {V}. Arguments SawKeyError {V}. Arguments SawCreated {V}.
Arguments SawKeys {V}.

Definition op_value {V} (op : registry_op V) : option V :=
  match op with RSet _ v | RSetIfAbsent _ v => Some v | _ => None end.

Definition registry_step {M V} `{!Mapping M V} (op : registry_op V) (m : M) : M * observation V :=
  match op with
  | RGet k => let '(m, v) := getitem m k in (m, SawValue v)
  | RSet k v => (setitem m k v, SawDone)
  | RDel k => match delitem m k with Some m => (m, SawDone) | None => (m, SawKeyError) end
  | RSetIfAbsent k v => let '(m, b) := set_if_absent m k v in (m, SawCreated b)
  | RKeys => (m, SawKeys (list_to_set (iter (V := V) m)))
  end.

Definition map_step {V} (op : registry_op V) (c : gmap string V) : gmap string V * observation V :=
  match op with
  | RGet k => (c, SawValue (c !! k))
  | RSet k v => (<[k := v]> c, SawDone)
  | RDel k => match c !! k with Some _ => (delete k c, SawDone) | None => (c, SawKeyError) end
  | RSetIfAbsent k v => match c !! k with Some _ => (c, SawCreated false) | None => (<[k := v]> c, SawCreated true) end
  | RKeys => (c, SawKeys (dom c))
  end.

Fixpoint history {S V} (step : registry_op V → S → S * observation V) (ops : list (registry_op V)) (s : S)
    : S * list (observation V) :=
  match ops with
  | [] => (s, [])
  | op :: ops => let '(s, o) := step op s in let '(s, os) := history step ops s in (s, o :: os)
  end.

Section refinement.
Context {M V : Type} `{!Mapping M V} (admissible : V → Prop) (models : M → gmap string V → Prop)
        `{!MappingLaws M V admissible models}.

Lemma step_refines op m c :
  models m c → (∀ v, op_value op = Some v → admissible v) →
  (registry_step op m).2 = (map_step op c).2 ∧ models (registry_step op m).1 (map_step op c).1.
Proof.
  intros Hm Hop. destruct op as [k|k v|k|k v|]; cbn in *.
  - destruct (getitem_models m c k Hm) as [Hv Hm']. destruct (getitem m k) as [m' v]. cbn in *. by subst.
  - split; [done|]. apply setitem_models; [done|]. by apply Hop.
  - pose proof (delitem_models m c k Hm) as Hd. destruct (delitem m k) as [m'|].
    + destruct Hd as [[v ->] Hd]. done.
    + by rewrite Hd.
  - pose proof (set_if_absent_models m c k v Hm (Hop v eq_refl)) as Hs.
    destruct (c !! k); destruct (set_if_absent m k v) as [m' b]; cbn in *; destruct Hs; by subst.
  - destruct (iter_models m c Hm) as [Hnd Hiter]. split; [|done]. f_equal. apply set_eq. intros k.
    by rewrite elem_of_list_to_set, Hiter, elem_of_dom.
Qed.
End refinement.


(** ** A server and a codec

    A Valkey server with one hash per key, and the compact JSON text of documents
    without floats. *)

#[global] Instance map_client : HashClient (gmap string (gmap string string)).
Proof.
  refine {| hget r key f := (r !! key) ≫= λ h, h !! f;
            hset r key f v := <[key := <[f := v]> (default ∅ (r !! key))]> r;
            hdel r key f := <[key := delete f (default ∅ (r !! key))]> r;
            hkeys r key := (map_to_list (default ∅ (r !! key))).*1;
            expire r key t := r |}.
  - intros r key f v key' f'. destruct (decide (key' = key)) as [->|Hne].
    + rewrite lookup_insert_eq. cbn. destruct (decide (f' = f)) as [->|Hf].
      * rewrite decide_True by done. by rewrite lookup_insert_eq.
      * rewrite decide_False by (by intros [_ ?]). rewrite lookup_insert_ne by done. by destruct (r !! key).
    + rewrite decide_False by (by intros [? _]). by rewrite lookup_insert_ne.
  - intros r key f key' f'. destruct (decide (key' = key)) as [->|Hne].
    + rewrite lookup_insert_eq. cbn. destruct (decide (f' = f)) as [->|Hf].
      * rewrite decide_True by done. by rewrite lookup_delete_eq.
      * rewrite decide_False by (by intros [_ ?]). rewrite lookup_delete_ne by done. by destruct (r !! key).
    + rewrite decide_False by (by intros [? _]). by rewrite lookup_insert_ne.
  - done.
  - intros r key f. destruct (r !! key) as [h|]; cbn.
    + rewrite list_elem_of_fmap. split.
      * intros ([f' v] & -> & Hin). apply elem_of_map_to_list in Hin. by exists v.
      * intros [v Hv]. exists (f, v). split; [done|]. by apply elem_of_map_to_list.
    + rewrite map_to_list_empty. cbn. rewrite elem_of_nil. split; [done|]. by intros [? ?].
  - intros r key. apply NoDup_fst_map_to_list.
Defined.

#[global] Instance compact_codec : JsonCodec.
Proof.
  refine {| document v := json_normal v = true; json_dumps_text := json_dumps (λ _, "") false;
            json_loads_text := json_read |}.
  - done.
  - intros v Hv. unfold json_dumps. rewrite json_view_normal by done. by apply json_read_render.
Defined.

(** A value that is not a dataclass. *)
#[global] Instance plain_value `{!JsonCodec} : Encodable pyval.
Proof.
  refine {| payload v := VDict [(VStr "value", v)];
            decode_document d := match d with VDict kvs => dict_get "value" kvs | _ => None end;
            encodable v := document (VDict [(VStr "value", v)]) |}; done.
Defined.

Definition empty_registry : ValkeyJsonMapping (gmap string (gmap string string)) :=
  ValkeyJsonMapping_init ∅ "jobs" DEFAULT_RETENTION_SECONDS.

Definition demo_history : list (registry_op pyval) :=
  [RSet "job" (VStr "queued"); RSetIfAbsent "job" (VStr "late"); RGet "job"; RDel "job"; RDel "job"].


(** ** Durable jobs

    The claim of a worker, and the three scripts that move a provider-embedding
    job. Each script runs atomically on the server. *)

Inductive registry_error :=
| ClaimNotAcquired (m : string)
| RegistryRuntimeError (m : string)
| RegistryValueError (m : string).

(** The locks of the server: [GET] of the lock name is the token of its holder. *)
Class LockClient (R : Type) := {
  lock_token : R → string → option string;
}.

(** A [_ClaimLease]; a local claim has no durable lock behind it. *)
Record claim_lease := {
  cl_claim : option (option string * option string);   (* name and token *)
  cl_lease_seconds : option float;
  cl_lost : bool;
}.

Definition mark_lost (l : claim_lease) : claim_lease :=
  {| cl_claim := cl_claim l; cl_lease_seconds := cl_lease_seconds l; cl_lost := true |}.

(** What the lock library answers to [extend] or [owned]. *)
Inductive lock_answer := LockRetained (b : bool) | LockRaised.

Definition ensure_owned (refresh : bool) (answer : lock_answer) (l : claim_lease)
    : claim_lease * res registry_error unit :=
  match cl_claim l with
  | None => (l, Ok tt)
  | Some _ =>
      if cl_lost l then (l, Raise (ClaimNotAcquired "durable job claim ownership was lost")) else
      let unavailable :=
        (mark_lost l, Raise (ClaimNotAcquired "durable job claim ownership is unavailable")) in
      if refresh && bool_decide (cl_lease_seconds l = None) then unavailable else
      match answer with
      | LockRaised => unavailable
      | LockRetained true => (l, Ok tt)
      | LockRetained false =>
          (mark_lost l, Raise (ClaimNotAcquired "durable job claim ownership was lost"))
      end
  end.

Definition atomic_identity (l : claim_lease) : claim_lease * res registry_error (string * string) :=
  let unavailable := Raise (ClaimNotAcquired "durable job claim identity is unavailable") in
  match cl_claim l with
  | None => (l, unavailable)
  | Some (Some name, Some token) =>
      if str_truthy name then (l, Ok (name, token)) else (mark_lost l, unavailable)
  | Some _ => (mark_lost l, unavailable)
  end.

Definition states_key : string := "batch_job_registry:provider_embedding_states".
Definition results_key : string := "batch_job_registry:provider_embedding_results".
Definition usage_key : string := "batch_job_registry:provider_embedding_usage".
Definition errors_key : string := "batch_job_registry:provider_embedding_errors".
Definition cancellations_key : string := "batch_job_registry:provider_embedding_cancellations".

Section scripts.
Context {R : Type} `{!JsonCodec} `{!HashClient R} `{!LockClient R} (retention : Z).

Definition encode_value (v : pyval) : string := _encode v.
Definition state_text (s : string) : string := encode_value (VStr s).

(** [if ARGV[i] ~= '' then redis.call('hset', key, job, ARGV[i])]. *)
Definition hset_nonempty (key job arg : string) (r : R) : R :=
  if str_truthy arg then hset r key job arg else r.

Definition arg_of (v : option pyval) : string :=
  match v with Some v => encode_value v | None => "" end.

Definition state_in (job : string) (allowed : list string) (r : R) : bool :=
  match hget r states_key job with Some s => bool_decide (s ∈ allowed) | None => false end.

Definition holds_lock (name token : string) (r : R) : bool :=
  match lock_token r name with Some t => String.eqb t token | None => false end.

Definition publish_script (name token job status results usage error : string) (r : R) : R * bool :=
  if holds_lock name token r && state_in job [state_text "running"; state_text "queued"] r then
    let r := hset_nonempty results_key job results r in
    let r := hset_nonempty usage_key job usage r in
    let r := hset_nonempty errors_key job error r in
    let r := hset r states_key job status in
    (fold_left (λ r key, expire r key retention) [states_key; results_key; usage_key; errors_key] r, true)
  else (r, false).

Definition running_script (name token job : string) (r : R) : R * bool :=
  if holds_lock name token r && state_in job [state_text "queued"; state_text "running"] r then
    (expire (hset r states_key job (state_text "running")) states_key retention, true)
  else (r, false).

Definition cancel_script (job reason : string) (r : R) : R * bool :=
  if state_in job [state_text "reserved"; state_text "queued"; state_text "running"] r then
    let r := hset r cancellations_key job reason in
    let r := hset r states_key job (state_text "cancelled") in
    (expire (expire r states_key retention) cancellations_key retention, true)
  else (r, false).

Definition publish_provider_embedding_terminal (client : option R) (l : claim_lease) (job status : string)
    (results usage error : option pyval) : option R * claim_lease * res registry_error unit :=
  match client with
  | None => (None, l, Raise (RegistryRuntimeError "atomic terminal publication requires a durable registry"))
  | Some r =>
      if negb (bool_decide (status ∈ ["completed"; "failed"]))
      then (client, l, Raise (RegistryValueError "terminal status must be completed or failed")) else
      match atomic_identity l with
      | (l, Raise e) => (client, l, Raise e)
      | (l, Ok (name, token)) =>
          match publish_script name token job (state_text status) (arg_of results) (arg_of usage)
                  (arg_of error) r with
          | (r, true) => (Some r, l, Ok tt)
          | (r, false) =>
              (Some r, mark_lost l,
               Raise (ClaimNotAcquired "durable job claim ownership was lost before publication"))
          end
      end
  end.

Definition mark_provider_embedding_running (client : option R) (l : claim_lease) (job : string)
    : option R * claim_lease * res registry_error unit :=
  match client with
  | None => (None, l, Raise (RegistryRuntimeError "atomic state transition requires a durable registry"))
  | Some r =>
      match atomic_identity l with
      | (l, Raise e) => (client, l, Raise e)
      | (l, Ok (name, token)) =>
          match running_script name token job r with
          | (r, true) => (Some r, l, Ok tt)
          | (r, false) =>
              (Some r, mark_lost l,
               Raise (ClaimNotAcquired "durable job was cancelled or claim ownership was lost"))
          end
      end
  end.

Definition cancel_provider_embedding (client : option R) (job : string) (reason : string)
    : option R * res registry_error bool :=
  match client with
  | None => (None, Raise (RegistryRuntimeError "atomic cancellation requires a durable registry"))
  | Some r =>
      let '(r, done) := cancel_script job (encode_value (VDict [(VStr "reason", VStr reason)])) r in
      (Some r, Ok done)
  end.

(** *** What may happen to a job

    Any process runs any script, for any job, under any claim; the locks of the
    server change hands and expire freely. *)
Inductive job_step : R → R → Prop :=
| StepPublish r l job status results usage error r' l' out :
    publish_provider_embedding_terminal (Some r) l job status results usage error = (Some r', l', out) →
    job_step r r'
| StepRunning r l job r' l' out :
    mark_provider_embedding_running (Some r) l job = (Some r', l', out) → job_step r r'
| StepCancel r job reason r' out :
    cancel_provider_embedding (Some r) job reason = (Some r', out) → job_step r r'
| StepLocks r r' : (∀ key f, hget r' key f = hget r key f) → job_step r r'.

Definition job_keys : list string :=
  [states_key; results_key; usage_key; errors_key; cancellations_key].

Definition terminal_state (job : string) (r : R) : Prop :=
  ∃ s, s ∈ ["completed"; "failed"; "cancelled"] ∧ hget r states_key job = Some (state_text s).

Lemma state_text_inj s s' : state_text s = state_text s' → s = s'.
Proof.
  intros Heq. assert (Hd : ∀ s, encodable (VStr s)) by (intros x; by apply document_plain).
  pose proof (decode_encode (VStr s) (Hd s)) as H1. pose proof (decode_encode (VStr s') (Hd s')) as H2.
  unfold state_text, encode_value in Heq. rewrite Heq, H2 in H1. by injection H1.
Qed.

Lemma state_in_terminal job allowed r :
  terminal_state job r →
  existsb (λ s, bool_decide (s ∈ allowed)) ["completed"; "failed"; "cancelled"] = false →
  state_in job (map state_text allowed) r = false.
Proof.
  intros (s & Hs & Hst) Hno. unfold state_in. rewrite Hst. apply bool_decide_eq_false. intros Hin.
  apply (list_elem_of_fmap_1 state_text) in Hin as (s' & Heq & Hin). apply state_text_inj in Heq as ->.
  assert (existsb (λ s, bool_decide (s ∈ allowed)) ["completed"; "failed"; "cancelled"] = true); [|congruence].
  apply existsb_exists. exists s'. split; [by apply list_elem_of_In|by apply bool_decide_eq_true].
Qed.

(** A script for another job leaves this job's fields alone. *)
Definition same_job (job : string) (r r' : R) : Prop :=
  ∀ key, key ∈ job_keys → hget r' key job = hget r key job.

Lemma same_job_refl job r : same_job job r r.
Proof. by intros key _. Qed.

Lemma same_job_set job job' key v r : job' ≠ job → same_job job r (hset r key job' v).
Proof. intros Hne key' _. rewrite hget_hset, decide_False; [done|]. intros [_ ?]. congruence. Qed.

Lemma same_job_trans job r1 r2 r3 : same_job job r1 r2 → same_job job r2 r3 → same_job job r1 r3.
Proof. intros H1 H2 key Hk. rewrite H2, H1 by done. done. Qed.

Lemma same_job_expire job r key : same_job job r (expire r key retention).
Proof. intros key' _. apply hget_expire. Qed.

Lemma same_job_nonempty job job' key v r : job' ≠ job → same_job job r (hset_nonempty key job' v r).
Proof. intros Hne. unfold hset_nonempty. destruct (str_truthy v); [by apply same_job_set|apply same_job_refl]. Qed.

#[local] Hint Resolve same_job_refl same_job_set same_job_expire same_job_nonempty : pydb.

Lemma publish_other job job' name token status results usage error r :
  job' ≠ job → same_job job r (publish_script name token job' status results usage error r).1.
Proof.
  intros Hne. unfold publish_script. destruct (_ && _); cbn [fst fold_left]; [|auto with pydb].
  repeat (eapply same_job_trans; [|apply same_job_expire]).
  eapply same_job_trans; [|by apply same_job_set].
  repeat (eapply same_job_trans; [|by apply same_job_nonempty]). auto with pydb.
Qed.

Lemma running_other job job' name token r :
  job' ≠ job → same_job job r (running_script name token job' r).1.
Proof.
  intros Hne. unfold running_script. destruct (_ && _); cbn [fst]; [|auto with pydb].
  eapply same_job_trans; [|apply same_job_expire]. auto with pydb.
Qed.

Lemma cancel_other job job' reason r : job' ≠ job → same_job job r (cancel_script job' reason r).1.
Proof.
  intros Hne. unfold cancel_script. destruct (state_in _ _ _); cbn [fst]; [|auto with pydb].
  do 2 (eapply same_job_trans; [|apply same_job_expire]).
  eapply same_job_trans; [|by apply same_job_set]. auto with pydb.
Qed.

(** In a terminal state no script applies. *)
Lemma terminal_stuck job r :
  terminal_state job r →
  (∀ name token status results usage error,
     publish_script name token job status results usage error r = (r, false)) ∧
  (∀ name token, running_script name token job r = (r, false)) ∧
  (∀ reason, cancel_script job reason r = (r, false)).
Proof.
  intros Ht. split_and!; intros.
  - unfold publish_script. pose proof (state_in_terminal job ["running"; "queued"] r Ht eq_refl) as Hno.
    cbn [map] in Hno. by rewrite Hno, andb_false_r.
  - unfold running_script. pose proof (state_in_terminal job ["queued"; "running"] r Ht eq_refl) as Hno.
    cbn [map] in Hno. by rewrite Hno, andb_false_r.
  - unfold cancel_script. pose proof (state_in_terminal job ["reserved"; "queued"; "running"] r Ht eq_refl) as Hno.
    cbn [map] in Hno. by rewrite Hno.
Qed.

Lemma step_terminal job r r' : job_step r r' → terminal_state job r → same_job job r r'.
Proof.
  intros Hstep Ht. destruct (terminal_stuck job r Ht) as (Hpub & Hrun & Hcan).
  destruct Hstep as [r l job' status results usage error r' l' out Hp|r l job' r' l' out Hp
                    |r job' reason r' out Hp|r r' Hsame].
  - cbn in Hp. destruct (negb _); [injection Hp as <- _ _; apply same_job_refl|].
    destruct (atomic_identity l) as [l1 [[name token]|e]]; [|injection Hp as <- _ _; apply same_job_refl].
    pose proof (publish_other job job' name token (state_text status) (arg_of results) (arg_of usage)
                  (arg_of error) r) as Hother.
    destruct (decide (job' = job)) as [->|Hne].
    + rewrite Hpub in Hp. injection Hp as <- _ _. apply same_job_refl.
    + specialize (Hother Hne). destruct (publish_script _ _ _ _ _ _ _ _) as [r1 []];
        injection Hp as <- _ _; exact Hother.
  - cbn in Hp. destruct (atomic_identity l) as [l1 [[name token]|e]];
      [|injection Hp as <- _ _; apply same_job_refl].
    pose proof (running_other job job' name token r) as Hother.
    destruct (decide (job' = job)) as [->|Hne].
    + rewrite Hrun in Hp. injection Hp as <- _ _. apply same_job_refl.
    + specialize (Hother Hne). destruct (running_script _ _ _ _) as [r1 []];
        injection Hp as <- _ _; exact Hother.
  - cbn in Hp. pose proof (cancel_other job job' (encode_value (VDict [(VStr "reason", VStr reason)])) r) as Hother.
    destruct (decide (job' = job)) as [->|Hne].
    + rewrite Hcan in Hp. injection Hp as <- _. apply same_job_refl.
    + specialize (Hother Hne). destruct (cancel_script _ _ _) as [r1 b]. injection Hp as <- _. exact Hother.
  - by intros key _.
Qed.

(** A terminal state is final: once a job is completed, failed or cancelled,
    no publication, transition or cancellation by any process, and no change of
    hands of any lock, alters its state, results, usage, error or cancellation. *)
Theorem terminal_state_is_final job r r' :
  terminal_state job r → rtc job_step r r' →
  terminal_state job r' ∧ ∀ key, key ∈ job_keys → hget r' key job = hget r key job.
Proof.
  intros Ht Hsteps. revert Ht. induction Hsteps as [r|r1 r2 r3 Hstep _ IH]; intros Ht; [done|].
  pose proof (step_terminal job r1 r2 Hstep Ht) as Hsame.
  assert (Ht2 : terminal_state job r2).
  { destruct Ht as (s & Hs & Hst). exists s. split; [done|]. rewrite Hsame; [done|]. apply list_elem_of_here. }
  destruct (IH Ht2) as [Ht3 Hrest]. split; [done|]. intros key Hk. by rewrite Hrest, Hsame.
Qed.

(** Publication is fenced: a worker publishes a terminal state only while the
    server still has its token on the claim and the job is queued or running, and
    then exactly what it reports is stored; otherwise nothing changes and the
    worker is told that it lost the claim. *)
Theorem publication_is_fenced r l job status results usage error r' l' out name token :
  cl_claim l = Some (Some name, Some token) → name ≠ "" → status ∈ ["completed"; "failed"] →
  publish_provider_embedding_terminal (Some r) l job status results usage error = (Some r', l', out) →
  match out with
  | Ok _ => lock_token r name = Some token ∧
      hget r states_key job ∈ [Some (state_text "running"); Some (state_text "queued")] ∧
      hget r' states_key job = Some (state_text status) ∧
      (∀ v, results = Some v → encode_value v ≠ "" → hget r' results_key job = Some (encode_value v)) ∧
      (∀ v, usage = Some v → encode_value v ≠ "" → hget r' usage_key job = Some (encode_value v)) ∧
      (∀ v, error = Some v → encode_value v ≠ "" → hget r' errors_key job = Some (encode_value v))
  | Raise e => r' = r ∧ cl_lost l' = true ∧
      (lock_token r name ≠ Some token ∨
       hget r states_key job ∉ [Some (state_text "running"); Some (state_text "queued")])
  end.
Proof.
  intros Hc Hname Hstatus. unfold publish_provider_embedding_terminal, atomic_identity.
  rewrite bool_decide_eq_true_2 by done. rewrite Hc. apply str_truthy_spec in Hname. rewrite Hname.
  cbn [negb]. unfold publish_script. destruct (_ && _) eqn:Hguard.
  - intros [= <- <- <-]. apply andb_true_iff in Hguard as [Hlock Hst]. unfold holds_lock in Hlock.
    unfold state_in in Hst. destruct (lock_token r name) as [t|]; [|done]. apply String.eqb_eq in Hlock as ->.
    destruct (hget r states_key job) as [s|]; [|done]. apply bool_decide_eq_true in Hst.
    split; [done|]. split; [apply (list_elem_of_fmap_2 Some _ _ Hst)|].
    assert (Harg : ∀ v, encode_value v ≠ "" → str_truthy (encode_value v) = true)
      by (intros v; apply str_truthy_spec).
    assert (Hne : ∀ r key v key', key' ≠ key → hget (hset_nonempty key job v r) key' job = hget r key' job).
    { intros r0 key v key' Hkey. unfold hset_nonempty. destruct (str_truthy v); [|done].
      rewrite hget_hset, decide_False; [done|]. by intros [? _]. }
    assert (Heq : ∀ r key v, encode_value v ≠ "" →
              hget (hset_nonempty key job (arg_of (Some v)) r) key job = Some (encode_value v)).
    { intros r0 key v Hv. unfold hset_nonempty. cbn [arg_of]. rewrite (Harg _ Hv), hget_hset.
      by rewrite decide_True. }
    assert (Hset : ∀ r v key, key ≠ states_key → hget (hset r states_key job v) key job = hget r key job).
    { intros r0 v key Hkey. rewrite hget_hset, decide_False; [done|]. by intros [? _]. }
    cbn [fold_left]. rewrite !hget_expire. rewrite !(Hset _ _ results_key), !(Hset _ _ usage_key),
      !(Hset _ _ errors_key) by done. rewrite hget_hset, decide_True by done. split_and!; [done| | |].
    + intros v -> Hv. rewrite !Hne by done. by apply Heq.
    + intros v -> Hv. rewrite Hne by done. by apply Heq.
    + intros v -> Hv. by apply Heq.
  - intros [= <- <- <-]. split; [done|]. split; [done|]. apply andb_false_iff in Hguard as [Hlock|Hst].
    + left. intros Heq. unfold holds_lock in Hlock. rewrite Heq in Hlock. by rewrite String.eqb_refl in Hlock.
    + right. unfold state_in in Hst. destruct (hget r states_key job) as [s|]; intros Hin;
        apply (list_elem_of_fmap_1 Some [state_text "running"; state_text "queued"]) in Hin
          as (x & [= ->] & Hx).
      by apply bool_decide_eq_false in Hst.
Qed.
End scripts.

(** ** A server with one job *)

#[global] Instance map_locks : LockClient (gmap string (gmap string string)) := {
  lock_token r name := (r !! name) ≫= λ h, h !! "token";
}.

Definition is_stored (r : option (gmap string (gmap string string))) : bool :=
  match r with Some _ => true | None => false end.

Definition running_server : gmap string (gmap string string) :=
  {[ states_key := {[ "job" := state_text "running" ]}; "claim" := {[ "token" := "t1" ]} ]}.

Definition demo_lease (token : string) : claim_lease :=
  {| cl_claim := Some (Some "claim", Some token); cl_lease_seconds := None; cl_lost := false |}.

Lemma publication_is_fenced_witness :
  (publish_provider_embedding_terminal 60 (Some running_server) (demo_lease "t1") "job" "completed"
     (Some (VList [VInt 1])) None None).2 = Ok tt ∧
  lock_token running_server "claim" = Some "t1" ∧
  ∃ e, (publish_provider_embedding_terminal 60 (Some running_server) (demo_lease "stolen") "job" "completed"
          None None None).2 = Raise e ∧ lock_token running_server "claim" ≠ Some "stolen".
Proof.
  destruct (publish_provider_embedding_terminal 60 (Some running_server) (demo_lease "t1") "job" "completed"
              (Some (VList [VInt 1])) None None) as [[r' l'] out] eqn:Hp.
  assert (Hr : is_stored (publish_provider_embedding_terminal 60 (Some running_server) (demo_lease "t1") "job"
                "completed" (Some (VList [VInt 1])) None None).1.1 = true) by (vm_compute; reflexivity).
  assert (Hout : (publish_provider_embedding_terminal 60 (Some running_server) (demo_lease "t1") "job"
                "completed" (Some (VList [VInt 1])) None None).2 = Ok tt) by (vm_compute; reflexivity).
  rewrite Hp in Hr, Hout. cbn in Hr, Hout. subst out. destruct r' as [r|]; [|discriminate Hr].
  pose proof (publication_is_fenced 60 running_server (demo_lease "t1") "job" "completed" _ _ _ _ _ _
                "claim" "t1" eq_refl ltac:(done) ltac:(apply list_elem_of_here) Hp) as [Hlock _].
  split; [done|]. split; [exact Hlock|]. eexists. split; [vm_compute; reflexivity|].
  rewrite Hlock. discriminate.
Defined.

Definition completed_server : gmap string (gmap string string) :=
  {[ states_key := {[ "job" := state_text "completed" ]} ]}.

Lemma terminal_state_is_final_witness :
  ∃ r, (cancel_provider_embedding 60 (Some completed_server) "job" "late").1 = Some r ∧
    hget r states_key "job" = Some (state_text "completed").
Proof.
  destruct (cancel_provider_embedding 60 (Some completed_server) "job" "late") as [c out] eqn:Hc.
  assert (Hr : is_stored (cancel_provider_embedding 60 (Some completed_server) "job" "late").1 = true)
    by (vm_compute; reflexivity).
  rewrite Hc in Hr. cbn in Hr. destruct c as [r|]; [|discriminate Hr]. exists r. split; [done|].
  destruct (terminal_state_is_final 60 "job" completed_server r) as [_ H].
  - exists "completed". split; [apply list_elem_of_here|]. vm_compute. reflexivity.
  - apply rtc_once. by eapply StepCancel.
  - rewrite H; [|apply list_elem_of_here]. vm_compute. reflexivity.
Defined.
