(* ===== verification/FileRegistry.v ===== *)
(** file_registry.py: which principal owns which provider file, over any registry
    that keeps the promises of [MappingLaws]. *)

From Stdlib Require Import Ascii String.
From S2P Require Import Prelude StateLogic PyString PyCollections PyFloat PyValue PyJson JobRegistry.

(** ** Data *)

Inductive file_error :=
| FileContractError (m : string)
| FileProviderUnavailableError (m : string)
| FileKeyError (k : string).

Record replica := { replica_file_id : string; replica_affinity_key : string }.

Record FileOwner := {
  gateway_file_id : string;
  provider_file_id : string;
  agent_id : string;
  owner_id : string;
  agent_affinity_key : string;
  file_document : list (pyval * pyval);
  replicas : option (list (string * replica));
}.

(** *** As a stored document *)

Definition replica_dict (r : replica) : pyval :=
  VDict [(VStr "provider_file_id", VStr (replica_file_id r));
         (VStr "agent_affinity_key", VStr (replica_affinity_key r))].

(** [dataclasses.asdict]. *)
Definition asdict (o : FileOwner) : pyval :=
  VDict [(VStr "gateway_file_id", VStr (gateway_file_id o));
         (VStr "provider_file_id", VStr (provider_file_id o));
         (VStr "agent_id", VStr (agent_id o)); (VStr "owner_id", VStr (owner_id o));
         (VStr "agent_affinity_key", VStr (agent_affinity_key o));
         (VStr "document", VDict (file_document o));
         (VStr "replicas", match replicas o with
                           | None => VNone
                           | Some rs => VDict (map (λ kr, (VStr kr.1, replica_dict kr.2)) rs)
                           end)].

Definition replica_of (v : pyval) : option replica :=
  match v with
  | VDict d =>
      p ← dict_get "provider_file_id" d ≫= as_str; a ← dict_get "agent_affinity_key" d ≫= as_str;
      Some {| replica_file_id := p; replica_affinity_key := a |}
  | _ => None
  end.

(** [FileOwner( **raw )] on what [asdict] wrote. *)
Definition FileOwner_of (raw : pyval) : option FileOwner :=
  match raw with
  | VDict d =>
      g ← dict_get "gateway_file_id" d ≫= as_str; p ← dict_get "provider_file_id" d ≫= as_str;
      a ← dict_get "agent_id" d ≫= as_str; o ← dict_get "owner_id" d ≫= as_str;
      k ← dict_get "agent_affinity_key" d ≫= as_str;
      doc ← match dict_get "document" d with Some (VDict doc) => Some doc | _ => None end;
      rs ← match dict_get "replicas" d with
           | Some VNone => Some None
           | Some (VDict rs) =>
               Some <$> mapM (λ kv : pyval * pyval, s ← as_str kv.1; r ← replica_of kv.2; Some (s, r)) rs
           | _ => None
           end;
      Some {| gateway_file_id := g; provider_file_id := p; agent_id := a; owner_id := o;
              agent_affinity_key := k; file_document := doc; replicas := rs |}
  | _ => None
  end.

Lemma FileOwner_of_asdict o : FileOwner_of (asdict o) = Some o.
Proof.
  destruct o as [g p a o k doc rs]. unfold asdict, FileOwner_of. cbn.
  destruct rs as [rs|]; [|done]. cbn.
  assert (Hrs : mapM (λ kv : pyval * pyval, s ← as_str kv.1; r ← replica_of kv.2; Some (s, r))
                  (map (λ kr, (VStr kr.1, replica_dict kr.2)) rs) = Some rs).
  { induction rs as [|[s [i f]] rs IH]; [done|]. cbn in *. by rewrite IH. }
  by rewrite Hrs.
Qed.

#[global] Instance file_owner_encodable `{!JsonCodec} : Encodable FileOwner.
Proof.
  refine {| payload o := VDict [(VStr "__dataclass__", VBool true); (VStr "value", asdict o)];
            decode_document d :=
              match d with
              | VDict kvs =>
                  v ← dict_get "value" kvs;
                  if truthy (dget "__dataclass__" kvs) then FileOwner_of v else None
              | _ => None
              end;
            encodable o := document (VDict [(VStr "__dataclass__", VBool true); (VStr "value", asdict o)]) |}.
  - done.
  - intros o _. exact (FileOwner_of_asdict o).
Defined.

(** ** Public documents *)

(** The gateway id replaces the provider's. *)
Definition public_response (document : list (pyval * pyval)) (owner : FileOwner)
    : res file_error (list (pyval * pyval)) :=
  match dget "id" document with
  | VNone => Ok (dict_set "id" (VStr (gateway_file_id owner)) document)
  | VStr s =>
      if String.eqb s (provider_file_id owner)
      then Ok (dict_set "id" (VStr (gateway_file_id owner)) document)
      else Raise (FileContractError "file provider returned a different file id")
  | _ => Raise (FileContractError "file provider returned a different file id")
  end.

(** [isinstance(v, str) and v.strip()]. *)
Definition provider_id (result : list (pyval * pyval)) : option string :=
  match dget "id" result with VStr s => if str_blank s then None else Some s | _ => None end.

Definition no_id : file_error := FileContractError "file provider response must contain a non-empty id".

Definition provider_result : Type := list (pyval * pyval) * string * string.

(** The [for] loop over the accepted replicas. *)
Fixpoint add_replicas (results : list provider_result) (rs : list (string * replica))
    : res file_error (list (string * replica)) :=
  match results with
  | [] => Ok rs
  | (result, agent, affinity) :: results =>
      match provider_id result with
      | None => Raise no_id
      | Some i =>
          add_replicas results
            (od_set agent {| replica_file_id := i; replica_affinity_key := affinity |} rs)
      end
  end.

Definition new_owner (uuid_hex : string) (results : list provider_result) (owner : string)
    : res file_error (list (pyval * pyval) * FileOwner) :=
  match results with
  | [] => Raise (FileContractError "at least one file provider result is required")
  | (result, agent, affinity) :: _ =>
      match provider_id result with
      | None => Raise no_id
      | Some i =>
          if negb (str_truthy owner) then Raise (FileContractError "file owner is unavailable") else
          match add_replicas results [] with
          | Raise e => Raise e
          | Ok rs =>
              Ok (result, {| gateway_file_id := String.append "file_" uuid_hex; provider_file_id := i;
                             agent_id := agent; owner_id := owner; agent_affinity_key := affinity;
                             file_document := result; replicas := Some rs |})
          end
      end
  end.

(** [owner.replicas or {owner.agent_id: ...}]. *)
Definition effective_replicas (o : FileOwner) : list (string * replica) :=
  match replicas o with
  | Some (r :: rs) => r :: rs
  | _ => [(agent_id o, {| replica_file_id := provider_file_id o; replica_affinity_key := agent_affinity_key o |})]
  end.

(** ** The registry *)

Section registry.
Context {M : Type} `{!Mapping M FileOwner}.

Definition FM (A : Type) : Type := ST M file_error A.

Definition register_replicas (uuid_hex : string) (results : list provider_result) (owner : string)
    : FM (list (pyval * pyval)) := λ m,
  match new_owner uuid_hex results owner with
  | Raise e => (m, Raise e)
  | Ok (result, o) => (setitem m (gateway_file_id o) o, public_response result o)
  end.

Definition register (uuid_hex : string) (result : list (pyval * pyval)) (agent owner affinity : string)
    : FM (list (pyval * pyval)) :=
  register_replicas uuid_hex [(result, agent, affinity)] owner.

Definition owner (file principal : string) : FM FileOwner := λ m,
  match getitem m file with
  | (m, None) => (m, Raise (FileKeyError file))
  | (m, Some o) =>
      if negb (str_truthy principal) || negb (String.eqb (owner_id o) principal)
      then (m, Raise (FileKeyError file)) else (m, Ok o)
  end.

(** One entry of [self._owners.values()]. *)
Definition value_at (file : string) : FM FileOwner := λ m,
  match getitem m file with (m, Some o) => (m, Ok o) | (m, None) => (m, Raise (FileKeyError file)) end.

Definition list_files (principal : string) : FM (list (list (pyval * pyval))) := λ m,
  st.bind (stm.mapM value_at (iter (V := FileOwner) m)) (λ owners,
    st.lift (map_res (λ o, public_response (file_document o) o)
               (List.filter (λ o, String.eqb (owner_id o) principal) owners))) m.

Definition delete_file (file principal : string) : FM FileOwner :=
  st.bind (owner file principal) (λ o m,
    match delitem (V := FileOwner) m file with
    | Some m => (m, Ok o)
    | None => (m, Raise (FileKeyError file))
    end).

Definition with_replicas (o : FileOwner) (rs : list (string * replica)) : FileOwner :=
  {| gateway_file_id := gateway_file_id o; provider_file_id := provider_file_id o; agent_id := agent_id o;
     owner_id := owner_id o; agent_affinity_key := agent_affinity_key o; file_document := file_document o;
     replicas := Some rs |}.

Definition retain_replicas (file principal : string) (rs : list (string * replica)) : FM unit :=
  st.bind (owner file principal) (λ o m, (setitem m file (with_replicas o rs), Ok tt)).

(** *** bind_request *)

Definition bindings_map : Type := list (string * list (string * replica)).

(** [key == "file_id" and isinstance(item, str) and item.startswith("file_")]. *)
Definition file_reference (key item : pyval) : option string :=
  match key, item with
  | VStr k, VStr f => if String.eqb k "file_id" && str_startswith "file_" f then Some f else None
  | _, _ => None
  end.

Definition bind_reference (principal file : string) : ST (M * bindings_map) file_error unit := λ mb,
  match owner file principal mb.1 with
  | (m, Ok o) => ((m, od_set file (effective_replicas o) mb.2), Ok tt)
  | (m, Raise (FileKeyError _)) => ((m, mb.2), Raise (FileContractError "referenced file was not found"))
  | (m, Raise e) => ((m, mb.2), Raise e)
  end.

Fixpoint rewrite (principal : string) (value : pyval) : ST (M * bindings_map) file_error pyval :=
  match value with
  | VList l =>
      st.bind ((fix items l := match l with
                | [] => st.ret []
                | x :: l => st.bind (rewrite principal x) (λ y, st.bind (items l) (λ ys, st.ret (y :: ys)))
                end) l) (λ l', st.ret (VList l'))
  | VDict d =>
      st.bind ((fix entries d := match d with
                | [] => st.ret []
                | (k, x) :: d =>
                    st.bind
                      match file_reference k x with
                      | Some f => st.bind (bind_reference principal f) (λ _, st.ret x)
                      | None => rewrite principal x
                      end
                      (λ y, st.bind (entries d) (λ ys, st.ret ((k, y) :: ys)))
                end) d) (λ d', st.ret (VDict d'))
  | _ => st.ret value
  end.

(** [set.intersection( *(set(replicas) for replicas in bindings.values()) )]. *)
Definition common_agents (bindings : bindings_map) : list string :=
  match bindings with
  | [] => []
  | (_, first) :: rest =>
      List.filter (λ a, forallb (λ b, bool_decide (a ∈ b.2.*1)) rest) first.*1
  end.

Definition bind_request (document : pyval) (principal : string) : FM (pyval * bindings_map) := λ m,
  match rewrite principal document (m, []) with
  | ((m, bindings), Ok rewritten) =>
      match bindings, common_agents bindings with
      | _ :: _, [] =>
          (m, Raise (FileProviderUnavailableError "referenced files have no common provider replica"))
      | _, _ => (m, Ok (rewritten, bindings))
      end
  | ((m, _), Raise e) => (m, Raise e)
  end.
End registry.

(** ** What the operations do to the map *)

Definition owned (principal : string) (c : gmap string FileOwner) (file : string) : option FileOwner :=
  match c !! file with
  | Some o => if str_truthy principal && String.eqb (owner_id o) principal then Some o else None
  | None => None
  end.

(** The gateway files a document refers to, at any depth, in order. *)
Fixpoint file_refs (v : pyval) : list string :=
  match v with
  | VList l => flat_map file_refs l
  | VDict d => flat_map (λ kx, match file_reference kx.1 kx.2 with Some f => [f] | None => file_refs kx.2 end) d
  | _ => []
  end.

Fixpoint bind_all (principal : string) (c : gmap string FileOwner) (refs : list string) (b : bindings_map)
    : option bindings_map :=
  match refs with
  | [] => Some b
  | f :: refs =>
      match owned principal c f with
      | Some o => bind_all principal c refs (od_set f (effective_replicas o) b)
      | None => None
      end
  end.

Lemma owned_spec p c f o :
  owned p c f = Some o ↔ c !! f = Some o ∧ owner_id o = p ∧ p ≠ "".
Proof.
  unfold owned. destruct (c !! f) as [o'|]; [|naive_solver].
  destruct (str_truthy p) eqn:Hp; cbn.
  - apply str_truthy_spec in Hp. destruct (String.eqb_spec (owner_id o') p); naive_solver.
  - assert (p = "") as -> by (destruct (decide (p = "")) as [|H]; [done|apply str_truthy_spec in H; congruence]).
    naive_solver.
Qed.

Lemma bind_all_app p c l l' b :
  bind_all p c (l ++ l') b = match bind_all p c l b with Some b => bind_all p c l' b | None => None end.
Proof. revert b. induction l as [|f l IH]; intros b; cbn; [done|]. destruct (owned p c f); [apply IH|done]. Qed.

Section on_registry.
Context {M : Type} `{!Mapping M FileOwner} (admissible : FileOwner → Prop)
        (models : M → gmap string FileOwner → Prop) `{!MappingLaws M FileOwner admissible models}.

Lemma owner_spec p f m c :
  models m c →
  (owner f p m).2 = match owned p c f with Some o => Ok o | None => Raise (FileKeyError f) end ∧
  models (owner f p m).1 c.
Proof.
  intros Hm. destruct (getitem_models m c f Hm) as [Hv Hm']. unfold owner, owned.
  destruct (getitem m f) as [m' v]. cbn in Hv, Hm'. subst v.
  destruct (c !! f) as [o|]; [|done]. by destruct (str_truthy p), (String.eqb (owner_id o) p).
Qed.

Definition not_found : file_error := FileContractError "referenced file was not found".

(** What [rewrite] does from [(m, b)] when it should leave the bindings [out]. *)
Definition rewrites_to (p : string) (c : gmap string FileOwner) {A} (out : option bindings_map) (v : A)
    (r : (M * bindings_map) * res file_error A) : Prop :=
  models r.1.1 c ∧
  match out with Some b => r.1.2 = b ∧ r.2 = Ok v | None => r.2 = Raise not_found end.

Lemma rewrites_bind p c {A B} out (v : A) (k : A → ST (M * bindings_map) file_error B) out' (w : B) r :
  rewrites_to p c out v r →
  (∀ m b, out = Some b → models m c → rewrites_to p c out' w (k v (m, b))) →
  (out = None → out' = None) →
  rewrites_to p c out' w (match r with (s, Ok a) => k a s | (s, Raise e) => (s, Raise e) end).
Proof.
  intros [Hm Hout] Hk Hnone. destruct r as [[m b] o]. cbn in *. destruct out as [b'|].
  - destruct Hout as [-> ->]. by apply Hk.
  - subst o. rewrite Hnone by done. by split.
Qed.

Lemma bind_reference_spec p c f m b :
  models m c → rewrites_to p c (bind_all p c [f] b) tt (bind_reference p f (m, b)).
Proof.
  intros Hm. destruct (owner_spec p f m c Hm) as [Ho Hm']. unfold bind_reference. cbn.
  destruct (owner f p m) as [m' out]. cbn in *. subst out. by destruct (owned p c f).
Qed.

Lemma rewrite_spec p c v : ∀ m b,
  models m c → rewrites_to p c (bind_all p c (file_refs v) b) v (rewrite p v (m, b)).
Proof.
  induction v as [| | | | |l IH|l IH|d IH] using pyval_rect_nested; intros m bs Hm; try done; cbn [rewrite file_refs].
  - unfold st.bind at 1. eapply rewrites_bind with (out := bind_all p c (flat_map file_refs l) bs) (v := l);
      [|by intros m1 b1 -> Hm1|done].
    revert m bs Hm. induction IH as [|x l Hx _ IHl]; intros m bs Hm; [done|]. cbn [flat_map].
    rewrite bind_all_app. unfold st.bind at 1. eapply rewrites_bind; [by apply Hx| |by intros ->].
    intros m1 b1 -> Hm1. unfold st.bind at 1. eapply rewrites_bind; [by apply IHl|by intros m2 b2 -> Hm2|done].
  - unfold st.bind at 1. eapply rewrites_bind with
      (out := bind_all p c (flat_map (λ kx, match file_reference kx.1 kx.2 with
                                            | Some f => [f] | None => file_refs kx.2 end) d) bs) (v := d);
      [|by intros m1 b1 -> Hm1|done].
    revert m bs Hm. induction IH as [|[k x] d [_ Hx] _ IHd]; intros m bs Hm; [done|]. cbn [flat_map fst snd] in Hx |- *.
    rewrite bind_all_app. unfold st.bind at 1. eapply rewrites_bind with
      (out := bind_all p c (match file_reference k x with Some f => [f] | None => file_refs x end) bs) (v := x);
      [|intros m1 b1 -> Hm1|by intros ->].
    + destruct (file_reference k x) as [f|]; [|by apply Hx]. unfold st.bind.
      eapply rewrites_bind; [by apply bind_reference_spec|by intros m2 b2 -> Hm2|done].
    + unfold st.bind at 1. eapply rewrites_bind; [by apply IHd|by intros m2 b2 -> Hm2|done].
Qed.
End on_registry.

Lemma bind_all_spec p c refs b b' :
  bind_all p c refs b = Some b' →
  (∀ f, f ∈ refs → is_Some (owned p c f)) ∧
  (∀ f, f ∈ b'.*1 ↔ f ∈ b.*1 ∨ f ∈ refs) ∧
  (∀ f rs, od_get f b' = Some rs →
     od_get f b = Some rs ∨ ∃ o, owned p c f = Some o ∧ rs = effective_replicas o) ∧
  (od_wf b → od_wf b').
Proof.
  revert b. induction refs as [|f refs IH]; intros b; cbn.
  { intros [= ->]. split_and!; [by intros f Hf; apply elem_of_nil in Hf| |by left|done].
    intros f. rewrite elem_of_nil. tauto. }
  destruct (owned p c f) as [o|] eqn:Ho; [|done]. intros Hb. destruct (IH _ Hb) as (H1 & H2 & H3 & H4).
  split_and!.
  - intros f' [->|Hf]%elem_of_cons; [by eexists|by apply H1].
  - intros f'. rewrite H2, od_set_keys, elem_of_cons. tauto.
  - intros f' rs Hrs. destruct (H3 f' rs Hrs) as [Hg|Hg]; [|by right]. rewrite od_get_set in Hg.
    case_decide; [|by left]. subst f'. injection Hg as <-. right. by exists o.
  - intros Hwf. apply H4. by apply od_set_wf.
Qed.

Lemma bind_all_none p c refs b :
  bind_all p c refs b = None → ∃ f, f ∈ refs ∧ owned p c f = None.
Proof.
  revert b. induction refs as [|f refs IH]; intros b; cbn; [done|].
  destruct (owned p c f) as [o|] eqn:Ho.
  - intros Hb. destruct (IH _ Hb) as (f' & Hf & Hn). exists f'. split; [by right|done].
  - intros _. exists f. split; [by left|done].
Qed.

Lemma common_agents_spec b a :
  b ≠ [] → a ∈ common_agents b ↔ ∀ x, x ∈ b → a ∈ x.2.*1.
Proof.
  destruct b as [|[f first] rest]; [done|]. intros _. cbn [common_agents].
  rewrite list_elem_of_In, filter_In, <- list_elem_of_In, forallb_forall. split.
  - intros [Ha Hall] x [->|Hx]%elem_of_cons; [done|]. apply list_elem_of_In in Hx.
    specialize (Hall x Hx). by apply bool_decide_eq_true in Hall.
  - intros H. split; [apply (H (f, first)); by left|]. intros x Hx. apply bool_decide_eq_true.
    apply H. right. by apply list_elem_of_In.
Qed.

(** The bindings of a request whose references are all owned. *)
Lemma bind_all_bound p c refs b :
  bind_all p c refs [] = Some b →
  od_wf b ∧ (∀ f, f ∈ b.*1 ↔ f ∈ refs) ∧
  (∀ f rs, od_get f b = Some rs →
     ∃ o, c !! f = Some o ∧ owner_id o = p ∧ rs = effective_replicas o).
Proof.
  intros (_ & Hkeys & Hget & Hwf)%bind_all_spec. split_and!; [by apply Hwf; constructor| |].
  - intros f. rewrite Hkeys. cbn. rewrite elem_of_nil. tauto.
  - intros f rs Hrs. destruct (Hget f rs Hrs) as [|(o & Ho & ->)]; [done|].
    apply owned_spec in Ho as (? & ? & _). by exists o.
Qed.

Lemma common_agents_none b a :
  od_wf b → b ≠ [] → common_agents b = [] → ∃ f rs, od_get f b = Some rs ∧ a ∉ rs.*1.
Proof.
  intros Hwf Hne Hnone.
  destruct (decide (Exists (λ y, a ∉ y.2.*1) b)) as [Hex|Hno].
  - apply Exists_exists in Hex as ([f rs] & Hin & Ha). exists f, rs. split; [by apply od_get_in|done].
  - assert (a ∈ common_agents b) as Hin; [|by rewrite Hnone in Hin; apply elem_of_nil in Hin].
    apply common_agents_spec; [done|]. intros y Hy. destruct (decide (a ∈ y.2.*1)); [done|].
    exfalso. apply Hno, Exists_exists. by exists y.
Qed.

(** ** Histories *)

Inductive file_op :=
| FRegister (uuid_hex : string) (results : list provider_result) (p : string)
| FOwner (f p : string)
| FList (p : string)
| FDelete (f p : string)
| FRetain (f p : string) (rs : list (string * replica))
| FBind (doc : pyval) (p : string).

Definition op_principal (op : file_op) : string :=
  match op with
  | FRegister _ _ p | FOwner _ p | FList p | FDelete _ p | FRetain _ p _ | FBind _ p => p
  end.

Definition file_step {M} `{!Mapping M FileOwner} (op : file_op) (m : M) : M :=
  match op with
  | FRegister u rs p => (register_replicas u rs p m).1
  | FOwner f p => (owner f p m).1
  | FList p => (list_files p m).1
  | FDelete f p => (delete_file f p m).1
  | FRetain f p rs => (retain_replicas f p rs m).1
  | FBind doc p => (bind_request doc p m).1
  end.

(** The record an operation writes. *)
Definition written (op : file_op) (c : gmap string FileOwner) : option (string * FileOwner) :=
  match op with
  | FRegister u rs p =>
      match new_owner u rs p with Ok (_, o) => Some (gateway_file_id o, o) | Raise _ => None end
  | FRetain f p rs => o ← owned p c f; Some (f, with_replicas o rs)
  | _ => None
  end.

Definition spec_step (op : file_op) (c : gmap string FileOwner) : gmap string FileOwner :=
  match op with
  | FDelete f p => if decide (is_Some (owned p c f)) then delete f c else c
  | _ => match written op c with Some (f, o) => <[f := o]> c | None => c end
  end.

(** A history by principals other than [p]: its uuids are fresh and its records
    can be stored. *)
Fixpoint others_history (admissible : FileOwner → Prop) (p : string) (ops : list file_op)
    (c : gmap string FileOwner) : Prop :=
  match ops with
  | [] => True
  | op :: ops =>
      op_principal op ≠ p ∧
      (∀ u rs q, op = FRegister u rs q → c !! (String.append "file_" u) = None) ∧
      (∀ f o, written op c = Some (f, o) → admissible o) ∧
      others_history admissible p ops (spec_step op c)
  end.

Definition file_history {M} `{!Mapping M FileOwner} (ops : list file_op) (m : M) : M :=
  fold_left (λ m op, file_step op m) ops m.

Lemma new_owner_fields u results p r o :
  new_owner u results p = Ok (r, o) →
  p ≠ "" ∧ gateway_file_id o = String.append "file_" u ∧ owner_id o = p ∧ file_document o = r ∧
  dget "id" r = VStr (provider_file_id o).
Proof.
  unfold new_owner. destruct results as [|[[r0 a] k] results]; [done|].
  destruct (provider_id r0) as [i|] eqn:Hi; [|done]. destruct (str_truthy p) eqn:Hp; [|done]. cbn [negb].
  destruct (add_replicas _ _) as [rs|]; [|done]. intros [= <- <-]. cbn.
  split_and!; try done; [by apply str_truthy_spec|]. unfold provider_id in Hi.
  destruct (dget "id" r0) as [| | | |s|l|l|d]; try discriminate Hi. destruct (str_blank s); [done|].
  by injection Hi as <-.
Qed.

Section theorems.
Context {M : Type} `{!Mapping M FileOwner} (admissible : FileOwner → Prop)
        (models : M → gmap string FileOwner → Prop) `{!MappingLaws M FileOwner admissible models}.

Lemma bind_request_owned m c doc p :
  models m c →
  models (bind_request doc p m).1 c ∧
  (bind_request doc p m).2 =
    match bind_all p c (file_refs doc) [] with
    | None => Raise not_found
    | Some b =>
        match b, common_agents b with
        | _ :: _, [] => Raise (FileProviderUnavailableError "referenced files have no common provider replica")
        | _, _ => Ok (doc, b)
        end
    end.
Proof.
  intros Hm. unfold bind_request.
  match goal with |- context [rewrite p doc ?s] =>
    assert (Hspec : rewrites_to models p c (bind_all p c (file_refs doc) []) doc (rewrite p doc s))
      by exact (rewrite_spec admissible models p c doc m [] Hm);
    destruct (rewrite p doc s) as [[m' b] out]
  end.
  destruct Hspec as [Hm' Hout]. cbn in Hm', Hout.
  destruct (bind_all p c (file_refs doc) []) as [b'|]; [destruct Hout as [-> ->]|by subst].
  destruct b' as [|x b']; [done|]. by destruct (common_agents (x :: b')).
Qed.

(** Binding a request to its files is sound and complete: it succeeds exactly
    when the caller owns every gateway file the document refers to at any depth
    and one agent has a replica of all of them; it then binds each reference to
    the owner's replicas and leaves the document as it is. Otherwise it fails for
    the reason it names. *)
Theorem bind_request_sound m c doc p :
  models m c →
  models (bind_request doc p m).1 c ∧
  match (bind_request doc p m).2 with
  | Ok (doc', b) =>
      doc' = doc ∧ od_wf b ∧ (∀ f, f ∈ b.*1 ↔ f ∈ file_refs doc) ∧
      (∀ f rs, od_get f b = Some rs →
         ∃ o, c !! f = Some o ∧ owner_id o = p ∧ rs = effective_replicas o) ∧
      (b = [] ∨ ∃ a, ∀ f rs, od_get f b = Some rs → a ∈ rs.*1)
  | Raise (FileContractError _) =>
      ∃ f, f ∈ file_refs doc ∧ ∀ o, c !! f = Some o → owner_id o ≠ p ∨ p = ""
  | Raise (FileProviderUnavailableError _) =>
      (∀ f, f ∈ file_refs doc → is_Some (owned p c f)) ∧
      ∀ a, ∃ f o, f ∈ file_refs doc ∧ c !! f = Some o ∧ a ∉ (effective_replicas o).*1
  | Raise (FileKeyError _) => False
  end.
Proof.
  intros Hm. destruct (bind_request_owned m c doc p Hm) as [Hm' ->]. split; [done|].
  destruct (bind_all p c (file_refs doc) []) as [b|] eqn:Hall; unfold not_found.
  2: { apply bind_all_none in Hall as (f & Hf & Hn). exists f. split; [done|]. intros o Ho.
       destruct (decide (owner_id o = p)) as [Heq|]; [|by left]. destruct (decide (p = "")); [by right|].
       assert (owned p c f = Some o) by (by apply owned_spec). congruence. }
  pose proof (bind_all_bound p c _ b Hall) as (Hwf & Hkeys & Hget).
  pose proof (bind_all_spec p c _ _ _ Hall) as (Hown & _).
  destruct b as [|x b]; [split_and!; try done; by left|].
  destruct (common_agents (x :: b)) as [|a l] eqn:Hcommon.
  - split; [done|]. intros a.
    destruct (common_agents_none (x :: b) a Hwf ltac:(done) Hcommon) as (f & rs & Hrs & Ha).
    destruct (Hget f rs Hrs) as (o & Ho & _ & ->). exists f, o. split; [|done].
    apply Hkeys, od_get_elem. by exists (effective_replicas o).
  - split_and!; try done. right. exists a. intros f rs Hrs.
    apply (common_agents_spec (x :: b) a ltac:(done)) with (x := (f, rs)).
    + rewrite Hcommon. by left.
    + by apply od_get_Some_elem.
Qed.

Lemma value_at_spec f m c o :
  models m c → c !! f = Some o → (value_at f m).2 = Ok o ∧ models (value_at f m).1 c.
Proof.
  intros Hm Ho. destruct (getitem_models m c f Hm) as [Hv Hm']. unfold value_at.
  destruct (getitem m f) as [m1 v]. cbn in Hv, Hm'. rewrite Ho in Hv. by subst v.
Qed.

Lemma values_models c fs m :
  models m c → (∀ f, f ∈ fs → is_Some (c !! f)) →
  models (stm.mapM value_at fs m).1 c ∧
  ∃ os, (stm.mapM value_at fs m).2 = Ok os ∧ Forall2 (λ f o, c !! f = Some o) fs os.
Proof.
  revert m. induction fs as [|f fs IH]; intros m Hm Hall; [by split; [|exists []]|].
  destruct (Hall f ltac:(by left)) as [o Ho]. destruct (value_at_spec f m c o Hm Ho) as [Hv Hm'].
  cbn [stm.mapM]. unfold st.bind. destruct (value_at f m) as [m1 v]. cbn in Hv, Hm'. subst v.
  destruct (IH m1 Hm' ltac:(intros f' Hf'; apply Hall; by right)) as (Hm2 & os & Hos & Hf2).
  destruct (stm.mapM value_at fs m1) as [m2 out]. cbn in Hm2, Hos. subst out.
  split; [exact Hm2|]. exists (o :: os). split; [reflexivity|]. by constructor.
Qed.

Lemma list_models c p m : models m c → models (list_files p m).1 c.
Proof.
  intros Hm. unfold list_files. destruct (iter_models m c Hm) as [_ Hiter].
  destruct (values_models c (iter (V := FileOwner) m) m Hm ltac:(intros f; apply Hiter)) as (Hm' & os & Hos & _).
  unfold st.bind. destruct (stm.mapM value_at _ m) as [m' out]. cbn in Hm', Hos. by subst out.
Qed.

Lemma delete_spec f p m c :
  models m c →
  (delete_file f p m).2 = match owned p c f with Some o => Ok o | None => Raise (FileKeyError f) end ∧
  models (delete_file f p m).1 (spec_step (FDelete f p) c).
Proof.
  intros Hm. destruct (owner_spec admissible models p f m c Hm) as [Ho Hm']. unfold delete_file, st.bind, spec_step.
  destruct (owner f p m) as [m' out]. cbn in Ho, Hm'. subst out.
  destruct (owned p c f) as [o|] eqn:Hown; [|by rewrite decide_False by (by intros [? ?])].
  rewrite decide_True by done. pose proof (delitem_models m' c f Hm') as Hd.
  apply owned_spec in Hown as (Hc & _). destruct (delitem m' f) as [m2|]; [|congruence]. by destruct Hd.
Qed.

Lemma file_step_refines op m c :
  models m c → (∀ f o, written op c = Some (f, o) → admissible o) →
  models (file_step op m) (spec_step op c).
Proof.
  intros Hm Hadm. destruct op as [u rs p|f p|p|f p|f p rs|doc p]; cbn [file_step].
  - cbn in Hadm |- *. unfold register_replicas.
    destruct (new_owner u rs p) as [[r o]|e]; [|done]. cbn. apply setitem_models; [done|]. by eapply Hadm.
  - exact (proj2 (owner_spec admissible models p f m c Hm)).
  - by apply list_models.
  - by apply delete_spec.
  - destruct (owner_spec admissible models p f m c Hm) as [Ho Hm']. unfold retain_replicas, st.bind.
    cbn in Hadm |- *. destruct (owner f p m) as [m' out]. cbn in Ho, Hm'. subst out.
    destruct (owned p c f) as [o|]; [|done]. cbn in Hadm |- *. apply setitem_models; [done|]. by eapply Hadm.
  - exact (proj1 (bind_request_owned m c doc p Hm)).
Qed.

(** An operation of another principal does not change what [p] owns. *)
Lemma spec_step_owned op p c f :
  op_principal op ≠ p → (∀ u rs q, op = FRegister u rs q → c !! (String.append "file_" u) = None) →
  owned p (spec_step op c) f = owned p c f.
Proof.
  intros Hp Hfresh. unfold owned.
  destruct op as [u rs q|g q|q|g q|g q rs|doc q]; cbn [spec_step written op_principal] in *; try done.
  - destruct (new_owner u rs q) as [[r o]|e] eqn:Hnew; [|done].
    apply new_owner_fields in Hnew as (_ & Hg & Ho & _). rewrite Hg.
    destruct (decide (f = String.append "file_" u)) as [->|Hne]; [|by rewrite lookup_insert_ne].
    rewrite lookup_insert_eq, (Hfresh u rs q eq_refl), Ho, (proj2 (String.eqb_neq _ _) Hp). by destruct (str_truthy p).
  - case_decide as Hown; [|done]. destruct Hown as [o Ho]. apply owned_spec in Ho as (Hc & Ho & _).
    destruct (decide (f = g)) as [->|Hne]; [|by rewrite lookup_delete_ne].
    rewrite lookup_delete_eq, Hc. subst q. rewrite (proj2 (String.eqb_neq _ _) Hp). by destruct (str_truthy p).
  - destruct (owned q c g) as [o|] eqn:Ho; [|done]. apply owned_spec in Ho as (Hc & Ho & _). cbn.
    destruct (decide (f = g)) as [->|Hne]; [|by rewrite lookup_insert_ne].
    rewrite lookup_insert_eq, Hc. cbn. subst q. rewrite (proj2 (String.eqb_neq _ _) Hp). by destruct (str_truthy p).
Qed.

Lemma bind_all_ext p c c' refs b :
  (∀ f, owned p c' f = owned p c f) → bind_all p c' refs b = bind_all p c refs b.
Proof.
  intros Heq. revert b. induction refs as [|f refs IH]; intros b; cbn; [done|]. rewrite Heq.
  by destruct (owned p c f).
Qed.

(** Principals are isolated: whatever the others register, list, delete, bind
    or retain, under any backing of the registry, every lookup of [p] and every
    request [p] binds has the same outcome as before. *)
Theorem files_isolated ops p m c :
  models m c → others_history admissible p ops c →
  (∀ f, (owner f p (file_history ops m)).2 = (owner f p m).2) ∧
  (∀ doc, (bind_request doc p (file_history ops m)).2 = (bind_request doc p m).2).
Proof.
  intros Hm Hops.
  assert (∃ c', models (file_history ops m) c' ∧ ∀ f, owned p c' f = owned p c f) as (c' & Hm' & Heq).
  { unfold file_history. revert m c Hm Hops. induction ops as [|op ops IH]; intros m c Hm; [by exists c|].
    intros (Hp & Hfresh & Hadm & Hops). cbn [fold_left].
    destruct (IH _ _ (file_step_refines op m c Hm Hadm) Hops) as (c' & Hm' & Heq).
    exists c'. split; [done|]. intros f. by rewrite Heq, spec_step_owned. }
  split.
  - intros f. rewrite (proj1 (owner_spec admissible models p f _ c' Hm')).
    by rewrite (proj1 (owner_spec admissible models p f _ c Hm)), Heq.
  - intros doc. rewrite (proj2 (bind_request_owned _ c' doc p Hm')).
    by rewrite (proj2 (bind_request_owned _ c doc p Hm)), (bind_all_ext p c c' _ _ Heq).
Qed.

(** Registration hides the provider's id: it answers with the provider's
    document, its [id] alone replaced by the gateway's; the registering principal
    can then resolve the file to exactly that provider resource, and every other
    principal is told that it does not exist. A refused registration stores
    nothing. *)
Theorem register_owner_roundtrip uuid_hex result agent affinity p m c :
  models m c →
  (∀ o, new_owner uuid_hex [(result, agent, affinity)] p = Ok (result, o) → admissible o) →
  let file := String.append "file_" uuid_hex in
  let '(m', out) := register uuid_hex result agent p affinity m in
  match out with
  | Raise _ => m' = m ∧ (provider_id result = None ∨ p = "")
  | Ok doc =>
      dict_get "id" doc = Some (VStr file) ∧
      (∀ k, k ≠ "id" → dict_get k doc = dict_get k result) ∧
      (∃ o, (owner file p m').2 = Ok o ∧ provider_id result = Some (provider_file_id o) ∧
            agent_id o = agent ∧ file_document o = result) ∧
      ∀ q, q ≠ p → (owner file q m').2 = Raise (FileKeyError file)
  end.
Proof.
  intros Hm Hadm. cbn zeta. unfold register, register_replicas.
  destruct (new_owner uuid_hex [(result, agent, affinity)] p) as [[r o]|e] eqn:Hnew.
  2: { split; [done|]. cbn in Hnew. destruct (provider_id result); [|by left]. right.
       destruct (decide (p = "")) as [|Hp]; [done|]. apply str_truthy_spec in Hp. by rewrite Hp in Hnew. }
  pose proof (new_owner_fields _ _ _ _ _ Hnew) as (Hp & Hg & Ho & Hd & Hi).
  assert (r = result ∧ agent_id o = agent ∧ provider_id result = Some (provider_file_id o)) as (-> & Ha & Hpid).
  { cbn in Hnew. destruct (provider_id result); [|done]. destruct (str_truthy p); [|done]. cbn in Hnew.
    by injection Hnew as <- <-. }
  unfold public_response. rewrite Hi, String.eqb_refl, Hg.
  pose proof (setitem_models m c (String.append "file_" uuid_hex) o Hm (Hadm o eq_refl)) as Hset.
  split_and!.
  - rewrite dict_get_set. by rewrite decide_True.
  - intros k Hk. rewrite dict_get_set. by rewrite decide_False.
  - exists o. split_and!; [|done..]. rewrite (proj1 (owner_spec admissible models p _ _ _ Hset)).
    rewrite (proj2 (owned_spec p _ _ o)); [done|]. by rewrite lookup_insert_eq.
  - intros q Hq. rewrite (proj1 (owner_spec admissible models q _ _ _ Hset)).
    destruct (owned q _ _) as [o'|] eqn:Hown; [|done]. apply owned_spec in Hown as (Hl & Hoq & _).
    rewrite lookup_insert_eq in Hl. injection Hl as <-. congruence.
Qed.

(** Listing answers for exactly the files [p] owns. *)
Lemma list_files_sound m c p :
  models m c →
  ∃ fs os, NoDup fs ∧ Forall2 (λ f o, c !! f = Some o ∧ owner_id o = p) fs os ∧
    (∀ f o, c !! f = Some o → owner_id o = p → f ∈ fs) ∧
    (list_files p m).2 = map_res (λ o, public_response (file_document o) o) os.
Proof.
  intros Hm. destruct (iter_models m c Hm) as [Hnd Hiter]. unfold list_files.
  destruct (values_models c (iter (V := FileOwner) m) m Hm ltac:(intros f; apply Hiter)) as (_ & os & Hos & Hf2).
  unfold st.bind. destruct (stm.mapM value_at _ m) as [m' out]. cbn in Hos. subst out. cbn [snd st.lift].
  assert (Hcov : ∀ f o, c !! f = Some o → f ∈ iter (V := FileOwner) m) by (intros f o Hf; apply Hiter; by exists o).
  clear Hiter Hm. set (fs := iter m) in *. clearbody fs.
  exists (List.filter (λ f, bool_decide (owner_id <$> c !! f = Some p)) fs), (List.filter (λ o, String.eqb (owner_id o) p) os).
  split_and!; [by apply NoDup_ListNoDup, List.NoDup_filter, NoDup_ListNoDup| | |done].
  - clear Hnd Hcov. induction Hf2 as [|f o fs os Hf _ IH]; cbn; [constructor|]. rewrite Hf. cbn.
    destruct (String.eqb_spec (owner_id o) p) as [Heq|Hne].
    + rewrite bool_decide_eq_true_2 by (by f_equal). by constructor.
    + rewrite bool_decide_eq_false_2 by congruence. done.
  - intros f o Hf Ho. apply list_elem_of_In, filter_In. split; [by apply list_elem_of_In, (Hcov f o)|].
    rewrite Hf. cbn. apply bool_decide_eq_true. by f_equal.
Qed.
End theorems.

(** ** A registry of two principals *)

Definition demo_result (i : string) : list (pyval * pyval) :=
  [(VStr "object", VStr "file"); (VStr "id", VStr i)].

Definition demo_files : list (string * FileOwner) :=
  file_history [FRegister "1" [(demo_result "up-1", "openai", "k1"); (demo_result "up-2", "azure", "k2")] "alice";
                FRegister "2" [(demo_result "up-3", "azure", "k2")] "bob"] [].

Definition demo_map (m : list (string * FileOwner)) : gmap string FileOwner := list_to_map m.

Lemma demo_files_model : dict_models demo_files (demo_map demo_files).
Proof.
  assert (od_wf demo_files) as Hwf by (apply (bool_decide_unpack (NoDup demo_files.*1)); vm_compute; exact I).
  split; [exact Hwf|]. intros k. unfold demo_map. induction demo_files as [|[k' v] m IH]; [done|].
  apply NoDup_cons in Hwf as [_ Hwf]. cbn. destruct (decide (k = k')) as [->|Hne].
  - rewrite lookup_insert_eq. by rewrite ?decide_True.
  - rewrite lookup_insert_ne by done. rewrite <- IH by done. by rewrite ?decide_False.
Defined.

Definition demo_request : pyval :=
  VDict [(VStr "input", VList [VDict [(VStr "file_id", VStr "file_1")]])].

Lemma bind_request_sound_witness :
  (∃ b, (bind_request demo_request "alice" demo_files).2 = Ok (demo_request, b) ∧ b.*1 = ["file_1"]) ∧
  (∃ e, (bind_request demo_request "bob" demo_files).2 = Raise (FileContractError e) ∧
        ∃ f, f ∈ file_refs demo_request ∧ ∀ o, demo_map demo_files !! f = Some o → owner_id o ≠ "bob" ∨ "bob" = "").
Proof.
  split; [eexists; split; [vm_compute; reflexivity|reflexivity]|].
  destruct (bind_request_sound (λ _, True) dict_models demo_files (demo_map demo_files) demo_request "bob"
              demo_files_model) as [_ H].
  assert (Hout : (bind_request demo_request "bob" demo_files).2 = Raise not_found) by (vm_compute; reflexivity).
  rewrite Hout in H. unfold not_found in *. eexists. split; [exact Hout|exact H].
Defined.

Definition demo_others : list file_op :=
  [FDelete "file_1" "bob"; FRegister "3" [(demo_result "up-1", "openai", "k1")] "bob"; FRetain "file_1" "bob" [];
   FDelete "file_2" "bob"].

Lemma files_isolated_witness :
  (owner "file_1" "alice" (file_history demo_others demo_files)).2 = (owner "file_1" "alice" demo_files).2 ∧
  (∃ o, (owner "file_1" "alice" demo_files).2 = Ok o ∧ provider_file_id o = "up-1").
Proof.
  split; [|eexists; split; [vm_compute; reflexivity|reflexivity]].
  apply (files_isolated (λ _, True) dict_models demo_others "alice" demo_files (demo_map demo_files)
           demo_files_model).
  unfold demo_others. cbn [others_history]. split_and!; try done;
    intros u rs q [=]; subst; vm_compute; reflexivity.
Defined.

Lemma register_owner_roundtrip_witness :
  ∃ doc, (register "9" (demo_result "up-9") "openai" "alice" "k1" demo_files).2 = Ok doc ∧
    dict_get "id" doc = Some (VStr "file_9").
Proof.
  pose proof (register_owner_roundtrip (λ _, True) dict_models "9" (demo_result "up-9") "openai" "k1" "alice"
                demo_files (demo_map demo_files) demo_files_model ltac:(done)) as H.
  cbn zeta in H. destruct (register "9" (demo_result "up-9") "openai" "alice" "k1" demo_files) as [m' out] eqn:Hr.
  destruct out as [doc|e].
  - exists doc. split; [done|]. apply H.
  - exfalso. destruct H as [_ [H|H]]; [vm_compute in H; discriminate H|discriminate H].
Defined.
