(* ===== verification/Workflow.v ===== *)
(** orchestrator.py: the workflow of a conducted request. The policy that governs
    it, the steps of a plan, the fixed template, and the strict parser of a plan
    a model wrote. *)

From Stdlib Require Import Ascii String.
From S2P Require Import Prelude PyString PyCollections PyFloat PyValue PyJson.
From S2P Require Import ModelGroup Agents Ranking.

(** ** Text of messages *)

Definition text_of_part (v : pyval) : list string :=
  match v with
  | VStr s => [s]
  | VDict d =>
      match dget "text" d with VStr s => [s] | _ => [] end ++
      match dget "content" d with
      | VStr s => [s]
      | VList chunks =>
          omap (λ c, match c with
                     | VDict d => match dget "text" d with VStr s => Some s | _ => None end
                     | _ => None
                     end) chunks
      | _ => []
      end
  | _ => []
  end.

Definition _coerce_input_text (value : pyval) : string :=
  match value with
  | VStr s => s
  | VList items => str_join " " (concat (map text_of_part items))
  | _ => ""
  end.

Definition _coerce_message_content_text (content : pyval) : string :=
  match content with VStr s => s | VList _ => _coerce_input_text content | _ => "" end.

Abbreviation message := (list (pyval * pyval)).

Fixpoint first_user_text (messages : list message) : string :=
  match messages with
  | [] => ""
  | m :: rest =>
      if key_is "user" (dget "role" m)
      then let text := _coerce_message_content_text (default (VStr "") (dict_get "content" m)) in
           if str_truthy text then text else first_user_text rest
      else first_user_text rest
  end.

Definition _latest_user_text (messages : list message) : string := first_user_text (rev messages).

(** The system messages that say something, as one text. *)
Definition caller_instructions (messages : list message) : string :=
  str_join (list_str [chr 10; chr 10])
    (List.filter str_truthy
       (map (λ m, _coerce_message_content_text (dget "content" m))
          (List.filter (λ m, key_is "system" (dget "role" m)) messages))).

(** ** OrchestrationPolicy *)

Record OrchestrationPolicy := {
  route_p95_seconds : float;
  realtime_judge : bool;
  verifier_required : bool;
  workflow_planning : string;
  max_workflow_steps : Z;
}.

(** [verifier_judge] is not a field of the model: the constructor admits one value. *)
Definition OrchestrationPolicy_post_init (p95 : float) (realtime : pyval) (required : bool)
    (planning : string) (max_steps : Z) (verifier_judge : string) : res string OrchestrationPolicy :=
  if negb (String.eqb verifier_judge "model")
  then Raise "keyword-based verifier_judge modes are unsupported; use 'model'" else
  match realtime with
  | VBool r => Ok {| route_p95_seconds := p95; realtime_judge := r; verifier_required := required;
                     workflow_planning := planning; max_workflow_steps := max_steps |}
  | _ => Raise "realtime_judge must be a boolean"
  end.

Definition policy_as_dict (p : OrchestrationPolicy) : pyval :=
  VDict [(VStr "route_p95_seconds", VFloat (route_p95_seconds p));
         (VStr "realtime_judge", VBool (realtime_judge p));
         (VStr "verifier_required", VBool (verifier_required p));
         (VStr "workflow_planning", VStr (workflow_planning p));
         (VStr "verifier_judge", VStr "model");
         (VStr "max_workflow_steps", VInt (max_workflow_steps p));
         (VStr "workflow_steps", VList (map VStr ["thinker"; "worker"; "verifier"; "synthesizer"]));
         (VStr "supported_locales", VList [VStr "en"; VStr "ko"])].

(** ** WorkflowStep *)

Record WorkflowStep := {
  step_id : Z;
  step_role : string;
  step_agent_id : string;
  step_subtask : string;
  step_access : list Z;
}.

(** The keys of [as_dict] that the planner also writes. *)
Definition step_as_dict (s : WorkflowStep) : list (pyval * pyval) :=
  [(VStr "id", VInt (step_id s)); (VStr "role", VStr (step_role s));
   (VStr "agent_id", VStr (step_agent_id s)); (VStr "subtask", VStr (step_subtask s));
   (VStr "access", VList (map VInt (step_access s)))].

Definition PLAN_ROLES : list string := ["thinker"; "worker"; "verifier"; "synthesizer"].

(** ** Failures

    Everything a planner failure may be is caught by [conduct], which then uses
    the template. *)
Inductive plan_error :=
| PlanValueError (m : string)
| PlanTypeError (m : string)
| PlanAttributeError
| PlanBudgetExceeded                      (* the one failure [conduct] does not catch *)
| PlanRuntimeError (m : string).

Definition plan_error_of (e : config_error) : plan_error :=
  match e with
  | ValueErr m => PlanValueError m
  | TypeErr m => PlanTypeError m
  | KeyErr k => PlanValueError k
  | Unmodelled m => PlanValueError m
  end.

(** ** Which models a request names *)

Definition GATEWAY_DEFAULT_MODEL : string := "contextual-orchestrator".
Definition AUTO_MODEL : string := "orchestrator/auto".
Definition FREE_MODEL : string := "orchestrator/free".
Definition is_virtual_model (model_name : string) : bool :=
  in_strs model_name [GATEWAY_DEFAULT_MODEL; AUTO_MODEL; FREE_MODEL].

Definition first_enabled (matches : list ModelAgent) : option ModelAgent :=
  match List.find (λ a, negb (disabled a)) matches with
  | Some a => Some a
  | None => head matches
  end.

(** [_requested_agent] for a string: [None] is a virtual model. *)
Definition _requested_agent (env : ranking_env) (requested_model : string)
    : res plan_error (option ModelAgent) :=
  if is_virtual_model requested_model then Ok None else
  if negb (str_truthy requested_model)
  then Raise (PlanValueError "requested model must be a configured non-empty string") else
  let candidates := re_candidates env in
  let matches :=
    List.filter (λ a, String.eqb (model a) requested_model &&
                      _agent_matches_request_endpoint (re_urlparse env) (re_ctx env) a &&
                      _zdr_agent_allowed (re_ctx env) a &&
                      (negb (rq_zdr_only (re_ctx env)) || negb (disabled a))) candidates in
  let configured_exact := existsb (λ a, String.eqb (model a) requested_model) candidates in
  match
    (if negb (bool_decide (matches = [])) || configured_exact then Ok matches else
     let requested_group := match canonical_group_name requested_model with Ok g => g | Raise _ => "" end in
     match map_raise PlanValueError
             (map_res (λ a, (λ g, (a, g)) <$> canonical_group_name (group_name a))
                (List.filter (λ a, str_truthy (group_name a)) candidates)) with
     | Raise e => Raise e
     | Ok grouped =>
         match map fst (List.filter (λ ag, String.eqb ag.2 requested_group) grouped) with
         | [] => Ok []
         | group =>
             match _ranked_agents env "" "worker" [] false true (Some group) None None with
             | Ok ranked => Ok ranked
             | Raise m =>
                 match ranking_candidates env "worker" [] false true None group with
                 | [] => Ok []                          (* RuntimeError *)
                 | _ => Raise (PlanValueError m)
                 end
             end
         end
     end) with
  | Raise e => Raise e
  | Ok matches =>
      match first_enabled matches with
      | Some a => Ok (Some a)
      | None => Raise (PlanValueError "requested model is not configured")
      end
  end.

(** ** The template *)

Definition select_for (env : ranking_env) (requested : option ModelAgent) (task role : string)
    (free_only : bool) (required_tags : list string) : res plan_error string :=
  match requested with
  | Some a => Ok (id a)
  | None => id <$> map_raise PlanRuntimeError
                     (_select_agent env task role free_only required_tags [] None None)
  end.

Definition template_subtask (role : string) : string :=
  if String.eqb role "thinker" then "Decompose the task and identify the best execution strategy."
  else if String.eqb role "worker" then "Execute the core task using the plan."
  else if String.eqb role "verifier" then "Find concrete errors, gaps, and unsupported claims."
  else "Produce the final answer, incorporating only verified work.".

Definition template_step (i : Z) (role agent : string) : WorkflowStep :=
  {| step_id := i; step_role := role; step_agent_id := agent; step_subtask := template_subtask role;
     step_access := seqZ 0 i |}.

Definition _plan (env : ranking_env) (task model_name : string) (required_tags : list string)
    : res plan_error (list WorkflowStep) :=
  _requested_agent env model_name ≫= λ requested,
  let free_only := String.eqb model_name FREE_MODEL in
  let select role := select_for env requested task role free_only required_tags in
  select "thinker" ≫= λ thinker, select "worker" ≫= λ worker,
  select "verifier" ≫= λ verifier, select "synthesizer" ≫= λ synthesizer,
  Ok [template_step 0 "thinker" thinker; template_step 1 "worker" worker;
      template_step 2 "verifier" verifier; template_step 3 "synthesizer" synthesizer].

(** ** Reading a plan *)

(** [int(s)] of a string: an optional sign and digits, single underscores
    between them. *)
Fixpoint int_digits (l : list ascii) (acc : Z) (after_digit : bool) : option Z :=
  match l with
  | [] => if after_digit then Some acc else None
  | c :: l =>
      if is_digit c then int_digits l (10 * acc + (ord c - 48)) true
      else if (ord c =? 95) && after_digit then int_digits l acc false else None
  end.

Definition int_of_text (s : string) : option Z :=
  match str_list (str_strip s) with
  | c :: l => if ord c =? 45 then Z.opp <$> int_digits l 0 false
              else if ord c =? 43 then int_digits l 0 false else int_digits (c :: l) 0 false
  | [] => None
  end.

(** [int(v)]. *)
Definition int_value (v : pyval) : res plan_error Z :=
  match v with
  | VStr s => match int_of_text s with
              | Some z => Ok z
              | None => Raise (PlanValueError "invalid literal for int()")
              end
  | _ => map_raise plan_error_of (int_of v)
  end.

(** [sorted(set(l))]. *)
Definition sorted_ints (l : list Z) : list Z := py_sorted Z.leb (remove_dups l).

(** [raw[raw.find("{") : raw.rfind("}") + 1]], when both are found in this order. *)
Fixpoint index_of (c : ascii) (l : list ascii) : option nat :=
  match l with
  | [] => None
  | x :: l => if Ascii.eqb x c then Some O else S <$> index_of c l
  end.

Definition last_index_of (c : ascii) (l : list ascii) : option nat :=
  (λ i, (length l - S i)%nat) <$> index_of c (rev l).

Definition plan_text (raw : string) : option string :=
  let l := str_list raw in
  match index_of "{"%char l, last_index_of "}"%char l with
  | Some i, Some j =>
      if (j <=? i)%nat then None else Some (list_str (firstn (S j - i) (skipn i l)))
  | _, _ => None
  end.

(** The agents that may play a role for a text. *)
Definition eligible_for (env : ranking_env) (text role : string) : res plan_error (list string) :=
  (λ ranked, map id (List.filter (λ a, negb (excluded_for role a)) ranked)) <$>
    map_raise PlanRuntimeError (_ranked_agents env text role [] false true None None None).

Section parse.
Context (json_loads : string → option pyval)
        (float_repr : float → string) (container_repr : pyval → string)
        (env : ranking_env) (policy : OrchestrationPolicy).

(** [str(v)]. *)
Definition py_str (v : pyval) : string :=
  match v with
  | VStr s => s
  | VNone => "None"
  | VBool b => if b then "True" else "False"
  | VInt z => str_of_Z z
  | VFloat f => float_repr f
  | _ => container_repr v
  end.

(** The agents of the pool, by id; a later one of the same id wins. *)
Definition known_agent (agent_id : string) : option ModelAgent :=
  List.find (λ a, String.eqb (id a) agent_id)
    (rev (List.filter (_agent_matches_request_endpoint (re_urlparse env) (re_ctx env)) (re_agents env))).

(** [known_agents.get(agent_id)]: a list or an object is not hashable. *)
Definition assigned_agent (agent_id : pyval) : res plan_error (option ModelAgent) :=
  match agent_id with
  | VStr s => Ok (known_agent s)
  | VList _ | VDict _ => Raise (PlanTypeError "unhashable type")
  | _ => Ok None
  end.

Definition keeps_assignment (eligible : list string) (a : ModelAgent) : bool :=
  _is_general_chat_agent a && _zdr_agent_allowed (re_ctx env) a && in_strs (id a) eligible.

Definition parse_step (index : Z) (item : pyval) : res plan_error WorkflowStep :=
  match item with
  | VDict d =>
      int_value (default (VInt (-1)) (dict_get "id" d)) ≫= λ i,
      if negb (i =? index) then Raise (PlanValueError "step ids must be sequential from 0") else
      let role := py_str (default (VStr "") (dict_get "role" d)) in
      if negb (in_strs role PLAN_ROLES) then Raise (PlanValueError "unknown role") else
      let subtask := str_strip (py_str (default (VStr "") (dict_get "subtask" d))) in
      if negb (str_truthy subtask) then Raise (PlanValueError "step subtask must be non-empty") else
      map_raise plan_error_of (tuple_of (default (VList []) (dict_get "access" d))) ≫= λ values,
      map_res int_value values ≫= λ values,
      let access := sorted_ints values in
      if existsb (λ v, (v <? 0) || (index <=? v)) access
      then Raise (PlanValueError "access may reference only earlier steps") else
      assigned_agent (dget "agent_id" d) ≫= λ assigned,
      eligible_for env subtask role ≫= λ eligible,
      match assigned with
      | Some a => if keeps_assignment eligible a then Ok (id a)
                  else select_for env None subtask role false []
      | None => select_for env None subtask role false []
      end ≫= λ agent_id,
      Ok {| step_id := index; step_role := role; step_agent_id := agent_id; step_subtask := subtask;
            step_access := access |}
  | _ => Raise PlanAttributeError
  end.

Fixpoint parse_steps (index : Z) (items : list pyval) : res plan_error (list WorkflowStep) :=
  match items with
  | [] => Ok []
  | item :: items =>
      parse_step index item ≫= λ s, parse_steps (index + 1) items ≫= λ steps, Ok (s :: steps)
  end.

Definition _parse_workflow_plan (raw : string) : res plan_error (list WorkflowStep) :=
  match plan_text raw with
  | None => Raise (PlanValueError "plan contains no JSON object")
  | Some text =>
      match json_loads text with
      | None => Raise (PlanValueError "JSONDecodeError")
      | Some (VDict data) =>
          match dget "steps" data with
          | VList raw_steps =>
              let n := Z.of_nat (length raw_steps) in
              if (n <? 2) || (max_workflow_steps policy <? n)
              then Raise (PlanValueError "plan must have 2..max_workflow_steps steps") else
              parse_steps 0 raw_steps ≫= λ steps,
              match last steps with
              | Some s => if in_strs (step_role s) ["synthesizer"; "worker"] then Ok steps
                          else Raise (PlanValueError "final step must produce the answer")
              | None => Raise (PlanValueError "final step must produce the answer")
              end
          | _ => Raise (PlanValueError "plan must have 2..max_workflow_steps steps")
          end
      | Some _ => Raise PlanAttributeError
      end
  end.
End parse.

(** The agents the planner is offered, each with the roles it may play. *)
Definition planner_offers (env : ranking_env) (task : string)
    : res plan_error (list (string * list string)) :=
  map_res (λ role, (λ ids, (role, ids)) <$> eligible_for env task role) PLAN_ROLES ≫= λ eligible,
  let roles_of a := map fst (List.filter (λ re, in_strs (id a) re.2) eligible) in
  Ok (map (λ a, (id a, roles_of a))
        (List.filter (λ a, _is_general_chat_agent a && _zdr_agent_allowed (re_ctx env) a &&
                           _agent_matches_request_endpoint (re_urlparse env) (re_ctx env) a &&
                           negb (bool_decide (roles_of a = []))) (re_agents env))).

(** [_plan_generated]: the planner is asked once; [planner] answers or raises. *)
Definition _plan_generated (json_loads : string → option pyval) (float_repr : float → string)
    (container_repr : pyval → string) (env : ranking_env) (policy : OrchestrationPolicy)
    (planner : ModelAgent → list (string * list string) → res plan_error string) (task : string)
    : res plan_error (list WorkflowStep) :=
  map_raise PlanRuntimeError (_select_agent env task "thinker" false [] [] None None) ≫= λ a,
  planner_offers env task ≫= λ offers,
  planner a offers ≫= λ raw,
  _parse_workflow_plan json_loads float_repr container_repr env policy raw.

(** ** Accepted plans are well formed *)

(** The pool has unique ids, and the psychometric evidence only reorders. *)
Definition pool_ok (env : ranking_env) : Prop :=
  NoDup (ids (re_agents env)) ∧ evidenced_ok (re_evidenced env "").

(** An enabled chat agent the request may reach, not excluded from the role. *)
Definition may_play (env : ranking_env) (role agent_id : string) : Prop :=
  ∃ a, a ∈ re_agents env ∧ id a = agent_id ∧ disabled a = false ∧ excluded_for role a = false ∧
    _is_general_chat_agent a = true ∧ _zdr_agent_allowed (re_ctx env) a = true ∧
    _agent_matches_request_endpoint (re_urlparse env) (re_ctx env) a = true.

(** What the rules ask of the [i]-th step. *)
Definition shape_ok (i : Z) (s : WorkflowStep) : Prop :=
  step_id s = i ∧ step_role s ∈ PLAN_ROLES ∧ step_subtask s ≠ "" ∧
  StronglySorted Z.lt (step_access s) ∧ Forall (λ v, 0 <= v < i) (step_access s).

Definition plan_ok (env : ranking_env) (policy : OrchestrationPolicy) (steps : list WorkflowStep) : Prop :=
  2 <= Z.of_nat (length steps) <= max_workflow_steps policy ∧
  (∀ i s, steps !! i = Some s → shape_ok (Z.of_nat i) s ∧ may_play env (step_role s) (step_agent_id s)) ∧
  ∃ s, last steps = Some s ∧ step_role s ∈ ["synthesizer"; "worker"].

Lemma ranked_may_play env text role tags free ranked a :
  pool_ok env → _ranked_agents env text role tags free true None None None = Ok ranked →
  a ∈ ranked → excluded_for role a = false → may_play env role (id a).
Proof.
  intros [Hnd Hev] Hr Ha Hex.
  destruct (ranked_agents_sound env text role tags free true None None ranked Hnd Hev Hr) as (_ & Hall & _).
  rewrite Forall_forall in Hall. destruct (Hall a Ha) as (Hin & Hd & Hz & Hm & _ & _ & Hc).
  exists a. split_and!; try done. by apply Hc.
Qed.

Lemma eligible_may_play env text role ids x :
  pool_ok env → eligible_for env text role = Ok ids → x ∈ ids → may_play env role x.
Proof.
  intros Hp H Hx. unfold eligible_for in H.
  destruct (_ranked_agents env text role [] false true None None None) as [ranked|] eqn:Hr; [|done].
  cbn in H. injection H as <-. apply list_elem_of_fmap in Hx as (a & -> & Ha).
  apply list_elem_of_In, filter_In in Ha as [Ha Hex]. apply list_elem_of_In in Ha.
  eapply ranked_may_play; [done..|]. by apply negb_true_iff.
Qed.

Lemma select_may_play env task role free tags x :
  pool_ok env → select_for env None task role free tags = Ok x → may_play env role x.
Proof.
  intros Hp H. cbn in H. unfold _select_agent in H.
  destruct (_ranked_agents env task role tags free true None None None) as [ranked|] eqn:Hr; [|done].
  cbn in H. destruct (List.filter _ ranked) as [|a l] eqn:Hl; [done|].
  destruct (disabled a); [done|]. destruct (excluded_for role a) eqn:Hex; [done|]. injection H as <-.
  assert (Hin : a ∈ List.filter (λ a, _is_general_chat_agent a && _agent_matches_required_tags a tags) ranked)
    by (rewrite Hl; by left).
  apply list_elem_of_In, filter_In in Hin as [Hin _]. apply list_elem_of_In in Hin.
  by eapply ranked_may_play.
Qed.

Lemma sorted_ints_spec l : StronglySorted Z.lt (sorted_ints l) ∧ ∀ x, x ∈ sorted_ints l ↔ x ∈ l.
Proof.
  unfold sorted_ints. split.
  - assert (Hs : StronglySorted (λ a b, Z.leb a b = true) (py_sorted Z.leb (remove_dups l))).
    { apply py_sorted_sorted with (P := λ _, True); [intros; rewrite !Z.leb_le; lia|
        intros x y z _ _ _; rewrite !Z.leb_le; lia|by apply Forall_true]. }
    assert (Hnd : NoDup (py_sorted Z.leb (remove_dups l))) by (rewrite py_sorted_perm; apply NoDup_remove_dups).
    induction Hs as [|x xs _ IH Hx]; [constructor|]. apply NoDup_cons in Hnd as [Hnin Hnd].
    constructor; [by apply IH|]. rewrite Forall_forall in Hx |- *. intros y Hy. specialize (Hx y Hy).
    rewrite Z.leb_le in Hx. assert (x ≠ y) by (by intros ->). lia.
  - intros x. by rewrite py_sorted_perm, elem_of_remove_dups.
Qed.

Section sound.
Context (json_loads : string → option pyval)
        (float_repr : float → string) (container_repr : pyval → string)
        (env : ranking_env) (policy : OrchestrationPolicy).

Lemma parse_step_ok index item s :
  pool_ok env → parse_step float_repr container_repr env index item = Ok s →
  shape_ok index s ∧ may_play env (step_role s) (step_agent_id s).
Proof.
  intros Hp H. destruct item as [| | | | | | |d]; try done. cbn [parse_step] in H.
  apply bind_Ok_inv in H as (i & _ & H). destruct (negb (i =? index)); [done|].
  destruct (in_strs _ PLAN_ROLES) eqn:Hrole; [|done]. destruct (str_truthy _) eqn:Hsub; [|done].
  cbn [negb] in H. apply bind_Ok_inv in H as (vs & _ & H). apply bind_Ok_inv in H as (zs & _ & H).
  destruct (existsb _ (sorted_ints zs)) eqn:Hacc; [done|].
  apply bind_Ok_inv in H as (assigned & _ & H). apply bind_Ok_inv in H as (elig & Helig & H).
  apply bind_Ok_inv in H as (aid & Haid & H). injection H as <-. split.
  - split_and!; cbn; [done|by apply in_strs_spec|by apply str_truthy_spec|apply sorted_ints_spec|].
    apply Forall_forall. intros v Hv. destruct (decide (0 <= v < index)) as [|Hout]; [done|].
    assert (existsb (λ v, (v <? 0) || (index <=? v)) (sorted_ints zs) = true); [|congruence].
    apply existsb_exists. exists v. split; [by apply list_elem_of_In|]. rewrite orb_true_iff, Z.ltb_lt, Z.leb_le. lia.
  - cbn. destruct assigned as [a|]; [|by eapply select_may_play].
    destruct (keeps_assignment env elig a) eqn:Hk; [|by eapply select_may_play]. injection Haid as <-.
    unfold keeps_assignment in Hk. rewrite !andb_true_iff in Hk. destruct Hk as [_ Hk].
    eapply eligible_may_play; [done..|]. by apply in_strs_spec.
Qed.

Lemma parse_steps_ok items : ∀ index steps,
  pool_ok env → parse_steps float_repr container_repr env index items = Ok steps →
  length steps = length items ∧
  ∀ i s, steps !! i = Some s →
    shape_ok (index + Z.of_nat i) s ∧ may_play env (step_role s) (step_agent_id s).
Proof.
  induction items as [|item items IH]; intros index steps Hp H; cbn in H.
  { injection H as <-. done. }
  apply bind_Ok_inv in H as (s & Hs & H). apply bind_Ok_inv in H as (ss & Hss & [= <-]).
  destruct (IH _ _ Hp Hss) as [Hlen Hall]. split; [cbn; by rewrite Hlen|]. intros [|i] s' Hs'; cbn in Hs'.
  - injection Hs' as <-. replace (index + Z.of_nat 0) with index by lia. by eapply parse_step_ok.
  - replace (index + Z.of_nat (S i)) with (index + 1 + Z.of_nat i) by lia. by apply Hall.
Qed.

Lemma accepted_plan_shape raw steps :
  pool_ok env → _parse_workflow_plan json_loads float_repr container_repr env policy raw = Ok steps →
  plan_ok env policy steps.
Proof.
  intros Hp H. unfold _parse_workflow_plan in H. destruct (plan_text raw) as [text|]; [|done].
  destruct (json_loads text) as [[| | | | | | |data]|]; try done.
  destruct (dget "steps" data) as [| | | | |items| |]; try done.
  destruct (_ || _) eqn:Hlen; [done|]. apply orb_false_iff in Hlen as [Hlo Hhi].
  apply Z.ltb_ge in Hlo, Hhi. apply bind_Ok_inv in H as (ss & Hss & H).
  destruct (parse_steps_ok items 0 ss Hp Hss) as [Hn Hall].
  destruct (last ss) as [l|] eqn:Hlast; [|done]. destruct (in_strs _ _) eqn:Hrole; [|done].
  injection H as <-. split_and!; [lia|lia|exact Hall|]. exists l. split; [done|]. by apply in_strs_spec.
Qed.

(** C33. A plan the parser accepts keeps every rule, whatever the model wrote: step
    ids in sequence, known roles, non-empty subtasks, access to earlier steps
    only, 2 to [max_workflow_steps] steps, a last step that answers, and every
    step assigned to an enabled chat agent the request may reach and its role
    admits. *)
Theorem accepted_plan_well_formed raw steps :
  pool_ok env → _parse_workflow_plan json_loads float_repr container_repr env policy raw = Ok steps →
  plan_ok env policy steps.
Proof. apply accepted_plan_shape. Qed.
End sound.

(** The template is well formed too: its roles and accesses are fixed, and unless
    the caller named the model each agent may play its role. *)
Lemma template_well_formed env task model_name tags steps :
  pool_ok env → _plan env task model_name tags = Ok steps →
  map step_role steps = PLAN_ROLES ∧
  (∀ i s, steps !! i = Some s → shape_ok (Z.of_nat i) s) ∧
  (_requested_agent env model_name = Ok None →
     Forall (λ s, may_play env (step_role s) (step_agent_id s)) steps) ∧
  (∀ a, _requested_agent env model_name = Ok (Some a) → Forall (λ s, step_agent_id s = id a) steps).
Proof.
  intros Hp H. unfold _plan in H. apply bind_Ok_inv in H as (req & Hreq & H).
  apply bind_Ok_inv in H as (t & Ht & H). apply bind_Ok_inv in H as (w & Hw & H).
  apply bind_Ok_inv in H as (v & Hv & H). apply bind_Ok_inv in H as (y & Hy & H). injection H as <-.
  split; [done|]. split.
  - intros i s Hs. do 4 (destruct i as [|i]; [injection Hs as <-;
      split_and!; [done|cbn; set_solver|done|cbn; repeat constructor; lia|cbn; repeat constructor; lia]|]). done.
  - rewrite Hreq. split.
    + intros [= ->]. repeat constructor; cbn; by eapply select_may_play.
    + intros a [= ->]. cbn in Ht, Hw, Hv, Hy. simplify_eq. by repeat constructor.
Qed.

(** ** A plan that follows the rules is taken as it is *)

Definition plan_document (steps : list WorkflowStep) : pyval :=
  VDict [(VStr "steps", VList (map (λ s, VDict (step_as_dict s)) steps))].

(** The step's agent was offered to the planner for its role. *)
Definition offered (offers : list (string * list string)) (s : WorkflowStep) : Prop :=
  ∃ roles, (step_agent_id s, roles) ∈ offers ∧ step_role s ∈ roles.

Lemma index_of_app c l l' : c ∉ l → index_of c (l ++ c :: l') = Some (length l).
Proof.
  induction l as [|x l IH]; intros Hc; cbn.
  - by rewrite Ascii.eqb_refl.
  - apply not_elem_of_cons in Hc as [Hx Hc]. destruct (Ascii.eqb_spec x c); [congruence|]. by rewrite IH.
Qed.

Lemma plan_text_embedded pre body suf :
  "{"%char ∉ pre → "}"%char ∉ suf →
  plan_text (list_str (pre ++ "{"%char :: body ++ "}"%char :: suf)) =
    Some (list_str ("{"%char :: body ++ ["}"%char])).
Proof.
  intros Hpre Hsuf. unfold plan_text. rewrite str_list_str.
  set (l := pre ++ "{"%char :: body ++ "}"%char :: suf).
  assert (Hi : index_of "{"%char l = Some (length pre)) by (by apply index_of_app).
  assert (Hj : last_index_of "}"%char l = Some (length pre + S (length body))%nat).
  { unfold last_index_of.
    replace (rev l) with (rev suf ++ "}"%char :: rev (pre ++ "{"%char :: body)).
    2: { unfold l. replace (pre ++ "{"%char :: body ++ "}"%char :: suf)
           with ((pre ++ "{"%char :: body) ++ ["}"%char] ++ suf) by (by rewrite <- app_assoc).
         rewrite !rev_app_distr. cbn. by rewrite <- !app_assoc. }
    rewrite index_of_app by (by rewrite list_elem_of_In, <- in_rev, <- list_elem_of_In). cbn. f_equal.
    rewrite length_rev. unfold l. rewrite !length_app. cbn. rewrite length_app. cbn. lia. }
  rewrite Hi, Hj. destruct (Nat.leb_spec (length pre + S (length body)) (length pre)); [lia|].
  unfold l. rewrite skipn_app, skipn_all, Nat.sub_diag. cbn [app skipn].
  replace (S (length pre + S (length body)) - length pre)%nat with (S (length body + 1)) by lia.
  cbn [firstn]. rewrite firstn_app. replace (length body + 1 - length body)%nat with 1%nat by lia.
  rewrite firstn_all2 by lia. done.
Qed.

Lemma ranked_membership env text text' role ranked ranked' a :
  pool_ok env →
  _ranked_agents env text role [] false true None None None = Ok ranked →
  _ranked_agents env text' role [] false true None None None = Ok ranked' →
  a ∈ ranked → a ∈ ranked'.
Proof.
  intros [Hnd Hev] Hr Hr' Ha.
  destruct (ranked_agents_sound env text role [] false true None None ranked Hnd Hev Hr) as (Hp & _).
  destruct (ranked_agents_sound env text' role [] false true None None ranked' Hnd Hev Hr') as (Hp' & _).
  by rewrite Hp', <- Hp.
Qed.

Lemma eligible_any_text env text text' role ids ids' x :
  pool_ok env → eligible_for env text role = Ok ids → eligible_for env text' role = Ok ids' →
  x ∈ ids → x ∈ ids'.
Proof.
  intros Hp H H' Hx. unfold eligible_for in H, H'.
  destruct (_ranked_agents env text role [] false true None None None) as [r|] eqn:Hr; [|done].
  destruct (_ranked_agents env text' role [] false true None None None) as [r'|] eqn:Hr'; [|done].
  cbn in H, H'. injection H as <-. injection H' as <-.
  apply list_elem_of_fmap in Hx as (a & -> & Ha). apply list_elem_of_fmap. exists a. split; [done|].
  apply list_elem_of_In, filter_In in Ha as [Ha Hex]. apply list_elem_of_In, filter_In.
  split; [|exact Hex]. apply list_elem_of_In. apply list_elem_of_In in Ha.
  exact (ranked_membership env text text' role r r' a Hp Hr Hr' Ha).
Qed.

Lemma offers_eligible env task offers s :
  planner_offers env task = Ok offers → offered offers s →
  ∃ elig, eligible_for env task (step_role s) = Ok elig ∧ step_agent_id s ∈ elig ∧
    ∃ a, a ∈ re_agents env ∧ id a = step_agent_id s.
Proof.
  intros H (roles & Hin & Hrole). unfold planner_offers in H.
  apply bind_Ok_inv in H as (elig & Helig & [= <-]). apply list_elem_of_fmap in Hin as (a & Heq & Ha).
  injection Heq as Hid Hroles. subst roles. apply list_elem_of_fmap in Hrole as ([r es] & Hr & Hre).
  cbn in Hr. subst r. apply list_elem_of_In, filter_In in Hre as [Hre Hes]. cbn in Hes.
  apply map_res_Forall2 in Helig. apply list_elem_of_In, list_elem_of_lookup in Hre as [i Hi].
  destruct (Forall2_lookup_r _ _ _ _ _ Helig Hi) as (role & Hrl & Hf). cbn in Hf.
  destruct (eligible_for env task role) as [ids|] eqn:He; [|done]. cbn in Hf. injection Hf as -> ->.
  exists es. split; [done|]. rewrite Hid. split; [by apply in_strs_spec|]. exists a. split; [|done].
  apply list_elem_of_In, filter_In in Ha as [Ha _]. by apply list_elem_of_In.
Qed.

Lemma step_fields s :
  dict_get "id" (step_as_dict s) = Some (VInt (step_id s)) ∧
  dict_get "role" (step_as_dict s) = Some (VStr (step_role s)) ∧
  dict_get "subtask" (step_as_dict s) = Some (VStr (step_subtask s)) ∧
  dict_get "access" (step_as_dict s) = Some (VList (map VInt (step_access s))) ∧
  dict_get "agent_id" (step_as_dict s) = Some (VStr (step_agent_id s)).
Proof. done. Qed.

Lemma map_int_value l : map_res int_value (map VInt l) = Ok l.
Proof. induction l as [|x l IH]; cbn; [done|]. by rewrite IH. Qed.

Lemma sorted_ints_id l : StronglySorted Z.lt l → sorted_ints l = l.
Proof.
  intros Hs. unfold sorted_ints.
  assert (Hnd : NoDup l).
  { induction Hs as [|x l _ IH Hx]; constructor; [|done]. intros Hin. rewrite Forall_forall in Hx.
    specialize (Hx x Hin). lia. }
  assert (remove_dups l = l) as ->.
  { clear Hs. induction Hnd as [|x l Hx _ IH]; cbn; [done|]. destruct (decide_rel _ x l); [done|]. by rewrite IH. }
  apply py_sorted_id. clear Hnd. induction Hs as [|x l _ IH Hx]; constructor; [done|].
  rewrite Forall_forall in Hx |- *. intros y Hy. apply Z.leb_le. specialize (Hx y Hy). lia.
Qed.

Lemma find_unique env x :
  NoDup (ids (re_agents env)) → x ∈ re_agents env →
  _agent_matches_request_endpoint (re_urlparse env) (re_ctx env) x = true →
  known_agent env (id x) = Some x.
Proof.
  intros Hnd Hx Hm. unfold known_agent. set (l := rev _).
  assert (Hin : In x l) by (by unfold l; rewrite <- in_rev; apply filter_In; split; [apply list_elem_of_In|]).
  destruct (List.find _ l) as [y|] eqn:Hf.
  - apply List.find_some in Hf as [Hy Heq]. apply String.eqb_eq in Heq. f_equal.
    unfold l in Hy. rewrite <- in_rev in Hy. apply filter_In in Hy as [Hy _]. apply list_elem_of_In in Hy.
    apply list_elem_of_lookup in Hx as [i Hi]. apply list_elem_of_lookup in Hy as [j Hj].
    assert (i = j); [|congruence]. apply (NoDup_lookup _ _ _ (id x) Hnd).
    + unfold ids. by rewrite list_lookup_fmap, Hi.
    + unfold ids. rewrite list_lookup_fmap, Hj. cbn. by rewrite Heq.
  - pose proof (List.find_none _ _ Hf x Hin) as Hn. cbn in Hn. by rewrite String.eqb_refl in Hn.
Qed.

Lemma plan_normal steps : json_normal (plan_document steps) = true.
Proof.
  cbn. rewrite andb_true_r. apply forallb_Forall. apply Forall_fmap, Forall_true. intros s. cbn.
  rewrite andb_true_r. apply forallb_Forall. apply Forall_fmap, Forall_true. done.
Qed.

Section accept.
Context (json_loads : string → option pyval)
        (float_repr : float → string) (container_repr : pyval → string)
        (env : ranking_env) (policy : OrchestrationPolicy).

Lemma parse_step_document index s elig :
  pool_ok env → shape_ok index s → str_strip (step_subtask s) = step_subtask s →
  eligible_for env (step_subtask s) (step_role s) = Ok elig → step_agent_id s ∈ elig →
  parse_step float_repr container_repr env index (VDict (step_as_dict s)) = Ok s.
Proof.
  intros Hp (Hid & Hrole & Hsub & Hsorted & Hrange) Hstrip Helig Hin.
  destruct (eligible_may_play env _ _ _ _ Hp Helig Hin) as (a & Ha & Haid & Hd & Hex & Hc & Hz & Hm).
  assert (Hknown : known_agent env (step_agent_id s) = Some a).
  { rewrite <- Haid. apply find_unique; [apply Hp|done..]. }
  cbn [parse_step]. destruct (step_fields s) as (-> & -> & -> & -> & Hagent). unfold dget. rewrite Hagent.
  cbn [default from_option Datatypes.id int_value map_raise int_of mbind res_bind py_str].
  rewrite Hid, Z.eqb_refl, (proj2 (in_strs_spec _ _) Hrole), Hstrip, (proj2 (str_truthy_spec _) Hsub).
  cbn [negb tuple_of map_raise mbind res_bind]. rewrite map_int_value. cbn [mbind res_bind].
  rewrite sorted_ints_id by done. destruct (existsb _ (step_access s)) eqn:Hout.
  { apply existsb_exists in Hout as (v & Hv & Hb). apply list_elem_of_In in Hv.
    rewrite Forall_forall in Hrange. specialize (Hrange v Hv).
    rewrite orb_true_iff, Z.ltb_lt, Z.leb_le in Hb. lia. }
  cbn [assigned_agent]. rewrite Hknown, Helig. cbn [mbind res_bind]. unfold keeps_assignment.
  rewrite Hc, Hz, Haid, (proj2 (in_strs_spec _ _) Hin). cbn. rewrite <- Hid. by destruct s.
Qed.

Lemma parse_steps_documents steps : ∀ index,
  pool_ok env →
  (∀ i s, steps !! i = Some s → shape_ok (index + Z.of_nat i) s ∧
     str_strip (step_subtask s) = step_subtask s ∧
     ∃ elig, eligible_for env (step_subtask s) (step_role s) = Ok elig ∧ step_agent_id s ∈ elig) →
  parse_steps float_repr container_repr env index (map (λ s, VDict (step_as_dict s)) steps) = Ok steps.
Proof.
  induction steps as [|s steps IH]; intros index Hp Hall; [done|]. cbn [map parse_steps].
  destruct (Hall 0%nat s eq_refl) as (Hs & Hstrip & elig & He & Hin).
  replace (index + Z.of_nat 0) with index in Hs by lia.
  rewrite (parse_step_document index s elig Hp Hs Hstrip He Hin). cbn [mbind res_bind].
  rewrite IH; [done|done|]. intros i s' Hs'. replace (index + 1 + Z.of_nat i) with (index + Z.of_nat (S i)) by lia.
  by apply Hall.
Qed.

End accept.

(** ** A pool and a plan *)

Definition demo_policy : OrchestrationPolicy :=
  {| route_p95_seconds := float_of_Z 2; realtime_judge := true; verifier_required := true;
     workflow_planning := "generated"; max_workflow_steps := 6 |}.

Definition demo_step (i : Z) (role agent subtask : string) (access : list Z) : WorkflowStep :=
  {| step_id := i; step_role := role; step_agent_id := agent; step_subtask := subtask; step_access := access |}.

Definition demo_plan : list WorkflowStep :=
  [demo_step 0 "thinker" "plain_one" "split the task" [];
   demo_step 1 "worker" "coder_one" "write the code" [0];
   demo_step 2 "verifier" "plain_one" "check it" [0; 1];
   demo_step 3 "synthesizer" "coder_one" "answer" [1; 2]].

Definition demo_offers : list (string * list string) :=
  [("plain_one", PLAN_ROLES); ("coder_one", PLAN_ROLES)].

Definition demo_reply : string :=
  str_join "" ["Here it is: "; json_dumps (λ _, "") false (plan_document demo_plan); " Done."].

Abbreviation demo_parse :=
  (_parse_workflow_plan json_read (λ _, "") (λ _, "") (demo_env demo_pool) demo_policy).

Lemma demo_pool_ok : pool_ok (demo_env demo_pool).
Proof.
  split.
  - apply (bool_decide_unpack (NoDup (ids demo_pool))). vm_compute. exact I.
  - intros l _. split; [constructor|]. intros a Ha. by apply elem_of_nil in Ha.
Defined.

Lemma demo_shapes i s :
  demo_plan !! i = Some s →
  shape_ok (Z.of_nat i) s ∧ str_strip (step_subtask s) = step_subtask s ∧ offered demo_offers s ∧
  ∃ elig, eligible_for (demo_env demo_pool) (step_subtask s) (step_role s) = Ok elig.
Proof.
  intros Hs. do 4 (destruct i as [|i]; [injection Hs as <-; split;
    [split_and!; [done|apply in_strs_spec; reflexivity|done|repeat constructor; lia|repeat constructor; lia]|
     split; [vm_compute; reflexivity|split;
       [exists PLAN_ROLES; split; [apply list_elem_of_In; cbn; tauto|apply in_strs_spec; reflexivity]
       |eexists; vm_compute; reflexivity]]]|]). done.
Defined.


Lemma accepted_plan_well_formed_witness :
  ∃ steps, demo_parse demo_reply = Ok steps ∧ plan_ok (demo_env demo_pool) demo_policy steps.
Proof.
  exists demo_plan. assert (H : demo_parse demo_reply = Ok demo_plan) by (vm_compute; reflexivity).
  split; [exact H|]. exact (accepted_plan_well_formed json_read _ _ _ _ demo_reply demo_plan demo_pool_ok H).
Defined.

(** A forward access, a verdict as the last step and an unknown role are refused. *)
Example bad_plans_refused :
  map (λ steps, demo_parse (json_dumps (λ _, "") false (plan_document steps)))
    [[demo_step 0 "thinker" "plain_one" "a" [1]; demo_step 1 "worker" "coder_one" "b" []];
     [demo_step 0 "worker" "coder_one" "a" []; demo_step 1 "verifier" "plain_one" "b" [0]];
     [demo_step 0 "critic" "plain_one" "a" []; demo_step 1 "worker" "coder_one" "b" []]] =
  [Raise (PlanValueError "access may reference only earlier steps");
   Raise (PlanValueError "final step must produce the answer");
   Raise (PlanValueError "unknown role")].
Proof. vm_compute. reflexivity. Qed.
