(* ===== verification/Budget.v ===== *)
(** orchestrator.py: the spend budget. How many output tokens a run accounts for,
    the meter that every stored run updates, the checks that read it, and the
    content-free copy of a run kept under the zero-data-retention policy.

    Costs are exact: a price is the rational value of [Decimal(str(price))], and
    [Decimal] arithmetic is exact as long as a product has at most 28 digits. *)

From Stdlib Require Import Ascii String QArith Qcanon.
From S2P Require Import Prelude PyString PyCollections PyFloat PyValue Agents.
Open Scope Z_scope.

(** ** Runs *)

Abbreviation dict := (list (pyval * pyval)).

(** A row of a run's trace: the fields accounting and redaction read. An absent
    key is [VNone] or [None]; an absent agent id, only ever used under [or], is the
    empty string. *)
Record trace_row := {
  row_agent_id : string;
  row_served_agent_id : string;
  row_model_name : option string;
  row_subtask : string;
  row_usage : option dict;
  row_output : pyval;
}.

Record run_verification := {
  rv_accepted : bool;
  rv_reason : string;
  rv_verifier_output : pyval;
  rv_judge_agent_id : option string;
  rv_judge_model : option string;
  rv_judge_usage : option dict;
  rv_judge_output_text : pyval;
}.

Record workflow_run := {
  wr_id : string;
  wr_request_id : option string;
  wr_prompt_text : pyval;
  wr_answer : pyval;
  wr_trace : list trace_row;
  wr_tool_calls : pyval;
  wr_verification : option run_verification;
}.

(** [a or b]. *)
Definition or_str (a b : string) : string := if str_truthy a then a else b.

(** [{agent.id: agent.model for agent in candidates}]: the last one wins. *)
Definition model_by_agent (candidates : list ModelAgent) (agent_id : string) : string :=
  match List.find (λ a, String.eqb (id a) agent_id) (rev candidates) with
  | Some a => model a
  | None => "unknown"
  end.

Definition row_model (candidates : list ModelAgent) (r : trace_row) : string :=
  or_str (default "" (row_model_name r))
    (model_by_agent candidates (or_str (row_served_agent_id r) (row_agent_id r))).

Definition with_model_name (candidates : list ModelAgent) (r : trace_row) : trace_row :=
  {| row_agent_id := row_agent_id r; row_served_agent_id := row_served_agent_id r;
     row_model_name := Some (row_model candidates r); row_subtask := row_subtask r;
     row_usage := row_usage r; row_output := row_output r |}.

(** A count of [usage] under a key: an [int], not a [bool]. *)
Definition reported_count (key : string) (usage : dict) : option Z :=
  match dget key usage with VInt n => if 0 <=? n then Some n else None | _ => None end.

Definition reported_tokens (usage : option dict) : option Z :=
  match usage with
  | Some u => match reported_count "completion_tokens" u with
              | Some n => Some n
              | None => reported_count "output_tokens" u
              end
  | None => None
  end.

Section accounting.
Context (count_text : string → string → option Z).     (* the configured token counter *)

Definition _step_output_tokens (usage : option dict) (output : pyval) (model : string)
    : option Z * string :=
  match reported_tokens usage with
  | Some n => (Some n, "reported")
  | None =>
      match output with
      | VStr s => match count_text s model with
                  | Some n => (Some n, "tokenizer")
                  | None => (None, "unavailable")
                  end
      | _ => (None, "unavailable")
      end
  end.

Definition _step_output_token_count (usage : option dict) (output : pyval) (model : string) : option Z :=
  (_step_output_tokens usage output model).1.

Definition add_tokens (model : string) (n : Z) (acc : gmap string Z) : gmap string Z :=
  <[model := default 0 (acc !! model) + n]> acc.

Fixpoint add_rows (candidates : list ModelAgent) (rows : list trace_row) (acc : gmap string Z)
    : option (gmap string Z) :=
  match rows with
  | [] => Some acc
  | r :: rows =>
      let model := row_model candidates r in
      match _step_output_token_count (row_usage r) (row_output r) model with
      | None => None
      | Some n => add_rows candidates rows (add_tokens model n acc)
      end
  end.

(** [verification.get("judge_output_text", "")]. *)
Definition judge_output (v : run_verification) : pyval :=
  match rv_judge_output_text v with VNone => VStr "" | o => o end.

Definition judge_model (candidates : list ModelAgent) (judge_agent_id : string) (v : run_verification)
    : string :=
  or_str (default "" (rv_judge_model v)) (model_by_agent candidates judge_agent_id).

Definition add_judge (candidates : list ModelAgent) (verification : option run_verification)
    (acc : gmap string Z) : option (gmap string Z) :=
  match verification with
  | Some v =>
      match rv_judge_agent_id v with
      | Some j =>
          let model := judge_model candidates j v in
          (λ n, add_tokens model n acc) <$>
            _step_output_token_count (rv_judge_usage v) (judge_output v) model
      | None => Some acc
      end
  | None => Some acc
  end.

(** The tokens a run accounts for per model; [None] when they cannot be measured. *)
Definition _run_budget_output_by_model (candidates : list ModelAgent) (r : workflow_run)
    : option (gmap string Z) :=
  add_rows candidates (wr_trace r) ∅ ≫= add_judge candidates (wr_verification r).

(** ** Redaction *)

Context (sha256_hex : string → string).

Definition _zdr_content_placeholder (value : string) : pyval :=
  VDict [(VStr "zdr_redacted", VBool true); (VStr "sha256", VStr (sha256_hex value));
         (VStr "byte_size", VInt (utf8_len value))].

Definition redact_text_field (v : pyval) : pyval :=
  match v with VStr s => _zdr_content_placeholder s | _ => v end.

Definition redact_call (call : pyval) : pyval :=
  match call with
  | VDict d =>
      match dget "function" d with
      | VDict f =>
          match dget "arguments" f with
          | VStr s => VDict (dict_set "function" (VDict (dict_set "arguments" (_zdr_content_placeholder s) f)) d)
          | _ => call
          end
      | _ => call
      end
  | _ => call
  end.

Definition _zdr_redact_tool_calls (tool_calls : pyval) : pyval :=
  match tool_calls with VList calls => VList (map redact_call calls) | _ => tool_calls end.

(** A text without a reported count is counted before it is dropped. *)
Definition keep_count (usage : option dict) (output model : string) : option dict :=
  match reported_tokens usage with
  | Some _ => usage
  | None =>
      match count_text output model with
      | Some n => Some (dict_set "completion_tokens" (VInt n) (default [] usage))
      | None => usage
      end
  end.

Definition redact_row (r : trace_row) : trace_row :=
  match row_output r with
  | VStr s =>
      {| row_agent_id := row_agent_id r; row_served_agent_id := row_served_agent_id r;
         row_model_name := row_model_name r; row_subtask := row_subtask r;
         row_usage := keep_count (row_usage r) s (default "unknown" (row_model_name r));
         row_output := _zdr_content_placeholder s |}
  | _ => r
  end.

Definition redact_verification (v : run_verification) : run_verification :=
  let usage := match rv_judge_output_text v with
               | VStr s => keep_count (rv_judge_usage v) s (default "unknown" (rv_judge_model v))
               | _ => rv_judge_usage v
               end in
  {| rv_accepted := rv_accepted v; rv_reason := rv_reason v;
     rv_verifier_output := redact_text_field (rv_verifier_output v);
     rv_judge_agent_id := rv_judge_agent_id v; rv_judge_model := rv_judge_model v;
     rv_judge_usage := usage; rv_judge_output_text := redact_text_field (rv_judge_output_text v) |}.

Definition _zdr_redact_workflow_record (r : workflow_run) : workflow_run :=
  {| wr_id := wr_id r; wr_request_id := wr_request_id r;
     wr_prompt_text := redact_text_field (wr_prompt_text r);
     wr_answer := redact_text_field (wr_answer r); wr_trace := map redact_row (wr_trace r);
     wr_tool_calls := _zdr_redact_tool_calls (wr_tool_calls r);
     wr_verification := redact_verification <$> wr_verification r |}.
End accounting.

(** ** The meter *)

Record budget_config := {
  bc_prices : gmap string float;                (* price_per_million *)
  bc_max_output_tokens : option Z;
  bc_max_cost_usd : option float;
}.

Record budget_meter := {
  bm_runs : gmap string workflow_run;           (* _workflow_runs *)
  bm_model_tokens : gmap string Z;              (* _budget_model_output_tokens *)
  bm_tokens : Z;                                (* _budget_spent_output_tokens *)
  bm_cost : Qc;                                 (* _budget_spent_cost_usd *)
  bm_unavailable : gset string;                 (* _budget_unavailable_run_ids *)
}.

Definition empty_meter : budget_meter :=
  {| bm_runs := ∅; bm_model_tokens := ∅; bm_tokens := 0; bm_cost := 0%Qc; bm_unavailable := ∅ |}.

Section meter.
Context (count_text : string → string → option Z) (sha256_hex : string → string)
        (decimal : float → Qc)                  (* Decimal(str(price)) *)
        (cfg : budget_config).

Definition _cost_usd_decimal (output_tokens : Z) (price : float) : Qc :=
  (Q2Qc (inject_Z output_tokens) * decimal price / Q2Qc (inject_Z 1000000))%Qc.

(** Whether a run's measurement is enough for the budget. *)
Definition available_for_budget (output : option (gmap string Z)) : bool :=
  match output with
  | None => false
  | Some out =>
      match bc_max_cost_usd cfg with
      | None => true
      | Some _ => forallb (λ m, bool_decide (is_Some (bc_prices cfg !! m))) (map_to_list out).*1
      end
  end.

(** One model's tokens, added or taken back. *)
Definition meter_model (sign : Z) (m : budget_meter) (entry : string * Z) : budget_meter :=
  let '(model, output_tokens) := entry in
  let before := default 0 (bm_model_tokens m !! model) in
  let after := before + sign * output_tokens in
  {| bm_runs := bm_runs m;
     bm_model_tokens := if after =? 0 then delete model (bm_model_tokens m)
                        else <[model := after]> (bm_model_tokens m);
     bm_tokens := bm_tokens m + sign * output_tokens;
     bm_cost := match bc_prices cfg !! model with
                | Some price => (bm_cost m + (_cost_usd_decimal after price - _cost_usd_decimal before price))%Qc
                | None => bm_cost m
                end;
     bm_unavailable := bm_unavailable m |}.

(** One run, taken out of the meter ([sign = -1]) or put in. *)
Definition meter_run (candidates : list ModelAgent) (sign : Z) (r : workflow_run) (m : budget_meter)
    : budget_meter :=
  let output := _run_budget_output_by_model count_text candidates r in
  let unavailable :=
    if sign <? 0 then bm_unavailable m ∖ {[ wr_id r ]}
    else if available_for_budget output then bm_unavailable m else {[ wr_id r ]} ∪ bm_unavailable m in
  fold_left (meter_model sign) (map_to_list (default ∅ output))
    {| bm_runs := bm_runs m; bm_model_tokens := bm_model_tokens m; bm_tokens := bm_tokens m;
       bm_cost := bm_cost m; bm_unavailable := unavailable |}.

Definition with_run (r : workflow_run) (m : budget_meter) : budget_meter :=
  {| bm_runs := <[wr_id r := r]> (bm_runs m); bm_model_tokens := bm_model_tokens m;
     bm_tokens := bm_tokens m; bm_cost := bm_cost m; bm_unavailable := bm_unavailable m |}.

(** The record after model names and the originating request are bound. *)
Definition bind_record (candidates : list ModelAgent) (previous : option workflow_run) (restored : bool)
    (current_request : option string) (r : workflow_run) : workflow_run :=
  {| wr_id := wr_id r;
     wr_request_id := match previous with
                      | Some p => wr_request_id p
                      | None => if restored then wr_request_id r else current_request
                      end;
     wr_prompt_text := wr_prompt_text r; wr_answer := wr_answer r;
     wr_trace := map (with_model_name candidates) (wr_trace r); wr_tool_calls := wr_tool_calls r;
     wr_verification := wr_verification r |}.

(** [_replace_workflow_run]. *)
Definition _replace_workflow_run (candidates : list ModelAgent) (zdr_only restored : bool)
    (current_request : option string) (r : workflow_run) (m : budget_meter) : budget_meter :=
  let previous := bm_runs m !! wr_id r in
  let record := bind_record candidates previous restored current_request r in
  let m := match previous with Some p => meter_run candidates (-1) p m | None => m end in
  let m := meter_run candidates 1 record m in
  with_run (if zdr_only then _zdr_redact_workflow_record count_text sha256_hex record else record) m.

(** [_rebuild_budget_meter]. *)
Definition add_output (acc out : gmap string Z) : gmap string Z :=
  fold_left (λ acc kv, add_tokens kv.1 kv.2 acc) (map_to_list out) acc.

Definition total_cost (tokens : gmap string Z) : Qc :=
  fold_left (λ acc kv, match bc_prices cfg !! kv.1 with
                       | Some price => (acc + _cost_usd_decimal kv.2 price)%Qc
                       | None => acc
                       end) (map_to_list tokens) 0%Qc.

Definition _rebuild_budget_meter (candidates : list ModelAgent) (m : budget_meter) : budget_meter :=
  let runs := (map_to_list (bm_runs m)).*2 in
  let output r := _run_budget_output_by_model count_text candidates r in
  let tokens := fold_left (λ acc r, add_output acc (default ∅ (output r))) runs ∅ in
  {| bm_runs := bm_runs m; bm_model_tokens := tokens;
     bm_tokens := fold_left (λ n kv, n + kv.2) (map_to_list tokens) 0;
     bm_cost := total_cost tokens;
     bm_unavailable :=
       list_to_set (map wr_id (List.filter (λ r, negb (available_for_budget (output r))) runs)) |}.
End meter.

(** ** The meter is what a rebuild would compute *)

(** Rows and verdicts as the gateway stores them: every row names its model, and a
    judge call names the judge's. *)
Definition named (r : workflow_run) : Prop :=
  Forall (λ row, str_truthy (default "" (row_model_name row)) = true) (wr_trace r) ∧
  ∀ v, wr_verification r = Some v → is_Some (rv_judge_agent_id v) →
    str_truthy (default "" (rv_judge_model v)) = true.

Definition models_named (candidates : list ModelAgent) : Prop :=
  Forall (λ a, str_truthy (model a) = true) candidates.

Section rebuild.
Context (count_text : string → string → option Z) (sha256_hex : string → string).

Lemma named_row_model c c' row :
  str_truthy (default "" (row_model_name row)) = true → row_model c row = row_model c' row.
Proof. intros H. unfold row_model, or_str. by rewrite H. Qed.

Lemma named_output c c' r :
  named r → _run_budget_output_by_model count_text c r = _run_budget_output_by_model count_text c' r.
Proof.
  intros [Hrows Hv]. unfold _run_budget_output_by_model.
  assert (Hadd : ∀ acc, add_rows count_text c (wr_trace r) acc = add_rows count_text c' (wr_trace r) acc).
  { induction Hrows as [|row rows Hrow _ IH]; intros acc; cbn; [done|].
    rewrite (named_row_model c c' row Hrow). case_match; [apply IH|done]. }
  rewrite Hadd. destruct (add_rows count_text c' (wr_trace r) ∅) as [acc|]; [|done]. cbn.
  unfold add_judge. destruct (wr_verification r) as [v|]; [|done].
  destruct (rv_judge_agent_id v) as [j|] eqn:Hj; [|done].
  assert (judge_model c j v = judge_model c' j v) as ->; [|done].
  unfold judge_model, or_str. by rewrite (Hv v eq_refl ltac:(by eexists)).
Qed.

Lemma bind_record_named candidates previous restored request r :
  models_named candidates →
  (∀ v, wr_verification r = Some v → is_Some (rv_judge_agent_id v) →
     str_truthy (default "" (rv_judge_model v)) = true) →
  named (bind_record candidates previous restored request r).
Proof.
  intros Hc Hv. split; [|exact Hv]. cbn. apply Forall_fmap, Forall_true. intros row. cbn.
  unfold row_model, or_str at 1. destruct (str_truthy (default "" (row_model_name row))) eqn:Hm; [done|].
  unfold model_by_agent. destruct (List.find _ (rev candidates)) as [a|] eqn:Hf; [|done].
  apply List.find_some in Hf as [Ha _]. rewrite <- in_rev in Ha. apply list_elem_of_In in Ha.
  unfold models_named in Hc. rewrite Forall_forall in Hc. by apply Hc.
Qed.

(** Counting a text before it is dropped keeps what it accounts for. *)
Lemma keep_count_tokens usage s m m' :
  (∀ s m n, count_text s m = Some n → 0 <= n) →
  str_truthy (default "" m') = true → m = default "" m' →
  _step_output_token_count count_text
    (keep_count count_text usage s (default "unknown" m'))
    (_zdr_content_placeholder sha256_hex s) m = _step_output_token_count count_text usage (VStr s) m.
Proof.
  intros Hpos Ht ->. destruct m' as [m'|]; [|done]. cbn [default from_option Datatypes.id].
  unfold keep_count, _step_output_token_count, _step_output_tokens.
  destruct (reported_tokens usage) as [n|] eqn:Hr; [by rewrite Hr|].
  destruct (count_text s m') as [n|] eqn:Hn; [|by rewrite Hr].
  assert (reported_tokens (Some (dict_set "completion_tokens" (VInt n) (default [] usage))) = Some n) as ->;
    [|done].
  cbn. unfold reported_count, dget. rewrite dict_get_set, decide_True by done. cbn.
  apply Hpos in Hn. by rewrite (proj2 (Z.leb_le 0 n) Hn).
Qed.

Lemma redact_row_tokens c row :
  (∀ s m n, count_text s m = Some n → 0 <= n) →
  str_truthy (default "" (row_model_name row)) = true →
  row_model c (redact_row count_text sha256_hex row) = row_model c row ∧
  _step_output_token_count count_text (row_usage (redact_row count_text sha256_hex row))
    (row_output (redact_row count_text sha256_hex row)) (row_model c row) =
  _step_output_token_count count_text (row_usage row) (row_output row) (row_model c row).
Proof.
  intros Hpos Hm. unfold redact_row. destruct (row_output row) as [| | | |s|l|l|d] eqn:Ho; try by rewrite Ho.
  split; [done|]. cbn [row_usage row_output]. apply keep_count_tokens; [done|done|].
  unfold row_model, or_str. by rewrite Hm.
Qed.

(** The stored copy of a run accounts for the same tokens. *)
Lemma redacted_output c r :
  (∀ s m n, count_text s m = Some n → 0 <= n) → named r →
  _run_budget_output_by_model count_text c (_zdr_redact_workflow_record count_text sha256_hex r) =
    _run_budget_output_by_model count_text c r ∧
  named (_zdr_redact_workflow_record count_text sha256_hex r).
Proof.
  intros Hpos [Hrows Hv]. split.
  - unfold _run_budget_output_by_model. cbn [wr_trace wr_verification _zdr_redact_workflow_record].
    assert (Hadd : ∀ acc, add_rows count_text c (map (redact_row count_text sha256_hex) (wr_trace r)) acc =
                          add_rows count_text c (wr_trace r) acc).
    { induction Hrows as [|row rows Hrow _ IH]; intros acc; cbn; [done|].
      destruct (redact_row_tokens c row Hpos Hrow) as [-> ->]. case_match; [apply IH|done]. }
    rewrite Hadd. destruct (add_rows count_text c (wr_trace r) ∅) as [acc|]; [|done]. cbn.
    unfold add_judge. destruct (wr_verification r) as [v|]; [|done]. cbn.
    destruct (rv_judge_agent_id v) as [j|] eqn:Hj; [|done]. specialize (Hv v eq_refl ltac:(by eexists)).
    unfold judge_model at 1. cbn [rv_judge_model redact_verification]. fold (judge_model c j v).
    unfold judge_output. cbn [rv_judge_output_text redact_verification rv_judge_usage].
    f_equal. destruct (rv_judge_output_text v) as [| | | |s|l|l|d] eqn:Ho; cbn [redact_text_field]; try done.
    apply keep_count_tokens; [done|done|]. unfold judge_model, or_str. by rewrite Hv.
  - split.
    + cbn. apply Forall_fmap. eapply Forall_impl; [exact Hrows|]. intros row Hrow. cbn.
      unfold redact_row. by destruct (row_output row).
    + intros v. cbn. destruct (wr_verification r) as [v0|]; [|done]. cbn. intros [= <-]. cbn. by apply Hv.
Qed.
End rebuild.

#[local] Instance Qcplus_assoc' : Assoc (=) Qcplus := Qcplus_assoc.
#[local] Instance Qcplus_comm' : Comm (=) Qcplus := Qcplus_comm.
#[local] Instance Qcplus_left_id' : LeftId (=) 0%Qc Qcplus := Qcplus_0_l.

Section totals.
Context (count_text : string → string → option Z) (sha256_hex : string → string)
        (decimal : float → Qc) (cfg : budget_config).

Abbreviation cost_of := (_cost_usd_decimal decimal).

Definition model_cost (model : string) (n : Z) : Qc :=
  match bc_prices cfg !! model with Some price => cost_of n price | None => 0%Qc end.

Definition sum_model_tokens (g : gmap string Z) : Z := total Z.add 0 (λ _ n, n) g.
Definition sum_cost (g : gmap string Z) : Qc := total Qcplus 0%Qc model_cost g.

Lemma model_cost_0 model : model_cost model 0 = 0%Qc.
Proof.
  unfold model_cost, _cost_usd_decimal. destruct (bc_prices cfg !! model); [|done].
  change (Q2Qc (inject_Z 0)) with 0%Qc. unfold Qcdiv. ring.
Qed.

Lemma total_cost_sum g : total_cost decimal cfg g = sum_cost g.
Proof.
  unfold total_cost, sum_cost, total.
  rewrite <- (Qcplus_0_l (sum_list _ _ _ _)). rewrite <- (sum_list_left Qcplus 0%Qc model_cost).
  assert (Hstep : ∀ acc (kv : string * Z),
    match bc_prices cfg !! kv.1 with
    | Some price => (acc + cost_of kv.2 price)%Qc
    | None => acc
    end = (acc + model_cost kv.1 kv.2)%Qc).
  { intros acc kv. unfold model_cost. destruct (bc_prices cfg !! kv.1); [done|]. ring. }
  generalize (map_to_list g) 0%Qc. intros l. induction l as [|kv l IH]; intros a; cbn; [done|].
  by rewrite Hstep, IH.
Qed.

(** [g] with the tokens of one model set to [n]; an entry of zero may be kept or
    dropped. *)
Definition sets_model (g : gmap string Z) (model : string) (n : Z) (g' : gmap string Z) : Prop :=
  g' = <[model := n]> g ∨ (n = 0 ∧ g' = delete model g).

Lemma sets_model_lookup g model n g' k :
  sets_model g model n g' → default 0 (g' !! k) = if decide (k = model) then n else default 0 (g !! k).
Proof. intros [->|[-> ->]]; case_decide; subst; by simplify_map_eq. Qed.

Lemma total_sets {G} (op : G → G → G) (e : G) `{!Assoc (=) op} `{!Comm (=) op} `{!LeftId (=) e op}
    (f : string → Z → G) g model n g' :
  (∀ k, f k 0 = e) → sets_model g model n g' →
  total op e f g' = op (f model n) (total op e f (delete model g)) ∧
  total op e f g = op (f model (default 0 (g !! model))) (total op e f (delete model g)).
Proof.
  intros Hz Hset. split.
  - destruct Hset as [->|[-> ->]]; [by apply (total_insert op e)|]. by rewrite Hz, (left_id e op).
  - destruct (g !! model) as [b|] eqn:Hb; [by apply (total_lookup op e)|].
    cbn. rewrite Hz, (left_id e op). by rewrite delete_id.
Qed.

Lemma sums_set g model n g' :
  sets_model g model n g' →
  sum_model_tokens g' = sum_model_tokens g + (n - default 0 (g !! model)) ∧
  sum_cost g' = (sum_cost g + (model_cost model n - model_cost model (default 0%Z (g !! model))))%Qc.
Proof.
  intros Hset. unfold sum_model_tokens, sum_cost.
  destruct (total_sets Z.add 0 (λ _ n, n) g model n g' (λ _, eq_refl) Hset) as [-> ->].
  destruct (total_sets Qcplus 0%Qc model_cost g model n g' model_cost_0 Hset) as [-> ->].
  split; [lia|ring].
Qed.

(** Maps that agree up to entries of zero have the same sums. *)
Definition agree (g g' : gmap string Z) : Prop := ∀ k, default 0 (g !! k) = default 0 (g' !! k).

Lemma agree_total {G} (op : G → G → G) (e : G) `{!Assoc (=) op} `{!Comm (=) op} `{!LeftId (=) e op}
    (f : string → Z → G) g g' :
  (∀ k, f k 0 = e) → agree g g' → total op e f g = total op e f g'.
Proof.
  intros Hz Hag.
  assert (Heq : filter (λ kv : string * Z, kv.2 ≠ 0) g = filter (λ kv : string * Z, kv.2 ≠ 0) g').
  { apply map_eq. intros k. specialize (Hag k). apply option_eq. intros n.
    rewrite !map_lookup_filter_Some. cbn. split; intros [Hk Hn]; split; try done;
      rewrite Hk in Hag; cbn in Hag; [destruct (g' !! k)|destruct (g !! k)]; cbn in Hag; congruence. }
  rewrite <- (total_filter op e f (λ kv, kv.2 ≠ 0) g), <- (total_filter op e f (λ kv, kv.2 ≠ 0) g'); [by rewrite Heq| |].
  - intros k a _ Hn. cbn in Hn. destruct (decide (a = 0)) as [->|]; [apply Hz|done].
  - intros k a _ Hn. cbn in Hn. destruct (decide (a = 0)) as [->|]; [apply Hz|done].
Qed.

Lemma agree_sums g g' : agree g g' → sum_model_tokens g = sum_model_tokens g' ∧ sum_cost g = sum_cost g'.
Proof. intros H. split; [by apply (agree_total Z.add 0)|by apply (agree_total Qcplus 0%Qc); [apply model_cost_0|]]. Qed.

(** *** The two loops *)

Record counts_ok (m : budget_meter) : Prop := {
  co_tokens : bm_tokens m = sum_model_tokens (bm_model_tokens m);
  co_cost : bm_cost m = sum_cost (bm_model_tokens m);
}.

Lemma meter_model_ok sign m model n :
  counts_ok m →
  let m' := meter_model decimal cfg sign m (model, n) in
  counts_ok m' ∧ bm_runs m' = bm_runs m ∧ bm_unavailable m' = bm_unavailable m ∧
  ∀ k, default 0 (bm_model_tokens m' !! k) =
       default 0 (bm_model_tokens m !! k) + (if decide (k = model) then sign * n else 0).
Proof.
  intros [Ht Hc]. cbn zeta. unfold meter_model. set (b := default 0 (bm_model_tokens m !! model)).
  set (g' := if b + sign * n =? 0 then _ else _).
  assert (Hset : sets_model (bm_model_tokens m) model (b + sign * n) g').
  { unfold g'. destruct (Z.eqb_spec (b + sign * n) 0); [by right|by left]. }
  destruct (sums_set _ _ _ _ Hset) as [Hst Hsc]. fold b in Hst, Hsc. split; [|split_and!; [done..|]].
  - split; cbn; [rewrite Hst, Ht; lia|]. rewrite Hsc, Hc. unfold model_cost.
    destruct (bc_prices cfg !! model); [done|]. ring.
  - intros k. cbn. rewrite (sets_model_lookup _ _ _ _ k Hset). case_decide; [subst k|]; lia.
Qed.

Lemma meter_models_ok sign l : ∀ m,
  NoDup l.*1 → counts_ok m →
  let m' := fold_left (meter_model decimal cfg sign) l m in
  counts_ok m' ∧ bm_runs m' = bm_runs m ∧ bm_unavailable m' = bm_unavailable m ∧
  ∀ k, default 0 (bm_model_tokens m' !! k) =
       default 0 (bm_model_tokens m !! k) + sign * default 0 ((list_to_map l : gmap string Z) !! k).
Proof.
  induction l as [|[model n] l IH]; intros m Hnd Hok; cbn zeta; cbn [fold_left].
  { split_and!; [done..|]. intros k. cbn. rewrite lookup_empty. cbn. lia. }
  cbn in Hnd. apply NoDup_cons in Hnd as [Hnin Hnd].
  destruct (meter_model_ok sign m model n Hok) as (Hok' & Hr & Hu & Hk).
  destruct (IH _ Hnd Hok') as (Hok2 & Hr2 & Hu2 & Hk2). split_and!; [done|congruence|congruence|].
  intros k. rewrite Hk2, Hk. cbn. case_decide as Heq.
  - subst k. rewrite lookup_insert_eq. rewrite (not_elem_of_list_to_map_1 l model Hnin). cbn. lia.
  - rewrite lookup_insert_ne by done. lia.
Qed.

Definition outputs (r : workflow_run) : gmap string Z :=
  default ∅ (_run_budget_output_by_model count_text [] r).

Lemma meter_run_ok candidates sign r m :
  named r → counts_ok m →
  let m' := meter_run count_text decimal cfg candidates sign r m in
  counts_ok m' ∧ bm_runs m' = bm_runs m ∧
  bm_unavailable m' =
    (if sign <? 0 then bm_unavailable m ∖ {[ wr_id r ]}
     else if available_for_budget cfg (_run_budget_output_by_model count_text [] r) then bm_unavailable m
     else {[ wr_id r ]} ∪ bm_unavailable m) ∧
  ∀ k, default 0 (bm_model_tokens m' !! k) =
       default 0 (bm_model_tokens m !! k) + sign * default 0 (outputs r !! k).
Proof.
  intros Hn [Ht Hc]. cbn zeta. unfold meter_run. rewrite (named_output count_text candidates [] r Hn).
  fold (outputs r). set (m1 := {| bm_runs := _ |}).
  destruct (meter_models_ok sign (map_to_list (outputs r)) m1) as (Hok & Hr & Hu & Hk);
    [apply NoDup_fst_map_to_list|by split|].
  split_and!; [done|done|done|]. intros k. by rewrite Hk, list_to_map_to_list.
Qed.
End totals.

Section equivalence.
Context (count_text : string → string → option Z) (sha256_hex : string → string)
        (decimal : float → Qc) (cfg : budget_config).
Hypothesis count_nonneg : ∀ s m n, count_text s m = Some n → 0 <= n.

Abbreviation output := (_run_budget_output_by_model count_text []).
Abbreviation outs := (outputs count_text).
Abbreviation replace_run := (_replace_workflow_run count_text sha256_hex decimal cfg).

(** The tokens the stored runs account for, per model. *)
Definition model_total (runs : gmap string workflow_run) (model : string) : Z :=
  total Z.add 0 (λ _ r, default 0 (outs r !! model)) runs.

Record meter_ok (m : budget_meter) : Prop := {
  mo_runs k r : bm_runs m !! k = Some r → wr_id r = k ∧ named r;
  mo_counts : counts_ok decimal cfg m;
  mo_models model : default 0 (bm_model_tokens m !! model) = model_total (bm_runs m) model;
  mo_unavailable k :
    k ∈ bm_unavailable m ↔ ∃ r, bm_runs m !! k = Some r ∧ available_for_budget cfg (output r) = false;
}.

Lemma empty_meter_ok : meter_ok empty_meter.
Proof.
  split; [done|by split|done|]. intros k. cbn. split; [set_solver|]. by intros (r & Hr & _).
Qed.

Lemma model_total_insert runs k r model :
  model_total (<[k := r]> runs) model =
    default 0 (outs r !! model) + model_total runs model -
    from_option (λ p, default 0 (outs p !! model)) 0 (runs !! k).
Proof.
  unfold model_total. rewrite (total_insert Z.add 0). destruct (runs !! k) as [p|] eqn:Hp; cbn.
  - rewrite (total_lookup Z.add 0 _ runs k p Hp). lia.
  - rewrite delete_id by done. lia.
Qed.

(** What the gateway stores for a record. *)
Definition stored_run (zdr_only : bool) (record : workflow_run) : workflow_run :=
  if zdr_only then _zdr_redact_workflow_record count_text sha256_hex record else record.

Lemma stored_run_ok zdr_only record :
  named record → output (stored_run zdr_only record) = output record ∧ named (stored_run zdr_only record) ∧
  wr_id (stored_run zdr_only record) = wr_id record.
Proof. intros Hn. destruct zdr_only; [|done]. cbn. by destruct (redacted_output count_text sha256_hex [] record count_nonneg Hn). Qed.

(** A record as its maker hands it in. *)
Definition judged_by_name (r : workflow_run) : Prop :=
  ∀ v, wr_verification r = Some v → is_Some (rv_judge_agent_id v) →
    str_truthy (default "" (rv_judge_model v)) = true.

Lemma replace_ok candidates zdr_only restored request r m :
  models_named candidates → judged_by_name r → meter_ok m →
  meter_ok (replace_run candidates zdr_only restored request r m).
Proof.
  intros Hc Hj Hm. unfold _replace_workflow_run. set (previous := bm_runs m !! wr_id r).
  set (record := bind_record candidates previous restored request r).
  assert (Hrec : named record) by (by apply bind_record_named).
  fold (stored_run zdr_only record).
  destruct (stored_run_ok zdr_only record Hrec) as (Hout & Hnamed & Hid).
  set (m1 := match previous with Some p => meter_run count_text decimal cfg candidates (-1) p m | None => m end).
  assert (Hm1 : counts_ok decimal cfg m1 ∧ bm_runs m1 = bm_runs m ∧
    (∀ k, k ∈ bm_unavailable m1 ↔ k ∈ bm_unavailable m ∧ k ≠ wr_id r) ∧
    ∀ k, default 0 (bm_model_tokens m1 !! k) =
         default 0 (bm_model_tokens m !! k) - from_option (λ p, default 0 (outs p !! k)) 0 previous).
  { unfold m1. destruct previous as [p|] eqn:Hp; unfold previous in Hp.
    - destruct (mo_runs m Hm _ _ Hp) as [Hpid Hpn].
      destruct (meter_run_ok count_text decimal cfg candidates (-1) p m Hpn (mo_counts m Hm)) as (H1 & H2 & H3 & H4).
      split_and!; [done|done| |].
      + intros k. rewrite H3. cbn. rewrite Hpid. set_solver.
      + intros k. rewrite H4. cbn. lia.
    - split_and!; [apply Hm|done| |].
      + intros k. split; [|by intros [? _]]. intros Hk. split; [done|]. intros ->.
        apply (mo_unavailable m Hm) in Hk as (x & Hx & _). congruence.
      + intros k. cbn. lia. }
  destruct Hm1 as (Hc1 & Hr1 & Hu1 & Ht1).
  destruct (meter_run_ok count_text decimal cfg candidates 1 record m1 Hrec Hc1) as (Hc2 & Hr2 & Hu2 & Ht2).
  set (m2 := meter_run count_text decimal cfg candidates 1 record m1) in *.
  assert (Hwr : wr_id record = wr_id r) by done.
  split; cbn [bm_runs bm_model_tokens bm_unavailable with_run].
  - rewrite Hid, Hwr, Hr2, Hr1. intros k x. rewrite lookup_insert_Some. intros [[<- <-]|[Hne Hx]].
    + by rewrite Hid.
    + by apply (mo_runs m Hm).
  - destruct Hc2. by split.
  - intros model. rewrite Hid, Hwr, Hr2, Hr1, model_total_insert, Ht2, Ht1. fold previous.
    rewrite (mo_models m Hm). unfold outputs. rewrite Hout. lia.
  - intros k. rewrite Hid, Hwr, Hr2, Hr1, Hu2. cbn [Z.ltb Z.compare]. rewrite Hwr.
    destruct (decide (k = wr_id r)) as [->|Hne].
    + rewrite lookup_insert_eq. destruct (available_for_budget cfg (output record)) eqn:Ha.
      * rewrite Hu1. split; [by intros [_ ?]|]. intros (x & [= <-] & Hx). rewrite Hout in Hx. congruence.
      * split; [|set_solver]. intros _. eexists. split; [done|]. by rewrite Hout.
    + rewrite lookup_insert_ne by done. rewrite <- (mo_unavailable m Hm k).
      destruct (available_for_budget cfg (output record)); [rewrite Hu1; tauto|].
      rewrite elem_of_union, elem_of_singleton, Hu1. tauto.
Qed.

(** *** The rebuild *)

Lemma add_tokens_lookup model n acc k :
  default 0 (add_tokens model n acc !! k) = default 0 (acc !! k) + (if decide (k = model) then n else 0).
Proof. unfold add_tokens. case_decide; subst; simplify_map_eq; lia. Qed.

Lemma add_output_lookup acc out k :
  default 0 (add_output acc out !! k) = default 0 (acc !! k) + default 0 (out !! k).
Proof.
  unfold add_output. rewrite <- (list_to_map_to_list out) at 2.
  pose proof (NoDup_fst_map_to_list out) as Hnd. revert acc Hnd.
  generalize (map_to_list out). intros l. induction l as [|[m n] l IH]; intros acc Hnd; cbn [fold_left list_to_map].
  - cbn. rewrite lookup_empty. cbn. lia.
  - cbn in Hnd. apply NoDup_cons in Hnd as [Hnin Hnd]. rewrite IH, add_tokens_lookup by done. cbn.
    case_decide as Heq; [subst k; rewrite lookup_insert_eq, (not_elem_of_list_to_map_1 l m Hnin)
                        |rewrite lookup_insert_ne by done]; cbn; lia.
Qed.

Lemma rebuilt_tokens runs k :
  default 0 (fold_left (λ acc r, add_output acc (default ∅ (output r))) (map_to_list runs).*2 ∅ !! k) =
  model_total runs k.
Proof.
  unfold model_total, total, sum_list.
  assert (H : ∀ l acc,
    default 0 (fold_left (λ acc r, add_output acc (default ∅ (output r))) l.*2 acc !! k) =
    default 0 (acc !! k) +
    foldr (λ (kv : string * workflow_run) n, default 0 (outs kv.2 !! k) + n) 0 l).
  { intros l. induction l as [|[x r] l IH]; intros acc; cbn; [lia|].
    rewrite IH, add_output_lookup. unfold outputs. lia. }
  rewrite H. rewrite lookup_empty. cbn. lia.
Qed.

Lemma sum_tokens_fold g : fold_left (λ n kv, n + kv.2) (map_to_list g) 0 = sum_model_tokens g.
Proof. unfold sum_model_tokens, total. rewrite (sum_list_left Z.add 0 (λ _ n, n)). lia. Qed.

Lemma rebuild_agrees candidates m :
  meter_ok m →
  let m' := _rebuild_budget_meter count_text decimal cfg candidates m in
  agree (bm_model_tokens m) (bm_model_tokens m') ∧ bm_tokens m = bm_tokens m' ∧
  bm_cost m = bm_cost m' ∧ bm_unavailable m = bm_unavailable m' ∧ bm_runs m' = bm_runs m.
Proof.
  intros Hm. cbn zeta.
  assert (Hout : ∀ r, r ∈ (map_to_list (bm_runs m)).*2 →
    _run_budget_output_by_model count_text candidates r = output r).
  { intros r Hr. apply list_elem_of_fmap in Hr as ([k x] & -> & Hx). apply elem_of_map_to_list in Hx.
    apply (mo_runs m Hm) in Hx as [_ Hn]. by apply named_output. }
  unfold _rebuild_budget_meter. cbn [bm_runs bm_model_tokens bm_tokens bm_cost bm_unavailable].
  assert (Hfold : ∀ acc, fold_left (λ acc r, add_output acc
              (default ∅ (_run_budget_output_by_model count_text candidates r))) (map_to_list (bm_runs m)).*2 acc =
            fold_left (λ acc r, add_output acc (default ∅ (output r))) (map_to_list (bm_runs m)).*2 acc).
  { revert Hout. generalize ((map_to_list (bm_runs m)).*2). intros l Hl. induction l as [|r l IH]; intros acc; [done|].
    cbn. rewrite (Hl r) by (by left). apply IH. intros x Hx. apply Hl. by right. }
  rewrite Hfold. set (g := fold_left _ (map_to_list (bm_runs m)).*2 ∅).
  assert (Hag : agree (bm_model_tokens m) g).
  { intros k. unfold g. rewrite rebuilt_tokens. apply (mo_models m Hm). }
  destruct (agree_sums decimal cfg _ _ Hag) as [Hst Hsc]. destruct (mo_counts m Hm) as [Ht Hc].
  split_and!; [done| | | |done].
  - by rewrite sum_tokens_fold, <- Hst.
  - by rewrite total_cost_sum, <- Hsc.
  - apply set_eq. intros k. rewrite (mo_unavailable m Hm k), elem_of_list_to_set, list_elem_of_fmap. split.
    + intros (r & Hr & Ha). exists r. destruct (mo_runs m Hm _ _ Hr) as [Hid Hn]. split; [done|].
      assert (Hin : r ∈ (map_to_list (bm_runs m)).*2).
      { apply (list_elem_of_fmap_2 snd _ (k, r)). by apply elem_of_map_to_list. }
      apply list_elem_of_In, filter_In. split; [by apply list_elem_of_In|]. rewrite Hout by done. by rewrite Ha.
    + intros (r & -> & Hin). apply list_elem_of_In, filter_In in Hin as [Hin Ha]. apply list_elem_of_In in Hin.
      rewrite Hout in Ha by done. apply list_elem_of_fmap in Hin as ([k x] & -> & Hx).
      apply elem_of_map_to_list in Hx. destruct (mo_runs m Hm _ _ Hx) as [Hid _]. exists x. cbn in *. rewrite Hid.
      split; [done|]. by apply negb_true_iff in Ha.
Qed.
End equivalence.

(** ** The checks *)

(** The limits themselves and the remaining cost, which is only reported, are left
    out of the block. *)
Record budget_block := {
  bb_enabled : bool;
  bb_spent_output_tokens : option Z;
  bb_spent_cost_usd : option float;
  bb_remaining_output_tokens : option Z;
  bb_exceeded : bool;
  bb_measured : bool;
  bb_enforcement_status : string;
}.

Definition _budget_block (cfg : budget_config) (spent_tokens : Z) (spent_cost : option float)
    (measurement_available : bool) : budget_block :=
  let required_available :=
    measurement_available &&
    match bc_max_cost_usd cfg, spent_cost with Some _, None => false | _, _ => true end in
  let exceeded :=
    required_available &&
    (match bc_max_output_tokens cfg with Some l => l <=? spent_tokens | None => false end ||
     match bc_max_cost_usd cfg, spent_cost with Some l, Some c => fleb l c | _, _ => false end) in
  let enabled := bool_decide (is_Some (bc_max_output_tokens cfg)) || bool_decide (is_Some (bc_max_cost_usd cfg)) in
  {| bb_enabled := enabled;
     bb_spent_output_tokens := if measurement_available then Some spent_tokens else None;
     bb_spent_cost_usd := if required_available then spent_cost else None;
     bb_remaining_output_tokens :=
       if measurement_available then (λ l, Z.max 0 (l - spent_tokens)) <$> bc_max_output_tokens cfg else None;
     bb_exceeded := exceeded;
     bb_measured := required_available;
     bb_enforcement_status :=
       if enabled && negb required_available then "blocked_unavailable"
       else if exceeded then "exceeded" else "within_budget" |}.

Section checks.
Context (float_of_decimal : Qc → float) (cfg : budget_config).

Definition metered_cost (m : budget_meter) : option float :=
  if bool_decide (bc_prices cfg = ∅) then None else Some (float_of_decimal (bm_cost m)).

Definition budget_status (agents : list ModelAgent) (m : budget_meter) : budget_block :=
  let candidate_prices_available :=
    match bc_max_cost_usd cfg with
    | None => true
    | Some _ => forallb (λ a, bool_decide (is_Some (bc_prices cfg !! model a)))
                  (List.filter _is_general_chat_agent agents)
    end in
  _budget_block cfg (bm_tokens m) (metered_cost m)
    (bool_decide (bm_unavailable m = ∅) && candidate_prices_available).

(** [BudgetExceededError] by its message. *)
Inductive budget_error := MeasurementUnavailable | BudgetExceeded.

Definition _raise_if_spend_budget_exceeded (additional_output_tokens : option Z)
    (additional_cost_usd : option float) (m : budget_meter) : res budget_error unit :=
  let budget := _budget_block cfg (bm_tokens m) (metered_cost m) (bool_decide (bm_unavailable m = ∅)) in
  let measurement_unavailable :=
    match bc_max_output_tokens cfg, additional_output_tokens with Some _, None => true | _, _ => false end ||
    match bc_max_cost_usd cfg, additional_cost_usd with Some _, None => true | _, _ => false end in
  if measurement_unavailable || String.eqb (bb_enforcement_status budget) "blocked_unavailable"
  then Raise MeasurementUnavailable else
  if bb_exceeded budget ||
     match bc_max_output_tokens cfg, additional_output_tokens with
     | Some l, Some a => l <=? bm_tokens m + a
     | _, _ => false
     end ||
     match bc_max_cost_usd cfg, bb_spent_cost_usd budget, additional_cost_usd with
     | Some l, Some c, Some a => fleb l (fadd c a)
     | _, _, _ => false
     end
  then Raise BudgetExceeded else Ok tt.
End checks.

Section in_flight.
Context (count_text : string → string → option Z)
        (round6_sum : list float → float)              (* round(sum(...), 6) *)
        (cfg : budget_config).

Definition trace_counts (agents : list ModelAgent) (trace : list trace_row) : option (list (Z * string)) :=
  mapM (λ r, let model := row_model agents r in
             (λ n, (n, model)) <$> _step_output_token_count count_text (row_usage r) (row_output r) model) trace.

Definition _trace_budget_spend (agents : list ModelAgent) (trace : list trace_row)
    : option Z * option float :=
  match trace_counts agents trace with
  | None => (None, None)
  | Some counts =>
      (Some (foldr (λ c n, c.1 + n) 0 counts),
       (λ costs, round6_sum costs) <$>
         mapM (λ c, (λ p, fmul (fdiv (float_of_Z c.1) (float_of_Z 1000000)) p) <$> bc_prices cfg !! c.2) counts)
  end.
End in_flight.

(** ** Histories *)

Record replace_op := {
  op_candidates : list ModelAgent;
  op_zdr_only : bool;
  op_restored : bool;
  op_current_request : option string;
  op_run : workflow_run;
}.

Definition replace_step count_text sha256_hex decimal cfg (m : budget_meter) (o : replace_op) : budget_meter :=
  _replace_workflow_run count_text sha256_hex decimal cfg (op_candidates o) (op_zdr_only o) (op_restored o)
    (op_current_request o) (op_run o) m.

Definition meter_history count_text sha256_hex decimal cfg (ops : list replace_op) : budget_meter :=
  fold_left (replace_step count_text sha256_hex decimal cfg) ops empty_meter.

(** The agents have model names, and a judge's verdict names its model. *)
Definition op_ok (o : replace_op) : Prop := models_named (op_candidates o) ∧ judged_by_name (op_run o).

Lemma history_ok count_text sha256_hex decimal cfg ops :
  (∀ s m n, count_text s m = Some n → 0 <= n) → Forall op_ok ops →
  meter_ok count_text decimal cfg (meter_history count_text sha256_hex decimal cfg ops).
Proof.
  intros Hpos Hops. unfold meter_history.
  assert (H0 : meter_ok count_text decimal cfg empty_meter) by exact (empty_meter_ok count_text decimal cfg Hpos).
  revert H0. generalize empty_meter. induction Hops as [|o ops [Hc Hj] _ IH]; intros m Hm; [done|].
  cbn. apply IH. by apply replace_ok.
Qed.


(** The budget check fails closed: it lets a request through only when every
    limit in force could be measured, for the stored runs and for what is in
    flight, and none is reached; and it never stops a request when no limit is
    set. *)
Theorem budget_check_fails_closed float_of_decimal cfg tokens cost m :
  (_raise_if_spend_budget_exceeded float_of_decimal cfg tokens cost m = Ok tt →
   (∀ l, bc_max_output_tokens cfg = Some l →
      bm_unavailable m = ∅ ∧ ∃ a, tokens = Some a ∧ bm_tokens m < l ∧ bm_tokens m + a < l) ∧
   (∀ l, bc_max_cost_usd cfg = Some l →
      bm_unavailable m = ∅ ∧ bc_prices cfg ≠ ∅ ∧
      ∃ a, cost = Some a ∧ fleb l (float_of_decimal (bm_cost m)) = false ∧
           fleb l (fadd (float_of_decimal (bm_cost m)) a) = false)) ∧
  (bc_max_output_tokens cfg = None → bc_max_cost_usd cfg = None →
   _raise_if_spend_budget_exceeded float_of_decimal cfg tokens cost m = Ok tt).
Proof.
  unfold _raise_if_spend_budget_exceeded, _budget_block, metered_cost. cbn.
  split; [|by intros -> ->; cbn; rewrite andb_false_r].
  destruct (bool_decide_reflect (bm_unavailable m = ∅)) as [Hu|Hu];
    destruct (bool_decide_reflect (bc_prices cfg = ∅)) as [Hp|Hp];
    destruct (bc_max_output_tokens cfg) as [lt|]; destruct (bc_max_cost_usd cfg) as [lc|];
    destruct tokens as [at_|]; destruct cost as [ac|]; cbn; try done;
    repeat match goal with
    | |- context [?a <=? ?b] => destruct (Z.leb_spec a b); cbn; try done
    | |- context [fleb ?a ?b] => destruct (fleb a b) eqn:?; cbn; try done
    end; intros _; (split; [intros l [= <-]|intros l [= <-]]); split_and!; try done; try (eexists; split_and!; done).
Qed.

(** ** What the retained copy says about the content *)

Section noninterference.
Context (count_text : string → string → option Z) (sha256_hex : string → string).

(** Two texts with the same digest, the same size and the same token count. *)
Definition alike_text (model s s' : string) : Prop :=
  sha256_hex s = sha256_hex s' ∧ utf8_len s = utf8_len s' ∧ count_text s model = count_text s' model.

(** Two values that are the same, or texts that are alike. *)
Definition alike (model : string) (v v' : pyval) : Prop :=
  v = v' ∨ ∃ s s', v = VStr s ∧ v' = VStr s' ∧ alike_text model s s'.

Definition alike_row (r r' : trace_row) : Prop :=
  row_agent_id r = row_agent_id r' ∧ row_served_agent_id r = row_served_agent_id r' ∧
  row_model_name r = row_model_name r' ∧ row_subtask r = row_subtask r' ∧ row_usage r = row_usage r' ∧
  alike (default "unknown" (row_model_name r)) (row_output r) (row_output r').

(** Two calls that differ in the text of their arguments. *)
Definition alike_call (c c' : pyval) : Prop :=
  c = c' ∨ ∃ d f s s',
    c = VDict (dict_set "function" (VDict (dict_set "arguments" (VStr s) f)) d) ∧
    c' = VDict (dict_set "function" (VDict (dict_set "arguments" (VStr s') f)) d) ∧
    sha256_hex s = sha256_hex s' ∧ utf8_len s = utf8_len s'.

Definition alike_verification (v v' : run_verification) : Prop :=
  rv_accepted v = rv_accepted v' ∧ rv_reason v = rv_reason v' ∧
  rv_judge_agent_id v = rv_judge_agent_id v' ∧ rv_judge_model v = rv_judge_model v' ∧
  rv_judge_usage v = rv_judge_usage v' ∧
  alike "" (rv_verifier_output v) (rv_verifier_output v') ∧
  alike (default "unknown" (rv_judge_model v)) (rv_judge_output_text v) (rv_judge_output_text v').

Definition alike_run (r r' : workflow_run) : Prop :=
  wr_id r = wr_id r' ∧ wr_request_id r = wr_request_id r' ∧
  alike "" (wr_prompt_text r) (wr_prompt_text r') ∧ alike "" (wr_answer r) (wr_answer r') ∧
  Forall2 alike_row (wr_trace r) (wr_trace r') ∧
  (wr_tool_calls r = wr_tool_calls r' ∨
   ∃ cs cs', wr_tool_calls r = VList cs ∧ wr_tool_calls r' = VList cs' ∧ Forall2 alike_call cs cs') ∧
  match wr_verification r, wr_verification r' with
  | Some v, Some v' => alike_verification v v'
  | None, None => True
  | _, _ => False
  end.

Lemma alike_placeholder m s s' :
  alike_text m s s' → _zdr_content_placeholder sha256_hex s = _zdr_content_placeholder sha256_hex s'.
Proof. intros (Hh & Hl & _). unfold _zdr_content_placeholder. by rewrite Hh, Hl. Qed.

Lemma alike_redacted m v v' :
  alike m v v' → redact_text_field sha256_hex v = redact_text_field sha256_hex v'.
Proof. intros [->|(s & s' & -> & -> & H)]; [done|]. exact (alike_placeholder m s s' H). Qed.

Lemma alike_keep usage m s s' :
  alike_text m s s' → keep_count count_text usage s m = keep_count count_text usage s' m.
Proof. intros (_ & _ & Hc). unfold keep_count. by rewrite Hc. Qed.

Lemma redact_alike_row r r' :
  alike_row r r' → redact_row count_text sha256_hex r = redact_row count_text sha256_hex r'.
Proof.
  destruct r as [a s m t u o], r' as [a' s' m' t' u' o'].
  intros (Ha & Hs & Hm & Ht & Hu & Ho). cbn in *. subst. unfold redact_row. cbn.
  destruct Ho as [->|(x & x' & -> & -> & H)]; [done|].
  by rewrite (alike_placeholder _ _ _ H), (alike_keep _ _ _ _ H).
Qed.

Lemma dict_set_same k v w d : dict_set k v (dict_set k w d) = dict_set k v d.
Proof.
  induction d as [|[k' x] d IH]; cbn.
  - by rewrite String.eqb_refl.
  - destruct (key_is k k') eqn:Hk; cbn; rewrite Hk; [done|]. by rewrite IH.
Qed.

Lemma redact_alike_call c c' : alike_call c c' → redact_call sha256_hex c = redact_call sha256_hex c'.
Proof.
  intros [->|(d & f & s & s' & -> & -> & Hh & Hl)]; [done|]. unfold redact_call, dget.
  rewrite !dict_get_set, !decide_True by done. cbn. rewrite !dict_get_set, !decide_True by done. cbn.
  unfold _zdr_content_placeholder. by rewrite !dict_set_same, Hh, Hl.
Qed.

Lemma redact_alike_verification v v' :
  alike_verification v v' →
  redact_verification count_text sha256_hex v = redact_verification count_text sha256_hex v'.
Proof.
  destruct v as [a r o j m u t], v' as [a' r' o' j' m' u' t'].
  intros (Ha & Hr & Hj & Hm & Hu & Ho & Ht). cbn in *. subst. unfold redact_verification. cbn.
  rewrite (alike_redacted _ _ _ Ho), (alike_redacted _ _ _ Ht).
  destruct Ht as [->|(x & x' & -> & -> & H)]; [done|]. by rewrite (alike_keep _ _ _ _ H).
Qed.

(** Under zero data retention the stored copy of a run depends on its prompt,
    answer, outputs, tool arguments and judge texts only through their digests,
    sizes and token counts: runs that differ in nothing else are stored as the
    same record. *)
Theorem zdr_copy_content_free r r' :
  alike_run r r' →
  _zdr_redact_workflow_record count_text sha256_hex r = _zdr_redact_workflow_record count_text sha256_hex r'.
Proof.
  intros (Hid & Hreq & Hp & Ha & Ht & Hc & Hv). unfold _zdr_redact_workflow_record.
  rewrite Hid, Hreq, (alike_redacted _ _ _ Hp), (alike_redacted _ _ _ Ha). f_equal.
  - induction Ht as [|x y l l' Hxy _ IH]; cbn; [done|]. by rewrite (redact_alike_row _ _ Hxy), IH.
  - destruct Hc as [->|(cs & cs' & -> & -> & Hcs)]; [done|]. cbn. f_equal.
    induction Hcs as [|x y l l' Hxy _ IH]; cbn; [done|]. by rewrite (redact_alike_call _ _ Hxy), IH.
  - destruct (wr_verification r), (wr_verification r'); try done. cbn. by rewrite (redact_alike_verification _ _ Hv).
Qed.
End noninterference.

(** ** A meter with a redacted run that is replaced *)

Definition demo_count (s model : string) : option Z := Some (str_len s).

Definition demo_row (agent : string) (usage : option dict) (output : string) : trace_row :=
  {| row_agent_id := agent; row_served_agent_id := ""; row_model_name := None; row_subtask := "Direct route";
     row_usage := usage; row_output := VStr output |}.

Definition demo_run (run_id prompt : string) (rows : list trace_row) : workflow_run :=
  {| wr_id := run_id; wr_request_id := None; wr_prompt_text := VStr prompt; wr_answer := VStr "answer";
     wr_trace := rows; wr_tool_calls := VNone; wr_verification := None |}.

Definition demo_budget : budget_config :=
  {| bc_prices := {[ "llama-3" := float_of_Z 2 ]}; bc_max_output_tokens := Some 20; bc_max_cost_usd := None |}.

Definition demo_op (zdr : bool) (r : workflow_run) : replace_op :=
  {| op_candidates := [demo_agent "plain_one" "llama-3" "https://a.example" []]; op_zdr_only := zdr;
     op_restored := false; op_current_request := Some "req"; op_run := r |}.

Definition demo_ops : list replace_op :=
  [demo_op true (demo_run "r1" "p" [demo_row "plain_one" None "hello"]);
   demo_op false (demo_run "r2" "p" [demo_row "gone" (Some [(VStr "output_tokens", VInt 7)]) "x"]);
   demo_op true (demo_run "r1" "p" [demo_row "plain_one" None "hello again"])].

Abbreviation demo_meter := (meter_history demo_count (λ s, s) (λ _, 2%Qc) demo_budget demo_ops).

Lemma demo_count_nonneg s m n : demo_count s m = Some n → 0 <= n.
Proof. intros [= <-]. apply str_len_nonneg. Defined.

Lemma demo_ops_ok : Forall op_ok demo_ops.
Proof. repeat constructor; intros v [=]. Defined.


Abbreviation demo_check := (_raise_if_spend_budget_exceeded (λ _, float_of_Z 0) demo_budget).

Lemma budget_check_fails_closed_witness :
  demo_check (Some 1) None demo_meter = Ok tt ∧ bm_tokens demo_meter + 1 < 20 ∧
  demo_check (Some 2) None demo_meter = Raise BudgetExceeded ∧
  demo_check None None demo_meter = Raise MeasurementUnavailable.
Proof.
  assert (H : demo_check (Some 1) None demo_meter = Ok tt) by (vm_compute; reflexivity).
  split; [exact H|]. split; [|split; vm_compute; reflexivity].
  destruct (budget_check_fails_closed (λ _, float_of_Z 0) demo_budget (Some 1) None demo_meter) as [Hb _].
  destruct (Hb H) as [Ht _]. destruct (Ht 20 eq_refl) as (_ & a & [= <-] & _ & Hlt). exact Hlt.
Defined.

Lemma zdr_copy_content_free_witness :
  let redact := _zdr_redact_workflow_record demo_count (λ _, "digest") in
  redact (demo_run "r1" "alpha" [demo_row "plain_one" None "one"]) =
  redact (demo_run "r1" "gamma" [demo_row "plain_one" None "two"]).
Proof.
  apply zdr_copy_content_free. split_and!; cbn; try done.
  - right. exists "alpha", "gamma". done.
  - by left.
  - constructor; [|constructor]. split_and!; try done. right. exists "one", "two". done.
  - by left.
Defined.

(** The planner's subtask, written from the prompt, stays in the stored copy. *)
Example subtask_survives_redaction :
  map row_subtask (wr_trace (_zdr_redact_workflow_record demo_count (λ _, "digest")
    (demo_run "r1" "p" [{| row_agent_id := "a"; row_served_agent_id := ""; row_model_name := None;
                           row_subtask := "Summarise the Acme contract"; row_usage := None;
                           row_output := VStr "done" |}]))) = ["Summarise the Acme contract"].
Proof. reflexivity. Qed.
