(* ===== verification/Judge.v ===== *)
(** orchestrator.py: the model judge. The adapter handed to the judge library, the
    verdict on a verifier's report, and the ledger a verdict on a direct route
    feeds.

    The library is fast-mlsirm: what it asks the adapter and what it concludes is
    data of the model. *)

From Stdlib Require Import String.
From S2P Require Import Prelude PyString PyCollections PyFloat PyValue ModelGroup Agents Ranking.
From S2P Require Import Budget Workflow.

(** ** The adapter *)

Record judge_adapter := {
  ja_judge : string;
  ja_allowed : list string;
  ja_excluded : option (list string);
  served_agent_id : option string;
  served_model : option string;
  served_usage : option dict;
  served_output : option string;
}.

Definition new_adapter (judge : string) (allowed : list string) (excluded : option (list string))
    : judge_adapter :=
  {| ja_judge := judge; ja_allowed := allowed; ja_excluded := excluded; served_agent_id := None;
     served_model := None; served_usage := None; served_output := None |}.

Definition _completion_payload (output served_id model_ : string) (usage : option dict) (a : judge_adapter)
    : judge_adapter :=
  {| ja_judge := ja_judge a; ja_allowed := ja_allowed a; ja_excluded := ja_excluded a;
     served_agent_id := Some served_id; served_model := Some model_; served_usage := usage;
     served_output := Some output |}.

(** A provider call through the adapter that came back: [complete], or
    [complete_structured], whose content may then be refused ([None]). *)
Inductive adapter_event :=
| CompleteReturned (output served_id served_model : string) (usage : option dict)
| StructuredReturned (agent_model : string) (usage : option dict) (output : option string).

Definition adapter_step (a : judge_adapter) (ev : adapter_event) : judge_adapter :=
  match ev with
  | CompleteReturned output served_id model_ usage => _completion_payload output served_id model_ usage a
  | StructuredReturned model_ usage output =>
      let captured :=
        {| ja_judge := ja_judge a; ja_allowed := ja_allowed a; ja_excluded := ja_excluded a;
           served_agent_id := Some (ja_judge a); served_model := Some model_; served_usage := usage;
           served_output := served_output a |} in
      match output with
      | Some output => _completion_payload output (ja_judge a) model_ usage captured
      | None => captured
      end
  end.

(** ** The judge library *)

Inductive irt_projection :=
| NoProjection                       (* to_irt_row is not callable *)
| ProjectionRaises
| Projection (row : pyval).

Record judge_result := {
  jr_accepted : bool;
  jr_rationale : string;
  jr_usage : option dict;
  jr_mode : string;
  jr_scores : option dict;           (* None: not a mapping *)
  jr_irt : irt_projection;
}.

Inductive judge_outcome :=
| JudgeReturned (r : judge_result)
| JudgeFormatError
| JudgeRaised.

Inductive judge_library :=
| JudgeBroken
| JudgeMissing
| JudgeInstalled (judge : judge_adapter → string → string → list adapter_event * judge_outcome).

(** ** Verdicts *)

Record verification := {
  v_base : run_verification;
  v_judge : option string;
  v_mode : option string;
  v_scores : option dict;
  v_irt_row : option (list pyval);
}.

Definition accepted (v : verification) : bool := rv_accepted (v_base v).
Definition reason (v : verification) : string := rv_reason (v_base v).

(** A dict that says something. *)
Definition truthy_dict (d : option dict) : option dict :=
  match d with Some [] => None | _ => d end.

(** [_judge_adapter_accounting_fields], over a verdict. *)
Definition verdict_of (acc : bool) (why verifier_output : string) (adapter : option judge_adapter)
    : verification :=
  {| v_base :=
       {| rv_accepted := acc; rv_reason := why; rv_verifier_output := VStr verifier_output;
          rv_judge_agent_id := adapter ≫= served_agent_id;
          rv_judge_model := adapter ≫= served_model;
          rv_judge_usage := truthy_dict (adapter ≫= served_usage);
          rv_judge_output_text := match adapter ≫= served_output with Some s => VStr s | None => VNone end |};
     v_judge := Some "model"; v_mode := None; v_scores := None; v_irt_row := None |}.

Definition with_usage (usage : option dict) (v : verification) : verification :=
  {| v_base :=
       {| rv_accepted := accepted v; rv_reason := reason v; rv_verifier_output := rv_verifier_output (v_base v);
          rv_judge_agent_id := rv_judge_agent_id (v_base v); rv_judge_model := rv_judge_model (v_base v);
          rv_judge_usage := usage; rv_judge_output_text := rv_judge_output_text (v_base v) |};
     v_judge := v_judge v; v_mode := v_mode v; v_scores := v_scores v; v_irt_row := v_irt_row v |}.

(** The verdict a projection replaces; the accounting stays. *)
Definition refuse (why : string) (v : verification) : verification :=
  {| v_base :=
       {| rv_accepted := false; rv_reason := why; rv_verifier_output := rv_verifier_output (v_base v);
          rv_judge_agent_id := rv_judge_agent_id (v_base v); rv_judge_model := rv_judge_model (v_base v);
          rv_judge_usage := rv_judge_usage (v_base v);
          rv_judge_output_text := rv_judge_output_text (v_base v) |};
     v_judge := v_judge v; v_mode := None; v_scores := None; v_irt_row := None |}.

Definition with_projection (mode : string) (projection : option (dict * list pyval)) (v : verification)
    : verification :=
  {| v_base := v_base v; v_judge := v_judge v; v_mode := Some mode; v_scores := fst <$> projection;
     v_irt_row := snd <$> projection |}.

(** [any(type(usage.get(key)) is int and usage[key] > 0 ...)]. *)
Definition positive_evidence (usage : option dict) : bool :=
  match usage with
  | Some u => existsb (λ k, match dget k u with VInt n => 0 <? n | _ => false end)
                ["prompt_tokens"; "completion_tokens"; "total_tokens"]
  | None => false
  end.

Definition sequence_items (v : pyval) : option (list pyval) :=
  match v with VList l | VTuple l => Some l | _ => None end.

Definition invalid_projection : string :=
  "model judge returned an invalid multi-item IRT projection; verification failed closed".

(** The verdict on what the judge returned. *)
Definition judged (r : judge_result) (verifier_output : string) (adapter : judge_adapter) : verification :=
  let v := verdict_of (jr_accepted r) (jr_rationale r) verifier_output (Some adapter) in
  let v :=
    match truthy_dict (jr_usage r) with
    | Some u => if bool_decide (is_Some (served_usage adapter)) || positive_evidence (Some u)
                then with_usage (Some u) v else v
    | None => v
    end in
  match jr_scores r, jr_irt r with
  | Some _, ProjectionRaises => refuse invalid_projection v
  | Some scores, Projection row =>
      match sequence_items row with
      | Some items =>
          if (length scores <? 2)%nat || negb (length items =? length scores)%nat
          then refuse invalid_projection v
          else with_projection (jr_mode r) (Some (scores, items)) v
      | None => refuse invalid_projection v
      end
  | _, _ => with_projection (jr_mode r) None v
  end.

Definition id_allowed (allowed : option (list string)) (a : ModelAgent) : bool :=
  match allowed with Some l => in_strs (id a) l | None => true end.

Definition id_not_excluded (excluded : option (list string)) (a : ModelAgent) : bool :=
  match excluded with Some l => negb (in_strs (id a) l) | None => true end.

Definition eligible_judges (env : ranking_env) (task : string) (free_only : bool)
    (allowed excluded : option (list string)) (required_tags : list string)
    : res string (list ModelAgent) :=
  List.filter (λ a, id_allowed allowed a && id_not_excluded excluded a) <$>
    _ranked_agents env task "verifier" required_tags free_only true None None None.

Definition judge_unavailable : string := "model judge unavailable; verification failed closed".

Definition _model_judge_verification (lib : judge_library) (env : ranking_env) (task verifier_output : string)
    (free_only : bool) (allowed excluded : option (list string)) (required_tags : list string)
    : verification :=
  if negb (str_truthy verifier_output)
  then verdict_of false "model judge requires a non-empty verifier report" verifier_output None else
  match lib with
  | JudgeBroken =>
      verdict_of false "fast-mlsirm judge could not be loaded; verification failed closed" verifier_output None
  | JudgeMissing =>
      verdict_of false "fast-mlsirm judge is unavailable; verification failed closed" verifier_output None
  | JudgeInstalled judge =>
      match eligible_judges env task free_only allowed excluded required_tags with
      | Raise _ | Ok [] => verdict_of false judge_unavailable verifier_output None
      | Ok ((a :: _) as eligible) =>
          let adapter := new_adapter (id a) (map id eligible) excluded in
          let '(events, out) := judge adapter task verifier_output in
          let adapter := fold_left adapter_step events adapter in
          match out with
          | JudgeReturned r => judged r verifier_output adapter
          | JudgeFormatError =>
              verdict_of false "model judge returned an invalid structured verdict; verification failed closed"
                verifier_output (Some adapter)
          | JudgeRaised => verdict_of false judge_unavailable verifier_output (Some adapter)
          end
      end
  end.

(** [_judge_verifier_output]: the evidence, without a decision. *)
Definition _judge_verifier_output (verifier_output : string) : verification :=
  {| v_base := {| rv_accepted := false; rv_reason := "model judgment required; keyword matching is disabled";
                  rv_verifier_output := VStr verifier_output; rv_judge_agent_id := None;
                  rv_judge_model := None; rv_judge_usage := None; rv_judge_output_text := VNone |};
     v_judge := None; v_mode := None; v_scores := None; v_irt_row := None |}.

(** A verdict without a judge: the judge is off, or the caller must run a tool. *)
Definition unjudged (why answer judge : string) : verification :=
  {| v_base := {| rv_accepted := true; rv_reason := why; rv_verifier_output := VStr answer;
                  rv_judge_agent_id := None; rv_judge_model := None; rv_judge_usage := None;
                  rv_judge_output_text := VNone |};
     v_judge := Some judge; v_mode := None; v_scores := None; v_irt_row := None |}.

(** ** The judge of a direct route *)

Definition usage_completion_tokens (usage : option dict) : option Z :=
  match usage with
  | Some u => match dget "completion_tokens" u with
              | VInt n => if n <=? 0 then None else Some n
              | _ => None
              end
  | None => None
  end.

(** The quality ledger after the verdict; the contextual (psychometric) ledger is
    not part of the model. *)
Definition record_verdict (cfg : router_config) (served_id : string) (latency : option float)
    (usage : option dict) (now : float) (ok : bool) (quality : group_router) : res string group_router :=
  if ok then observe_success cfg served_id latency (usage_completion_tokens usage) None now quality
  else Ok (observe_failure cfg served_id quality).

Definition _realtime_route_judge (lib : judge_library) (env : ranking_env) (policy : OrchestrationPolicy)
    (cfg : router_config) (text answer served_id : string) (latency : option float) (usage : option dict)
    (free_only : bool) (required_tags : list string) (now : float)
    : ST group_router string verification := λ quality,
  if negb (realtime_judge policy) then (quality, Ok (unjudged "single route path" answer "model")) else
  let base := _model_judge_verification lib env text answer free_only None None required_tags in
  match record_verdict cfg served_id latency usage now (accepted base) quality with
  | Ok quality => (quality, Ok base)
  | Raise e => (quality, Raise e)
  end.

(** ** Theorems *)

Lemma judged_accepted r out a : accepted (judged r out a) = true → jr_accepted r = true.
Proof.
  unfold judged, accepted. destruct (jr_scores r) as [scores|]; [destruct (jr_irt r) as [| |row]|]; cbn.
  all: repeat case_match; cbn; congruence.
Qed.

Lemma judged_projection r out a scores :
  accepted (judged r out a) = true → jr_scores r = Some scores → jr_irt r ≠ NoProjection →
  ∃ row items, jr_irt r = Projection row ∧ sequence_items row = Some items ∧
    length items = length scores ∧ (2 <= length scores)%nat.
Proof.
  unfold judged, accepted. intros H Hs Hn. rewrite Hs in H. destruct (jr_irt r) as [| |row]; [done|done|].
  destruct (sequence_items row) as [items|] eqn:Hi; [|done]. destruct (_ || _) eqn:Hb; [done|].
  apply orb_false_iff in Hb as [Hlo Heq]. apply Nat.ltb_ge in Hlo. apply negb_false_iff, Nat.eqb_eq in Heq.
  by exists row, items.
Qed.


(** *** Spend is kept *)

(** What the last provider call that came back told the adapter. *)
Definition event_model (ev : adapter_event) : string :=
  match ev with CompleteReturned _ _ m _ | StructuredReturned m _ _ => m end.
Definition event_agent (judge : string) (ev : adapter_event) : string :=
  match ev with CompleteReturned _ served _ _ => served | StructuredReturned _ _ _ => judge end.
Definition event_usage (ev : adapter_event) : option dict :=
  match ev with CompleteReturned _ _ _ u | StructuredReturned _ u _ => u end.

Lemma adapter_last events ev a :
  let a' := fold_left adapter_step (events ++ [ev]) a in
  served_agent_id a' = Some (event_agent (ja_judge a) ev) ∧ served_model a' = Some (event_model ev) ∧
  served_usage a' = event_usage ev.
Proof.
  cbn zeta. rewrite fold_left_app. cbn [fold_left].
  assert (Hj : ja_judge (fold_left adapter_step events a) = ja_judge a).
  { revert a. induction events as [|e es IH]; intros a; [done|]. cbn. rewrite IH. destruct e as [|? ? []]; done. }
  destruct ev as [o s m u|m u [o|]]; cbn; by rewrite ?Hj.
Qed.

Lemma judged_spend r out a :
  rv_judge_agent_id (v_base (judged r out a)) = served_agent_id a ∧
  rv_judge_model (v_base (judged r out a)) = served_model a ∧
  (is_Some (truthy_dict (served_usage a)) → is_Some (rv_judge_usage (v_base (judged r out a)))).
Proof.
  unfold judged. set (v := match truthy_dict (jr_usage r) with Some _ => _ | None => _ end).
  assert (Hv : rv_judge_agent_id (v_base v) = served_agent_id a ∧ rv_judge_model (v_base v) = served_model a ∧
    (is_Some (truthy_dict (served_usage a)) → is_Some (rv_judge_usage (v_base v)))).
  { unfold v. destruct (truthy_dict (jr_usage r)); [case_match|]; done. }
  destruct (jr_scores r); [destruct (jr_irt r)|]; cbn; try exact Hv.
  repeat case_match; exact Hv.
Qed.

(** No judge spend is lost: once a provider call of the judge came back, the
    verdict names the agent and the model that served the last one and carries its
    usage when it reported any, whatever the library then makes of the reply. *)
Theorem judge_spend_kept judge env task out free allowed excluded tags a eligible events ev res :
  out ≠ "" → eligible_judges env task free allowed excluded tags = Ok (a :: eligible) →
  judge (new_adapter (id a) (map id (a :: eligible)) excluded) task out = (events ++ [ev], res) →
  let v := v_base (_model_judge_verification (JudgeInstalled judge) env task out free allowed excluded tags) in
  rv_judge_agent_id v = Some (event_agent (id a) ev) ∧ rv_judge_model v = Some (event_model ev) ∧
  (is_Some (truthy_dict (event_usage ev)) → is_Some (rv_judge_usage v)).
Proof.
  intros Hout Hel Hj. cbn zeta. unfold _model_judge_verification.
  apply str_truthy_spec in Hout. rewrite Hout, Hel, Hj. cbn [negb].
  destruct (adapter_last events ev (new_adapter (id a) (map id (a :: eligible)) excluded)) as (Ha & Hm & Hu).
  set (a' := fold_left adapter_step (events ++ [ev]) _) in *. cbn in Ha.
  destruct res as [r| |]; [|by cbn; rewrite Ha, Hm, Hu..].
  destruct (judged_spend r out a') as (-> & -> & H). by rewrite Hu in H.
Qed.

(** ** A judge over the demonstration pool *)

Definition demo_judge (ok : bool) (projection : irt_projection) (a : judge_adapter) (task out : string)
    : list adapter_event * judge_outcome :=
  ([StructuredReturned "judge-model" (Some [(VStr "completion_tokens", VInt 5)]) (Some "verdict")],
   JudgeReturned {| jr_accepted := ok; jr_rationale := "because"; jr_usage := None; jr_mode := "route";
                    jr_scores := Some [(VStr "evidence_quality", VInt 1); (VStr "risk_signal", VInt 1)];
                    jr_irt := projection |}).

Definition demo_verify (projection : irt_projection) : verification :=
  _model_judge_verification (JudgeInstalled (demo_judge true projection)) (demo_env demo_pool) "task" "report"
    false None None [].


Lemma judge_spend_kept_witness :
  rv_judge_agent_id (v_base (demo_verify ProjectionRaises)) = Some "coder_one" ∧
  rv_judge_model (v_base (demo_verify ProjectionRaises)) = Some "judge-model".
Proof.
  destruct (judge_spend_kept (demo_judge true ProjectionRaises) (demo_env demo_pool) "task" "report" false None None []
              (List.nth 1 demo_pool (demo_agent "" "" "" [])) [List.nth 0 demo_pool (demo_agent "" "" "" [])] []
              (StructuredReturned "judge-model" (Some [(VStr "completion_tokens", VInt 5)]) (Some "verdict"))
              (demo_judge true ProjectionRaises (new_adapter "" [] None) "" "").2) as (Ha & Hm & _).
  - discriminate.
  - vm_compute. reflexivity.
  - reflexivity.
  - split; [exact Ha|exact Hm].
Defined.

(** An agent the operator excluded from the verifier role. *)
Definition no_verifier : ModelAgent :=
  match demo_agent "lone_one" "llama-3" "https://a.example" [] with
  | Build_ModelAgent i m u e k t p d n _ l s o w g r c su mt mr =>
      Build_ModelAgent i m u e k t p d n ["verifier"] l s o w g r c su mt mr
  end.

(** The judge may be an agent its operator excluded from the verifier role: the
    ranking puts excluded agents last instead of dropping them, and the list of
    eligible judges does not filter them as every other selection does. *)
Theorem judge_may_be_role_excluded :
  excluded_for "verifier" no_verifier = true ∧
  eligible_judges (demo_env [no_verifier]) "task" false None None [] = Ok [no_verifier] ∧
  _select_agent (demo_env [no_verifier]) "task" "verifier" false [] [] None None =
    Raise "no eligible agent available for role=verifier".
Proof. split_and!; vm_compute; reflexivity. Qed.
