(* ===== verification/ResponseCache.v ===== *)
(** response_cache.py and the in-memory [_ResponseCache] of orchestrator.py: the
    key of a request, the contract a cache keeps towards [complete], and the two
    providers that keep it. *)

From Stdlib Require Import Ascii String.
From S2P Require Import Prelude PyString PyCollections PyFloat PyValue PyJson.
Open Scope Z_scope.

(** A response is a JSON object. *)
Abbreviation response := (list (pyval * pyval)).

(** ** Keys *)

Section key.
Context (float_repr : float → string) (sha256_hex : string → string).

(** The semantic envelope of a request. *)
Definition envelope (messages : list response) (mode model : string) (parameters : response)
    (partition : option string) : pyval :=
  VDict [(VStr "model", VStr model); (VStr "mode", VStr mode);
         (VStr "messages", VList (map VDict messages)); (VStr "parameters", VDict parameters);
         (VStr "partition", match partition with Some p => VStr p | None => VNone end)].

Definition key_payload (messages : list response) (mode model : string) (parameters : response)
    (partition : option string) : string :=
  json_dumps float_repr true (envelope messages mode model parameters partition).

(** [build_response_cache_key]: [ValueError] on a blank partition. *)
Definition build_response_cache_key (messages : list response) (mode model : string) (parameters : response)
    (partition : option string) : res string string :=
  match partition with
  | Some p => if str_truthy (str_strip p) then Ok (sha256_hex (key_payload messages mode model parameters partition))
              else Raise "partition must be a non-empty string when provided"
  | None => Ok (sha256_hex (key_payload messages mode model parameters partition))
  end.
End key.

(** What the encoder sees of an envelope. *)
Lemma envelope_view messages mode model parameters partition :
  json_view true (envelope messages mode model parameters partition) =
  VDict [(VStr "messages", VList (map (json_view true) (map VDict messages))); (VStr "mode", VStr mode);
         (VStr "model", VStr model); (VStr "parameters", json_view true (VDict parameters));
         (VStr "partition", match partition with Some p => VStr p | None => VNone end)].
Proof. by destruct partition. Qed.

(** ** The contract *)

(** A provider: [get] answers, or fails; [put] stores, or fails. *)
Class CacheProvider (C : Type) := {
  cache_get : string → C → C * res string (option response);
  cache_put : string → response → C → C * res string unit;
  cache_sees : response → option response;    (* a stored response as it is read back *)
  cache_may : C → string → response → Prop;   (* what a lookup may answer *)
}.

(** A cache forgets but never invents: it answers only what it may, and a lookup
    or a store adds nothing beyond the response that is stored. *)
Class CacheLaws (C : Type) `{CacheProvider C} := {
  get_honest key c v : (cache_get key c).2 = Ok (Some v) → cache_may c key v;
  get_keeps key c key' v : cache_may (cache_get key c).1 key' v → cache_may c key' v;
  put_keeps key r c key' v :
    cache_may (cache_put key r c).1 key' v → cache_may c key' v ∨ (key' = key ∧ cache_sees r = Some v);
}.

(** ** The in-memory cache *)

Section memory.
Context (clock : nat → float) (ttl : float) (max_entries : nat).

(** [_ResponseCache]: entries least recently used first, and how often the clock
    was read. Deep copies make stored responses values of their own. *)
Record memory_cache := {
  mc_data : list (string * (float * response));
  mc_reads : nat;
}.

Definition memory_get (key : string) (c : memory_cache) : memory_cache * option response :=
  match od_get key (mc_data c) with
  | None => (c, None)
  | Some (stored_at, value) =>
      if fleb ttl (fsub (clock (mc_reads c)) stored_at)
      then ({| mc_data := od_del key (mc_data c); mc_reads := S (mc_reads c) |}, None)
      else ({| mc_data := od_move_to_end key (mc_data c); mc_reads := S (mc_reads c) |}, Some value)
  end.

Definition memory_put (key : string) (value : response) (c : memory_cache) : memory_cache :=
  {| mc_data := od_trim max_entries (od_move_to_end key (od_set key (clock (mc_reads c), value) (mc_data c)));
     mc_reads := S (mc_reads c) |}.

#[local] Instance memory_provider : CacheProvider memory_cache := {
  cache_get key c := let '(c', v) := memory_get key c in (c', Ok v);
  cache_put key v c := (memory_put key v c, Ok tt);
  cache_sees v := Some v;
  cache_may c key v := ∃ t, (key, (t, v)) ∈ mc_data c;
}.

Lemma od_del_sub {K V} `{EqDecision K} (k : K) (d : list (K * V)) x : x ∈ od_del k d → x ∈ d.
Proof.
  induction d as [|[k' v'] d IH]; cbn; [done|]. case_decide; [by right; apply IH|].
  intros [->|Hx]%elem_of_cons; [by left|by right; apply IH].
Qed.

Lemma od_trim_sub {K V} n (d : list (K * V)) x : x ∈ od_trim n d → x ∈ d.
Proof.
  unfold od_trim. intros H. rewrite <- (firstn_skipn (length d - n) d). apply elem_of_app. by right.
Qed.

(** Storing appends the entry and forgets what the key held. *)
Lemma store_app {K V} `{EqDecision K} (k : K) v (d : list (K * V)) :
  od_move_to_end k (od_set k v d) = od_del k d ++ [(k, v)].
Proof.
  unfold od_move_to_end. rewrite od_get_set, decide_True by done. f_equal.
  induction d as [|[k' v'] d IH]; cbn; [by rewrite decide_True|].
  case_decide; cbn; [by rewrite decide_True|]. rewrite decide_False by done. by rewrite IH.
Qed.

#[local] Instance memory_laws : CacheLaws memory_cache.
Proof.
  split.
  - intros key c v. cbn. unfold memory_get. destruct (od_get key (mc_data c)) as [[t w]|] eqn:Hg; [|done].
    destruct (fleb ttl _); [done|]. intros [= <-]. exists t. by apply od_get_Some_elem.
  - intros key c key' v. cbn. unfold memory_get. destruct (od_get key (mc_data c)) as [[t w]|] eqn:Hg; [|done].
    destruct (fleb ttl _); cbn; intros [t' Ht']; exists t'; [by eapply od_del_sub|].
    unfold od_move_to_end in Ht'. rewrite Hg in Ht'. apply elem_of_app in Ht' as [Ht'|Ht'].
    + by eapply od_del_sub.
    + apply list_elem_of_singleton in Ht' as [= -> -> ->]. by apply od_get_Some_elem.
  - intros key r c key' v. cbn. intros [t Ht]. apply od_trim_sub in Ht. rewrite store_app in Ht.
    apply elem_of_app in Ht as [Ht|Ht]; [left; exists t; by eapply od_del_sub|].
    apply list_elem_of_singleton in Ht as [= -> _ ->]. by right.
Qed.
End memory.

(** ** What the in-memory cache remembers *)

Inductive cache_event :=
| Looked (key : string)
| Stored (key : string) (value : response).

Definition event_key (ev : cache_event) : string := match ev with Looked k | Stored k _ => k end.

Definition stores_key (key : string) (ev : cache_event) : bool :=
  match ev with Stored k _ => String.eqb k key | Looked _ => false end.

Section history.
Context (clock : nat → float) (ttl : float) (max_entries : nat).
Abbreviation cached := (memory_get clock ttl).

Definition memory_event (c : memory_cache) (ev : cache_event) : memory_cache :=
  match ev with
  | Looked key => (cached key c).1
  | Stored key value => memory_put clock max_entries key value c
  end.

Definition memory_after (history : list cache_event) (c : memory_cache) : memory_cache :=
  fold_left memory_event history c.

Definition new_cache : memory_cache := {| mc_data := []; mc_reads := 0 |}.

Record memory_ok (c : memory_cache) : Prop := {
  mo_wf : od_wf (mc_data c);
  mo_len : (length (mc_data c) ≤ max_entries)%nat;
}.

Lemma memory_event_ok c ev : memory_ok c → memory_ok (memory_event c ev).
Proof.
  intros [Hwf Hlen]. destruct ev as [key|key value]; cbn.
  - unfold memory_get. destruct (od_get key (mc_data c)) as [[t v]|] eqn:Hg; [|by split].
    pose proof (od_del_wf key _ Hwf) as Hd.
    assert (Hl : (length (od_del key (mc_data c)) < length (mc_data c))%nat).
    { apply od_get_Some_elem in Hg. clear -Hg. induction (mc_data c) as [|[k w] d IH]; [by apply elem_of_nil in Hg|].
      cbn. case_decide.
      - assert (length (od_del key d) ≤ length d)%nat; [|lia]. clear. induction d as [|[k w] d IH]; cbn; [lia|].
        case_decide; cbn; lia.
      - apply elem_of_cons in Hg as [[= -> _]|Hg]; [done|]. cbn. specialize (IH Hg). lia. }
    destruct (fleb ttl _); split; cbn; [done|lia| |].
    + by apply od_move_to_end_wf.
    + unfold od_move_to_end. rewrite Hg, length_app. cbn. lia.
  - split; cbn; [by apply od_trim_wf, od_move_to_end_wf, od_set_wf|apply od_trim_length].
Qed.

Lemma memory_after_ok history c : memory_ok c → memory_ok (memory_after history c).
Proof.
  revert c. induction history as [|ev h IH]; intros c Hc; [done|]. cbn. by apply IH, memory_event_ok.
Qed.

(** The entry of [key], and after it only keys used since. *)
Definition recent (key : string) (t : float) (value : response) (used : gset string) (c : memory_cache) : Prop :=
  ∃ before after, mc_data c = before ++ (key, (t, value)) :: after ∧
    (list_to_set after.*1 : gset string) ⊆ used.

Definition keys_of (history : list cache_event) : gset string := list_to_set (map event_key history).

Lemma od_del_middle {V} k (before after : list (string * V)) e :
  k ≠ e.1 → od_del k (before ++ e :: after) = od_del k before ++ e :: od_del k after.
Proof.
  intros Hk. induction before as [|[k' v'] d IH]; cbn.
  - destruct e as [ke ve]. cbn in *. by rewrite decide_False.
  - rewrite IH. by case_decide.
Qed.

Lemma od_trim_suffix {V} n (before l : list (string * V)) :
  (length l ≤ n)%nat → ∃ kept, od_trim n (before ++ l) = kept ++ l.
Proof.
  intros Hn. unfold od_trim. rewrite length_app, skipn_app.
  replace (length before + length l - n - length before)%nat with O by lia. by eexists.
Qed.

Lemma od_del_keys_sub {V} k (d : list (string * V)) :
  (list_to_set (od_del k d).*1 : gset string) ⊆ list_to_set d.*1.
Proof. intros x. rewrite !elem_of_list_to_set. intros [_ H]%od_del_keys. done. Qed.

Lemma recent_event key t value used c ev :
  memory_ok c → recent key t value used c → event_key ev ≠ key → (size ({[event_key ev]} ∪ used) < max_entries)%nat →
  recent key t value ({[event_key ev]} ∪ used) (memory_event c ev).
Proof.
  intros [Hwf Hlen] (before & after & Hd & Hused) Hne Hsize. pose proof (od_del_keys_sub (event_key ev) after) as Hsub.
  assert (Hdel : od_del (event_key ev) (mc_data c) =
    od_del (event_key ev) before ++ (key, (t, value)) :: od_del (event_key ev) after)
    by (rewrite Hd; by apply od_del_middle).
  destruct ev as [k|k v]; cbn in *.
  - unfold memory_get. destruct (od_get k (mc_data c)) as [[t' v']|] eqn:Hg; cbn.
    2: { exists before, after. split; [done|set_solver]. }
    destruct (fleb ttl _); cbn.
    + eexists _, _. split; [exact Hdel|set_solver].
    + unfold od_move_to_end. rewrite Hg, Hdel, <- app_assoc. cbn. eexists _, (_ ++ [_]). split; [done|].
      rewrite fmap_app, list_to_set_app. cbn. set_solver.
  - unfold recent, memory_put. cbn [mc_data]. rewrite store_app, Hdel, <- app_assoc. cbn.
    set (tail := od_del k after ++ [(k, (clock (mc_reads c), v))]).
    assert (Hkeys : (list_to_set tail.*1 : gset string) ⊆ {[k]} ∪ used).
    { unfold tail. rewrite fmap_app, list_to_set_app. cbn. set_solver. }
    assert (Hnd : NoDup tail.*1).
    { pose proof (od_set_wf k (clock (mc_reads c), v) _ Hwf) as H1. apply (od_move_to_end_wf k) in H1.
      rewrite store_app, Hdel, <- app_assoc in H1. unfold od_wf in H1. rewrite fmap_app in H1. apply NoDup_app in H1 as (_ & _ & H1).
      cbn in H1. by apply NoDup_cons in H1 as [_ ?]. }
    assert (Hl : (length tail < max_entries)%nat).
    { rewrite <- (length_fmap fst), <- (size_list_to_set (C := gset string)) by done.
      apply subseteq_size in Hkeys. lia. }
    destruct (od_trim_suffix max_entries (od_del k before) ((key, (t, value)) :: tail)) as [kept Hk]; [cbn; lia|].
    rewrite Hk. by eexists _, _.
Qed.

Lemma recent_history key t value h : ∀ used c,
  memory_ok c → recent key t value used c → key ∉ map event_key h → (size (keys_of h ∪ used) < max_entries)%nat →
  recent key t value (keys_of h ∪ used) (memory_after h c).
Proof.
  induction h as [|ev h IH]; intros used c Hok Hr Hk Hs.
  - unfold keys_of. cbn. by rewrite union_empty_l_L.
  - cbn in Hk. apply not_elem_of_cons in Hk as [Hk Hk'].
    assert (Heq : keys_of (ev :: h) ∪ used = keys_of h ∪ ({[event_key ev]} ∪ used)) by (unfold keys_of; cbn; set_solver).
    rewrite Heq in Hs |- *. cbn. apply IH; [by apply memory_event_ok| |done|done].
    apply recent_event; [done|done|done|]. eapply Nat.le_lt_trans; [|exact Hs]. apply subseteq_size. set_solver.
Qed.

(** A recent entry is answered until it is too old. *)
Lemma recent_answer key t value used c :
  memory_ok c → recent key t value used c →
  (cached key c).2 = if fleb ttl (fsub (clock (mc_reads c)) t) then None else Some value.
Proof.
  intros [Hwf _] (before & after & Hd & _). unfold memory_get.
  rewrite (od_get_in key (t, value)); [by destruct (fleb ttl _)|done|]. rewrite Hd. apply elem_of_app. right. by left.
Qed.

(** Where an entry comes from. *)
Definition stored_in (history : list cache_event) (key : string) (t : float) (value : response) : Prop :=
  ∃ h1 h2, history = h1 ++ Stored key value :: h2 ∧ forallb (λ ev, negb (stores_key key ev)) h2 = true ∧
    t = clock (mc_reads (memory_after h1 new_cache)).

Lemma entries_stored history key t value :
  (key, (t, value)) ∈ mc_data (memory_after history new_cache) → stored_in history key t value.
Proof.
  revert key t value. induction history as [|ev h IH] using rev_ind; intros key t value; [by intros ?%elem_of_nil|].
  unfold memory_after. rewrite fold_left_app. cbn. fold (memory_after h new_cache). intros Hin.
  assert (Hkeep : (key, (t, value)) ∈ mc_data (memory_after h new_cache) → stores_key key ev = false →
            stored_in (h ++ [ev]) key t value).
  { intros (h1 & h2 & -> & Hn & Ht)%IH Hev. exists h1, (h2 ++ [ev]). rewrite <- app_assoc. split_and!; [done| |done].
    rewrite forallb_app, Hn. cbn. by rewrite Hev. }
  destruct ev as [k|k v]; cbn in Hin.
  - apply Hkeep; [|done]. unfold memory_get in Hin.
    destruct (od_get k (mc_data (memory_after h new_cache))) as [[t' v']|] eqn:Hg; [|exact Hin].
    destruct (fleb ttl _); cbn in Hin; [by eapply od_del_sub|].
    unfold od_move_to_end in Hin. rewrite Hg in Hin. apply elem_of_app in Hin as [Hin|Hin]; [by eapply od_del_sub|].
    apply list_elem_of_singleton in Hin as [= -> -> ->]. by apply od_get_Some_elem.
  - apply od_trim_sub in Hin. rewrite store_app in Hin. apply elem_of_app in Hin as [Hin|Hin].
    + apply Hkeep; [by eapply od_del_sub|]. cbn. destruct (String.eqb_spec k key) as [->|]; [|done]. exfalso.
      apply (list_elem_of_fmap_2 fst) in Hin. apply od_del_keys in Hin as [? _]. done.
    + apply list_elem_of_singleton in Hin as [= -> -> ->]. exists h, []. done.
Qed.

Lemma new_cache_ok : memory_ok new_cache.
Proof. split; cbn; [constructor|lia]. Qed.

Lemma put_recent key value c : (0 < max_entries)%nat →
  recent key (clock (mc_reads c)) value ∅ (memory_put clock max_entries key value c).
Proof.
  intros Hm. unfold recent, memory_put. cbn [mc_data]. rewrite store_app.
  destruct (od_trim_suffix max_entries (od_del key (mc_data c)) [(key, (clock (mc_reads c), value))]) as [kept ->]; [cbn; lia|].
  by eexists _, [].
Qed.

Lemma hit_recent key value c : (cached key c).2 = Some value →
  ∃ t, (key, (t, value)) ∈ mc_data c ∧ recent key t value ∅ (cached key c).1.
Proof.
  unfold memory_get. destruct (od_get key (mc_data c)) as [[t v]|] eqn:Hg; [|done].
  destruct (fleb ttl _); [done|]. intros [= ->]. exists t. split; [by apply od_get_Some_elem|].
  unfold recent, od_move_to_end. cbn. rewrite Hg. by eexists _, [].
Qed.

(** C32. The in-memory cache is a bounded, expiring, least-recently-used map. After
    any history it holds at most [max_entries] responses; what it answers is the
    last response stored under the key, younger than [ttl]; and it answers it
    whenever fewer than [max_entries] other keys were used since the response was
    stored or last answered. *)
Theorem memory_cache_is_lru history key between :
  (0 < max_entries)%nat → key ∉ map event_key between → (size (keys_of between) < max_entries)%nat →
  let c := memory_after history new_cache in
  (length (mc_data c) ≤ max_entries)%nat ∧
  (∀ value, (cached key c).2 = Some value →
     ∃ t, stored_in history key t value ∧ fleb ttl (fsub (clock (mc_reads c)) t) = false ∧
       let c' := memory_after between (cached key c).1 in
       (cached key c').2 = if fleb ttl (fsub (clock (mc_reads c')) t) then None else Some value) ∧
  (∀ value,
     let c' := memory_after between (memory_put clock max_entries key value c) in
     (cached key c').2 =
       if fleb ttl (fsub (clock (mc_reads c')) (clock (mc_reads c))) then None else Some value).
Proof.
  intros Hm Hk Hs c. pose proof (memory_after_ok history _ new_cache_ok) as Hok. fold c in Hok.
  assert (Hafter : ∀ c0 t value, memory_ok c0 → recent key t value ∅ c0 →
    (cached key (memory_after between c0)).2 =
      if fleb ttl (fsub (clock (mc_reads (memory_after between c0))) t) then None else Some value).
  { intros c0 t value Hok0 Hr. eapply recent_answer; [by apply memory_after_ok|].
    eapply recent_history; [done|exact Hr|done|]. by rewrite union_empty_r_L. }
  split_and!; [apply Hok| |].
  - intros value Hv. destruct (hit_recent _ _ _ Hv) as (t & Hin & Hr). exists t. split_and!.
    + by apply entries_stored.
    + unfold memory_get in Hv. rewrite (od_get_in key (t, value)) in Hv by (done || apply Hok). by destruct (fleb ttl _).
    + apply Hafter; [by apply (memory_event_ok c (Looked key))|done].
  - intros value. apply Hafter; [by apply (memory_event_ok c (Stored key value))|by apply put_recent].
Qed.
End history.

Definition seconds (n : nat) : float := float_of_Z (Z.of_nat n).

Lemma memory_cache_is_lru_witness :
  let v s := [(VStr "answer", VStr s)] in
  let c := memory_after seconds (float_of_Z 10) 2 [Stored "k" (v "one"); Stored "j" (v "two")] new_cache in
  (memory_get seconds (float_of_Z 10) "k" c).2 = Some (v "one") ∧
  (memory_get seconds (float_of_Z 10) "k" (memory_after seconds (float_of_Z 10) 2 [Stored "i" (v "three")]
     (memory_get seconds (float_of_Z 10) "k" c).1)).2 = Some (v "one").
Proof.
  intros v c. assert (H : (memory_get seconds (float_of_Z 10) "k" c).2 = Some (v "one")) by (vm_compute; reflexivity).
  split; [exact H|].
  destruct (memory_cache_is_lru seconds (float_of_Z 10) 2 [Stored "k" (v "one"); Stored "j" (v "two")] "k"
              [Stored "i" (v "three")]) as (_ & Hhit & _).
  - lia.
  - apply (bool_decide_unpack _); vm_compute; exact I.
  - apply (bool_decide_unpack _); vm_compute; exact I.
  - destruct (Hhit _ H) as (t & (h1 & h2 & Hh & _ & Ht) & _ & Ha). cbn zeta in Ha. etrans; [exact Ha|].
    assert (h1 = []) as -> by (destruct h1 as [|e [|e' [|? ?]]]; [done|injection Hh; discriminate|discriminate..]).
    rewrite Ht. vm_compute. reflexivity.
Defined.

(** ** The Redis-compatible provider *)

(** What a client's [get] returns: bytes decode or do not. *)
Inductive raw_value :=
| RawNone
| RawStr (s : string)
| RawBytes (decoded : option string)
| RawOther (v : pyval).

(** The caller's client. *)
Class RedisClient (R : Type) := {
  client_get : string → R → R * res string raw_value;
  client_set : string → string → Z → R → R * res string unit;
  client_may : R → string → raw_value → Prop;
}.

(** The server forgets, but under a key it answers only what was set there. *)
Class RedisLaws (R : Type) `{RedisClient R} := {
  client_honest k r raw : (client_get k r).2 = Ok raw → raw ≠ RawNone → client_may r k raw;
  client_get_keeps k r k' raw : client_may (client_get k r).1 k' raw → client_may r k' raw;
  client_set_keeps k t ex r k' raw :
    client_may (client_set k t ex r).1 k' raw →
    client_may r k' raw ∨ (k' = k ∧ (raw = RawStr t ∨ raw = RawBytes (Some t)));
}.

Section redis.
Context (float_repr : float → string) (json_loads : string → option pyval).
Context {R : Type} `{RedisClient R}.

Record redis_cache := { rc_client : R; rc_ttl_seconds : Z; rc_namespace : string }.

(** [RedisResponseCacheProvider.__init__]; an argument that is no [int] or no
    [str], or a client without the two methods, is refused before. *)
Definition RedisResponseCacheProvider (client : R) (ttl_seconds namespace : pyval) : res string redis_cache :=
  match ttl_seconds with
  | VInt ttl =>
      if ttl <? 1 then Raise "ttl_seconds must be a positive integer" else
      match namespace with
      | VStr s => if str_truthy (str_strip s)
                  then Ok {| rc_client := client; rc_ttl_seconds := ttl; rc_namespace := str_strip s |}
                  else Raise "namespace must be a non-empty string"
      | _ => Raise "namespace must be a non-empty string"
      end
  | _ => Raise "ttl_seconds must be a positive integer"
  end.

Definition with_redis_client (r : R) (c : redis_cache) : redis_cache :=
  {| rc_client := r; rc_ttl_seconds := rc_ttl_seconds c; rc_namespace := rc_namespace c |}.

Definition _storage_key (c : redis_cache) (key : string) : res string string :=
  if str_truthy key then Ok (String.append (rc_namespace c) (String ":" key))
  else Raise "cache key must be a non-empty string".

Definition as_response (v : pyval) : option response := match v with VDict d => Some d | _ => None end.

(** A JSON text that does not parse is caught with every other failure. *)
Definition decode_raw (raw : raw_value) : option response :=
  match raw with
  | RawNone | RawBytes None => None
  | RawStr s | RawBytes (Some s) => json_loads s ≫= as_response
  | RawOther v => as_response v
  end.

Definition redis_get (key : string) (c : redis_cache) : redis_cache * res string (option response) :=
  match _storage_key c key with
  | Raise e => (c, Raise e)
  | Ok storage_key =>
      let '(r, raw) := client_get storage_key (rc_client c) in
      (with_redis_client r c, Ok match raw with Ok raw => decode_raw raw | Raise _ => None end)
  end.

Definition redis_put (key : string) (value : response) (c : redis_cache) : redis_cache * res string unit :=
  match _storage_key c key with
  | Raise e => (c, Raise e)
  | Ok storage_key =>
      let '(r, _) := client_set storage_key (json_dumps float_repr false (VDict value)) (rc_ttl_seconds c)
                       (rc_client c) in
      (with_redis_client r c, Ok tt)
  end.

#[local] Instance redis_provider : CacheProvider redis_cache := {
  cache_get := redis_get;
  cache_put := redis_put;
  cache_sees v := decode_raw (RawStr (json_dumps float_repr false (VDict v)));
  cache_may c key v := ∃ storage_key raw,
    _storage_key c key = Ok storage_key ∧ client_may (rc_client c) storage_key raw ∧ decode_raw raw = Some v;
}.

(** Distinct keys have distinct names in the namespace. *)
Lemma storage_key_inj c key key' k : _storage_key c key = Ok k → _storage_key c key' = Ok k → key = key'.
Proof.
  unfold _storage_key. destruct (str_truthy key); [|done]. destruct (str_truthy key'); [|done].
  intros [= <-] [= Heq]. induction (rc_namespace c) as [|a s IH]; cbn in Heq; [by injection Heq|].
  injection Heq as Heq. by apply IH.
Qed.

#[local] Instance redis_laws : RedisLaws R → CacheLaws redis_cache.
Proof.
  intros HL. split.
  - intros key c v. cbn. unfold redis_get. destruct (_storage_key c key) as [k|e] eqn:Hk; [|done].
    destruct (client_get k (rc_client c)) as [r [raw|e]] eqn:Hg; cbn; [|done]. intros [= Hv].
    exists k, raw. split_and!; [done| |done]. apply client_honest; [by rewrite Hg|]. by destruct raw.
  - intros key c key' v. cbn. unfold redis_get. destruct (_storage_key c key) as [k|e] eqn:Hk; [|done].
    destruct (client_get k (rc_client c)) as [r raw'] eqn:Hg. cbn. intros (k' & raw & Hk' & Hm & Hv).
    exists k', raw. split_and!; [done| |done]. apply (client_get_keeps k). by rewrite Hg.
  - intros key value c key' v. cbn. unfold redis_put. destruct (_storage_key c key) as [k|e] eqn:Hk; [|by left].
    destruct (client_set k _ _ _) as [r out] eqn:Hg. cbn. intros (k' & raw & Hk' & Hm & Hv).
    assert (Hor : client_may (rc_client c) k' raw ∨
      (k' = k ∧ (raw = RawStr (json_dumps float_repr false (VDict value)) ∨
                 raw = RawBytes (Some (json_dumps float_repr false (VDict value)))))).
    { eapply client_set_keeps. by rewrite Hg. }
    destruct Hor as [Hm'|[-> Hraw]]; [left; by exists k', raw|]. right.
    split; [by eapply storage_key_inj|]. by destruct Hraw as [->| ->].
Qed.

(** The provider fails open: with a proper key neither operation raises, whatever
    the client does. *)
Lemma redis_fails_open key value c : key ≠ "" →
  (∃ v, (redis_get key c).2 = Ok v) ∧ (redis_put key value c).2 = Ok tt.
Proof.
  intros Hk%str_truthy_spec. unfold redis_get, redis_put, _storage_key. rewrite Hk.
  destruct (client_get _ _), (client_set _ _ _ _). cbn. split; [by eexists|done].
Qed.

(** What the server returns is the JSON view of what was stored. *)
Lemma redis_sees (float_of_token : list ascii → option float) v :
  readable float_repr float_of_token (json_view false (VDict v)) →
  json_loads (json_dumps float_repr false (VDict v)) =
    json_read_with float_of_token (json_dumps float_repr false (VDict v)) →
  Some (json_view false (VDict v)) = VDict <$> cache_sees v.
Proof.
  intros Hr Hl. cbn [cache_sees redis_provider decode_raw]. rewrite Hl. unfold json_dumps.
  by rewrite json_read_with_render.
Qed.
End redis.
