(* ===== verification/Gateway.v ===== *)
(** orchestrator.py: what the request flows ([conduct], [route_once]) share. The
    state of the gateway, the arguments and the reply of one guarded invocation,
    the interface the flows are proved against, and its implementation by the
    recovery loop of Recovery. *)

From Stdlib Require Import String QArith Qcanon.
From S2P Require Import Prelude StateLogic PyString PyCollections PyFloat PyValue Exceptions ToolFallback.
From S2P Require Import ProviderErrors ModelGroup EndpointRace Agents AgentHealth Ranking Transport Failover.
From S2P Require Import ToolLoop Recovery Workflow Budget Judge.
Open Scope Z_scope.

(** ** One invocation *)

(** The arguments of [_invoke_with_rate_limit_recovery]. *)
Record step_call := {
  sc_agent : ModelAgent;
  sc_messages : list message;
  sc_text : string;
  sc_role : string;
  sc_allowed : option (list string);
  sc_shares_exclusions : bool;            (* passes the caller's excluded_agent_ids *)
  sc_virtual : bool;
  sc_bound : option Z;
}.

(** What it returns, and what it leaves in the thread's evidence slots. *)
Record step_reply := {
  sr_output : string;
  sr_served_id : string;
  sr_served_model : string;
  sr_usage : option dict;
  sr_extras : option dict;                (* _last_assistant_message *)
  sr_budget : option output_budget;       (* _last_output_budget *)
  sr_window : list string;                (* _last_context_window_excluded *)
  sr_route : option route_evidence;       (* _last_route_evidence *)
}.

Inductive flow_error :=
| FlowBudget (e : budget_error)           (* BudgetExceededError *)
| FlowPlan (e : plan_error)
| FlowKeyError (key : string)
| FlowIndexError
| FlowValueError (m : string)
| FlowRuntimeError (m : string)
| FlowInvoke (out : invoke_outcome)       (* what an invocation raised *)
| FlowUnfinished.                         (* the invocation had no fuel left *)

(** ** The gateway *)

Record gateway := {
  gw_health : health;
  gw_router : group_router;               (* group_router *)
  gw_quality : group_router;              (* quality_router *)
  gw_memory : tool_loop_memory;
  gw_meter : budget_meter;
  gw_run_order : list string;             (* _run_order, newest first *)
  gw_excluded : option (list string);     (* the request's shared excluded_agent_ids *)
  gw_invoked : list step_call;            (* invocations of the request, for the theorems *)
  gw_called : list string;                (* agents whose provider was called *)
}.

Definition with_excluded (l : option (list string)) (g : gateway) : gateway :=
  {| gw_health := gw_health g; gw_router := gw_router g; gw_quality := gw_quality g;
     gw_memory := gw_memory g; gw_meter := gw_meter g; gw_run_order := gw_run_order g;
     gw_excluded := l; gw_invoked := gw_invoked g; gw_called := gw_called g |}.

Definition with_quality (q : group_router) (g : gateway) : gateway :=
  {| gw_health := gw_health g; gw_router := gw_router g; gw_quality := q;
     gw_memory := gw_memory g; gw_meter := gw_meter g; gw_run_order := gw_run_order g;
     gw_excluded := gw_excluded g; gw_invoked := gw_invoked g; gw_called := gw_called g |}.

Definition with_ledgers (h : health) (r : group_router) (g : gateway) : gateway :=
  {| gw_health := h; gw_router := r; gw_quality := gw_quality g; gw_memory := gw_memory g;
     gw_meter := gw_meter g; gw_run_order := gw_run_order g; gw_excluded := gw_excluded g;
     gw_invoked := gw_invoked g; gw_called := gw_called g |}.

Definition with_memory (m : tool_loop_memory) (g : gateway) : gateway :=
  {| gw_health := gw_health g; gw_router := gw_router g; gw_quality := gw_quality g;
     gw_memory := m; gw_meter := gw_meter g; gw_run_order := gw_run_order g;
     gw_excluded := gw_excluded g; gw_invoked := gw_invoked g; gw_called := gw_called g |}.

Definition with_meter (m : budget_meter) (order : list string) (g : gateway) : gateway :=
  {| gw_health := gw_health g; gw_router := gw_router g; gw_quality := gw_quality g;
     gw_memory := gw_memory g; gw_meter := m; gw_run_order := order;
     gw_excluded := gw_excluded g; gw_invoked := gw_invoked g; gw_called := gw_called g |}.

Definition note_invoked (c : step_call) (g : gateway) : gateway :=
  {| gw_health := gw_health g; gw_router := gw_router g; gw_quality := gw_quality g;
     gw_memory := gw_memory g; gw_meter := gw_meter g; gw_run_order := gw_run_order g;
     gw_excluded := gw_excluded g; gw_invoked := gw_invoked g ++ [c]; gw_called := gw_called g |}.

Definition note_called (l : list string) (g : gateway) : gateway :=
  {| gw_health := gw_health g; gw_router := gw_router g; gw_quality := gw_quality g;
     gw_memory := gw_memory g; gw_meter := gw_meter g; gw_run_order := gw_run_order g;
     gw_excluded := gw_excluded g; gw_invoked := gw_invoked g; gw_called := gw_called g ++ l |}.

Abbreviation FLOW := (ST gateway flow_error).

(** ** The interface of an invocation *)

Class Invoker := invoke_step : step_call → FLOW step_reply.

(** What of the gateway only the flows themselves change. *)
Definition same_records (g g' : gateway) : Prop :=
  gw_quality g' = gw_quality g ∧ gw_memory g' = gw_memory g ∧ gw_meter g' = gw_meter g ∧
  gw_run_order g' = gw_run_order g ∧ gw_invoked g' = gw_invoked g.

#[export] Instance same_records_preorder : PreOrder same_records.
Proof.
  split; [done|]. intros x y z (?&?&?&?&?) (?&?&?&?&?). split_and!; by etrans.
Qed.

(** An invocation leaves the records alone, calls only agents of its allow-list,
    and raises what an invocation raises. *)
Class InvokerLaws (I : Invoker) := {
  invoke_records c g : same_records g (invoke_step c g).1;
  invoke_called c g :
    ∃ l, gw_called (invoke_step c g).1 = gw_called g ++ l ∧ Forall (within (sc_allowed c)) l;
  invoke_raises c g e :
    (invoke_step c g).2 = Raise e → (∃ out, e = FlowInvoke out) ∨ e = FlowUnfinished;
}.

(** The invocation, noted for the theorems. *)
Definition invoke `{Invoker} (c : step_call) : FLOW step_reply := λ g, invoke_step c (note_invoked c g).

(** ** Shared reads *)

(** Ranking reads both ledgers as they are. *)
Definition now_ranking (env : ranking_env) (g : gateway) : ranking_env :=
  let env := with_group_ledger (gw_router g) env in
  {| re_ctx := re_ctx env; re_urlparse := re_urlparse env; re_agents := re_agents env;
     re_candidates := re_candidates env; re_prices := re_prices env; re_settings := re_settings env;
     re_ledgers := {| lg_group_cfg := lg_group_cfg (re_ledgers env); lg_group := lg_group (re_ledgers env);
                      lg_quality_cfg := lg_quality_cfg (re_ledgers env); lg_quality := gw_quality g |};
     re_affinities := re_affinities env; re_evidenced := re_evidenced env;
     re_role_fallback := re_role_fallback env |}.

(** [_agent(agent_id)]. *)
Definition find_agent (env : ranking_env) (agent_id : string) : option ModelAgent :=
  List.find (λ a, String.eqb (id a) agent_id && _agent_matches_request_endpoint (re_urlparse env) (re_ctx env) a)
    (re_candidates env).

Definition _agent (env : ranking_env) (agent_id : string) : res flow_error ModelAgent :=
  match find_agent env agent_id with Some a => Ok a | None => Raise (FlowKeyError agent_id) end.

(** A call's [tool_calls], when the assistant message has some. *)
Definition extras_tool_calls (extras : option dict) : option pyval :=
  match extras with
  | Some d => let v := dget "tool_calls" d in if truthy v then Some v else None
  | None => None
  end.

(** [for x in new: if x not in l: l.append(x)]. *)
Definition append_new (l new : list string) : list string :=
  fold_left (λ l x, if in_strs x l then l else l ++ [x]) new l.

(** [_with_context_window_evidence]: attached when a candidate was skipped. *)
Definition _with_context_window_evidence (bound : option (Z * string)) (excluded : list string)
    : option (Z * string * list string) :=
  match bound, excluded with
  | Some (b, source), _ :: _ => Some (b, source, excluded)
  | _, _ => None
  end.

(** ** What a flow may change *)

(** The state of a flow between two points: only an invocation's effects and the
    tool-loop memory changed, and every provider called was permitted. *)
Definition moves (permitted : option (list string)) (g g' : gateway) (calls : list step_call) : Prop :=
  gw_quality g' = gw_quality g ∧ gw_meter g' = gw_meter g ∧ gw_run_order g' = gw_run_order g ∧
  gw_invoked g' = gw_invoked g ++ calls ∧
  ∃ l, gw_called g' = gw_called g ++ l ∧ Forall (within permitted) l.

Lemma moves_refl permitted g : moves permitted g g [].
Proof. split_and!; try done; [by rewrite app_nil_r|]. exists []. by rewrite app_nil_r. Qed.

Lemma moves_trans permitted g1 g2 g3 c1 c2 :
  moves permitted g1 g2 c1 → moves permitted g2 g3 c2 → moves permitted g1 g3 (c1 ++ c2).
Proof.
  intros (Hq & Hm & Ho & Hi & l & Hc & Hl) (Hq' & Hm' & Ho' & Hi' & l' & Hc' & Hl').
  split_and!; [congruence..|by rewrite Hi', Hi, app_assoc|].
  exists (l ++ l'). rewrite Hc', Hc, app_assoc. split; [done|]. by apply Forall_app.
Qed.

Lemma invoke_moves `{HI : Invoker} {HL : InvokerLaws HI} c g : moves (sc_allowed c) g (invoke c g).1 [c].
Proof.
  unfold invoke. destruct (invoke_records c (note_invoked c g)) as (Hq & _ & Hm & Ho & Hi).
  destruct (invoke_called c (note_invoked c g)) as (l & Hc & Hl).
  split_and!; [done|done|done|done|]. by exists l.
Qed.

(** The pool as the gateway keeps it: unique ids, and the agents are the enabled
    candidates. *)
Definition gateway_pool (env : ranking_env) : Prop :=
  NoDup (ids (re_candidates env)) ∧ (∀ context, evidenced_ok (re_evidenced env context)) ∧
  re_agents env = List.filter (λ a, negb (disabled a)) (re_candidates env).

Lemma gateway_pool_ok env : gateway_pool env → pool_ok env.
Proof.
  intros (Hnd & Hev & Ha). split; [|done]. rewrite Ha. eapply sublist_ids; [apply filter_sublist|done].
Qed.

Lemma gateway_pool_now env g : gateway_pool env → gateway_pool (now_ranking env g).
Proof. done. Qed.

(** ** The implementation *)

Section recovering.
Context (json_loads : string → option pyval)
        (parse_http_date : string → option float)
        (float_of_text : string → option float)
        (float_repr : float → string)
        (env : nat → recovery_env)               (* the n-th invocation's surroundings *)
        (fuel : nat → nat)
        (prompt_context : list message → option string)
        (extras : nat → option dict) (budget : nat → option output_budget) (window : nat → list string).

Definition recovery_request_of (c : step_call) : recovery_request :=
  {| rq_primary := sc_agent c; rq_text := sc_text c; rq_role := sc_role c; rq_eligibility_role := "";
     rq_required_tags := _image_input_required_tags (sc_messages c);
     rq_prompt_context := prompt_context (sc_messages c); rq_effort_fallback := None;
     rq_allowed := sc_allowed c; rq_virtual_selector := sc_virtual c;
     rq_token_lower_bound := sc_bound c |}.

Definition recovering : Invoker := λ c g,
  let n := length (gw_invoked g) in
  let start := recovery_start (gw_health g) (gw_router g)
                 (if sc_shares_exclusions c then gw_excluded g else None) in
  let '(st, out) :=
    recover json_loads parse_http_date float_of_text float_repr (env n) (recovery_request_of c) (fuel n) 0
      start in
  let g := note_called (concat (map rl_calls (rc_log st))) (with_ledgers (rc_health st) (rc_router st) g) in
  let g := if sc_shares_exclusions c then with_excluded (rc_excluded st) g else g in
  (g, match out with
      | Some (Served sv) =>
          Ok {| sr_output := sv_output sv; sr_served_id := sv_agent_id sv; sr_served_model := sv_model sv;
                sr_usage := sv_usage sv; sr_extras := extras n; sr_budget := budget n;
                sr_window := window n; sr_route := rc_last_route st |}
      | Some out => Raise (FlowInvoke out)
      | None => Raise FlowUnfinished
      end).

Lemma concat_within permitted (logs : list round_log) :
  Forall (λ lg, Forall (within permitted) (rl_calls lg)) logs →
  Forall (within permitted) (concat (map rl_calls logs)).
Proof. induction 1; cbn; [constructor|]. by apply Forall_app. Qed.

(** The recovery loop keeps the laws of the interface. *)
Lemma recovering_laws : (∀ n, env_ok (env n)) → InvokerLaws recovering.
Proof.
  intros Hor.
  assert (Hlog : ∀ c n h r x,
    Forall (λ lg, Forall (within (sc_allowed c)) (rl_calls lg))
      (rc_log (recover json_loads parse_http_date float_of_text float_repr (env n) (recovery_request_of c)
                 (fuel n) 0 (recovery_start h r x)).1)).
  { intros c n h r x.
    destruct (loop_spec json_loads parse_http_date float_of_text float_repr (env n) (recovery_request_of c)
                (fuel n) 0 (recovery_start h r x) (Hor n) (recovery_start_inv _ h r x)) as (Hall & _).
    eapply Forall_impl; [exact Hall|]. intros lg [_ Hl]. unfold within. cbn in Hl.
    destruct (sc_allowed c) as [l|]; [by apply Hl|by apply Forall_true]. }
  split.
  - intros c g. unfold invoke_step, recovering. destruct (recover _ _ _ _ _ _ _ _ _) as [st out].
    by destruct (sc_shares_exclusions c).
  - intros c g. specialize (Hlog c (length (gw_invoked g)) (gw_health g) (gw_router g)
      (if sc_shares_exclusions c then gw_excluded g else None)).
    unfold invoke_step, recovering. destruct (recover _ _ _ _ _ _ _ _ _) as [st out].
    exists (concat (map rl_calls (rc_log st))). split; [by destruct (sc_shares_exclusions c)|].
    by apply concat_within.
  - intros c g e. unfold invoke_step, recovering. destruct (recover _ _ _ _ _ _ _ _ _) as [st out].
    destruct out as [[sv|m|m|cl]|]; cbn; intros H; try done; injection H as <-; eauto.
Qed.
End recovering.

(** ** A small gateway *)

Definition fresh_gateway : gateway :=
  {| gw_health := empty_health; gw_router := empty_router; gw_quality := empty_router; gw_memory := [];
     gw_meter := empty_meter; gw_run_order := []; gw_excluded := None; gw_invoked := []; gw_called := [] |}.

Definition demo_messages : list message :=
  [[(VStr "role", VStr "user"); (VStr "content", VStr "the task")]].

(** Every agent answers with the role it plays. *)
Definition scripted : Invoker := λ c g,
  (g,
   Ok {| sr_output := String.append "by the " (sc_role c); sr_served_id := id (sc_agent c);
         sr_served_model := model (sc_agent c); sr_usage := None; sr_extras := None; sr_budget := None;
         sr_window := []; sr_route := None |}).

Lemma scripted_laws : InvokerLaws scripted.
Proof. split; [done| |done]. intros c g. exists []. split; [by rewrite app_nil_r|constructor]. Defined.

(** The recovery loop under a workflow: the one agent is called twice for the
    storm's first step and, after the wait, answers. *)
Definition storm_invoker : Invoker :=
  recovering (λ _, None) (λ _, None) (λ _, None) (λ _, "") (λ _, storm_env (λ _, Failover.demo_reply)) (λ _, 3%nat)
    (λ _, None) (λ _, None) (λ _, None) (λ _, []).

Lemma storm_laws : InvokerLaws storm_invoker.
Proof. apply recovering_laws. intros n. by apply storm_ok. Defined.

Lemma gateway_pool_demo pool :
  NoDup (ids pool) → Forall (λ a, disabled a = false) pool → gateway_pool (demo_env pool).
Proof.
  intros Hnd Hd. split_and!; [exact Hnd| |].
  - intros c l _. split; [constructor|]. intros a Ha. by apply elem_of_nil in Ha.
  - cbn. symmetry. clear Hnd. induction Hd as [|a l Ha _ IH]; cbn; [done|]. by rewrite Ha, IH.
Defined.

Lemma demo_pool_gateway : gateway_pool (demo_env demo_pool).
Proof.
  apply gateway_pool_demo; [apply (bool_decide_unpack _); vm_compute; exact I|by repeat constructor].
Defined.
