(* ===== verification/AgentStore.v ===== *)
(** orchestrator.py: [_AgentPoolStore], the SQLite tables of the agent pool and
    its model groups, equivalence contracts and timeout history, with the
    transactions that write them and [load_all].

    A table is the finite map of its primary key; the ordered child tables are
    the lists of their rows. Every write is a transaction: what SQLite raises in
    one (a locked file, a full disk) is the parameter [sqlite_fault]. Timestamps
    and the migrations of older schemas are not modelled. *)

From Stdlib Require Import Ascii String.
From S2P Require Import Prelude PyString PyCollections PyFloat PyValue ModelGroup EndpointRace Agents.
Open Scope Z_scope.

Inductive store_error :=
| StoreValue (m : string)
| StoreKey (m : string)
| StoreSql (m : string)                   (* sqlite3.Error, OverflowError *)
| StoreConfig (e : config_error).         (* a row that makes no ModelAgent *)

(** ** Agents whose fields are replaced *)

(** The fields [__post_init__] checks dynamically, as raw values. *)
Record raw_fields := {
  rf_group : pyval; rf_max_output : pyval; rf_window : pyval; rf_equivalence : pyval; rf_stream : pyval;
  rf_timeout : pyval; rf_revision : pyval;
}.

Definition raw_of (a : ModelAgent) : raw_fields :=
  {| rf_group := VStr (group_name a); rf_max_output := opt_val VInt (max_output_tokens a);
     rf_window := opt_val VInt (context_window a);
     rf_equivalence := opt_val (λ c, VDict (contract_to_dict c)) (endpoint_equivalence a);
     rf_stream := VBool (stream_usage_supported a); rf_timeout := opt_val VFloat (model_timeout_seconds a);
     rf_revision := VInt (model_timeout_revision a) |}.

(** [dataclasses.replace]: the constructor runs again, over all fields. *)
Definition replace_agent (url_scheme : string → string) (a : ModelAgent) (rf : raw_fields)
    : res config_error ModelAgent :=
  ModelAgent_init url_scheme (id a) (model a) (base_url a) (api_key_env a) (credential_key a) (tags a)
    (priority a) (disabled a) (provider_name a) (provider_exclusions a) (VStr (local_credential_key a))
    (VStr (auth_scheme a)) (rf_max_output rf) (rf_window rf) (rf_group rf)
    (opt_val VBool (reasoning_effort_supported a)) (rf_equivalence rf) (rf_stream rf) (rf_timeout rf)
    (rf_revision rf).

(** ** The tables *)

(** A row of [agent_pool]. *)
Record agent_row := {
  ar_model : string;
  ar_base_url : string;
  ar_api_key_env : string;
  ar_credential_key : string;
  ar_priority : Z;
  ar_disabled : bool;
  ar_provider_name : string;
  ar_local_credential_key : string;
  ar_auth_scheme : string;
  ar_max_output_tokens : option Z;
  ar_context_window : option Z;
  ar_reasoning_effort_supported : option bool;
  ar_stream_usage_supported : bool;
  ar_model_timeout_seconds : option float;
}.

(** A row of [model_timeout_history]. *)
Record history_row := {
  hr_revision : Z;
  hr_agent : string;
  hr_previous : option float;
  hr_timeout : option float;
  hr_actor : option string;
  hr_restored : option Z;
}.

Record pool_db := {
  db_pool : gmap string agent_row;
  db_tags : gmap string (list string);                (* agent_pool_tags, by position *)
  db_exclusions : gmap string (list string);          (* agent_pool_provider_exclusions *)
  db_groups : gset string;                            (* model_group *)
  db_group_of : gmap string string;                   (* model_group_member *)
  db_contracts : gmap string EndpointEquivalenceContract;   (* with their capabilities *)
  db_contract_of : gmap string string;                (* endpoint_equivalence_member *)
  db_history : list history_row;                      (* in insertion order *)
  db_sequence : Z;                                    (* AUTOINCREMENT *)
}.

Definition empty_db : pool_db :=
  {| db_pool := ∅; db_tags := ∅; db_exclusions := ∅; db_groups := ∅; db_group_of := ∅; db_contracts := ∅;
     db_contract_of := ∅; db_history := []; db_sequence := 0 |}.

(** ** Statements *)

Definition agent_columns (a : ModelAgent) : agent_row :=
  {| ar_model := model a; ar_base_url := base_url a; ar_api_key_env := api_key_env a;
     ar_credential_key := credential_key a; ar_priority := priority a; ar_disabled := disabled a;
     ar_provider_name := provider_name a; ar_local_credential_key := local_credential_key a;
     ar_auth_scheme := auth_scheme a; ar_max_output_tokens := max_output_tokens a;
     ar_context_window := context_window a; ar_reasoning_effort_supported := reasoning_effort_supported a;
     ar_stream_usage_supported := stream_usage_supported a;
     ar_model_timeout_seconds := model_timeout_seconds a |}.

Definition with_row_timeout (t : option float) (r : agent_row) : agent_row :=
  {| ar_model := ar_model r; ar_base_url := ar_base_url r; ar_api_key_env := ar_api_key_env r;
     ar_credential_key := ar_credential_key r; ar_priority := ar_priority r; ar_disabled := ar_disabled r;
     ar_provider_name := ar_provider_name r; ar_local_credential_key := ar_local_credential_key r;
     ar_auth_scheme := ar_auth_scheme r; ar_max_output_tokens := ar_max_output_tokens r;
     ar_context_window := ar_context_window r; ar_reasoning_effort_supported := ar_reasoning_effort_supported r;
     ar_stream_usage_supported := ar_stream_usage_supported r; ar_model_timeout_seconds := t |}.

Definition with_pool_row (agent_id : string) (r : agent_row) (db : pool_db) : pool_db :=
  {| db_pool := <[agent_id := r]> (db_pool db); db_tags := db_tags db; db_exclusions := db_exclusions db;
     db_groups := db_groups db; db_group_of := db_group_of db; db_contracts := db_contracts db;
     db_contract_of := db_contract_of db; db_history := db_history db; db_sequence := db_sequence db |}.

(** The 64-bit integers of the SQLite binding. *)
Definition INT64_MIN : Z := - 9223372036854775808.
Definition INT64_MAX : Z := 9223372036854775807.
Definition sql_integer (n : Z) : bool := (INT64_MIN <=? n) && (n <=? INT64_MAX).

(** Binding an integer outside of that range raises. *)
Definition bindable (a : ModelAgent) : bool :=
  sql_integer (priority a) && forallb sql_integer (option_list (max_output_tokens a)) &&
  forallb sql_integer (option_list (context_window a)) &&
  match endpoint_equivalence a with Some c => sql_integer (context_limit c) | None => true end.

(** The table's CHECK constraints. *)
Definition limit_checks (o : option Z) : bool :=
  match o with Some n => (0 <? n) && (n <=? INT64_MAX) | None => true end.

Definition timeout_check (t : option float) : bool :=
  match t with Some x => fltb f0 x && fleb x MAX_MODEL_TIMEOUT_SECONDS | None => true end.

Definition row_checks (r : agent_row) : bool :=
  limit_checks (ar_max_output_tokens r) && limit_checks (ar_context_window r) &&
  timeout_check (ar_model_timeout_seconds r).

Definition with_children (a : ModelAgent) (db : pool_db) : pool_db :=
  {| db_pool := db_pool db; db_tags := <[id a := tags a]> (db_tags db);
     db_exclusions := <[id a := provider_exclusions a]> (db_exclusions db);
     db_groups := db_groups db; db_group_of := db_group_of db; db_contracts := db_contracts db;
     db_contract_of := db_contract_of db; db_history := db_history db; db_sequence := db_sequence db |}.

(** UPDATE, or INSERT where no row changed: an update leaves the timeout alone. *)
Definition upsert_row (a : ModelAgent) (db : pool_db) : res store_error pool_db :=
  let row :=
    match db_pool db !! id a with
    | Some old => with_row_timeout (ar_model_timeout_seconds old) (agent_columns a)
    | None => agent_columns a
    end in
  if negb (bindable a) then Raise (StoreSql "Python int too large to convert to SQLite INTEGER")
  else if negb (row_checks row) then Raise (StoreSql "CHECK constraint failed")
  else Ok (with_children a (with_pool_row (id a) row db)).

(** The membership of a model group; a group without members is pruned. *)
Definition save_group (a : ModelAgent) (db : pool_db) : pool_db :=
  let others := delete (id a) (db_group_of db) in
  let '(groups, members) :=
    if str_truthy (group_name a)
    then ({[group_name a]} ∪ db_groups db, <[id a := group_name a]> others)
    else (db_groups db, others) in
  {| db_pool := db_pool db; db_tags := db_tags db; db_exclusions := db_exclusions db;
     db_groups := filter (λ g, g ∈ (map_img members : gset string)) groups; db_group_of := members;
     db_contracts := db_contracts db; db_contract_of := db_contract_of db; db_history := db_history db;
     db_sequence := db_sequence db |}.

(** The equivalence contract, shared by the agents that name its id. *)
Definition save_contract (a : ModelAgent) (db : pool_db) : pool_db :=
  let others := delete (id a) (db_contract_of db) in
  let kept := filter (λ kv, kv.1 ∈ (map_img others : gset string)) (db_contracts db) in
  let '(contracts, members) :=
    match endpoint_equivalence a with
    | Some c => (<[contract_id c := c]> kept, <[id a := contract_id c]> others)
    | None => (kept, others)
    end in
  {| db_pool := db_pool db; db_tags := db_tags db; db_exclusions := db_exclusions db;
     db_groups := db_groups db; db_group_of := db_group_of db; db_contracts := contracts;
     db_contract_of := members; db_history := db_history db; db_sequence := db_sequence db |}.

(** ** The timeout history *)

Definition history_of (agent_id : string) (db : pool_db) : list history_row :=
  List.filter (λ h, String.eqb (hr_agent h) agent_id) (db_history db).

(** [COALESCE(MAX(policy_revision), 0)]. *)
Definition max_revision (agent_id : string) (db : pool_db) : Z :=
  foldr Z.max 0 (map hr_revision (history_of agent_id db)).

Definition historical (agent_id : string) (policy_revision : Z) (db : pool_db) : option (option float) :=
  hr_timeout <$> List.find (λ h, hr_revision h =? policy_revision) (history_of agent_id db).

Definition same_seconds (a b : option float) : bool :=
  match a, b with Some x, Some y => feqb x y | None, None => true | _, _ => false end.

Definition append_history (h : history_row) (db : pool_db) : pool_db :=
  {| db_pool := db_pool db; db_tags := db_tags db; db_exclusions := db_exclusions db;
     db_groups := db_groups db; db_group_of := db_group_of db; db_contracts := db_contracts db;
     db_contract_of := db_contract_of db; db_history := db_history db ++ [h];
     db_sequence := hr_revision h |}.

Definition history_entry (previous updated : ModelAgent) (actor_id : option string)
    (restored_from_revision : option Z) (revision : Z) : history_row :=
  {| hr_revision := revision; hr_agent := id updated; hr_previous := model_timeout_seconds previous;
     hr_timeout := model_timeout_seconds updated; hr_actor := actor_id; hr_restored := restored_from_revision |}.

Definition _append_timeout_history (previous updated : ModelAgent) (actor_id : option string)
    (restored_from_revision : option Z) (db : pool_db) : res store_error (pool_db * Z) :=
  match restored_from_revision with
  | None => Ok tt
  | Some n =>
      match historical (id updated) n db with
      | Some t => if same_seconds t (model_timeout_seconds updated) then Ok tt
                  else Raise (StoreValue "restored timeout must match this model's historical revision")
      | None => Raise (StoreValue "restored timeout must match this model's historical revision")
      end
  end ≫= λ _ : unit,
  if INT64_MAX <=? db_sequence db then Raise (StoreSql "database or disk is full") else
  let revision := db_sequence db + 1 in
  Ok (append_history (history_entry previous updated actor_id restored_from_revision revision) db, revision).

(** ** Saving *)

Record timeout_change := {
  tc_previous : ModelAgent;
  tc_actor : option string;
  tc_restored : option Z;
}.

Definition save_rows (a : ModelAgent) (db : pool_db) : res store_error pool_db :=
  upsert_row a db ≫= λ db, Ok (save_contract a (save_group a db)).

Definition policy_changed : store_error := StoreValue "model timeout policy changed; reload before updating".

Definition _save_in_transaction (a : ModelAgent) (change : option timeout_change) (db : pool_db)
    : res store_error (pool_db * option Z) :=
  match change with
  | None => save_rows a db ≫= λ db, Ok (db, None)
  | Some c =>
      let appended db :=
        (λ dr, (dr.1, Some dr.2)) <$> _append_timeout_history (tc_previous c) a (tc_actor c) (tc_restored c) db in
      if negb (max_revision (id a) db =? model_timeout_revision (tc_previous c)) then Raise policy_changed else
      match db_pool db !! id a with
      | Some row =>
          if negb (same_seconds (ar_model_timeout_seconds row) (model_timeout_seconds (tc_previous c)))
          then Raise policy_changed
          else if negb (timeout_check (model_timeout_seconds a)) then Raise (StoreSql "CHECK constraint failed")
          else appended (with_pool_row (id a) (with_row_timeout (model_timeout_seconds a) row) db)
      | None => save_rows a db ≫= appended
      end
  end.

Fixpoint save_each (l : list ModelAgent) (db : pool_db) : res store_error pool_db :=
  match l with
  | [] => Ok db
  | a :: l => _save_in_transaction a None db ≫= λ dr, save_each l dr.1
  end.

(** ** Transactions *)

(** The file and the number of transactions begun on it. *)
Record pool_file := { pf_db : pool_db; pf_transactions : nat }.

Section store.
Context (url_scheme : string → string) (sqlite_fault : nat → option string).

(** [_write_transaction]: commit the whole operation, or none of it. *)
Definition _write_transaction {A} (f : pool_db → res store_error (pool_db * A)) (s : pool_file)
    : pool_file * res store_error A :=
  let next db := {| pf_db := db; pf_transactions := Datatypes.S (pf_transactions s) |} in
  match sqlite_fault (pf_transactions s) with
  | Some m => (next (pf_db s), Raise (StoreSql m))
  | None =>
      match f (pf_db s) with
      | Ok (db, x) => (next db, Ok x)
      | Raise e => (next (pf_db s), Raise e)
      end
  end.

Definition save (a : ModelAgent) (change : option timeout_change) : pool_file → pool_file * res store_error (option Z) :=
  _write_transaction (_save_in_transaction a change).

Definition save_many (l : list ModelAgent) : pool_file → pool_file * res store_error unit :=
  _write_transaction (λ db, (λ db, (db, tt)) <$> save_each l db).

(** ** Reading *)

Definition timeout_at_revision (agent_id : string) (policy_revision : Z) (s : pool_file)
    : res store_error (option float) :=
  match historical agent_id policy_revision (pf_db s) with
  | Some t => Ok t
  | None => Raise (StoreKey "model timeout revision not found")
  end.

(** The page before [before_revision], newest first. *)
Definition timeout_history (agent_id : string) (page_size : nat) (before_revision : option Z) (s : pool_file)
    : list history_row :=
  firstn (Datatypes.S page_size)
    (List.filter (λ h, match before_revision with Some n => hr_revision h <? n | None => true end)
       (py_sorted (λ h h', hr_revision h' <=? hr_revision h) (history_of agent_id (pf_db s)))).

Definition contract_for (agent_id : string) (db : pool_db) : option EndpointEquivalenceContract :=
  db_contract_of db !! agent_id ≫= λ contract_id, db_contracts db !! contract_id.

(** One row of [load_all], joined with the other tables. *)
Definition load_row (db : pool_db) (kr : string * agent_row) : res config_error ModelAgent :=
  let '(agent_id, row) := kr in
  ModelAgent_init url_scheme agent_id (ar_model row) (ar_base_url row) (ar_api_key_env row)
    (ar_credential_key row) (default [] (db_tags db !! agent_id)) (ar_priority row) (ar_disabled row)
    (ar_provider_name row) (default [] (db_exclusions db !! agent_id)) (VStr (ar_local_credential_key row))
    (VStr (ar_auth_scheme row)) (opt_val VInt (ar_max_output_tokens row)) (opt_val VInt (ar_context_window row))
    (VStr (default "" (db_group_of db !! agent_id))) (opt_val VBool (ar_reasoning_effort_supported row))
    (opt_val (λ c, VDict (contract_to_dict c)) (contract_for agent_id db))
    (VBool (ar_stream_usage_supported row)) (opt_val VFloat (ar_model_timeout_seconds row))
    (VInt (max_revision agent_id db)).

Definition rows_by_id (db : pool_db) : list (string * agent_row) :=
  py_sorted (λ x y, String.leb x.1 y.1) (map_to_list (db_pool db)).

Definition load_all (s : pool_file) : res store_error (list ModelAgent) :=
  map_raise StoreConfig (map_res (load_row (pf_db s)) (rows_by_id (pf_db s))).

(** The agent the tables hold under an id. *)
Definition agent_of_row (agent_id : string) (r : agent_row) (ts exclusions : list string) (group : string)
    (c : option EndpointEquivalenceContract) (revision : Z) : ModelAgent :=
  {| id := agent_id; model := ar_model r; base_url := ar_base_url r; api_key_env := ar_api_key_env r;
     credential_key := ar_credential_key r; tags := ts; priority := ar_priority r; disabled := ar_disabled r;
     provider_name := ar_provider_name r; provider_exclusions := exclusions;
     local_credential_key := ar_local_credential_key r; auth_scheme := ar_auth_scheme r;
     max_output_tokens := ar_max_output_tokens r; context_window := ar_context_window r; group_name := group;
     reasoning_effort_supported := ar_reasoning_effort_supported r; endpoint_equivalence := c;
     stream_usage_supported := ar_stream_usage_supported r;
     model_timeout_seconds := ar_model_timeout_seconds r; model_timeout_revision := revision |}.

Definition joined (db : pool_db) (agent_id : string) (r : agent_row) : ModelAgent :=
  agent_of_row agent_id r (default [] (db_tags db !! agent_id)) (default [] (db_exclusions db !! agent_id))
    (default "" (db_group_of db !! agent_id)) (contract_for agent_id db) (max_revision agent_id db).

Definition agent_at (db : pool_db) (agent_id : string) : option ModelAgent :=
  joined db agent_id <$> db_pool db !! agent_id.

(** ** The integrity of the tables *)

(** Consecutive changes of one agent: each starts from the value the last one set. *)
Fixpoint chained (l : list history_row) : Prop :=
  match l with
  | h :: ((h' :: _) as l) => hr_previous h' = hr_timeout h ∧ chained l
  | _ => True
  end.

Record db_ok (db : pool_db) : Prop := {
  ok_tags : dom (db_tags db) = dom (db_pool db);
  ok_exclusions : dom (db_exclusions db) = dom (db_pool db);
  ok_group_of : dom (db_group_of db) ⊆ dom (db_pool db);
  ok_groups : db_groups db = map_img (db_group_of db);
  ok_contract_of : dom (db_contract_of db) ⊆ dom (db_pool db);
  ok_contracts : dom (db_contracts db) = map_img (db_contract_of db);
  ok_contract_id : map_Forall (λ k c, contract_id c = k) (db_contracts db);
  ok_agents : ∀ i a, agent_at db i = Some a → agent_wf url_scheme a;
  ok_history : Forall (λ h, hr_agent h ∈ dom (db_pool db) ∧ timeout_check (hr_timeout h) = true ∧
                            0 < hr_revision h <= db_sequence db) (db_history db);
  ok_sequence : 0 <= db_sequence db;
  ok_revisions : StronglySorted (λ h h', hr_revision h < hr_revision h') (db_history db);
  ok_policy : ∀ i row h, db_pool db !! i = Some row → last (history_of i db) = Some h →
    hr_timeout h = ar_model_timeout_seconds row;
  ok_chain : ∀ i, chained (history_of i db);
  ok_restored : ∀ h n, h ∈ db_history db → hr_restored h = Some n →
    ∃ h', h' ∈ db_history db ∧ hr_agent h' = hr_agent h ∧ hr_revision h' = n ∧ n < hr_revision h ∧
          hr_timeout h' = hr_timeout h;
}.

(** ** Lemmas: the statements *)

Lemma feqb_positive x y : fltb f0 x = true → feqb x y = true → x = y.
Proof.
  destruct x as [[]|[]| |[] m e], y as [[]|[]| |[] m' e']; try done.
  intros _. unfold feqb, SFeqb, SFcompare. destruct (e ?= e')%Z eqn:He; try done.
  apply Z.compare_eq in He as ->. destruct (Pos.compare_cont Eq m m') eqn:Hm; try done.
  intros _. apply Pos.compare_eq in Hm as ->. done.
Qed.

Lemma same_seconds_eq a b : timeout_check a = true → same_seconds a b = true → a = b.
Proof.
  destruct a as [x|], b as [y|]; cbn; try done. intros H Hxy. bools. f_equal. by apply feqb_positive.
Qed.

Lemma replace_raw_of a : agent_wf url_scheme a → replace_agent url_scheme a (raw_of a) = Ok a.
Proof. apply ModelAgent_init_fields. Qed.

Lemma replace_wf a rf b : replace_agent url_scheme a rf = Ok b → agent_wf url_scheme b.
Proof. apply ModelAgent_init_wf. Qed.

Lemma agent_of_row_id a :
  agent_of_row (id a) (agent_columns a) (tags a) (provider_exclusions a) (group_name a) (endpoint_equivalence a)
    (model_timeout_revision a) = a.
Proof. by destruct a. Qed.

Lemma load_row_joined db i r :
  agent_wf url_scheme (joined db i r) → load_row db (i, r) = Ok (joined db i r).
Proof. intros H. by apply ModelAgent_init_fields in H. Qed.

Lemma agent_at_id db i a : agent_at db i = Some a → id a = i.
Proof. unfold agent_at. by intros (r & _ & ->)%fmap_Some. Qed.

(** The statements of [save] leave the other tables alone. *)
Lemma upsert_row_inv a db db' :
  upsert_row a db = Ok db' →
  ∃ row, db' = with_children a (with_pool_row (id a) row db) ∧ row_checks row = true ∧
    row = with_row_timeout (from_option ar_model_timeout_seconds (model_timeout_seconds a) (db_pool db !! id a)) (agent_columns a).
Proof.
  unfold upsert_row. destruct (bindable a); [cbn|done]. destruct (row_checks _) eqn:Hc; [cbn|done].
  intros [= <-]. eexists. split_and!; [done|done|]. by destruct (db_pool db !! id a).
Qed.

Lemma group_of_saved a db i :
  default "" (db_group_of (save_group a db) !! i)
  = if decide (i = id a) then group_name a else default "" (db_group_of db !! i).
Proof.
  unfold save_group. destruct (str_truthy (group_name a)) eqn:Hg; cbn.
  - destruct (decide (i = id a)) as [->|Hi]; [by simplify_map_eq|by rewrite lookup_insert_ne, lookup_delete_ne].
  - destruct (decide (i = id a)) as [->|Hi]; [|by rewrite lookup_delete_ne].
    simplify_map_eq. destruct (decide (group_name a = "")) as [->|H]; [done|].
    apply str_truthy_spec in H. congruence.
Qed.

(** The contract of another agent follows the one saved under the same id. *)
Definition recontracted (c : option EndpointEquivalenceContract) (old : option EndpointEquivalenceContract)
    : option EndpointEquivalenceContract :=
  match c, old with
  | Some c, Some o => if String.eqb (contract_id o) (contract_id c) then Some c else Some o
  | _, old => old
  end.

Lemma contract_for_saved a db i :
  db_ok db →
  contract_for i (save_contract a db)
  = if decide (i = id a) then endpoint_equivalence a
    else recontracted (endpoint_equivalence a) (contract_for i db).
Proof.
  intros Hok. pose proof (ok_contract_id _ Hok) as Hids.
  unfold save_contract, contract_for. destruct (endpoint_equivalence a) as [c|]; cbn.
  - destruct (decide (i = id a)) as [->|Hi]; [by rewrite lookup_insert_eq; cbn; rewrite lookup_insert_eq|].
    rewrite lookup_insert_ne, lookup_delete_ne by done.
    destruct (db_contract_of db !! i) as [k|] eqn:Hk; [cbn|done].
    destruct (decide (k = contract_id c)) as [->|Hkc].
    + rewrite lookup_insert_eq. assert (is_Some (db_contracts db !! contract_id c)) as [o Ho].
      { apply elem_of_dom. rewrite (ok_contracts _ Hok). by eapply elem_of_map_img_2. }
      rewrite Ho. cbn. by rewrite (Hids _ _ Ho), String.eqb_refl.
    + rewrite lookup_insert_ne by done. rewrite map_lookup_filter.
      destruct (db_contracts db !! k) as [o|] eqn:Ho; [cbn|done].
      rewrite option_guard_True by (cbn; eapply (elem_of_map_img_2 _ i); by rewrite lookup_delete_ne).
      rewrite (Hids _ _ Ho). by destruct (String.eqb_spec k (contract_id c)).
  - destruct (decide (i = id a)) as [->|Hi]; [by rewrite lookup_delete_eq|]. rewrite lookup_delete_ne by done.
    destruct (db_contract_of db !! i) as [k|] eqn:Hk; [cbn|done].
    rewrite map_lookup_filter. destruct (db_contracts db !! k) as [o|] eqn:Ho; [cbn|done].
    by rewrite option_guard_True by (cbn; eapply (elem_of_map_img_2 _ i); by rewrite lookup_delete_ne).
Qed.

(** ** Lemmas: what a save stores *)

(** An update keeps the timeout of the row, and the revision is the history's. *)
Definition stored_form (db : pool_db) (a : ModelAgent) : ModelAgent :=
  agent_of_row (id a)
    (with_row_timeout (from_option ar_model_timeout_seconds (model_timeout_seconds a) (db_pool db !! id a)) (agent_columns a))
    (tags a) (provider_exclusions a) (group_name a) (endpoint_equivalence a) (max_revision (id a) db).

Definition with_contract (c : option EndpointEquivalenceContract) (b : ModelAgent) : ModelAgent :=
  agent_of_row (id b) (agent_columns b) (tags b) (provider_exclusions b) (group_name b) c (model_timeout_revision b).

Definition recontract (a b : ModelAgent) : ModelAgent :=
  with_contract (recontracted (endpoint_equivalence a) (endpoint_equivalence b)) b.

Lemma agent_at_saved a db db' i :
  db_ok db → save_rows a db = Ok db' →
  agent_at db' i = if decide (i = id a) then Some (stored_form db a) else recontract a <$> agent_at db i.
Proof.
  intros Hok H. unfold save_rows in H. apply bind_Ok_inv in H as (db1 & Hup & [= <-]).
  apply upsert_row_inv in Hup as (row & -> & _ & Hrow).
  unfold agent_at. set (db1 := with_children a _). set (db2 := save_group a db1).
  assert (db_pool (save_contract a db2) = <[id a := row]> (db_pool db)) as Hp.
  { unfold save_contract, db2, save_group. by destruct (endpoint_equivalence a), (str_truthy (group_name a)). }
  assert (db_tags (save_contract a db2) = <[id a := tags a]> (db_tags db)) as Ht.
  { unfold save_contract, db2, save_group. by destruct (endpoint_equivalence a), (str_truthy (group_name a)). }
  assert (db_exclusions (save_contract a db2) = <[id a := provider_exclusions a]> (db_exclusions db)) as He.
  { unfold save_contract, db2, save_group. by destruct (endpoint_equivalence a), (str_truthy (group_name a)). }
  assert (db_group_of (save_contract a db2) = db_group_of db2) as Hg by (unfold save_contract; by destruct (endpoint_equivalence a)).
  assert (db_history (save_contract a db2) = db_history db) as Hh.
  { unfold save_contract, db2, save_group. by destruct (endpoint_equivalence a), (str_truthy (group_name a)). }
  assert (∀ j, contract_for j (save_contract a db2) = contract_for j (save_contract a db)) as Hc.
  { intros j. unfold save_contract, db2, save_group, contract_for. by destruct (endpoint_equivalence a), (str_truthy (group_name a)). }
  unfold joined, max_revision, history_of. rewrite Hp, Ht, He, Hg, Hh. unfold db2. rewrite group_of_saved, Hc, contract_for_saved by done.
  destruct (decide (i = id a)) as [->|Hi].
  - rewrite !lookup_insert_eq. cbn. by rewrite Hrow.
  - rewrite !lookup_insert_ne by done. destruct (db_pool db !! i) as [r|]; [|done]. reflexivity.
Qed.

Lemma max_revision_nonneg i db : 0 <= max_revision i db.
Proof. unfold max_revision. induction (map _ _); cbn; lia. Qed.

Lemma wf_refit a t rev :
  agent_wf url_scheme a → timeout_check t = true → 0 <= rev →
  agent_wf url_scheme (agent_of_row (id a) (with_row_timeout t (agent_columns a)) (tags a) (provider_exclusions a)
                         (group_name a) (endpoint_equivalence a) rev).
Proof. intros [] Ht Hr. by split; cbn; try done; intros x ->. Qed.

Lemma wf_with_contract c b :
  agent_wf url_scheme b → (∀ d, c = Some d → contract_of_dict (contract_to_dict d) = Ok d) →
  agent_wf url_scheme (with_contract c b).
Proof. intros [] Hc. by split. Qed.

Lemma wf_recontract a b : agent_wf url_scheme a → agent_wf url_scheme b → agent_wf url_scheme (recontract a b).
Proof.
  intros Ha Hb. apply wf_with_contract; [exact Hb|]. intros d. unfold recontracted.
  destruct (endpoint_equivalence a) as [c|] eqn:Hc; [|by apply (wf_contract url_scheme b)].
  destruct (endpoint_equivalence b) as [o|] eqn:Ho; [|done].
  case_match; intros [= <-]; [by apply (wf_contract url_scheme a)|by apply (wf_contract url_scheme b)].
Qed.

Lemma timeout_check_wf a : agent_wf url_scheme a → timeout_check (model_timeout_seconds a) = true.
Proof. intros H. destruct (model_timeout_seconds a) as [x|] eqn:Hx; [|done]. by apply (wf_timeout _ _ H). Qed.

Lemma row_timeout_wf db i r : db_ok db → db_pool db !! i = Some r → timeout_check (ar_model_timeout_seconds r) = true.
Proof.
  intros Hok Hr. assert (agent_at db i = Some (joined db i r)) as Ha by (unfold agent_at; by rewrite Hr).
  apply ok_agents in Ha; [|done]. by apply timeout_check_wf in Ha.
Qed.

Lemma stored_form_wf db a : db_ok db → agent_wf url_scheme a → agent_wf url_scheme (stored_form db a).
Proof.
  intros Hok Hwf. apply wf_refit; [done| |apply max_revision_nonneg].
  destruct (db_pool db !! id a) eqn:Hr; [by eapply row_timeout_wf|by apply timeout_check_wf].
Qed.

Lemma stored_form_eq db a :
  model_timeout_revision a = max_revision (id a) db →
  (∀ r, db_pool db !! id a = Some r → ar_model_timeout_seconds r = model_timeout_seconds a) →
  stored_form db a = a.
Proof.
  intros Hrev Ht. unfold stored_form. rewrite <- Hrev.
  replace (from_option _ _ _) with (model_timeout_seconds a); [apply agent_of_row_id|].
  destruct (db_pool db !! id a) as [r|]; [cbn; by rewrite (Ht r)|done].
Qed.

(** ** Lemmas: a save keeps the tables' integrity *)

Lemma map_img_put (m : gmap string string) i x :
  map_img (<[i := x]> (delete i m)) =@{gset string} {[x]} ∪ map_img (delete i m).
Proof. apply map_img_insert_notin_L, lookup_delete_eq. Qed.

Lemma save_group_groups a db :
  db_groups db = map_img (db_group_of db) →
  db_groups (save_group a db) = map_img (db_group_of (save_group a db)).
Proof.
  intros Hg. pose proof (map_img_delete_subseteq (SA := gset string) (id a) (db_group_of db)) as Hdel.
  unfold save_group. destruct (str_truthy _); cbn; rewrite Hg; apply set_eq; intros g; rewrite elem_of_filter.
  - rewrite map_img_put. set_solver.
  - set_solver.
Qed.

Lemma save_group_dom a db :
  dom (db_group_of db) ⊆ dom (db_pool db) → id a ∈ dom (db_pool db) →
  dom (db_group_of (save_group a db)) ⊆ dom (db_pool db).
Proof. intros H Ha. unfold save_group. destruct (str_truthy _); cbn; [rewrite dom_insert_L|]; rewrite dom_delete_L; set_solver. Qed.

Lemma save_contract_dom a db :
  dom (db_contract_of db) ⊆ dom (db_pool db) → id a ∈ dom (db_pool db) →
  dom (db_contract_of (save_contract a db)) ⊆ dom (db_pool db).
Proof. intros H Ha. unfold save_contract. destruct (endpoint_equivalence a); cbn; [rewrite dom_insert_L|]; rewrite dom_delete_L; set_solver. Qed.

Lemma save_contract_contracts a db :
  dom (db_contracts db) = map_img (db_contract_of db) →
  dom (db_contracts (save_contract a db)) = map_img (db_contract_of (save_contract a db)).
Proof.
  intros Hc. set (others := delete (id a) (db_contract_of db)).
  assert (dom (filter (λ kv, kv.1 ∈ (map_img others : gset string)) (db_contracts db)) = map_img others) as Hk.
  { apply set_eq. intros k. rewrite elem_of_dom. split.
    - intros [c [_ Hin]%map_lookup_filter_Some]. exact Hin.
    - intros Hin. assert (k ∈ dom (db_contracts db)) as [c Hd]%elem_of_dom.
      { rewrite Hc. by apply map_img_delete_subseteq in Hin. }
      exists c. by apply map_lookup_filter_Some. }
  unfold save_contract. fold others. destruct (endpoint_equivalence a) as [c|]; cbn; [|done].
  unfold others in *. by rewrite dom_insert_L, Hk, map_img_put.
Qed.

Lemma save_contract_ids a db :
  map_Forall (λ k c, contract_id c = k) (db_contracts db) →
  map_Forall (λ k c, contract_id c = k) (db_contracts (save_contract a db)).
Proof.
  intros H. assert (∀ P `{∀ x, Decision (P x)}, map_Forall (λ k c, contract_id c = k) (filter P (db_contracts db))) as Hf.
  { intros P HP k c [Hk _]%map_lookup_filter_Some. by apply H. }
  unfold save_contract. destruct (endpoint_equivalence a); cbn; [apply map_Forall_insert_2; [done|]|]; apply Hf.
Qed.

(** What a save of rows leaves of the other tables. *)
Lemma save_rows_tables a db db' :
  save_rows a db = Ok db' →
  db_history db' = db_history db ∧ db_sequence db' = db_sequence db ∧
  db_tags db' = <[id a := tags a]> (db_tags db) ∧
  db_exclusions db' = <[id a := provider_exclusions a]> (db_exclusions db) ∧
  ∃ row, db_pool db' = <[id a := row]> (db_pool db) ∧
    ar_model_timeout_seconds row = from_option ar_model_timeout_seconds (model_timeout_seconds a) (db_pool db !! id a).
Proof.
  intros H. unfold save_rows in H. apply bind_Ok_inv in H as (db1 & Hup & [= <-]).
  apply upsert_row_inv in Hup as (row & -> & _ & ->).
  unfold save_contract, save_group. destruct (endpoint_equivalence a), (str_truthy (group_name a)); cbn; eauto 8.
Qed.

(** The membership tables stay within the pool, and no group or contract is orphaned. *)
Lemma save_rows_members a db db' :
  db_ok db → save_rows a db = Ok db' →
  dom (db_group_of db') ⊆ dom (db_pool db') ∧ db_groups db' = map_img (db_group_of db') ∧
  dom (db_contract_of db') ⊆ dom (db_pool db') ∧ dom (db_contracts db') = map_img (db_contract_of db') ∧
  map_Forall (λ k c, contract_id c = k) (db_contracts db').
Proof.
  intros Hok H. unfold save_rows in H. apply bind_Ok_inv in H as (db1 & Hup & [= <-]).
  apply upsert_row_inv in Hup as (row & -> & _ & _).
  set (db1 := with_children a _).
  assert (id a ∈ dom (db_pool db1)) as Hid by (cbn; set_solver).
  assert (dom (db_pool db) ⊆ dom (db_pool db1)) as Hsub by (cbn; set_solver).
  assert (db_pool (save_contract a (save_group a db1)) = db_pool db1 ∧
          db_pool (save_group a db1) = db_pool db1 ∧
          db_group_of (save_contract a (save_group a db1)) = db_group_of (save_group a db1) ∧
          db_groups (save_contract a (save_group a db1)) = db_groups (save_group a db1) ∧
          db_contract_of (save_group a db1) = db_contract_of db1 ∧
          db_contracts (save_group a db1) = db_contracts db1) as (Hp & Hp' & Hg & Hgs & Hc & Hcs).
  { unfold save_contract, save_group. by destruct (endpoint_equivalence a), (str_truthy (group_name a)). }
  rewrite Hp, Hg, Hgs. split_and!.
  - apply save_group_dom; [|done]. etrans; [apply (ok_group_of _ Hok)|done].
  - by apply save_group_groups, (ok_groups _ Hok).
  - rewrite <- Hp'. apply save_contract_dom; rewrite Hp'; [|done]. rewrite Hc. etrans; [apply (ok_contract_of _ Hok)|done].
  - apply save_contract_contracts. rewrite Hc, Hcs. apply (ok_contracts _ Hok).
  - apply save_contract_ids. rewrite Hcs. apply (ok_contract_id _ Hok).
Qed.

Lemma history_of_absent i db : db_ok db → db_pool db !! i = None → history_of i db = [].
Proof.
  intros Hok Hi. unfold history_of. destruct (List.filter _ _) as [|h l] eqn:Hf; [done|].
  assert (h ∈ List.filter (λ h, String.eqb (hr_agent h) i) (db_history db)) as Hh by (rewrite Hf; left).
  apply list_elem_of_In, filter_In in Hh as [Hh He%String.eqb_eq]. apply list_elem_of_In in Hh.
  apply (proj1 (Forall_forall _ _) (ok_history _ Hok)) in Hh as [Hd _]. rewrite He in Hd.
  by apply not_elem_of_dom in Hi.
Qed.

Lemma save_rows_ok a db db' : db_ok db → agent_wf url_scheme a → save_rows a db = Ok db' → db_ok db'.
Proof.
  intros Hok Hwf H. pose proof (λ i, agent_at_saved _ _ _ i Hok H) as Hat.
  destruct (save_rows_members _ _ _ Hok H) as (Hg1 & Hg2 & Hc1 & Hc2 & Hc3).
  destruct (save_rows_tables _ _ _ H) as (Hh & Hs & Ht & He & row & Hp & Hrow).
  assert (∀ i, history_of i db' = history_of i db) as Hhist by (intros i; unfold history_of; by rewrite Hh).
  split; try done.
  - rewrite Ht, Hp, !dom_insert_L. by rewrite (ok_tags _ Hok).
  - rewrite He, Hp, !dom_insert_L. by rewrite (ok_exclusions _ Hok).
  - intros i b Hb. rewrite Hat in Hb. destruct (decide (i = id a)); [simplify_eq; by apply stored_form_wf|].
    apply fmap_Some in Hb as (o & Ho & ->). apply wf_recontract; [done|]. by apply (ok_agents _ Hok i).
  - rewrite Hh, Hs, Hp. eapply Forall_impl; [apply (ok_history _ Hok)|]. intros h. cbn. set_solver.
  - rewrite Hs. apply (ok_sequence _ Hok).
  - rewrite Hh. apply (ok_revisions _ Hok).
  - intros i r h. rewrite Hhist, Hp. intros Hr Hl. destruct (decide (i = id a)) as [->|Hi].
    + rewrite lookup_insert_eq in Hr. simplify_eq. rewrite Hrow.
      destruct (db_pool db !! id a) as [old|] eqn:Hold; [by apply (ok_policy _ Hok (id a))|].
      by rewrite history_of_absent in Hl.
    + rewrite lookup_insert_ne in Hr by done. by apply (ok_policy _ Hok i).
  - intros i. rewrite Hhist. apply (ok_chain _ Hok).
  - intros h n. rewrite Hh. apply (ok_restored _ Hok).
Qed.

(** ** Lemmas: the history *)

Lemma history_of_append h i db :
  history_of i (append_history h db) = history_of i db ++ (if String.eqb (hr_agent h) i then [h] else []).
Proof. unfold history_of. cbn. rewrite List.filter_app. cbn. by destruct (String.eqb (hr_agent h) i). Qed.

Lemma chained_snoc l h :
  chained l → (∀ h', last l = Some h' → hr_previous h = hr_timeout h') → chained (l ++ [h]).
Proof.
  induction l as [|x l IH]; [done|]. destruct l as [|y l]; [cbn; intros _ Hl; split; [by apply Hl|done]|].
  intros [Hxy Hc] Hl. split; [done|]. by apply IH.
Qed.

Lemma max_revision_append h i db :
  max_revision i (append_history h db)
  = if String.eqb (hr_agent h) i then Z.max (hr_revision h) (max_revision i db) else max_revision i db.
Proof.
  unfold max_revision. rewrite history_of_append. destruct (String.eqb _ _); [|by rewrite app_nil_r].
  induction (history_of i db) as [|x l IH]; cbn; [done|]. rewrite IH. lia.
Qed.

Lemma max_revision_le i db : db_ok db → max_revision i db <= db_sequence db.
Proof.
  intros Hok. pose proof (ok_history _ Hok) as Hh. pose proof (ok_sequence _ Hok) as Hs.
  unfold max_revision, history_of. induction (db_history db) as [|h l IH]; cbn; [done|].
  apply Forall_cons in Hh as [(_ & _ & Hr) Hh]. destruct (String.eqb (hr_agent h) i); cbn; [|by apply IH].
  specialize (IH Hh). lia.
Qed.

(** A committed change: the row's timeout and one more row of history. *)
Definition changed (h : history_row) (row : agent_row) (db : pool_db) : pool_db :=
  append_history h (with_pool_row (hr_agent h) (with_row_timeout (hr_timeout h) row) db).

Record change_ok (h : history_row) (row : agent_row) (db : pool_db) : Prop := {
  co_row : db_pool db !! hr_agent h = Some row;
  co_check : timeout_check (hr_timeout h) = true;
  co_revision : hr_revision h = db_sequence db + 1;
  co_previous : ∀ h', last (history_of (hr_agent h) db) = Some h' → hr_previous h = hr_timeout h';
  co_restored : ∀ n, hr_restored h = Some n →
    ∃ h', h' ∈ db_history db ∧ hr_agent h' = hr_agent h ∧ hr_revision h' = n ∧ hr_timeout h' = hr_timeout h;
}.

(** The changed agent, and the others as they were. *)
Lemma agent_at_changed h row db i :
  change_ok h row db → db_ok db →
  agent_at (changed h row db) i
  = if decide (i = hr_agent h)
    then (λ a, agent_of_row (id a) (with_row_timeout (hr_timeout h) (agent_columns a)) (tags a) (provider_exclusions a)
                 (group_name a) (endpoint_equivalence a) (hr_revision h)) <$> agent_at db i
    else agent_at db i.
Proof.
  intros Hco Hok. unfold changed, agent_at. cbn. pose proof (max_revision_le i db Hok) as Hm.
  pose proof (co_revision _ _ _ Hco) as Hrev.
  assert (∀ r, joined (append_history h (with_pool_row (hr_agent h) (with_row_timeout (hr_timeout h) row) db)) i r
               = agent_of_row i r (tags (joined db i r)) (provider_exclusions (joined db i r))
                   (group_name (joined db i r)) (endpoint_equivalence (joined db i r))
                   (if String.eqb (hr_agent h) i then Z.max (hr_revision h) (max_revision i db) else max_revision i db)) as Hj.
  { intros r. unfold joined. by rewrite max_revision_append. }
  destruct (decide (i = hr_agent h)) as [->|Hi].
  - rewrite lookup_insert_eq, (co_row _ _ _ Hco). cbn -[joined]. rewrite Hj, String.eqb_refl. cbn.
    f_equal. rewrite Z.max_l by lia. reflexivity.
  - rewrite lookup_insert_ne by done. destruct (db_pool db !! i) as [r|]; [cbn -[joined]|done].
    rewrite Hj, (proj2 (String.eqb_neq _ _)) by done. reflexivity.
Qed.

Lemma changed_ok h row db : db_ok db → change_ok h row db → db_ok (changed h row db).
Proof.
  intros Hok Hco. pose proof (λ i, agent_at_changed _ _ _ i Hco Hok) as Hat.
  assert (∀ i, history_of i (changed h row db) = history_of i db ++ (if String.eqb (hr_agent h) i then [h] else [])) as Hhist.
  { intros i. etrans; [apply history_of_append|reflexivity]. }
  assert (hr_agent h ∈ dom (db_pool db)) as Hin by (apply elem_of_dom; rewrite (co_row _ _ _ Hco); eauto).
  assert (dom (db_pool (changed h row db)) = dom (db_pool db)) as Hdom by (cbn; set_solver).
  pose proof (ok_sequence _ Hok) as Hseq. pose proof (co_revision _ _ _ Hco) as Hrev.
  split; rewrite ?Hdom; try by apply Hok.
  - intros i b. rewrite Hat. destruct (decide (i = hr_agent h)) as [->|]; [|by apply (ok_agents _ Hok i)].
    intros (o & Ho & ->)%fmap_Some. apply wf_refit; [by apply (ok_agents _ Hok (hr_agent h))|by apply (co_check _ _ _ Hco)|lia].
  - cbn. apply Forall_app. split.
    + eapply Forall_impl; [apply (ok_history _ Hok)|]. intros h' (? & ? & ?). split_and!; [set_solver|done|lia..].
    + apply Forall_singleton. split_and!; [set_solver|apply (co_check _ _ _ Hco)|lia..].
  - cbn. lia.
  - cbn. apply StronglySorted_app_2; [|apply (ok_revisions _ Hok)|repeat constructor].
    intros h1 h2 H1 ->%list_elem_of_singleton. apply (proj1 (Forall_forall _ _) (ok_history _ Hok)) in H1 as (_ & _ & ?). lia.
  - intros i r h'. rewrite Hhist. cbn. destruct (String.eqb_spec (hr_agent h) i) as [<-|Hi].
    + rewrite lookup_insert_eq, last_snoc. by intros [= <-] [= <-].
    + rewrite lookup_insert_ne, app_nil_r by done. apply (ok_policy _ Hok).
  - intros i. rewrite Hhist. destruct (String.eqb_spec (hr_agent h) i) as [<-|Hi]; [|rewrite app_nil_r; apply (ok_chain _ Hok)].
    apply chained_snoc; [apply (ok_chain _ Hok)|apply (co_previous _ _ _ Hco)].
  - intros h1 n. cbn. intros [H1|H1%list_elem_of_singleton]%elem_of_app Hn.
    + destruct (ok_restored _ Hok h1 n H1 Hn) as (h' & ? & ?). exists h'. split; [set_solver|done].
    + subst h1. destruct (co_restored _ _ _ Hco n Hn) as (h' & Hh' & ? & ? & ?). exists h'. split_and!; try done; [set_solver|].
      apply (proj1 (Forall_forall _ _) (ok_history _ Hok)) in Hh' as (_ & _ & ?). lia.
Qed.

(** ** Lemmas: a transaction *)

Lemma historical_inv i n t db :
  historical i n db = Some t →
  ∃ h', h' ∈ db_history db ∧ hr_agent h' = i ∧ hr_revision h' = n ∧ hr_timeout h' = t.
Proof.
  unfold historical. intros (h' & (Hin & Hn%Z.eqb_eq)%List.find_some & ->)%fmap_Some.
  apply filter_In in Hin as [Hin He%String.eqb_eq]. exists h'. rewrite list_elem_of_In. auto.
Qed.

Definition change_entry (a : ModelAgent) (c : timeout_change) (db : pool_db) : history_row :=
  history_entry (tc_previous c) a (tc_actor c) (tc_restored c) (db_sequence db + 1).

Lemma append_inv a c db db' n :
  Forall (λ h, timeout_check (hr_timeout h) = true) (db_history db) →
  _append_timeout_history (tc_previous c) a (tc_actor c) (tc_restored c) db = Ok (db', n) →
  db' = append_history (change_entry a c db) db ∧ n = db_sequence db + 1 ∧
  ∀ r, tc_restored c = Some r →
    ∃ h', h' ∈ db_history db ∧ hr_agent h' = id a ∧ hr_revision h' = r ∧ hr_timeout h' = model_timeout_seconds a.
Proof.
  intros Hok H. unfold _append_timeout_history in H. apply bind_Ok_inv in H as ([] & Hr & H).
  destruct (_ <=? _); [done|]. simplify_eq. split_and!; [done|done|].
  intros r Hc. rewrite Hc in Hr. destruct (historical (id a) r db) as [t|] eqn:Ht; [|done].
  destruct (same_seconds t _) eqn:Hs; [|done].
  apply historical_inv in Ht as (h' & Hh' & Ha & Hn & <-). exists h'. split_and!; try done.
  apply same_seconds_eq; [|done]. by apply (proj1 (Forall_forall _ _) Hok) in Hh'.
Qed.

(** What a timeout change that committed did. *)
Record committed (a : ModelAgent) (c : timeout_change) (h : history_row) (row : agent_row) (db1 db : pool_db) : Prop := {
  cm_ok : db_ok db1;
  cm_change : change_ok h row db1;
  cm_entry : h = change_entry a c db;
  cm_revision : max_revision (id a) db = model_timeout_revision (tc_previous c);
  cm_row : (db_pool db !! id a = Some row ∧ db1 = db ∧
            ar_model_timeout_seconds row = model_timeout_seconds (tc_previous c)) ∨
           (db_pool db !! id a = None ∧ save_rows a db = Ok db1);
}.

Lemma with_pool_row_id i row db : db_pool db !! i = Some row → with_pool_row i row db = db.
Proof. intros H. destruct db. unfold with_pool_row. cbn in *. f_equal. by apply insert_id. Qed.

Lemma with_row_timeout_id r : with_row_timeout (ar_model_timeout_seconds r) r = r.
Proof. by destruct r. Qed.

Lemma history_checked db : db_ok db → Forall (λ h, timeout_check (hr_timeout h) = true) (db_history db).
Proof. intros Hok. eapply Forall_impl; [apply (ok_history _ Hok)|]. by intros h (_ & ? & _). Qed.

Lemma change_committed a c db db' r :
  db_ok db → agent_wf url_scheme a → _save_in_transaction a (Some c) db = Ok (db', r) →
  ∃ h row db1, committed a c h row db1 db ∧ db' = changed h row db1 ∧ r = Some (hr_revision h).
Proof.
  intros Hok Hwf H. cbn in H. destruct (max_revision _ _ =? _) eqn:Hrev; [cbn in H; bools|done].
  exists (change_entry a c db). destruct (db_pool db !! id a) as [row|] eqn:Hrow.
  - destruct (same_seconds _ _) eqn:Hs; [cbn in H|done]. destruct (timeout_check _) eqn:Ht; [cbn in H|done].
    apply same_seconds_eq in Hs; [|by apply (row_timeout_wf db (id a))].
    destruct (_append_timeout_history _ _ _ _ _) as [[db2 n]|] eqn:Happ; [|done]. cbn in H. simplify_eq.
    apply append_inv in Happ as (-> & -> & Hres); [|by apply (history_checked db)].
    exists row, db. split; [|done]. split; try done; [|by left].
    split; try done. intros h' Hl. cbn. rewrite <- Hs. symmetry. by apply (ok_policy _ Hok (id a)).
  - apply bind_Ok_inv in H as (db1 & Hsave & H). pose proof (save_rows_ok _ _ _ Hok Hwf Hsave) as Hok1.
    destruct (save_rows_tables _ _ _ Hsave) as (Hh & Hseq & _ & _ & row & Hp & Ht).
    rewrite Hrow in Ht. cbn in Ht.
    destruct (_append_timeout_history _ _ _ _ _) as [[db2 n]|] eqn:Happ; [|done]. cbn in H. simplify_eq.
    apply append_inv in Happ as (-> & -> & Hres); [|by apply (history_checked db1)].
    assert (db_pool db1 !! id a = Some row) as Hr1 by (rewrite Hp; apply lookup_insert_eq).
    assert (change_entry a c db1 = change_entry a c db) as Hce by (unfold change_entry; by rewrite Hseq).
    exists row, db1. rewrite Hce. split_and!; [|unfold changed|by rewrite Hseq].
    + split; try done; [|by right]. split; try done; [by apply timeout_check_wf|cbn; by rewrite Hseq|].
      intros h'. unfold history_of. rewrite Hh. cbn. fold (history_of (id a) db). by rewrite history_of_absent.
    + cbn. rewrite <- Ht, with_row_timeout_id, with_pool_row_id by done. done.
Qed.

Lemma save_in_transaction_ok a change db db' r :
  db_ok db → agent_wf url_scheme a → _save_in_transaction a change db = Ok (db', r) → db_ok db'.
Proof.
  intros Hok Hwf H. destruct change as [c|].
  - apply change_committed in H as (h & row & db1 & Hc & -> & _); [|done..].
    apply changed_ok; [apply (cm_ok _ _ _ _ _ _ Hc)|apply (cm_change _ _ _ _ _ _ Hc)].
  - cbn in H. apply bind_Ok_inv in H as (db1 & H & [= <- _]). by apply (save_rows_ok a db).
Qed.

Lemma save_each_ok l : ∀ db db', db_ok db → Forall (agent_wf url_scheme) l → save_each l db = Ok db' → db_ok db'.
Proof.
  induction l as [|a l IH]; intros db db' Hok Hwf H; [by injection H as <-|]. apply Forall_cons in Hwf as [Ha Hwf].
  cbn [save_each] in H. apply bind_Ok_inv in H as ([db1 r] & H1 & H). apply (IH db1); [|done..].
  by apply (save_in_transaction_ok a None db db1 r).
Qed.

(** ** Lemmas: reading *)

Lemma rows_by_id_perm db : rows_by_id db ≡ₚ map_to_list (db_pool db).
Proof. apply py_sorted_perm. Qed.

Lemma rows_by_id_elem db i r : (i, r) ∈ rows_by_id db ↔ db_pool db !! i = Some r.
Proof. by rewrite rows_by_id_perm, elem_of_map_to_list. Qed.

Definition loaded (db : pool_db) : list ModelAgent := map (λ kr, joined db kr.1 kr.2) (rows_by_id db).

Lemma load_all_ok s : db_ok (pf_db s) → load_all s = Ok (loaded (pf_db s)).
Proof.
  intros Hok. unfold load_all. set (db := pf_db s) in *.
  assert (map_res (load_row db) (rows_by_id db) = Ok (loaded db)) as ->; [|done].
  apply map_res_Forall2. apply Forall2_fmap_r, Forall_Forall2_diag, Forall_forall. intros [i r] Hr.
  apply rows_by_id_elem in Hr. apply load_row_joined. apply (ok_agents _ Hok i). unfold agent_at. by rewrite Hr.
Qed.

Lemma loaded_elem db a : a ∈ loaded db ↔ agent_at db (id a) = Some a.
Proof.
  unfold loaded. split.
  - intros ([i r] & -> & Hr%rows_by_id_elem)%list_elem_of_fmap. cbn [fst snd]. unfold agent_at. cbn. by rewrite Hr.
  - unfold agent_at. intros (r & Hr & Ha)%fmap_Some. apply list_elem_of_fmap. exists (id a, r). split; [done|].
    by apply rows_by_id_elem.
Qed.

Lemma loaded_ids db : map id (loaded db) = (rows_by_id db).*1.
Proof. unfold loaded. rewrite map_map. by apply map_ext. Qed.

Lemma loaded_NoDup db : NoDup (map id (loaded db)).
Proof. rewrite loaded_ids, rows_by_id_perm. apply NoDup_fst_map_to_list. Qed.

Lemma loaded_wf db : db_ok db → Forall (agent_wf url_scheme) (loaded db).
Proof. intros Hok. apply Forall_forall. intros a Ha%loaded_elem. by apply (ok_agents _ Hok (id a)). Qed.

(** ** Lemmas: transactions *)

Lemma write_inv {A} (f : pool_db → res store_error (pool_db * A)) s s' r :
  _write_transaction f s = (s', r) →
  (∃ x, f (pf_db s) = Ok (pf_db s', x) ∧ r = Ok x) ∨ (pf_db s' = pf_db s ∧ ∃ e, r = Raise e).
Proof.
  unfold _write_transaction. destruct (sqlite_fault _); [intros [= <- <-]; right; eauto|].
  destruct (f (pf_db s)) as [[db x]|e]; intros [= <- <-]; [left|right]; cbn; eauto.
Qed.

Lemma empty_db_ok : db_ok empty_db.
Proof.
  split; try done; try by constructor.
  by intros h n ?%elem_of_nil.
Qed.

(** One transaction on the file, whatever its outcome. *)
Inductive transaction : pool_file → pool_file → Prop :=
| tx_save a change s s' r :
    agent_wf url_scheme a → save a change s = (s', r) → transaction s s'
| tx_save_many l s s' r :
    Forall (agent_wf url_scheme) l → save_many l s = (s', r) → transaction s s'.

Definition fresh_file : pool_file := {| pf_db := empty_db; pf_transactions := 0 |}.

Lemma transaction_ok s s' : transaction s s' → db_ok (pf_db s) → db_ok (pf_db s').
Proof.
  intros [a change s1 s2 r Ha H|l s1 s2 r Hl H] Hok.
  - apply write_inv in H as [(x & H & _)|[-> _]]; [|done]. by eapply save_in_transaction_ok.
  - apply write_inv in H as [(x & H & _)|[-> _]]; [|done].
    destruct (save_each l (pf_db s1)) as [db|] eqn:Hs; [|done]. injection H as <- _. by eapply save_each_ok.
Qed.

Lemma file_ok s : rtc transaction fresh_file s → db_ok (pf_db s).
Proof.
  intros Hs. assert (∀ s1 s2, rtc transaction s1 s2 → db_ok (pf_db s1) → db_ok (pf_db s2)) as Hrtc.
  { induction 1 as [|s1 s2 s3 H _ IH]; [done|]. intros H1. apply IH. by eapply transaction_ok. }
  apply (Hrtc _ _ Hs), empty_db_ok.
Qed.

(** History only grows. *)
Lemma save_in_transaction_history a change db db' r :
  db_ok db → agent_wf url_scheme a → _save_in_transaction a change db = Ok (db', r) →
  ∃ l, db_history db' = db_history db ++ l.
Proof.
  intros Hok Hwf H. destruct change as [c|].
  - apply change_committed in H as (h & row & db1 & Hc & -> & _); [|done..]. exists [h]. cbn. f_equal.
    destruct (cm_row _ _ _ _ _ _ Hc) as [(_ & -> & _)|[_ Hs]]; [done|]. by apply save_rows_tables in Hs as (-> & _).
  - cbn in H. apply bind_Ok_inv in H as (db1 & H & [= <- _]). exists [].
    apply save_rows_tables in H as (-> & _). by rewrite app_nil_r.
Qed.

Lemma transaction_history s s' : transaction s s' → db_ok (pf_db s) → ∃ l, db_history (pf_db s') = db_history (pf_db s) ++ l.
Proof.
  intros [a change s1 s2 r Ha H|l s1 s2 r Hl H] Hok.
  - apply write_inv in H as [(x & H & _)|[-> _]]; [|by exists []; rewrite app_nil_r].
    by eapply save_in_transaction_history.
  - apply write_inv in H as [(x & H & _)|[-> _]]; [|by exists []; rewrite app_nil_r].
    destruct (save_each l (pf_db s1)) as [db|] eqn:Hs; [|done]. injection H as <- _. clear x.
    revert Hok Hl Hs. generalize (pf_db s1). induction l as [|a l IH]; intros db0 Hok Hl H; cbn [save_each] in H.
    + injection H as <-. exists []. by rewrite app_nil_r.
    + apply bind_Ok_inv in H as ([db1 r1] & H1 & H). apply Forall_cons in Hl as [Ha Hl].
      destruct (save_in_transaction_history _ _ _ _ _ Hok Ha H1) as [l1 Hl1].
      destruct (IH db1) as [l2 Hl2]; [by eapply save_in_transaction_ok|done|done|].
      exists (l1 ++ l2). by rewrite Hl2, Hl1, app_assoc.
Qed.

Lemma max_revision_mono i db db' l :
  db_history db' = db_history db ++ l → max_revision i db <= max_revision i db'.
Proof.
  intros H. unfold max_revision, history_of. rewrite H, List.filter_app, map_app, foldr_app.
  assert (∀ l z, 0 <= z → foldr Z.max 0 l <= foldr Z.max z l) as Hm by (induction l0; cbn; intros; [lia|]; specialize (IHl0 z); lia).
  apply Hm. induction (map _ _); cbn; lia.
Qed.

Lemma transactions_history s s' :
  rtc transaction s s' → db_ok (pf_db s) → ∃ l, db_history (pf_db s') = db_history (pf_db s) ++ l.
Proof.
  induction 1 as [s|s1 s2 s3 H _ IH]; intros Hok; [exists []; by rewrite app_nil_r|].
  destruct (transaction_history _ _ H Hok) as [l1 Hl1]. destruct IH as [l2 Hl2]; [by eapply transaction_ok|].
  exists (l1 ++ l2). by rewrite Hl2, Hl1, app_assoc.
Qed.

Lemma change_committed_agent a c h row db1 db :
  committed a c h row db1 db →
  max_revision (id a) db < hr_revision h ∧
  (∃ b, agent_at (changed h row db1) (id a) = Some b ∧
        model_timeout_seconds b = model_timeout_seconds a ∧ model_timeout_revision b = hr_revision h) ∧
  max_revision (id a) (changed h row db1) = hr_revision h.
Proof.
  intros [Hok1 Hco He Hrev Hrow]. pose proof (agent_at_changed _ _ _ (id a) Hco Hok1) as Hat.
  assert (hr_agent h = id a) as Ha by (by rewrite He).
  assert (max_revision (id a) db = max_revision (id a) db1) as Hm.
  { destruct Hrow as [(_ & -> & _)|[_ Hs]]; [done|]. apply save_rows_tables in Hs as (Hh & _).
    unfold max_revision, history_of. by rewrite Hh. }
  pose proof (max_revision_le (id a) db1 Hok1) as Hle. pose proof (co_revision _ _ _ Hco) as Hn.
  rewrite Ha, decide_True in Hat by done. split_and!; [lia| |].
  - unfold agent_at in Hat |- *. pose proof (co_row _ _ _ Hco) as Hr. rewrite Ha in Hr. rewrite Hr in Hat.
    cbn [fmap option_fmap option_map] in Hat. eexists. split; [exact Hat|]. cbn. by rewrite He.
  - unfold changed. rewrite max_revision_append, Ha, String.eqb_refl. apply Z.max_l.
    change (max_revision (id a) db1 <= hr_revision h). lia.
Qed.

(** ** Theorems *)

(** C10. Whatever transactions ran, failed ones included, the tables of the pool keep
    their integrity (child rows have a parent, no group and no contract is
    without a member, revisions increase, the timeout history of an agent is an
    unbroken chain that ends in its current policy, a restored value is a
    historical value of that agent), and [load_all] returns one well-formed agent
    per row. *)
Theorem agent_tables_keep_integrity s :
  rtc transaction fresh_file s →
  db_ok (pf_db s) ∧
  ∃ l, load_all s = Ok l ∧ NoDup (map id l) ∧ Forall (agent_wf url_scheme) l ∧
    ∀ i, i ∈ map id l ↔ is_Some (db_pool (pf_db s) !! i).
Proof.
  intros Hok%file_ok. split; [done|]. exists (loaded (pf_db s)). split_and!.
  - by apply load_all_ok.
  - apply loaded_NoDup.
  - by apply loaded_wf.
  - intros i. rewrite loaded_ids, list_elem_of_fmap. split.
    + intros ([j r] & -> & Hr%rows_by_id_elem). by exists r.
    + intros [r Hr]. exists (i, r). split; [done|]. by apply rows_by_id_elem.
Qed.

(** Saving an agent and loading the pool gives that agent back, with the timeout
    of the row it updated and the revision of its history; every other agent is
    as before, except that an agent that names the same equivalence contract
    has the saved one. *)
Theorem saved_agent_loads_back s a s' r l :
  rtc transaction fresh_file s → agent_wf url_scheme a →
  save a None s = (s', Ok r) → load_all s = Ok l →
  ∃ l', load_all s' = Ok l' ∧ stored_form (pf_db s) a ∈ l' ∧
    ∀ b, id b ≠ id a → b ∈ l' ↔ ∃ b0, b0 ∈ l ∧ b = recontract a b0.
Proof.
  intros Hok%file_ok Hwf H Hl. rewrite load_all_ok in Hl by done. injection Hl as <-.
  apply write_inv in H as [(x & H & _)|(_ & e & He)]; [|done].
  cbn in H. apply bind_Ok_inv in H as (db' & H & [= Hdb _]). subst db'.
  pose proof (save_rows_ok _ _ _ Hok Hwf H) as Hok'. pose proof (λ i, agent_at_saved _ _ _ i Hok H) as Hat.
  exists (loaded (pf_db s')). split; [by apply load_all_ok|]. split.
  - apply loaded_elem. by rewrite Hat, decide_True.
  - intros b Hb. rewrite loaded_elem, Hat, decide_False by done. rewrite fmap_Some. split.
    + intros (b0 & Hb0 & ->). exists b0. split; [|done]. apply loaded_elem. by rewrite (agent_at_id _ _ _ Hb0).
    + intros (b0 & Hb0%loaded_elem & ->). exists b0. by split.
Qed.

(** A timeout change is a compare-and-swap on the agent's policy revision: it
    commits only on the revision it was based on, and gives a new, higher
    revision; whatever runs afterwards, no other change based on the old
    revision ever commits. *)
Theorem timeout_change_is_compare_and_swap s a c s' r :
  rtc transaction fresh_file s → agent_wf url_scheme a →
  save a (Some c) s = (s', Ok r) →
  max_revision (id a) (pf_db s) = model_timeout_revision (tc_previous c) ∧
  (∃ b n, r = Some n ∧ agent_at (pf_db s') (id a) = Some b ∧
    model_timeout_seconds b = model_timeout_seconds a ∧ model_timeout_revision b = n ∧
    model_timeout_revision (tc_previous c) < n) ∧
  ∀ s'' a' c', rtc transaction s' s'' → sqlite_fault (pf_transactions s'') = None → id a' = id a →
    model_timeout_revision (tc_previous c') = model_timeout_revision (tc_previous c) →
    (save a' (Some c') s'').2 = Raise policy_changed ∧ pf_db (save a' (Some c') s'').1 = pf_db s''.
Proof.
  intros Hok%file_ok Hwf H. pose proof (transaction_ok s s' (tx_save _ _ _ _ _ Hwf H) Hok) as Hok'.
  apply write_inv in H as [(x & H & [= <-])|(_ & e & He)]; [|done].
  apply change_committed in H as (h & row & db1 & Hc & Hdb & ->); [|done..].
  pose proof (change_committed_agent _ _ _ _ _ _ Hc) as (Hlt & (b & Hb & Ht & Hn) & Hmax).
  pose proof (cm_revision _ _ _ _ _ _ Hc) as Hrev. rewrite <- Hdb in Hb, Hmax. split_and!; [done| |].
  - exists b, (hr_revision h). split_and!; try done. lia.
  - intros s'' a' c' Hrun Hfault Hid Hstale. destruct (transactions_history _ _ Hrun Hok') as [l Hl].
    apply (max_revision_mono (id a)) in Hl. unfold save, _write_transaction. rewrite Hfault.
    assert (_save_in_transaction a' (Some c') (pf_db s'') = Raise policy_changed) as ->; [|done].
    unfold _save_in_transaction. rewrite Hid. destruct (Z.eqb_spec (max_revision (id a) (pf_db s'')) (model_timeout_revision (tc_previous c'))); [lia|done].
Qed.
End store.

(** ** The interface of the store

    What the pool relies on: operations, the agents a store holds by id, and
    what each committed operation makes of them. *)

Class AgentStore (S : Type) := {
  save_agent : ModelAgent → S → S * res store_error unit;
  save_agents : list ModelAgent → S → S * res store_error unit;
  save_timeout : ModelAgent → timeout_change → S → S * res store_error Z;
  timeout_at : string → Z → S → res store_error (option float);
  load_agents : S → res store_error (list ModelAgent);
}.

Definition refit (t : option float) (revision : Z) (a : ModelAgent) : ModelAgent :=
  agent_of_row (id a) (with_row_timeout t (agent_columns a)) (tags a) (provider_exclusions a) (group_name a)
    (endpoint_equivalence a) revision.

(** What a save makes of the agent a store holds under its id. *)
Definition adopt (a : ModelAgent) (held : option ModelAgent) : ModelAgent :=
  match held with
  | Some b => refit (model_timeout_seconds b) (model_timeout_revision b) a
  | None => refit (model_timeout_seconds a) 0 a
  end.

Definition put (a : ModelAgent) (view : string → option ModelAgent) (i : string) : option ModelAgent :=
  if decide (i = id a) then Some (adopt a (view i)) else recontract a <$> view i.

Class AgentStoreLaws (S : Type) `{AgentStore S} (url_scheme : string → string) := {
  store_ok : S → Prop;
  store_at : S → string → option ModelAgent;
  store_at_id s i a : store_at s i = Some a → id a = i;
  load_agents_ok s : store_ok s →
    ∃ l, load_agents s = Ok l ∧ NoDup (map id l) ∧ Forall (agent_wf url_scheme) l ∧
      ∀ a, a ∈ l ↔ store_at s (id a) = Some a;
  save_agent_ok a s s' r : store_ok s → agent_wf url_scheme a → save_agent a s = (s', r) →
    store_ok s' ∧
    match r with
    | Ok _ => ∀ i, store_at s' i = put a (store_at s) i
    | Raise _ => ∀ i, store_at s' i = store_at s i
    end;
  save_agents_ok l s s' r : store_ok s → Forall (agent_wf url_scheme) l → save_agents l s = (s', r) →
    store_ok s' ∧
    match r with
    | Ok _ => ∀ i, store_at s' i = foldl (λ v a, put a v) (store_at s) l i
    | Raise _ => ∀ i, store_at s' i = store_at s i
    end;
  save_timeout_ok a c s s' r : store_ok s → agent_wf url_scheme a → save_timeout a c s = (s', r) →
    store_ok s' ∧
    match r with
    | Ok n => 0 <= n ∧
        match store_at s (id a) with
        | Some b => model_timeout_seconds b = model_timeout_seconds (tc_previous c) ∧
            model_timeout_revision b = model_timeout_revision (tc_previous c) ∧
            ∀ i, store_at s' i = if decide (i = id a) then Some (refit (model_timeout_seconds a) n b) else store_at s i
        | None =>
            ∀ i, store_at s' i = if decide (i = id a) then Some (refit (model_timeout_seconds a) n a)
                                 else recontract a <$> store_at s i
        end
    | Raise _ => ∀ i, store_at s' i = store_at s i
    end;
}.

(** ** The SQLite store implements it *)

Section sqlite_store.
Context (url_scheme : string → string) (sqlite_fault : nat → option string).

#[local] Instance sqlite_agent_store : AgentStore pool_file := {
  save_agent a s := let '(s, r) := save sqlite_fault a None s in (s, (λ _, tt) <$> r);
  save_agents := save_many sqlite_fault;
  save_timeout a c s := let '(s, r) := save sqlite_fault a (Some c) s in (s, default 0 <$> r);
  timeout_at := timeout_at_revision;
  load_agents := load_all url_scheme;
}.

Lemma stored_form_adopt db a : db_ok url_scheme db → stored_form db a = adopt a (agent_at db (id a)).
Proof.
  intros Hok. unfold stored_form, agent_at. destruct (db_pool db !! id a) as [r|] eqn:Hr; [done|].
  cbn. unfold refit, max_revision. by rewrite (history_of_absent _ _ _ Hok Hr).
Qed.

Lemma put_ext a v v' i : v i = v' i → put a v i = put a v' i.
Proof. unfold put. by intros ->. Qed.

Lemma foldl_put_ext l : ∀ v v' i, v i = v' i → foldl (λ v a, put a v) v l i = foldl (λ v a, put a v) v' l i.
Proof. induction l as [|a l IH]; intros v v' i Hi; [done|]. cbn. by apply IH, put_ext. Qed.

Lemma agent_at_put a db db' i :
  db_ok url_scheme db → save_rows a db = Ok db' → agent_at db' i = put a (agent_at db) i.
Proof.
  intros Hok H. rewrite (agent_at_saved _ _ _ _ i Hok H). unfold put.
  destruct (decide (i = id a)) as [->|]; [|done]. by rewrite stored_form_adopt.
Qed.

Lemma save_each_put l : ∀ db db' i,
  db_ok url_scheme db → Forall (agent_wf url_scheme) l → save_each l db = Ok db' →
  agent_at db' i = foldl (λ v a, put a v) (agent_at db) l i.
Proof.
  induction l as [|a l IH]; intros db db' i Hok Hwf H; cbn [save_each] in H; [by injection H as <-|].
  apply Forall_cons in Hwf as [Ha Hwf]. apply bind_Ok_inv in H as ([db1 r] & H1 & H).
  pose proof (save_in_transaction_ok _ _ _ _ _ _ Hok Ha H1) as Hok1.
  cbn in H1. apply bind_Ok_inv in H1 as (db2 & H1 & [= <- _]).
  rewrite (IH _ _ i Hok1 Hwf H). cbn. apply foldl_put_ext. by apply agent_at_put.
Qed.

Lemma changed_views a c h row db1 db i :
  db_ok url_scheme db → committed url_scheme a c h row db1 db →
  match agent_at db (id a) with
  | Some b => model_timeout_seconds b = model_timeout_seconds (tc_previous c) ∧
      model_timeout_revision b = model_timeout_revision (tc_previous c) ∧
      agent_at (changed h row db1) i
      = if decide (i = id a) then Some (refit (model_timeout_seconds a) (hr_revision h) b) else agent_at db i
  | None =>
      agent_at (changed h row db1) i
      = if decide (i = id a) then Some (refit (model_timeout_seconds a) (hr_revision h) a)
        else recontract a <$> agent_at db i
  end.
Proof.
  intros Hok [Hok1 Hco He Hrev Hrow]. rewrite (agent_at_changed _ _ _ _ i Hco Hok1).
  assert (hr_agent h = id a) as -> by (by rewrite He).
  assert (hr_timeout h = model_timeout_seconds a) as -> by (by rewrite He).
  destruct Hrow as [(Hr & -> & Ht)|[Hr Hs]].
  - assert (agent_at db (id a) = Some (joined db (id a) row)) as Hat by (unfold agent_at; by rewrite Hr).
    rewrite Hat. split_and!; [done|by rewrite <- Hrev|].
    destruct (decide (i = id a)) as [->|]; [|done]. by rewrite Hat.
  - assert (agent_at db (id a) = None) as Hat by (unfold agent_at; by rewrite Hr). rewrite Hat.
    rewrite (agent_at_put _ _ _ _ Hok Hs). unfold put. destruct (decide (i = id a)) as [->|]; [|done].
    by rewrite Hat.
Qed.

Lemma sqlite_load_ok s :
  db_ok url_scheme (pf_db s) →
  ∃ l, load_agents s = Ok l ∧ NoDup (map id l) ∧ Forall (agent_wf url_scheme) l ∧
    ∀ a, a ∈ l ↔ agent_at (pf_db s) (id a) = Some a.
Proof.
  intros Hok. exists (loaded (pf_db s)). split_and!; [by apply load_all_ok|apply loaded_NoDup|by apply loaded_wf|].
  intros a. apply loaded_elem.
Qed.

Lemma sqlite_save_ok a s s' r :
  db_ok url_scheme (pf_db s) → agent_wf url_scheme a → save_agent a s = (s', r) →
  db_ok url_scheme (pf_db s') ∧
  match r with
  | Ok _ => ∀ i, agent_at (pf_db s') i = put a (agent_at (pf_db s)) i
  | Raise _ => ∀ i, agent_at (pf_db s') i = agent_at (pf_db s) i
  end.
Proof.
  intros Hok Hwf H. unfold save_agent, sqlite_agent_store in H.
  destruct (save sqlite_fault a None s) as [s1 r1] eqn:Hs. injection H as <- <-.
  split; [exact (transaction_ok _ _ _ _ (tx_save _ _ _ _ _ _ _ Hwf Hs) Hok)|].
  apply write_inv in Hs as [(x & Hs & ->)|(Hdb & e & ->)]; cbn [fmap res_fmap]; [|by rewrite Hdb].
  cbn in Hs. apply bind_Ok_inv in Hs as (db & Hs & [= <- _]). intros i. by apply agent_at_put.
Qed.

Lemma sqlite_save_many_ok l s s' r :
  db_ok url_scheme (pf_db s) → Forall (agent_wf url_scheme) l → save_agents l s = (s', r) →
  db_ok url_scheme (pf_db s') ∧
  match r with
  | Ok _ => ∀ i, agent_at (pf_db s') i = foldl (λ v a, put a v) (agent_at (pf_db s)) l i
  | Raise _ => ∀ i, agent_at (pf_db s') i = agent_at (pf_db s) i
  end.
Proof.
  intros Hok Hwf H. change (save_many sqlite_fault l s = (s', r)) in H.
  split; [exact (transaction_ok _ _ _ _ (tx_save_many _ _ _ _ _ _ Hwf H) Hok)|].
  apply write_inv in H as [(x & H & ->)|(Hdb & e & ->)]; [|by rewrite Hdb].
  destruct (save_each l (pf_db s)) as [db|] eqn:Hs; [|done]. injection H as <- _.
  intros i. by apply save_each_put.
Qed.

Lemma sqlite_save_timeout_ok a c s s' r :
  db_ok url_scheme (pf_db s) → agent_wf url_scheme a → save_timeout a c s = (s', r) →
  db_ok url_scheme (pf_db s') ∧
  match r with
  | Ok n => 0 <= n ∧
      match agent_at (pf_db s) (id a) with
      | Some b => model_timeout_seconds b = model_timeout_seconds (tc_previous c) ∧
          model_timeout_revision b = model_timeout_revision (tc_previous c) ∧
          ∀ i, agent_at (pf_db s') i
               = if decide (i = id a) then Some (refit (model_timeout_seconds a) n b) else agent_at (pf_db s) i
      | None =>
          ∀ i, agent_at (pf_db s') i = if decide (i = id a) then Some (refit (model_timeout_seconds a) n a)
                                       else recontract a <$> agent_at (pf_db s) i
      end
  | Raise _ => ∀ i, agent_at (pf_db s') i = agent_at (pf_db s) i
  end.
Proof.
  intros Hok Hwf H. unfold save_timeout, sqlite_agent_store in H.
  destruct (save sqlite_fault a (Some c) s) as [s1 r1] eqn:Hs. injection H as <- <-.
  split; [exact (transaction_ok _ _ _ _ (tx_save _ _ _ _ _ _ _ Hwf Hs) Hok)|].
  apply write_inv in Hs as [(x & Hs & ->)|(Hdb & e & ->)]; cbn [fmap res_fmap]; [|by rewrite Hdb].
  apply (change_committed url_scheme) in Hs as (h & row & db1 & Hc & -> & ->); [|done..]. cbn [default].
  pose proof (change_committed_agent _ _ _ _ _ _ _ Hc) as (Hlt & _).
  pose proof (max_revision_nonneg (id a) (pf_db s)). split; [cbn; lia|].
  pose proof (λ i, changed_views _ _ _ _ _ _ i Hok Hc) as Hv.
  destruct (agent_at (pf_db s) (id a)) as [b|]; [|done].
  destruct (Hv "") as (H1 & H2 & _). split; [exact H1|split; [exact H2|]]. intros i. apply Hv.
Qed.

#[local] Instance sqlite_agent_store_laws : AgentStoreLaws pool_file url_scheme := {|
  store_ok s := db_ok url_scheme (pf_db s);
  store_at s := agent_at (pf_db s);
  store_at_id s := agent_at_id (pf_db s);
  load_agents_ok := sqlite_load_ok;
  save_agent_ok := sqlite_save_ok;
  save_agents_ok := sqlite_save_many_ok;
  save_timeout_ok := sqlite_save_timeout_ok;
|}.
End sqlite_store.

(** ** Demonstrations *)

Definition demo_stored (i : string) (t : option float) : ModelAgent :=
  refit t 0 (demo_agent i "llama-3" "mock://local" ["chat"; "fast"]).

Lemma demo_stored_wf i t :
  is_two_word_snake_case i = true → timeout_check t = true → agent_wf demo_scheme (demo_stored i t).
Proof. intros Hi Ht. apply wf_refit; [|done|done]. by split; cbn; try done; left. Qed.

Definition no_fault : nat → option string := λ _, None.

Definition demo_file1 : pool_file := (save no_fault (demo_stored "main_agent" None) None fresh_file).1.

Lemma demo_file1_reached : rtc (transaction demo_scheme no_fault) fresh_file demo_file1.
Proof.
  eapply rtc_once. apply (tx_save _ _ (demo_stored "main_agent" None) None _ _ (Ok None)).
  - by apply demo_stored_wf.
  - vm_compute. reflexivity.
Qed.

Lemma agent_tables_keep_integrity_witness :
  ∃ l, load_all demo_scheme demo_file1 = Ok l ∧ map id l = ["main_agent"] ∧ Forall (agent_wf demo_scheme) l.
Proof.
  destruct (agent_tables_keep_integrity demo_scheme no_fault demo_file1 demo_file1_reached) as (_ & l & Hl & _ & Hwf & _).
  exists l. split; [exact Hl|]. split; [|exact Hwf].
  assert (load_all demo_scheme demo_file1 = Ok [demo_stored "main_agent" None]) as H by (vm_compute; reflexivity).
  rewrite H in Hl. injection Hl as <-. reflexivity.
Defined.

Lemma saved_agent_loads_back_witness :
  ∃ l', load_all demo_scheme (save no_fault (demo_stored "spare_agent" None) None demo_file1).1 = Ok l' ∧
    demo_stored "spare_agent" None ∈ l'.
Proof.
  destruct (saved_agent_loads_back demo_scheme no_fault demo_file1 (demo_stored "spare_agent" None)
    (save no_fault (demo_stored "spare_agent" None) None demo_file1).1 None [demo_stored "main_agent" None])
    as (l' & Hl & Hin & _).
  - exact demo_file1_reached.
  - by apply demo_stored_wf.
  - vm_compute. reflexivity.
  - vm_compute. reflexivity.
  - exists l'. split; [exact Hl|exact Hin].
Defined.

Definition demo_change : timeout_change :=
  {| tc_previous := demo_stored "main_agent" None; tc_actor := None; tc_restored := None |}.

Definition demo_file2 : pool_file :=
  (save no_fault (demo_stored "main_agent" (Some (float_of_Z 30))) (Some demo_change) demo_file1).1.

(** A second writer that read the pool before the first change is refused. *)
Lemma timeout_change_is_compare_and_swap_witness :
  (save no_fault (demo_stored "main_agent" (Some (float_of_Z 60))) (Some demo_change) demo_file2).2
  = Raise policy_changed.
Proof.
  destruct (timeout_change_is_compare_and_swap demo_scheme no_fault demo_file1
    (demo_stored "main_agent" (Some (float_of_Z 30))) demo_change demo_file2 (Some 1)) as (_ & _ & H).
  - exact demo_file1_reached.
  - apply demo_stored_wf; vm_compute; reflexivity.
  - vm_compute. reflexivity.
  - apply (H demo_file2 (demo_stored "main_agent" (Some (float_of_Z 60))) demo_change).
    + apply rtc_refl.
    + reflexivity.
    + reflexivity.
    + reflexivity.
Defined.
