(* ===== verification/AgentPool.v ===== *)
(** orchestrator.py: the administration of the agent pool. Operators patch, add,
    remove and group agents; discovery upserts them; every accepted change is
    persisted first, then served, and the measured ledgers follow the pool.

    Audit and analytics events, the psychometric evidence and the admin payloads
    are not modelled. *)

From Stdlib Require Import Ascii String QArith Qcanon.
From S2P Require Import Prelude StateLogic PyString PyCollections PyFloat PyValue Exceptions ToolFallback.
From S2P Require Import ProviderErrors ModelGroup EndpointRace Agents AgentHealth EffortProfile Ranking Transport Failover.
From S2P Require Import ToolLoop Recovery Workflow Budget Judge Gateway AgentStore.
Open Scope Z_scope.
Open Scope py_scope.

Inductive pool_error :=
| PoolKeyError (key : string)
| PoolValueError (m : string)
| PoolConfig (e : config_error)           (* what constructing a ModelAgent raised *)
| PoolStore (e : store_error).            (* what the durable store raised *)

(** ** The pool *)

(** What the operator configured. *)
Record pool_env := {
  pe_urlparse : string → option parsed_url;
  pe_group_cfg : router_config;
  pe_quality_cfg : router_config;
  pe_catalog : option (list (string * ReasoningEffortProfile));   (* role_effort_catalog *)
  pe_count_text : string → string → option Z;
  pe_decimal : float → Qc;
  pe_budget : budget_config;
  pe_str : pyval → string;                 (* str() of what is not a string *)
}.

Definition url_scheme_of (pe : pool_env) (url : string) : string :=
  match pe_urlparse pe url with Some u => pu_scheme u | None => "" end.

Record pool (S : Type) := {
  ap_candidates : list ModelAgent;
  ap_agents : list ModelAgent;            (* self.agents, the enabled ones *)
  ap_meter : budget_meter;
  ap_group : group_router;
  ap_quality : group_router;
  ap_store : option S;                    (* _pool_store *)
}.
Arguments ap_candidates {S} p.
Arguments ap_agents {S} p.
Arguments ap_meter {S} p.
Arguments ap_group {S} p.
Arguments ap_quality {S} p.
Arguments ap_store {S} p.

Definition enabled (l : list ModelAgent) : list ModelAgent := List.filter (λ a, negb (disabled a)) l.

Definition with_store {S} (st : option S) (p : pool S) : pool S :=
  {| ap_candidates := ap_candidates p; ap_agents := ap_agents p; ap_meter := ap_meter p;
     ap_group := ap_group p; ap_quality := ap_quality p; ap_store := st |}.

(** [self.candidates = l; self.agents = [...]]. *)
Definition with_candidates {S} (l : list ModelAgent) (p : pool S) : pool S :=
  {| ap_candidates := l; ap_agents := enabled l; ap_meter := ap_meter p;
     ap_group := ap_group p; ap_quality := ap_quality p; ap_store := ap_store p |}.

Definition with_routers {S} (g q : group_router) (p : pool S) : pool S :=
  {| ap_candidates := ap_candidates p; ap_agents := ap_agents p; ap_meter := ap_meter p;
     ap_group := g; ap_quality := q; ap_store := ap_store p |}.

Definition with_pool_meter {S} (m : budget_meter) (p : pool S) : pool S :=
  {| ap_candidates := ap_candidates p; ap_agents := ap_agents p; ap_meter := m;
     ap_group := ap_group p; ap_quality := ap_quality p; ap_store := ap_store p |}.

(** ** Replacing fields of an agent *)

Definition set_disabled (b : bool) (a : ModelAgent) : ModelAgent :=
  {| id := id a; model := model a; base_url := base_url a; api_key_env := api_key_env a;
     credential_key := credential_key a; tags := tags a; priority := priority a; disabled := b;
     provider_name := provider_name a; provider_exclusions := provider_exclusions a;
     local_credential_key := local_credential_key a; auth_scheme := auth_scheme a;
     max_output_tokens := max_output_tokens a; context_window := context_window a; group_name := group_name a;
     reasoning_effort_supported := reasoning_effort_supported a; endpoint_equivalence := endpoint_equivalence a;
     stream_usage_supported := stream_usage_supported a; model_timeout_seconds := model_timeout_seconds a;
     model_timeout_revision := model_timeout_revision a |}.

Definition set_routing (prio : Z) (ts exclusions : list string) (a : ModelAgent) : ModelAgent :=
  {| id := id a; model := model a; base_url := base_url a; api_key_env := api_key_env a;
     credential_key := credential_key a; tags := ts; priority := prio; disabled := disabled a;
     provider_name := provider_name a; provider_exclusions := exclusions;
     local_credential_key := local_credential_key a; auth_scheme := auth_scheme a;
     max_output_tokens := max_output_tokens a; context_window := context_window a; group_name := group_name a;
     reasoning_effort_supported := reasoning_effort_supported a; endpoint_equivalence := endpoint_equivalence a;
     stream_usage_supported := stream_usage_supported a; model_timeout_seconds := model_timeout_seconds a;
     model_timeout_revision := model_timeout_revision a |}.

Definition set_id (i : string) (a : ModelAgent) : ModelAgent :=
  {| id := i; model := model a; base_url := base_url a; api_key_env := api_key_env a;
     credential_key := credential_key a; tags := tags a; priority := priority a; disabled := disabled a;
     provider_name := provider_name a; provider_exclusions := provider_exclusions a;
     local_credential_key := local_credential_key a; auth_scheme := auth_scheme a;
     max_output_tokens := max_output_tokens a; context_window := context_window a; group_name := group_name a;
     reasoning_effort_supported := reasoning_effort_supported a; endpoint_equivalence := endpoint_equivalence a;
     stream_usage_supported := stream_usage_supported a; model_timeout_seconds := model_timeout_seconds a;
     model_timeout_revision := model_timeout_revision a |}.

Definition with_group (g : pyval) (rf : raw_fields) : raw_fields :=
  {| rf_group := g; rf_max_output := rf_max_output rf; rf_window := rf_window rf;
     rf_equivalence := rf_equivalence rf; rf_stream := rf_stream rf; rf_timeout := rf_timeout rf;
     rf_revision := rf_revision rf |}.

Section admin.
Context {S : Type} `{AgentStore S} (pe : pool_env).

Definition scheme : string → string := url_scheme_of pe.

(** ** Governance guards *)

Definition proves_role (role : string) (a : ModelAgent) : bool :=
  agent_proves_reasoning_effort_support a && negb (in_strs role (provider_exclusions a)).

(** [_unsupported_role_effort_roles]. *)
Definition _unsupported_role_effort_roles (candidates : list ModelAgent) : list string :=
  match pe_catalog pe with
  | None => []
  | Some catalog =>
      let chat_agents := List.filter (λ a, negb (disabled a) && _is_general_chat_agent a) candidates in
      py_sorted String.leb
        (omap (λ kv, if negb (String.eqb (rp_unsupported_provider_fallback kv.2) "omit") &&
                        negb (existsb (proves_role kv.1) chat_agents)
                     then Some kv.1 else None) catalog)
  end.

Definition _require_role_effort_pool (candidates : list ModelAgent) : res pool_error unit :=
  match _unsupported_role_effort_roles candidates with
  | [] => Ok tt
  | roles => Raise (PoolValueError (String.append "agent pool mutation would leave fail-closed role-effort roles without an enabled eligible agent that proves native support: " (str_join ", " roles)))
  end.

(** [_agent_in_pool], outside the scope of a request endpoint. *)
Definition _agent_in_pool (pool_id agent_id : string) (p : pool S) : res pool_error ModelAgent :=
  if negb (String.eqb pool_id "default") then Raise (PoolKeyError pool_id) else
  match List.find (λ a, String.eqb (id a) agent_id) (ap_candidates p) with
  | Some a => Ok a
  | None => Raise (PoolKeyError agent_id)
  end.

(** ** Effects *)

Definition persist {A} (without : A) (f : S → S * res store_error A) : ST (pool S) pool_error A := λ p,
  match ap_store p with
  | None => (p, Ok without)
  | Some st => let '(st, r) := f st in (with_store (Some st) p, map_raise PoolStore r)
  end.

Definition serve_candidates (l : list ModelAgent) : ST (pool S) pool_error unit := st.modify (with_candidates l).

Definition rebuild_meter : ST (pool S) pool_error unit := st.modify (λ p,
  with_pool_meter
    (_rebuild_budget_meter (pe_count_text pe) (pe_decimal pe) (pe_budget pe) (ap_candidates p) (ap_meter p)) p).

Definition _routers_register_members (member_ids : list string) : ST (pool S) pool_error unit := st.modify (λ p,
  with_routers (fold_left (λ r i, register_member (pe_group_cfg pe) i r) member_ids (ap_group p))
    (fold_left (λ r i, register_member (pe_quality_cfg pe) i r) member_ids (ap_quality p)) p).

Definition _routers_reset_members (member_ids : list string) : ST (pool S) pool_error unit := st.modify (λ p,
  with_routers (reset_members (list_to_set member_ids) (ap_group p))
    (reset_members (list_to_set member_ids) (ap_quality p)) p).

Definition _routers_forget_members (member_ids : list string) : ST (pool S) pool_error unit := st.modify (λ p,
  with_routers (forget_members (list_to_set member_ids) (ap_group p))
    (forget_members (list_to_set member_ids) (ap_quality p)) p).

(** ** patch_agent *)

Definition raw_replace (a : ModelAgent) (rf : raw_fields) : res pool_error ModelAgent :=
  map_raise PoolConfig (replace_agent scheme a rf).

(** [if key in patch: patched = ...]. *)
Definition patching (key : string) (patch : dict) (f : pyval → ModelAgent → res pool_error ModelAgent)
    (a : ModelAgent) : res pool_error ModelAgent :=
  match dict_get key patch with Some v => f v a | None => Ok a end.

Definition patch_status (v : pyval) (a : ModelAgent) : res pool_error ModelAgent :=
  let status := str_lower (match v with VStr s => s | v => pe_str pe v end) in
  if in_strs status ["active"; "enabled"] then let a := set_disabled false a in raw_replace a (raw_of a)
  else if in_strs status ["disabled"; "excluded"; "inactive"; "quarantine"]
  then let a := set_disabled true a in raw_replace a (raw_of a)
  else Raise (PoolValueError "status must be active, enabled, disabled, excluded, inactive, or quarantine").

Definition routed (field : string) (v : pyval) (a : ModelAgent) : res config_error ModelAgent :=
  if String.eqb field "priority"
  then match int_of v with Ok n => Ok (set_routing n (tags a) (provider_exclusions a) a) | Raise e => Raise e end
  else match tuple_of v ≫= strings_of field with
       | Ok l => Ok (if String.eqb field "tags" then set_routing (priority a) l (provider_exclusions a) a
                     else set_routing (priority a) (tags a) l a)
       | Raise e => Raise e
       end.

Definition patch_routing (field : string) (v : pyval) (a : ModelAgent) : res pool_error ModelAgent :=
  map_raise PoolConfig (routed field v a) ≫= λ a, raw_replace a (raw_of a).

Definition patch_group (v : pyval) (a : ModelAgent) : res pool_error ModelAgent :=
  let group_name := match v with VStr s => s | v => pe_str pe v end in
  (if str_truthy group_name then map_raise PoolValueError (canonical_group_name group_name) else Ok "") ≫= λ g,
  raw_replace a (with_group (VStr g) (raw_of a)).

Definition with_raw (field : string) (v : pyval) (rf : raw_fields) : raw_fields :=
  let named f := String.eqb field f in
  {| rf_group := rf_group rf;
     rf_max_output := if named "max_output_tokens" then v else rf_max_output rf;
     rf_window := if named "context_window" then v else rf_window rf;
     rf_equivalence := if named "endpoint_equivalence" then v else rf_equivalence rf;
     rf_stream := if named "stream_usage_supported" then v else rf_stream rf;
     rf_timeout := if named "model_timeout_seconds" then v else rf_timeout rf;
     rf_revision := if named "model_timeout_revision" then v else rf_revision rf |}.

Definition patch_raw (field : string) (v : pyval) (a : ModelAgent) : res pool_error ModelAgent :=
  raw_replace a (with_raw field v (raw_of a)).

Definition patch_equivalence (v : pyval) (a : ModelAgent) : res pool_error ModelAgent :=
  match v with
  | VNone | VDict _ => patch_raw "endpoint_equivalence" v a
  | _ => Raise (PoolValueError "endpoint_equivalence must be an object or null")
  end.

(** The updates, in the order they are applied. *)
Definition patches : list (string * (pyval → ModelAgent → res pool_error ModelAgent)) :=
  [("status", patch_status); ("priority", patch_routing "priority"); ("tags", patch_routing "tags");
   ("provider_exclusions", patch_routing "provider_exclusions"); ("group_name", patch_group);
   ("max_output_tokens", patch_raw "max_output_tokens"); ("context_window", patch_raw "context_window");
   ("model_timeout_seconds", patch_raw "model_timeout_seconds"); ("endpoint_equivalence", patch_equivalence);
   ("stream_usage_supported", patch_raw "stream_usage_supported")].

Definition apply_patch (patch : dict) (r : res pool_error ModelAgent)
    (step : string * (pyval → ModelAgent → res pool_error ModelAgent)) : res pool_error ModelAgent :=
  match r with Ok a => patching step.1 patch step.2 a | Raise e => Raise e end.

Definition patched_agent (patch : dict) (current : ModelAgent) : res pool_error ModelAgent :=
  fold_left (apply_patch patch) patches (Ok current).

Definition replace_candidate (a : ModelAgent) (l : list ModelAgent) (agent_id : string) : list ModelAgent :=
  map (λ c, if String.eqb (id c) agent_id then a else c) l.

(** The optimistic lock and the actor of a timeout change. *)
Definition timeout_guard (patch : dict) (current : ModelAgent) (actor expected : pyval) (store : option S)
    : res pool_error unit :=
  if negb (forallb (λ kv, key_is "model_timeout_seconds" kv.1) patch)
  then Raise (PoolValueError "model timeout policy must be updated separately") else
  if match expected with
     | VNone => false
     | VInt n => negb (n =? model_timeout_revision current)
     | _ => true
     end then Raise (PoolValueError "model timeout policy changed; reload before updating") else
  if match actor with
     | VNone => false
     | VStr s => negb (str_len s =? 64) || negb (forallb (λ c, is_digit c || ((97 <=? ord c) && (ord c <=? 102))) (str_list s))
     | _ => true
     end then Raise (PoolValueError "timeout actor must be an opaque principal digest") else
  match store with
  | None => Raise (PoolValueError "model timeout policy requires a durable agent store")
  | Some _ => Ok tt
  end.

Definition patch_agent (pool_id agent_id : string) (patch : dict) (actor expected : pyval)
    (restored : option Z) : ST (pool S) pool_error ModelAgent := λ p,
  let plan : res pool_error (ModelAgent * ModelAgent) :=
    match patch with [] => Raise (PoolValueError "patch request body must contain updates") | _ => Ok tt end ≫= λ _ : unit,
    _agent_in_pool pool_id agent_id p ≫= λ current,
    patched_agent patch current ≫= λ patched,
    let updated := replace_candidate patched (ap_candidates p) agent_id in
    match enabled updated with [] => Raise (PoolValueError "cannot disable the last enabled agent") | _ => Ok tt end ≫= λ _ : unit,
    _require_role_effort_pool updated ≫= λ _ : unit,
    match dict_get "model_timeout_seconds" patch with
    | Some _ => timeout_guard patch current actor expected (ap_store p)
    | None => Ok tt
    end ≫= λ _ : unit, Ok (current, patched) in
  match plan with
  | Raise e => (p, Raise e)
  | Ok (current, patched) =>
      match dict_get "model_timeout_seconds" patch with
      | Some _ =>
          (let* revision := persist 0 (save_timeout patched {| tc_previous := current; tc_actor := as_str actor; tc_restored := restored |}) in
           let* a := st.lift (patch_raw "model_timeout_revision" (VInt revision) patched) in
           let* _ := serve_candidates (replace_candidate a (ap_candidates p) agent_id) in
           st.ret a) p
      | None =>
          let updated := replace_candidate patched (ap_candidates p) agent_id in
          (let* _ := persist tt (save_agent patched) in
           let* _ := serve_candidates updated in
           let* _ := rebuild_meter in
           let* _ := if String.eqb (group_name patched) (group_name current) then st.ret tt
                     else _routers_reset_members [agent_id] in
           let* _ := _routers_register_members (map id updated) in
           let* _ := _routers_forget_members (map id updated) in
           st.ret patched) p
      end
  end.

(** [restore_model_timeout]: a historical value becomes a new revision. *)
Definition restore_model_timeout (pool_id agent_id : string) (source_revision expected_revision actor : pyval)
    : ST (pool S) pool_error ModelAgent := λ p,
  let plan : res pool_error (Z * pyval) :=
    _agent_in_pool pool_id agent_id p ≫= λ _,
    match source_revision with
    | VInt n => if (0 <? n) && (n <=? _AGENT_POOL_INTEGER_MAX) then Ok n
                else Raise (PoolValueError "source_revision must be a positive integer")
    | _ => Raise (PoolValueError "source_revision must be a positive integer")
    end ≫= λ source,
    match expected_revision with
    | VInt n => if n <? 0 then Raise (PoolValueError "expected_revision must be a non-negative integer") else Ok tt
    | _ => Raise (PoolValueError "expected_revision must be a non-negative integer")
    end ≫= λ _ : unit,
    match actor with VNone => Raise (PoolValueError "restore requires an opaque principal digest") | _ => Ok tt end ≫= λ _ : unit,
    match ap_store p with
    | None => Raise (PoolValueError "model timeout policy requires a durable agent store")
    | Some st => (λ v, (source, opt_val VFloat v)) <$> map_raise PoolStore (timeout_at agent_id source st)
    end in
  match plan with
  | Raise e => (p, Raise e)
  | Ok (source, value) =>
      patch_agent pool_id agent_id [(VStr "model_timeout_seconds", value)] actor expected_revision (Some source) p
  end.

(** ** Groups *)

Definition in_group (name : string) (a : ModelAgent) : bool :=
  str_truthy (group_name a) &&
  match canonical_group_name (group_name a) with Ok g => String.eqb g name | Raise _ => false end.

(** The members, in the order their agents were configured; the ranking of the
    report is not modelled. *)
Definition get_model_group (raw_name : string) (p : pool S) : res pool_error (string * list ModelAgent) :=
  map_raise PoolValueError (canonical_group_name raw_name) ≫= λ name,
  match List.filter (in_group name) (ap_candidates p) with
  | [] => Raise (PoolKeyError name)
  | members => Ok (name, members)
  end.

(** [replace(agent, group_name=...)] for every agent. *)
Definition regroup (f : ModelAgent → option string) (l : list ModelAgent) : res pool_error (list ModelAgent) :=
  map_res (λ a, match f a with Some g => raw_replace a (with_group (VStr g) (raw_of a)) | None => Ok a end) l.

Definition changed_ids (before after : list ModelAgent) : list string :=
  omap (λ ba, if String.eqb (group_name ba.1) (group_name ba.2) then None else Some (id ba.1)) (zip before after).

Definition serve_regrouped (updated : list ModelAgent) (changed : list string) : ST (pool S) pool_error unit :=
  let* _ := serve_candidates updated in
  let* _ := _routers_reset_members changed in
  let* _ := _routers_register_members changed in
  _routers_forget_members (map id updated).

Definition requested_group (name : string) (requested : list string) (a : ModelAgent) : option string :=
  if in_strs (id a) requested then Some name else if in_group name a then Some "" else None.

Definition set_model_group (raw_name : string) (member_agent_ids : list string)
    : ST (pool S) pool_error (string * list ModelAgent) := λ p,
  let plan : res pool_error (string * list ModelAgent) :=
    map_raise PoolValueError (canonical_group_name raw_name) ≫= λ name,
    match member_agent_ids with
    | [] => Raise (PoolValueError "member_agent_ids must be a non-empty list of strings")
    | _ => Ok tt
    end ≫= λ _ : unit,
    (if bool_decide (NoDup member_agent_ids) then Ok tt
     else Raise (PoolValueError "member_agent_ids must not contain duplicates")) ≫= λ _ : unit,
    match py_sorted String.leb (List.filter (λ i, negb (in_strs i (map id (ap_candidates p)))) member_agent_ids) with
    | [] => Ok tt
    | missing => Raise (PoolKeyError (str_join "," missing))
    end ≫= λ _ : unit,
    regroup (requested_group name member_agent_ids) (ap_candidates p) ≫= λ updated, Ok (name, updated) in
  match plan with
  | Raise e => (p, Raise e)
  | Ok (name, updated) =>
      let previous := map id (List.filter (in_group name) (ap_candidates p)) in
      (let* _ := persist tt (save_agents (List.filter (λ a, in_strs (id a) (member_agent_ids ++ previous)) updated)) in
       let* _ := serve_regrouped updated (changed_ids (ap_candidates p) updated) in
       λ p, (p, get_model_group name p)) p
  end.

Definition delete_model_group (raw_name : string) : ST (pool S) pool_error string := λ p,
  let plan : res pool_error (string * list string * list ModelAgent) :=
    get_model_group raw_name p ≫= λ current,
    regroup (λ a, if in_strs (id a) (map id current.2) then Some "" else None) (ap_candidates p) ≫= λ updated,
    Ok (current.1, map id current.2, updated) in
  match plan with
  | Raise e => (p, Raise e)
  | Ok (name, member_ids, updated) =>
      (let* _ := persist tt (save_agents (List.filter (λ a, in_strs (id a) member_ids) updated)) in
       let* _ := serve_regrouped updated member_ids in
       st.ret name) p
  end.

(** ** Adding and removing *)

Definition LOCAL_PROVIDER_SCHEMES : list string := ["mlx"; "local"].
Definition LOCAL_PROVIDER_HOSTS : list string := ["127.0.0.1"; "::1"; "localhost"].

(** A URL whose port does not parse has no parse here. *)
Definition _is_local_provider_url (url : string) : bool :=
  match pe_urlparse pe url with
  | Some u => in_strs (pu_scheme u) LOCAL_PROVIDER_SCHEMES && in_strs (pu_hostname u) LOCAL_PROVIDER_HOSTS
  | None => false
  end.

Definition remote_https (url : string) : bool :=
  match pe_urlparse pe url with Some u => String.eqb (pu_scheme u) "https" && str_truthy (pu_hostname u) | None => false end.

Definition new_agent_guard (a : ModelAgent) : res pool_error unit :=
  if str_startswith "mock://" (base_url a) || _is_local_provider_url (base_url a) then Ok tt
  else if negb (remote_https (base_url a))
  then Raise (PoolValueError "non-mock remote agents must use an https base_url; local agents use mlx://loopback")
  else if negb (str_truthy (credential_name a))
  then Raise (PoolValueError "non-mock agents require credential_key or legacy api_key_env")
  else Ok tt.

Definition add_agent (pool_id : string) (value : dict) : ST (pool S) pool_error ModelAgent := λ p,
  let plan : res pool_error ModelAgent :=
    (if String.eqb pool_id "default" then Ok tt else Raise (PoolKeyError pool_id)) ≫= λ _ : unit,
    match dict_get "id" value, dict_get "model" value with
    | Some _, Some _ => Ok tt
    | _, _ => Raise (PoolValueError "agent requires id and model")
    end ≫= λ _ : unit,
    map_raise PoolConfig (from_dict scheme value) ≫= λ a,
    (if in_strs (id a) (map id (ap_candidates p))
     then Raise (PoolValueError (str_join "" ["agent "; id a; " already exists"])) else Ok tt) ≫= λ _ : unit,
    new_agent_guard a ≫= λ _ : unit, Ok a in
  match plan with
  | Raise e => (p, Raise e)
  | Ok a =>
      (let* _ := persist tt (save_agent a) in
       let* _ := serve_candidates (ap_candidates p ++ [a]) in
       let* _ := rebuild_meter in
       let* _ := _routers_register_members [id a] in
       st.ret a) p
  end.

Definition without_agent (agent_id : string) (l : list ModelAgent) : list ModelAgent :=
  List.filter (λ a, negb (String.eqb (id a) agent_id)) l.

Definition drop_served (remaining : list ModelAgent) : ST (pool S) pool_error unit :=
  let* _ := serve_candidates remaining in
  let* _ := rebuild_meter in
  _routers_forget_members (map id remaining).

(** The tombstone is persisted before the candidate is dropped. *)
Definition remove_agent (pool_id agent_id : string) : ST (pool S) pool_error string := λ p,
  let remaining := without_agent agent_id (ap_candidates p) in
  let plan : res pool_error ModelAgent :=
    _agent_in_pool pool_id agent_id p ≫= λ target,
    match enabled remaining with [] => Raise (PoolValueError "cannot remove the last enabled agent") | _ => Ok tt end ≫= λ _ : unit,
    _require_role_effort_pool remaining ≫= λ _ : unit, Ok target in
  match plan with
  | Raise e => (p, Raise e)
  | Ok target =>
      (let* _ := match ap_store p with
                 | None => st.ret tt
                 | Some _ =>
                     let target := set_disabled true target in
                     let* tombstone := st.lift (raw_replace target (with_group (VStr "") (raw_of target))) in
                     persist tt (save_agent tombstone)
                 end in
       let* _ := drop_served remaining in
       st.ret agent_id) p
  end.

Definition _retire_runtime_agent (agent_id : string) : ST (pool S) pool_error unit := λ p,
  match _agent_in_pool "default" agent_id p with
  | Raise e => (p, Raise e)
  | Ok _ => drop_served (without_agent agent_id (ap_candidates p)) p
  end.

(** ** Discovery *)

(** The value of a dict comprehension: the last index wins. *)
Definition last_index (p : ModelAgent → bool) (l : list ModelAgent) : option nat :=
  fold_left (λ best ia, if p ia.2 then Some ia.1 else best) (zip (seq 0 (length l)) l) None.

Record sync_state := {
  sy_existing : list (string * nat);      (* existing_by_id *)
  sy_candidates : list ModelAgent;        (* updated_candidates *)
  sy_effective : list ModelAgent;
  sy_added : list string;
  sy_updated : list string;
}.

Definition is_discovered (a : ModelAgent) : bool := has_tag "discovered" a.

(** The row of discovery that an agent of another id stands for. *)
Definition discovered_index (initial : list ModelAgent) (a : ModelAgent) : option nat :=
  let legacy_id := legacy_discovered_agent_id (provider_name a) (model a) in
  match last_index (λ c, String.eqb (provider_name c) (provider_name a) && String.eqb (model c) (model a) &&
                         String.eqb (id c) legacy_id) initial with
  | Some i => Some i
  | None =>
      last_index (λ c, is_discovered c && String.eqb (provider_name c) (provider_name a) &&
                       String.eqb (credential_name c) (credential_name a) && String.eqb (model c) (model a)) initial
  end.

(** What an upserted agent keeps of the row it replaces. *)
Definition merge_row (a row : ModelAgent) : res pool_error ModelAgent :=
  raw_replace a
    (with_group (VStr (or_str (group_name row) (group_name a)))
       (with_raw "model_timeout_revision" (VInt (model_timeout_revision row))
          (with_raw "model_timeout_seconds" (opt_val VFloat (model_timeout_seconds row)) (raw_of a)))).

Definition upsert (i : nat) (a : ModelAgent) (s : sync_state) : res pool_error sync_state :=
  match sy_candidates s !! i with
  | None => Ok s
  | Some row =>
      merge_row a row ≫= λ a,
      Ok {| sy_existing := sy_existing s; sy_candidates := <[i := a]> (sy_candidates s);
            sy_effective := sy_effective s ++ [a]; sy_added := sy_added s;
            sy_updated := sy_updated s ++ [id a] |}
  end.

Definition append_discovered (a : ModelAgent) (s : sync_state) : sync_state :=
  {| sy_existing := od_set (id a) (length (sy_candidates s)) (sy_existing s);
     sy_candidates := sy_candidates s ++ [a]; sy_effective := sy_effective s ++ [a];
     sy_added := sy_added s ++ [id a]; sy_updated := sy_updated s |}.

Definition sync_step (initial : list ModelAgent) (s : sync_state) (a : ModelAgent) : res pool_error sync_state :=
  match od_get (id a) (sy_existing s) with
  | Some i => upsert i a s
  | None =>
      match discovered_index initial a with
      | None => Ok (append_discovered a s)
      | Some i =>
          match sy_candidates s !! i with
          | None => Ok s
          | Some row =>
              if negb (is_discovered row) then Ok s
              else let a := set_id (id row) a in raw_replace a (raw_of a) ≫= λ a, upsert i a s
          end
      end
  end.

Fixpoint sync_loop (initial : list ModelAgent) (s : sync_state) (l : list ModelAgent) : res pool_error sync_state :=
  match l with
  | [] => Ok s
  | a :: l => sync_step initial s a ≫= λ s, sync_loop initial s l
  end.

Definition indexed_ids (l : list ModelAgent) : list (string * nat) :=
  fold_left (λ d ia, od_set (id ia.2) ia.1 d) (zip (seq 0 (length l)) l) [].

Definition sync_start (l : list ModelAgent) : sync_state :=
  {| sy_existing := indexed_ids l; sy_candidates := l; sy_effective := []; sy_added := []; sy_updated := [] |}.

Definition sync_discovered_agents (discovered : list ModelAgent)
    : ST (pool S) pool_error (list string * list string) := λ p,
  let plan : res pool_error sync_state :=
    sync_loop (ap_candidates p) (sync_start (ap_candidates p)) discovered ≫= λ s,
    _require_role_effort_pool (sy_candidates s) ≫= λ _ : unit, Ok s in
  match plan with
  | Raise e => (p, Raise e)
  | Ok s =>
      (let* _ := persist tt (save_agents (sy_effective s)) in
       let* _ := serve_candidates (sy_candidates s) in
       let* _ := rebuild_meter in
       let* _ := _routers_register_members (map id (sy_effective s)) in
       st.ret (sy_added s, sy_updated s)) p
  end.

(** ** Start *)

(** The pool at startup: stored rows win by id, stored rows of other ids follow. *)
Definition overlay (seed stored : list ModelAgent) : list ModelAgent :=
  let find i l := List.find (λ a, String.eqb (id a) i) l in
  map (λ a, default a (find (id a) stored)) seed ++
  List.filter (λ a, negb (in_strs (id a) (map id seed))) stored.

Definition start_pool (seed : list ModelAgent) (store : option S) (allow_empty : bool) (m : budget_meter)
    : res pool_error (pool S) :=
  match store with
  | Some st => (λ stored, overlay seed stored) <$> map_raise PoolStore (load_agents st)
  | None => Ok seed
  end ≫= λ candidates,
  match enabled candidates, allow_empty with
  | [], false => Raise (PoolValueError "at least one enabled agent is required")
  | agents, _ =>
      Ok {| ap_candidates := candidates; ap_agents := agents; ap_meter := m;
            ap_group := fold_left (λ r i, register_member (pe_group_cfg pe) i r) (map id candidates) empty_router;
            ap_quality := fold_left (λ r i, register_member (pe_quality_cfg pe) i r) (map id candidates) empty_router;
            ap_store := store |}
  end.
End admin.

(** ** Lemmas: replacing fields *)

(** What the constructor takes over, and what it checked. *)
Record replaced (a : ModelAgent) (rf : raw_fields) (b : ModelAgent) : Prop := {
  rp_id : id b = id a;
  rp_model : model b = model a;
  rp_base_url : base_url b = base_url a;
  rp_tags : tags b = tags a;
  rp_disabled : disabled b = disabled a;
  rp_exclusions : provider_exclusions b = provider_exclusions a;
  rp_effort : reasoning_effort_supported b = reasoning_effort_supported a;
  rp_group : ∀ g, rf_group rf = VStr g →
    if str_truthy g then canonical_group_name g = Ok (group_name b) else group_name b = g;
  rp_timeout : timeout_seconds (rf_timeout rf) = Ok (model_timeout_seconds b);
  rp_revision : rf_revision rf = VInt (model_timeout_revision b);
  rp_contract : match rf_equivalence rf with
                | VNone => endpoint_equivalence b = None
                | VDict d => ∃ c, contract_of_dict d = Ok c ∧ endpoint_equivalence b = Some c
                | _ => False
                end;
}.

Lemma replace_inv url_scheme a rf b : replace_agent url_scheme a rf = Ok b → replaced a rf b.
Proof.
  unfold replace_agent, ModelAgent_init. intros H.
  apply bind_Ok_inv in H as (u & _ & H). apply bind_Ok_inv in H as (g & Hg & H).
  apply bind_Ok_inv in H as (k & _ & H). apply bind_Ok_inv in H as (sch & _ & H).
  apply bind_Ok_inv in H as (o & _ & H). apply bind_Ok_inv in H as (w & _ & H).
  apply bind_Ok_inv in H as (e & He & H). apply bind_Ok_inv in H as (su & _ & H).
  apply bind_Ok_inv in H as (t & Ht & H). apply bind_Ok_inv in H as (r & Hr & H).
  apply bind_Ok_inv in H as (c & Hc & H). injection H as <-.
  split; cbn; try done.
  - destruct (reasoning_effort_supported a); cbn in He; by simplify_eq.
  - intros g' Hg'. rewrite Hg' in Hg. destruct (str_truthy g'); [by apply map_raise_Ok in Hg|by simplify_eq].
  - destruct (rf_revision rf) as [| |n| | | | |]; try done. destruct (n <? 0); [done|]. by simplify_eq.
  - destruct (rf_equivalence rf) as [| | | | | | |d]; try done; [by simplify_eq|].
    destruct (contract_of_dict d) eqn:Hd; [|done]. cbn in Hc. simplify_eq. eauto.
Qed.

Lemma timeout_seconds_opt t : timeout_check t = true → timeout_seconds (opt_val VFloat t) = Ok t.
Proof. destruct t as [x|]; [|done]. cbn. by intros ->. Qed.

(** What the guards of the pool look at. *)
Definition same_standing (a b : ModelAgent) : Prop :=
  id b = id a ∧ model b = model a ∧ base_url b = base_url a ∧ tags b = tags a ∧
  disabled b = disabled a ∧ provider_exclusions b = provider_exclusions a ∧
  reasoning_effort_supported b = reasoning_effort_supported a.

Lemma replaced_standing a rf b : replaced a rf b → same_standing a b.
Proof. intros []. by split_and!. Qed.

Lemma standing_refl a : same_standing a a.
Proof. by split_and!. Qed.

Lemma standing_proves role a b : same_standing a b → proves_role role b = proves_role role a.
Proof.
  intros (_ & _ & Hu & _ & _ & He & Hr). unfold proves_role, agent_proves_reasoning_effort_support.
  by rewrite Hu, He, Hr.
Qed.

Lemma standing_chat a b : same_standing a b → _is_general_chat_agent b = _is_general_chat_agent a.
Proof. intros (_ & Hm & _ & Ht & _). unfold _is_general_chat_agent, has_tag. by rewrite Hm, Ht. Qed.

(** A field the pool does not read from the raw ones: the agent keeps its policy. *)
Definition same_policy (a b : ModelAgent) : Prop :=
  model_timeout_seconds b = model_timeout_seconds a ∧ model_timeout_revision b = model_timeout_revision a.

Lemma replaced_policy url_scheme a rf b :
  agent_wf url_scheme a → rf_timeout rf = opt_val VFloat (model_timeout_seconds a) →
  rf_revision rf = VInt (model_timeout_revision a) → replaced a rf b → same_policy a b.
Proof.
  intros Hwf Ht Hr Hrep. pose proof (rp_timeout _ _ _ Hrep) as H1. pose proof (rp_revision _ _ _ Hrep) as H2.
  rewrite Ht, timeout_seconds_opt in H1 by (by eapply timeout_check_wf). rewrite Hr in H2. split; congruence.
Qed.

Lemma replaced_contract url_scheme a rf b :
  agent_wf url_scheme a → rf_equivalence rf = rf_equivalence (raw_of a) → replaced a rf b →
  endpoint_equivalence b = endpoint_equivalence a.
Proof.
  intros Hwf He Hrep. pose proof (rp_contract _ _ _ Hrep) as H. rewrite He in H. cbn [raw_of rf_equivalence] in H.
  destruct (endpoint_equivalence a) as [c|] eqn:Hc; cbn [opt_val] in H; [|done].
  destruct H as (c' & H1 & ->). rewrite (wf_contract _ _ Hwf c Hc) in H1. congruence.
Qed.

(** ** Lemmas: the ledgers' members *)

Lemma register_dom cfg i r : dom (gr_members (register_member cfg i r)) = {[i]} ∪ dom (gr_members r).
Proof.
  unfold register_member, _ensure_locked. destruct (gr_members r !! i) as [m|] eqn:Hi; cbn.
  - apply elem_of_dom_2 in Hi. set_solver.
  - by rewrite dom_insert_L.
Qed.

Lemma register_all_dom cfg l : ∀ r,
  dom (gr_members (fold_left (λ r i, register_member cfg i r) l r)) = list_to_set l ∪ dom (gr_members r).
Proof. induction l as [|i l IH]; intros r; cbn; [set_solver|]. rewrite IH, register_dom. set_solver. Qed.

Lemma reset_dom (X : gset string) r : dom (gr_members (reset_members X r)) = dom (gr_members r) ∖ X.
Proof.
  assert (∀ l, dom (gr_members (foldr drop_member r l)) = dom (gr_members r) ∖ list_to_set l) as H.
  { induction l as [|i l IH]; cbn; [set_solver|]. rewrite dom_delete_L, IH. set_solver. }
  unfold reset_members. rewrite H. by rewrite list_to_set_elements_L.
Qed.

Lemma forget_dom (X : gset string) r : dom (gr_members (forget_members X r)) = dom (gr_members r) ∩ X.
Proof.
  assert (∀ l, dom (gr_members (foldr (λ i r, if decide (i ∈ X) then r else drop_member i r) r l))
               = dom (gr_members r) ∖ (list_to_set l ∖ X)) as H.
  { induction l as [|i l IH]; cbn; [set_solver|]. destruct (decide (i ∈ X)).
    - rewrite IH. set_solver.
    - cbn. rewrite dom_delete_L, IH. set_solver. }
  unfold forget_members. rewrite H. apply set_eq. intros i.
  rewrite !elem_of_difference, elem_of_list_to_set, elem_of_intersection. split.
  - intros [Hi Hn]. split; [done|]. destruct (decide (i ∈ X)); [done|]. destruct Hn. split; [|done].
    apply elem_of_dom in Hi as [m Hm]. apply list_elem_of_fmap. exists (i, m). by rewrite elem_of_map_to_list.
  - naive_solver.
Qed.

(** ** Lemmas: governance *)

Section governance.
Context (pe : pool_env).

(** Every fail-closed role has an enabled chat agent that proves native support. *)
Definition roles_supported (l : list ModelAgent) : Prop :=
  ∀ catalog role prof, pe_catalog pe = Some catalog → (role, prof) ∈ catalog →
    rp_unsupported_provider_fallback prof ≠ "omit" →
    ∃ a, a ∈ l ∧ disabled a = false ∧ _is_general_chat_agent a = true ∧ proves_role role a = true.

Definition governed (l : list ModelAgent) : Prop := enabled l ≠ [] ∧ roles_supported l.

Lemma enabled_elem a l : a ∈ enabled l ↔ a ∈ l ∧ disabled a = false.
Proof. unfold enabled. by rewrite list_elem_of_In, filter_In, <- list_elem_of_In, negb_true_iff. Qed.

Lemma enabled_nonempty l : enabled l ≠ [] ↔ ∃ a, a ∈ l ∧ disabled a = false.
Proof.
  split.
  - destruct (enabled l) as [|a l'] eqn:He; [done|]. intros _. exists a. apply enabled_elem. rewrite He. left.
  - intros (a & Ha%enabled_elem) He. rewrite He in Ha. by apply elem_of_nil in Ha.
Qed.

Lemma unsupported_nil l : _unsupported_role_effort_roles pe l = [] ↔ roles_supported l.
Proof.
  unfold _unsupported_role_effort_roles, roles_supported. destruct (pe_catalog pe) as [catalog|]; [|by split].
  set (f := λ kv : string * ReasoningEffortProfile, _).
  assert (py_sorted String.leb (omap f catalog) = [] ↔ ∀ kv, kv ∈ catalog → f kv = None) as ->.
  { split.
    - intros H kv Hkv. destruct (f kv) as [r|] eqn:Hf; [|done].
      assert (r ∈ py_sorted String.leb (omap f catalog)) as Hr by (apply py_sorted_elem, list_elem_of_omap; eauto).
      rewrite H in Hr. by apply elem_of_nil in Hr.
    - intros H. assert (omap f catalog = []) as ->; [|done].
      induction catalog as [|kv c IH]; [done|]. cbn. rewrite H by left. apply IH. intros kv' Hkv'. apply H. by right. }
  assert (∀ kv, f kv = None ↔ (rp_unsupported_provider_fallback kv.2 ≠ "omit" →
    ∃ a, a ∈ l ∧ disabled a = false ∧ _is_general_chat_agent a = true ∧ proves_role kv.1 a = true)) as Hf.
  { intros kv. unfold f. destruct (String.eqb_spec (rp_unsupported_provider_fallback kv.2) "omit"); cbn; [by split|].
    set (chat := List.filter _ l).
    destruct (existsb (proves_role kv.1) chat) eqn:Hx; cbn.
    - split; [intros _ _|done]. apply existsb_exists in Hx as (a & Ha & Hp).
      apply filter_In in Ha as [Ha Hc]. bools. exists a. by rewrite list_elem_of_In.
    - split; [done|]. intros H. destruct H as (a & Ha & Hd & Hc & Hp); [done|].
      assert (existsb (proves_role kv.1) chat = true) as Hx'; [|congruence].
      apply existsb_exists. exists a. split; [|done]. apply filter_In. rewrite <- list_elem_of_In. by rewrite Hd, Hc. }
  split.
  - intros H c role prof [= <-] Hin Hne. by apply (proj1 (Hf (role, prof)) (H _ Hin)).
  - intros H [role prof] Hin. apply Hf. intros Hne. by apply (H catalog role prof).
Qed.

Lemma require_pool_Ok l u : _require_role_effort_pool pe l = Ok u ↔ roles_supported l.
Proof.
  unfold _require_role_effort_pool. rewrite <- unsupported_nil.
  destruct (_unsupported_role_effort_roles pe l), u; by split.
Qed.

(** Agents of the same standing, or more of them, govern as well. *)
Lemma governed_standing l l' :
  (∀ a, a ∈ l → ∃ b, b ∈ l' ∧ same_standing a b) → governed l → governed l'.
Proof.
  intros Hst [He Hr]. split.
  - apply enabled_nonempty. apply enabled_nonempty in He as (a & Ha & Hd).
    destruct (Hst a Ha) as (b & Hb & Hs). exists b. split; [done|]. destruct Hs as (_ & _ & _ & _ & -> & _). done.
  - intros catalog role prof Hc Hin Hne. destruct (Hr catalog role prof Hc Hin Hne) as (a & Ha & Hd & Hchat & Hp).
    destruct (Hst a Ha) as (b & Hb & Hs). exists b.
    rewrite (standing_chat _ _ Hs), (standing_proves _ _ _ Hs). destruct Hs as (_ & _ & _ & _ & -> & _). done.
Qed.
End governance.

(** ** Lemmas: the list of candidates *)

Lemma replace_candidate_ids b l i : id b = i → map id (replace_candidate b l i) = map id l.
Proof.
  intros Hb. unfold replace_candidate. rewrite map_map. apply map_ext_in. intros a _.
  destruct (String.eqb_spec (id a) i); congruence.
Qed.

Lemma replace_candidate_elem b l i c :
  c ∈ replace_candidate b l i ↔ (c = b ∧ i ∈ map id l) ∨ (c ∈ l ∧ id c ≠ i).
Proof.
  unfold replace_candidate. rewrite list_elem_of_fmap. setoid_rewrite list_elem_of_fmap. split.
  - intros (a & -> & Ha). destruct (String.eqb_spec (id a) i); [left; eauto|by right].
  - intros [(-> & a & -> & Ha)|[Hc Hi]]; [exists a|exists c]; (split; [|done]).
    + by rewrite String.eqb_refl.
    + by rewrite (proj2 (String.eqb_neq _ _)).
Qed.

Lemma replace_candidate_wf scheme b l i :
  agent_wf scheme b → Forall (agent_wf scheme) l → Forall (agent_wf scheme) (replace_candidate b l i).
Proof. rewrite !Forall_forall. intros Hb Hl c [[-> _]|[Hc _]]%replace_candidate_elem; auto. Qed.

Lemma without_agent_elem i l a : a ∈ without_agent i l ↔ a ∈ l ∧ id a ≠ i.
Proof. unfold without_agent. by rewrite list_elem_of_In, filter_In, <- list_elem_of_In, negb_true_iff, String.eqb_neq. Qed.

Lemma same_id_eq l a b : NoDup (map id l) → a ∈ l → b ∈ l → id a = id b → a = b.
Proof.
  induction l as [|c l IH]; cbn; [by intros _ ?%elem_of_nil|].
  intros [Hc Hnd]%NoDup_cons [->|Ha]%elem_of_cons [->|Hb]%elem_of_cons He; [done| | |by apply IH].
  - destruct Hc. rewrite He. by apply list_elem_of_fmap_2.
  - destruct Hc. rewrite <- He. by apply list_elem_of_fmap_2.
Qed.

Lemma without_agent_NoDup i l : NoDup (map id l) → NoDup (map id (without_agent i l)).
Proof. intros H. apply (sublist_ids _ l (filter_sublist _ _)), H. Qed.

Lemma find_candidate l i a : List.find (λ a, String.eqb (id a) i) l = Some a → a ∈ l ∧ id a = i.
Proof. intros [H He%String.eqb_eq]%List.find_some. by rewrite list_elem_of_In. Qed.

(** ** Lemmas: outcomes *)

Section outcomes.
Context (pe : pool_env) {S : Type} `{!AgentStore S} `{!AgentStoreLaws S (scheme pe)}.

Abbreviation wf := (agent_wf (scheme pe)).
Abbreviation view := (string → option ModelAgent).

Definition stores (R : view → view → Prop) (st st' : option S) : Prop :=
  match st, st' with
  | None, None => True
  | Some s, Some s' => store_ok s' ∧ R (store_at s) (store_at s')
  | _, _ => False
  end.

Definition untouched (v v' : view) : Prop := ∀ i, v' i = v i.
Definition puts (l : list ModelAgent) (v v' : view) : Prop := ∀ i, v' i = foldl (λ v a, put a v) v l i.

Definition store_good (st : option S) : Prop := from_option store_ok True st.

(** The invariant of the pool. *)
Record pool_good (p : pool S) : Prop := {
  pg_ids : NoDup (map id (ap_candidates p));
  pg_wf : Forall wf (ap_candidates p);
  pg_agents : ap_agents p = enabled (ap_candidates p);
  pg_group : dom (gr_members (ap_group p)) = list_to_set (map id (ap_candidates p));
  pg_quality : dom (gr_members (ap_quality p)) = list_to_set (map id (ap_candidates p));
  pg_store : store_good (ap_store p);
}.

(** A refused operation leaves the pool and what is stored as they were. *)
Record unchanged (p p' : pool S) : Prop := {
  un_candidates : ap_candidates p' = ap_candidates p;
  un_agents : ap_agents p' = ap_agents p;
  un_meter : ap_meter p' = ap_meter p;
  un_group : ap_group p' = ap_group p;
  un_quality : ap_quality p' = ap_quality p;
  un_store : stores untouched (ap_store p) (ap_store p');
}.

(** An accepted one serves [l], after writing as [R] says. *)
Record accepted (R : view → view → Prop) (l : list ModelAgent) (p p' : pool S) : Prop := {
  ac_candidates : ap_candidates p' = l;
  ac_agents : ap_agents p' = enabled l;
  ac_group : dom (gr_members (ap_group p')) = list_to_set (map id l);
  ac_quality : dom (gr_members (ap_quality p')) = list_to_set (map id l);
  ac_store : stores R (ap_store p) (ap_store p');
}.

Lemma stores_refl st : store_good st → stores untouched st st.
Proof. by destruct st. Qed.

Lemma stores_good R st st' : stores R st st' → store_good st'.
Proof. destruct st, st'; cbn; naive_solver. Qed.

Lemma unchanged_refl p : pool_good p → unchanged p p.
Proof. intros []. split; try done. by apply stores_refl. Qed.

Lemma unchanged_good p p' : pool_good p → unchanged p p' → pool_good p'.
Proof. intros [] []. split; try congruence. by eapply stores_good. Qed.

Lemma accepted_good R l p p' : NoDup (map id l) → Forall wf l → accepted R l p p' → pool_good p'.
Proof. intros Hnd Hwf []. split; try congruence. by eapply stores_good. Qed.

Lemma with_store_unchanged p st : stores untouched (ap_store p) st → unchanged p (with_store st p).
Proof. by split. Qed.

Lemma persist_outcome {A} (d : A) (f : S → S * res store_error A) (R : A → view → view → Prop) p p' r :
  store_good (ap_store p) →
  (∀ s s' r, store_ok s → f s = (s', r) →
     store_ok s' ∧ match r with Ok x => R x (store_at s) (store_at s') | Raise _ => untouched (store_at s) (store_at s') end) →
  persist d f p = (p', r) →
  ∃ st, p' = with_store st p ∧
    match r with
    | Ok x => stores (R x) (ap_store p) st ∧ (ap_store p = None → x = d)
    | Raise _ => stores untouched (ap_store p) st
    end.
Proof.
  intros Hg Hf. unfold persist. destruct (ap_store p) as [s|] eqn:Hs.
  - destruct (f s) as [s' r'] eqn:Hfs. destruct (Hf s s' r' Hg Hfs) as [Hok Hr].
    intros [= <- <-]. exists (Some s'). split; [done|]. by destruct r'.
  - intros [= <- <-]. exists None. split; [by destruct p; cbn in *; subst|]. by split.
Qed.

Lemma persist_agent a p p' r :
  store_good (ap_store p) → wf a → persist tt (save_agent a) p = (p', r) →
  ∃ st, p' = with_store st p ∧
    stores (match r with Ok _ => puts [a] | Raise _ => untouched end) (ap_store p) st.
Proof.
  intros Hg Hwf H. eapply (persist_outcome _ _ (λ _, puts [a])) in H as (st & -> & H); [|done|].
  - exists st. split; [done|]. destruct r; [by destruct H|done].
  - intros s s' r' Hok Hs. destruct (save_agent_ok _ _ _ _ Hok Hwf Hs) as [? ?]. split; [done|]. by destruct r'.
Qed.

Lemma persist_agents l p p' r :
  store_good (ap_store p) → Forall wf l → persist tt (save_agents l) p = (p', r) →
  ∃ st, p' = with_store st p ∧
    stores (match r with Ok _ => puts l | Raise _ => untouched end) (ap_store p) st.
Proof.
  intros Hg Hwf H. eapply (persist_outcome _ _ (λ _, puts l)) in H as (st & -> & H); [|done|].
  - exists st. split; [done|]. destruct r; [by destruct H|done].
  - intros s s' r' Hok Hs. destruct (save_agents_ok _ _ _ _ Hok Hwf Hs) as [? ?]. split; [done|]. by destruct r'.
Qed.

(** ** Lemmas: the operations *)

Implicit Types p : pool S.

Definition outcome {A} (Q : A → pool S → Prop) (p p' : pool S) (r : res pool_error A) : Prop :=
  match r with Raise _ => unchanged p p' | Ok x => Q x p' end.

(** An operation plans first; a plan that raises changes nothing. *)
Ltac planned x H :=
  cbv zeta;
  match goal with
  | |- let '(_, _) := match ?plan with _ => _ end in _ =>
      destruct plan as [x|] eqn:H; [|by apply unchanged_refl]
  end.

Lemma from_dict_wf d a : from_dict (scheme pe) d = Ok a → wf a.
Proof.
  unfold from_dict. intros H. do 10 (apply bind_Ok_inv in H as (? & _ & H)). by apply ModelAgent_init_wf in H.
Qed.

Lemma add_agent_outcome pool_id value p :
  pool_good p →
  let '(p', r) := add_agent pe pool_id value p in
  outcome (λ a p', from_dict (scheme pe) value = Ok a ∧ wf a ∧ (id a ∉ map id (ap_candidates p)) ∧
                   accepted (puts [a]) (ap_candidates p ++ [a]) p p') p p' r.
Proof.
  intros Hg. unfold add_agent. planned a Hplan.
  apply bind_Ok_inv in Hplan as (u & _ & Hplan). apply bind_Ok_inv in Hplan as (u' & _ & Hplan).
  apply bind_Ok_inv in Hplan as (a' & Hfrom%map_raise_Ok & Hplan).
  apply bind_Ok_inv in Hplan as (u2 & Hnew & Hplan). apply bind_Ok_inv in Hplan as (u3 & _ & [= ->]).
  pose proof (from_dict_wf _ _ Hfrom) as Ha. destruct (in_strs (id a) _) eqn:Hin; [done|].
  assert (id a ∉ map id (ap_candidates p)) as Hfresh by (rewrite <- in_strs_spec; congruence).
  unfold st.bind. destruct (persist tt (save_agent a) p) as [p1 r] eqn:Hp.
  apply persist_agent in Hp as (st & -> & Hst); [|by apply pg_store|done].
  destruct r as [[]|e]; cbn; [|by apply with_store_unchanged]. split_and!; [done|done|done|].
  pose proof (pg_group _ Hg) as Hgd. pose proof (pg_quality _ Hg) as Hqd.
  split; cbn; try done; rewrite register_dom, ?Hgd, ?Hqd, map_app, list_to_set_app_L; cbn; set_solver.
Qed.

Lemma raw_replace_inv a rf b : raw_replace pe a rf = Ok b → replaced a rf b ∧ wf b.
Proof. intros H%map_raise_Ok. split; [by eapply replace_inv|by eapply replace_wf]. Qed.

Lemma in_pool pool_id agent_id p a :
  _agent_in_pool pool_id agent_id p = Ok a → a ∈ ap_candidates p ∧ id a = agent_id.
Proof.
  unfold _agent_in_pool. destruct (negb _); [done|]. destruct (List.find _ _) as [b|] eqn:Hf; [|done].
  intros [= <-]. by apply find_candidate.
Qed.

(** The tombstone of a removed agent: its row, disabled. *)
Definition buried p (agent_id : string) (v v' : view) : Prop :=
  ∃ a tomb, a ∈ ap_candidates p ∧ id a = agent_id ∧ id tomb = agent_id ∧ disabled tomb = true ∧
    endpoint_equivalence tomb = endpoint_equivalence a ∧ puts [tomb] v v'.

(** Dropping an agent from the served pool, its store being [st]. *)
Lemma dropped R i p st :
  pool_good p → stores R (ap_store p) st →
  let l := without_agent i (ap_candidates p) in
  ∃ p', drop_served pe l (with_store st p) = (p', Ok tt) ∧ accepted R l p p'.
Proof.
  intros Hg Hst l. eexists. split; [reflexivity|].
  pose proof (pg_group _ Hg) as Hgd. pose proof (pg_quality _ Hg) as Hqd.
  assert (list_to_set (map id (ap_candidates p)) ∩ list_to_set (map id l) =@{gset string} list_to_set (map id l)) as Hdom.
  { assert (∀ i, i ∈ map id l → i ∈ map id (ap_candidates p)); [|set_solver].
    intros j (c & -> & [Hc _]%without_agent_elem)%list_elem_of_fmap. by apply list_elem_of_fmap_2. }
  split; cbn; try done; by rewrite forget_dom, ?Hgd, ?Hqd.
Qed.

Lemma remove_agent_outcome pool_id agent_id p :
  pool_good p →
  let '(p', r) := remove_agent pe pool_id agent_id p in
  outcome (λ _ p', let l := without_agent agent_id (ap_candidates p) in
    governed pe l ∧ agent_id ∈ map id (ap_candidates p) ∧
    accepted (buried p agent_id) l p p') p p' r.
Proof.
  intros Hg. unfold remove_agent. planned a Hplan.
  apply bind_Ok_inv in Hplan as (a' & [Ha <-]%in_pool & Hplan). apply bind_Ok_inv in Hplan as (u & Hen & Hplan).
  apply bind_Ok_inv in Hplan as (u' & Hroles%require_pool_Ok & [= ->]).
  set (l := without_agent (id a) (ap_candidates p)) in *.
  assert (governed pe l) as Hgov by (split; [by destruct (enabled l)|done]).
  assert (id a ∈ map id (ap_candidates p)) as Hin by (by apply list_elem_of_fmap_2).
  set (R := buried p (id a)).
  assert (∀ st, stores R (ap_store p) st →
    let '(p', r) := (let* _ := drop_served pe l in st.ret (id a)) (with_store st p) in
    outcome (λ _ p', governed pe l ∧ id a ∈ map id (ap_candidates p) ∧ accepted R l p p') p p' r) as Hdrop.
  { intros st Hst. destruct (dropped R (id a) p st Hg Hst) as (p' & Hd & Hac). fold l in Hd, Hac.
    unfold st.bind. rewrite Hd. by cbn. }
  destruct (ap_store p) as [s|] eqn:Hs.
  - unfold st.bind at 1 2. unfold st.lift. destruct (raw_replace pe _ _) as [tomb|e] eqn:Ht; cbn [fst snd]; [|by apply unchanged_refl].
    apply raw_replace_inv in Ht as [Ht Hwf]. destruct (persist tt (save_agent tomb) p) as [p1 r] eqn:Hp.
    apply persist_agent in Hp as (st & -> & Hst); [|by apply pg_store|done].
    destruct r as [[]|e]; [|by apply with_store_unchanged].
    assert (stores R (Some s) st) as HR.
    { rewrite <- Hs. destruct st as [s'|]; rewrite Hs in Hst |- *; [|done]. destruct Hst as [Hok Hput].
      split; [done|]. exists a, tomb. split_and!; [done|done|by rewrite (rp_id _ _ _ Ht)|by rewrite (rp_disabled _ _ _ Ht)| |done].
      apply (replaced_contract (scheme pe) (set_disabled true a) (with_group (VStr "") (raw_of (set_disabled true a))));
        [|done|exact Ht]. pose proof (proj1 (Forall_forall _ _) (pg_wf _ Hg) _ Ha) as []. by split. }
    specialize (Hdrop _ HR). by destruct ((let* _ := drop_served pe l in st.ret (id a)) (with_store st p)).
  - specialize (Hdrop None I). assert (with_store None p = p) as Hp by (destruct p; cbn in *; by subst).
    rewrite Hp in Hdrop. unfold st.bind at 1. cbn [st.ret].
    by destruct ((let* _ := drop_served pe l in st.ret (id a)) p).
Qed.

Lemma wf_set_disabled b a : wf a → wf (set_disabled b a).
Proof. intros []. by split. Qed.

Lemma wf_set_routing prio ts ex a : wf a → wf (set_routing prio ts ex a).
Proof. intros []. by split. Qed.

(** One update keeps the agent's id and, other than the timeout's, its policy. *)
Definition updates (timeout_kept : Prop) (a b : ModelAgent) : Prop :=
  id b = id a ∧ (timeout_kept → same_policy a b).

Lemma raw_updates (K : Prop) a0 a rf b :
  wf a → id a = id a0 → same_policy a0 a → rf_revision rf = VInt (model_timeout_revision a) →
  (K → rf_timeout rf = opt_val VFloat (model_timeout_seconds a)) →
  raw_replace pe a rf = Ok b → updates K a0 b ∧ wf b.
Proof.
  intros Hwf Hid [Ht Hr] Hrev Htime [Hrep Hb]%raw_replace_inv. split; [|done]. split; [by rewrite (rp_id _ _ _ Hrep)|].
  intros HK. destruct (replaced_policy _ _ _ _ Hwf (Htime HK) Hrev Hrep). split; congruence.
Qed.

Lemma patches_update patch step v a b :
  step ∈ patches pe → dict_get step.1 patch = Some v → wf a → step.2 v a = Ok b →
  updates (dict_get "model_timeout_seconds" patch = None) a b ∧ wf b.
Proof.
  set (K := dict_get "model_timeout_seconds" patch = None).
  assert (∀ v a b, wf a → patch_routing pe "priority" v a = Ok b ∨ patch_routing pe "tags" v a = Ok b ∨
            patch_routing pe "provider_exclusions" v a = Ok b → updates K a b ∧ wf b) as Hrouting.
  { clear. intros v a b Hwf H.
    assert (∃ field a', routed field v a = Ok a' ∧ raw_replace pe a' (raw_of a') = Ok b) as (field & a' & Hr & Hb).
    { destruct H as [H|[H|H]]; apply bind_Ok_inv in H as (a' & Ha'%map_raise_Ok & H); eauto. }
    assert (∃ prio ts ex, a' = set_routing prio ts ex a) as (prio & ts & ex & ->).
    { unfold routed in Hr. destruct (String.eqb field "priority"); [destruct (int_of v)|destruct (tuple_of v ≫= _)]; simplify_eq; eauto.
      destruct (String.eqb field "tags"); eauto. }
    eapply raw_updates; [| | | | |exact Hb]; try done. by apply wf_set_routing. }
  intros Hin Hv Hwf H. unfold patches in Hin. rewrite !elem_of_cons, elem_of_nil in Hin.
  destruct Hin as [->|[->|[->|[->|[->|[->|[->|[->|[->|[->|[]]]]]]]]]]]; cbn [fst snd] in *.
  - unfold patch_status in H. case_match; [|case_match]; try done.
    + eapply raw_updates; [| | | | |exact H]; try done. by apply wf_set_disabled.
    + eapply raw_updates; [| | | | |exact H]; try done. by apply wf_set_disabled.
  - apply (Hrouting v); auto.
  - apply (Hrouting v); auto.
  - apply (Hrouting v); auto.
  - unfold patch_group in H. apply bind_Ok_inv in H as (g & _ & H). eapply raw_updates; [| | | | |exact H]; done.
  - eapply raw_updates; [| | | | |exact H]; done.
  - eapply raw_updates; [| | | | |exact H]; done.
  - eapply raw_updates; [| | | | |exact H]; try done. unfold K. by rewrite Hv.
  - unfold patch_equivalence in H. destruct v; try done; eapply raw_updates; [| | | | |exact H| | | | | |exact H]; done.
  - eapply raw_updates; [| | | | |exact H]; done.
Qed.

Lemma patched_update patch a b :
  wf a → patched_agent pe patch a = Ok b → updates (dict_get "model_timeout_seconds" patch = None) a b ∧ wf b.
Proof.
  intros Hwf. unfold patched_agent. set (K := dict_get "model_timeout_seconds" patch = None).
  assert (∀ steps a, wf a → (∀ step, step ∈ steps → step ∈ patches pe) →
    fold_left (apply_patch patch) steps (Ok a) = Ok b → updates K a b ∧ wf b) as H; [|by apply H].
  assert (∀ steps e, fold_left (apply_patch patch) steps (Raise e) = Raise e) as Hraise by (induction steps; done).
  clear a Hwf. induction steps as [|step steps IH]; intros a Hwf Hsub H; cbn in H; [by simplify_eq|].
  unfold patching in H. destruct (dict_get step.1 patch) as [v|] eqn:Hv.
  - destruct (step.2 v a) as [a'|e] eqn:Ha'; [|by rewrite Hraise in H].
    destruct (patches_update patch step v a a') as [[Hid Hpol] Hwf']; [apply Hsub; left|done..|].
    apply IH in H as [[Hid' Hpol'] Hb]; [|done|intros; apply Hsub; by right]. split; [|done]. split; [congruence|].
    intros HK. destruct (Hpol HK), (Hpol' HK). split; congruence.
  - apply IH in H; [done|done|intros; apply Hsub; by right].
Qed.

(** A change of the timeout alone. *)
Lemma wf_refit' t n a : wf a → timeout_check t = true → 0 <= n → wf (refit t n a).
Proof. apply wf_refit. Qed.

(** Compute the fields of a refitted agent. *)
Ltac agent_fields H :=
  cbn [refit agent_of_row with_row_timeout agent_columns ar_model ar_base_url ar_api_key_env ar_credential_key ar_priority
       ar_disabled ar_provider_name ar_local_credential_key ar_auth_scheme ar_max_output_tokens ar_context_window
       ar_reasoning_effort_supported ar_stream_usage_supported ar_model_timeout_seconds id model base_url api_key_env
       credential_key tags priority disabled provider_name provider_exclusions local_credential_key auth_scheme
       max_output_tokens context_window group_name reasoning_effort_supported endpoint_equivalence
       stream_usage_supported model_timeout_seconds model_timeout_revision] in H.

Lemma refit_timeout a v b :
  wf a → raw_replace pe a (with_raw "model_timeout_seconds" v (raw_of a)) = Ok b →
  b = refit (model_timeout_seconds b) (model_timeout_revision a) a.
Proof.
  intros Hwf H. pose proof (raw_replace_inv _ _ _ H) as [Hrep Hb].
  pose proof (rp_timeout _ _ _ Hrep) as Ht. cbn in Ht.
  set (a' := refit (model_timeout_seconds b) (model_timeout_revision a) a).
  assert (wf a') as Hwf' by (apply wf_refit; [done|by apply (timeout_check_wf (scheme pe))|by apply (wf_revision (scheme pe) a)]).
  unfold a' in *. clear a'. apply ModelAgent_init_fields in Hwf'. apply map_raise_Ok in H.
  unfold replace_agent in H. cbn [with_raw raw_of rf_group rf_max_output rf_window rf_equivalence rf_stream rf_timeout rf_revision String.eqb Ascii.eqb Bool.eqb] in H.
  unfold ModelAgent_init in H, Hwf'. rewrite Ht in H. agent_fields Hwf'.
  rewrite timeout_seconds_opt in Hwf' by (by apply (timeout_check_wf (scheme pe))).
  agent_fields Hwf'.
  congruence.
Qed.

Lemma refit_revision a n :
  wf a → 0 <= n → patch_raw pe "model_timeout_revision" (VInt n) a = Ok (refit (model_timeout_seconds a) n a).
Proof.
  intros Hwf Hn. assert (wf (refit (model_timeout_seconds a) n a)) as H.
  { apply wf_refit; [done|by apply (timeout_check_wf (scheme pe))|done]. }
  apply ModelAgent_init_fields in H. unfold patch_raw, raw_replace, replace_agent.
  cbn [with_raw raw_of rf_group rf_max_output rf_window rf_equivalence rf_stream rf_timeout rf_revision String.eqb Ascii.eqb Bool.eqb].
  agent_fields H.
  by rewrite H.
Qed.

Lemma refit_refit t n t' n' a : refit t n (refit t' n' a) = refit t n a.
Proof. done. Qed.

Lemma refit_standing t n a : same_standing a (refit t n a).
Proof. by split_and!. Qed.

Lemma served_elem a p : pool_good p → a ∈ ap_candidates p → wf a.
Proof. intros Hg. apply (proj1 (Forall_forall _ _) (pg_wf _ Hg)). Qed.

(** The patched agent in place of the current one, its persisted form included:
    either the row was saved, or the timeout was changed on the revision the
    current agent has. *)
Definition patched_store (a b : ModelAgent) (v v' : view) : Prop :=
  (same_policy a b ∧ puts [b] v v') ∨
  ∃ t n, b = refit t n a ∧ 0 <= n ∧
    match v (id a) with
    | Some c => same_policy a c ∧ ∀ i, v' i = if decide (i = id a) then Some (refit t n c) else v i
    | None => ∀ i, v' i = if decide (i = id a) then Some b else recontract b <$> v i
    end.

(** What every accepted replacement of a candidate gives. *)
Lemma replaced_ledgers b p cfg :
  id b ∈ map id (ap_candidates p) →
  let l := replace_candidate b (ap_candidates p) (id b) in
  ∀ r, dom (gr_members r) = list_to_set (map id (ap_candidates p)) →
  dom (gr_members (forget_members (list_to_set (map id l))
    (fold_left (λ r i, register_member cfg i r) (map id l) (reset_members (list_to_set [id b]) r)))) = list_to_set (map id l) ∧
  dom (gr_members (forget_members (list_to_set (map id l))
    (fold_left (λ r i, register_member cfg i r) (map id l) r))) = list_to_set (map id l).
Proof.
  intros Hb l r Hr. unfold l. rewrite (replace_candidate_ids b _ _ eq_refl).
  rewrite !forget_dom, !register_all_dom, reset_dom, Hr. set_solver.
Qed.

Lemma timeout_patch patch a tv b :
  wf a → forallb (λ kv, key_is "model_timeout_seconds" kv.1) patch = true →
  dict_get "model_timeout_seconds" patch = Some tv → patched_agent pe patch a = Ok b →
  b = refit (model_timeout_seconds b) (model_timeout_revision a) a.
Proof.
  intros Hwf Hkeys Htv H. apply (refit_timeout a tv); [done|].
  assert (∀ k, String.eqb k "model_timeout_seconds" = false → dict_get k patch = None) as Hnone.
  { intros k Hk. clear -Hk Hkeys. induction patch as [|[k' v] patch IH]; [done|]. cbn in Hkeys |- *. bools.
    assert (key_is k k' = false) as ->; [|by apply IH].
    destruct k' as [| | | |s'| | |]; try done. cbn. apply String.eqb_neq. intros ->.
    match goal with H : key_is "model_timeout_seconds" (VStr k) = true |- _ => cbn in H end. congruence. }
  unfold patched_agent, patches in H. cbn [fold_left] in H. unfold apply_patch, patching in H. cbn [fst snd] in H.
  rewrite !Hnone, Htv in H by reflexivity. destruct (patch_raw pe "model_timeout_seconds" tv a) eqn:Hp; [|done].
  rewrite !Hnone in H by reflexivity. simplify_eq. exact Hp.
Qed.

Lemma patch_agent_outcome pool_id agent_id patch actor expected restored p :
  pool_good p →
  let '(p', r) := patch_agent pe pool_id agent_id patch actor expected restored p in
  outcome (λ b p', ∃ a, a ∈ ap_candidates p ∧ id a = agent_id ∧ wf b ∧ id b = agent_id ∧
    let l := replace_candidate b (ap_candidates p) agent_id in
    governed pe l ∧ accepted (patched_store a b) l p p') p p' r.
Proof.
  intros Hg. unfold patch_agent. planned x Hplan. destruct x as [current patched].
  apply bind_Ok_inv in Hplan as (u & _ & Hplan). apply bind_Ok_inv in Hplan as (a & Ha & Hplan).
  apply bind_Ok_inv in Hplan as (b & Hb & Hplan). apply bind_Ok_inv in Hplan as (u1 & Hen & Hplan).
  apply bind_Ok_inv in Hplan as (u2 & Hroles%require_pool_Ok & Hplan).
  apply bind_Ok_inv in Hplan as (u3 & Hguard & [= -> ->]).
  apply in_pool in Ha as [Ha Hid]. pose proof (served_elem _ _ Hg Ha) as Hwf.
  destruct (patched_update _ _ _ Hwf Hb) as [[Hbid Hpol] Hbwf]. rewrite Hid in Hbid. subst agent_id.
  assert (governed pe (replace_candidate patched (ap_candidates p) (id current))) as Hgov.
  { split; [by destruct (enabled _)|done]. }
  assert (id patched ∈ map id (ap_candidates p)) as Hin by (rewrite Hbid; by apply list_elem_of_fmap_2).
  destruct (dict_get "model_timeout_seconds" patch) as [tv|] eqn:Htv.
  - unfold timeout_guard in Hguard. destruct (forallb _ patch) eqn:Hkeys; [cbn [negb] in Hguard|done].
    pose proof (timeout_patch _ _ _ _ Hwf Hkeys Htv Hb) as Hre. repeat (case_match; [done|]).
    destruct (ap_store p) as [s|] eqn:Hs; [|done].
    unfold st.bind at 1. destruct (persist 0 _ p) as [p1 r] eqn:Hp.
    eapply (persist_outcome _ _ (λ n v v', 0 <= n ∧ patched_store current (refit (model_timeout_seconds patched) n current) v v'))
      in Hp as (st & -> & Hst); [|by apply pg_store|].
    2: { intros s1 s2 r1 Hok1 Hsave. destruct (save_timeout_ok _ _ _ _ _ Hok1 Hbwf Hsave) as [Hok2 Hr]. split; [done|].
      destruct r1 as [n|e]; [|done]. destruct Hr as [Hn Hr]. split; [done|]. right.
      exists (model_timeout_seconds patched), n. rewrite Hbid in Hr. split_and!; [done|done|].
      destruct (store_at s1 (id current)) as [c|]; cbn [tc_previous] in Hr.
      - destruct Hr as (H1 & H2 & Hv). by split_and!.
      - intros i. rewrite Hr. by rewrite Hre. }
    destruct r as [n|e]; [|by apply with_store_unchanged; destruct (ap_store p)].
    destruct Hst as [Hst _]. rewrite Hs in Hst. destruct st as [s'|]; [|done]. destruct Hst as (Hok' & Hn & HR).
    unfold st.bind, st.lift. rewrite refit_revision by done. cbn.
    assert (refit (model_timeout_seconds patched) n patched = refit (model_timeout_seconds patched) n current) as Hrr.
    { rewrite Hre. apply refit_refit. }
    rewrite Hrr. exists current.
    assert (wf (refit (model_timeout_seconds patched) n current)) as Hwf'.
    { apply wf_refit; [done|by apply (timeout_check_wf (scheme pe))|done]. }
    split_and!; try done.
    + eapply governed_standing; [|exact Hgov]. intros c [[-> Hc]|[Hc Hne]]%replace_candidate_elem.
      * eexists. split; [apply replace_candidate_elem; left; by split|]. rewrite Hre. apply refit_standing.
      * exists c. split; [apply replace_candidate_elem; by right|apply standing_refl].
    + split; cbn; rewrite ?replace_candidate_ids by done; [done|done|apply (pg_group _ Hg)|apply (pg_quality _ Hg)|].
      by rewrite Hs.
  - unfold st.bind at 1. destruct (persist tt (save_agent patched) p) as [p1 r] eqn:Hp.
    apply persist_agent in Hp as (st & -> & Hst); [|by apply pg_store|done].
    destruct r as [[]|e]; [|by apply with_store_unchanged].
    pose proof (replaced_ledgers patched p (pe_group_cfg pe) Hin _ (pg_group _ Hg)) as [Hg1 Hg2].
    pose proof (replaced_ledgers patched p (pe_quality_cfg pe) Hin _ (pg_quality _ Hg)) as [Hq1 Hq2].
    rewrite Hbid in *.
    assert (stores (patched_store current patched) (ap_store p) st) as HR.
    { destruct (ap_store p), st; try done. destruct Hst. split; [done|]. left. split; [by apply Hpol|done]. }
    destruct (String.eqb (group_name patched) (group_name current)); cbn.
    + exists current. by split_and!.
    + exists current. by split_and!.
Qed.

Lemma restore_model_timeout_outcome pool_id agent_id source expected actor p :
  pool_good p →
  let '(p', r) := restore_model_timeout pe pool_id agent_id source expected actor p in
  outcome (λ b p', ∃ a, a ∈ ap_candidates p ∧ id a = agent_id ∧ wf b ∧ id b = agent_id ∧
    let l := replace_candidate b (ap_candidates p) agent_id in
    governed pe l ∧ accepted (patched_store a b) l p p') p p' r.
Proof.
  intros Hg. unfold restore_model_timeout. planned x Hplan. destruct x as [n v].
  by apply patch_agent_outcome.
Qed.

(** *** Groups *)

(** An agent moved into or out of a group. *)
Record regrouped (a b : ModelAgent) : Prop := {
  rg_standing : same_standing a b;
  rg_policy : same_policy a b;
  rg_contract : endpoint_equivalence b = endpoint_equivalence a;
}.

Lemma regrouped_refl a : regrouped a a.
Proof. by split; [apply standing_refl|split|]. Qed.

Lemma regroup_inv f l l' :
  Forall wf l → regroup pe f l = Ok l' →
  Forall2 (λ a b, regrouped a b ∧ wf b ∧
    match f a with
    | Some g => if str_truthy g then canonical_group_name g = Ok (group_name b) else group_name b = g
    | None => b = a
    end) l l'.
Proof.
  intros Hwf H. apply map_res_Forall2 in H. induction H as [|a b l l' Hab H IH]; [constructor|].
  apply Forall_cons in Hwf as [Ha Hwf]. constructor; [|by apply IH]. destruct (f a) as [g|]; simplify_eq.
  - apply raw_replace_inv in Hab as [Hrep Hb]. split_and!; [|done|by apply (rp_group _ _ _ Hrep)]. split.
    + by eapply replaced_standing.
    + exact (replaced_policy (scheme pe) a (with_group (VStr g) (raw_of a)) b Ha eq_refl eq_refl Hrep).
    + exact (replaced_contract (scheme pe) a (with_group (VStr g) (raw_of a)) b Ha eq_refl Hrep).
  - split_and!; [apply regrouped_refl|done|done].
Qed.

Lemma regroup_ids f l l' : Forall wf l → regroup pe f l = Ok l' → map id l' = map id l.
Proof.
  intros Hwf H%regroup_inv; [|done]. induction H as [|a b l l' (Hs & _) _ IH]; [done|]. cbn.
  apply Forall_cons in Hwf as [_ Hwf]. destruct (rg_standing _ _ Hs) as [-> _]. by rewrite IH.
Qed.

(** Serving regrouped candidates resets the ledgers of the moved ones. *)
Lemma served_regrouped R p st l changed_members :
  pool_good p → map id l = map id (ap_candidates p) → stores R (ap_store p) st →
  ∃ p', serve_regrouped pe l changed_members (with_store st p) = (p', Ok tt) ∧ accepted R l p p'.
Proof.
  intros Hg Hids Hst. eexists. split; [reflexivity|].
  pose proof (pg_group _ Hg) as Hgd. pose proof (pg_quality _ Hg) as Hqd.
  split; cbn; try done; rewrite forget_dom, register_all_dom, reset_dom, ?Hgd, ?Hqd, Hids;
    apply set_eq; intros i; rewrite elem_of_intersection, elem_of_union, elem_of_difference;
    destruct (decide (i ∈ (list_to_set changed_members : gset string))); naive_solver.
Qed.

(** What a change of groups made of the pool: the candidates in place, the moved
    ones saved. *)
Definition regrouped_to (saved : ModelAgent → bool) (p p' : pool S) : Prop :=
  ∃ l, map id l = map id (ap_candidates p) ∧ Forall wf l ∧
    Forall2 (λ a b, regrouped a b ∧ (saved b = false → b = a)) (ap_candidates p) l ∧
    accepted (puts (List.filter saved l)) l p p'.

Lemma filter_wf q l : Forall wf l → Forall wf (List.filter q l).
Proof. rewrite !Forall_forall. intros Hl a. rewrite list_elem_of_In, filter_In, <- list_elem_of_In. intros [Ha _]. by apply Hl. Qed.

Lemma regrouped_wf f l l' : Forall wf l → regroup pe f l = Ok l' → Forall wf l'.
Proof. intros Hwf H%regroup_inv; [|done]. clear Hwf. induction H as [|a b l l' (_ & Hb & _) _ IH]; by constructor. Qed.

Lemma set_model_group_outcome raw_name member_ids p :
  pool_good p →
  let '(p', r) := set_model_group pe raw_name member_ids p in
  outcome (λ nm p', canonical_group_name raw_name = Ok nm.1 ∧ get_model_group nm.1 p' = Ok nm ∧
    ∃ saved, regrouped_to saved p p') p p' r.
Proof.
  intros Hg. unfold set_model_group. planned x Hplan. destruct x as [name updated].
  apply bind_Ok_inv in Hplan as (n & Hname%map_raise_Ok & Hplan). apply bind_Ok_inv in Hplan as (u & Hne & Hplan).
  apply bind_Ok_inv in Hplan as (u1 & _ & Hplan). apply bind_Ok_inv in Hplan as (u2 & Hknown & Hplan).
  apply bind_Ok_inv in Hplan as (l & Hl & [= -> ->]).
  set (previous := map id (List.filter (in_group name) (ap_candidates p))).
  set (saved := λ a, in_strs (id a) (member_ids ++ previous)).
  pose proof (regroup_ids _ _ _ (pg_wf _ Hg) Hl) as Hids. pose proof (regrouped_wf _ _ _ (pg_wf _ Hg) Hl) as Hwf.
  pose proof (regroup_inv _ _ _ (pg_wf _ Hg) Hl) as Hall.
  pose proof (canonical_group_name_fixed _ _ Hname) as [_ Hfix].
  unfold st.bind at 1. destruct (persist tt (save_agents _) p) as [p1 r] eqn:Hp.
  apply persist_agents in Hp as (st & -> & Hst); [|by apply pg_store|by apply filter_wf].
  destruct r as [[]|e]; [|by apply with_store_unchanged].
  destruct (served_regrouped _ _ _ _ (changed_ids (ap_candidates p) updated) Hg Hids Hst) as (p' & Hserve & Hac).
  unfold st.bind. rewrite Hserve.
  assert (∃ members, get_model_group name p' = Ok (name, members)) as [members Hget].
  { unfold get_model_group. rewrite Hfix. cbn [map_raise mbind res_bind]. rewrite (ac_candidates _ _ _ _ Hac).
    destruct member_ids as [|i member_ids]; [done|].
    assert (i ∈ map id (ap_candidates p)) as Hi.
    { destruct (py_sorted _ _) eqn:Hsort in Hknown; [|done]. destruct (in_strs i (map id (ap_candidates p))) eqn:Hin; [by apply in_strs_spec|].
      apply (f_equal length) in Hsort. rewrite py_sorted_length in Hsort. cbn in Hsort. by rewrite Hin in Hsort. }
    apply list_elem_of_fmap in Hi as (a & -> & Ha). apply list_elem_of_lookup_1 in Ha as [k Ha].
    destruct (Forall2_lookup_l _ _ _ _ _ Hall Ha) as (b & Hb & _ & _ & Hgroup).
    unfold requested_group in Hgroup. rewrite (proj2 (in_strs_spec _ _)) in Hgroup by left.
    assert (in_group name b = true) as Hin.
    { assert (str_truthy name = true) as Hnt.
      { apply str_truthy_spec. intros ->. vm_compute in Hfix. discriminate. }
      rewrite Hnt, Hfix in Hgroup. injection Hgroup as Hgb. unfold in_group. by rewrite <- Hgb, Hnt, Hfix, String.eqb_refl. }
    destruct (List.filter (in_group name) updated) as [|c cs] eqn:Hf; [|by exists (c :: cs)].
    assert (b ∈ List.filter (in_group name) updated) as Hbf.
    { apply list_elem_of_In, filter_In. split; [|done]. apply list_elem_of_In. by eapply list_elem_of_lookup_2. }
    rewrite Hf in Hbf. by apply elem_of_nil in Hbf. }
  rewrite Hget. cbn. split_and!; [done|done|]. exists saved. exists updated. split_and!; [done|done| |done].
  apply Forall2_same_length_lookup in Hall as [Hlen Hall]. apply Forall2_same_length_lookup. split; [done|].
  intros i a b Ha Hb. destruct (Hall i a b Ha Hb) as (Hr & _ & Hgroup). split; [done|].
  intros Hs. unfold saved in Hs. destruct (rg_standing _ _ Hr) as [Hid _]. rewrite Hid in Hs.
  assert (id a ∉ member_ids ++ previous) as Hnot by (rewrite <- in_strs_spec; congruence).
  unfold requested_group in Hgroup. destruct (in_strs (id a) member_ids) eqn:Hm; [apply in_strs_spec in Hm; set_solver|].
  destruct (in_group name a) eqn:Hig; [|done]. destruct Hnot. apply elem_of_app. right. unfold previous.
  apply list_elem_of_fmap_2, list_elem_of_In, filter_In. split; [|done]. apply list_elem_of_In. by eapply list_elem_of_lookup_2.
Qed.

Lemma delete_model_group_outcome raw_name p :
  pool_good p →
  let '(p', r) := delete_model_group pe raw_name p in
  outcome (λ name p', canonical_group_name raw_name = Ok name ∧ get_model_group name p' = Raise (PoolKeyError name) ∧
    ∃ saved, regrouped_to saved p p') p p' r.
Proof.
  intros Hg. unfold delete_model_group. planned x Hplan. destruct x as [[name member_ids] updated].
  apply bind_Ok_inv in Hplan as ([name' members] & Hcur & Hplan). apply bind_Ok_inv in Hplan as (l & Hl & [= -> <- ->]).
  unfold get_model_group in Hcur. apply bind_Ok_inv in Hcur as (n & Hname%map_raise_Ok & Hcur).
  destruct (List.filter (in_group n) (ap_candidates p)) as [|m ms] eqn:Hf; [done|]. injection Hcur as -> <-.
  rewrite <- Hf in *. clear Hf. set (member_ids := map id _) in *.
  set (saved := λ a, in_strs (id a) member_ids).
  pose proof (regroup_ids _ _ _ (pg_wf _ Hg) Hl) as Hids. pose proof (regrouped_wf _ _ _ (pg_wf _ Hg) Hl) as Hwf.
  pose proof (regroup_inv _ _ _ (pg_wf _ Hg) Hl) as Hall. cbn [snd] in Hall.
  pose proof (canonical_group_name_fixed _ _ Hname) as [_ Hfix].
  unfold st.bind at 1. destruct (persist tt (save_agents _) p) as [p1 r] eqn:Hp.
  apply persist_agents in Hp as (st & -> & Hst); [|by apply pg_store|by apply filter_wf].
  destruct r as [[]|e]; [|by apply with_store_unchanged].
  destruct (served_regrouped _ _ _ _ member_ids Hg Hids Hst) as (p' & Hserve & Hac).
  unfold st.bind. rewrite Hserve. cbn.
  apply Forall2_same_length_lookup in Hall as [Hlen Hall]. split_and!; [done| |exists saved, updated; split_and!; [done|done| |done]].
  - unfold get_model_group. rewrite Hfix. cbn [map_raise mbind res_bind]. rewrite (ac_candidates _ _ _ _ Hac).
    destruct (List.filter (in_group name) updated) as [|b bs] eqn:Hf; [done|].
    assert (b ∈ List.filter (in_group name) updated) as Hb by (rewrite Hf; left).
    apply list_elem_of_In, filter_In in Hb as [Hb Hig]. apply list_elem_of_In, list_elem_of_lookup_1 in Hb as [i Hb].
    destruct (lookup_lt_is_Some_2 (ap_candidates p) i) as [a Ha].
    { rewrite Hlen. by eapply lookup_lt_Some. }
    destruct (Hall i a b Ha Hb) as (Hr & _ & Hgroup).
    destruct (in_strs (id a) member_ids) eqn:Hm.
    + cbn in Hgroup. unfold in_group in Hig. rewrite Hgroup in Hig. done.
    + subst b. assert (id a ∈ member_ids); [|apply in_strs_spec in H; congruence].
      apply list_elem_of_fmap_2, list_elem_of_In, filter_In. split; [|done]. apply list_elem_of_In. by eapply list_elem_of_lookup_2.
  - apply Forall2_same_length_lookup. split; [done|]. intros i a b Ha Hb.
    destruct (Hall i a b Ha Hb) as (Hr & _ & Hgroup). split; [done|]. intros Hs. unfold saved in Hs.
    destruct (rg_standing _ _ Hr) as [Hid _]. rewrite Hid in Hs. by rewrite Hs in Hgroup.
Qed.

Lemma _retire_runtime_agent_outcome agent_id p :
  pool_good p →
  let '(p', r) := _retire_runtime_agent pe agent_id p in
  outcome (λ _ p', accepted untouched (without_agent agent_id (ap_candidates p)) p p') p p' r.
Proof.
  intros Hg. unfold _retire_runtime_agent. planned a Hplan.
  destruct (dropped untouched agent_id p (ap_store p) Hg (stores_refl _ (pg_store _ Hg))) as (p' & Hd & Hac).
  assert (with_store (ap_store p) p = p) as Hp by (by destruct p). rewrite Hp in Hd. by rewrite Hd.
Qed.

(** *** Discovery *)

Lemma indexed_ids_snoc l a : indexed_ids (l ++ [a]) = od_set (id a) (length l) (indexed_ids l).
Proof.
  unfold indexed_ids. rewrite length_app, seq_app. cbn.
  rewrite zip_with_app by (by rewrite length_seq). by rewrite fold_left_app.
Qed.

Lemma indexed_ids_spec l i : match od_get i (indexed_ids l) with
                             | Some k => map id l !! k = Some i
                             | None => i ∉ map id l
                             end.
Proof.
  induction l as [|a l IH] using rev_ind; [by apply not_elem_of_nil|].
  rewrite indexed_ids_snoc, od_get_set, map_app. destruct (decide (i = id a)) as [->|Hi].
  - rewrite lookup_app_r by (by rewrite length_map). by rewrite length_map, Nat.sub_diag.
  - destruct (od_get i (indexed_ids l)) as [k|].
    + by apply lookup_app_l_Some.
    + cbn. set_solver.
Qed.

Lemma last_index_snoc q l a :
  last_index q (l ++ [a]) = if q a then Some (length l) else last_index q l.
Proof.
  unfold last_index. rewrite length_app, seq_app. cbn.
  rewrite zip_with_app by (by rewrite length_seq). rewrite fold_left_app. cbn. by destruct (q a).
Qed.

Lemma last_index_spec q l k : last_index q l = Some k → ∃ a, l !! k = Some a ∧ q a = true.
Proof.
  induction l as [|a l IH] using rev_ind; [done|]. rewrite last_index_snoc. destruct (q a) eqn:Hq.
  - intros [= <-]. exists a. split; [|done]. by rewrite lookup_app_r, Nat.sub_diag.
  - intros (b & Hb & Hqb)%IH. exists b. split; [|done]. by apply lookup_app_l_Some.
Qed.

(** The state of the loop: the rows keep their places and their ids. *)
Record syncing (initial : list ModelAgent) (s : sync_state) : Prop := {
  sg_existing : ∀ i, match od_get i (sy_existing s) with
                     | Some k => map id (sy_candidates s) !! k = Some i
                     | None => i ∉ map id (sy_candidates s)
                     end;
  sg_initial : map id initial `prefix_of` map id (sy_candidates s);
  sg_nodup : NoDup (map id (sy_candidates s));
  sg_wf : Forall wf (sy_candidates s);
  sg_effective_wf : Forall wf (sy_effective s);
  sg_ids : ∀ i, i ∈ map id (sy_candidates s) ↔ i ∈ map id initial ∨ i ∈ map id (sy_effective s);
}.

Lemma syncing_start l : NoDup (map id l) → Forall wf l → syncing l (sync_start l).
Proof. intros Hnd Hwf. split; cbn; try done; [apply indexed_ids_spec|set_solver]. Qed.

Lemma insert_id_ids (l : list ModelAgent) k a row :
  l !! k = Some row → id a = id row → map id (<[k := a]> l) = map id l.
Proof. intros Hk Ha. change (id <$> <[k := a]> l = id <$> l). rewrite list_fmap_insert, Ha. apply list_insert_id. by rewrite list_lookup_fmap, Hk. Qed.

(** What one discovered agent does: it takes the place of the row of its
    identity, which keeps its id and policy, or is appended under a fresh id, or
    is skipped. *)
Inductive synced (initial : list ModelAgent) (a : ModelAgent) (s : sync_state) : sync_state → Prop :=
| synced_skip : synced initial a s s
| synced_append :
    id a ∉ map id (sy_candidates s) → synced initial a s (append_discovered a s)
| synced_replace k row b s' :
    sy_candidates s !! k = Some row → wf b → id b = id row → same_policy row b →
    disabled b = disabled a → tags b = tags a → endpoint_equivalence b = endpoint_equivalence a →
    sy_existing s' = sy_existing s → sy_candidates s' = <[k := b]> (sy_candidates s) →
    sy_effective s' = sy_effective s ++ [b] → synced initial a s s'.

Lemma upsert_synced initial k row a a0 s s' :
  sy_candidates s !! k = Some row → wf row → wf a → id a = id row →
  disabled a = disabled a0 → tags a = tags a0 → endpoint_equivalence a = endpoint_equivalence a0 →
  upsert pe k a s = Ok s' → synced initial a0 s s'.
Proof.
  intros Hk Hrow Ha Hid Hd Ht Hc H. unfold upsert in H. rewrite Hk in H.
  apply bind_Ok_inv in H as (b & Hb & [= <-]). apply raw_replace_inv in Hb as [Hrep Hb].
  eapply (synced_replace initial a0 s k row b); cbn; try done.
  - by rewrite (rp_id _ _ _ Hrep).
  - pose proof (rp_timeout _ _ _ Hrep) as H1. pose proof (rp_revision _ _ _ Hrep) as H2. cbn in H1, H2.
    rewrite timeout_seconds_opt in H1 by (by apply (timeout_check_wf (scheme pe))). split; congruence.
  - by rewrite (rp_disabled _ _ _ Hrep).
  - by rewrite (rp_tags _ _ _ Hrep).
  - rewrite <- Hc. eapply (replaced_contract (scheme pe)); [exact Ha| |exact Hrep]. done.
Qed.

Lemma sync_step_synced initial s a s' :
  syncing initial s → wf a → sync_step pe initial s a = Ok s' → synced initial a s s'.
Proof.
  intros Hs Ha H. unfold sync_step in H. pose proof (sg_existing _ _ Hs (id a)) as Hex.
  destruct (od_get (id a) (sy_existing s)) as [k|].
  - apply list_lookup_fmap_Some in Hex as (row & Hid & Hrow).
    eapply upsert_synced; [exact Hrow| |exact Ha|done..|exact H].
    eapply (Forall_lookup_1 _ _ _ _ (sg_wf _ _ Hs)); exact Hrow.
  - destruct (discovered_index initial a) as [k|].
    + destruct (sy_candidates s !! k) as [row|] eqn:Hrow; [|injection H as <-; constructor].
      destruct (negb (is_discovered row)); [injection H as <-; constructor|].
      apply bind_Ok_inv in H as (b & Hb & H). apply raw_replace_inv in Hb as [Hrep Hb].
      pose proof (Forall_lookup_1 _ _ _ _ (sg_wf _ _ Hs) Hrow) as Hwf.
      eapply (upsert_synced initial k row b a); [exact Hrow|exact Hwf|exact Hb|..|exact H].
      * by rewrite (rp_id _ _ _ Hrep).
      * by rewrite (rp_disabled _ _ _ Hrep).
      * by rewrite (rp_tags _ _ _ Hrep).
      * assert (wf (set_id (id row) a)) as Hset.
        { pose proof (wf_id _ _ Hwf) as Hrid. destruct Ha. by split. }
        change (endpoint_equivalence a) with (endpoint_equivalence (set_id (id row) a)).
        eapply (replaced_contract (scheme pe)); [exact Hset| |exact Hrep]. done.
    + injection H as <-. by constructor.
Qed.

Lemma synced_syncing initial a s s' : syncing initial s → wf a → synced initial a s s' → syncing initial s'.
Proof.
  intros [] Ha [|Hfresh|k row b s2 Hk Hb Hid _ _ _ _ He Hc Hf]; [by split| |].
  - split; cbn.
    + intros i. rewrite od_get_set, map_app. destruct (decide (i = id a)) as [->|Hi].
      * rewrite lookup_app_r by (by rewrite length_map). by rewrite length_map, Nat.sub_diag.
      * specialize (sg_existing0 i). destruct (od_get i _); [by apply lookup_app_l_Some|cbn; set_solver].
    + rewrite map_app. by apply prefix_app_r.
    + rewrite map_app. apply NoDup_app. split_and!; [done|cbn; set_solver|apply NoDup_singleton].
    + apply Forall_app. by split; [|apply Forall_singleton].
    + apply Forall_app. by split; [|apply Forall_singleton].
    + intros i. rewrite !map_app, !elem_of_app, sg_ids0. cbn. set_solver.
  - assert (map id (sy_candidates s2) = map id (sy_candidates s)) as Hids by (rewrite Hc; by eapply insert_id_ids).
    split; rewrite ?Hids, ?He; try done.
    + rewrite Hc. by apply Forall_insert.
    + rewrite Hf. apply Forall_app. by split; [|apply Forall_singleton].
    + intros i. rewrite Hf, map_app, elem_of_app, sg_ids0. cbn.
      assert (id row ∈ map id (sy_candidates s)) as Hin by (apply list_elem_of_fmap_2; by eapply list_elem_of_lookup_2).
      apply sg_ids0 in Hin. rewrite Hid. set_solver.
Qed.

Lemma sync_loop_syncing initial l : ∀ s s',
  syncing initial s → Forall wf l → sync_loop pe initial s l = Ok s' → syncing initial s'.
Proof.
  induction l as [|a l IH]; intros s s' Hs Hwf H; cbn [sync_loop] in H; [by injection H as <-|].
  apply Forall_cons in Hwf as [Ha Hwf]. apply bind_Ok_inv in H as (s1 & H1 & H).
  apply (IH s1); [|done|done]. eapply synced_syncing; [exact Hs|exact Ha|]. by apply sync_step_synced.
Qed.

Lemma sync_discovered_agents_outcome discovered p :
  pool_good p → Forall wf discovered →
  let '(p', r) := sync_discovered_agents pe discovered p in
  outcome (λ au p', ∃ s, sync_loop pe (ap_candidates p) (sync_start (ap_candidates p)) discovered = Ok s ∧
    syncing (ap_candidates p) s ∧ au = (sy_added s, sy_updated s) ∧ roles_supported pe (sy_candidates s) ∧
    accepted (puts (sy_effective s)) (sy_candidates s) p p') p p' r.
Proof.
  intros Hg Hd. unfold sync_discovered_agents. planned s Hplan.
  apply bind_Ok_inv in Hplan as (s0 & Hloop & Hplan). apply bind_Ok_inv in Hplan as (u & Hroles%require_pool_Ok & [= ->]).
  assert (syncing (ap_candidates p) s) as Hs.
  { eapply sync_loop_syncing; [apply syncing_start; [apply (pg_ids _ Hg)|apply (pg_wf _ Hg)]|exact Hd|exact Hloop]. }
  unfold st.bind at 1. destruct (persist tt (save_agents _) p) as [p1 r] eqn:Hp.
  apply persist_agents in Hp as (st & -> & Hst); [|by apply pg_store|apply (sg_effective_wf _ _ Hs)].
  destruct r as [[]|e]; [|by apply with_store_unchanged]. cbn.
  exists s. split_and!; try done.
  pose proof (pg_group _ Hg) as Hgd. pose proof (pg_quality _ Hg) as Hqd. pose proof (sg_ids _ _ Hs) as Hids.
  split; cbn; try done; rewrite register_all_dom, ?Hgd, ?Hqd; apply set_eq; intros i;
    rewrite elem_of_union, !elem_of_list_to_set, Hids; tauto.
Qed.

(** *** Start *)

Lemma find_id_None i l : List.find (λ a, String.eqb (id a) i) l = None → i ∉ map id l.
Proof.
  intros H (a & -> & Ha)%list_elem_of_fmap. apply list_elem_of_In in Ha.
  pose proof (List.find_none _ _ H a Ha) as He. cbn in He. by rewrite String.eqb_refl in He.
Qed.

Lemma overlay_ids seed stored :
  map id (overlay seed stored)
  = map id seed ++ map id (List.filter (λ a, negb (in_strs (id a) (map id seed))) stored).
Proof.
  unfold overlay. rewrite map_app. f_equal. rewrite map_map. apply map_ext_in. intros a _.
  destruct (List.find _ stored) as [b|] eqn:Hf; [|done]. by apply find_candidate in Hf as [_ ?].
Qed.

Lemma overlay_NoDup seed stored : NoDup (map id seed) → NoDup (map id stored) → NoDup (map id (overlay seed stored)).
Proof.
  intros Hs Hst. rewrite overlay_ids. apply NoDup_app. split_and!; [done| |].
  - intros i Hi (a & -> & Ha)%list_elem_of_fmap. apply list_elem_of_In, filter_In in Ha as [_ Ha].
    apply negb_true_iff in Ha. apply in_strs_spec in Hi. congruence.
  - apply (sublist_ids _ stored (filter_sublist _ _)), Hst.
Qed.

(** A stored agent wins over the seed of its id. *)
Lemma overlay_elem seed stored a :
  NoDup (map id stored) →
  a ∈ overlay seed stored ↔ a ∈ stored ∨ (a ∈ seed ∧ id a ∉ map id stored).
Proof.
  intros Hst. unfold overlay. rewrite elem_of_app, list_elem_of_fmap, list_elem_of_In, filter_In, <- list_elem_of_In. split.
  - intros [(b & -> & Hb)|[Ha _]]; [|by left]. destruct (List.find _ stored) as [c|] eqn:Hf; cbn.
    + left. by apply find_candidate in Hf as [? _].
    + right. split; [done|]. by apply find_id_None.
  - intros [Ha|[Ha Hno]].
    + destruct (in_strs (id a) (map id seed)) eqn:Hin; [left|by right].
      apply in_strs_spec, list_elem_of_fmap in Hin as (b & Hid & Hb). exists b. split; [|done].
      destruct (List.find _ stored) as [c|] eqn:Hf; cbn.
      * apply find_candidate in Hf as [Hc Hcb]. apply (same_id_eq stored); [done|done|done|congruence].
      * apply find_id_None in Hf. destruct Hf. rewrite <- Hid. by apply list_elem_of_fmap_2.
    + left. exists a. split; [|done]. destruct (List.find _ stored) as [c|] eqn:Hf; [|done].
      apply find_candidate in Hf as [Hc Hca]. destruct Hno. rewrite <- Hca. by apply list_elem_of_fmap_2.
Qed.

Lemma start_pool_good seed store allow_empty m p :
  NoDup (map id seed) → Forall wf seed → store_good store →
  start_pool pe seed store allow_empty m = Ok p →
  pool_good p ∧ ap_store p = store ∧
  (∃ stored, ap_candidates p = overlay seed stored ∧
     match store with Some st => load_agents st = Ok stored | None => stored = [] end) ∧
  (allow_empty = false → enabled (ap_candidates p) ≠ []).
Proof.
  intros Hnd Hwf Hstore H. unfold start_pool in H. apply bind_Ok_inv in H as (cands & Hc & H).
  assert (∃ stored, cands = overlay seed stored ∧ NoDup (map id stored) ∧ Forall wf stored ∧
    match store with Some st => load_agents st = Ok stored | None => stored = [] end) as (stored & -> & Hsnd & Hswf & Hst).
  { destruct store as [st|].
    - destruct (load_agents_ok st Hstore) as (l & Hl & Hlnd & Hlwf & _). rewrite Hl in Hc. injection Hc as <-. by exists l.
    - injection Hc as <-. exists []. split_and!; [|constructor..|done]. unfold overlay. cbn. by rewrite app_nil_r, map_id. }
  assert (p = {| ap_candidates := overlay seed stored; ap_agents := enabled (overlay seed stored); ap_meter := m;
            ap_group := fold_left (λ r i, register_member (pe_group_cfg pe) i r) (map id (overlay seed stored)) empty_router;
            ap_quality := fold_left (λ r i, register_member (pe_quality_cfg pe) i r) (map id (overlay seed stored)) empty_router;
            ap_store := store |} ∧ (allow_empty = false → enabled (overlay seed stored) ≠ [])) as [-> Hen].
  { destruct (enabled (overlay seed stored)); [destruct allow_empty; [|done]|]; by injection H as <-. }
  split_and!; [|done|by exists stored|done]. split; cbn; try done.
  - by apply overlay_NoDup.
  - apply Forall_forall. intros a [Ha|[Ha _]]%overlay_elem; [by apply (proj1 (Forall_forall _ _) Hswf)|by apply (proj1 (Forall_forall _ _) Hwf)|done].
  - rewrite register_all_dom. cbn. by rewrite dom_empty_L, union_empty_r_L.
  - rewrite register_all_dom. cbn. by rewrite dom_empty_L, union_empty_r_L.
Qed.

(** ** Administration *)

Inductive admin_op :=
| PatchAgent (pool_id agent_id : string) (patch : dict) (actor expected : pyval)
| RestoreTimeout (pool_id agent_id : string) (source expected actor : pyval)
| SetGroup (name : string) (member_ids : list string)
| DeleteGroup (name : string)
| AddAgent (pool_id : string) (value : dict)
| RemoveAgent (pool_id agent_id : string)
| RetireAgent (agent_id : string)
| SyncDiscovered (discovered : list ModelAgent).

Definition unit_of {A} (m : ST (pool S) pool_error A) : ST (pool S) pool_error unit := λ p,
  let '(p, r) := m p in (p, (λ _, tt) <$> r).

Definition administer (op : admin_op) : ST (pool S) pool_error unit :=
  match op with
  | PatchAgent pool_id agent_id patch actor expected =>
      unit_of (patch_agent pe pool_id agent_id patch actor expected None)
  | RestoreTimeout pool_id agent_id source expected actor =>
      unit_of (restore_model_timeout pe pool_id agent_id source expected actor)
  | SetGroup name member_ids => unit_of (set_model_group pe name member_ids)
  | DeleteGroup name => unit_of (delete_model_group pe name)
  | AddAgent pool_id value => unit_of (add_agent pe pool_id value)
  | RemoveAgent pool_id agent_id => unit_of (remove_agent pe pool_id agent_id)
  | RetireAgent agent_id => _retire_runtime_agent pe agent_id
  | SyncDiscovered discovered => unit_of (sync_discovered_agents pe discovered)
  end.

(** Discovery hands over constructed agents. *)
Definition op_ok (op : admin_op) : Prop :=
  match op with SyncDiscovered l => Forall wf l | _ => True end.

(** What an accepted operation makes of the pool. *)
Definition effect (op : admin_op) (p p' : pool S) : Prop :=
  match op with
  | PatchAgent _ agent_id _ _ _ | RestoreTimeout _ agent_id _ _ _ =>
      ∃ a b, a ∈ ap_candidates p ∧ id a = agent_id ∧ wf b ∧ id b = agent_id ∧
        governed pe (replace_candidate b (ap_candidates p) agent_id) ∧
        accepted (patched_store a b) (replace_candidate b (ap_candidates p) agent_id) p p'
  | SetGroup _ _ | DeleteGroup _ => ∃ saved, regrouped_to saved p p'
  | AddAgent _ value =>
      ∃ a, from_dict (scheme pe) value = Ok a ∧ wf a ∧ (id a ∉ map id (ap_candidates p)) ∧
        accepted (puts [a]) (ap_candidates p ++ [a]) p p'
  | RemoveAgent _ agent_id =>
      governed pe (without_agent agent_id (ap_candidates p)) ∧ agent_id ∈ map id (ap_candidates p) ∧
      accepted (buried p agent_id)
        (without_agent agent_id (ap_candidates p)) p p'
  | RetireAgent agent_id => accepted untouched (without_agent agent_id (ap_candidates p)) p p'
  | SyncDiscovered discovered =>
      ∃ s, sync_loop pe (ap_candidates p) (sync_start (ap_candidates p)) discovered = Ok s ∧
        syncing (ap_candidates p) s ∧ roles_supported pe (sy_candidates s) ∧
        accepted (puts (sy_effective s)) (sy_candidates s) p p'
  end.

Lemma unit_outcome {A} (m : ST (pool S) pool_error A) (Q : A → pool S → Prop) (Q' : pool S → Prop) p :
  (let '(p', r) := m p in outcome Q p p' r) → (∀ x p', Q x p' → Q' p') →
  let '(p', r) := unit_of m p in outcome (λ _, Q') p p' r.
Proof. unfold unit_of. destruct (m p) as [p' [x|e]]; cbn; eauto. Qed.

Lemma administer_outcome op p :
  pool_good p → op_ok op → let '(p', r) := administer op p in outcome (λ _, effect op p) p p' r.
Proof.
  intros Hg Hop. destruct op; cbn [administer].
  - eapply unit_outcome; [by apply patch_agent_outcome|]. intros b p' (a & ? & ? & ? & ? & ? & ?). by exists a, b.
  - eapply unit_outcome; [by apply restore_model_timeout_outcome|]. intros b p' (a & ? & ? & ? & ? & ? & ?). by exists a, b.
  - eapply unit_outcome; [by apply set_model_group_outcome|]. by intros nm p' (_ & _ & ?).
  - eapply unit_outcome; [by apply delete_model_group_outcome|]. by intros nm p' (_ & _ & ?).
  - eapply unit_outcome; [by apply add_agent_outcome|]. intros a p' (? & ? & ? & ?). by exists a.
  - eapply unit_outcome; [by apply remove_agent_outcome|]. by intros i p' ?.
  - pose proof (_retire_runtime_agent_outcome agent_id p Hg) as H. by destruct (_retire_runtime_agent pe agent_id p) as [p' []].
  - eapply unit_outcome; [by apply sync_discovered_agents_outcome|]. intros au p' (s & ? & ? & _ & ? & ?). by exists s.
Qed.

Lemma effect_good op p p' : pool_good p → effect op p p' → pool_good p'.
Proof.
  intros Hg H. pose proof (pg_ids _ Hg) as Hnd. pose proof (pg_wf _ Hg) as Hwf.
  destruct op; cbn [effect] in H.
  1,2: destruct H as (a & b & Ha & Hid & Hb & Hbid & _ & Hac); eapply accepted_good; [| |exact Hac];
    [by rewrite replace_candidate_ids|by apply replace_candidate_wf].
  1,2: destruct H as (saved & l & Hids & Hl & _ & Hac); eapply accepted_good; [| |exact Hac]; [by rewrite Hids|done].
  - destruct H as (a & _ & Ha & Hfresh & Hac). eapply accepted_good; [| |exact Hac].
    + rewrite map_app. apply NoDup_app. split_and!; [done|cbn; set_solver|apply NoDup_singleton].
    + apply Forall_app. by split; [|apply Forall_singleton].
  - destruct H as (_ & _ & Hac). eapply accepted_good; [| |exact Hac]; [by apply without_agent_NoDup|by apply filter_wf].
  - eapply accepted_good; [| |exact H]; [by apply without_agent_NoDup|by apply filter_wf].
  - destruct H as (s & _ & Hs & _ & Hac). eapply accepted_good; [| |exact Hac]; [apply (sg_nodup _ _ Hs)|apply (sg_wf _ _ Hs)].
Qed.

Lemma administer_good op p : pool_good p → op_ok op → pool_good (administer op p).1.
Proof.
  intros Hg Hop. pose proof (administer_outcome op p Hg Hop) as H. destruct (administer op p) as [p' [u|e]].
  - by eapply effect_good.
  - by eapply unchanged_good.
Qed.

(** A history of operations, accepted or refused. *)
Fixpoint administered (ops : list admin_op) p : pool S :=
  match ops with
  | [] => p
  | op :: ops => administered ops (administer op p).1
  end.

Lemma administered_good ops : ∀ p, pool_good p → Forall op_ok ops → pool_good (administered ops p).
Proof.
  induction ops as [|op ops IH]; intros p Hg Hops; [done|]. apply Forall_cons in Hops as [Hop Hops].
  apply IH; [by apply administer_good|done].
Qed.

(** Retiring a bootstrap row and syncing discovery are not guarded like the others. *)
Definition guarded (op : admin_op) : bool := match op with RetireAgent _ | SyncDiscovered _ => false | _ => true end.

Lemma effect_governed op p p' :
  effect op p p' → guarded op = true → governed pe (ap_candidates p) → governed pe (ap_candidates p').
Proof.
  intros H Hop Hgov. destruct op; try done; cbn [effect] in H.
  1,2: destruct H as (a & b & _ & _ & _ & _ & Hg & Hac); by rewrite (ac_candidates _ _ _ _ Hac).
  1,2: destruct H as (saved & l & _ & _ & Hall & Hac); rewrite (ac_candidates _ _ _ _ Hac);
    eapply governed_standing; [|exact Hgov]; intros a [i Ha]%list_elem_of_lookup_1;
    destruct (Forall2_lookup_l _ _ _ _ _ Hall Ha) as (b & Hb & Hr & _);
    exists b; split; [by eapply list_elem_of_lookup_2|apply (rg_standing _ _ Hr)].
  - destruct H as (a & _ & _ & _ & Hac). rewrite (ac_candidates _ _ _ _ Hac).
    eapply governed_standing; [|exact Hgov]. intros c Hc. exists c. split; [apply elem_of_app; by left|apply standing_refl].
  - destruct H as (Hg & _ & Hac). by rewrite (ac_candidates _ _ _ _ Hac).
Qed.

Lemma administer_governed op p :
  pool_good p → op_ok op → guarded op = true → governed pe (ap_candidates p) →
  governed pe (ap_candidates (administer op p).1).
Proof.
  intros Hg Hop Hk Hgov. pose proof (administer_outcome op p Hg Hop) as H. destruct (administer op p) as [p' [u|e]].
  - by eapply effect_governed.
  - cbn. by rewrite (un_candidates _ _ H).
Qed.

(** ** Lemmas: what is stored mirrors what is served *)

(** One contract id names one contract. *)
Definition coherent (l : list ModelAgent) : Prop :=
  ∀ a b c d, a ∈ l → b ∈ l → endpoint_equivalence a = Some c → endpoint_equivalence b = Some d →
    contract_id c = contract_id d → c = d.

(** A served agent is stored as it is served, or is an unsaved seed; a stored
    agent that is not served is disabled, and so is not a seed. *)
Record mirrored (seed l : list ModelAgent) (v : view) : Prop := {
  mi_served : ∀ a, a ∈ l → match v (id a) with Some b => b = a | None => a ∈ seed ∧ model_timeout_revision a = 0 end;
  mi_gone : ∀ i b, v i = Some b → i ∉ map id l → disabled b = true;
  mi_seed : ∀ a, a ∈ seed → id a ∉ map id l → is_Some (v (id a));
}.

Lemma refit_self a : refit (model_timeout_seconds a) (model_timeout_revision a) a = a.
Proof. apply agent_of_row_id. Qed.

Lemma recontract_same a b :
  (∀ c d, endpoint_equivalence a = Some c → endpoint_equivalence b = Some d → contract_id c = contract_id d → c = d) →
  recontract a b = b.
Proof.
  intros H. assert (recontracted (endpoint_equivalence a) (endpoint_equivalence b) = endpoint_equivalence b) as He.
  { unfold recontracted. destruct (endpoint_equivalence a) as [c|], (endpoint_equivalence b) as [d|]; try done.
    destruct (String.eqb_spec (contract_id d) (contract_id c)); [|done]. f_equal. by apply H. }
  unfold recontract. rewrite He. apply agent_of_row_id.
Qed.

Lemma recontract_coherent l a b : coherent l → a ∈ l → b ∈ l → recontract a b = b.
Proof. intros Hc Ha Hb. apply recontract_same. intros c d. by apply (Hc a b). Qed.

Lemma coherent_replace l a b :
  coherent l → a ∈ l → endpoint_equivalence b = endpoint_equivalence a ∨ endpoint_equivalence b = None →
  coherent (replace_candidate b l (id a)).
Proof.
  intros Hc Ha Hb x y c d Hx Hy Hxc Hyd. apply replace_candidate_elem in Hx, Hy.
  destruct Hb as [Hb|Hb]; destruct Hx as [[-> _]|[Hx _]], Hy as [[-> _]|[Hy _]]; rewrite ?Hb in *; try done;
    [by apply (Hc a a)|by apply (Hc a y)|by apply (Hc x a)|by apply (Hc x y)|by apply (Hc x y)].
Qed.

(** The stored agents other than the written one, by a write of [b]. *)
Lemma mirrored_others seed l v b i a :
  mirrored seed l v → a ∈ l → id a = i → i ≠ id b →
  (∀ c d, endpoint_equivalence b = Some c → endpoint_equivalence a = Some d → contract_id c = contract_id d → c = d) →
  put b v i = v i.
Proof.
  intros Hm Ha <- Hi Hco. unfold put. rewrite decide_False by done. pose proof (mi_served _ _ _ Hm a Ha) as Hs.
  destruct (v (id a)) as [c|]; [|done]. subst c. cbn. by rewrite recontract_same.
Qed.

Lemma put_gone seed l v b i c :
  mirrored seed l v → put b v i = Some c → i ≠ id b → i ∉ map id l → disabled c = true.
Proof.
  intros Hm Hput Hi Hno. unfold put in Hput. rewrite decide_False in Hput by done.
  apply fmap_Some in Hput as (d & Hd & ->). by apply (mi_gone _ _ _ Hm i d).
Qed.

Lemma put_is_Some v b i : is_Some (v i) → is_Some (put b v i).
Proof. intros [c Hc]. unfold put. destruct (decide (i = id b)); [by eexists|]. rewrite Hc. by eexists. Qed.

(** Saving a replacement of a served agent. *)
Lemma mirrored_replace seed l v v' a b :
  NoDup (map id l) → mirrored seed l v → a ∈ l → id b = id a → same_policy a b →
  coherent (replace_candidate b l (id a)) → (∀ i, v' i = put b v i) →
  mirrored seed (replace_candidate b l (id a)) v'.
Proof.
  intros Hnd Hm Ha Hid [Ht Hr] Hco Hv. pose proof (replace_candidate_ids b l (id a) Hid) as Hids.
  assert (put b v (id a) = Some b) as Hput.
  { unfold put. rewrite decide_True by done. pose proof (mi_served _ _ _ Hm a Ha) as Hs. f_equal.
    destruct (v (id a)) as [c|]; cbn.
    - subst c. rewrite <- Ht, <- Hr. apply refit_self.
    - destruct Hs as [_ H0]. rewrite <- H0, <- Hr. apply refit_self. }
  split.
  - intros c [[-> _]|[Hc Hne]]%replace_candidate_elem; rewrite Hv; [by rewrite Hid, Hput|].
    rewrite (mirrored_others seed l v b (id c) c); [by apply (mi_served _ _ _ Hm)|done..|congruence|].
    intros x y Hx Hy. apply (Hco b c); [|by apply replace_candidate_elem; right|done..].
    apply replace_candidate_elem. left. split; [done|]. by apply list_elem_of_fmap_2.
  - intros i c. rewrite Hids, Hv. intros Hc Hi. eapply put_gone; [exact Hm|exact Hc| |exact Hi].
    intros ->. destruct Hi. rewrite Hid. by apply list_elem_of_fmap_2.
  - intros c Hc. rewrite Hids, Hv. intros Hi. apply put_is_Some. by apply (mi_seed _ _ _ Hm).
Qed.

(** Saving a new agent. *)
Lemma mirrored_append seed l v v' a :
  mirrored seed l v → id a ∉ map id l → v (id a) = None → model_timeout_revision a = 0 →
  coherent (l ++ [a]) → (∀ i, v' i = put a v i) → mirrored seed (l ++ [a]) v'.
Proof.
  intros Hm Hfresh Hnone Hr Hco Hv.
  assert (put a v (id a) = Some a) as Hput.
  { unfold put. rewrite decide_True, Hnone by done. cbn. rewrite <- Hr. by rewrite refit_self. }
  split.
  - intros c [Hc|Hc%list_elem_of_singleton]%elem_of_app; rewrite Hv; [|by subst c; rewrite Hput].
    assert (id c ≠ id a) as Hne by (intros He; apply Hfresh; rewrite <- He; by apply list_elem_of_fmap_2).
    rewrite (mirrored_others seed l v a (id c) c); [by apply (mi_served _ _ _ Hm)|done..|].
    intros x y Hx Hy. apply (Hco a c); try done; apply elem_of_app; [right; left|by left].
  - intros i c. rewrite Hv, map_app. intros Hc Hi. eapply put_gone; [exact Hm|exact Hc| |]; [|set_solver].
    intros ->. destruct Hi. apply elem_of_app. right. left.
  - intros c Hc. rewrite Hv, map_app. intros Hi. apply put_is_Some, (mi_seed _ _ _ Hm); [done|set_solver].
Qed.

(** Saving the tombstone of a removed agent. *)
Lemma mirrored_remove seed l v v' a tomb :
  mirrored seed l v → coherent l → a ∈ l → id tomb = id a → disabled tomb = true →
  endpoint_equivalence tomb = endpoint_equivalence a → (∀ i, v' i = put tomb v i) →
  mirrored seed (without_agent (id a) l) v'.
Proof.
  intros Hm Hco Ha Hid Hd He Hv.
  assert (is_Some (put tomb v (id a)) ∧ ∀ c, put tomb v (id a) = Some c → disabled c = true) as [Hsome Htomb].
  { unfold put. rewrite decide_True by done. split; [by eexists|]. intros c [= <-]. by destruct (v (id a)). }
  assert (∀ i, i ∉ map id (without_agent (id a) l) → i = id a ∨ i ∉ map id l) as Hgone.
  { intros i Hi. destruct (decide (i = id a)); [by left|right]. intros (c & -> & Hc)%list_elem_of_fmap.
    destruct Hi. apply list_elem_of_fmap_2, without_agent_elem. by split. }
  split.
  - intros c [Hc Hne]%without_agent_elem. rewrite Hv.
    rewrite (mirrored_others seed l v tomb (id c) c); [by apply (mi_served _ _ _ Hm)|done..|congruence|].
    intros x y Hx Hy. rewrite He in Hx. by apply (Hco a c).
  - intros i c. rewrite Hv. intros Hc [->|Hi]%Hgone; [by apply Htomb|].
    eapply put_gone; [exact Hm|exact Hc| |exact Hi]. intros ->. destruct Hi. rewrite Hid. by apply list_elem_of_fmap_2.
  - intros c Hc. rewrite Hv. intros [->|Hi]%Hgone; [done|]. by apply put_is_Some, (mi_seed _ _ _ Hm).
Qed.

(** A committed change of a timeout. *)
Lemma mirrored_retime seed l v v' a t n :
  NoDup (map id l) → mirrored seed l v → a ∈ l → coherent l →
  match v (id a) with
  | Some c => same_policy a c ∧ ∀ i, v' i = if decide (i = id a) then Some (refit t n c) else v i
  | None => ∀ i, v' i = if decide (i = id a) then Some (refit t n a) else recontract (refit t n a) <$> v i
  end →
  mirrored seed (replace_candidate (refit t n a) l (id a)) v'.
Proof.
  intros Hnd Hm Ha Hco Hv. set (b := refit t n a) in *.
  assert (id b = id a) as Hid by done. pose proof (replace_candidate_ids b l (id a) Hid) as Hids.
  assert (v' (id a) = Some b) as Hat.
  { pose proof (mi_served _ _ _ Hm a Ha) as Hs. destruct (v (id a)) as [c|]; [destruct Hv as [_ Hv]; subst c|];
      by rewrite Hv, decide_True. }
  assert (∀ c, c ∈ l → id c ≠ id a → v' (id c) = v (id c)) as Hserved.
  { intros c Hc Hne. destruct (v (id a)) as [d|]; [destruct Hv as [_ Hv]; by rewrite Hv, decide_False|].
    rewrite Hv, decide_False by done. pose proof (mi_served _ _ _ Hm c Hc) as Hs.
    destruct (v (id c)) as [d|]; [|done]. subst d. cbn. f_equal. apply recontract_same.
    intros x y Hx Hy. by apply (Hco a c). }
  assert (∀ i, i ≠ id a → (∀ c, v' i = Some c → ∃ d, v i = Some d ∧ disabled c = disabled d) ∧ (is_Some (v i) → is_Some (v' i))) as Hrest.
  { intros i Hi. destruct (v (id a)) as [d|]; [destruct Hv as [_ Hv]|]; rewrite Hv, decide_False by done.
    - split; [intros c Hc; by exists c|done].
    - split; [|by intros [c ->]; eexists]. intros c (d & Hd & ->)%fmap_Some. by exists d. }
  split.
  - intros c [[-> _]|[Hc Hne]]%replace_candidate_elem; [by rewrite Hid, Hat|].
    rewrite Hserved by done. by apply (mi_served _ _ _ Hm).
  - intros i c. rewrite Hids. intros Hc Hi. assert (i ≠ id a) as Hne by (intros ->; destruct Hi; by apply list_elem_of_fmap_2).
    destruct (proj1 (Hrest i Hne) c Hc) as (d & Hd & ->). by apply (mi_gone _ _ _ Hm i).
  - intros c Hc. rewrite Hids. intros Hi. apply Hrest; [|by apply (mi_seed _ _ _ Hm)].
    intros He. destruct Hi. rewrite He. by apply list_elem_of_fmap_2.
Qed.

(** *** Regrouping *)

Definition replace_all (l saved : list ModelAgent) : list ModelAgent :=
  foldl (λ l b, replace_candidate b l (id b)) l saved.

Lemma replace_all_map saved : ∀ l,
  NoDup (map id saved) →
  replace_all l saved = map (λ a, default a (List.find (λ b, String.eqb (id b) (id a)) saved)) l.
Proof.
  induction saved as [|b saved IH]; intros l Hnd; [cbn; by rewrite map_id|].
  apply NoDup_cons in Hnd as [Hb Hnd]. cbn [replace_all foldl]. fold (replace_all (replace_candidate b l (id b)) saved).
  rewrite IH by done. unfold replace_candidate. rewrite map_map. apply map_ext_in. intros a _. cbn [List.find].
  rewrite (String.eqb_sym (id b) (id a)). destruct (String.eqb_spec (id a) (id b)) as [Hid|]; [|done].
  destruct (List.find _ saved) as [c|] eqn:Hf; [|done]. apply find_candidate in Hf as [Hc Hcb].
  destruct Hb. rewrite <- Hcb. by apply list_elem_of_fmap_2.
Qed.

Lemma replace_all_saved (saved : ModelAgent → bool) l l' :
  NoDup (map id l) → map id l' = map id l →
  Forall2 (λ a b, regrouped a b ∧ (saved b = false → b = a)) l l' →
  replace_all l (List.filter saved l') = l'.
Proof.
  intros Hnd Hids Hall. assert (NoDup (map id l')) as Hnd' by (by rewrite Hids).
  rewrite replace_all_map by (apply (sublist_ids _ l' (filter_sublist _ _)), Hnd').
  apply list_eq. intros i. change (map ?f l) with (f <$> l). rewrite list_lookup_fmap.
  apply Forall2_same_length_lookup in Hall as [Hlen Hall].
  destruct (l !! i) as [a|] eqn:Ha; cbn.
  - destruct (lookup_lt_is_Some_2 l' i) as [b Hb]; [rewrite <- Hlen; by eapply lookup_lt_Some|]. rewrite Hb.
    destruct (Hall i a b Ha Hb) as [Hr Hs]. destruct (rg_standing _ _ Hr) as [Hid _].
    destruct (List.find _ _) as [c|] eqn:Hf; cbn; f_equal.
    + apply find_candidate in Hf as [Hc Hcid]. apply list_elem_of_In, filter_In in Hc as [Hc _]. apply list_elem_of_In in Hc.
      apply (same_id_eq l'); [done|done|by eapply list_elem_of_lookup_2|congruence].
    + symmetry. apply Hs. destruct (saved b) eqn:Hsb; [|done]. apply find_id_None in Hf. destruct Hf.
      rewrite <- Hid. apply list_elem_of_fmap_2, list_elem_of_In, filter_In. split; [|done].
      apply list_elem_of_In. by eapply list_elem_of_lookup_2.
  - symmetry. apply lookup_ge_None. apply lookup_ge_None in Ha. lia.
Qed.

Lemma mirrored_regroup seed saved : ∀ l v,
  NoDup (map id l) → NoDup (map id saved) → coherent l → mirrored seed l v →
  (∀ b, b ∈ saved → ∃ a, a ∈ l ∧ regrouped a b) →
  mirrored seed (replace_all l saved) (foldl (λ v a, put a v) v saved).
Proof.
  induction saved as [|b saved IH]; intros l v Hnd Hsnd Hco Hm Hsaved; [done|]. cbn.
  apply NoDup_cons in Hsnd as [Hb Hsnd]. destruct (Hsaved b) as (a & Ha & Hr); [left|].
  destruct (rg_standing _ _ Hr) as [Hid _].
  assert (coherent (replace_candidate b l (id b))) as Hco'.
  { rewrite Hid. apply coherent_replace; [done|done|]. left. apply (rg_contract _ _ Hr). }
  apply IH; [by rewrite replace_candidate_ids|done|done| |].
  - rewrite Hid in *. eapply mirrored_replace; try done. apply (rg_policy _ _ Hr).
  - intros c Hc. destruct (Hsaved c) as (d & Hd & Hdc); [by right|]. exists d. split; [|done].
    apply replace_candidate_elem. right. split; [done|]. intros Hdb. destruct Hb. destruct (rg_standing _ _ Hdc) as [Hcd _].
    rewrite <- Hdb, <- Hcd. by apply list_elem_of_fmap_2.
Qed.

(** *** Discovery *)

Lemma insert_replace l k b row :
  NoDup (map id l) → l !! k = Some row → id b = id row → <[k := b]> l = replace_candidate b l (id row).
Proof.
  intros Hnd Hk Hid. apply list_eq. intros i. unfold replace_candidate. change (map ?f l) with (f <$> l).
  rewrite list_lookup_fmap. destruct (decide (i = k)) as [->|Hi].
  - rewrite list_lookup_insert_eq by (by eapply lookup_lt_Some). rewrite Hk. cbn. by rewrite String.eqb_refl.
  - rewrite list_lookup_insert_ne by done. destruct (l !! i) as [a|] eqn:Ha; [cbn|done].
    destruct (String.eqb_spec (id a) (id row)) as [He|]; [|done]. destruct Hi.
    apply (NoDup_lookup (map id l) i k (id row)); [done|..]; change (map id l) with (id <$> l); rewrite list_lookup_fmap.
    + rewrite Ha. cbn. by rewrite He.
    + by rewrite Hk.
Qed.

Lemma foldl_put_None l : ∀ v i, v i = None → i ∉ map id l → foldl (λ v a, put a v) v l i = None.
Proof.
  induction l as [|a l IH]; intros v i Hi Hno; [done|]. cbn in Hno |- *. apply IH; [|set_solver].
  unfold put. rewrite decide_False by set_solver. by rewrite Hi.
Qed.

(** Discovery hands over agents without a contract, of revision zero. *)
Definition plain_discovery (a : ModelAgent) : Prop :=
  endpoint_equivalence a = None ∧ model_timeout_revision a = 0.

Lemma coherent_snoc l a : coherent l → endpoint_equivalence a = None → coherent (l ++ [a]).
Proof.
  intros Hco Ha x y c d [Hx|Hx%list_elem_of_singleton]%elem_of_app [Hy|Hy%list_elem_of_singleton]%elem_of_app; subst;
    [by apply (Hco x y)|congruence..].
Qed.

Lemma mirrored_sync seed initial discovered v s' : ∀ s,
  syncing initial s → Forall wf discovered → Forall plain_discovery discovered →
  coherent (sy_candidates s) → sync_loop pe initial s discovered = Ok s' →
  (∀ i, i ∈ map id (sy_candidates s') → i ∉ map id initial → v i = None) →
  mirrored seed (sy_candidates s) (foldl (λ v a, put a v) v (sy_effective s)) →
  mirrored seed (sy_candidates s') (foldl (λ v a, put a v) v (sy_effective s')).
Proof.
  induction discovered as [|a l IH]; intros s Hs Hwf Hplain Hco H Hfresh Hm; cbn [sync_loop] in H; [by injection H as <-|].
  apply Forall_cons in Hwf as [Ha Hwf]. apply Forall_cons in Hplain as [[Hc Hr] Hplain].
  apply bind_Ok_inv in H as (s1 & H1 & H). pose proof (sync_step_synced _ _ _ _ Hs Ha H1) as Hstep.
  pose proof (synced_syncing _ _ _ _ Hs Ha Hstep) as Hs1.
  assert (∀ i, i ∈ map id (sy_candidates s1) → i ∈ map id (sy_candidates s')) as Hgrow.
  { clear -Hs1 Hwf H AgentStoreLaws0. revert s1 Hs1 H. induction l as [|b l IH]; intros s1 Hs1 H i Hi; cbn [sync_loop] in H; [by injection H as <-|].
    apply Forall_cons in Hwf as [Hb Hwf]. apply bind_Ok_inv in H as (s2 & H2 & H).
    pose proof (sync_step_synced _ _ _ _ Hs1 Hb H2) as Hstep. pose proof (synced_syncing _ _ _ _ Hs1 Hb Hstep) as Hs2.
    apply (IH Hwf s2 Hs2 H). destruct Hstep as [|Hf|k row b' s2 Hk _ Hid _ _ _ _ _ Hcs _]; [done| |].
    - cbn. rewrite map_app. apply elem_of_app. by left.
    - rewrite Hcs, (insert_id_ids _ _ _ row); done. }
  apply (IH s1); try done.
  - destruct Hstep as [|Hf|k row b s1 Hk _ Hid _ _ _ Hbc _ Hcs _]; [done|by apply coherent_snoc|].
    rewrite Hcs, (insert_replace _ _ _ row) by (try done; apply (sg_nodup _ _ Hs)).
    apply coherent_replace; [done|by eapply list_elem_of_lookup_2|]. right. congruence.
  - destruct Hstep as [|Hf|k row b s1 Hk _ Hid Hpol _ _ Hbc _ Hcs Heff]; [done| |].
    + cbn. rewrite foldl_app. cbn. eapply mirrored_append; [exact Hm|exact Hf| |exact Hr|by apply coherent_snoc|done].
      apply foldl_put_None.
      * apply Hfresh; [|intros Hi; apply Hf, (sg_ids _ _ Hs); by left]. apply Hgrow. cbn. rewrite map_app. apply elem_of_app. right. left.
      * intros Hi. apply Hf, (sg_ids _ _ Hs). by right.
    + pose proof (sg_nodup _ _ Hs) as Hnd.
      rewrite Hcs, Heff, foldl_app, (insert_replace _ _ _ row) by done. cbn.
      eapply mirrored_replace; [exact Hnd|exact Hm|by eapply list_elem_of_lookup_2|done|done| |done].
      apply coherent_replace; [done|by eapply list_elem_of_lookup_2|]. right. congruence.
Qed.

(** *** Histories *)

(** The conditions under which the stored pool follows the served one: no agent
    is retired in memory only, served contracts of one id agree, and an id that
    joins the pool has no row from before. *)
Definition orderly_step (op : admin_op) (p p' : pool S) : Prop :=
  match op with
  | RetireAgent _ => False
  | SyncDiscovered l => Forall plain_discovery l
  | AddAgent _ value => ∀ a, from_dict (scheme pe) value = Ok a → model_timeout_revision a = 0
  | _ => True
  end ∧
  coherent (ap_candidates p') ∧
  ∀ st i, ap_store p = Some st → i ∈ map id (ap_candidates p') → i ∉ map id (ap_candidates p) → store_at st i = None.

Fixpoint orderly (ops : list admin_op) (p : pool S) : Prop :=
  match ops with
  | [] => True
  | op :: ops => orderly_step op p (administer op p).1 ∧ orderly ops (administer op p).1
  end.

(** What is stored mirrors what is served. *)
Definition durable (seed : list ModelAgent) (p : pool S) : Prop :=
  coherent (ap_candidates p) ∧ ∃ st, ap_store p = Some st ∧ mirrored seed (ap_candidates p) (store_at st).

Lemma mirrored_ext seed l v v' : (∀ i, v' i = v i) → mirrored seed l v → mirrored seed l v'.
Proof. intros Hv []. split; intros; rewrite ?Hv in *; eauto. by apply mi_served0. Qed.

Lemma effect_durable seed op p p' :
  pool_good p → op_ok op → orderly_step op p p' → durable seed p → effect op p p' → durable seed p'.
Proof.
  intros Hg Hok (Hop & Hco' & Hfresh) (Hco & st & Hst & Hm) H. split; [done|].
  pose proof (pg_ids _ Hg) as Hnd.
  assert (∀ R l, accepted R l p p' → ∃ st', ap_store p' = Some st' ∧ R (store_at st) (store_at st') ∧ ap_candidates p' = l) as Hstore.
  { intros R l Hac. pose proof (ac_store _ _ _ _ Hac) as H1. rewrite Hst in H1.
    destruct (ap_store p') as [st'|]; [|done]. exists st'. split_and!; [done|apply H1|apply (ac_candidates _ _ _ _ Hac)]. }
  destruct op; try done; cbn [effect] in H.
  1,2: destruct H as (a & b & Ha & <- & Hb & Hbid & _ & (st' & Hst' & HR & Hl)%Hstore);
    exists st'; split; [done|]; rewrite Hl in *; destruct HR as [[Hpol Hput]|(t & n & -> & _ & Hv)];
    [by eapply mirrored_replace|by eapply mirrored_retime].
  1,2: destruct H as (saved & l & Hids & Hl & Hall & (st' & Hst' & HR & Hl')%Hstore);
    exists st'; split; [done|]; rewrite Hl';
    rewrite <- (replace_all_saved saved (ap_candidates p) l Hnd Hids Hall);
    eapply mirrored_ext; [exact HR|]; apply mirrored_regroup; [done| |done|done|];
    [apply (sublist_ids _ l (filter_sublist _ _)); unfold ids; rewrite Hids; exact Hnd|];
    intros b [Hb _]%list_elem_of_In%filter_In; apply list_elem_of_In, list_elem_of_lookup_1 in Hb as [i Hb];
    destruct (Forall2_lookup_r _ _ _ _ _ Hall Hb) as (a & Ha & Hr & _);
    exists a; split; [by eapply list_elem_of_lookup_2|done].
  - destruct H as (a & Hfrom & Ha & Hnew & (st' & Hst' & HR & Hl)%Hstore). exists st'. split; [done|]. rewrite Hl in *.
    eapply mirrored_append; [exact Hm|exact Hnew| |by apply Hop|done|exact HR].
    apply (Hfresh st); [done| |done]. rewrite map_app. apply elem_of_app. right. left.
  - destruct H as (_ & _ & (st' & Hst' & (a & tomb & Ha & <- & Hid & Hd & He & HR) & Hl)%Hstore).
    exists st'. split; [done|]. rewrite Hl. by eapply mirrored_remove.
  - destruct H as (s & Hloop & Hs & _ & (st' & Hst' & HR & Hl)%Hstore). exists st'. split; [done|]. rewrite Hl in *.
    eapply mirrored_ext; [exact HR|].
    eapply mirrored_sync; [apply syncing_start; [exact Hnd|apply (pg_wf _ Hg)]|exact Hok|exact Hop|exact Hco|exact Hloop| |exact Hm].
    intros i Hi Hno. by apply (Hfresh st).
Qed.

Lemma administer_durable seed op p :
  pool_good p → op_ok op → orderly_step op p (administer op p).1 → durable seed p → durable seed (administer op p).1.
Proof.
  intros Hg Hop Ho Hd. pose proof (administer_outcome op p Hg Hop) as H.
  destruct (administer op p) as [p' [u|e]]; [by eapply effect_durable|]. cbn in *.
  destruct Hd as (Hco & st & Hst & Hm). pose proof (un_candidates _ _ H) as Hc. pose proof (un_store _ _ H) as Hs.
  rewrite Hst in Hs. destruct (ap_store p') as [st'|] eqn:Hst'; [|done]. destruct Hs as [_ Hv].
  split; [by rewrite Hc|]. exists st'. split; [done|]. rewrite Hc. by eapply mirrored_ext.
Qed.

Lemma administered_durable seed ops : ∀ p,
  pool_good p → Forall op_ok ops → orderly ops p → durable seed p → durable seed (administered ops p).
Proof.
  induction ops as [|op ops IH]; intros p Hg Hops Ho Hd; [done|]. apply Forall_cons in Hops as [Hop Hops].
  destruct Ho as [Ho1 Ho]. apply IH; [by apply administer_good|done|done|by apply administer_durable].
Qed.

Lemma start_durable seed st allow_empty m p :
  NoDup (map id seed) → Forall wf seed → Forall (λ a, model_timeout_revision a = 0) seed → store_ok st →
  start_pool pe seed (Some st) allow_empty m = Ok p → coherent (ap_candidates p) → durable seed p.
Proof.
  intros Hnd Hwf Hrev Hok H Hco. destruct (start_pool_good _ (Some st) _ _ _ Hnd Hwf Hok H) as (_ & Hst & (stored & Hc & Hload) & _).
  destruct (load_agents_ok st Hok) as (l & Hl & Hlnd & _ & Hat). rewrite Hl in Hload. injection Hload as <-.
  split; [done|]. exists st. split; [done|]. rewrite Hc. pose proof (overlay_elem seed l) as Hov.
  assert (∀ i b, store_at st i = Some b → b ∈ l ∧ id b = i) as Hview.
  { intros i b Hb. pose proof (store_at_id _ _ _ Hb) as Hid. split; [|done]. apply Hat. by rewrite Hid. }
  split.
  - intros a Ha. destruct (store_at st (id a)) as [b|] eqn:Hb.
    + apply Hview in Hb as [Hb Hid]. apply Hov in Ha as [Ha|[_ Hno]]; [by apply (same_id_eq l)| |done].
      destruct Hno. rewrite <- Hid. by apply list_elem_of_fmap_2.
    + apply Hov in Ha as [Ha%Hat|[Ha _]]; [congruence| |done]. split; [done|].
      by apply (proj1 (Forall_forall _ _) Hrev).
  - intros i b Hb Hno. apply Hview in Hb as [Hb <-]. destruct Hno. apply list_elem_of_fmap_2. apply Hov; [done|by left].
  - intros a Ha Hno. destruct Hno. rewrite overlay_ids. apply elem_of_app. left. by apply list_elem_of_fmap_2.
Qed.

(** Starting again from the seed and what is stored: the enabled agents are those
    that were served. *)
Lemma durable_restart seed p st allow_empty m :
  pool_good p → NoDup (map id seed) → durable seed p → ap_store p = Some st →
  (allow_empty = false → enabled (ap_candidates p) ≠ []) →
  ∃ p', start_pool pe seed (Some st) allow_empty m = Ok p' ∧ enabled (ap_candidates p') ≡ₚ enabled (ap_candidates p).
Proof.
  intros Hg Hnd (_ & st' & Hst' & Hm) Hst Hallow. rewrite Hst in Hst'. injection Hst' as <-.
  pose proof (pg_store _ Hg) as Hok. rewrite Hst in Hok. cbn in Hok.
  destruct (load_agents_ok st Hok) as (l & Hl & Hlnd & _ & Hat).
  assert (enabled (overlay seed l) ≡ₚ enabled (ap_candidates p)) as Hperm.
  2: { assert (∃ p', start_pool pe seed (Some st) allow_empty m = Ok p' ∧ ap_candidates p' = overlay seed l) as (p' & Hp' & Hc).
    { unfold start_pool. rewrite Hl. cbn [map_raise fmap res_fmap mbind res_bind]. destruct (enabled (overlay seed l)) eqn:He; [|eexists; split; reflexivity].
      destruct allow_empty; [eexists; split; reflexivity|]. destruct Hallow; [done|]. apply Permutation_nil. exact Hperm. }
    exists p'. by rewrite Hc. }
  assert (∀ l, NoDup (map id l) → NoDup (enabled l)) as Hen.
  { intros l0 H0. apply (NoDup_fmap_1 id). apply (sublist_ids _ l0 (filter_sublist _ _)), H0. }
  apply NoDup_Permutation; [by apply Hen, overlay_NoDup|by apply Hen, (pg_ids _ Hg)|].
  intros a. rewrite !enabled_elem, overlay_elem, Hat by done. split; intros [Ha Hd]; (split; [|done]).
  - destruct (in_strs (id a) (map id (ap_candidates p))) eqn:Hin.
    + apply in_strs_spec, list_elem_of_fmap in Hin as (b & Hid & Hb). pose proof (mi_served _ _ _ Hm b Hb) as Hs.
      destruct Ha as [Ha|[Ha Hno]].
      * rewrite <- Hid, Ha in Hs. by subst.
      * destruct (store_at st (id b)) as [c|] eqn:Hcb.
        { subst c. destruct Hno. rewrite Hid. apply list_elem_of_fmap_2. by apply Hat. }
        destruct Hs as [Hs _]. by rewrite (same_id_eq seed a b) by done.
    + assert (id a ∉ map id (ap_candidates p)) as Hno by (rewrite <- in_strs_spec; congruence).
      destruct Ha as [Ha|[Ha Hns]]; [by rewrite (mi_gone _ _ _ Hm _ _ Ha Hno) in Hd|].
      destruct (mi_seed _ _ _ Hm a Ha Hno) as [b Hb]. destruct Hns. rewrite <- (store_at_id _ _ _ Hb).
      apply list_elem_of_fmap_2, Hat. by rewrite (store_at_id _ _ _ Hb).
  - pose proof (mi_served _ _ _ Hm a Ha) as Hs. destruct (store_at st (id a)) as [b|] eqn:Hb; [left; by subst|right].
    split; [apply Hs|]. intros (c & Hid & Hcl%Hat)%list_elem_of_fmap. rewrite <- Hid in Hcl. congruence.
Qed.

(** ** Theorems *)

(** C8. Whatever operators and discovery do to a started pool, accepted or refused,
    its candidates keep unique ids and the type invariant of an agent, the
    serving agents are exactly the enabled candidates, both measured ledgers
    have exactly the candidates as members, and the pool is one the request
    flows are proved for. *)
Theorem pool_stays_wellformed seed store allow_empty m p0 ops :
  NoDup (map id seed) → Forall wf seed → store_good store →
  start_pool pe seed store allow_empty m = Ok p0 → Forall op_ok ops →
  let p := administered ops p0 in
  pool_good p ∧
  ∀ env, re_candidates env = ap_candidates p → re_agents env = ap_agents p →
    (∀ context, evidenced_ok (re_evidenced env context)) → gateway_pool env.
Proof.
  intros Hnd Hwf Hst Hstart Hops p. destruct (start_pool_good _ _ _ _ _ Hnd Hwf Hst Hstart) as [Hg0 _].
  assert (pool_good p) as Hg by (by apply administered_good). split; [done|].
  intros env Hc Ha Hev. split_and!; [|done|].
  - unfold ids. rewrite Hc. apply (pg_ids _ Hg).
  - rewrite Hc, Ha. apply (pg_agents _ Hg).
Qed.

(** C9. An operation that raises, from its checks or from the durable store, leaves
    the served candidates, the agents, the budget meter, the measured ledgers
    and every stored agent as they were. *)
Theorem refused_operation_changes_nothing op p p' e :
  pool_good p → op_ok op → administer op p = (p', Raise e) → unchanged p p'.
Proof. intros Hg Hop H. pose proof (administer_outcome op p Hg Hop) as Ho. by rewrite H in Ho. Qed.

(** Patching, grouping, adding and removing agents never leaves the pool without
    an enabled agent, nor a fail-closed role without an enabled chat agent that
    proves native support for it. *)
Theorem governance_is_kept ops p :
  pool_good p → Forall op_ok ops → forallb guarded ops = true →
  governed pe (ap_candidates p) → governed pe (ap_candidates (administered ops p)).
Proof.
  revert p. induction ops as [|op ops IH]; intros p Hg Hops Hk Hgov; [done|].
  apply Forall_cons in Hops as [Hop Hops]. cbn in Hk. bools.
  apply IH; [by apply administer_good|done|done|by apply administer_governed].
Qed.

(** C7. A restart serves what was served: after any orderly history, refused
    operations and failed transactions included, a pool started from the same
    seed and the stored agents has the same enabled agents. *)
Theorem restart_serves_the_same_agents seed st allow_empty m p0 ops :
  NoDup (map id seed) → Forall wf seed → Forall (λ a, model_timeout_revision a = 0) seed → store_ok st →
  start_pool pe seed (Some st) allow_empty m = Ok p0 → coherent (ap_candidates p0) →
  Forall op_ok ops → orderly ops p0 →
  let p := administered ops p0 in
  (allow_empty = false → enabled (ap_candidates p) ≠ []) →
  ∃ st' p', ap_store p = Some st' ∧ start_pool pe seed (Some st') allow_empty m = Ok p' ∧
    ap_agents p' ≡ₚ ap_agents p.
Proof.
  intros Hnd Hwf Hrev Hok Hstart Hco Hops Ho p Hallow.
  destruct (start_pool_good _ (Some st) _ _ _ Hnd Hwf Hok Hstart) as [Hg0 _].
  assert (pool_good p) as Hg by (by apply administered_good).
  assert (durable seed p) as Hd by (apply administered_durable; [done..|by eapply start_durable]).
  pose proof Hd as (_ & st' & Hst' & _). exists st'.
  destruct (durable_restart seed p st' allow_empty m Hg Hnd Hd Hst' Hallow) as (p' & Hp' & Hperm).
  exists p'. split_and!; [done|done|]. pose proof (pg_store _ Hg) as Hsg. rewrite Hst' in Hsg.
  destruct (start_pool_good _ (Some st') _ _ _ Hnd Hwf Hsg Hp') as [Hg' _].
  by rewrite (pg_agents _ Hg'), (pg_agents _ Hg).
Qed.
End outcomes.

(** ** Demonstrations *)

Definition demo_parse (url : string) : option parsed_url :=
  Some {| pu_scheme := demo_scheme url; pu_hostname := "host.example"; pu_port := None; pu_userinfo := false;
          pu_extra := false; pu_path := "" |}.

(** The role "worker" fails closed. *)
Definition demo_pe : pool_env :=
  {| pe_urlparse := demo_parse; pe_group_cfg := default_config; pe_quality_cfg := default_config;
     pe_catalog := Some [("worker", default_profile)]; pe_count_text := λ _ _, Some 1; pe_decimal := λ _, 2%Qc;
     pe_budget := demo_budget; pe_str := λ _, "" |}.

#[local] Instance demo_store : AgentStore pool_file := sqlite_agent_store demo_scheme (λ n, if (n =? 3)%nat then Some "database is locked" else None).
#[local] Instance demo_store_laws : AgentStoreLaws pool_file (scheme demo_pe) :=
  sqlite_agent_store_laws demo_scheme (λ n, if (n =? 3)%nat then Some "database is locked" else None).

Definition mock_agent (i : string) : ModelAgent := demo_agent i "llama-3" "mock://local" [].

Definition demo_seed : list ModelAgent := [mock_agent "main_agent"; mock_agent "spare_agent"].

Definition digest : string := str_join "" (repeat "a" 64).

(** The fourth transaction hits a locked file. *)
Definition demo_admin : list admin_op :=
  [SetGroup "Shared Model" ["main_agent"];
   PatchAgent "default" "spare_agent" [(VStr "priority", VInt 3)] VNone VNone;
   PatchAgent "default" "main_agent" [(VStr "model_timeout_seconds", VInt 30)] (VStr digest) (VInt 0);
   DeleteGroup "shared model";
   AddAgent "default" [(VStr "id", VStr "new_agent"); (VStr "model", VStr "llama-3")];
   PatchAgent "default" "new_agent" [(VStr "status", VStr "paused")] VNone VNone;
   RemoveAgent "default" "spare_agent";
   SyncDiscovered [set_disabled true (demo_agent "found_agent" "qwen" "https://q.example" ["discovered"])]].

Definition demo_start : res pool_error (pool pool_file) := start_pool demo_pe demo_seed (Some fresh_file) false empty_meter.

Definition standing_of (p : pool pool_file) : list (string * bool * string * option float) :=
  map (λ a, (id a, disabled a, group_name a, model_timeout_seconds a)) (ap_candidates p).

Example demo_history :
  (λ p, standing_of (administered demo_pe demo_admin p)) <$> demo_start
  = Ok [("main_agent", false, "shared_model", Some (float_of_Z 30)); ("new_agent", false, "", None);
        ("found_agent", true, "", None)].
Proof. vm_compute. reflexivity. Qed.

Lemma demo_agent_wf i m u ts b :
  is_two_word_snake_case i = true → agent_wf (scheme demo_pe) (set_disabled b (demo_agent i m u ts)).
Proof. intros Hi. by split; cbn; try done; left. Qed.

Lemma demo_seed_wf : Forall (agent_wf (scheme demo_pe)) demo_seed.
Proof. repeat (apply Forall_cons; split); [by apply (demo_agent_wf _ _ _ _ false)..|by apply Forall_nil]. Qed.

Lemma demo_admin_ok : Forall (op_ok demo_pe) demo_admin.
Proof.
  repeat (apply Forall_cons; split; [try exact I|]); [by apply demo_agent_wf|by apply Forall_nil..].
Qed.

Definition demo_pool0 : pool pool_file :=
  match demo_start with
  | Ok p => p
  | Raise _ => {| ap_candidates := []; ap_agents := []; ap_meter := empty_meter; ap_group := empty_router;
                  ap_quality := empty_router; ap_store := None |}
  end.

Lemma demo_started : demo_start = Ok demo_pool0.
Proof. vm_compute. reflexivity. Qed.

Lemma demo_seed_ids : NoDup (map id demo_seed).
Proof. apply (bool_decide_unpack _). vm_compute. exact I. Qed.

(** The conditions of an orderly step, decided for agents without contracts. *)
Definition orderly_check (op : admin_op) (p p' : pool pool_file) : bool :=
  match op with
  | RetireAgent _ => false
  | SyncDiscovered l =>
      forallb (λ a, bool_decide (endpoint_equivalence a = None) && (model_timeout_revision a =? 0)) l
  | AddAgent _ value =>
      match from_dict (scheme demo_pe) value with Ok a => model_timeout_revision a =? 0 | Raise _ => true end
  | _ => true
  end &&
  forallb (λ a, bool_decide (endpoint_equivalence a = None)) (ap_candidates p') &&
  forallb (λ i, in_strs i (map id (ap_candidates p)) ||
                match ap_store p with Some st => bool_decide (agent_at (pf_db st) i = None) | None => true end)
    (map id (ap_candidates p')).

Fixpoint orderly_checks (ops : list admin_op) (p : pool pool_file) : bool :=
  match ops with
  | [] => true
  | op :: ops => let p' := (administer demo_pe op p).1 in orderly_check op p p' && orderly_checks ops p'
  end.

Lemma orderly_checked ops : ∀ p, orderly_checks ops p = true → orderly demo_pe ops p.
Proof.
  induction ops as [|op ops IH]; intros p H; [done|]. cbn in H |- *. bools. split; [|by apply IH].
  unfold orderly_check in *. bools. split_and!.
  - destruct op; try done.
    + intros a Ha. rewrite Ha in *. by bools.
    + apply Forall_forall. intros a Ha%list_elem_of_In. rewrite forallb_forall in *.
      match goal with H : ∀ x, In x discovered → _ |- _ => specialize (H a Ha) end. by bools.
  - intros a b c d Ha%list_elem_of_In Hb Hc. rewrite forallb_forall in *.
    match goal with H : ∀ x, In x (ap_candidates _) → _ |- _ => specialize (H a Ha) end. bools. congruence.
  - intros st i Hst Hi%list_elem_of_In Hno. rewrite forallb_forall in *.
    match goal with H : ∀ x, In x (map id _) → _ |- _ => specialize (H i Hi) end. rewrite Hst in *.
    destruct (in_strs i (map id (ap_candidates p))) eqn:Hin; [by apply in_strs_spec in Hin|]. cbn in *. by bools.
Qed.

Lemma pool_stays_wellformed_witness :
  pool_good demo_pe (administered demo_pe demo_admin demo_pool0) ∧
  map id (ap_agents (administered demo_pe demo_admin demo_pool0)) = ["main_agent"; "new_agent"].
Proof.
  split; [|vm_compute; reflexivity].
  exact (proj1 (pool_stays_wellformed demo_pe demo_seed (Some fresh_file) false empty_meter demo_pool0 demo_admin
    demo_seed_ids demo_seed_wf (empty_db_ok demo_scheme) demo_started demo_admin_ok)).
Defined.

Lemma demo_pool0_good : pool_good demo_pe demo_pool0.
Proof.
  exact (proj1 (start_pool_good demo_pe demo_seed (Some fresh_file) false empty_meter demo_pool0
    demo_seed_ids demo_seed_wf (empty_db_ok demo_scheme) demo_started)).
Qed.

(** The locked file refuses the deletion of the group. *)
Lemma refused_operation_changes_nothing_witness :
  let p := administered demo_pe (firstn 3 demo_admin) demo_pool0 in
  let q := administer demo_pe (DeleteGroup "shared model") p in
  q.2 = Raise (PoolStore (StoreSql "database is locked")) ∧ unchanged demo_pe p q.1.
Proof.
  intros p q. assert (q.2 = Raise (PoolStore (StoreSql "database is locked"))) as Hq by (vm_compute; reflexivity).
  split; [exact Hq|].
  apply (refused_operation_changes_nothing demo_pe (DeleteGroup "shared model") p q.1 (PoolStore (StoreSql "database is locked"))).
  - apply administered_good; [exact demo_pool0_good|apply Forall_take, demo_admin_ok].
  - exact I.
  - rewrite <- Hq. fold q. by destruct q.
Defined.

Lemma demo_governed : governed demo_pe (ap_candidates demo_pool0).
Proof. split; [by vm_compute|]. apply unsupported_nil. vm_compute. reflexivity. Qed.

(** The last operation would leave no enabled agent and is refused. *)
Lemma governance_is_kept_witness :
  governed demo_pe (ap_candidates
    (administered demo_pe (firstn 7 demo_admin ++ [RemoveAgent "default" "new_agent"; RemoveAgent "default" "main_agent"]) demo_pool0)).
Proof.
  apply (governance_is_kept demo_pe); [exact demo_pool0_good| |vm_compute; reflexivity|exact demo_governed].
  apply Forall_app. split; [apply Forall_take, demo_admin_ok|by repeat constructor].
Defined.

Lemma restart_serves_the_same_agents_witness :
  ∃ st p', ap_store (administered demo_pe demo_admin demo_pool0) = Some st ∧
    start_pool demo_pe demo_seed (Some st) false empty_meter = Ok p' ∧
    ap_agents p' ≡ₚ ap_agents (administered demo_pe demo_admin demo_pool0).
Proof.
  apply (restart_serves_the_same_agents demo_pe demo_seed fresh_file false empty_meter demo_pool0 demo_admin).
  - exact demo_seed_ids.
  - exact demo_seed_wf.
  - by repeat constructor.
  - exact (empty_db_ok demo_scheme).
  - exact demo_started.
  - assert (ap_candidates demo_pool0 = demo_seed) as -> by (vm_compute; reflexivity).
    intros a b c d Ha Hb Hc. exfalso. revert Ha Hc. unfold demo_seed. rewrite !elem_of_cons, elem_of_nil.
    intros [->|[->|[]]]; discriminate.
  - exact demo_admin_ok.
  - apply orderly_checked. vm_compute. reflexivity.
  - intros _. by vm_compute.
Defined.

(** ** Where served and stored pools part *)

(** From here on no transaction fails. *)
#[local] Instance calm_store : AgentStore pool_file := sqlite_agent_store demo_scheme (λ _, None).
#[local] Instance calm_store_laws : AgentStoreLaws pool_file (scheme demo_pe) :=
  sqlite_agent_store_laws demo_scheme (λ _, None).

(** [p] after [ops], and what a restart serves instead. *)
Definition after (ops : list admin_op) (seed : list ModelAgent) : res pool_error (pool pool_file) :=
  administered demo_pe ops <$> start_pool demo_pe seed (Some fresh_file) false empty_meter.

Definition restarted (seed : list ModelAgent) (p : pool pool_file) : res pool_error (pool pool_file) :=
  start_pool demo_pe seed (ap_store p) false empty_meter.

Definition found : ModelAgent := set_disabled true (demo_agent "found_agent" "qwen" "https://q.example" ["discovered"]).

(** Running discovery again disables a discovered agent an operator had enabled:
    the upsert takes the discovered row's [disabled] flag. *)
Theorem rediscovery_disables_enabled_agent :
  let enabled_ids ops := (λ p, map id (ap_agents p)) <$> after ops demo_seed in
  let enable := PatchAgent "default" "found_agent" [(VStr "status", VStr "enabled")] VNone VNone in
  enabled_ids [SyncDiscovered [found]; enable] = Ok ["main_agent"; "spare_agent"; "found_agent"] ∧
  enabled_ids [SyncDiscovered [found]; enable; SyncDiscovered [found]] = Ok ["main_agent"; "spare_agent"].
Proof. split; vm_compute; reflexivity. Qed.

(** It replaces an operator's agent of the same id as well; the check of the
    "discovered" tag is on the other branch only. *)
Theorem discovery_replaces_operator_agent :
  let models ops := (λ p, map (λ a, (id a, model a, disabled a)) (ap_candidates p)) <$> after ops demo_seed in
  models [SyncDiscovered [set_id "spare_agent" found]]
  = Ok [("main_agent", "llama-3", false); ("spare_agent", "qwen", true)].
Proof. vm_compute. reflexivity. Qed.

(** Saving one agent's contract rewrites the stored contract of the others that
    name its id; they serve the old one until the restart. *)
Definition contract_seed : list ModelAgent :=
  let member i := replace_agent demo_scheme (mock_agent i)
                    (with_raw "endpoint_equivalence" (VDict (contract_to_dict demo_contract)) (raw_of (mock_agent i))) in
  omap (λ r, match r with Ok a => Some a | Raise _ => None end) [member "main_agent"; member "spare_agent"].

Definition changed_contract : dict := dict_set "retention_policy" (VStr "thirty_days") (contract_to_dict demo_contract).

Definition retention (p : pool pool_file) : list (option string) :=
  map (λ a, retention_policy <$> endpoint_equivalence a) (ap_candidates p).

Theorem patched_contract_rewrites_sibling :
  let p := after [PatchAgent "default" "main_agent" [(VStr "priority", VInt 1)] VNone VNone;
                  PatchAgent "default" "spare_agent" [(VStr "endpoint_equivalence", VDict changed_contract)] VNone VNone]
             contract_seed in
  (retention <$> p) = Ok [Some (retention_policy demo_contract); Some "thirty_days"] ∧
  (retention <$> (p ≫= restarted contract_seed)) = Ok [Some "thirty_days"; Some "thirty_days"].
Proof. split; vm_compute; reflexivity. Qed.

(** An agent added again under the id of a removed one takes over its stored
    timeout at the next restart, and until then no timeout change commits. *)
Definition retime (seconds : Z) : admin_op :=
  PatchAgent "default" "main_agent" [(VStr "model_timeout_seconds", VInt seconds)] VNone VNone.

Definition readded : res pool_error (pool pool_file) :=
  after [retime 30; RemoveAgent "default" "main_agent";
         AddAgent "default" [(VStr "id", VStr "main_agent"); (VStr "model", VStr "llama-3")]] demo_seed.

Definition timeouts (p : pool pool_file) : list (string * option float) :=
  map (λ a, (id a, model_timeout_seconds a)) (ap_candidates p).

Theorem readded_agent_inherits_old_policy :
  (timeouts <$> readded) = Ok [("spare_agent", None); ("main_agent", None)] ∧
  ((λ p, (administer demo_pe (retime 60) p).2) <$> readded) = Ok (Raise (PoolStore policy_changed)) ∧
  (timeouts <$> (readded ≫= restarted demo_seed)) = Ok [("main_agent", Some (float_of_Z 30)); ("spare_agent", None)].
Proof. split_and!; vm_compute; reflexivity. Qed.
