(* ===== verification/Conduct.v ===== *)
(** orchestrator.py: [conduct]. A request becomes a plan of role steps; each step
    sees the original messages and the outputs its plan lists, is served by one
    guarded invocation, and the verified answer is chosen from the outputs.

    Receipts, timings, audit and analytics events are not part of the model. *)

From Stdlib Require Import Ascii String QArith Qcanon.
From S2P Require Import Prelude StateLogic PyString PyCollections PyFloat PyValue PyJson Exceptions ToolFallback.
From S2P Require Import ProviderErrors ModelGroup EndpointRace Agents AgentHealth Ranking Transport Failover.
From S2P Require Import ToolLoop Recovery Workflow Budget Judge Gateway.
Open Scope Z_scope.
Open Scope py_scope.

(** ** What a request runs against *)

Record conduct_env := {
  ce_ranking : ranking_env;
  ce_policy : OrchestrationPolicy;
  ce_probe : nat → probe_clock;              (* clock readings before the n-th invocation *)
  ce_prompt_bound : string → string → Z * string;   (* _prompt_token_lower_bound *)
  ce_planner : ModelAgent → list (string * list string) → res plan_error string;
  ce_json_loads : string → option pyval;
  ce_float_repr : float → string;
  ce_container_repr : pyval → string;
  ce_judge : judge_library;
  ce_count_text : string → string → option Z;
  ce_sha256_hex : string → string;
  ce_decimal : float → Qc;
  ce_float_of_decimal : Qc → float;
  ce_round6_sum : list float → float;
  ce_budget : budget_config;
  ce_request_id : option string;
  ce_memory_entries : nat;                   (* tool_loop_memory_max_entries *)
}.

Inductive plan_source := Template | Generated | TemplateFallback.

Global Instance plan_source_eq : EqDecision plan_source.
Proof. solve_decision. Defined.

(** A row of the trace. *)
Record conduct_row := {
  cr_step : WorkflowStep;
  cr_agent_id : string;
  cr_model : string;
  cr_output : string;
  cr_usage : option dict;
  cr_budget : option output_budget;
  cr_served : option string;                 (* served_agent_id, when it differs *)
}.

(** The row as accounting reads it. *)
Definition row_of (r : conduct_row) : trace_row :=
  {| row_agent_id := cr_agent_id r; row_served_agent_id := default "" (cr_served r);
     row_model_name := None; row_subtask := step_subtask (cr_step r); row_usage := cr_usage r;
     row_output := VStr (cr_output r) |}.

(** The local variables of the loop. *)
Record progress := {
  pr_outputs : gmap Z string;
  pr_trace : list conduct_row;
  pr_tool : option dict;                     (* tool_result *)
  pr_evidence : option tool_loop_evidence;
  pr_window : list string;                   (* context_window_excluded *)
  pr_bound : option (Z * string);            (* prompt_bound, prompt_bound_source *)
}.

Definition no_progress : progress :=
  {| pr_outputs := ∅; pr_trace := []; pr_tool := None; pr_evidence := None; pr_window := [];
     pr_bound := None |}.

(** What the flow fixed before the first step. *)
Record conduct_scope := {
  sp_messages : list message;
  sp_model_name : string;
  sp_task : string;
  sp_tags : list string;
  sp_instructions : string;
  sp_source : plan_source;
  sp_steps : list WorkflowStep;
  sp_requested : option ModelAgent;
  sp_free_ids : list string;
  sp_allowed : option (list string);         (* _allowed_agent_ids *)
}.

Definition free_only (sp : conduct_scope) : bool := String.eqb (sp_model_name sp) FREE_MODEL.

(** [free_ids if model_name == FREE_MODEL else _allowed_agent_ids]. *)
Definition step_allowed (sp : conduct_scope) : option (list string) :=
  if free_only sp then Some (sp_free_ids sp) else sp_allowed sp.

Definition is_worker (s : WorkflowStep) : bool := String.eqb (step_role s) "worker".

(** ** The messages of a step *)

Definition nl2 : string := list_str [chr 10; chr 10].
Definition nl : string := list_str [chr 10].

Definition output_at (outputs : gmap Z string) (i : Z) : res flow_error string :=
  match outputs !! i with Some o => Ok o | None => Raise (FlowKeyError (str_of_Z i)) end.

Definition accessed (outputs : gmap Z string) (access : list Z) : res flow_error string :=
  str_join nl2 <$>
    map_res (λ i, (λ o, str_join "" ["Step "; str_of_Z i; ": "; o]) <$> output_at outputs i) access.

Definition role_prompt (role instructions : string) : string :=
  str_join "" (["Role: "; role; nl;
                "Use only the original task and the accessed prior steps. ";
                "Return concise, directly useful work."] ++
               (if str_truthy instructions then [nl2; "Caller instructions:"; nl; instructions] else [])).

Definition step_instruction (prior subtask : string) : string :=
  str_join "" ["Accessed prior work:"; nl; prior; nl2; "Subtask:"; nl; subtask].

Definition step_messages (instructions : string) (messages : list message) (s : WorkflowStep)
    (prior : string) : list message :=
  [(VStr "role", VStr "system"); (VStr "content", VStr (role_prompt (step_role s) instructions))] ::
  messages ++
  [[(VStr "role", VStr "user"); (VStr "content", VStr (step_instruction prior (step_subtask s)))]].

Definition bound_of (b : option (Z * string)) : option Z := fst <$> b.

Section conduct.
Context `{Invoker} (ce : conduct_env).

Definition price_check (tokens : option Z) (cost : option float) : FLOW unit := λ g,
  (g, map_raise FlowBudget
        (_raise_if_spend_budget_exceeded (ce_float_of_decimal ce) (ce_budget ce) tokens cost (gw_meter g))).

(** The check before a step of a generated plan. *)
Definition in_flight_check (sp : conduct_scope) (p : progress) : FLOW unit :=
  if bool_decide (sp_source sp = Generated) then
    let '(tokens, cost) :=
      _trace_budget_spend (ce_count_text ce) (ce_round6_sum ce) (ce_budget ce)
        (re_agents (ce_ranking ce)) (map row_of (pr_trace p)) in
    price_check tokens cost
  else st.ret tt.

(** The step's agent, or a capable one when the request carries an image. *)
Definition capable_agent (sp : conduct_scope) (s : WorkflowStep) (a : ModelAgent) : FLOW ModelAgent := λ g,
  (g, if _agent_matches_required_tags a (sp_tags sp) then Ok a else
      match _ranked_agents (now_ranking (ce_ranking ce) g) (step_subtask s) (step_role s) (sp_tags sp)
              (free_only sp) true None None None with
      | Ok (b :: _) => Ok b
      | Ok [] => Ok a
      | Raise m =>
          match ranking_candidates (now_ranking (ce_ranking ce) g) (step_role s) (sp_tags sp) (free_only sp)
                  true None (re_agents (ce_ranking ce)) with
          | [] => Ok a                                    (* RuntimeError *)
          | _ => Raise (FlowValueError m)
          end
      end).

(** A worker of a virtual model goes back to the agent whose call the messages
    answer. *)
Definition worker_agent (sp : conduct_scope) (s : WorkflowStep) (a : ModelAgent)
    : FLOW (ModelAgent * option tool_loop_evidence) := λ g,
  if is_worker s && bool_decide (sp_requested sp = None) then
    match _failover_candidates (now_ranking (ce_ranking ce) g) (ce_probe ce (length (gw_invoked g))) a
            (step_subtask s) "worker" [] (step_allowed sp) None None true None (gw_health g) with
    | (h, Raise e) => (with_ledgers h (gw_router g) g, Raise (FlowInvoke (failover_outcome e)))
    | (h, Ok (candidates, _)) =>
        let '(candidates, evidence) :=
          _apply_tool_loop_route (gw_memory g) candidates (VList (map VDict (sp_messages sp))) in
        (with_ledgers h (gw_router g) g, Ok (default a (head candidates), evidence))
    end
  else (g, Ok (a, None)).

Definition step_bound (sp : conduct_scope) (s : WorkflowStep) (a : ModelAgent) : option (Z * string) :=
  if is_worker s && bool_decide (sp_requested sp = None)
  then Some (ce_prompt_bound ce (sp_task sp) (model a)) else None.

Definition step_call_of (sp : conduct_scope) (s : WorkflowStep) (a : ModelAgent) (prior : string)
    : step_call :=
  {| sc_agent := a; sc_messages := step_messages (sp_instructions sp) (sp_messages sp) s prior;
     sc_text := sp_task sp; sc_role := step_role s; sc_allowed := step_allowed sp;
     sc_shares_exclusions := true; sc_virtual := is_virtual_model (sp_model_name sp);
     sc_bound := bound_of (step_bound sp s a) |}.

Definition row_for (s : WorkflowStep) (a : ModelAgent) (r : step_reply) : conduct_row :=
  {| cr_step := s; cr_agent_id := id a; cr_model := model a; cr_output := sr_output r;
     cr_usage := sr_usage r; cr_budget := sr_budget r;
     cr_served := if String.eqb (sr_served_id r) (id a) then None else Some (sr_served_id r) |}.

(** A worker that answered with tool calls hands over to the caller. *)
Definition handed_over (s : WorkflowStep) (r : step_reply) : option pyval :=
  if is_worker s then extras_tool_calls (sr_extras r) else None.

Definition remember_calls (calls : pyval) (agent_id : string) : FLOW unit :=
  st.modify (λ g, with_memory (_record_tool_loop_agents (ce_memory_entries ce) calls (Some agent_id)
                                 (gw_memory g)) g).

(** One iteration; [true] leaves the loop. *)
Definition conduct_step (sp : conduct_scope) (s : WorkflowStep) (p : progress) : FLOW (progress * bool) :=
  let* _ := in_flight_check sp p in
  let* a := st.lift (_agent (ce_ranking ce) (step_agent_id s)) in
  let* a := capable_agent sp s a in
  let* routed := worker_agent sp s a in
  let a := routed.1 in
  let* prior := st.lift (accessed (pr_outputs p) (step_access s)) in
  let bound := step_bound sp s a in
  let* r := invoke (step_call_of sp s a prior) in
  let stop := handed_over s r in
  let p' :=
    {| pr_outputs := <[step_id s := sr_output r]> (pr_outputs p);
       pr_trace := pr_trace p ++ [row_for s a r];
       pr_tool := match stop with Some _ => sr_extras r | None => pr_tool p end;
       pr_evidence := match stop with
                      | Some _ => match routed.2 with Some e => Some e | None => pr_evidence p end
                      | None => None
                      end;
       pr_window := match bound with Some _ => append_new (pr_window p) (sr_window r) | None => pr_window p end;
       pr_bound := match bound with Some b => Some b | None => pr_bound p end |} in
  match stop with
  | Some calls => let* _ := remember_calls calls (or_str (sr_served_id r) (id a)) in st.ret (p', true)
  | None => st.ret (p', false)
  end.

Fixpoint conduct_steps (sp : conduct_scope) (steps : list WorkflowStep) (p : progress) : FLOW progress :=
  match steps with
  | [] => st.ret p
  | s :: steps =>
      let* done := conduct_step sp s p in
      if done.2 then st.ret done.1 else conduct_steps sp steps done.1
  end.

(** ** The plan *)

Definition virtual_plan_model (model_name : string) : bool :=
  in_strs model_name [GATEWAY_DEFAULT_MODEL; AUTO_MODEL].

(** A planner that fails leaves the template; only a budget error passes. *)
Definition make_plan (model_name task : string) (tags : list string)
    : FLOW (plan_source * list WorkflowStep) := λ g,
  let env := now_ranking (ce_ranking ce) g in
  (g, if negb (virtual_plan_model model_name)
      then (λ steps, (Template, steps)) <$> map_raise FlowPlan (_plan env task model_name tags) else
      if String.eqb (workflow_planning (ce_policy ce)) "generated" then
        match _plan_generated (ce_json_loads ce) (ce_float_repr ce) (ce_container_repr ce) env (ce_policy ce)
                (ce_planner ce) task with
        | Ok steps => Ok (Generated, steps)
        | Raise PlanBudgetExceeded => Raise (FlowPlan PlanBudgetExceeded)
        | Raise _ =>
            (λ steps, (TemplateFallback, steps)) <$>
              map_raise FlowPlan (_plan env task GATEWAY_DEFAULT_MODEL tags)
        end
      else (λ steps, (Template, steps)) <$> map_raise FlowPlan (_plan env task GATEWAY_DEFAULT_MODEL tags)).

(** Who may judge. *)
Definition judge_agent_ids (sp : conduct_scope) : option (list string) :=
  match sp_allowed sp, sp_requested sp with
  | Some l, _ => Some l
  | None, Some a =>
      Some (if str_truthy (group_name a)
            then map id (List.filter (λ c, String.eqb (group_name c) (group_name a) &&
                                           _zdr_agent_allowed (re_ctx (ce_ranking ce)) c)
                           (re_agents (ce_ranking ce)))
            else [id a])
  | None, None => if free_only sp then Some (sp_free_ids sp) else None
  end.

(** ** The verdict and the answer *)

Definition last_output (steps : list WorkflowStep) (outputs : gmap Z string) (role : string) : string :=
  match last (map step_id (List.filter (λ s, String.eqb (step_role s) role) steps)) with
  | Some i => default "" (outputs !! i)
  | None => ""
  end.

Definition nth_step (steps : list WorkflowStep) (i : nat) : res flow_error WorkflowStep :=
  match steps !! i with Some s => Ok s | None => Raise FlowIndexError end.

Definition last_step (steps : list WorkflowStep) : res flow_error WorkflowStep :=
  match last steps with Some s => Ok s | None => Raise FlowIndexError end.

Definition answer_of (outputs : gmap Z string) (s : res flow_error WorkflowStep) : res flow_error string :=
  s ≫= λ s, output_at outputs (step_id s).

Definition judge_answer (sp : conduct_scope) (verifier_output : string) : FLOW verification := λ g,
  (g, Ok (_model_judge_verification (ce_judge ce) (now_ranking (ce_ranking ce) g) (sp_task sp)
            verifier_output (free_only sp) (judge_agent_ids sp) (gw_excluded g) (sp_tags sp))).

Definition tool_answer (p : progress) : string :=
  match last (pr_trace p) with Some r => cr_output r | None => "" end.

Definition conclude (sp : conduct_scope) (p : progress) : FLOW (verification * string) :=
  let outputs := pr_outputs p in
  let required := verifier_required (ce_policy ce) in
  match pr_tool p with
  | Some _ =>
      let answer := tool_answer p in
      st.ret (unjudged "tool call requires caller execution" answer "tool_call", answer)
  | None =>
      if bool_decide (sp_source sp = Generated) then
        let steps := sp_steps sp in
        let* v := judge_answer sp (last_output steps outputs "verifier") in
        let* answer := st.lift (answer_of outputs (last_step steps)) in
        let worker := last_output steps outputs "worker" in
        st.ret (v, if negb (accepted v) && required && str_truthy worker then worker else answer)
      else
        let* v := judge_answer sp (default "" (outputs !! 2)) in
        let* answer :=
          st.lift (answer_of outputs (if required then last_step (sp_steps sp) else nth_step (sp_steps sp) 2)) in
        if negb (accepted v) && required
        then let* answer := st.lift (answer_of outputs (nth_step (sp_steps sp) 1)) in st.ret (v, answer)
        else st.ret (v, answer)
  end.

(** ** The request *)

Record conduct_result := {
  res_answer : string;
  res_trace : list conduct_row;
  res_verification : verification;
  res_plan_source : plan_source;
  res_output_budget : option output_budget;
  res_tool_calls : option (pyval * pyval);             (* tool_calls, finish_reason *)
  res_tool_loop : option tool_loop_evidence;
  res_window : option (Z * string * list string);
}.

Definition result_of (sp : conduct_scope) (p : progress) (v : verification) (answer : string) : conduct_result :=
  {| res_answer := answer; res_trace := pr_trace p; res_verification := v; res_plan_source := sp_source sp;
     res_output_budget := last (pr_trace p) ≫= cr_budget;
     res_tool_calls := (λ d, (dget "tool_calls" d, py_or (dget "finish_reason" d) (VStr "tool_calls"))) <$> pr_tool p;
     res_tool_loop := match pr_tool p with Some _ => pr_evidence p | None => None end;
     res_window := _with_context_window_evidence (pr_bound p) (pr_window p) |}.

(** The record stored under the run's id. *)
Definition run_of (run_id task : string) (r : conduct_result) : workflow_run :=
  {| wr_id := run_id; wr_request_id := None; wr_prompt_text := VStr task; wr_answer := VStr (res_answer r);
     wr_trace := map row_of (res_trace r);
     wr_tool_calls := match res_tool_calls r with Some (calls, _) => calls | None => VNone end;
     wr_verification := Some (v_base (res_verification r)) |}.

Definition RUN_ORDER_MAX : nat := 128.

Definition store_run (r : workflow_run) : FLOW unit :=
  st.modify (λ g,
    with_meter
      (_replace_workflow_run (ce_count_text ce) (ce_sha256_hex ce) (ce_decimal ce) (ce_budget ce)
         (re_candidates (ce_ranking ce)) (rq_zdr_only (re_ctx (ce_ranking ce))) false (ce_request_id ce) r
         (gw_meter g))
      (firstn RUN_ORDER_MAX (wr_id r :: gw_run_order g)) g).

Definition scope_of (messages : list message) (model_name : string) (allowed : option (list string))
    (plan : plan_source * list WorkflowStep) (requested : option ModelAgent) : conduct_scope :=
  {| sp_messages := messages; sp_model_name := model_name; sp_task := _latest_user_text messages;
     sp_tags := _image_input_required_tags messages; sp_instructions := caller_instructions messages;
     sp_source := plan.1; sp_steps := plan.2; sp_requested := requested;
     sp_free_ids := _free_pool_agent_ids (ce_ranking ce) (Some messages) None None; sp_allowed := allowed |}.

Definition conduct (messages : list message) (model_name : string) (run_id : option string)
    (allowed : option (list string)) : FLOW conduct_result :=
  let* _ := price_check (Some 0) (Some (float_of_Z 0)) in
  let task := _latest_user_text messages in
  let* plan := make_plan model_name task (_image_input_required_tags messages) in
  let* requested := λ g, (g, map_raise FlowPlan (_requested_agent (now_ranking (ce_ranking ce) g) model_name)) in
  let sp := scope_of messages model_name allowed plan requested in
  let* p := conduct_steps sp (sp_steps sp) no_progress in
  let* concluded := conclude sp p in
  let r := result_of sp p concluded.1 concluded.2 in
  match run_id with
  | None => st.ret r
  | Some run_id => let* _ := store_run (run_of run_id task r) in st.ret r
  end.
End conduct.

(** ** What one step does *)

Section step.
Context `{HI : Invoker} {HL : InvokerLaws HI} (ce : conduct_env).

Lemma worker_agent_moves sp s a g g' r : worker_agent ce sp s a g = (g', r) → moves (step_allowed sp) g g' [].
Proof.
  intros H. assert (∃ h, g' = with_ledgers h (gw_router g) g ∨ g' = g) as (h & [->| ->]); [| |apply moves_refl].
  - unfold worker_agent in H. destruct (_ && _); [|injection H as <- _; exists (gw_health g); by right].
    destruct (_failover_candidates _ _ _ _ _ _ _ _ _ _ _ _) as [h [[cs ex]|e]].
    + destruct (_apply_tool_loop_route _ _ _) as [cs' ev]. injection H as <- _. exists h. by left.
    + injection H as <- _. exists h. by left.
  - destruct (moves_refl (step_allowed sp) g) as (?&?&?&?&?). done.
Qed.

Definition step_error (sp : conduct_scope) (s : WorkflowStep) (p : progress) (e : flow_error) : Prop :=
  match e with
  | FlowKeyError k =>
      (find_agent (ce_ranking ce) (step_agent_id s) = None ∧ k = step_agent_id s) ∨
      accessed (pr_outputs p) (step_access s) = Raise e
  | FlowIndexError | FlowPlan _ => False
  | FlowBudget _ => sp_source sp = Generated
  | _ => True
  end.

Lemma accessed_error outputs access e :
  accessed outputs access = Raise e → ∃ i, i ∈ access ∧ outputs !! i = None ∧ e = FlowKeyError (str_of_Z i).
Proof.
  unfold accessed. destruct (map_res _ access) as [l|e'] eqn:Hm; cbn; [done|]. intros [= ->].
  induction access as [|i access IH]; cbn in Hm; [done|]. unfold output_at in Hm at 1.
  destruct (outputs !! i) as [o|] eqn:Ho; cbn in Hm.
  - destruct (map_res _ access) as [l|e'']; [done|]. destruct (IH Hm) as (j & Hj & ?). exists j. split; [by right|done].
  - injection Hm as <-. exists i. split_and!; [by left|done|done].
Qed.

Record stepped (sp : conduct_scope) (s : WorkflowStep) (p p' : progress) (stop : bool) (call : step_call)
    (row : conduct_row) : Prop := {
  sd_call : ∃ a prior, accessed (pr_outputs p) (step_access s) = Ok prior ∧ call = step_call_of ce sp s a prior;
  sd_row : cr_step row = s;
  sd_trace : pr_trace p' = pr_trace p ++ [row];
  sd_outputs : pr_outputs p' = <[step_id s := cr_output row]> (pr_outputs p);
  sd_stop : if stop then is_worker s = true ∧ is_Some (pr_tool p') else pr_tool p' = pr_tool p;
}.

Lemma conduct_step_spec sp s p g g' out :
  conduct_step ce sp s p g = (g', out) →
  match out with
  | Ok (p', stop) => ∃ call row, moves (step_allowed sp) g g' [call] ∧ stepped sp s p p' stop call row
  | Raise e => (∃ calls, moves (step_allowed sp) g g' calls) ∧ step_error sp s p e
  end.
Proof.
  intros H. unfold conduct_step in H.
  apply st_bind_inv in H as [(g1 & [] & Hb & H)|(e & Hb & ->)].
  2: { unfold in_flight_check, price_check in Hb. destruct (bool_decide_reflect (sp_source sp = Generated)); [|done].
       destruct (_trace_budget_spend _ _ _ _ _) as [t c]. injection Hb as <- Hb.
       split; [eexists; apply moves_refl|]. destruct (_raise_if_spend_budget_exceeded _ _ _ _ _); [done|].
       by injection Hb as <-. }
  assert (g1 = g) as ->.
  { unfold in_flight_check, price_check in Hb. destruct (bool_decide _); [|by injection Hb].
    destruct (_trace_budget_spend _ _ _ _ _) as [t c]. by injection Hb. }
  apply st_bind_inv in H as [(g1 & a0 & Ha & H)|(e & Ha & ->)].
  2: { unfold st.lift, _agent in Ha. injection Ha as <- Ha. split; [eexists; apply moves_refl|].
       destruct (find_agent _ _) eqn:Hf; [done|]. injection Ha as <-. left. done. }
  unfold st.lift in Ha. injection Ha as <- _.
  apply st_bind_inv in H as [(g1 & a1 & Ha & H)|(e & Ha & ->)].
  2: { unfold capable_agent in Ha. injection Ha as <- Ha. split; [eexists; apply moves_refl|].
       repeat case_match; simplify_eq; done. }
  unfold capable_agent in Ha. injection Ha as <- _.
  apply st_bind_inv in H as [(g1 & [a ev] & Ha & H)|(e & Ha & ->)].
  2: { split; [eexists; by eapply worker_agent_moves|]. unfold worker_agent in Ha. repeat case_match; simplify_eq; done. }
  apply worker_agent_moves in Ha as Hm1. cbn [fst snd] in H.
  apply st_bind_inv in H as [(g2 & prior & Hp & H)|(e & Hp & ->)].
  2: { unfold st.lift in Hp. injection Hp as <- Hp. split; [by eexists|].
       destruct (accessed_error _ _ _ Hp) as (i & _ & _ & ->). by right. }
  unfold st.lift in Hp. injection Hp as <- Hp.
  set (c := step_call_of ce sp s a prior) in *. pose proof (invoke_moves c g1) as Hm2.
  apply st_bind_inv in H as [(g2 & r & Hr & H)|(e & Hr & ->)]; rewrite Hr in Hm2; cbn in Hm2.
  2: { split; [eexists; by eapply moves_trans|].
       destruct (invoke_raises c (note_invoked c g1) e) as [[o ->]| ->]; [|done..].
       change ((invoke c g1).2 = Raise e). by rewrite Hr. }
  pose proof (moves_trans _ _ _ _ _ _ Hm1 Hm2) as Hm. cbn [app] in Hm.
  assert (Hst : ∀ (p' : progress) stop, pr_trace p' = pr_trace p ++ [row_for s a r] →
     pr_outputs p' = <[step_id s := sr_output r]> (pr_outputs p) →
     (if stop : bool then is_worker s = true ∧ is_Some (pr_tool p') else pr_tool p' = pr_tool p) →
     stepped sp s p p' stop c (row_for s a r)).
  { intros p' stop Ht Ho Hs. split; try done. by exists a, prior. }
  destruct (handed_over s r) as [calls|] eqn:Hh.
  - unfold st.bind, remember_calls, st.modify, st.ret in H. injection H as <- <-. exists c, (row_for s a r).
    split; [destruct Hm as (?&?&?&?&?); done|]. apply Hst; [done..|]. unfold handed_over in Hh.
    destruct (is_worker s); [|done]. split; [done|]. cbn. unfold extras_tool_calls in Hh.
    by destruct (sr_extras r).
  - injection H as <- <-. exists c, (row_for s a r). split; [done|]. by apply Hst.
Qed.
End step.

(** ** What the loop does *)

(** The steps that ran, as a relation: each was a step, and only the last may have
    handed over. *)
Inductive walk (ce : conduct_env) (sp : conduct_scope)
  : list WorkflowStep → progress → list step_call → list conduct_row → progress → Prop :=
| walk_end p : walk ce sp [] p [] [] p
| walk_stop s steps p p' c r :
    stepped ce sp s p p' true c r → walk ce sp (s :: steps) p [c] [r] p'
| walk_next s steps p p1 p' c r cs rs :
    stepped ce sp s p p1 false c r → walk ce sp steps p1 cs rs p' →
    walk ce sp (s :: steps) p (c :: cs) (r :: rs) p'.

(** The prior work a step is shown: one line per listed step, in order. *)
Definition shown (access : list Z) (outs : list string) : string :=
  str_join nl2 (zip_with (λ i o, str_join "" ["Step "; str_of_Z i; ": "; o]) access outs).

Lemma accessed_Ok outputs access prior :
  accessed outputs access = Ok prior →
  ∃ outs, Forall2 (λ i o, outputs !! i = Some o) access outs ∧ prior = shown access outs.
Proof.
  unfold accessed. destruct (map_res _ access) as [l|] eqn:Hm; [|done]. intros [= <-].
  apply map_res_Forall2 in Hm.
  assert (∃ outs, Forall2 (λ i o, outputs !! i = Some o) access outs ∧
    l = zip_with (λ i o, str_join "" ["Step "; str_of_Z i; ": "; o]) access outs) as (outs & Ho & ->).
  { induction Hm as [|i x access l Hi _ (outs & Ho & ->)]; [by exists []|]. unfold output_at in Hi.
    destruct (outputs !! i) as [o|] eqn:Hl; [|done]. injection Hi as <-. exists (o :: outs).
    split; [by constructor|done]. }
  by exists outs.
Qed.

(** Outputs and trace agree: the i-th output is the i-th row's. *)
Definition outputs_recorded (p : progress) : Prop :=
  ∀ i, pr_outputs p !! i = (if 0 <=? i then cr_output <$> pr_trace p !! Z.to_nat i else None).

Lemma stepped_recorded ce sp s p p' stop c r :
  stepped ce sp s p p' stop c r → step_id s = Z.of_nat (length (pr_trace p)) → outputs_recorded p → outputs_recorded p'.
Proof.
  intros [_ _ Ht Ho _] Hid Hrec i. rewrite Ho, Ht, Hid. destruct (decide (i = Z.of_nat (length (pr_trace p)))) as [->|Hne].
  - rewrite lookup_insert_eq, Nat2Z.id, lookup_app_r, Nat.sub_diag by lia.
    destruct (Z.leb_spec 0 (Z.of_nat (length (pr_trace p)))); [done|lia].
  - rewrite lookup_insert_ne by done. rewrite Hrec. destruct (Z.leb_spec 0 i); [|done].
    destruct (decide (i < Z.of_nat (length (pr_trace p)))).
    + by rewrite lookup_app_l by lia.
    + rewrite lookup_ge_None_2 by lia. rewrite lookup_app_r by lia.
      destruct (Z.to_nat i - length (pr_trace p))%nat as [|m] eqn:Hm; [lia|]. done.
Qed.

(** Steps numbered from [n] on that list only earlier steps. *)
Definition numbered (n : nat) (steps : list WorkflowStep) : Prop :=
  ∀ i s, steps !! i = Some s →
    step_id s = Z.of_nat (n + i) ∧ Forall (λ v, 0 <= v < Z.of_nat (n + i)) (step_access s).

Lemma numbered_cons n s steps :
  numbered n (s :: steps) →
  step_id s = Z.of_nat n ∧ Forall (λ v, 0 <= v < Z.of_nat n) (step_access s) ∧ numbered (S n) steps.
Proof.
  intros H. destruct (H 0%nat s eq_refl) as [Hid Hacc]. rewrite Nat.add_0_r in Hid, Hacc. split_and!; [done..|].
  intros i s' Hs. replace (S n + i)%nat with (n + S i)%nat by lia. by apply H.
Qed.

(** What a step's call was shown, read off the finished trace. *)
Definition saw_only (instructions : string) (messages : list message) (trace : list conduct_row)
    (row : conduct_row) (call : step_call) : Prop :=
  ∃ outs, Forall2 (λ i o, 0 <= i < step_id (cr_step row) ∧ cr_output <$> trace !! Z.to_nat i = Some o)
            (step_access (cr_step row)) outs ∧
    sc_messages call =
      [(VStr "role", VStr "system");
       (VStr "content", VStr (role_prompt (step_role (cr_step row)) instructions))] ::
      messages ++
      [[(VStr "role", VStr "user");
        (VStr "content", VStr (step_instruction (shown (step_access (cr_step row)) outs) (step_subtask (cr_step row))))]].

Lemma walk_spec ce sp steps p cs rs p' :
  walk ce sp steps p cs rs p' → outputs_recorded p → numbered (length (pr_trace p)) steps → pr_tool p = None →
  outputs_recorded p' ∧ pr_trace p' = pr_trace p ++ rs ∧ map cr_step rs `prefix_of` steps ∧
  (pr_tool p' = None → map cr_step rs = steps) ∧
  (is_Some (pr_tool p') → ∃ row, last rs = Some row ∧ is_worker (cr_step row) = true) ∧
  Forall2 (λ row call, sc_role call = step_role (cr_step row) ∧ sc_allowed call = step_allowed sp ∧
             saw_only (sp_instructions sp) (sp_messages sp) (pr_trace p') row call) rs cs.
Proof.
  assert (Hsaw : ∀ s p p' stop c r rest, stepped ce sp s p p' stop c r → outputs_recorded p →
    step_id s = Z.of_nat (length (pr_trace p)) → Forall (λ v, 0 <= v < Z.of_nat (length (pr_trace p))) (step_access s) →
    sc_role c = step_role (cr_step r) ∧ sc_allowed c = step_allowed sp ∧
    saw_only (sp_instructions sp) (sp_messages sp) (pr_trace p ++ rest) r c).
  { intros s q q' stop c r rest [(a & prior & Hp & ->) Hr _ _ _] Hrec Hid Hacc. rewrite Hr. split_and!; [done..|].
    apply accessed_Ok in Hp as (outs & Ho & ->). exists outs. rewrite Hr. split; [|done].
    rewrite Forall_forall in Hacc. apply Forall2_same_length_lookup_2; [by eapply Forall2_length|].
    intros k i o Hi Hko. specialize (Hacc i (list_elem_of_lookup_2 _ _ _ Hi)).
    pose proof (Forall2_lookup_lr _ _ _ _ _ _ Ho Hi Hko) as Hl. cbn in Hl. rewrite Hrec in Hl.
    destruct (Z.leb_spec 0 i); [|lia]. split; [lia|]. by rewrite lookup_app_l by lia. }
  induction 1 as [q|s steps q q' c r Hs|s steps q q1 q' c r cs rs Hs _ IH]; intros Hrec Hnum Htool.
  - split_and!; [done|by rewrite app_nil_r|done|done|by rewrite Htool; intros []|constructor].
  - apply numbered_cons in Hnum as (Hid & Hacc & _). split_and!.
    + by eapply stepped_recorded.
    + by destruct Hs.
    + destruct Hs as [_ <- _ _ _]. by exists steps.
    + intros Hn. destruct Hs as [_ _ _ _ [_ Ht]]. rewrite Hn in Ht. by destruct Ht.
    + intros _. exists r. split; [done|]. destruct Hs as [_ -> _ _ [Hw _]]. done.
    + constructor; [|constructor]. rewrite (sd_trace _ _ _ _ _ _ _ _ Hs). by eapply Hsaw.
  - apply numbered_cons in Hnum as (Hid & Hacc & Hnum).
    assert (Hlen : length (pr_trace q1) = S (length (pr_trace q)))
      by (rewrite (sd_trace _ _ _ _ _ _ _ _ Hs), length_app; cbn; lia).
    destruct IH as (Hr' & Ht' & Hpre & Hall & Hlast & Hf).
    { by eapply stepped_recorded. } { by rewrite Hlen. } { by rewrite (sd_stop _ _ _ _ _ _ _ _ Hs). }
    rewrite (sd_trace _ _ _ _ _ _ _ _ Hs), <- app_assoc in Ht'. split_and!.
    + done.
    + done.
    + cbn. rewrite (sd_row _ _ _ _ _ _ _ _ Hs). by apply prefix_cons.
    + intros Hn. cbn. by rewrite (sd_row _ _ _ _ _ _ _ _ Hs), (Hall Hn).
    + intros Hi. destruct (Hlast Hi) as (row & Hl & Hw). exists row. split; [|done]. by rewrite last_cons, Hl.
    + constructor; [|done]. rewrite Ht'. by eapply Hsaw.
Qed.

Section loop.
Context `{HI : Invoker} {HL : InvokerLaws HI} (ce : conduct_env).

Lemma conduct_steps_spec sp steps p g g' out :
  conduct_steps ce sp steps p g = (g', out) →
  (∃ calls, moves (step_allowed sp) g g' calls) ∧
  match out with
  | Ok p' => ∃ cs rs, moves (step_allowed sp) g g' cs ∧ walk ce sp steps p cs rs p'
  | Raise e => ∃ before s after cs rs p1,
      steps = before ++ s :: after ∧ walk ce sp before p cs rs p1 ∧ pr_tool p1 = pr_tool p ∧
      step_error ce sp s p1 e
  end.
Proof.
  revert p g. induction steps as [|s steps IH]; intros p g H; cbn in H.
  { injection H as <- <-. split; [eexists; apply moves_refl|]. exists [], []. split; [apply moves_refl|constructor]. }
  apply st_bind_inv in H as [(g1 & [p1 stop] & Hs & H)|(e & Hs & ->)];
    apply conduct_step_spec in Hs.
  2: { destruct Hs as [Hm He]. split; [done|]. exists [], s, steps, [], [], p. split_and!; [done|constructor|done|done]. }
  destruct Hs as (c & r & Hm & Hs). cbn [fst snd] in H. destruct stop.
  { injection H as <- <-. split; [by eexists|]. exists [c], [r]. split; [done|by constructor]. }
  apply IH in H as [(cs & Hcs) Hout]. split; [eexists; by eapply moves_trans|]. destruct out as [p'|e].
  - destruct Hout as (cs' & rs & Hm' & Hw). exists (c :: cs'), (r :: rs).
    split; [exact (moves_trans _ _ _ _ _ _ Hm Hm')|by econstructor].
  - destruct Hout as (before & s' & after & cs' & rs & p2 & -> & Hw & Ht & He).
    exists (s :: before), s', after, (c :: cs'), (r :: rs), p2. split_and!; [done|by econstructor| |done].
    by rewrite Ht, (sd_stop _ _ _ _ _ _ _ _ Hs).
Qed.
End loop.

(** ** The plan *)

Lemma find_agent_in env a :
  a ∈ re_candidates env → _agent_matches_request_endpoint (re_urlparse env) (re_ctx env) a = true →
  is_Some (find_agent env (id a)).
Proof.
  intros Ha Hm. unfold find_agent. destruct (List.find _ _) as [b|] eqn:Hf; [done|].
  apply list_elem_of_In in Ha. pose proof (List.find_none _ _ Hf a Ha) as Hn. cbn in Hn.
  by rewrite String.eqb_refl, Hm in Hn.
Qed.

Lemma may_play_found env role x : gateway_pool env → may_play env role x → is_Some (find_agent env x).
Proof.
  intros (_ & _ & Hag) (a & Ha & <- & _ & _ & _ & _ & Hm). apply find_agent_in; [|done].
  rewrite Hag in Ha. apply list_elem_of_In, filter_In in Ha as [Ha _]. by apply list_elem_of_In.
Qed.

Lemma first_enabled_in l a : first_enabled l = Some a → a ∈ l.
Proof.
  unfold first_enabled. destruct (List.find _ l) as [b|] eqn:Hf.
  - intros [= <-]. apply List.find_some in Hf as [Hf _]. by apply list_elem_of_In.
  - destruct l as [|b l]; [done|]. intros [= <-]. by left.
Qed.

Lemma group_members_sublist {E} (f : ModelAgent → res E string) (g : string) l grouped :
  map_res (λ a, (λ n, (a, n)) <$> f a) l = Ok grouped →
  map fst (List.filter (λ ag, String.eqb ag.2 g) grouped) `sublist_of` l.
Proof.
  intros H. apply map_res_Forall2 in H.
  induction H as [|a [b n] l grouped Ha _ IH]; [done|]. destruct (f a) as [n'|]; [|done].
  injection Ha as -> ->. cbn. destruct (String.eqb n g); cbn; [by apply sublist_skip|by apply sublist_cons].
Qed.

Lemma requested_agent_found env m a :
  gateway_pool env → _requested_agent env m = Ok (Some a) → is_Some (find_agent env (id a)).
Proof.
  intros (Hnd & Hev & _) H. specialize (Hev ""). unfold _requested_agent in H. destruct (is_virtual_model m); [done|].
  destruct (negb (str_truthy m)); [done|]. set (ms := List.filter _ (re_candidates env)) in H.
  assert (Hms : ∀ x, x ∈ ms → is_Some (find_agent env (id x))).
  { intros x Hx. apply list_elem_of_In, filter_In in Hx as [Hx Hb]. apply list_elem_of_In in Hx. bools.
    by apply find_agent_in. }
  destruct (_ || _).
  { destruct (first_enabled ms) as [b|] eqn:Hf; [|done]. injection H as <-. by apply Hms, first_enabled_in. }
  destruct (map_raise _ (map_res _ _)) as [grouped|] eqn:Hg; [|done]. apply map_raise_Ok in Hg.
  apply (group_members_sublist (λ a, canonical_group_name (group_name a))
           (match canonical_group_name m with Ok g => g | Raise _ => "" end)) in Hg.
  set (group := map fst _) in *.
  assert (Hsub : group `sublist_of` re_candidates env) by (etrans; [exact Hg|apply filter_sublist]).
  clearbody group. destruct group as [|c cs]; [done|].
  destruct (_ranked_agents env "" "worker" [] false true (Some (c :: cs)) None None) as [ranked|] eqn:Hr.
  2: { by destruct (ranking_candidates _ _ _ _ _ _ _). }
  destruct (first_enabled ranked) as [b|] eqn:Hf; [|done]. injection H as <-. apply first_enabled_in in Hf.
  destruct (ranked_agents_shape env "" "worker" [] false true (Some (c :: cs)) None None ranked) as (e & x & -> & Hp & _);
    [by eapply sublist_ids|done|done|].
  rewrite Hp in Hf. apply ranking_candidates_spec in Hf as [Hin Hc]. unfold ranking_candidate, request_admits in Hc.
  bools. apply find_agent_in; [|done]. eapply elem_of_sublist; [exact Hin|exact Hsub].
Qed.

(** The steps are in sequence and their agents are in the pool. *)
Definition runnable (env : ranking_env) (steps : list WorkflowStep) : Prop :=
  numbered 0 steps ∧ Forall (λ s, is_Some (find_agent env (step_agent_id s))) steps.

Lemma shapes_numbered steps :
  (∀ i s, steps !! i = Some s → shape_ok (Z.of_nat i) s) → numbered 0 steps.
Proof. intros H i s Hs. by destruct (H i s Hs) as (-> & _ & _ & _ & Hacc). Qed.

Lemma template_runnable env task m tags steps :
  gateway_pool env → _plan env task m tags = Ok steps →
  runnable env steps ∧ map step_role steps = PLAN_ROLES.
Proof.
  intros Hp H. destruct (template_well_formed env task m tags steps (gateway_pool_ok env Hp) H)
    as (Hroles & Hshape & Hv & Hpin). split; [|done]. split; [by apply shapes_numbered|].
  unfold _plan in H. apply bind_Ok_inv in H as ([a|] & Hreq & _).
  - eapply Forall_impl; [exact (Hpin a Hreq)|]. cbn. intros s ->. by eapply requested_agent_found.
  - eapply Forall_impl; [exact (Hv Hreq)|]. cbn. intros s Hs. by eapply may_play_found.
Qed.

Lemma generated_runnable loads fr cr env policy planner task steps :
  gateway_pool env → _plan_generated loads fr cr env policy planner task = Ok steps →
  runnable env steps ∧ plan_ok env policy steps.
Proof.
  intros Hp H. unfold _plan_generated in H. apply bind_Ok_inv in H as (a & _ & H).
  apply bind_Ok_inv in H as (offers & _ & H). apply bind_Ok_inv in H as (raw & _ & H).
  pose proof (accepted_plan_shape loads fr cr env policy raw steps (gateway_pool_ok env Hp) H) as Hok.
  split; [|done]. destruct Hok as (_ & Hall & _). split.
  - apply shapes_numbered. intros i s Hs. by apply Hall.
  - apply Forall_forall. intros s Hs. apply list_elem_of_lookup in Hs as [i Hi].
    destruct (Hall i s Hi) as [_ Hplay]. by eapply may_play_found.
Qed.

Lemma make_plan_spec ce m task tags g g' out :
  gateway_pool (ce_ranking ce) → make_plan ce m task tags g = (g', out) →
  g' = g ∧ match out with
  | Ok (src, steps) =>
      runnable (ce_ranking ce) steps ∧
      (src = Generated → plan_ok (now_ranking (ce_ranking ce) g) (ce_policy ce) steps) ∧
      (src ≠ Generated → map step_role steps = PLAN_ROLES)
  | Raise e => ∃ pe, e = FlowPlan pe
  end.
Proof.
  intros Hp H. unfold make_plan in H. injection H as <- H. split; [done|].
  set (env := now_ranking (ce_ranking ce) g) in *.
  assert (Hp' : gateway_pool env) by exact Hp.
  assert (Htemplate : ∀ src m, src ≠ Generated →
    (λ steps, (src, steps)) <$> map_raise FlowPlan (_plan env task m tags) = out →
    match out with
    | Ok (src, steps) => runnable (ce_ranking ce) steps ∧ (src = Generated → plan_ok env (ce_policy ce) steps) ∧
                         (src ≠ Generated → map step_role steps = PLAN_ROLES)
    | Raise e => ∃ pe, e = FlowPlan pe
    end).
  { intros src m' Hsrc <-. destruct (_plan env task m' tags) as [steps|pe] eqn:Hs; cbn; [|by exists pe].
    destruct (template_runnable env task m' tags steps Hp' Hs) as [Hr Hroles]. by split_and!. }
  destruct (virtual_plan_model m); cbn [negb] in H; [|by apply (Htemplate Template m)].
  destruct (String.eqb _ _); [|by apply (Htemplate Template GATEWAY_DEFAULT_MODEL)].
  destruct (_plan_generated _ _ _ _ _ _ _) as [steps|pe] eqn:Hg.
  - rewrite <- H. destruct (generated_runnable _ _ _ _ _ _ _ _ Hp' Hg) as [Hr Hok]. by split_and!.
  - destruct pe; try by apply (Htemplate TemplateFallback GATEWAY_DEFAULT_MODEL). rewrite <- H. by eexists.
Qed.

(** ** A whole request *)

Section request.
Context `{HI : Invoker} {HL : InvokerLaws HI} (ce : conduct_env).

(** The agents a request may reach. *)
Definition request_allowed (messages : list message) (model_name : string) (allowed : option (list string))
    : option (list string) :=
  if String.eqb model_name FREE_MODEL
  then Some (_free_pool_agent_ids (ce_ranking ce) (Some messages) None None) else allowed.

(** What happened between the plan and the answer. *)
Record conducted (messages : list message) (model_name : string) (allowed : option (list string))
    (g g1 : gateway) (r : conduct_result) (sp : conduct_scope) (p : progress) (calls : list step_call) : Prop := {
  cd_plan : make_plan ce model_name (_latest_user_text messages) (_image_input_required_tags messages) g =
              (g, Ok (sp_source sp, sp_steps sp));
  cd_requested : _requested_agent (now_ranking (ce_ranking ce) g) model_name = Ok (sp_requested sp);
  cd_scope : sp = scope_of ce messages model_name allowed (sp_source sp, sp_steps sp) (sp_requested sp);
  cd_moves : moves (request_allowed messages model_name allowed) g g1 calls;
  cd_walk : walk ce sp (sp_steps sp) no_progress calls (pr_trace p) p;
  cd_end : ∃ v answer, conclude ce sp p g1 = (g1, Ok (v, answer)) ∧ r = result_of sp p v answer;
}.

Lemma conclude_state sp p g g' out : conclude ce sp p g = (g', out) → g' = g.
Proof.
  unfold conclude. intros H. destruct (pr_tool p); [by injection H as <- _|].
  destruct (bool_decide _).
  all: apply st_bind_inv in H as [(g1 & v & Hv & H)|(e & Hv & ->)]; unfold judge_answer in Hv; injection Hv as <- Hv.
  all: try done; apply st_bind_inv in H as [(g2 & a & Ha & H)|(e & Ha & ->)];
    unfold st.lift in Ha; injection Ha as <- Ha; try done.
  - by injection H as <- _.
  - destruct (_ && _); [|by injection H as <- _].
    apply st_bind_inv in H as [(g3 & b & Hb & H)|(e & Hb & ->)]; unfold st.lift in Hb; injection Hb as <- Hb; [|done].
    by injection H as <- _.
Qed.

Lemma walk_prefix sp steps p cs rs p' : walk ce sp steps p cs rs p' → pr_trace p' = pr_trace p ++ rs.
Proof.
  induction 1 as [q|s steps q q' c r Hs|s steps q q1 q' c r cs rs Hs _ IH]; [by rewrite app_nil_r|by destruct Hs|].
  by rewrite IH, (sd_trace _ _ _ _ _ _ _ _ Hs), <- app_assoc.
Qed.

Lemma conduct_cases messages model_name run_id allowed g g' out :
  conduct ce messages model_name run_id allowed g = (g', out) →
  match out with
  | Ok r => ∃ g1 sp p calls, conducted messages model_name allowed g g1 r sp p calls ∧
      g' = match run_id with
           | None => g1
           | Some run_id => (store_run ce (run_of run_id (_latest_user_text messages) r) g1).1
           end
  | Raise e => (∃ calls, moves (request_allowed messages model_name allowed) g g' calls) ∧
      ((∃ b, e = FlowBudget b) ∨
       (make_plan ce model_name (_latest_user_text messages) (_image_input_required_tags messages) g = (g', Raise e)) ∨
       (∃ pe, e = FlowPlan pe) ∨
       ∃ sp, make_plan ce model_name (_latest_user_text messages) (_image_input_required_tags messages) g =
               (g, Ok (sp_source sp, sp_steps sp)) ∧
         ((∃ before s after cs rs p, sp_steps sp = before ++ s :: after ∧ walk ce sp before no_progress cs rs p ∧
             pr_tool p = None ∧ step_error ce sp s p e) ∨
          ∃ cs rs p, walk ce sp (sp_steps sp) no_progress cs rs p ∧ (conclude ce sp p g').2 = Raise e))
  end.
Proof.
  intros H. unfold conduct in H.
  apply st_bind_inv in H as [(g0 & [] & Hb & H)|(e & Hb & ->)]; unfold price_check in Hb; injection Hb as <- Hb.
  2: { split; [eexists; apply moves_refl|]. left. destruct (_raise_if_spend_budget_exceeded _ _ _ _ _); [done|].
       injection Hb as <-. by eexists. }
  apply st_bind_inv in H as [(g0 & [src steps] & Hp & H)|(e & Hp & ->)].
  2: { assert (g' = g) as -> by (unfold make_plan in Hp; by injection Hp).
       split; [eexists; apply moves_refl|]. by right; left. }
  assert (g0 = g) as -> by (unfold make_plan in Hp; by injection Hp).
  apply st_bind_inv in H as [(g0 & requested & Hr & H)|(e & Hr & ->)]; injection Hr as <- Hr.
  2: { split; [eexists; apply moves_refl|]. right; right; left.
       destruct (_requested_agent _ _); [done|]. injection Hr as <-. by eexists. }
  apply map_raise_Ok in Hr.
  set (sp := scope_of ce messages model_name allowed (src, steps) requested) in *.
  apply st_bind_inv in H as [(g1 & p & Hs & H)|(e & Hs & ->)]; apply conduct_steps_spec in Hs as [(cs0 & Hm) Hs].
  2: { split; [by exists cs0|].
       right; right; right. exists sp. split; [done|]. left.
       destruct Hs as (before & s & after & cs & rs & p & ? & ? & ? & ?). exists before, s, after, cs, rs, p. done. }
  destruct Hs as (calls & rs & Hm' & Hw). pose proof (walk_prefix _ _ _ _ _ _ Hw) as Htr. cbn in Htr. subst rs.
  apply st_bind_inv in H as [(g2 & [v answer] & Hc & H)|(e & Hc & ->)]; apply conclude_state in Hc as Hg; subst.
  2: { split; [by exists calls|].
       right; right; right. exists sp. split; [done|]. right. exists calls, (pr_trace p), p. split; [done|]. by rewrite Hc. }
  cbn [fst snd] in H. destruct run_id as [run_id|].
  - unfold st.bind, store_run, st.modify, st.ret in H. injection H as <- <-. exists g1, sp, p, calls.
    split; [|done]. split; try done. by exists v, answer.
  - injection H as <- <-. exists g1, sp, p, calls. split; [|done]. split; try done. by exists v, answer.
Qed.

Lemma no_progress_recorded : outputs_recorded no_progress.
Proof. intros i. cbn. rewrite lookup_empty. by destruct (0 <=? i). Qed.

Lemma conducted_plan messages m allowed g g1 r sp p calls :
  gateway_pool (ce_ranking ce) → conducted messages m allowed g g1 r sp p calls →
  runnable (ce_ranking ce) (sp_steps sp) ∧
  (sp_source sp = Generated → plan_ok (now_ranking (ce_ranking ce) g) (ce_policy ce) (sp_steps sp)) ∧
  (sp_source sp ≠ Generated → map step_role (sp_steps sp) = PLAN_ROLES) ∧
  outputs_recorded p ∧ map cr_step (pr_trace p) `prefix_of` sp_steps sp ∧
  (pr_tool p = None → map cr_step (pr_trace p) = sp_steps sp) ∧
  (is_Some (pr_tool p) → ∃ row, last (pr_trace p) = Some row ∧ is_worker (cr_step row) = true) ∧
  Forall2 (λ row call, sc_role call = step_role (cr_step row) ∧ sc_allowed call = step_allowed sp ∧
             saw_only (sp_instructions sp) (sp_messages sp) (pr_trace p) row call) (pr_trace p) calls.
Proof.
  intros Hp [Hplan _ _ _ Hw _]. destruct (make_plan_spec _ _ _ _ _ _ _ Hp Hplan) as [_ (Hrun & Hgen & Htmp)].
  destruct (walk_spec _ _ _ _ _ _ _ Hw no_progress_recorded (proj1 Hrun) eq_refl)
    as (Hrec & _ & Hpre & Hall & Hlast & Hf). done.
Qed.

(** C4. A conducted request follows its plan: the trace is the plan's steps in order,
    cut short only after a worker whose answer asks the caller to run a tool;
    there is one invocation per row, of the row's role; and the messages of each
    are the request's own, the caller's instructions and the outputs of exactly
    the earlier steps its plan lists, and nothing else. *)
Theorem conduct_follows_plan messages model_name run_id allowed g g' r :
  gateway_pool (ce_ranking ce) →
  conduct ce messages model_name run_id allowed g = (g', Ok r) →
  ∃ steps calls,
    make_plan ce model_name (_latest_user_text messages) (_image_input_required_tags messages) g =
      (g, Ok (res_plan_source r, steps)) ∧
    gw_invoked g' = gw_invoked g ++ calls ∧
    map cr_step (res_trace r) `prefix_of` steps ∧
    (res_tool_calls r = None → map cr_step (res_trace r) = steps) ∧
    (is_Some (res_tool_calls r) → ∃ row, last (res_trace r) = Some row ∧ is_worker (cr_step row) = true) ∧
    Forall2 (λ row call, sc_role call = step_role (cr_step row) ∧
               saw_only (caller_instructions messages) messages (res_trace r) row call) (res_trace r) calls.
Proof.
  intros Hp H. apply conduct_cases in H as (g1 & sp & p & calls & Hc & ->).
  destruct (conducted_plan _ _ _ _ _ _ _ _ _ Hp Hc) as (_ & _ & _ & _ & Hpre & Hall & Hlast & Hf).
  destruct Hc as [Hplan _ Hsp Hm _ (v & answer & _ & ->)]. exists (sp_steps sp), calls. cbn. split_and!.
  - done.
  - destruct Hm as (_ & _ & _ & Hi & _). by destruct run_id.
  - done.
  - intros Ht. apply Hall. by destruct (pr_tool p).
  - intros Ht. apply Hlast. by destruct (pr_tool p); [|destruct Ht].
  - eapply Forall2_impl; [exact Hf|]. cbn. intros row call (Hr & _ & Hs). split; [done|]. rewrite Hsp in Hs. exact Hs.
Qed.


Lemma answer_at sp p i s :
  outputs_recorded p → map cr_step (pr_trace p) = sp_steps sp → numbered 0 (sp_steps sp) →
  sp_steps sp !! i = Some s → ∃ row, pr_trace p !! i = Some row ∧ cr_step row = s ∧
    output_at (pr_outputs p) (step_id s) = Ok (cr_output row).
Proof.
  intros Hrec Htr Hnum Hs. rewrite <- Htr in Hs. rewrite list_lookup_fmap in Hs.
  destruct (pr_trace p !! i) as [row|] eqn:Hr; [|done]. injection Hs as Hs. exists row. split_and!; [done..|].
  destruct (Hnum i s) as [-> _]; [by rewrite <- Htr, list_lookup_fmap, Hr, <- Hs|].
  unfold output_at. rewrite Hrec. cbn [Nat.add]. destruct (Z.leb_spec 0 (Z.of_nat i)); [|lia].
  by rewrite Nat2Z.id, Hr.
Qed.

Lemma last_index {A} (l : list A) x : last l = Some x → l !! (length l - 1)%nat = Some x.
Proof. by rewrite last_lookup, Nat.sub_1_r. Qed.

Lemma last_output_row sp p role :
  outputs_recorded p → map cr_step (pr_trace p) = sp_steps sp → numbered 0 (sp_steps sp) →
  last_output (sp_steps sp) (pr_outputs p) role ≠ "" →
  ∃ row, row ∈ pr_trace p ∧ step_role (cr_step row) = role ∧
    cr_output row = last_output (sp_steps sp) (pr_outputs p) role.
Proof.
  intros Hrec Htr Hnum. unfold last_output. destruct (last (map _ _)) as [k|] eqn:Hl; [|done].
  intros _. apply last_Some_elem_of in Hl. apply list_elem_of_fmap in Hl as (s & -> & Hs).
  apply list_elem_of_In, filter_In in Hs as [Hs Hr]. apply String.eqb_eq in Hr.
  apply list_elem_of_In, list_elem_of_lookup in Hs as [i Hi].
  destruct (answer_at sp p i s Hrec Htr Hnum Hi) as (row & Hrow & <- & Ho). exists row.
  split_and!; [by eapply list_elem_of_lookup_2|done|]. unfold output_at in Ho.
  destruct (pr_outputs p !! step_id (cr_step row)); [|done]. by injection Ho as ->.
Qed.

Lemma unjudged_empty lib env task free allowed excluded tags :
  accepted (_model_judge_verification lib env task "" free allowed excluded tags) = false.
Proof. done. Qed.

(** What the choice of an answer promises. *)
Definition answered (required : bool) (trace : list conduct_row) (v : verification) (answer : string) : Prop :=
  (∃ row, row ∈ trace ∧ cr_output row = answer) ∧
  (accepted v = true → ∃ row, row ∈ trace ∧ step_role (cr_step row) = "verifier" ∧ cr_output row ≠ "") ∧
  (required = true →
     (accepted v = true → cr_output <$> last trace = Some answer) ∧
     (accepted v = false →
        (∃ row, row ∈ trace ∧ is_worker (cr_step row) = true ∧ cr_output row = answer) ∨
        (cr_output <$> last trace = Some answer ∧
         ∀ row, last (List.filter (λ row, is_worker (cr_step row)) trace) = Some row → cr_output row = ""))).

Lemma last_output_empty sp p :
  outputs_recorded p → map cr_step (pr_trace p) = sp_steps sp → numbered 0 (sp_steps sp) →
  last_output (sp_steps sp) (pr_outputs p) "worker" = "" →
  ∀ row, last (List.filter (λ row, is_worker (cr_step row)) (pr_trace p)) = Some row → cr_output row = "".
Proof.
  intros Hrec Htr Hnum He row Hrow.
  assert (Hl : last (map step_id (List.filter (λ s, String.eqb (step_role s) "worker") (sp_steps sp))) =
               Some (step_id (cr_step row))).
  { rewrite <- Htr, filter_map_swap. rewrite map_map. etrans; [apply (fmap_last (λ r, step_id (cr_step r)))|]. unfold is_worker in Hrow. by rewrite Hrow. }
  unfold last_output in He. rewrite Hl in He. apply last_Some_elem_of in Hrow.
  apply list_elem_of_In, filter_In in Hrow as [Hin _]. apply list_elem_of_In, list_elem_of_lookup in Hin as [i Hi].
  destruct (answer_at sp p i (cr_step row) Hrec Htr Hnum) as (row' & Hr' & _ & Ho);
    [by rewrite <- Htr, list_lookup_fmap, Hi|].
  assert (row' = row) as -> by congruence. unfold output_at in Ho.
  destruct (pr_outputs p !! step_id (cr_step row)); [|done]. cbn in He. subst. by injection Ho as <-.
Qed.

Lemma conclude_generated sp p g :
  outputs_recorded p → map cr_step (pr_trace p) = sp_steps sp → numbered 0 (sp_steps sp) → pr_tool p = None →
  sp_source sp = Generated → is_Some (last (sp_steps sp)) →
  ∃ v answer, conclude ce sp p g = (g, Ok (v, answer)) ∧
    answered (verifier_required (ce_policy ce)) (pr_trace p) v answer.
Proof.
  intros Hrec Htr Hnum Htool Hs Hl. unfold conclude. rewrite Htool, bool_decide_true by done.
  destruct Hl as [s Hl]. pose proof (last_index _ _ Hl) as Hi.
  destruct (answer_at sp p _ s Hrec Htr Hnum Hi) as (row & Hrow & _ & Ho).
  assert (Hlast : last (pr_trace p) = Some row).
  { rewrite last_lookup, <- Nat.sub_1_r. by rewrite <- Htr, length_fmap in Hrow. }
  unfold st.bind, judge_answer, last_step, st.lift, st.ret, answer_of. rewrite Hl. cbn [mbind res_bind]. rewrite Ho.
  set (v := _model_judge_verification _ _ _ _ _ _ _ _). eexists v, _. split; [done|].
  assert (Hv : accepted v = true → ∃ row, row ∈ pr_trace p ∧ step_role (cr_step row) = "verifier" ∧ cr_output row ≠ "").
  { intros Ha. destruct (last_output_row sp p "verifier" Hrec Htr Hnum) as (vr & Hvr & Hr & Hvo).
    - intros He. unfold v in Ha. rewrite He in Ha. by rewrite unjudged_empty in Ha.
    - exists vr. split_and!; [done..|]. rewrite Hvo. intros He. unfold v in Ha. rewrite He in Ha.
      by rewrite unjudged_empty in Ha. }
  destruct (str_truthy (last_output (sp_steps sp) (pr_outputs p) "worker")) eqn:Hw.
  + destruct (last_output_row sp p "worker" Hrec Htr Hnum) as (wr & Hwr & Hrole & Hwo); [by apply str_truthy_spec|].
    assert (is_worker (cr_step wr) = true) by (unfold is_worker; by apply String.eqb_eq).
    destruct (accepted v) eqn:Ha, (verifier_required (ce_policy ce)); cbn [negb andb];
      (split; [|split; [rewrite Ha; auto|]]); rewrite ?Ha;
      try (exists row; split; [by eapply list_elem_of_lookup_2|done]); try (by exists wr); try done.
    * intros _. split; [|done]. by rewrite Hlast.
    * intros _. split; [done|]. intros _. left. by exists wr.
  + assert (Hwe : last_output (sp_steps sp) (pr_outputs p) "worker" = "").
    { destruct (last_output _ _ _) eqn:He in Hw |- *; [done|]. done. }
    rewrite andb_false_r. split; [exists row; split; [by eapply list_elem_of_lookup_2|done]|]. split; [done|].
    intros _. rewrite Hlast. split; [done|]. intros _. right. split; [done|].
    by apply (last_output_empty sp).
Qed.

Lemma conclude_template sp p g :
  outputs_recorded p → map cr_step (pr_trace p) = sp_steps sp → numbered 0 (sp_steps sp) → pr_tool p = None →
  sp_source sp ≠ Generated → map step_role (sp_steps sp) = PLAN_ROLES →
  ∃ v answer, conclude ce sp p g = (g, Ok (v, answer)) ∧
    answered (verifier_required (ce_policy ce)) (pr_trace p) v answer.
Proof.
  intros Hrec Htr Hnum Htool Hs Htmp. unfold conclude. rewrite Htool, bool_decide_false by done.
  assert (Hrow : ∀ i role, PLAN_ROLES !! i = Some role →
    ∃ s row, sp_steps sp !! i = Some s ∧ pr_trace p !! i = Some row ∧ cr_step row = s ∧
      step_role (cr_step row) = role ∧ output_at (pr_outputs p) (step_id s) = Ok (cr_output row) ∧
      pr_outputs p !! Z.of_nat i = Some (cr_output row)).
  { intros i role Hr. rewrite <- Htmp, list_lookup_fmap in Hr. destruct (sp_steps sp !! i) as [s|] eqn:Hi; [|done].
    injection Hr as Hr. destruct (answer_at sp p i s Hrec Htr Hnum Hi) as (row & H1 & H2 & H3).
    exists s, row. split_and!; try done; [by rewrite H2|]. rewrite Hrec.
    destruct (Z.leb_spec 0 (Z.of_nat i)); [|lia]. by rewrite Nat2Z.id, H1. }
  destruct (Hrow 1%nat "worker" eq_refl) as (s1 & r1 & Hs1 & Hr1 & _ & Hrole1 & Ho1 & _).
  destruct (Hrow 2%nat "verifier" eq_refl) as (s2 & r2 & Hs2 & Hr2 & _ & Hrole2 & Ho2 & Hk2).
  destruct (Hrow 3%nat "synthesizer" eq_refl) as (s3 & r3 & Hs3 & Hr3 & _ & _ & Ho3 & _).
  assert (Hlen : length (sp_steps sp) = 4%nat) by (rewrite <- (length_map step_role), Htmp; done).
  assert (Hl : last (sp_steps sp) = Some s3) by (by rewrite last_lookup, Hlen).
  assert (Hlr : last (pr_trace p) = Some r3) by (by rewrite last_lookup, <- (length_map cr_step), Htr, Hlen).
  unfold st.bind, judge_answer, last_step, nth_step, st.lift, st.ret, answer_of. rewrite Hl, Hs1, Hs2.
  change 2 with (Z.of_nat 2). rewrite Hk2. cbn [mbind res_bind default from_option Datatypes.id].
  set (v := _model_judge_verification _ _ _ _ _ _ _ _).
  assert (Hv : accepted v = true → ∃ row, row ∈ pr_trace p ∧ step_role (cr_step row) = "verifier" ∧ cr_output row ≠ "").
  { intros Ha. exists r2. split_and!; [by eapply list_elem_of_lookup_2|done|]. intros He. unfold v in Ha.
    rewrite He in Ha. by rewrite unjudged_empty in Ha. }
  assert (is_worker (cr_step r1) = true) by (unfold is_worker; by apply String.eqb_eq).
  destruct (verifier_required (ce_policy ce)); cbn [mbind res_bind]; rewrite ?Ho3, ?Ho2, ?Ho1.
  + destruct (accepted v) eqn:Ha; cbn [negb andb]; eexists v, _; (split; [done|]); (split; [|split; [rewrite Ha; auto|]]); rewrite ?Ha.
    * exists r3. split; [by eapply list_elem_of_lookup_2|done].
    * intros _. split; [by rewrite Hlr|done].
    * exists r1. split; [by eapply list_elem_of_lookup_2|done].
    * intros _. split; [done|]. intros _. left. exists r1. split; [by eapply list_elem_of_lookup_2|done].
  + rewrite andb_false_r. eexists v, _. split; [done|]. split; [|split; [done|done]].
    exists r2. split; [by eapply list_elem_of_lookup_2|done].
Qed.

(** The answer of a plan that ran to its end is the output of one of its steps. *)
Lemma conclude_plan sp p g :
  outputs_recorded p → map cr_step (pr_trace p) = sp_steps sp → numbered 0 (sp_steps sp) → pr_tool p = None →
  (sp_source sp = Generated → is_Some (last (sp_steps sp))) →
  (sp_source sp ≠ Generated → map step_role (sp_steps sp) = PLAN_ROLES) →
  ∃ v answer, conclude ce sp p g = (g, Ok (v, answer)) ∧
    answered (verifier_required (ce_policy ce)) (pr_trace p) v answer.
Proof.
  intros Hrec Htr Hnum Htool Hgen Htmp. destruct (decide (sp_source sp = Generated)) as [Hs|Hs].
  - apply conclude_generated; auto.
  - apply conclude_template; auto.
Qed.

(** The answer is the work of the plan: an output of one of its steps. An accepted
    verdict rests on a verifier step that reported something; when the policy
    requires the verifier, an accepted answer is the last step's and a rejected
    one falls back to a worker's, unless the last worker said nothing. *)
Theorem conduct_answers_from_plan messages model_name run_id allowed g g' r :
  gateway_pool (ce_ranking ce) →
  conduct ce messages model_name run_id allowed g = (g', Ok r) →
  res_tool_calls r = None →
  answered (verifier_required (ce_policy ce)) (res_trace r) (res_verification r) (res_answer r).
Proof.
  intros Hp H Ht. apply conduct_cases in H as (g1 & sp & p & calls & Hc & _).
  destruct (conducted_plan _ _ _ _ _ _ _ _ _ Hp Hc) as ([Hnum _] & Hgen & Htmp & Hrec & _ & Hall & _ & _).
  destruct Hc as [_ _ _ _ _ (v & answer & Hcon & ->)]. cbn in Ht |- *.
  assert (Htool : pr_tool p = None) by (by destruct (pr_tool p)).
  destruct (conclude_plan sp p g1 Hrec (Hall Htool) Hnum Htool) as (v' & answer' & Hcon' & Ha); [|exact Htmp|congruence].
  intros Hs. destruct (Hgen Hs) as (_ & _ & s & Hl & _). by exists s.
Qed.

(** A conducted request never misses what its plan promised: over the gateway's own
    pool no step, and not the choice of the answer, ends in a missing output, a
    missing agent or an index out of range. *)
Theorem conduct_never_misses messages model_name run_id allowed g g' e :
  gateway_pool (ce_ranking ce) →
  conduct ce messages model_name run_id allowed g = (g', Raise e) →
  (∀ k, e ≠ FlowKeyError k) ∧ e ≠ FlowIndexError.
Proof.
  intros Hp H. apply conduct_cases in H as (_ & [(b & ->)|[He|[(pe & ->)|(sp & Hplan & He)]]]).
  1,3: done.
  { destruct (make_plan_spec _ _ _ _ _ _ _ Hp He) as (_ & pe & ->). done. }
  destruct (make_plan_spec _ _ _ _ _ _ _ Hp Hplan) as (_ & [Hnum Hfound] & Hgen & Htmp).
  destruct He as [(before & s & after & cs & rs & p & Hsteps & Hw & Ht & He)|(cs & rs & p & Hw & He)].
  - assert (Hnb : numbered 0 before).
    { intros i s' Hi. apply Hnum. rewrite Hsteps. by apply lookup_app_l_Some. }
    destruct (walk_spec _ _ _ _ _ _ _ Hw no_progress_recorded Hnb eq_refl) as (Hrec & Htr & _ & Hall & _).
    cbn in Htr. rewrite <- Htr in Hall. specialize (Hall Ht).
    assert (Hs : sp_steps sp !! length before = Some s) by (by rewrite Hsteps, list_lookup_middle).
    destruct (Hnum _ _ Hs) as [_ Hacc]. unfold step_error in He. destruct e; try done. exfalso.
    destruct He as [[Hf _]|Ha].
    + rewrite Forall_forall in Hfound. destruct (Hfound s (list_elem_of_lookup_2 _ _ _ Hs)) as [a Hfa]. congruence.
    + apply accessed_error in Ha as (i & Hi & Hn & _). rewrite Forall_forall in Hacc. specialize (Hacc i Hi).
      rewrite Hrec in Hn. destruct (Z.leb_spec 0 i); [|lia].
      assert (Hlt : (Z.to_nat i < length (pr_trace p))%nat)
        by (rewrite <- (length_map cr_step), Hall; cbn in Hacc; lia).
      apply lookup_lt_is_Some in Hlt as [row Hrow]. by rewrite Hrow in Hn.
  - destruct (walk_spec _ _ _ _ _ _ _ Hw no_progress_recorded Hnum eq_refl) as (Hrec & Htr & _ & Hall & _).
    cbn in Htr. rewrite <- Htr in Hall. destruct (pr_tool p) eqn:Ht.
    { exfalso. unfold conclude in He. rewrite Ht in He. done. }
    destruct (conclude_plan sp p g' Hrec (Hall eq_refl) Hnum Ht) as (v & a & Hc & _); [|exact Htmp|].
    + intros Hs. destruct (Hgen Hs) as (_ & _ & s & Hl & _). by exists s.
    + by rewrite Hc in He.
Qed.
End request.

(** ** Requests over a small pool *)

Definition demo_conduct (pool : list ModelAgent) (planning : string) (required : bool) (plan : string)
    (budget : budget_config) : conduct_env :=
  {| ce_ranking := demo_env pool;
     ce_policy := {| route_p95_seconds := float_of_Z 2; realtime_judge := true; verifier_required := required;
                     workflow_planning := planning; max_workflow_steps := 6 |};
     ce_probe := λ _, {| pc_circuit := λ _, f0; pc_rate := λ _, f0 |};
     ce_prompt_bound := λ s _, (str_len s, "characters");
     ce_planner := λ _ _, Ok plan; ce_json_loads := json_read; ce_float_repr := λ _, "";
     ce_container_repr := λ _, ""; ce_judge := JudgeInstalled (demo_judge true (Projection (VList [VInt 1; VInt 0])));
     ce_count_text := demo_count; ce_sha256_hex := λ s, s; ce_decimal := λ _, 2%Qc;
     ce_float_of_decimal := λ _, f0; ce_round6_sum := λ _, f0; ce_budget := budget;
     ce_request_id := None; ce_memory_entries := 4 |}.

Definition no_budget : budget_config :=
  {| bc_prices := ∅; bc_max_output_tokens := None; bc_max_cost_usd := None |}.

Definition demo_generated : conduct_env :=
  demo_conduct demo_pool "generated" true (Workflow.demo_reply) no_budget.

Abbreviation run_demo ce := (conduct (H := scripted) ce demo_messages GATEWAY_DEFAULT_MODEL (Some "r1") None fresh_gateway).

(** A view of the result of the demonstration request. *)
Definition seen {A} (ce : conduct_env) (f : conduct_result → A) : option A :=
  match (run_demo ce).2 with Ok r => Some (f r) | Raise _ => None end.

Definition is_none {A} (o : option A) : bool := match o with None => true | Some _ => false end.

Lemma is_none_spec {A} (o : option A) : is_none o = true → o = None.
Proof. by destruct o. Qed.

(** A workflow of a plan runs: the accepted answer is the synthesizer's. *)
Lemma conduct_answers_from_plan_witness :
  ∃ g' r, run_demo demo_generated = (g', Ok r) ∧ res_answer r = "by the synthesizer" ∧
    accepted (res_verification r) = true ∧ answered true (res_trace r) (res_verification r) (res_answer r).
Proof.
  assert (Hv : seen demo_generated (λ r, (is_none (res_tool_calls r), res_answer r, accepted (res_verification r))) =
               Some (true, "by the synthesizer", true)) by (vm_compute; reflexivity).
  unfold seen in Hv. destruct (run_demo demo_generated) as [g' [r|e]] eqn:Hr; [|done]. cbn [snd] in Hv.
  injection Hv as Ht Ha Hv. apply is_none_spec in Ht. exists g', r.
  split; [reflexivity|]. split; [exact Ha|]. split; [exact Hv|].
  exact (conduct_answers_from_plan (HI := scripted) (HL := scripted_laws) demo_generated demo_messages
           GATEWAY_DEFAULT_MODEL (Some "r1") None fresh_gateway g' r demo_pool_gateway Hr Ht).
Defined.

Lemma conduct_follows_plan_witness :
  ∃ g' r, run_demo demo_generated = (g', Ok r) ∧ map cr_step (res_trace r) = demo_plan ∧
    map sc_role (gw_invoked g') = PLAN_ROLES ∧
    ∃ calls, gw_invoked g' = calls ∧ length calls = length (res_trace r).
Proof.
  assert (Hc : map sc_role (gw_invoked (run_demo demo_generated).1) = PLAN_ROLES) by (vm_compute; reflexivity).
  assert (Ht : seen demo_generated (λ r, map cr_step (res_trace r)) = Some demo_plan) by (vm_compute; reflexivity).
  unfold seen in Ht. destruct (run_demo demo_generated) as [g' [r|e]] eqn:Hr; [|done]. cbn [fst snd] in Ht, Hc.
  injection Ht as Ht. exists g', r.
  split; [reflexivity|]. split; [exact Ht|]. split; [exact Hc|].
  destruct (conduct_follows_plan (HI := scripted) (HL := scripted_laws) demo_generated demo_messages
           GATEWAY_DEFAULT_MODEL (Some "r1") None fresh_gateway g' r demo_pool_gateway Hr)
    as (steps & calls & _ & Hi & _ & _ & _ & Hf). exists calls. split; [exact Hi|].
  symmetry. by eapply Forall2_length.
Defined.

(** A planner that exhausts the budget ends the request; nothing is missed. *)
Lemma conduct_never_misses_witness :
  let ce := demo_conduct demo_pool "generated" true "" {| bc_prices := ∅; bc_max_output_tokens := Some 0; bc_max_cost_usd := None |} in
  ∃ e, (run_demo ce).2 = Raise e ∧ e = FlowBudget BudgetExceeded ∧ e ≠ FlowIndexError.
Proof.
  intros ce. assert (He : match (run_demo ce).2 with Ok _ => None | Raise e => Some e end =
                          Some (FlowBudget BudgetExceeded)) by (vm_compute; reflexivity).
  destruct (run_demo ce) as [g' [r|e]] eqn:Hr; [done|]. cbn [snd] in He. injection He as He.
  exists e. split; [done|]. split; [exact He|].
  exact (proj2 (conduct_never_misses (HI := scripted) (HL := scripted_laws) ce demo_messages
           GATEWAY_DEFAULT_MODEL (Some "r1") None fresh_gateway g' e demo_pool_gateway Hr)).
Defined.

Definition storm_conduct : conduct_env :=
  demo_conduct [demo_agent "a" "m1" "https://a.example" []] "template" true "" no_budget.


(** The fixed plan answers with the verifier's report when the policy does not
    require the verifier: its answer is then the third step's output, while the
    synthesizer, whose step is to produce the final answer, is the fourth; the
    same roles planned by a model answer with the synthesizer's output. *)
Theorem template_answers_with_report :
  let template := demo_conduct demo_pool "template" false "" no_budget in
  let generated := demo_conduct demo_pool "generated" false (Workflow.demo_reply) no_budget in
  seen template (λ r, (accepted (res_verification r),
                       map (λ row, (step_role (cr_step row), cr_output row)) (drop 2 (res_trace r)), res_answer r)) =
    Some (true, [("verifier", "by the verifier"); ("synthesizer", "by the synthesizer")], "by the verifier") ∧
  seen generated res_answer = Some "by the synthesizer".
Proof. split; vm_compute; reflexivity. Qed.
