(* ===== verification/RouteOnce.v ===== *)
(** orchestrator.py: [route_once]. One selected worker answers; while the realtime
    judge rejects the answer and the retry budget lasts, the next ranked worker is
    asked. Every verdict feeds the quality ledger.

    Receipts, timings and the contextual psychometric ledger are not modelled. *)

From Stdlib Require Import Ascii String.
From S2P Require Import Prelude StateLogic PyString PyCollections PyFloat PyValue Exceptions ToolFallback.
From S2P Require Import ProviderErrors ModelGroup EndpointRace Agents AgentHealth Ranking Transport Failover.
From S2P Require Import ToolLoop Recovery Workflow Budget Judge Gateway.
Open Scope Z_scope.
Open Scope py_scope.

Record route_env := {
  rt_ranking : ranking_env;
  rt_policy : OrchestrationPolicy;
  rt_prompt_bound : string → string → Z * string;     (* _prompt_token_lower_bound *)
  rt_prompt_context : list message → option string;   (* _prompt_interaction *)
  rt_judge : judge_library;
  rt_latency : nat → float;                            (* seconds of the n-th invocation *)
  rt_now : nat → float;                                (* clock of the quality ledger *)
  rt_tool_retry_attempts : Z;
  rt_memory_entries : nat;
}.

Record route_row := {
  rr_id : Z;
  rr_agent_id : string;
  rr_model : string;
  rr_output : string;
  rr_usage : option dict;
  rr_budget : option output_budget;
  rr_served : option string;                 (* served_agent_id, when it differs *)
  rr_realtime_judge : bool * string;         (* accepted, reason *)
}.

(** What the flow fixed before the first attempt. *)
Record route_scope := {
  ro_messages : list message;
  ro_text : string;
  ro_tags : list string;
  ro_free_only : bool;
  ro_virtual : bool;
  ro_allowed : option (list string);
  ro_bound : option (Z * string);
}.

(** The local variables of the loop. *)
Record attempts := {
  at_tried : gset string;
  at_rows : list route_row;                  (* trace_rows *)
  at_answer : string;
  at_served : string;
  at_verification : verification;
  at_route : option route_evidence;
  at_extras : option dict;
  at_window : list string;
}.

Definition not_attempted : verification :=
  {| v_base := {| rv_accepted := false; rv_reason := "no candidate attempted"; rv_verifier_output := VStr "";
                  rv_judge_agent_id := None; rv_judge_model := None; rv_judge_usage := None;
                  rv_judge_output_text := VNone |};
     v_judge := Some "model"; v_mode := None; v_scores := None; v_irt_row := None |}.

Definition no_attempts : attempts :=
  {| at_tried := ∅; at_rows := []; at_answer := ""; at_served := ""; at_verification := not_attempted;
     at_route := None; at_extras := None; at_window := [] |}.

(** The evidence of one more attempt joins what the earlier ones left. *)
Definition join_route (route current : option route_evidence) (served_id served_model : string)
    : option route_evidence :=
  match current, route with
  | Some c, Some r =>
      Some (_route_evidence_payload (fromkeys (eligible_agent_ids r ++ eligible_agent_ids c))
              (attempted r ++ attempted c) (terminal_reason c))
  | Some c, None => Some c
  | None, Some r =>
      Some (_route_evidence_payload (fromkeys (eligible_agent_ids r ++ [served_id]))
              (attempted r ++
               [{| at_agent_id := served_id; at_model := served_model; at_outcome := "served";
                   at_error_code := None; at_provider_status := None; at_retryable := None;
                   at_transport := None |}]) "served")
  | None, None => None
  end.

Section route.
Context `{Invoker} (rt : route_env).

Definition max_attempts : Z := 1 + Z.min (rt_tool_retry_attempts rt) MAX_TOOL_RETRY_ATTEMPTS.

Definition route_call (ro : route_scope) (a : ModelAgent) : step_call :=
  {| sc_agent := a; sc_messages := ro_messages ro; sc_text := ro_text ro; sc_role := "worker";
     sc_allowed := ro_allowed ro; sc_shares_exclusions := false; sc_virtual := ro_virtual ro;
     sc_bound := fst <$> ro_bound ro |}.

(** The verdict on an answer: none when the caller has a tool to run. *)
Definition verdict_on (ro : route_scope) (r : step_reply) : FLOW verification := λ g,
  match extras_tool_calls (sr_extras r) with
  | Some _ => (g, Ok (unjudged "tool call requires caller execution" (sr_output r) "tool_call"))
  | None =>
      let n := length (gw_invoked g) in
      let '(quality, v) :=
        _realtime_route_judge (rt_judge rt) (now_ranking (rt_ranking rt) g) (rt_policy rt)
          (lg_quality_cfg (re_ledgers (rt_ranking rt))) (ro_text ro) (sr_output r) (sr_served_id r)
          (Some (rt_latency rt n)) (sr_usage r) (ro_free_only ro) (ro_tags ro) (rt_now rt n) (gw_quality g) in
      (with_quality quality g, map_raise FlowValueError v)
  end.

Definition route_row_of (index : Z) (a : ModelAgent) (r : step_reply) (v : verification) : route_row :=
  {| rr_id := index; rr_agent_id := id a; rr_model := model a; rr_output := sr_output r;
     rr_usage := sr_usage r; rr_budget := sr_budget r;
     rr_served := if String.eqb (sr_served_id r) (id a) then None else Some (sr_served_id r);
     rr_realtime_judge := (accepted v, reason v) |}.

Definition route_attempt (ro : route_scope) (index : Z) (a : ModelAgent) (st : attempts) : FLOW attempts :=
  let* r := invoke (route_call ro a) in
  let* v := verdict_on ro r in
  st.ret {| at_tried := {[ id a ]} ∪ at_tried st; at_rows := at_rows st ++ [route_row_of index a r v];
            at_answer := sr_output r; at_served := sr_served_id r; at_verification := v;
            at_route := join_route (at_route st) (sr_route r) (sr_served_id r) (sr_served_model r);
            at_extras := sr_extras r; at_window := append_new (at_window st) (sr_window r) |}.

Fixpoint route_loop (ro : route_scope) (index : Z) (pool : list ModelAgent) (st : attempts) : FLOW attempts :=
  match pool with
  | [] => st.ret st
  | a :: pool =>
      if max_attempts <=? Z.of_nat (size (at_tried st)) then st.ret st else
      let* st := route_attempt ro index a st in
      if accepted (at_verification st) then st.ret st else route_loop ro (index + 1) pool st
  end.

(** The candidates, in the order they are asked. *)
Definition route_pool (text : string) (tags : list string) (free_only : bool) (context : option string)
    (requested : option ModelAgent) : FLOW (list ModelAgent) := λ g,
  (g, match requested with
      | Some a => Ok [a]
      | None =>
          let env := now_ranking (rt_ranking rt) g in
          match _ranked_agents env text "worker" tags free_only true None context None with
          | Ok ranked => Ok ranked
          | Raise m =>
              match ranking_candidates env "worker" tags free_only true None (re_agents env), tags with
              | _ :: _, _ => Raise (FlowValueError m)
              | [], [] => Raise (FlowRuntimeError m)
              | [], _ => Raise (FlowValueError (String.append "no enabled model supports required tags: "
                                                  (str_join ", " tags)))
              end
          end
      end).

Record route_result := {
  rs_answer : string;
  rs_verification : verification;
  rs_trace : list route_row;
  rs_output_budget : option output_budget;
  rs_tool_calls : option pyval;
  rs_finish_reason : option pyval;
  rs_tool_loop : option tool_loop_evidence;
  rs_window : option (Z * string * list string);
  rs_route : option route_evidence;
}.

Definition empty_row : route_row :=
  {| rr_id := 0; rr_agent_id := ""; rr_model := ""; rr_output := ""; rr_usage := None; rr_budget := None;
     rr_served := None; rr_realtime_judge := (false, "") |}.

(** [{**verification, "verifier_output": answer}]. *)
Definition with_verifier_output (answer : string) (v : verification) : verification :=
  let b := v_base v in
  {| v_base := {| rv_accepted := rv_accepted b; rv_reason := rv_reason b; rv_verifier_output := VStr answer;
                  rv_judge_agent_id := rv_judge_agent_id b; rv_judge_model := rv_judge_model b;
                  rv_judge_usage := rv_judge_usage b; rv_judge_output_text := rv_judge_output_text b |};
     v_judge := v_judge v; v_mode := v_mode v; v_scores := v_scores v; v_irt_row := v_irt_row v |}.

Definition final_row (st : attempts) : route_row := default empty_row (last (at_rows st)).

Definition route_result_of (ro : route_scope) (tool_loop : option tool_loop_evidence) (st : attempts) : route_result :=
  {| rs_answer := at_answer st; rs_verification := with_verifier_output (at_answer st) (at_verification st);
     rs_trace := [final_row st]; rs_output_budget := rr_budget (final_row st);
     rs_tool_calls := extras_tool_calls (at_extras st);
     rs_finish_reason := at_extras st ≫= λ d, let v := dget "finish_reason" d in if truthy v then Some v else None;
     rs_tool_loop := tool_loop; rs_window := _with_context_window_evidence (ro_bound ro) (at_window st);
     rs_route := at_route st |}.

(** A served tool call is remembered; an empty served id counts as none. *)
Definition remember_served (st : attempts) : FLOW unit :=
  match extras_tool_calls (at_extras st) with
  | Some calls =>
      st.modify (λ g, with_memory (_record_tool_loop_agents (rt_memory_entries rt) calls
                                     (if str_truthy (at_served st) then Some (at_served st) else None)
                                     (gw_memory g)) g)
  | None => st.ret tt
  end.

(** What [route_once] fixes before the first attempt: the scope, the candidates in
    the order they are asked, the tool-loop evidence. *)
Definition route_prepare (messages : list message) (model_name : string)
    : FLOW (route_scope * list ModelAgent * option tool_loop_evidence) :=
  let text := _latest_user_text messages in
  let free_only := String.eqb model_name FREE_MODEL in
  let tags := _image_input_required_tags messages in
  let* requested := λ g, (g, map_raise FlowPlan (_requested_agent (now_ranking (rt_ranking rt) g) model_name)) in
  let* pool := route_pool text tags free_only (rt_prompt_context rt messages) requested in
  let bound :=
    match requested, pool with
    | None, a :: _ => Some (rt_prompt_bound rt text (model a))
    | _, _ => None
    end in
  let free_ids := _free_pool_agent_ids (rt_ranking rt) (Some messages) None None in
  let ro :=
    {| ro_messages := messages; ro_text := text; ro_tags := tags; ro_free_only := free_only;
       ro_virtual := is_virtual_model model_name; ro_allowed := if free_only then Some free_ids else None;
       ro_bound := bound |} in
  λ g, (g, Ok match requested with
              | None =>
                  let '(pool, evidence) := _apply_tool_loop_route (gw_memory g) pool (VList (map VDict messages)) in
                  (ro, pool, evidence)
              | Some _ => (ro, pool, None)
              end).

Definition route_once (messages : list message) (model_name : string) : FLOW route_result :=
  let* prepared := route_prepare messages model_name in
  let '(ro, pool, tool_loop) := prepared in
  let* st := route_loop ro 0 pool no_attempts in
  let* _ := remember_served st in
  st.ret (route_result_of ro tool_loop st).

(** The row as accounting reads it. *)
Definition spend_row (r : route_row) : trace_row :=
  {| row_agent_id := rr_agent_id r; row_served_agent_id := default "" (rr_served r); row_model_name := None;
     row_subtask := "Direct route"; row_usage := rr_usage r; row_output := VStr (rr_output r) |}.
End route.

(** ** What one attempt does *)

(** The answer was not accepted. *)
Definition rejected (row : route_row) : Prop := (rr_realtime_judge row).1 = false.

(** Who answered a row. *)
Definition row_served (row : route_row) : string := default (rr_agent_id row) (rr_served row).

Section attempt.
Context `{HI : Invoker} {HL : InvokerLaws HI} (rt : route_env).

Definition quality_cfg : router_config := lg_quality_cfg (re_ledgers (rt_ranking rt)).

(** The ledger after a rejected answer, and after any answer of an agent. *)
Definition after_rejection (q : group_router) (row : route_row) : group_router :=
  observe_failure quality_cfg (row_served row) q.

Definition fed_by (q q' : group_router) (row : route_row) : Prop :=
  (rejected row → q' = after_rejection q row) ∧
  (¬ rejected row → q' = q ∨ ∃ latency tokens now,
     observe_success quality_cfg (row_served row) latency tokens None now q = Ok q').

(** The same gateway, its quality ledger apart. *)
Definition besides_quality (permitted : option (list string)) (g g' : gateway) (calls : list step_call) : Prop :=
  moves permitted g (with_quality (gw_quality g) g') calls.

Lemma besides_refl permitted g : besides_quality permitted g g [].
Proof. destruct (moves_refl permitted g) as (?&?&?&?&?). by split_and!. Qed.

Lemma besides_trans permitted g1 g2 g3 c1 c2 :
  besides_quality permitted g1 g2 c1 → besides_quality permitted g2 g3 c2 →
  besides_quality permitted g1 g3 (c1 ++ c2).
Proof.
  intros (_ & Hm & Ho & Hi & l & Hc & Hl) (_ & Hm' & Ho' & Hi' & l' & Hc' & Hl'). cbn in *.
  split_and!; cbn; [done|congruence..|by rewrite Hi', Hi, app_assoc|].
  exists (l ++ l'). rewrite Hc', Hc, app_assoc. split; [done|]. by apply Forall_app.
Qed.

Lemma besides_moves permitted g g' calls : moves permitted g g' calls → besides_quality permitted g g' calls.
Proof. intros (_ & Hm & Ho & Hi & Hc). by split_and!. Qed.

Lemma besides_with_quality permitted g g' q calls :
  besides_quality permitted g g' calls → besides_quality permitted g (with_quality q g') calls.
Proof. done. Qed.

Lemma realtime_judge_feeds env lib policy cfg text answer served latency usage free tags now q q' out :
  _realtime_route_judge lib env policy cfg text answer served latency usage free tags now q = (q', out) →
  match out with
  | Ok v => (accepted v = false → q' = observe_failure cfg served q) ∧
            (accepted v = true → q' = q ∨ ∃ tokens, observe_success cfg served latency tokens None now q = Ok q')
  | Raise _ => q' = q
  end.
Proof.
  unfold _realtime_route_judge. destruct (realtime_judge policy); cbn [negb].
  - set (v := _model_judge_verification _ _ _ _ _ _ _ _). unfold record_verdict. destruct (accepted v) eqn:Ha.
    + destruct (observe_success _ _ _ _ _ _ _) eqn:Hs; intros [= <- <-]; [|done].
      split; [congruence|]. intros _. right. by eexists.
    + intros [= <- <-]. split; [done|congruence].
  - intros [= <- <-]. split; [done|]. by left.
Qed.

Lemma served_of_row index a r v : row_served (route_row_of index a r v) = sr_served_id r.
Proof. unfold row_served. cbn. by destruct (String.eqb_spec (sr_served_id r) (id a)). Qed.

Lemma route_attempt_spec ro index a st g g' out :
  route_attempt rt ro index a st g = (g', out) →
  besides_quality (ro_allowed ro) g g' [route_call ro a] ∧
  match out with
  | Ok st' => ∃ row, at_rows st' = at_rows st ++ [row] ∧ rr_agent_id row = id a ∧ at_answer st' = rr_output row ∧
      at_tried st' = {[ id a ]} ∪ at_tried st ∧ accepted (at_verification st') = (rr_realtime_judge row).1 ∧
      fed_by (gw_quality g) (gw_quality g') row
  | Raise _ => gw_quality g' = gw_quality g
  end.
Proof.
  intros H. unfold route_attempt in H. pose proof (invoke_moves (route_call ro a) g) as Hm.
  apply st_bind_inv in H as [(g1 & r & Hr & H)|(e & Hr & ->)]; rewrite Hr in Hm; cbn in Hm.
  2: { split; [by apply besides_moves|by destruct Hm]. }
  assert (Hq : gw_quality g1 = gw_quality g) by (by destruct Hm). apply besides_moves in Hm.
  apply st_bind_inv in H as [(g2 & v & Hv & H)|(e & Hv & ->)]; unfold verdict_on in Hv.
  2: { destruct (extras_tool_calls _); [done|]. destruct (_realtime_route_judge _ _ _ _ _ _ _ _ _ _ _ _ _) as [q v] eqn:Hj.
       injection Hv as <- Hv. split; [by apply besides_with_quality|]. apply realtime_judge_feeds in Hj.
       destruct v; [done|]. cbn. by rewrite Hj, Hq. }
  assert (Hfed : besides_quality (ro_allowed ro) g g2 [route_call ro a] ∧
                 fed_by (gw_quality g) (gw_quality g2) (route_row_of index a r v)).
  { unfold fed_by, rejected, after_rejection. rewrite served_of_row. cbn [rr_realtime_judge route_row_of fst].
    destruct (extras_tool_calls _).
    - injection Hv as <- <-. split; [done|]. split; [done|]. intros _. by left.
    - destruct (_realtime_route_judge _ _ _ _ _ _ _ _ _ _ _ _ _) as [q v'] eqn:Hj.
      injection Hv as <- Hv. split; [by apply besides_with_quality|]. apply realtime_judge_feeds in Hj.
      destruct v' as [v'|]; [|done]. injection Hv as ->. rewrite Hq in Hj. destruct Hj as [Hf Ht]. cbn.
      split; [done|]. intros Hn. apply not_false_is_true in Hn. destruct (Ht Hn) as [?|(tokens & Hs)]; [by left|].
      right. eauto. }
  injection H as <- <-. destruct Hfed as [Hb Hfed]. split; [done|].
  exists (route_row_of index a r v). by split_and!.
Qed.

(** The rows of a loop: agents of the pool in order, rejected up to the last. *)
Record loop_rows (pool : list ModelAgent) (left : Z) (st st' : attempts) (rows : list route_row)
    (q q' : group_router) : Prop := {
  lr_rows : at_rows st' = at_rows st ++ rows;
  lr_agents : map rr_agent_id rows `prefix_of` map id pool;
  lr_left : Z.of_nat (length rows) <= left;
  lr_rejected : ∀ row, row ∈ removelast rows → rejected row;
  lr_state : match last rows with
             | None => st' = st ∧ q' = q
             | Some row => at_answer st' = rr_output row ∧ accepted (at_verification st') = (rr_realtime_judge row).1 ∧
                           fed_by (fold_left after_rejection (removelast rows) q) q' row
             end;
  lr_stop : (∃ row, last rows = Some row ∧ ¬ rejected row) ∨ length rows = length pool ∨ Z.of_nat (length rows) = left;
}.

Lemma loop_rows_nil pool left st q :
  0 <= left → pool = [] ∨ left = 0 → loop_rows pool left st st [] q q.
Proof.
  intros Hl Hp. split; cbn.
  - by rewrite app_nil_r.
  - apply prefix_nil.
  - lia.
  - by intros row ?%elem_of_nil.
  - done.
  - right. destruct Hp as [-> | ->]; [by left|by right].
Qed.

Lemma route_loop_spec ro pool : ∀ index st g g' out,
  NoDup (ids pool) → (∀ x, x ∈ ids pool → x ∉ at_tried st) →
  Z.of_nat (size (at_tried st)) <= max_attempts rt →
  route_loop rt ro index pool st g = (g', out) →
  ∃ tried, besides_quality (ro_allowed ro) g g' (map (route_call ro) tried) ∧ tried `prefix_of` pool ∧
    Z.of_nat (length tried) <= max_attempts rt - Z.of_nat (size (at_tried st)) ∧
    match out with
    | Ok st' => ∃ rows, map rr_agent_id rows = ids tried ∧
        loop_rows pool (max_attempts rt - Z.of_nat (size (at_tried st))) st st' rows (gw_quality g) (gw_quality g')
    | Raise _ => True
    end.
Proof.
  induction pool as [|a pool IH]; intros index st g g' out Hnd Hfresh Hle H; cbn [route_loop] in H.
  { injection H as <- <-. exists []. split_and!; [apply besides_refl|done|cbn; lia|]. exists []. split; [done|].
    apply loop_rows_nil; [lia|by left]. }
  apply NoDup_cons in Hnd as [Ha Hnd].
  destruct (Z.leb_spec (max_attempts rt) (Z.of_nat (size (at_tried st)))) as [Hmax|Hmax].
  { injection H as <- <-. exists []. split_and!; [apply besides_refl|apply prefix_nil|cbn; lia|]. exists [].
    split; [done|]. apply loop_rows_nil; [lia|right; lia]. }
  apply st_bind_inv in H as [(g1 & st1 & Hs & H)|(e & Hs & ->)]; apply route_attempt_spec in Hs as [Hb Hs].
  2: { exists [a]. split_and!; [done|by exists pool|cbn; lia|done]. }
  destruct Hs as (row & Hrows & Hid & Hans & Htried & Hacc & Hfed).
  assert (Hsize : size (at_tried st1) = S (size (at_tried st))).
  { rewrite Htried, size_union, size_singleton; [done|]. apply disjoint_singleton_l. apply Hfresh. by left. }
  destruct (accepted (at_verification st1)) eqn:Hv.
  { injection H as <- <-. exists [a]. split_and!; [done|by exists pool|cbn; lia|]. exists [row].
    split; [cbn; by rewrite Hid|]. assert (Hnr : ¬ rejected row) by (unfold rejected; congruence).
    split; cbn.
    - done.
    - rewrite Hid. by exists (map id pool).
    - lia.
    - by intros ? ?%elem_of_nil.
    - split_and!; [done|congruence|done].
    - left. by exists row. }
  assert (Hrej : rejected row) by (unfold rejected; congruence).
  destruct (IH (index + 1) st1 g1 g' out Hnd) as (tried & Hb' & Hpre & Hlen & Hout); [| |done|].
  { intros x Hx. rewrite Htried, elem_of_union, elem_of_singleton. intros [->|Hin]; [done|].
    by apply (Hfresh x); [right|]. }
  { rewrite Hsize. lia. }
  exists (a :: tried). split_and!.
  - exact (besides_trans _ _ _ _ _ _ Hb Hb').
  - by apply prefix_cons.
  - cbn. lia.
  - destruct out as [st'|]; [|done]. destruct Hout as (rows & Hids & [Hr Hag Hl Hrj Hst Hstop]).
    exists (row :: rows). split; [cbn; by rewrite Hid, Hids|].
    destruct Hfed as [Hfr _]. specialize (Hfr Hrej). split; cbn [map length].
    + by rewrite Hr, Hrows, <- app_assoc.
    + rewrite Hid. by apply prefix_cons.
    + lia.
    + destruct rows as [|r0 rows]; [by intros ? ?%elem_of_nil|]. intros x. change (removelast (row :: r0 :: rows)) with (row :: removelast (r0 :: rows)).
      intros [->|Hx]%elem_of_cons; [done|by apply Hrj].
    + destruct rows as [|r0 rows].
      * cbn in Hst. destruct Hst as [-> ->]. split_and!; [done|congruence|]. split; [done|]. done.
      * change (removelast (row :: r0 :: rows)) with (row :: removelast (r0 :: rows)).
        change (last (row :: r0 :: rows)) with (last (r0 :: rows)). cbn [fold_left]. rewrite <- Hfr.
        destruct (last (r0 :: rows)) eqn:He; [exact Hst|by apply last_None in He].
    + destruct Hstop as [(x & Hx & Hn)|[Hstop|Hstop]].
      * left. exists x. split; [|done]. destruct rows; [done|]. exact Hx.
      * right; left. by rewrite Hstop.
      * right; right. lia.
Qed.
End attempt.

(** ** A whole request *)

Section request.
Context `{HI : Invoker} {HL : InvokerLaws HI} (rt : route_env).

Lemma route_pool_spec text tags free context requested g g' out :
  gateway_pool (rt_ranking rt) → route_pool rt text tags free context requested g = (g', out) →
  g' = g ∧ match out with Ok pool => NoDup (ids pool) ∧ pool ≠ [] | Raise _ => True end.
Proof.
  intros Hp H. unfold route_pool in H. injection H as <- <-. split; [done|]. destruct requested as [a|].
  { split; [apply NoDup_singleton|done]. }
  pose proof (gateway_pool_ok _ (gateway_pool_now _ g Hp)) as [Hnd _].
  destruct (_ranked_agents _ _ _ _ _ _ _ _ _) as [ranked|m] eqn:Hr; [|by repeat case_match].
  destruct Hp as (_ & Hev & _).
  destruct (ranked_agents_shape _ _ _ _ _ _ None _ _ ranked Hnd (Hev _) Hr) as (e & x & -> & Hperm & _).
  split.
  - rewrite (ids_perm _ _ Hperm). by apply NoDup_ranking_candidates.
  - intros Hn. rewrite Hn in Hperm. apply Permutation_nil in Hperm.
    unfold _ranked_agents in Hr. by rewrite Hperm in Hr.
Qed.

Definition free_allowed (messages : list message) (model_name : string) : option (list string) :=
  if String.eqb model_name FREE_MODEL
  then Some (_free_pool_agent_ids (rt_ranking rt) (Some messages) None None) else None.

Lemma route_prepare_spec messages model_name g g' out :
  gateway_pool (rt_ranking rt) → route_prepare rt messages model_name g = (g', out) →
  g' = g ∧ match out with
  | Ok (ro, pool, _) => NoDup (ids pool) ∧ pool ≠ [] ∧ ro_messages ro = messages ∧
                        ro_allowed ro = free_allowed messages model_name
  | Raise _ => True
  end.
Proof.
  intros Hp H. unfold route_prepare in H.
  apply st_bind_inv in H as [(g0 & requested & Hr & H)|(e & Hr & ->)]; injection Hr as <- Hr; [|done].
  apply st_bind_inv in H as [(g0 & pool & Hpool & H)|(e & Hpool & ->)];
    apply (route_pool_spec _ _ _ _ _ _ _ _ Hp) in Hpool as [-> Hpool]; [|done].
  injection H as <- <-. split; [done|]. destruct Hpool as [Hnd Hne]. destruct requested as [a|]; [done|].
  pose proof (tool_loop_route_perm (gw_memory g) pool (VList (map VDict messages))) as Hperm.
  destruct (_apply_tool_loop_route _ _ _) as [pool' ev]. cbn in Hperm. split_and!; [|by intros ->; apply Permutation_nil in Hperm|done..].
  by rewrite (ids_perm _ _ Hperm).
Qed.

(** The state of the flow after its attempts. *)
Lemma route_once_cases messages model_name g g' out :
  gateway_pool (rt_ranking rt) → 0 <= rt_tool_retry_attempts rt → route_once rt messages model_name g = (g', out) →
  ∃ tried calls g1, NoDup (ids tried) ∧ Z.of_nat (length tried) <= max_attempts rt ∧
    map sc_agent calls = tried ∧ Forall (λ c, sc_messages c = messages ∧ sc_role c = "worker") calls ∧
    besides_quality (free_allowed messages model_name) g g1 calls ∧ (∃ memory, g' = with_memory memory g1) ∧
    match out with
    | Ok r => ∃ ro pool st rows evidence, pool ≠ [] ∧ map rr_agent_id rows = ids tried ∧
        loop_rows rt pool (max_attempts rt) no_attempts st rows (gw_quality g) (gw_quality g1) ∧
        r = route_result_of ro evidence st
    | Raise _ => True
    end.
Proof.
  intros Hp Hretry H. unfold route_once in H.
  assert (Hmax : 1 <= max_attempts rt) by (unfold max_attempts, MAX_TOOL_RETRY_ATTEMPTS; lia).
  assert (Hsame : ∀ x : gateway, ∃ memory, x = with_memory memory x) by (intros x; exists (gw_memory x); by destruct x).
  apply st_bind_inv in H as [(g0 & [[ro pool] ev] & Hpre & H)|(e & Hpre & ->)];
    apply (route_prepare_spec _ _ _ _ _ Hp) in Hpre as [-> Hpre].
  2: { exists [], [], g. split_and!; [constructor|change (0 <= max_attempts rt); lia|done|constructor|apply besides_refl|done|done]. }
  destruct Hpre as (Hnd & Hne & Hmsg & Hallow).
  assert (Hrun : ∀ g1 (out' : res flow_error attempts), route_loop rt ro 0 pool no_attempts g = (g1, out') →
    ∃ tried, besides_quality (free_allowed messages model_name) g g1 (map (route_call ro) tried) ∧
      NoDup (ids tried) ∧ Z.of_nat (length tried) <= max_attempts rt ∧
      match out' with
      | Ok st => ∃ rows, map rr_agent_id rows = ids tried ∧
          loop_rows rt pool (max_attempts rt) no_attempts st rows (gw_quality g) (gw_quality g1)
      | Raise _ => True
      end).
  { intros g1 out' Hl. apply route_loop_spec in Hl as (tried & Hb & Hpre & Hlen & Hout); [|done|set_solver|change (0 <= max_attempts rt); lia].
    change (size (at_tried no_attempts)) with 0%nat in *.
    rewrite Hallow in Hb. exists tried. split; [done|]. split.
    - destruct Hpre as [rest ->]. unfold ids in Hnd. rewrite map_app in Hnd. by apply NoDup_app in Hnd as [? _].
    - split; [lia|]. destruct out'; [|done]. destruct Hout as (rows & ? & Hl). exists rows.
      by rewrite Z.sub_0_r in Hl. }
  assert (Hcalls : ∀ tried, Forall (λ c, sc_messages c = messages ∧ sc_role c = "worker") (map (route_call ro) tried)).
  { intros tried. apply Forall_fmap, Forall_true. by intros a. }
  assert (Hagents : ∀ tried, map sc_agent (map (route_call ro) tried) = tried).
  { intros tried. rewrite map_map. cbn. apply map_id. }
  apply st_bind_inv in H as [(g1 & st & Hl & H)|(e & Hl & ->)]; destruct (Hrun _ _ Hl) as (tried & Hb & Hnt & Hlt & Hout).
  2: { exists tried, (map (route_call ro) tried), g'. by split_and!. }
  destruct Hout as (rows & Hids & Hrows).
  exists tried, (map (route_call ro) tried), g1. unfold st.bind, remember_served in H.
  assert (∃ memory, g' = with_memory memory g1 ∧ out = Ok (route_result_of ro ev st)) as (m & -> & ->).
  { destruct (extras_tool_calls _).
    - unfold st.modify, st.ret in H. injection H as <- <-. by eexists.
    - unfold st.ret in H. injection H as <- <-. destruct (Hsame g1) as [m Hm]. exists m. by rewrite <- Hm. }
  split_and!; try done; [by eexists|]. exists ro, pool, st, rows, ev. done.
Qed.

(** A routed request asks at most the allowed number of workers, each once: its
    invocations go to distinct agents, carry the request's own messages, call
    only free agents for the free model, and touch neither the stored runs nor
    the spend meter. *)
Theorem route_once_bounded messages model_name g g' out :
  gateway_pool (rt_ranking rt) → 0 <= rt_tool_retry_attempts rt → route_once rt messages model_name g = (g', out) →
  ∃ calls, gw_invoked g' = gw_invoked g ++ calls ∧
    Z.of_nat (length calls) <= 1 + Z.min (rt_tool_retry_attempts rt) 4 ∧
    NoDup (map (λ c, id (sc_agent c)) calls) ∧
    Forall (λ c, sc_messages c = messages ∧ sc_role c = "worker") calls ∧
    (∃ l, gw_called g' = gw_called g ++ l ∧
       (model_name = FREE_MODEL →
          Forall (λ x, x ∈ _free_pool_agent_ids (rt_ranking rt) (Some messages) None None) l)) ∧
    gw_meter g' = gw_meter g ∧ gw_run_order g' = gw_run_order g.
Proof.
  intros Hp Hretry H. apply route_once_cases in H as (tried & calls & g1 & Hnd & Hlen & Hag & Hc & Hb & (m & ->) & _); [|done..].
  destruct Hb as (_ & Hm & Ho & Hi & l & Hl & Hf). cbn in *. exists calls. split_and!; try done.
  - rewrite <- Hag, length_map in Hlen. exact Hlen.
  - unfold ids in Hnd. rewrite <- Hag, map_map in Hnd. exact Hnd.
  - exists l. split; [done|]. intros ->. unfold free_allowed in Hf. by rewrite String.eqb_refl in Hf.
Qed.

End request.

(** ** Two workers and a judge *)

Definition demo_route (judge : judge_library) : route_env :=
  {| rt_ranking := demo_env demo_pool; rt_policy := demo_policy;
     rt_prompt_bound := λ s _, (str_len s, "characters"); rt_prompt_context := λ _, None; rt_judge := judge;
     rt_latency := λ _, f1; rt_now := λ n, float_of_Z (Z.of_nat n); rt_tool_retry_attempts := 2; rt_memory_entries := 4 |}.

(** A judge that rejects whatever it reads. *)
Definition strict : judge_library := JudgeInstalled (demo_judge false NoProjection).

Abbreviation run_route rt := (route_once (H := scripted) rt demo_messages GATEWAY_DEFAULT_MODEL fresh_gateway).

Definition viewed {A} (rt : route_env) (f : gateway → route_result → A) : option A :=
  match run_route rt with (g, Ok r) => Some (f g r) | _ => None end.

Lemma route_once_bounded_witness :
  let '(g', out) := run_route (demo_route strict) in
  map (λ c, id (sc_agent c)) (gw_invoked g') = ["coder_one"; "plain_one"] ∧
  Z.of_nat (length (gw_invoked g')) <= 3.
Proof.
  assert (Hi : map (λ c, id (sc_agent c)) (gw_invoked (run_route (demo_route strict)).1) = ["coder_one"; "plain_one"])
    by (vm_compute; reflexivity).
  destruct (run_route (demo_route strict)) as [g' out] eqn:Hr. cbn [fst] in Hi. split; [exact Hi|].
  destruct (route_once_bounded (HI := scripted) (HL := scripted_laws) (demo_route strict) demo_messages
              GATEWAY_DEFAULT_MODEL fresh_gateway g' out demo_pool_gateway ltac:(cbn; lia) Hr)
    as (calls & Hc & Hl & _). cbn in Hc, Hl. rewrite Hc. exact Hl.
Defined.


(** What an attempt cost is lost when the judge rejects it: two workers answered
    here, and the trace the run is stored with, which is all the spend meter
    reads, accounts for the last one only. *)
Theorem rejected_attempts_unmetered :
  viewed (demo_route strict) (λ g r,
    (map (λ c, id (sc_agent c)) (gw_invoked g), map row_served (rs_trace r),
     map_to_list <$> add_rows demo_count demo_pool (map spend_row (rs_trace r)) ∅)) =
  Some (["coder_one"; "plain_one"], ["plain_one"], Some [("llama-3", 13)]).
Proof. vm_compute. reflexivity. Qed.
