(* ===== verification/Triage.v ===== *)
(** orchestrator.py: whether an automatic request needs a workflow. One strict
    verdict of a model, remembered per endpoint, privacy scope and text. *)

From Stdlib Require Import Ascii String.
From S2P Require Import Prelude PyString PyCollections PyFloat PyValue Exceptions ToolFallback.
From S2P Require Import ProviderErrors ModelGroup EndpointRace Agents AgentHealth Ranking Transport Failover.
From S2P Require Import ToolLoop Recovery Workflow ResponseCache Gateway.
Open Scope Z_scope.

(** ** The verdict *)

Definition MAX_MODEL_JUDGE_REPLY_CHARACTERS : Z := 32000.

(** What [reject_duplicate_keys] refuses, at any depth. *)
Fixpoint duplicate_keys (v : pyval) : bool :=
  match v with
  | VList l | VTuple l => existsb duplicate_keys l
  | VDict d => negb (bool_decide (NoDup (omap (λ kv, as_str kv.1) d))) || existsb (λ kv, duplicate_keys kv.2) d
  | _ => false
  end.

(** [_parse_triage_reply]; [json_pairs] is [json.loads] with the pairs of every
    object as they are written. *)
Definition _parse_triage_reply (json_pairs : string → option pyval) (reply : string) : res string bool :=
  if MAX_MODEL_JUDGE_REPLY_CHARACTERS <? str_len reply
  then Raise "triage response is missing or exceeds the maximum size" else
  match json_pairs reply with
  | None => Raise "triage response is not valid JSON"
  | Some parsed =>
      if duplicate_keys parsed then Raise "triage response contains duplicate object keys" else
      match parsed with
      | VDict [(VStr key, value)] =>
          if String.eqb key "workflow_required"
          then match value with VBool b => Ok b | _ => Raise "workflow_required must be a boolean" end
          else Raise "triage response must contain exactly workflow_required"
      | _ => Raise "triage response must contain exactly workflow_required"
      end
  end.

(** ** The call *)

Record triage_env := {
  te_ranking : ranking_env;
  te_json_pairs : string → option pyval;
  te_chat : nat → ModelAgent → list message → res string string;  (* the n-th triage call *)
  te_sha256_hex : string → string;
}.

(** The verdicts by digest, least recently stored first, and the agents asked. *)
Record triage_state := {
  tr_cache : list (string * bool);
  tr_asked : list ModelAgent;
}.

Definition EVIDENCE_CACHE_MAX_ENTRIES : nat := 512.

Definition _cache_put {V} (key : string) (value : V) (cache : list (string * V)) : list (string * V) :=
  od_trim EVIDENCE_CACHE_MAX_ENTRIES (od_move_to_end key (od_set key value cache)).

Definition TRIAGE_SYSTEM_PROMPT : string :=
  String.append "You classify whether a user task requires an orchestrated multi-step "
  (String.append "workflow (planning plus verification across steps) or one direct answer. "
  (String.append "Reply with exactly one JSON object {" (String.append (String (chr 34) "workflow_required")
  (String.append (String (chr 34) ": true} or ") (String.append "{" (String.append (String (chr 34) "workflow_required")
  (String (chr 34) ": false} and nothing else."))))))).

Definition triage_messages (text : string) : list message :=
  [[(VStr "role", VStr "system"); (VStr "content", VStr TRIAGE_SYSTEM_PROMPT)];
   [(VStr "role", VStr "user"); (VStr "content", VStr text)]].

Section triage.
Context (te : triage_env).

Definition endpoint_partition : string :=
  match rq_endpoint_identity (re_ctx (te_ranking te)) with
  | None => "endpoint:auto"
  | Some identity => String.append "endpoint:" (te_sha256_hex te identity)
  end.

(** The free chat agents in rank order; without one, and without a privacy
    demand, every agent of the endpoint. A [RuntimeError] means no candidate, any
    other exception of the ranking passes. *)
Definition triage_candidates (text : string) : res string (list ModelAgent) :=
  let env := te_ranking te in
  let fallback :=
    if rq_zdr_only (re_ctx env) then []
    else List.filter (_agent_matches_request_endpoint (re_urlparse env) (re_ctx env)) (re_agents env) in
  match _ranked_agents env text "worker" [] true true None None None with
  | Ok [] => Ok fallback
  | Ok ranked => Ok ranked
  | Raise m => match ranking_candidates env "worker" [] true true None (re_agents env) with
               | [] => Ok fallback
               | _ => Raise m
               end
  end.

Definition _compute_triage_verdict (text : string) (s : triage_state) : triage_state * res string bool :=
  match triage_candidates text with
  | Raise m => (s, Raise m)
  | Ok [] => (s, Ok false)
  | Ok (a :: _) =>
      ({| tr_cache := tr_cache s; tr_asked := tr_asked s ++ [a] |},
       Ok match te_chat te (length (tr_asked s)) a (triage_messages text) ≫= _parse_triage_reply (te_json_pairs te) with
          | Ok verdict => verdict
          | Raise _ => true
          end)
  end.

Definition triage_digest (text : string) : string :=
  te_sha256_hex te
    (str_join "" [endpoint_partition; list_str [chr 31]; text;
                  if rq_zdr_only (re_ctx (te_ranking te)) then list_str (chr 0 :: str_list "zdr_only") else ""]).

Definition _triage_workflow_required (text : string) (s : triage_state) : triage_state * res string bool :=
  match od_get (triage_digest text) (tr_cache s) with
  | Some verdict => (s, Ok verdict)
  | None =>
      let '(s, verdict) := _compute_triage_verdict text s in
      match verdict with
      | Raise m => (s, Raise m)
      | Ok verdict =>
          ({| tr_cache := _cache_put (triage_digest text) verdict (tr_cache s); tr_asked := tr_asked s |}, Ok verdict)
      end
  end.

(** ** What triage guarantees *)

(** Who may see the text. *)
Definition may_triage (a : ModelAgent) : Prop :=
  disabled a = false ∧ _agent_matches_request_endpoint (re_urlparse (te_ranking te)) (re_ctx (te_ranking te)) a = true ∧
  _zdr_agent_allowed (re_ctx (te_ranking te)) a = true.

Lemma triage_candidates_may text l :
  gateway_pool (te_ranking te) → triage_candidates text = Ok l → Forall may_triage l.
Proof.
  intros Hp. unfold triage_candidates. set (env := te_ranking te) in *.
  assert (Hfall : Forall may_triage (if rq_zdr_only (re_ctx env) then [] else
    List.filter (_agent_matches_request_endpoint (re_urlparse env) (re_ctx env)) (re_agents env))).
  { destruct (rq_zdr_only (re_ctx env)) eqn:Hz; [constructor|]. apply Forall_forall. intros a Ha.
    apply list_elem_of_In, filter_In in Ha as [Ha Hm]. destruct Hp as (_ & _ & Hagents). fold env in Hagents.
    rewrite Hagents in Ha. apply filter_In in Ha as [_ Hd]. split_and!; [by apply negb_true_iff|done|].
    fold env. unfold _zdr_agent_allowed. by rewrite Hz. }
  pose proof (gateway_pool_ok _ Hp) as [Hnd _]. destruct Hp as (_ & Hev & _).
  destruct (_ranked_agents _ _ _ _ _ _ _ _ _) as [[|b ranked]|m] eqn:Hr.
  - intros [= <-]. exact Hfall.
  - intros [= <-]. apply (ranked_agents_shape _ _ _ _ _ _ None _ _ _ Hnd (Hev _)) in Hr as (e & x & -> & Hperm & _).
    apply Forall_forall. intros a Ha. rewrite Hperm in Ha. apply ranking_candidates_spec in Ha as [_ Hc].
    unfold ranking_candidate, request_admits in Hc. rewrite !andb_true_iff in Hc.
    destruct Hc as ((((((Hd & Hm) & Hz) & _) & _) & _) & _). split_and!; [by apply negb_true_iff|done|done].
  - destruct (ranking_candidates _ _ _ _ _ _ _); [|done]. intros [= <-]. exact Hfall.
Qed.

Lemma cache_put_get {V} key (value : V) cache : od_get key (_cache_put key value cache) = Some value.
Proof.
  unfold _cache_put. rewrite store_app. change EVIDENCE_CACHE_MAX_ENTRIES with (S 511). rewrite od_trim_snoc, od_get_app.
  destruct (od_get key (od_trim 511 (od_del key cache))) as [w|] eqn:Hg; [|cbn; by rewrite decide_True].
  exfalso. apply od_get_Some_elem, od_trim_sub, (list_elem_of_fmap_2 fst), od_del_keys in Hg as [? _]. done.
Qed.

(** A fresh decision asks one agent at most, which may see the text, and says the
    request needs no workflow only without anyone to ask or on a strict reply. *)
Lemma fresh_verdict text s s' b :
  gateway_pool (te_ranking te) → _compute_triage_verdict text s = (s', Ok b) →
  tr_cache s' = tr_cache s ∧
  ((b = false ∧ s' = s ∧ triage_candidates text = Ok []) ∨
   ∃ a, tr_asked s' = tr_asked s ++ [a] ∧ may_triage a ∧
     (b = false → ∃ reply, te_chat te (length (tr_asked s)) a (triage_messages text) = Ok reply ∧
        _parse_triage_reply (te_json_pairs te) reply = Ok false)).
Proof.
  intros Hp H. unfold _compute_triage_verdict in H. destruct (triage_candidates text) as [[|a l]|m] eqn:Hc; [| |done].
  - injection H as <- <-. split; [done|]. by left.
  - injection H as <- <-. split; [done|]. right. exists a. split; [done|]. split.
    + pose proof (triage_candidates_may text _ Hp Hc) as Hall. by apply Forall_cons in Hall as [? _].
    + destruct (te_chat te _ _ _) as [reply|e]; cbn; [|done]. intros Hb. exists reply. split; [done|].
      destruct (_parse_triage_reply _ reply) as [v|]; [by subst|done].
Qed.

(** Triage fails closed: a request is sent down the direct path only on a reply
    that is exactly one boolean field, remembered or fresh, or when there is nobody
    to ask; the text goes to at most one agent, enabled and admitted by the
    endpoint and the privacy policy; and the verdict is paid for once, since asking
    again changes nothing and calls nobody. *)
Theorem triage_fails_closed text s s' b :
  gateway_pool (te_ranking te) → _triage_workflow_required text s = (s', Ok b) →
  _triage_workflow_required text s' = (s', Ok b) ∧
  ((od_get (triage_digest text) (tr_cache s) = Some b ∧ s' = s) ∨
   (b = false ∧ tr_asked s' = tr_asked s ∧ triage_candidates text = Ok []) ∨
   ∃ a, tr_asked s' = tr_asked s ++ [a] ∧ may_triage a ∧
     (b = false → ∃ reply, te_chat te (length (tr_asked s)) a (triage_messages text) = Ok reply ∧
        _parse_triage_reply (te_json_pairs te) reply = Ok false)).
Proof.
  intros Hp H. unfold _triage_workflow_required in H |- *.
  destruct (od_get (triage_digest text) (tr_cache s)) as [v|] eqn:Hg.
  { injection H as <- <-. rewrite Hg. split; [done|]. by left. }
  destruct (_compute_triage_verdict text s) as [s1 [v|m]] eqn:Hv; [|done]. injection H as <- <-. cbn.
  rewrite cache_put_get. split; [done|]. right.
  destruct (fresh_verdict _ _ _ _ Hp Hv) as [_ [(-> & -> & Hc)|Ha]]; [by left|by right].
Qed.

(** What a strict reply is. *)
Lemma strict_reply json_pairs reply b :
  _parse_triage_reply json_pairs reply = Ok b →
  str_len reply <= 32000 ∧ json_pairs reply = Some (VDict [(VStr "workflow_required", VBool b)]).
Proof.
  unfold _parse_triage_reply. destruct (MAX_MODEL_JUDGE_REPLY_CHARACTERS <? str_len reply) eqn:Hl; [done|]. bools.
  intros H. split; [exact Hl|]. repeat (case_match; try done). subst. injection H as <-. bools.
  match goal with H : String.eqb _ _ = true |- _ => apply String.eqb_eq in H as -> end. done.
Qed.
End triage.

(** ** A verdict that is remembered *)

Definition quote_keyed (b : bool) : pyval := VDict [(VStr "workflow_required", VBool b)].

(** A planner that answers the literal text of its verdict. *)
Definition demo_triage (pool : list ModelAgent) (answers : nat → res string string) : triage_env :=
  {| te_ranking := demo_env pool;
     te_json_pairs := λ s, if String.eqb s "yes" then Some (quote_keyed true)
                           else if String.eqb s "no" then Some (quote_keyed false) else None;
     te_chat := λ n _ _, answers n; te_sha256_hex := λ s, s |}.

Definition no_triage : triage_state := {| tr_cache := []; tr_asked := [] |}.

Lemma triage_fails_closed_witness :
  let te := demo_triage demo_pool (λ n, if Nat.eqb n 0 then Ok "no" else Raise "down") in
  let s := (_triage_workflow_required te "hello" no_triage).1 in
  (_triage_workflow_required te "hello" no_triage).2 = Ok false ∧
  _triage_workflow_required te "hello" s = (s, Ok false) ∧
  (_triage_workflow_required te "another" s).2 = Ok true.
Proof.
  intros te s. assert (H : (_triage_workflow_required te "hello" no_triage).2 = Ok false) by (vm_compute; reflexivity).
  split; [exact H|]. split; [|vm_compute; reflexivity].
  refine (proj1 (triage_fails_closed te "hello" no_triage s false demo_pool_gateway _)).
  unfold s. rewrite <- H. by destruct (_triage_workflow_required te "hello" no_triage).
Defined.
