(* ===== verification/Response.v ===== *)
(** orchestrator.py: the response objects that [route_once] and [conduct] return,
    and what [run] and the spend meter read back from them.

    The keys [latency_ms], [provider], [failover_from] and the selection and
    psychometric receipts are not modelled. *)

From Stdlib Require Import String.
From S2P Require Import Prelude StateLogic PyString PyCollections PyFloat PyValue Exceptions ToolFallback.
From S2P Require Import ProviderErrors ModelGroup EndpointRace Agents AgentHealth EffortProfile Ranking Transport Failover.
From S2P Require Import ToolLoop Recovery Workflow Budget Judge ResponseCache Gateway Conduct RouteOnce.
Open Scope Z_scope.

(** ** Writing *)

(** A key the object carries only when there is something to say. *)
Definition opt_entry {A} (key : string) (f : A → pyval) (o : option A) : response :=
  match o with Some x => [(VStr key, f x)] | None => [] end.

Definition attempt_dict (e : attempt_entry) : pyval :=
  VDict ([(VStr "agent_id", VStr (at_agent_id e)); (VStr "model", VStr (at_model e));
          (VStr "outcome", VStr (at_outcome e))] ++
         match at_error_code e with
         | Some code => [(VStr "error_code", VStr code);
                         (VStr "provider_status", opt_val VInt (at_provider_status e))]
         | None => []
         end ++ opt_entry "retryable" VBool (at_retryable e) ++ opt_entry "transport" VStr (at_transport e)).

Definition route_dict (r : route_evidence) : pyval :=
  VDict [(VStr "eligible_agent_ids", VList (map VStr (eligible_agent_ids r)));
         (VStr "attempted", VList (map attempt_dict (attempted r)));
         (VStr "terminal_reason", VStr (terminal_reason r))].

Definition budget_entries (b : option output_budget) : response :=
  match b with
  | Some b => [(VStr "requested_output_tokens", VInt (ob_requested b));
               (VStr "effective_output_tokens", VInt (ob_effective b));
               (VStr "output_budget_clamped", VBool (ob_clamped b))]
  | None => []
  end.

Definition tool_loop_entries (e : option tool_loop_evidence) : response :=
  match e with
  | Some e => [(VStr "tool_loop_route", VStr (tool_loop_route e));
               (VStr "tool_loop_agent_id", VStr (tool_loop_agent_id e))]
  | None => []
  end.

Definition window_entries (w : option (Z * string * list string)) : response :=
  match w with
  | Some (bound, source, excluded) =>
      [(VStr "prompt_token_lower_bound", VInt bound); (VStr "prompt_token_bound_source", VStr source);
       (VStr "context_window_excluded", VList (map VStr excluded))]
  | None => []
  end.

Definition verification_dict (v : verification) : response :=
  let b := v_base v in
  [(VStr "accepted", VBool (rv_accepted b)); (VStr "reason", VStr (rv_reason b));
   (VStr "verifier_output", rv_verifier_output b)] ++
  opt_entry "judge" VStr (v_judge v) ++
  opt_entry "judge_agent_id" VStr (rv_judge_agent_id b) ++ opt_entry "judge_model" VStr (rv_judge_model b) ++
  opt_entry "judge_usage" VDict (rv_judge_usage b) ++
  match rv_judge_output_text b with VNone => [] | t => [(VStr "judge_output_text", t)] end ++
  opt_entry "judge_orchestration_mode" VStr (v_mode v) ++
  opt_entry "judge_criterion_scores" VDict (v_scores v) ++
  match v_irt_row v with
  | Some row => [(VStr "judge_irt_item_type", VStr "dichotomous"); (VStr "judge_irt_row", VList row)]
  | None => []
  end.

Definition route_row_dict (r : route_row) : response :=
  [(VStr "id", VInt (rr_id r)); (VStr "role", VStr "worker"); (VStr "agent_id", VStr (rr_agent_id r));
   (VStr "model", VStr (rr_model r)); (VStr "subtask", VStr "Direct route"); (VStr "access", VList []);
   (VStr "output", VStr (rr_output r))] ++
  opt_entry "usage" VDict (rr_usage r) ++ budget_entries (rr_budget r) ++
  opt_entry "served_agent_id" VStr (rr_served r) ++
  [(VStr "realtime_judge", VDict [(VStr "accepted", VBool (rr_realtime_judge r).1);
                                  (VStr "reason", VStr (rr_realtime_judge r).2)])].

Definition conduct_row_dict (r : conduct_row) : response :=
  dict_set "agent_id" (VStr (cr_agent_id r)) (step_as_dict (cr_step r)) ++
  [(VStr "model", VStr (cr_model r)); (VStr "output", VStr (cr_output r))] ++
  opt_entry "usage" VDict (cr_usage r) ++ budget_entries (cr_budget r) ++
  opt_entry "served_agent_id" VStr (cr_served r).

Definition plan_source_text (p : plan_source) : string :=
  match p with Template => "template" | Generated => "generated" | TemplateFallback => "template_fallback" end.

(** [_with_effort_snapshot]. *)
Definition effort_entries (policy : OrchestrationPolicy) (snapshot : option EffortCatalogSnapshot) : response :=
  (VStr "policy_snapshot", policy_as_dict policy) ::
  match snapshot with
  | None => []
  | Some s => [(VStr "reasoning_effort_snapshot",
                VDict [(VStr "profile_version", VStr (es_profile_version s));
                       (VStr "snapshot_hash", VStr (es_snapshot_hash s));
                       (VStr "role_profiles", VDict (map (λ kv, (VStr kv.1, VDict kv.2)) (es_role_profiles s)))])]
  end.

Section responses.
Context (policy : OrchestrationPolicy) (snapshot : option EffortCatalogSnapshot).

Definition route_response (r : route_result) : response :=
  [(VStr "mode", VStr "route"); (VStr "answer", VStr (rs_answer r));
   (VStr "verification", VDict (verification_dict (rs_verification r)));
   (VStr "trace", VList (map (λ row, VDict (route_row_dict row)) (rs_trace r)))] ++
  budget_entries (rs_output_budget r) ++ opt_entry "tool_calls" Datatypes.id (rs_tool_calls r) ++
  opt_entry "finish_reason" Datatypes.id (rs_finish_reason r) ++ tool_loop_entries (rs_tool_loop r) ++
  window_entries (rs_window r) ++ opt_entry "route" route_dict (rs_route r) ++ effort_entries policy snapshot.

Definition conduct_response (r : conduct_result) : response :=
  [(VStr "mode", VStr "conduct"); (VStr "answer", VStr (res_answer r));
   (VStr "trace", VList (map (λ row, VDict (conduct_row_dict row)) (res_trace r)));
   (VStr "verification", VDict (verification_dict (res_verification r)));
   (VStr "plan_source", VStr (plan_source_text (res_plan_source r)))] ++
  budget_entries (res_output_budget r) ++
  match res_tool_calls r with
  | Some (calls, finish) => [(VStr "tool_calls", calls); (VStr "finish_reason", finish)]
  | None => []
  end ++ tool_loop_entries (res_tool_loop r) ++ window_entries (res_window r) ++ effort_entries policy snapshot.
End responses.

(** ** Reading back *)

Definition str_of (v : pyval) : string := match v with VStr s => s | _ => "" end.
Definition dict_of (v : pyval) : option dict := match v with VDict d => Some d | _ => None end.
Definition list_of (v : pyval) : list pyval := match v with VList l => l | _ => [] end.

(** What accounting reads of a row of the trace. *)
Definition trace_row_of (v : pyval) : trace_row :=
  let d := default [] (dict_of v) in
  {| row_agent_id := str_of (dget "agent_id" d); row_served_agent_id := str_of (dget "served_agent_id" d);
     row_model_name := as_str (dget "model_name" d); row_subtask := str_of (dget "subtask" d);
     row_usage := dict_of (dget "usage" d); row_output := dget "output" d |}.

Definition run_verification_of (v : pyval) : option run_verification :=
  (λ d, {| rv_accepted := truthy (dget "accepted" d); rv_reason := str_of (dget "reason" d);
           rv_verifier_output := dget "verifier_output" d; rv_judge_agent_id := as_str (dget "judge_agent_id" d);
           rv_judge_model := as_str (dget "judge_model" d); rv_judge_usage := dict_of (dget "judge_usage" d);
           rv_judge_output_text := dget "judge_output_text" d |}) <$> dict_of v.

(** A response the cache may hand out: a mode, an answer and a trace. *)
Definition usable (r : response) : bool :=
  match dget "mode" r, dget "answer" r, dget "trace" r with
  | VStr _, VStr _, VList _ => true
  | _, _, _ => false
  end.

Lemma dget_app_cons k k' v d : dget k ((VStr k', v) :: d) = if String.eqb k' k then v else dget k d.
Proof. unfold dget. cbn. by destruct (String.eqb k' k). Qed.

(** Accounting reads in a response what the flow put there. *)
Lemma route_row_read r : trace_row_of (VDict (route_row_dict r)) = spend_row r.
Proof.
  destruct r as [i a m o u b s [ok why]]. unfold trace_row_of, route_row_dict, spend_row, dget. cbn.
  by destruct u, b, s.
Qed.

Lemma conduct_row_read r : trace_row_of (VDict (conduct_row_dict r)) = row_of r.
Proof.
  destruct r as [st a m o u b s]. unfold trace_row_of, conduct_row_dict, row_of, dget. cbn.
  by destruct u, b, s.
Qed.

Lemma verification_read v : run_verification_of (VDict (verification_dict v)) = Some (v_base v).
Proof.
  destruct v as [[acc why out jid jm ju jt] j m sc row]. unfold run_verification_of, verification_dict, dget. cbn.
  destruct j, jid, jm, ju, jt, m, sc, row; reflexivity.
Qed.

Lemma route_response_usable p s r : usable (route_response p s r) = true.
Proof. done. Qed.

Lemma conduct_response_usable p s r : usable (conduct_response p s r) = true.
Proof. done. Qed.

(** The rows of the trace, as accounting reads them. *)
Definition trace_rows (r : response) : list trace_row := map trace_row_of (list_of (dget "trace" r)).

Lemma route_rows p s r : trace_rows (route_response p s r) = map spend_row (rs_trace r).
Proof.
  transitivity (map trace_row_of (map (λ row, VDict (route_row_dict row)) (rs_trace r))); [done|].
  rewrite map_map. apply map_ext, route_row_read.
Qed.

Lemma conduct_rows p s r : trace_rows (conduct_response p s r) = map row_of (res_trace r).
Proof.
  transitivity (map trace_row_of (map (λ row, VDict (conduct_row_dict row)) (res_trace r))); [done|].
  rewrite map_map. apply map_ext, conduct_row_read.
Qed.
