(* ===== verification/Complete.v ===== *)
(** orchestrator.py: [complete], the entry of every request. A cached answer of the
    same request is returned at no cost; otherwise the request is routed or
    conducted, by its mode, its model or the triage verdict; [run] stores what
    came back and charges it. *)

From Stdlib Require Import Ascii String QArith Qcanon.
From S2P Require Import Prelude StateLogic PyString PyCollections PyFloat PyValue PyJson Exceptions ToolFallback.
From S2P Require Import ProviderErrors ModelGroup EndpointRace Agents AgentHealth EffortProfile Ranking Transport Failover.
From S2P Require Import ToolLoop Recovery Workflow Budget Judge ResponseCache Gateway Conduct RouteOnce Triage Response.
Open Scope Z_scope.

(** ** Request settings *)

Definition request_setting_keys : list string := ["tools"; "tool_choice"; "parallel_tool_calls"].

Definition default_setting_keys : list string :=
  ["temperature"; "top_p"; "presence_penalty"; "frequency_penalty"; "max_output_tokens"].

(** [ModelClient.request_settings_snapshot]: the thread's settings over the
    client's defaults. *)
Definition request_settings_snapshot (defaults scoped : response) : response :=
  map (λ k, (VStr k, match dict_get k scoped with Some v => v | None => dget k defaults end)) default_setting_keys ++
  omap (λ k, (λ v, (VStr k, v)) <$> dict_get k scoped) request_setting_keys.

(** What the request runs against. *)
Record complete_env := {
  cm_conduct : conduct_env;
  cm_route : route_env;
  cm_triage : triage_env;
  cm_effort : option EffortCatalogSnapshot;     (* _effort_snapshot() *)
  cm_defaults : response;                       (* the client's default settings *)
  cm_scoped : response;                         (* this thread's request settings *)
}.

Definition cm_policy (ce : complete_env) : OrchestrationPolicy := ce_policy (cm_conduct ce).
Definition zdr_only (ce : complete_env) : bool := rq_zdr_only (re_ctx (ce_ranking (cm_conduct ce))).

(** The arguments of [complete]. [cq_foreign]: the messages hold an object
    [json.dumps] refuses. *)
Record completion := {
  cq_messages : list message;
  cq_mode : string;
  cq_bypass_cache : bool;
  cq_model_name : string;
  cq_cache_partition : option string;
  cq_foreign : bool;
}.

Record server (C : Type) := {
  sv_gateway : gateway;
  sv_cache : option C;
  sv_triage : triage_state;
}.
Arguments sv_gateway {C} s.
Arguments sv_cache {C} s.
Arguments sv_triage {C} s.

Definition with_gateway {C} (g : gateway) (s : server C) : server C :=
  {| sv_gateway := g; sv_cache := sv_cache s; sv_triage := sv_triage s |}.
Definition with_cache {C} (c : option C) (s : server C) : server C :=
  {| sv_gateway := sv_gateway s; sv_cache := c; sv_triage := sv_triage s |}.
Definition with_triage {C} (t : triage_state) (s : server C) : server C :=
  {| sv_gateway := sv_gateway s; sv_cache := sv_cache s; sv_triage := t |}.

Definition on_gateway {C A} (m : FLOW A) : ST (server C) flow_error A := λ s,
  let '(g, out) := m (sv_gateway s) in (with_gateway g s, out).

(** ** Route or conduct *)

(** [_would_route_without_triage]. *)
Definition _would_route_without_triage (mode model_name : string) : option bool :=
  if String.eqb mode "route" then Some true
  else if String.eqb mode "auto"
  then if negb (in_strs model_name [GATEWAY_DEFAULT_MODEL; AUTO_MODEL]) then Some true else None
  else Some false.

(** ** Keys *)

Section keys.
Context (float_repr : float → string) (sha256_hex : string → string).

Definition key_parameters (ce : complete_env) (resolved_mode : option string) : response :=
  let p := request_settings_snapshot (cm_defaults ce) (cm_scoped ce) in
  let p := dict_set "zdr_only" (VBool (zdr_only ce)) p in
  let p := dict_set "effort_snapshot_hash" (opt_val VStr (es_snapshot_hash <$> cm_effort ce)) p in
  let p := dict_set "policy_snapshot_hash"
             (VStr (sha256_hex (json_dumps float_repr true (policy_as_dict (cm_policy ce))))) p in
  match resolved_mode with Some m => dict_set "resolved_mode" (VStr m) p | None => p end.

Definition key_partition (ce : complete_env) (cache_partition : option string) : string :=
  match cache_partition with
  | None => endpoint_partition (cm_triage ce)
  | Some p => str_join "" [p; "|"; endpoint_partition (cm_triage ce)]
  end.

Definition resolved_mode (q : completion) : option string :=
  (λ route, if (route : bool) then "route" else "conduct") <$> _would_route_without_triage (cq_mode q) (cq_model_name q).

(** The envelope of a request, and the text that is hashed. *)
Definition request_envelope (ce : complete_env) (q : completion) : pyval :=
  envelope (cq_messages q) (cq_mode q) (cq_model_name q) (key_parameters ce (resolved_mode q))
    (Some (key_partition ce (cq_cache_partition q))).

Definition key_text (ce : complete_env) (q : completion) : string :=
  json_dumps float_repr true (request_envelope ce q).

(** [_cache_key]: [TypeError] for objects JSON cannot write. *)
Definition _cache_key (ce : complete_env) (q : completion) : res string string :=
  if cq_foreign q then Raise "TypeError" else
  build_response_cache_key float_repr sha256_hex (cq_messages q) (cq_mode q) (cq_model_name q)
    (key_parameters ce (resolved_mode q)) (Some (key_partition ce (cq_cache_partition q))).

(** ** The request *)

Section complete.
Context {C : Type} `{CacheProvider C} `{Invoker} (ce : complete_env).

(** [_resolved_route_decision] and [would_route]. *)
Definition _resolved_route_decision (q : completion) : ST (server C) flow_error bool := λ s,
  match _would_route_without_triage (cq_mode q) (cq_model_name q) with
  | Some decision => (s, Ok decision)
  | None =>
      let '(t, verdict) := _triage_workflow_required (cm_triage ce) (_latest_user_text (cq_messages q)) (sv_triage s) in
      (with_triage t s, map_raise FlowValueError (negb <$> verdict))
  end.

Definition _dispatch (q : completion) (route_decision : bool) : ST (server C) flow_error response :=
  if route_decision
  then on_gateway (st.bind (route_once (cm_route ce) (cq_messages q) (cq_model_name q)) (λ r,
         st.ret (route_response (cm_policy ce) (cm_effort ce) r)))
  else on_gateway (st.bind (conduct (cm_conduct ce) (cq_messages q) (cq_model_name q) None None) (λ r,
         st.ret (conduct_response (cm_policy ce) (cm_effort ce) r))).

Definition live (q : completion) : ST (server C) flow_error response :=
  st.bind (_resolved_route_decision q) (λ decision, _dispatch q decision).

Definition with_status (status : string) (r : response) : response := dict_set "cache_status" (VStr status) r.

Definition completed (status : string) (m : ST (server C) flow_error response) : ST (server C) flow_error response :=
  st.bind m (λ r, st.ret (with_status status r)).

(** The live request, whose response is stored; a cache that fails is ignored. *)
Definition store_live (key : string) (q : completion) : ST (server C) flow_error response :=
  st.bind (live q) (λ r, st.bind
    (st.modify (λ s, with_cache ((λ c, (cache_put key r c).1) <$> sv_cache s) s)) (λ _,
    st.ret (with_status "miss" r))).

Definition lookup (key : string) (c : C) : C * option response :=
  let '(c, got) := cache_get key c in
  (c, match got with
      | Ok (Some r) => if usable r then Some r else None
      | _ => None
      end).

Definition complete (q : completion) : ST (server C) flow_error response := λ s,
  if negb (str_truthy (str_strip (cq_model_name q)))
  then (s, Raise (FlowValueError "model_name must be a non-empty string")) else
  if match cq_cache_partition q with Some p => negb (str_truthy (str_strip p)) | None => false end
  then (s, Raise (FlowValueError "cache_partition must be a non-empty string when provided")) else
  match sv_cache s with
  | None => completed (if cq_bypass_cache q || zdr_only ce then "bypass" else "disabled") (live q) s
  | Some c =>
      if cq_bypass_cache q || zdr_only ce then completed "bypass" (live q) s else
      match _cache_key ce q with
      | Raise _ => completed "miss" (live q) s
      | Ok key =>
          let '(c, found) := lookup key c in
          let s := with_cache (Some c) s in
          match found with
          | Some r => (s, Ok (with_status "hit" r))
          | None => store_live key q s
          end
      end
  end.
End complete.
End keys.
Arguments key_text : simpl never.
Arguments key_parameters : simpl never.

(** ** What the cache may change *)

Lemma dict_del_set k v d : dict_del k (dict_set k v d) = dict_del k d.
Proof.
  induction d as [|[k' v'] d IH]; cbn; [by rewrite String.eqb_refl|].
  destruct (key_is k k') eqn:Hk; cbn; rewrite Hk; [done|]. by rewrite IH.
Qed.

(** The response apart from how the cache took part. *)
Definition unmarked (r : response) : response := dict_del "cache_status" r.

Lemma unmarked_status st r : unmarked (with_status st r) = unmarked r.
Proof. apply dict_del_set. Qed.

Section theorems.
Context {C : Type} {HP : CacheProvider C} {HI : Invoker} (float_repr : float → string) (sha256_hex : string → string).
Implicit Types (s : server C) (ce : complete_env) (q : completion).
Abbreviation complete := (complete float_repr sha256_hex).

(** The live request neither sees nor touches the cache. *)
Lemma live_cache ce q s c :
  live ce q (with_cache c s) = (with_cache c (live ce q s).1, (live ce q s).2).
Proof.
  unfold live. unfold st.bind at 1 2 3, _resolved_route_decision. cbn [sv_triage with_cache].
  assert (Hr : ∀ (s : server C), _dispatch ce q true (with_cache c s) =
    (with_cache c (_dispatch ce q true s).1, (_dispatch ce q true s).2)).
  { intros s0. unfold _dispatch, on_gateway, st.bind. cbn [sv_gateway with_cache]. by destruct (route_once _ _ _ _) as [? [?|?]]. }
  assert (Hc : ∀ (s : server C), _dispatch ce q false (with_cache c s) =
    (with_cache c (_dispatch ce q false s).1, (_dispatch ce q false s).2)).
  { intros s0. unfold _dispatch, on_gateway, st.bind. cbn [sv_gateway with_cache]. by destruct (conduct _ _ _ _ _ _) as [? [?|?]]. }
  destruct (_would_route_without_triage _ _) as [[]|]; cbn; [apply Hr|apply Hc|].
  destruct (_triage_workflow_required _ _ _) as [t [[]|e]]; cbn; [|apply (Hr (with_triage t s))|done].
  apply (Hc (with_triage t s)).
Qed.

Lemma live_keeps_cache ce q s : sv_cache (live ce q s).1 = sv_cache s.
Proof.
  replace (live ce q s) with (live ce q (with_cache (sv_cache s) s)) by (by destruct s).
  by rewrite live_cache.
Qed.

Definition arguments_ok (q : completion) : Prop :=
  str_truthy (str_strip (cq_model_name q)) = true ∧
  ∀ p, cq_cache_partition q = Some p → str_truthy (str_strip p) = true.

(** A request is a refused argument, an answer of the cache, or a live request. *)
Record hit ce q s s' (out : res flow_error response) (r : response) : Prop := {
  hit_private : cq_bypass_cache q = false ∧ zdr_only ce = false;
  hit_cache : ∃ c c' key, sv_cache s = Some c ∧ _cache_key float_repr sha256_hex ce q = Ok key ∧
    cache_get key c = (c', Ok (Some r)) ∧ s' = with_cache (Some c') s;
  hit_usable : usable r = true;
  hit_out : out = Ok (with_status "hit" r);
}.

Record went_live ce q s s' (out : res flow_error response) (status : string) : Prop := {
  gl_status : status ≠ "hit";
  gl_out : out = with_status status <$> (live ce q s).2;
  gl_gateway : sv_gateway s' = sv_gateway (live ce q s).1 ∧ sv_triage s' = sv_triage (live ce q s).1;
  gl_cache : cq_bypass_cache q || zdr_only ce = true → sv_cache s' = sv_cache s;
  gl_stored : ∀ c, sv_cache s = Some c → sv_cache s' = Some c ∨
    (cq_bypass_cache q = false ∧ zdr_only ce = false ∧
     ∃ key, _cache_key float_repr sha256_hex ce q = Ok key ∧
       ((∃ e, out = Raise e ∧ sv_cache s' = Some (cache_get key c).1) ∨
        ∃ r, (live ce q s).2 = Ok r ∧ status = "miss" ∧
             sv_cache s' = Some (cache_put key r (cache_get key c).1).1));
  gl_none : sv_cache s = None → sv_cache s' = None;
}.

Lemma request_cases ce q s s' out : complete ce q s = (s', out) →
  (¬ arguments_ok q ∧ ∃ m, out = Raise (FlowValueError m) ∧ ∀ s0, complete ce q s0 = (s0, out)) ∨
  (arguments_ok q ∧ ((∃ r, hit ce q s s' out r) ∨ (∃ status, went_live ce q s s' out status))).
Proof.
  unfold Complete.complete. destruct (str_truthy (str_strip (cq_model_name q))) eqn:Hm; cbn.
  2: { intros [= <- <-]. left. split; [by intros [? _]; congruence|]. eexists. split; [done|]. done. }
  destruct (match cq_cache_partition q with Some p => _ | None => _ end) eqn:Hp.
  { intros [= <- <-]. left. split; [|by eexists]. intros [_ Ha].
    destruct (cq_cache_partition q) as [p|]; [|done]. rewrite (Ha p eq_refl) in Hp. done. }
  intros H. right. split.
  { split; [done|]. intros p Hq. rewrite Hq in Hp. by apply negb_false_iff in Hp. }
  assert (Hgo : ∀ status, status ≠ "hit" → completed status (live ce q) s = (s', out) →
    went_live ce q s s' out status).
  { intros status Hne Hc. unfold completed, st.bind, st.ret in Hc. pose proof (live_keeps_cache ce q s) as Hk.
    destruct (live ce q s) as [s1 [r|e]] eqn:Hl; injection Hc as <- <-; split; rewrite ?Hl; try done; cbn in *.
    all: intros; try congruence; left; congruence. }
  destruct (sv_cache s) as [c|] eqn:Hsc.
  2: { right. eexists. apply Hgo; [|exact H]. by destruct (_ || _). }
  destruct (cq_bypass_cache q || zdr_only ce) eqn:Hb; [right; by eexists; apply Hgo, H|].
  apply orb_false_iff in Hb as [Hb1 Hb2].
  destruct (_cache_key float_repr sha256_hex ce q) as [key|e] eqn:Hkey; [|right; by eexists; apply Hgo, H].
  unfold lookup in H. destruct (cache_get key c) as [c' got] eqn:Hget.
  assert (Hhit : ∀ r, got = Ok (Some r) → usable r = true →
    (with_cache (Some c') s, Ok (with_status "hit" r)) = (s', out) → ∃ r, hit ce q s s' out r).
  { intros r -> Hu [= <- <-]. exists r. split; try done. exists c, c', key. done. }
  assert (Hmiss : store_live ce key q (with_cache (Some c') s) = (s', out) → went_live ce q s s' out "miss").
  { intros Hs. unfold store_live, st.bind, st.modify, st.ret in Hs. rewrite live_cache in Hs. cbn in Hs.
    destruct (live ce q s) as [s1 [r|e]] eqn:Hl; cbn in Hs; injection Hs as <- <-; split; rewrite ?Hl, ?Hsc; try done; cbn.
    - rewrite Hb1, Hb2. done.
    - intros c0 [= <-]. right. split_and!; [done..|]. exists key. split; [done|]. right. exists r. rewrite Hget. done.
    - rewrite Hb1, Hb2. done.
    - intros c0 [= <-]. right. split_and!; [done..|]. exists key. split; [done|]. left. exists e. rewrite Hget. done. }
  destruct got as [[r|]|e]; cbn in H; [|right; by eexists; apply Hmiss, H..].
  destruct (usable r) eqn:Hu; [left; by eapply Hhit|right; by eexists; apply Hmiss, H].
Qed.
(** A private request never meets the cache: under zero data retention, or when the
    caller bypasses it, the request ends the same way over any cache, working or
    broken, and leaves it exactly as it was. *)
Theorem private_requests_uncached ce q s c :
  cq_bypass_cache q = true ∨ zdr_only ce = true →
  complete ce q (with_cache c s) = (with_cache c (complete ce q (with_cache None s)).1, (complete ce q (with_cache None s)).2).
Proof.
  intros Hp. assert (Hb : cq_bypass_cache q || zdr_only ce = true) by (destruct Hp as [->| ->]; by rewrite ?orb_true_r).
  unfold Complete.complete. rewrite Hb. destruct (negb _); [done|].
  destruct (match cq_cache_partition q with Some p => _ | None => _ end); [done|].
  cbn [sv_cache with_cache].
  assert (Hl : completed "bypass" (live ce q) (with_cache c s) =
    (with_cache c (completed "bypass" (live ce q) (with_cache None s)).1,
     (completed "bypass" (live ce q) (with_cache None s)).2)).
  { unfold completed, st.bind, st.ret. rewrite !live_cache. by destruct (live ce q s) as [s1 [r|e]]. }
  by destruct c.
Qed.

(** C3. A cache that works, fails or lies dead never decides how a request ends: unless
    the cache answers, the request gives what the same gateway without a cache
    gives, the same response or the same exception, and leaves the same gateway
    behind; and when it does answer, nobody was called: the gateway, its spend
    meter and the triage verdicts are as they were. *)
Theorem complete_cache_transparent ce q s s' out :
  complete ce q s = (s', out) →
  (∃ r, out = Ok (with_status "hit" r) ∧ sv_gateway s' = sv_gateway s ∧ sv_triage s' = sv_triage s) ∨
  (unmarked <$> out = unmarked <$> (complete ce q (with_cache None s)).2 ∧
   sv_gateway s' = sv_gateway (complete ce q (with_cache None s)).1 ∧
   sv_triage s' = sv_triage (complete ce q (with_cache None s)).1).
Proof.
  intros H. pose proof H as Hs.
  apply request_cases in H as [(_ & m & _ & Hs0)|[Ha [(r & [_ Hc _ ->])|(status & Hw)]]].
  - right. rewrite Hs0 in Hs. injection Hs as <-. by rewrite Hs0.
  - left. exists r. destruct Hc as (c & c' & key & _ & _ & _ & ->). done.
  - right. destruct (complete ce q (with_cache None s)) as [s1 out1] eqn:H1.
    apply request_cases in H1 as [[Ha' _]|[_ [(r & [_ Hc _ _])|(status' & Hw')]]]; [done| |].
    + destruct Hc as (c & _ & _ & Hn & _). done.
    + destruct Hw as [_ -> [Hg Ht] _ _ _], Hw' as [_ -> [Hg' Ht'] _ _ _]. rewrite live_cache in Hg', Ht' |- *. cbn in Hg', Ht' |- *.
      split_and!; [|congruence..].
      destruct (live ce q s).2; cbn; [by rewrite !unmarked_status|done].
Qed.

(** ** Where a hit comes from *)

Abbreviation answer := (complete_env * completion * res flow_error response)%type.

(** One request after the other, each in surroundings of its own. *)
Definition serve (st : server C * list answer) (x : complete_env * completion) : server C * list answer :=
  let '(s, out) := complete x.1 x.2 st.1 in (s, st.2 ++ [(x.1, x.2, out)]).

Definition serve_all (s : server C) (xs : list (complete_env * completion)) : server C * list answer :=
  fold_left serve xs (s, []).

(** Some earlier request put [v], as the cache shows it, under [key]. *)
Definition supplied (earlier : list answer) (key : string) (v : response) : Prop :=
  ∃ i ce q r, earlier !! i = Some (ce, q, Ok (with_status "miss" r)) ∧ zdr_only ce = false ∧
    cache_sees r = Some v ∧ key = sha256_hex (key_text float_repr sha256_hex ce q).

Definition hits_supplied (answers : list answer) : Prop :=
  ∀ j ce q r, answers !! j = Some (ce, q, Ok r) → dget "cache_status" r = VStr "hit" →
    ∃ v, r = with_status "hit" v ∧ zdr_only ce = false ∧
      supplied (take j answers) (sha256_hex (key_text float_repr sha256_hex ce q)) v.

Lemma cache_key_text ce q key :
  _cache_key float_repr sha256_hex ce q = Ok key → key = sha256_hex (key_text float_repr sha256_hex ce q).
Proof.
  unfold _cache_key, build_response_cache_key. destruct (cq_foreign q); [done|].
  destruct (str_truthy _); [|done]. by intros [= <-].
Qed.

Lemma supplied_app earlier later key v : supplied earlier key v → supplied (earlier ++ later) key v.
Proof. intros (i & ce & q & r & Hi & H). exists i, ce, q, r. split; [by apply lookup_app_l_Some|done]. Qed.

Lemma status_of st r : dget "cache_status" (with_status st r) = VStr st.
Proof. unfold dget, with_status. by rewrite dict_get_set, decide_True. Qed.

Context {HL : CacheLaws C}.

Definition explained (st : server C * list answer) : Prop :=
  (∀ c key v, sv_cache st.1 = Some c → cache_may c key v → supplied st.2 key v) ∧ hits_supplied st.2.

Lemma serve_explained st x : explained st → explained (serve st x).
Proof.
  destruct st as [s answers], x as [ce q]. intros [Hmay Hhits]. unfold serve. cbn in *.
  destruct (complete ce q s) as [s' out] eqn:Hc.
  assert (Hnew : (∀ c key v, sv_cache s' = Some c → cache_may c key v → supplied (answers ++ [(ce, q, out)]) key v) ∧
    (∀ r, out = Ok r → dget "cache_status" r = VStr "hit" →
      ∃ v, r = with_status "hit" v ∧ zdr_only ce = false ∧ supplied answers (sha256_hex (key_text float_repr sha256_hex ce q)) v)).
  { pose proof Hc as Hs. apply request_cases in Hc as [(_ & m & -> & Hs0)|[_ [(r & Hh)|(status & Hw)]]].
    - rewrite Hs0 in Hs. injection Hs as <-. split; [|done]. intros c key v Hsc Hm. by eapply supplied_app, Hmay.
    - destruct Hh as [[_ Hz] (c & c' & key & Hsc & Hkey & Hget & ->) Hu ->]. apply cache_key_text in Hkey as ->. cbn.
      split.
      + intros c0 key v [= <-] Hm. eapply supplied_app, Hmay; [exact Hsc|]. apply (f_equal fst) in Hget.
        cbn in Hget. subst c'. by eapply get_keeps.
      + intros r' [= <-] _. exists r. split_and!; [done|done|]. eapply Hmay; [exact Hsc|]. eapply get_honest. by rewrite Hget.
    - destruct Hw as [Hne -> _ _ Hstored Hnone]. split.
      2: { intros r Hr Hst. destruct (live ce q s).2 as [r0|e]; [|done]. injection Hr as <-. rewrite status_of in Hst. congruence. }
      intros c key v Hsc Hm. destruct (sv_cache s) as [c0|] eqn:Hs0; [|rewrite (Hnone eq_refl) in Hsc; done].
      destruct (Hstored c0 eq_refl) as [Heq|(_ & Hz & key0 & Hkey & [(e & _ & Heq)|(r & Hr & -> & Heq)])];
        rewrite Heq in Hsc; injection Hsc as <-.
      + by eapply supplied_app, Hmay.
      + eapply supplied_app, Hmay; [done|]. by eapply get_keeps.
      + apply put_keeps in Hm as [Hm|[-> Hv]].
        * eapply supplied_app, Hmay; [done|]. by eapply get_keeps.
        * exists (length answers), ce, q, r. rewrite Hr, lookup_app_r, Nat.sub_diag by done.
          split_and!; [done..|by apply cache_key_text]. }
  destruct Hnew as [Hmay' Hlast]. split; [exact Hmay'|].
  intros j ce0 q0 r Hj Hst. cbn in Hj |- *. apply lookup_app_Some in Hj as [Hj|[Hlen Hj]].
  - rewrite take_app_le by (apply lookup_lt_Some in Hj; lia). by apply Hhits.
  - apply list_lookup_singleton_Some in Hj as [Hz [= <- <- ->]].
    replace j with (length answers) by lia. rewrite take_app_length. by apply Hlast.
Qed.

Lemma serve_all_explained s xs :
  (∀ c key v, sv_cache s = Some c → ¬ cache_may c key v) → explained (serve_all s xs).
Proof.
  intros H0. assert (Hi : explained (s, [])).
  { split; [intros c key v Hc Hm; by destruct (H0 c key v)|]. intros j ce q r Hj. cbn in Hj. by destruct j. }
  unfold serve_all. revert Hi. generalize (s, @nil answer) as st.
  induction xs as [|x xs IH]; intros st Hi; [done|]. cbn. by apply IH, serve_explained.
Qed.

(** Answers are in the order of the requests. *)
Lemma serve_all_in s xs ce q out : (ce, q, out) ∈ (serve_all s xs).2 → (ce, q) ∈ xs.
Proof.
  unfold serve_all. assert (Hg : ∀ st, (ce, q, out) ∈ (fold_left serve xs st).2 →
    (ce, q, out) ∈ st.2 ∨ (ce, q) ∈ xs).
  { induction xs as [|x xs IH]; intros st Hin; [by left|]. cbn in Hin. apply IH in Hin as [Hin|Hin]; [|right; by right].
    unfold serve in Hin. destruct (complete x.1 x.2 st.1) as [s1 o]. cbn in Hin. apply elem_of_app in Hin as [Hin|Hin]; [by left|].
    apply list_elem_of_singleton in Hin as [= -> -> _]. right. destruct x. by left. }
  intros Hin. apply Hg in Hin as [Hin|Hin]; [by apply elem_of_nil in Hin|done].
Qed.

(** Two requests the gateway takes for the same one. *)
Definition same_request ce q ce' q' : Prop :=
  cq_mode q = cq_mode q' ∧ cq_model_name q = cq_model_name q' ∧
  map (λ m, json_view true (VDict m)) (cq_messages q) = map (λ m, json_view true (VDict m)) (cq_messages q') ∧
  json_view true (VDict (key_parameters float_repr sha256_hex ce (resolved_mode q))) =
    json_view true (VDict (key_parameters float_repr sha256_hex ce' (resolved_mode q'))) ∧
  key_partition ce (cq_cache_partition q) = key_partition ce' (cq_cache_partition q').

Lemma same_envelope ce q ce' q' :
  json_view true (request_envelope float_repr sha256_hex ce q) = json_view true (request_envelope float_repr sha256_hex ce' q') →
  same_request ce q ce' q'.
Proof.
  unfold request_envelope. rewrite !envelope_view. intros [= Hm Hmode Hmodel Hp Hpart].
  rewrite !map_map in Hm. unfold same_request. cbn [json_view]. rewrite Hp. done.
Qed.


(** C1. A hit is an earlier answer to the same request. Over any history of requests,
    each with its own surroundings, from a cache that held nothing, over any cache
    that keeps its contract: what a hit returns was computed live, under the same
    messages, mode, model, settings, policy and partition, for an earlier request
    that was free to be retained; no request under zero data retention is ever
    answered from the cache or answers for another. *)
Theorem hits_are_earlier_answers float_of_token s xs j ce q r :
  (∀ c key v, sv_cache s = Some c → ¬ cache_may c key v) →
  (∀ x y, x ∈ xs → y ∈ xs → sha256_hex (key_text float_repr sha256_hex x.1 x.2) = sha256_hex (key_text float_repr sha256_hex y.1 y.2) →
     key_text float_repr sha256_hex x.1 x.2 = key_text float_repr sha256_hex y.1 y.2) →
  (∀ x, x ∈ xs → readable float_repr float_of_token (json_view true (request_envelope float_repr sha256_hex x.1 x.2))) →
  (serve_all s xs).2 !! j = Some (ce, q, Ok r) → dget "cache_status" r = VStr "hit" →
  zdr_only ce = false ∧
  ∃ i ce' q' r' v, (i < j)%nat ∧ (serve_all s xs).2 !! i = Some (ce', q', Ok (with_status "miss" r')) ∧
    cache_sees r' = Some v ∧ r = with_status "hit" v ∧ zdr_only ce' = false ∧ same_request ce q ce' q'.
Proof.
  intros H0 Hcoll Hread Hj Hst. destruct (serve_all_explained s xs H0) as [_ Hhits].
  destruct (Hhits j ce q r Hj Hst) as (v & -> & Hz & i & ce' & q' & r' & Hi & Hz' & Hv & Hkey). split; [done|].
  apply lookup_take_Some in Hi as [Hi Hlt]. exists i, ce', q', r', v. split_and!; try done.
  assert (Hin : (ce, q) ∈ xs) by (eapply serve_all_in, list_elem_of_lookup_2; exact Hj).
  assert (Hin' : (ce', q') ∈ xs) by (eapply serve_all_in, list_elem_of_lookup_2; exact Hi).
  apply same_envelope. apply (json_dumps_inj_floats float_repr float_of_token true); [by apply (Hread _ Hin)|by apply (Hread _ Hin')|].
  by apply (Hcoll _ _ Hin Hin').
Qed.
End theorems.

(** ** run *)

(** The arguments of [run] beyond those of [complete]. *)
Record run_request := {
  rr_completion : completion;
  rr_workflow_run_id : string;          (* the caller's, or a fresh one *)
}.

(** [if result.get("tool_calls")]. *)
Definition run_tool_calls (r : response) : pyval :=
  let v := dget "tool_calls" r in if truthy v then v else VNone.

(** The fields of the stored record that accounting and redaction read. *)
Definition run_record (run_id prompt : string) (r : response) : workflow_run :=
  {| wr_id := run_id; wr_request_id := None; wr_prompt_text := VStr prompt; wr_answer := dget "answer" r;
     wr_trace := trace_rows r; wr_tool_calls := run_tool_calls r;
     wr_verification := run_verification_of (dget "verification" r) |}.

Section run.
Context {C : Type} `{CacheProvider C} `{Invoker} (float_repr : float → string) (sha256_hex : string → string)
        (ce : complete_env).

(** The admission check of [run]. *)
Definition run_admission (m : budget_meter) : res flow_error unit :=
  let co := cm_conduct ce in
  match bc_max_output_tokens (ce_budget co), bc_max_cost_usd (ce_budget co) with
  | None, None => Ok tt
  | _, _ =>
      let b := budget_status (ce_float_of_decimal co) (ce_budget co) (re_agents (ce_ranking co)) m in
      if String.eqb (bb_enforcement_status b) "blocked_unavailable" then Raise (FlowBudget MeasurementUnavailable)
      else if bb_exceeded b then Raise (FlowBudget BudgetExceeded) else Ok tt
  end.

Definition run (rq : run_request) : ST (server C) flow_error response := λ s,
  match run_admission (gw_meter (sv_gateway s)) with
  | Raise e => (s, Raise e)
  | Ok _ =>
      st.bind (complete float_repr sha256_hex ce (rr_completion rq)) (λ r,
      st.bind (on_gateway (store_run (cm_conduct ce)
                 (run_record (rr_workflow_run_id rq) (_latest_user_text (cq_messages (rr_completion rq))) r))) (λ _,
      st.ret r)) s
  end.
End run.

(** ** What a request is charged *)

Section charged.
Context {C : Type} {HP : CacheProvider C} {HI : Invoker} {HV : InvokerLaws HI}.
Context (float_repr : float → string) (sha256_hex : string → string) (ce : complete_env).
Implicit Types (s : server C) (q : completion).

Definition same_books s s' : Prop :=
  gw_meter (sv_gateway s') = gw_meter (sv_gateway s) ∧ gw_run_order (sv_gateway s') = gw_run_order (sv_gateway s).

(** The rows of the work a live request did, as accounting reads them. *)
Inductive worked q s : list trace_row → Prop :=
| worked_route g g' r :
    gw_meter g = gw_meter (sv_gateway s) → route_once (cm_route ce) (cq_messages q) (cq_model_name q) g = (g', Ok r) →
    worked q s (map spend_row (rs_trace r))
| worked_conduct g g' r :
    gw_meter g = gw_meter (sv_gateway s) →
    conduct (cm_conduct ce) (cq_messages q) (cq_model_name q) None None g = (g', Ok r) →
    worked q s (map row_of (res_trace r)).

Lemma trace_rows_status st r : trace_rows (with_status st r) = trace_rows r.
Proof. unfold trace_rows, with_status, dget. by rewrite dict_get_set, decide_False. Qed.

Lemma live_charged q s s' out :
  gateway_pool (rt_ranking (cm_route ce)) → 0 <= rt_tool_retry_attempts (cm_route ce) →
  live ce q s = (s', out) →
  same_books s s' ∧ match out with Ok r => worked q s (trace_rows r) | Raise _ => True end.
Proof.
  intros Hp Hn H. unfold live in H.
  assert (Hroute : ∀ s0 s1 out1, sv_gateway s0 = sv_gateway s → _dispatch ce q true s0 = (s1, out1) →
    same_books s s1 ∧ match out1 with Ok r => worked q s (trace_rows r) | Raise _ => True end).
  { intros s0 s1 out1 Hg Hd. unfold _dispatch, on_gateway, st.bind in Hd.
    destruct (route_once (cm_route ce) (cq_messages q) (cq_model_name q) (sv_gateway s0)) as [g1 o1] eqn:Hr.
    pose proof (route_once_cases (cm_route ce) _ _ _ _ _ Hp Hn Hr) as (tried & calls & g2 & _ & _ & _ & _ & Hb & (m & Hm) & _).
    assert (Hbooks : gw_meter g1 = gw_meter (sv_gateway s0) ∧ gw_run_order g1 = gw_run_order (sv_gateway s0)).
    { subst g1. destruct Hb as (_ & ? & ? & _). done. }
    rewrite Hg in Hbooks. destruct o1 as [r|e]; injection Hd as <- <-; (split; [exact Hbooks|]); [|done].
    replace (trace_rows _) with (map spend_row (rs_trace r)); [eapply worked_route; [|exact Hr]; by rewrite Hg|].
    symmetry. apply route_rows. }
  assert (Hconduct : ∀ s0 s1 out1, sv_gateway s0 = sv_gateway s → _dispatch ce q false s0 = (s1, out1) →
    same_books s s1 ∧ match out1 with Ok r => worked q s (trace_rows r) | Raise _ => True end).
  { intros s0 s1 out1 Hg Hd. unfold _dispatch, on_gateway, st.bind in Hd.
    destruct (conduct (cm_conduct ce) (cq_messages q) (cq_model_name q) None None (sv_gateway s0)) as [g1 o1] eqn:Hr.
    pose proof (conduct_cases (cm_conduct ce) _ _ _ _ _ _ _ Hr) as Hc.
    assert (Hbooks : gw_meter g1 = gw_meter (sv_gateway s0) ∧ gw_run_order g1 = gw_run_order (sv_gateway s0)).
    { destruct o1 as [r|e].
      - destruct Hc as (g2 & sp & p & calls & [_ _ _ (_ & ? & ? & _) _ _] & ->). done.
      - destruct Hc as [(calls & _ & ? & ? & _) _]. done. }
    rewrite Hg in Hbooks. destruct o1 as [r|e]; injection Hd as <- <-; (split; [exact Hbooks|]); [|done].
    replace (trace_rows _) with (map row_of (res_trace r)); [eapply worked_conduct; [|exact Hr]; by rewrite Hg|].
    symmetry. apply conduct_rows. }
  unfold st.bind, _resolved_route_decision in H.
  destruct (_would_route_without_triage _ _) as [[]|]; [by eapply Hroute|by eapply Hconduct|].
  destruct (_triage_workflow_required _ _ _) as [t [[]|e]]; [by apply (Hconduct (with_triage t s))|by apply (Hroute (with_triage t s))|].
  injection H as <- <-. by repeat split.
Qed.

End charged.

(** ** A small gateway with a cache *)

Definition demo_server_env (judge_ok : bool) : complete_env :=
  {| cm_conduct := demo_conduct demo_pool "template" true "" no_budget;
     cm_route := demo_route (JudgeInstalled (demo_judge judge_ok NoProjection));
     cm_triage := demo_triage demo_pool (λ _, Ok "no"); cm_effort := None; cm_defaults := []; cm_scoped := [] |}.

Definition demo_completion (mode : string) (bypass : bool) : completion :=
  {| cq_messages := demo_messages; cq_mode := mode; cq_bypass_cache := bypass;
     cq_model_name := GATEWAY_DEFAULT_MODEL; cq_cache_partition := None; cq_foreign := false |}.

#[local] Instance demo_cache : CacheProvider memory_cache := memory_provider seconds (float_of_Z 60) 4.
#[local] Instance demo_cache_laws : CacheLaws memory_cache := memory_laws seconds (float_of_Z 60) 4.
#[local] Existing Instance scripted.
#[local] Existing Instance scripted_laws.

Definition demo_server : server memory_cache :=
  {| sv_gateway := fresh_gateway; sv_cache := Some new_cache; sv_triage := no_triage |}.

Abbreviation demo_complete := (complete (λ _, "") (λ s, s)).
Abbreviation demo_history := (serve_all (λ _, "") (λ s, s) demo_server).

Definition twice : list (complete_env * completion) :=
  [(demo_server_env true, demo_completion "auto" false); (demo_server_env true, demo_completion "auto" false)].

Lemma private_requests_uncached_witness :
  let q := demo_completion "route" true in
  (complete (λ _, "") (λ s, s) (demo_server_env true) q demo_server).1 =
  with_cache (Some new_cache) (complete (λ _, "") (λ s, s) (demo_server_env true) q (with_cache None demo_server)).1.
Proof.
  intros q. pose proof (private_requests_uncached (λ _, "") (λ s, s) (demo_server_env true) q demo_server (Some new_cache)
    (or_introl eq_refl)) as H. exact (f_equal fst H).
Defined.

Lemma complete_cache_transparent_witness :
  let q := demo_completion "route" false in
  let '(s', out) := demo_complete (demo_server_env true) q demo_server in
  (dget "cache_status" <$> out) = Ok (VStr "miss") ∧
  sv_gateway s' = sv_gateway (demo_complete (demo_server_env true) q (with_cache None demo_server)).1.
Proof.
  intros q. assert (Ho : (dget "cache_status" <$> (demo_complete (demo_server_env true) q demo_server).2) = Ok (VStr "miss"))
    by (vm_compute; reflexivity).
  destruct (demo_complete (demo_server_env true) q demo_server) as [s' out] eqn:Hc. cbn [snd] in Ho.
  split; [exact Ho|].
  destruct (complete_cache_transparent (λ _, "") (λ s, s) _ _ _ _ _ Hc) as [(r & -> & _)|(_ & Hg & _)]; [|exact Hg].
  exfalso. cbn [fmap res_fmap] in Ho. rewrite status_of in Ho. discriminate.
Defined.

Definition cache_statuses (answers : list (complete_env * completion * res flow_error response)) : list pyval :=
  map (λ a, match a.2 with Ok r => dget "cache_status" r | Raise _ => VNone end) answers.

Lemma hits_are_earlier_answers_witness :
  ∃ r r', (demo_history twice).2 !! 1%nat = Some (demo_server_env true, demo_completion "auto" false, Ok r) ∧
    (demo_history twice).2 !! 0%nat = Some (demo_server_env true, demo_completion "auto" false, Ok (with_status "miss" r')) ∧
    r = with_status "hit" r'.
Proof.
  assert (Hs : cache_statuses (demo_history twice).2 = [VStr "miss"; VStr "hit"]) by (vm_compute; reflexivity).
  apply (f_equal (λ l, l !! 1%nat)) in Hs. unfold cache_statuses in Hs. rewrite list_lookup_fmap in Hs.
  destruct ((demo_history twice).2 !! 1%nat) as [[[ce q] [r|e]]|] eqn:Hj; [|done..].
  assert (Hin : (ce, q) ∈ twice) by (eapply serve_all_in, list_elem_of_lookup_2; exact Hj).
  assert (Hall : ∀ x, x ∈ twice → x = (demo_server_env true, demo_completion "auto" false)).
  { intros x Hx. repeat (apply elem_of_cons in Hx as [->|Hx]; [done|]). by apply elem_of_nil in Hx. }
  pose proof (Hall _ Hin) as Heq. injection Heq as -> ->. cbn in Hs. injection Hs as Hst.
  destruct (hits_are_earlier_answers (λ _, "") (λ s, s) (λ _, None) demo_server twice 1%nat
              (demo_server_env true) (demo_completion "auto" false) r) as (_ & i & ce' & q' & r' & v & Hi & Ha & Hv & Hr & _).
  - intros c key v [= <-] [t Ht]. by apply elem_of_nil in Ht.
  - intros x y Hx Hy _. by rewrite (Hall x Hx), (Hall y Hy).
  - intros x Hx. rewrite (Hall x Hx). apply normal_readable. vm_compute. reflexivity.
  - exact Hj.
  - exact Hst.
  - exists r, r'. split; [reflexivity|]. assert (i = 0%nat) as -> by lia. rewrite Ha.
    assert (Hin' : (ce', q') ∈ twice) by (eapply serve_all_in, list_elem_of_lookup_2; exact Ha).
    pose proof (Hall _ Hin') as Heq'. injection Heq' as -> ->. injection Hv as Hv. subst v. split; [reflexivity|exact Hr].
Defined.

Definition demo_run_request (run_id : string) : run_request :=
  {| rr_completion := demo_completion "auto" false; rr_workflow_run_id := run_id |}.

Abbreviation run_twice :=
  (let first := run (λ _, "") (λ s, s) (demo_server_env true) (demo_run_request "r1") demo_server in
   (first, run (λ _, "") (λ s, s) (demo_server_env true) (demo_run_request "r2") first.1)).


(** An answer from the cache is charged again: the second run below called nobody,
    and its tokens count against the spend budget a second time. *)
Theorem hit_charged_again :
  let '(first, second) := run_twice in
  cache_statuses [(demo_server_env true, demo_completion "auto" false, second.2)] = [VStr "hit"] ∧
  (gw_invoked (sv_gateway second.1) = gw_invoked (sv_gateway first.1)) ∧
  bm_tokens (gw_meter (sv_gateway first.1)) = 18 ∧ bm_tokens (gw_meter (sv_gateway second.1)) = 36.
Proof. vm_compute. done. Qed.
