(* ===== verification/PyDecimal.v ===== *)
(** Python's [decimal.Decimal] in the default context (28 digits, rounding half
    even), its [quantize], and the conversions between [Decimal] and [float].

    A finite decimal is an integer coefficient and a power of ten; the sign of a
    zero is not kept. The exponent range of the context (10^999999) is not
    modelled: no value of the modelled code comes near it. *)

From Stdlib Require Import Ascii String.
From S2P Require Import Prelude PyString PyFloat.
Open Scope Z_scope.

Record decimal := Dec { dec_coef : Z; dec_exp : Z }.

#[export] Instance decimal_eq_dec : EqDecision decimal.
Proof. solve_decision. Defined.

Definition dec0 : decimal := Dec 0 0.

(** ** Digits *)

Fixpoint ndigits_from (fuel : nat) (n : Z) : Z :=
  match fuel with
  | O => 0
  | S fuel' => if n <? 10 then 1 else 1 + ndigits_from fuel' (n / 10)
  end.

(** The number of decimal digits of [n]; one for zero. *)
Definition ndigits (n : Z) : Z := ndigits_from (S (Z.to_nat (Z.log2 (Z.abs n)))) (Z.abs n).

(** ** Rounding of a quotient *)

(** Half to even, for [d > 0]. *)
Definition div_half_even (n d : Z) : Z :=
  let q := n / d in
  let r := n mod d in
  if 2 * r <? d then q
  else if d <? 2 * r then q + 1
  else if Z.even q then q else q + 1.

(** [ROUND_HALF_UP]: half away from zero, for [d > 0]. *)
Definition div_half_up (n d : Z) : Z := Z.sgn n * ((2 * Z.abs n + d) / (2 * d)).

(** ** Arithmetic *)

Definition PRECISION : Z := 28.

(** An exact result brought to the precision of the context. *)
Definition dec_fix (x : decimal) : decimal :=
  let k := ndigits (dec_coef x) - PRECISION in
  if k <=? 0 then x else Dec (div_half_even (dec_coef x) (10 ^ k)) (dec_exp x + k).

(** The coefficient of [x] at an exponent [e] not above its own. *)
Definition coef_at (e : Z) (x : decimal) : Z := dec_coef x * 10 ^ (dec_exp x - e).

Definition dec_add (x y : decimal) : decimal :=
  let e := Z.min (dec_exp x) (dec_exp y) in
  dec_fix (Dec (coef_at e x + coef_at e y) e).

Definition dec_mul (x y : decimal) : decimal :=
  dec_fix (Dec (dec_coef x * dec_coef y) (dec_exp x + dec_exp y)).

(** [x / Decimal(1000)]: dividing by a power of ten only moves the exponent. *)
Definition dec_thousandth (x : decimal) : decimal := dec_fix (Dec (dec_coef x) (dec_exp x - 3)).

Definition dec_of_Z (n : Z) : decimal := Dec n 0.

(** [x.quantize(Decimal("0.000001"), rounding=ROUND_HALF_UP)]; [None] is
    [InvalidOperation], a result of more digits than the precision. *)
Definition micro_units (x : decimal) : Z :=
  if -6 <=? dec_exp x then dec_coef x * 10 ^ (dec_exp x + 6)
  else div_half_up (dec_coef x) (10 ^ (- 6 - dec_exp x)).

Definition quantize_micro (x : decimal) : option decimal :=
  let n := micro_units x in
  if ndigits n <=? PRECISION then Some (Dec n (-6)) else None.

(** ** Decimal and float *)

(** [float(x)]: the nearest binary64; beyond 10^310 and below 10^-330 the
    quotient is not computed. *)
Definition float_of_decimal (x : decimal) : float :=
  let c := dec_coef x in
  let e := dec_exp x in
  let size := ndigits c + e in
  if c =? 0 then S754_zero false
  else if 310 <? size then S754_infinity (c <? 0)
  else if size <? -330 then S754_zero (c <? 0)
  else if 0 <=? e then binary_normalize 53 1024 (c * 10 ^ e) 0 false
  else SFdiv 53 1024 (S754_finite (c <? 0) (Z.to_pos (Z.abs c)) 0)
             (S754_finite false (Z.to_pos (10 ^ (- e))) 0).

(** The exact value of a finite float. *)
Definition exact_decimal (x : float) : decimal :=
  match x with
  | S754_finite s m e =>
      let n := if s then Z.neg m else Z.pos m in
      if 0 <=? e then Dec (n * 2 ^ e) 0 else Dec (n * 5 ^ (- e)) e
  | _ => dec0
  end.

(** The decimals of [p] digits next to the exact value that read back to the
    float, the nearer one first. *)
Definition short_candidates (x : float) (d : decimal) (p : Z) : list decimal :=
  let k := ndigits (dec_coef d) - p in
  if k <=? 0 then [d]
  else
    let c := Z.abs (dec_coef d) in
    let lo := c / 10 ^ k in
    let both := if 2 * (c mod 10 ^ k) <=? 10 ^ k then [lo; lo + 1] else [lo + 1; lo] in
    List.filter (λ y, bool_decide (float_of_decimal y = x))
      (map (λ m, Dec (Z.sgn (dec_coef d) * m) (dec_exp d + k)) both).

Fixpoint shortest (fuel : nat) (x : float) (d : decimal) (p : Z) : decimal :=
  match fuel with
  | O => d
  | S fuel' =>
      match short_candidates x d p with
      | y :: _ => y
      | [] => shortest fuel' x d (p + 1)
      end
  end.

(** [Decimal(str(x))] for a finite float: [repr] prints the shortest text that
    reads back to [x], of 17 digits at most. *)
Definition decimal_of_float (x : float) : decimal := shortest 17 x (exact_decimal x) 1.

(** ** Text *)

(** What [Decimal(text)] makes: a number, an infinity or a NaN; [None] is
    [InvalidOperation]. *)
Inductive parsed_decimal := PFinite (d : decimal) | PInfinite | PNaN.

Fixpoint take_digits (n : Z) (count : Z) (l : list ascii) : Z * Z * list ascii :=
  match l with
  | c :: l' => if is_digit c then take_digits (10 * n + (ord c - 48)) (count + 1) l' else (n, count, l)
  | [] => (n, count, [])
  end.

Definition take_sign (l : list ascii) : Z * list ascii :=
  match l with
  | "-"%char :: l' => (-1, l')
  | "+"%char :: l' => (1, l')
  | _ => (1, l)
  end.

Definition parse_exponent (l : list ascii) : option Z :=
  match l with
  | [] => Some 0
  | c :: l' =>
      if bool_decide (c = "e"%char ∨ c = "E"%char) then
        let '(s, l1) := take_sign l' in
        let '(n, count, rest) := take_digits 0 0 l1 in
        if (0 <? count) && bool_decide (rest = []) then Some (s * n) else None
      else None
  end.

(** The exponents the implementation can hold. *)
Definition MAX_EXPONENT : Z := 999999999999999999.

Definition parse_number (s : Z) (l : list ascii) : option decimal :=
  let '(n, whole, l1) := take_digits 0 0 l in
  let '(m, frac, l2) := match l1 with "."%char :: l1' => take_digits n 0 l1' | _ => (n, 0, l1) end in
  if whole + frac =? 0 then None
  else match parse_exponent l2 with
       | Some e => if Z.abs e <=? MAX_EXPONENT then Some (Dec (s * m) (e - frac)) else None
       | None => None
       end.

Definition parse_decimal (text : string) : option parsed_decimal :=
  let '(s, l) := take_sign (List.filter (λ c, negb (Ascii.eqb c "_"%char)) (str_list (str_strip text))) in
  let word := str_lower (list_str l) in
  let '(_, _, after_nan) :=
    take_digits 0 0 (str_list (if str_startswith "nan" word then substring 3 (String.length word) word
                               else substring 4 (String.length word) word)) in
  if bool_decide (word = "inf" ∨ word = "infinity") then Some PInfinite
  else if (str_startswith "nan" word || str_startswith "snan" word) && bool_decide (after_nan = [])
  then Some PNaN
  else PFinite <$> parse_number s l.

(** ** Values

    Decimals are compared by value: at a common exponent their coefficients
    agree. *)

Definition dec_eqv (x y : decimal) : Prop :=
  let e := Z.min (dec_exp x) (dec_exp y) in coef_at e x = coef_at e y.

(** The coefficients at every lower exponent agree as well. *)
Lemma coef_at_lower e e' x : e' ≤ e ≤ dec_exp x → coef_at e' x = coef_at e x * 10 ^ (e - e').
Proof.
  intros ?. unfold coef_at. rewrite <- Z.mul_assoc, <- Z.pow_add_r by lia.
  do 2 f_equal. lia.
Qed.

Lemma dec_eqv_at e x y :
  e ≤ dec_exp x → e ≤ dec_exp y → dec_eqv x y ↔ coef_at e x = coef_at e y.
Proof.
  intros Hx Hy. unfold dec_eqv. set (m := Z.min (dec_exp x) (dec_exp y)).
  rewrite (coef_at_lower m e x), (coef_at_lower m e y) by lia.
  assert (0 < 10 ^ (m - e)) by (apply Z.pow_pos_nonneg; lia). nia.
Qed.

#[export] Instance dec_eqv_equivalence : Equivalence dec_eqv.
Proof.
  split.
  - intros x. done.
  - intros x y H. unfold dec_eqv in *. by rewrite Z.min_comm.
  - intros x y z Hxy Hyz. set (e := Z.min (dec_exp x) (Z.min (dec_exp y) (dec_exp z))).
    apply (dec_eqv_at e) in Hxy, Hyz; [|lia..]. apply (dec_eqv_at e); [lia..|congruence].
Qed.

(** ** Digit counts *)

Lemma ndigits_from_bounds fuel n :
  0 ≤ n < 2 ^ Z.of_nat fuel → (0 < fuel)%nat →
  n < 10 ^ ndigits_from fuel n ∧ 1 ≤ ndigits_from fuel n ∧ (0 < n → 10 ^ (ndigits_from fuel n - 1) ≤ n).
Proof.
  revert n. induction fuel as [|fuel IH]; intros n Hn Hf; [lia|]. cbn [ndigits_from].
  destruct (Z.ltb_spec n 10) as [Hlt|Hlt]; [cbn; lia|].
  rewrite Nat2Z.inj_succ, Z.pow_succ_r in Hn by lia.
  assert (n = 10 * (n / 10) + n mod 10) by (apply Z.div_mod; lia).
  assert (0 ≤ n mod 10 < 10) by (apply Z.mod_pos_bound; lia).
  assert ((0 < fuel)%nat) as Hfuel by (destruct fuel; cbn in *; lia).
  destruct (IH (n / 10)) as (H1 & H2 & H3); [lia|done|].
  specialize (H3 ltac:(lia)). set (k := ndigits_from fuel (n / 10)) in *.
  replace (1 + k - 1) with (Z.succ (k - 1)) by lia.
  rewrite Z.pow_add_r, (Z.pow_succ_r 10 (k - 1)) by lia. lia.
Qed.

Lemma ndigits_bounds n :
  Z.abs n < 10 ^ ndigits n ∧ 1 ≤ ndigits n ∧ (n ≠ 0 → 10 ^ (ndigits n - 1) ≤ Z.abs n).
Proof.
  unfold ndigits. destruct (ndigits_from_bounds (S (Z.to_nat (Z.log2 (Z.abs n)))) (Z.abs n)) as (H1 & H2 & H3).
  - rewrite Nat2Z.inj_succ, Z2Nat.id by apply Z.log2_nonneg. split; [lia|].
    destruct (decide (n = 0)) as [->|]; [done|]. apply Z.log2_spec. lia.
  - lia.
  - split_and!; [done..|]. intros. apply H3. lia.
Qed.

Lemma ndigits_le n k : 1 ≤ k → ndigits n ≤ k ↔ Z.abs n < 10 ^ k.
Proof.
  intros Hk. destruct (ndigits_bounds n) as (H1 & H2 & H3). split; intros H.
  - eapply Z.lt_le_trans; [exact H1|]. apply Z.pow_le_mono_r; lia.
  - destruct (decide (n = 0)) as [->|Hn]; [change (ndigits 0) with 1; lia|]. specialize (H3 Hn).
    destruct (Z.le_gt_cases (ndigits n) k) as [|Hgt]; [done|].
    assert (10 ^ k ≤ 10 ^ (ndigits n - 1)) by (apply Z.pow_le_mono_r; lia). lia.
Qed.

(** ** Rounding *)

Lemma div_half_up_bounds n d : 0 < d → 2 * Z.abs (d * div_half_up n d - n) ≤ d.
Proof.
  intros Hd. unfold div_half_up.
  assert (2 * Z.abs n + d = 2 * d * ((2 * Z.abs n + d) / (2 * d)) + (2 * Z.abs n + d) mod (2 * d))
    by (apply Z.div_mod; lia).
  assert (0 ≤ (2 * Z.abs n + d) mod (2 * d) < 2 * d) by (apply Z.mod_pos_bound; lia).
  set (q := (2 * Z.abs n + d) / (2 * d)) in *.
  destruct (Z.sgn_spec n) as [[? ->]|[[? ->]|[? ->]]]; [lia| |lia]. subst n. cbn in *. nia.
Qed.

Lemma div_half_up_scale n d k : 0 < d → 0 < k → div_half_up (n * k) (d * k) = div_half_up n d.
Proof.
  intros Hd Hk. unfold div_half_up. rewrite Z.sgn_mul, (Z.sgn_pos k), Z.mul_1_r by done.
  f_equal. rewrite Z.abs_mul, (Z.abs_eq k) by lia.
  replace (2 * (Z.abs n * k) + d * k) with ((2 * Z.abs n + d) * k) by lia.
  replace (2 * (d * k)) with (2 * d * k) by lia. apply Z.div_mul_cancel_r; lia.
Qed.

Lemma div_half_up_exact n d : 0 < d → div_half_up (n * d) d = n.
Proof.
  intros Hd. pose proof (div_half_up_bounds (n * d) d Hd) as H.
  replace (d * div_half_up (n * d) d - n * d) with (d * (div_half_up (n * d) d - n)) in H by lia.
  rewrite Z.abs_mul, (Z.abs_eq d) in H by lia. nia.
Qed.

Lemma div_half_even_exact n d : 0 < d → div_half_even (n * d) d = n.
Proof.
  intros Hd. unfold div_half_even. rewrite Z.div_mul, Z.mod_mul by lia.
  destruct (Z.ltb_spec (2 * 0) d); [done|lia].
Qed.

(** A result that fits the precision, or whose extra digits are zeros, is exact. *)
Lemma dec_fix_exact x m j :
  0 ≤ j → dec_coef x = m * 10 ^ j → Z.abs m < 10 ^ PRECISION → dec_eqv (dec_fix x) x.
Proof.
  intros Hj Hc Hm. unfold dec_fix. cbv zeta. set (k := ndigits (dec_coef x) - PRECISION).
  destruct (Z.leb_spec k 0) as [Hk|Hk]; [reflexivity|].
  assert (k ≤ j) as Hkj.
  { unfold k. enough (ndigits (dec_coef x) ≤ PRECISION + j) by lia. unfold PRECISION in *.
    apply ndigits_le; [lia|]. rewrite Hc, Z.abs_mul, (Z.abs_eq (10 ^ j)), Z.pow_add_r by lia.
    assert (0 < 10 ^ j) by (apply Z.pow_pos_nonneg; lia). nia. }
  apply (dec_eqv_at (dec_exp x)); cbn; [lia..|]. unfold coef_at. cbn.
  replace (dec_coef x) with (m * 10 ^ (j - k) * 10 ^ k).
  2: { rewrite Hc, <- Z.mul_assoc, <- Z.pow_add_r by lia. do 2 f_equal. lia. }
  rewrite div_half_even_exact by (apply Z.pow_pos_nonneg; lia).
  replace (dec_exp x + k - dec_exp x) with k by lia. rewrite Z.sub_diag. lia.
Qed.

Lemma dec_fix_id x : Z.abs (dec_coef x) < 10 ^ PRECISION → dec_fix x = x.
Proof.
  intros H. unfold dec_fix. apply ndigits_le in H; [|unfold PRECISION; lia].
  by replace (ndigits (dec_coef x) - PRECISION <=? 0) with true by lia.
Qed.

#[export] Instance micro_units_proper : Proper (dec_eqv ==> eq) micro_units.
Proof.
  assert (∀ x y, dec_exp x ≤ dec_exp y → dec_eqv x y → micro_units x = micro_units y) as H.
  { intros x y Hle Heq. apply (dec_eqv_at (dec_exp x)) in Heq; [|lia..]. unfold coef_at in Heq.
    rewrite Z.sub_diag, Z.mul_1_r in Heq. unfold micro_units. rewrite Heq.
    set (j := dec_exp y - dec_exp x) in *. assert (0 ≤ j) by lia.
    destruct (Z.leb_spec (-6) (dec_exp x)) as [Hx|Hx].
    - replace (-6 <=? dec_exp y) with true by lia.
      rewrite <- Z.mul_assoc, <- Z.pow_add_r by lia. do 2 f_equal. lia.
    - destruct (Z.leb_spec (-6) (dec_exp y)) as [Hy|Hy].
      + replace (dec_coef y * 10 ^ j) with (dec_coef y * 10 ^ (dec_exp y + 6) * 10 ^ (- 6 - dec_exp x)).
        * apply div_half_up_exact. apply Z.pow_pos_nonneg; lia.
        * rewrite <- Z.mul_assoc, <- Z.pow_add_r by lia. do 2 f_equal. lia.
      + replace (- 6 - dec_exp x) with (- 6 - dec_exp y + j) by lia. rewrite Z.pow_add_r by lia.
        apply div_half_up_scale; apply Z.pow_pos_nonneg; lia. }
  intros x y Hxy. destruct (Z.le_ge_cases (dec_exp x) (dec_exp y)); [by apply H|].
  symmetry. apply H; [done|]. by symmetry.
Qed.

(** ** Amounts of a whole number of units

    [amount E x n]: the value of [x] is [n] units of [10 ^ E]. While the counts
    of units stay below the precision, the arithmetic is exact. *)

Definition amount (E : Z) (x : decimal) (n : Z) : Prop := dec_eqv x (Dec n E).

#[export] Instance amount_proper E : Proper (dec_eqv ==> eq ==> iff) (amount E).
Proof. intros x y Hxy n _ <-. unfold amount. by rewrite Hxy. Qed.

Section amount.
Context (E : Z).

(** The coefficient at an exponent below and above the unit's. *)
Lemma amount_below x n e : e ≤ dec_exp x → e ≤ E → amount E x n → coef_at e x = n * 10 ^ (E - e).
Proof. intros Hx He H. apply (dec_eqv_at e) in H; cbn; [|lia..]. done. Qed.

Lemma amount_above x n e : E ≤ e ≤ dec_exp x → amount E x n → coef_at e x * 10 ^ (e - E) = n.
Proof.
  intros ? H. apply (dec_eqv_at E) in H; cbn; [|lia..].
  replace (coef_at E (Dec n E)) with n in H by (unfold coef_at; cbn; rewrite Z.sub_diag; lia).
  by rewrite (coef_at_lower e E) in H by lia.
Qed.

Lemma amount_fix x n : amount E x n → Z.abs n < 10 ^ PRECISION → amount E (dec_fix x) n.
Proof.
  intros Hx Hn. unfold amount. transitivity x; [|exact Hx].
  destruct (Z.le_gt_cases (dec_exp x) E) as [He|He].
  - apply (dec_fix_exact x n (E - dec_exp x)); [lia| |done].
    rewrite <- (amount_below x n (dec_exp x)) by (done || lia). unfold coef_at.
    rewrite Z.sub_diag. lia.
  - rewrite dec_fix_id; [done|]. pose proof (amount_above x n (dec_exp x) ltac:(lia) Hx) as H.
    unfold coef_at in H. rewrite Z.sub_diag, Z.mul_1_r in H.
    assert (0 < 10 ^ (dec_exp x - E)) by (apply Z.pow_pos_nonneg; lia). nia.
Qed.

Lemma amount_sum x y a b :
  amount E x a → amount E y b →
  amount E (Dec (coef_at (Z.min (dec_exp x) (dec_exp y)) x + coef_at (Z.min (dec_exp x) (dec_exp y)) y)
                (Z.min (dec_exp x) (dec_exp y))) (a + b).
Proof.
  intros Hx Hy. set (e := Z.min (dec_exp x) (dec_exp y)). unfold amount.
  destruct (Z.le_gt_cases e E) as [He|He].
  - apply (dec_eqv_at e); cbn; [lia..|]. rewrite (amount_below x a), (amount_below y b) by (done || lia).
    unfold coef_at. cbn. rewrite Z.sub_diag. lia.
  - apply (dec_eqv_at E); cbn; [lia..|]. unfold coef_at at 1 4. cbn.
    rewrite <- (amount_above x a e), <- (amount_above y b e) by (done || lia).
    rewrite Z.sub_diag. lia.
Qed.

Lemma amount_add x y a b :
  amount E x a → amount E y b → Z.abs (a + b) < 10 ^ PRECISION → amount E (dec_add x y) (a + b).
Proof. intros. apply amount_fix; [by apply amount_sum|done]. Qed.
End amount.

Lemma amount_mul E F x y a b :
  amount E x a → amount F y b → Z.abs (a * b) < 10 ^ PRECISION → amount (E + F) (dec_mul x y) (a * b).
Proof.
  intros Hx Hy Hn. apply amount_fix; [|done]. unfold amount.
  set (e := Z.min (dec_exp x) E). set (f := Z.min (dec_exp y) F).
  apply (amount_below E x a e) in Hx; [|lia..]. apply (amount_below F y b f) in Hy; [|lia..].
  apply (dec_eqv_at (e + f)); cbn; [lia..|]. unfold coef_at in *. cbn.
  replace (dec_exp x + dec_exp y - (e + f)) with (dec_exp x - e + (dec_exp y - f)) by lia.
  replace (E + F - (e + f)) with (E - e + (F - f)) by lia. rewrite !Z.pow_add_r by lia.
  transitivity (dec_coef x * 10 ^ (dec_exp x - e) * (dec_coef y * 10 ^ (dec_exp y - f))); [lia|].
  rewrite Hx, Hy. lia.
Qed.

Lemma amount_quantize x n :
  amount (-6) x n → Z.abs n < 10 ^ PRECISION → quantize_micro x = Some (Dec n (-6)).
Proof.
  intros Hx Hn. assert (micro_units x = n) as Hu.
  { unfold amount in Hx. rewrite Hx. unfold micro_units. cbn. lia. }
  unfold quantize_micro. rewrite Hu. apply ndigits_le in Hn; [|unfold PRECISION; lia]. by destruct (Z.leb_spec (ndigits n) PRECISION); [|lia].
Qed.

Lemma amount_dec0 E : amount E dec0 0.
Proof. unfold amount, dec_eqv, coef_at. cbn. lia. Qed.
