(* ===== verification/PriceBook.v ===== *)
(** cost_ledger.py: [AttributionDimensions], [PriceEntry] and [PriceBook], over
    the key/value store of kv_config.py.

    Prices and costs are Python floats; the money arithmetic goes through
    [Decimal] (PyDecimal.v), as in the code. [other_str] is [str] of a float or a
    container, which only a caller's odd attribution value reaches. *)

From Stdlib Require Import Ascii String.
From S2P Require Import Prelude PyString PyCollections PyFloat PyValue PyDecimal.
Open Scope Z_scope.

(** ** kv_config.py

    What a client of [ConfigStore] relies on, and the in-memory backend. *)

Class ConfigStore (C : Type) := {
  config_get : string → string → C → option pyval;        (* [None]: the caller's default *)
  config_set : string → string → pyval → C → C;
}.

Class ConfigStoreLaws (C : Type) `{!ConfigStore C} := {
  config_get_set (category key category' key' : string) (v : pyval) (c : C) :
    config_get category' key' (config_set category key v c) =
      if decide ((category', key') = (category, key)) then Some v else config_get category' key' c;
}.

Abbreviation InMemoryConfigStore := (gmap string (gmap string pyval)).

(** [InMemoryConfigStore.get] and [set]. *)
Definition in_memory_get (category key : string) (tree : InMemoryConfigStore) : option pyval :=
  default ∅ (tree !! category) !! key.

Definition in_memory_set (category key : string) (v : pyval) (tree : InMemoryConfigStore) : InMemoryConfigStore :=
  <[category := <[key := v]> (default ∅ (tree !! category))]> tree.

#[export] Instance in_memory_config : ConfigStore InMemoryConfigStore := {|
  config_get := in_memory_get;
  config_set := in_memory_set;
|}.

#[export] Instance in_memory_config_laws : ConfigStoreLaws InMemoryConfigStore.
Proof.
  split. intros category key category' key' v tree. unfold config_get, config_set, in_memory_config, in_memory_get, in_memory_set.
  destruct (decide (category' = category)) as [->|Hc].
  - rewrite lookup_insert_eq. cbn. destruct (decide (key' = key)) as [->|Hk].
    + by rewrite lookup_insert_eq, decide_True.
    + rewrite lookup_insert_ne by done. by rewrite decide_False by congruence.
  - rewrite lookup_insert_ne by done. by rewrite decide_False by congruence.
Qed.

(** [InMemoryConfigStore(seed)]. *)
Definition seed_config {C} `{!ConfigStore C} (seed : list (string * string * pyval)) (c : C) : C :=
  fold_left (λ c '(category, key, v), config_set category key v c) seed c.

(** ** Attribution dimensions *)

Definition ATTRIBUTION_DIMENSION_CATALOG : list (string * string * string) :=
  [("account", "Account", "account_name");
   ("service", "Service", "service_name");
   ("upstream_api", "Upstream API / provider", "upstream_api");
   ("model_name", "Model name", "model_name");
   ("team", "Team", "team_name");
   ("group", "Group", "group_name");
   ("company", "Company", "company_name")].

Definition ATTRIBUTION_DIMENSIONS : list string := map (λ e, e.1.1) ATTRIBUTION_DIMENSION_CATALOG.

(** [_DIMENSION_TO_COLUMN.get(dimension)], with the alias of the provider. *)
Definition dimension_column (dimension : string) : option string :=
  if String.eqb dimension "provider" then Some "upstream_api"
  else snd <$> List.find (λ e, String.eqb e.1.1 dimension) ATTRIBUTION_DIMENSION_CATALOG.

Definition UNATTRIBUTED : string := "unattributed".

Record AttributionDimensions := {
  account : string;
  service : string;
  upstream_api : string;
  model_dimension : string;                               (* model_name *)
  team : string;
  group : string;
  company : string;
}.

Definition unattributed : AttributionDimensions :=
  {| account := UNATTRIBUTED; service := UNATTRIBUTED; upstream_api := UNATTRIBUTED;
     model_dimension := UNATTRIBUTED; team := UNATTRIBUTED; group := UNATTRIBUTED; company := UNATTRIBUTED |}.

Section attribution.
Context (other_str : pyval → string).

(** [str(v)]. *)
Definition str_val (v : pyval) : string :=
  match v with
  | VStr s => s
  | VInt n => str_of_Z n
  | VBool true => "True"
  | VBool false => "False"
  | VNone => "None"
  | _ => other_str v
  end.

(** [known.get(name, UNATTRIBUTED)]: the value of a key that is present and true. *)
Definition known_dimension (data : list (pyval * pyval)) (name : string) : option string :=
  let v := dget name data in if truthy v then Some (str_val v) else None.

Definition from_mapping (data : list (pyval * pyval)) : AttributionDimensions :=
  let known name := default UNATTRIBUTED (known_dimension data name) in
  let upstream :=
    match known_dimension data "upstream_api" with
    | Some s => if str_truthy s then Some s
                else if truthy (dget "provider" data) then Some (str_val (dget "provider" data)) else Some s
    | None => known_dimension data "provider"
    end in
  {| account := known "account"; service := known "service"; upstream_api := default UNATTRIBUTED upstream;
     model_dimension := known "model_name"; team := known "team"; group := known "group";
     company := known "company" |}.
End attribution.

(** ** The price table *)

Definition _PRICE_CATEGORY : string := "llm_price_entries".

Definition _price_key (provider model : string) : string := provider +:+ ":" +:+ model.

(** [Decimal(str(value))] of a raw price. *)
Definition decimal_of_value (value : pyval) : option parsed_decimal :=
  match value with
  | VInt n => Some (PFinite (dec_of_Z n))
  | VFloat x => Some (if is_nan x then PNaN else if is_finite x then PFinite (decimal_of_float x) else PInfinite)
  | VStr s => parse_decimal s
  | VNone | VBool _ | VList _ | VTuple _ | VDict _ => None      (* "None", "True", "[...": no number *)
  end.

Definition _decimal_safe_price (value : pyval) : option float :=
  match decimal_of_value value with
  | Some (PFinite d) =>
      let price := float_of_decimal d in
      if negb (is_finite price) || (dec_coef d <? 0) || (negb (dec_coef d =? 0) && feqb price f0)
      then None else Some price
  | _ => None
  end.

Record PriceEntry := {
  price_provider : pyval;                                 (* provider_name, as the row has it *)
  price_model : pyval;                                    (* model_name *)
  prompt_price_per_1k : float;
  completion_price_per_1k : float;
  price_currency : pyval;                                 (* currency_code *)
}.

(** [entry.as_dict()]. *)
Definition price_as_dict (e : PriceEntry) : pyval :=
  VDict [(VStr "provider_name", price_provider e); (VStr "model_name", price_model e);
         (VStr "prompt_price_per_1k", VFloat (prompt_price_per_1k e));
         (VStr "completion_price_per_1k", VFloat (completion_price_per_1k e));
         (VStr "currency_code", price_currency e)].

Section price_book.
Context {C : Type} `{!ConfigStore C} (default_currency : string).

Definition set_price (provider model : string) (entry : PriceEntry) (c : C) : C :=
  config_set _PRICE_CATEGORY (_price_key provider model) (price_as_dict entry) c.

Definition _parse_price_entry (raw : option pyval) (provider model : string) : option PriceEntry :=
  match raw with
  | Some (VDict d) =>
      match dict_get "prompt_price_per_1k" d, dict_get "completion_price_per_1k" d with
      | Some p, Some q =>
          match _decimal_safe_price p, _decimal_safe_price q with
          | Some prompt_price, Some completion_price =>
              Some {| price_provider := default (VStr provider) (dict_get "provider_name" d);
                      price_model := default (VStr model) (dict_get "model_name" d);
                      prompt_price_per_1k := prompt_price; completion_price_per_1k := completion_price;
                      price_currency := default (VStr default_currency) (dict_get "currency_code" d) |}
          | _, _ => None
          end
      | _, _ => None
      end
  | _ => None
  end.

(** The row of the model, or else the provider's wildcard row. *)
Definition get_price (provider model : string) (c : C) : option PriceEntry :=
  let row candidate := config_get _PRICE_CATEGORY (_price_key provider candidate) c in
  match _parse_price_entry (row model) provider model with
  | Some entry => Some entry
  | None => _parse_price_entry (row "*") provider model
  end.

(** [decimal.InvalidOperation] of a total beyond the precision. *)
Definition cost_of_tokens (tokens : Z) (price_per_1k : float) : decimal :=
  dec_mul (dec_thousandth (dec_of_Z tokens)) (decimal_of_float price_per_1k).

Definition compute_cost (provider model : string) (prompt_tokens completion_tokens : Z) (c : C)
    : res string (float * pyval * bool) :=
  let entry := get_price provider model c in
  if (prompt_tokens =? 0) && (completion_tokens =? 0)
  then Ok (f0, match entry with Some e => price_currency e | None => VStr default_currency end, true)
  else match entry with
       | None => Ok (f0, VStr default_currency, false)
       | Some e =>
           match quantize_micro (dec_add (cost_of_tokens prompt_tokens (prompt_price_per_1k e))
                                         (cost_of_tokens completion_tokens (completion_price_per_1k e))) with
           | Some total => Ok (float_of_decimal total, price_currency e, true)
           | None => Raise "InvalidOperation"
           end
       end.
End price_book.

(** ** Functional behaviour *)

(** A price in units of 10^-12 per 1K tokens. *)
Definition price_units (price : float) (n : Z) : Prop := amount (-12) (decimal_of_float price) n.

(** Prices and token counts whose products stay below the 28 digits. *)
Definition MAX_PRICE_UNITS : Z := 10 ^ 16.
Definition MAX_PRICED_TOKENS : Z := 10 ^ 11.

Lemma cost_of_tokens_amount tokens price P :
  0 ≤ tokens < MAX_PRICED_TOKENS → 0 ≤ P < MAX_PRICE_UNITS → price_units price P →
  amount (-15) (cost_of_tokens tokens price) (tokens * P).
Proof.
  unfold MAX_PRICED_TOKENS, MAX_PRICE_UNITS. intros Ht HP Hp. unfold cost_of_tokens.
  change (-15) with (-3 + -12). apply amount_mul; [|exact Hp|unfold PRECISION; nia].
  unfold dec_thousandth. cbn. apply amount_fix; [|unfold PRECISION; lia]. unfold amount. reflexivity.
Qed.

Lemma cost_total_amount p q pt ct P Q :
  0 ≤ pt < MAX_PRICED_TOKENS → 0 ≤ ct < MAX_PRICED_TOKENS →
  0 ≤ P < MAX_PRICE_UNITS → 0 ≤ Q < MAX_PRICE_UNITS → price_units p P → price_units q Q →
  quantize_micro (dec_add (cost_of_tokens pt p) (cost_of_tokens ct q)) =
    Some (Dec (div_half_up (pt * P + ct * Q) (10 ^ 9)) (-6)).
Proof.
  intros Hpt Hct HP HQ Hp Hq.
  assert (amount (-15) (dec_add (cost_of_tokens pt p) (cost_of_tokens ct q)) (pt * P + ct * Q)) as H.
  { apply amount_add; [by apply cost_of_tokens_amount..|].
    unfold MAX_PRICED_TOKENS, MAX_PRICE_UNITS, PRECISION in *. nia. }
  assert (micro_units (dec_add (cost_of_tokens pt p) (cost_of_tokens ct q)) =
          div_half_up (pt * P + ct * Q) (10 ^ 9)) as Hu by (unfold amount in H; by rewrite H).
  unfold quantize_micro. rewrite Hu.
  assert (ndigits (div_half_up (pt * P + ct * Q) (10 ^ 9)) ≤ PRECISION) as Hd.
  { apply ndigits_le; [unfold PRECISION; lia|].
    pose proof (div_half_up_bounds (pt * P + ct * Q) (10 ^ 9) ltac:(lia)).
    unfold MAX_PRICED_TOKENS, MAX_PRICE_UNITS, PRECISION in *. nia. }
  by destruct (Z.leb_spec (ndigits (div_half_up (pt * P + ct * Q) (10 ^ 9))) PRECISION); [|lia].
Qed.

Section price_book_properties.
Context {C : Type} `{!ConfigStore C} (default_currency : string).

(** C11. The cost of a priced request is the exact cost, prompt tokens and
    completion tokens at their prices per thousand, rounded to the nearest
    millionth: for prices below 10^4 that are whole numbers of 10^-12 and token
    counts below 10^11 no intermediate rounding is visible, the computation
    never fails, and the price is reported as known. *)
Theorem cost_is_exact_to_the_micro provider model pt ct c e P Q :
  get_price default_currency provider model c = Some e →
  price_units (prompt_price_per_1k e) P → price_units (completion_price_per_1k e) Q →
  0 ≤ P < MAX_PRICE_UNITS → 0 ≤ Q < MAX_PRICE_UNITS →
  0 ≤ pt < MAX_PRICED_TOKENS → 0 ≤ ct < MAX_PRICED_TOKENS →
  ∃ n, compute_cost default_currency provider model pt ct c =
         Ok (float_of_decimal (Dec n (-6)), price_currency e, true) ∧
       2 * Z.abs (10 ^ 9 * n - (pt * P + ct * Q)) ≤ 10 ^ 9.
Proof.
  intros He HP HQ HPb HQb Hpt Hct. unfold compute_cost. rewrite He.
  destruct ((pt =? 0) && (ct =? 0)) eqn:Hz.
  - bools. subst. by exists 0.
  - rewrite (cost_total_amount _ _ pt ct P Q) by done.
    eexists. split; [reflexivity|]. by apply div_half_up_bounds.
Qed.

(** A cost reported as unknown is the zero of a request that used tokens of a
    model without a usable price row. *)
Lemma unknown_price_cost provider model pt ct c x cur :
  compute_cost default_currency provider model pt ct c = Ok (x, cur, false) ↔
  (pt ≠ 0 ∨ ct ≠ 0) ∧ get_price default_currency provider model c = None ∧ x = f0 ∧ cur = VStr default_currency.
Proof.
  unfold compute_cost. destruct ((pt =? 0) && (ct =? 0)) eqn:Hz.
  - bools. split; [done|]. intros ([?|?] & _); lia.
  - assert (pt ≠ 0 ∨ ct ≠ 0) as Hu by (apply andb_false_iff in Hz as [?|?]; bools; auto).
    destruct (get_price default_currency provider model c) as [e|].
    + split; [|by intros (_ & ? & _)]. by destruct (quantize_micro _).
    + split; [by intros [= <- <-]|by intros (_ & _ & -> & ->)].
Qed.
End price_book_properties.

(** ** Prices read back *)

Section price_rows.
Context {C : Type} `{!ConfigStore C, !ConfigStoreLaws C} (default_currency : string).

(** A price that survives its text: [float(Decimal(str(x))) == x]. *)
Definition safe_price (x : float) : Prop := _decimal_safe_price (VFloat x) = Some x.

(** A row that was set is the row that is read, and a row of another key leaves
    the reading of a model with a usable row of its own alone. *)
Lemma get_set_price provider model p q currency c :
  safe_price p → safe_price q →
  get_price default_currency provider model
    (set_price provider model
       {| price_provider := VStr provider; price_model := VStr model; prompt_price_per_1k := p;
          completion_price_per_1k := q; price_currency := VStr currency |} c) =
  Some {| price_provider := VStr provider; price_model := VStr model; prompt_price_per_1k := p;
          completion_price_per_1k := q; price_currency := VStr currency |}.
Proof.
  intros Hp Hq. unfold get_price, set_price. rewrite config_get_set, decide_True by done.
  unfold price_as_dict. cbn [_parse_price_entry dict_get key_is String.eqb Ascii.eqb Bool.eqb].
  unfold _parse_price_entry.
  cbn [dict_get key_is String.eqb Ascii.eqb Bool.eqb price_provider price_model prompt_price_per_1k
       completion_price_per_1k price_currency].
  unfold safe_price in Hp, Hq. by rewrite Hp, Hq.
Qed.

Lemma get_set_price_other provider model provider' model' entry c e :
  _price_key provider model ≠ _price_key provider' model' →
  _parse_price_entry default_currency (config_get _PRICE_CATEGORY (_price_key provider model) c) provider model
    = Some e →
  get_price default_currency provider model (set_price provider' model' entry c) = Some e.
Proof.
  intros Hk He. unfold get_price, set_price. rewrite config_get_set, decide_False by congruence.
  by rewrite He.
Qed.

End price_rows.

(** The row key joins provider and model without escaping: different pairs can
    share a row. *)
Lemma price_keys_collide : _price_key "local" "llama:7b" = _price_key "local:llama" "7b".
Proof. reflexivity. Qed.

(** ** A priced model *)

Definition demo_prices : InMemoryConfigStore :=
  set_price "openai" "gpt-4o"
    {| price_provider := VStr "openai"; price_model := VStr "gpt-4o";
       prompt_price_per_1k := float_lit 25 10000; completion_price_per_1k := float_lit 1 100;
       price_currency := VStr "USD" |} ∅.

Lemma cost_is_exact_to_the_micro_witness :
  ∃ n, compute_cost "USD" "openai" "gpt-4o" 1234 567 demo_prices =
         Ok (float_of_decimal (Dec n (-6)), VStr "USD", true) ∧
       2 * Z.abs (10 ^ 9 * n - (1234 * 2500000000 + 567 * 10000000000)) ≤ 10 ^ 9.
Proof.
  assert (get_price "USD" "openai" "gpt-4o" demo_prices =
    Some {| price_provider := VStr "openai"; price_model := VStr "gpt-4o";
            prompt_price_per_1k := float_lit 25 10000; completion_price_per_1k := float_lit 1 100;
            price_currency := VStr "USD" |}) as He by (vm_compute; reflexivity).
  apply (cost_is_exact_to_the_micro "USD" "openai" "gpt-4o" 1234 567 demo_prices _ 2500000000 10000000000 He);
    unfold MAX_PRICE_UNITS, MAX_PRICED_TOKENS; [vm_compute; reflexivity|vm_compute; reflexivity|lia..].
Defined.
