(* ===== verification/LedgerStore.v ===== *)
(** cost_ledger.py: [UsageRecord], its row, the [LedgerStore] contract and the
    in-memory store.

    A row is the dictionary [as_dict] makes; its counts and its cost are
    optional, because [CostLedger.records] may blank them in place. *)

From Stdlib Require Import Ascii String.
From S2P Require Import Prelude PyString PyCollections PyFloat PyValue PriceBook.
Open Scope Z_scope.

Definition MEASUREMENT_STATUSES : list string := ["measured"; "estimated"; "unavailable"].

Record UsageRecord := {
  usage_record_id : string;
  created_at : Z;
  workflow_run_id : option string;
  request_channel : string;
  route_mode : option string;
  provider_name : string;
  model_name : string;
  prompt_tokens : Z;
  completion_tokens : Z;
  total_tokens : Z;
  cost_amount : float;
  currency_code : pyval;
  measurement_status : string;
  price_known : bool;
  attribution : AttributionDimensions;
}.

Record usage_row := {
  row_id : string;
  row_created_at : Z;
  row_run_id : option string;
  row_channel : string;
  row_route_mode : option string;
  row_provider : string;
  row_model : string;
  row_prompt_tokens : option Z;
  row_completion_tokens : option Z;
  row_total_tokens : option Z;
  row_cost : option float;
  row_currency : pyval;
  row_status : string;
  row_price_known : bool;
  row_account : string;
  row_service : string;
  row_upstream : string;
  row_team : string;
  row_group : string;
  row_company : string;
}.

Definition usage_as_dict (r : UsageRecord) : usage_row :=
  {| row_id := usage_record_id r; row_created_at := created_at r; row_run_id := workflow_run_id r;
     row_channel := request_channel r; row_route_mode := route_mode r; row_provider := provider_name r;
     row_model := model_name r; row_prompt_tokens := Some (prompt_tokens r);
     row_completion_tokens := Some (completion_tokens r); row_total_tokens := Some (total_tokens r);
     row_cost := Some (cost_amount r); row_currency := currency_code r; row_status := measurement_status r;
     row_price_known := price_known r; row_account := account (attribution r);
     row_service := service (attribution r); row_upstream := upstream_api (attribution r);
     row_team := team (attribution r); row_group := group (attribution r);
     row_company := company (attribution r) |}.

(** [row.get(column)] of an attribution column. *)
Definition row_column (column : string) (r : usage_row) : string :=
  if String.eqb column "account_name" then row_account r
  else if String.eqb column "service_name" then row_service r
  else if String.eqb column "upstream_api" then row_upstream r
  else if String.eqb column "model_name" then row_model r
  else if String.eqb column "team_name" then row_team r
  else if String.eqb column "group_name" then row_group r
  else if String.eqb column "company_name" then row_company r
  else "".

Definition _within_window (created_at : Z) (start finish : option Z) : bool :=
  negb (match start with Some s => created_at <? s | None => false end) &&
  negb (match finish with Some e => e <=? created_at | None => false end).

(** ** The contract of a store

    [append] returns whether the record was accepted, or raises an exception of
    the named type; [write_rows f] is what assigning [f] into the rows that
    [query] handed out does to the store: nothing where they are copies. *)

Class LedgerStore (St : Type) := {
  append : UsageRecord → St → St * res string bool;
  query : option Z → option Z → St → list usage_row;
  existing_usage_record_ids : list string → St → gset string;
  has_open_transaction : St → bool;
  write_rows : (usage_row → usage_row) → option Z → option Z → St → St;
}.

(** What a client relies on: records are known by their id, an accepted record
    adds its row and only its row, a refused one changes nothing. *)
Class LedgerStoreLaws (St : Type) `{!LedgerStore St} := {
  store_wf : St → Prop;
  store_ids : St → gset string;
  stored_row : UsageRecord → usage_row;
  stored_row_id r : row_id (stored_row r) = usage_record_id r;
  append_wf r s : store_wf s → store_wf (append r s).1;
  append_accepted r s s' :
    store_wf s → append r s = (s', Ok true) →
    (usage_record_id r ∉ store_ids s) ∧ (store_ids s' = {[usage_record_id r]} ∪ store_ids s) ∧
    Permutation (query None None s') (stored_row r :: query None None s);
  append_refused r s s' :
    store_wf s → append r s = (s', Ok false) →
    usage_record_id r ∈ store_ids s ∧ store_ids s' = store_ids s ∧ query None None s' = query None None s;
  append_raised r s s' e :
    store_wf s → append r s = (s', Raise e) →
    store_ids s' = store_ids s ∧ query None None s' = query None None s;
  existing_ids l s : store_wf s → existing_usage_record_ids l s = list_to_set l ∩ store_ids s;
  query_window start finish s :
    query start finish s =
      List.filter (λ row, _within_window (row_created_at row) start finish) (query None None s);
}.

(** ** The in-memory store *)

Record InMemoryLedgerStore := { ms_rows : list usage_row; ms_ids : gset string }.

Definition empty_memory_store : InMemoryLedgerStore := {| ms_rows := []; ms_ids := ∅ |}.

Definition memory_append (r : UsageRecord) (s : InMemoryLedgerStore) : InMemoryLedgerStore * res string bool :=
  if bool_decide (usage_record_id r ∈ ms_ids s) then (s, Ok false)
  else ({| ms_rows := ms_rows s ++ [usage_as_dict r]; ms_ids := {[usage_record_id r]} ∪ ms_ids s |}, Ok true).

Definition memory_query (start finish : option Z) (s : InMemoryLedgerStore) : list usage_row :=
  List.filter (λ row, _within_window (row_created_at row) start finish) (ms_rows s).

Definition memory_existing (usage_record_ids : list string) (s : InMemoryLedgerStore) : gset string :=
  list_to_set usage_record_ids ∩ ms_ids s.

(** The rows a query returns are the dictionaries of the store itself. *)
Definition memory_write_rows (f : usage_row → usage_row) (start finish : option Z) (s : InMemoryLedgerStore)
    : InMemoryLedgerStore :=
  {| ms_rows := map (λ row, if _within_window (row_created_at row) start finish then f row else row) (ms_rows s);
     ms_ids := ms_ids s |}.

#[export] Instance memory_ledger_store : LedgerStore InMemoryLedgerStore := {|
  append := memory_append;
  query := memory_query;
  existing_usage_record_ids := memory_existing;
  has_open_transaction _ := false;
  write_rows := memory_write_rows;
|}.

Lemma within_all t : _within_window t None None = true.
Proof. done. Qed.

Lemma filter_all {A} (p : A → bool) l : (∀ x, p x = true) → List.filter p l = l.
Proof. intros Hp. induction l as [|x l IH]; cbn; [done|]. by rewrite Hp, IH. Qed.

Lemma memory_query_all s : memory_query None None s = ms_rows s.
Proof. unfold memory_query. by apply filter_all. Qed.

#[export] Instance memory_store_laws : LedgerStoreLaws InMemoryLedgerStore.
Proof.
  refine {| store_wf := λ s, ms_ids s = list_to_set (map row_id (ms_rows s)); store_ids := ms_ids;
            stored_row := usage_as_dict |}; cbn.
  - done.
  - intros r s Hs. unfold memory_append. case_bool_decide; cbn; [done|].
    rewrite map_app, list_to_set_app_L, Hs. cbn. set_solver.
  - intros r s s' Hs. unfold memory_append. case_bool_decide; [done|]. intros [= <-].
    split_and!; [done|done|]. rewrite !memory_query_all. symmetry. apply Permutation_cons_append.
  - intros r s s' Hs. unfold memory_append. by case_bool_decide; [intros [= <-]|].
  - intros r s s' e Hs. unfold memory_append. by case_bool_decide.
  - done.
  - intros start finish s. by rewrite memory_query_all.
Defined.

(** ** A sequence of appends *)

Section sequence.
Context {St : Type} `{!LedgerStore St}.

Fixpoint append_each (l : list UsageRecord) (s : St) : St * list (res string bool) :=
  match l with
  | [] => (s, [])
  | r :: l' =>
      let '(s1, x) := append r s in
      let '(s2, xs) := append_each l' s1 in
      (s2, x :: xs)
  end.
End sequence.
