(* ===== verification/SqlLedger.v ===== *)
(** cost_ledger.py: [SqlLedgerStore], the normalised tables of the usage ledger
    on a DB-API connection (sqlite3, or psycopg), its transactions, and the
    migration of the older flattened table.

    A table is the finite map of its primary key. A connection shows its current
    tables and, while a transaction is open, remembers the tables at its start.
    Any statement may raise: [sql_fault n] is what the [n]-th statement of the
    connection raises, and [bind_text] is the driver's binding of a currency to a
    text column, which for a string is that string. *)

From Stdlib Require Import Ascii String.
From S2P Require Import Prelude StateLogic PyString PyCollections PyFloat PyValue PriceBook LedgerStore.
Open Scope Z_scope.

(** ** The tables *)

(** A row of [llm_usage_records], without its key. *)
Record core_row := {
  core_created_at : Z;
  core_run_id : option string;
  core_channel : string;
  core_route_mode : option string;
  core_provider : string;
  core_model : string;
  core_prompt_tokens : Z;
  core_completion_tokens : Z;
  core_total_tokens : Z;
  core_cost : float;
  core_currency : string;
}.

Record usage_db := {
  db_dimensions : gmap string (string * Z);               (* cost_attribution_dimensions *)
  db_usage : gmap string core_row;                        (* llm_usage_records *)
  db_measurements : gmap string string;                   (* usage_measurements *)
  db_knowledge : gmap string bool;                        (* usage_price_knowledge *)
  db_values : gset (string * string);                     (* cost_attribution_values *)
  db_attributions : gmap (string * string) string;        (* usage_record_attributions *)
}.

Definition with_usage_row (id : string) (core : core_row) (db : usage_db) : usage_db :=
  {| db_dimensions := db_dimensions db; db_usage := <[id := core]> (db_usage db);
     db_measurements := db_measurements db; db_knowledge := db_knowledge db; db_values := db_values db;
     db_attributions := db_attributions db |}.

(** [_RELATIONAL_ATTRIBUTION_COLUMNS] *)
Definition _RELATIONAL_ATTRIBUTION_COLUMNS : list (string * string) :=
  [("account", "account_name"); ("service", "service_name"); ("team", "team_name");
   ("group", "group_name"); ("company", "company_name")].

Definition or_unattributed (s : string) : string := if str_truthy s then s else UNATTRIBUTED.

(** [INSERT ... ON CONFLICT DO NOTHING] into a keyed table. *)
Definition insert_new `{Countable K} {A} (k : K) (a : A) (m : gmap K A) : gmap K A :=
  match m !! k with Some _ => m | None => <[k := a]> m end.

(** ** Statements *)

Definition statement : Type := usage_db → res string usage_db.

Definition insert_measurement (id status : string) : statement := λ db,
  Ok {| db_dimensions := db_dimensions db; db_usage := db_usage db;
        db_measurements := insert_new id status (db_measurements db); db_knowledge := db_knowledge db;
        db_values := db_values db; db_attributions := db_attributions db |}.

Definition insert_knowledge (id : string) (known : bool) : statement := λ db,
  Ok {| db_dimensions := db_dimensions db; db_usage := db_usage db;
        db_measurements := db_measurements db; db_knowledge := insert_new id known (db_knowledge db);
        db_values := db_values db; db_attributions := db_attributions db |}.

(** The dimension of a value, and the value of an attribution, are foreign keys. *)
Definition insert_value (dimension value : string) : statement := λ db,
  match db_dimensions db !! dimension with
  | None => Raise "IntegrityError"
  | Some _ =>
      Ok {| db_dimensions := db_dimensions db; db_usage := db_usage db;
            db_measurements := db_measurements db; db_knowledge := db_knowledge db;
            db_values := {[(dimension, value)]} ∪ db_values db; db_attributions := db_attributions db |}
  end.

Definition insert_attribution (id dimension value : string) : statement := λ db,
  if bool_decide ((dimension, value) ∉ db_values db) then Raise "IntegrityError"
  else Ok {| db_dimensions := db_dimensions db; db_usage := db_usage db;
             db_measurements := db_measurements db; db_knowledge := db_knowledge db;
             db_values := db_values db;
             db_attributions := insert_new (id, dimension) value (db_attributions db) |}.

(** The columns and values [_insert_normalized_attribution] writes for a row. *)
Definition attribution_values (row : usage_row) : list (string * string) :=
  map (λ '(dimension, column), (dimension, or_unattributed (row_column column row)))
      _RELATIONAL_ATTRIBUTION_COLUMNS.

Definition _insert_normalized_attribution (id : string) (values : list (string * string)) : list statement :=
  flat_map (λ '(dimension, value), [insert_value dimension value; insert_attribution id dimension value]) values.

Definition satellites (id status : string) (known : bool) (values : list (string * string)) : list statement :=
  [insert_measurement id status; insert_knowledge id known] ++ _insert_normalized_attribution id values.

(** The integers a column holds: 64 bits in SQLite, 32 in PostgreSQL. *)
Definition column_fits (qmark : bool) (n : Z) : bool :=
  if qmark then (- 2 ^ 63 <=? n) && (n <? 2 ^ 63) else (- 2 ^ 31 <=? n) && (n <? 2 ^ 31).

(** ** The connection *)

Record connection := {
  conn_qmark : bool;                                      (* paramstyle: sqlite3, or psycopg *)
  conn_db : usage_db;
  conn_saved : option usage_db;                           (* the tables at BEGIN *)
  conn_statements : nat;
}.

Definition in_transaction (c : connection) : bool := bool_decide (is_Some (conn_saved c)).

Definition conn_with (db : usage_db) (saved : option usage_db) (n : nat) (c : connection) : connection :=
  {| conn_qmark := conn_qmark c; conn_db := db; conn_saved := saved; conn_statements := n |}.

Section sql.
Context (sql_fault : nat → option string) (bind_text : pyval → res string string).

Definition core_of (qmark : bool) (r : UsageRecord) : res string core_row :=
  if negb (forallb (column_fits qmark) [created_at r; prompt_tokens r; completion_tokens r; total_tokens r])
  then Raise (if qmark then "OverflowError" else "NumericValueOutOfRange")
  else bind_text (currency_code r) ≫= λ currency,
       Ok {| core_created_at := created_at r; core_run_id := workflow_run_id r; core_channel := request_channel r;
             core_route_mode := route_mode r; core_provider := provider_name r; core_model := model_name r;
             core_prompt_tokens := prompt_tokens r; core_completion_tokens := completion_tokens r;
             core_total_tokens := total_tokens r; core_cost := cost_amount r; core_currency := currency |}.

(** The insert, and whether it changed a row. *)
Definition insert_usage (id : string) (core : res string core_row) (db : usage_db) : res string (usage_db * bool) :=
  core ≫= λ core,
  match db_usage db !! id with
  | Some _ => Ok (db, false)
  | None => Ok (with_usage_row id core db, true)
  end.

(** One statement on the tables, counted. *)
Definition execute {A} (f : usage_db → res string (usage_db * A)) : ST (usage_db * nat) string A := λ '(db, n),
  match sql_fault n with
  | Some e => ((db, S n), Raise e)
  | None => match f db with
            | Ok (db', a) => ((db', S n), Ok a)
            | Raise e => ((db, S n), Raise e)
            end
  end.

Fixpoint execute_all (l : list statement) : ST (usage_db * nat) string unit :=
  match l with
  | [] => st.ret tt
  | f :: l' => st.bind (execute (λ db, (λ db', (db', tt)) <$> f db)) (λ _, execute_all l')
  end.

(** A statement that touches no row: BEGIN, SAVEPOINT, RELEASE, COMMIT. *)
Definition control : ST (usage_db * nat) string unit := execute (λ db, Ok (db, tt)).

(** The inserts of one record, between the opening and the closing statement. *)
Definition append_inserts (qmark : bool) (r : UsageRecord) : ST (usage_db * nat) string bool :=
  let row := usage_as_dict r in
  let id := usage_record_id r in
  st.bind (if qmark then control else st.ret tt) (λ _,
  st.bind (execute (insert_usage id (core_of qmark r))) (λ accepted,
  st.bind (if accepted then execute_all (satellites id (row_status row) (row_price_known row) (attribution_values row))
           else st.ret tt) (λ _,
  st.bind control (λ _, st.ret accepted)))).

(** [_append_locked]: a caller's sqlite transaction is kept open, behind a
    savepoint; anything else is a transaction of its own. psycopg joins the
    transaction that is open, and commits or rolls it back as a whole. The
    rollback of the handler is taken to succeed. *)
Definition _append_locked (r : UsageRecord) (c : connection) : connection * res string bool :=
  let outer := conn_qmark c && in_transaction c in
  let '((db, n), result) := append_inserts (conn_qmark c) r (conn_db c, conn_statements c) in
  match result with
  | Ok accepted => (conn_with db (if outer then conn_saved c else None) n c, Ok accepted)
  | Raise e =>
      if outer then (conn_with (conn_db c) (conn_saved c) n c, Raise e)
      else (conn_with (default (conn_db c) (conn_saved c)) None n c, Raise e)
  end.

Definition sql_open_transaction (c : connection) : bool := conn_qmark c && in_transaction c.

(** ** Reading *)

Definition select_row (db : usage_db) (id : string) (core : core_row) : usage_row :=
  let value dimension := default UNATTRIBUTED (db_attributions db !! (id, dimension)) in
  {| row_id := id; row_created_at := core_created_at core; row_run_id := core_run_id core;
     row_channel := core_channel core; row_route_mode := core_route_mode core;
     row_provider := core_provider core; row_model := core_model core;
     row_prompt_tokens := Some (core_prompt_tokens core);
     row_completion_tokens := Some (core_completion_tokens core);
     row_total_tokens := Some (core_total_tokens core); row_cost := Some (core_cost core);
     row_currency := VStr (core_currency core);
     row_status := default "unavailable" (db_measurements db !! id);
     row_price_known := default false (db_knowledge db !! id);
     row_account := value "account"; row_service := value "service"; row_upstream := core_provider core;
     row_team := value "team"; row_group := value "group"; row_company := value "company" |}.

(** [ORDER BY created_at, usage_record_id] *)
Definition usage_row_le (a b : usage_row) : bool :=
  (row_created_at a <? row_created_at b) ||
  ((row_created_at a =? row_created_at b) && String.leb (row_id a) (row_id b)).

Definition all_rows (db : usage_db) : list usage_row := map (λ '(id, core), select_row db id core) (map_to_list (db_usage db)).

Definition _query_locked (start finish : option Z) (c : connection) : list usage_row :=
  py_sorted usage_row_le
    (List.filter (λ row, _within_window (row_created_at row) start finish) (all_rows (conn_db c))).

(** The IN clauses, of 500 ids each. *)
Fixpoint chunks (fuel : nat) (l : list string) : list (list string) :=
  match fuel, l with
  | S fuel', _ :: _ => firstn 500 l :: chunks fuel' (skipn 500 l)
  | _, _ => []
  end.

Definition sql_existing (usage_record_ids : list string) (c : connection) : gset string :=
  let ids := fromkeys usage_record_ids in
  fold_left (λ (found : gset string) chunk, found ∪ list_to_set (List.filter (λ id, bool_decide (is_Some (db_usage (conn_db c) !! id))) chunk))
    (chunks (length ids) ids) ∅.

#[local] Instance sql_ledger_store : LedgerStore connection := {|
  append := _append_locked;
  query := _query_locked;
  existing_usage_record_ids := sql_existing;
  has_open_transaction := sql_open_transaction;
  write_rows _ _ _ c := c;                                (* the rows are copies *)
|}.

(** ** The caller of the connection

    Its statements touch no table of the ledger: they open a transaction, commit
    it, or roll it back. *)

Inductive caller_step : connection → connection → Prop :=
| CallerBegins c :
    conn_saved c = None → caller_step c (conn_with (conn_db c) (Some (conn_db c)) (S (conn_statements c)) c)
| CallerCommits c saved :
    conn_saved c = Some saved → caller_step c (conn_with (conn_db c) None (S (conn_statements c)) c)
| CallerRollsBack c saved :
    conn_saved c = Some saved → caller_step c (conn_with saved None (S (conn_statements c)) c).

End sql.

(** ** Statements in sequence *)

Fixpoint run_pure (l : list statement) (db : usage_db) : res string usage_db :=
  match l with
  | [] => Ok db
  | f :: l' => f db ≫= run_pure l'
  end.

Lemma run_pure_app l l' db : run_pure (l ++ l') db = run_pure l db ≫= run_pure l'.
Proof. revert db. induction l as [|f l IH]; intros db; cbn; [done|]. destruct (f db); cbn; [apply IH|done]. Qed.

Lemma insert_new_lookup `{Countable K} {A} (k k' : K) (a : A) m :
  insert_new k a m !! k' = if decide (k' = k) then Some (default a (m !! k)) else m !! k'.
Proof.
  unfold insert_new. destruct (m !! k) as [b|] eqn:Hk; case_decide as Hd; subst; cbn; try done.
  - by rewrite lookup_insert_eq.
  - by rewrite lookup_insert_ne.
Qed.

(** What the attribution statements of one record leave alone. *)
Definition same_core (db db' : usage_db) : Prop :=
  db_dimensions db' = db_dimensions db ∧ db_usage db' = db_usage db ∧
  db_measurements db' = db_measurements db ∧ db_knowledge db' = db_knowledge db.

Lemma insert_attributions id l : ∀ db db',
  run_pure (_insert_normalized_attribution id l) db = Ok db' →
  NoDup l.*1 → (∀ d, d ∈ l.*1 → db_attributions db !! (id, d) = None) →
  same_core db db' ∧
  (∀ d v, (d, v) ∈ db_values db' ↔ (d, v) ∈ l ∨ (d, v) ∈ db_values db) ∧
  (∀ d v, (d, v) ∈ l → is_Some (db_dimensions db !! d)) ∧
  (∀ d v, db_attributions db' !! (id, d) = Some v ↔ (d, v) ∈ l ∨ db_attributions db !! (id, d) = Some v) ∧
  (∀ id' d, id' ≠ id → db_attributions db' !! (id', d) = db_attributions db !! (id', d)).
Proof.
  induction l as [|[d v] l IH]; intros db db' Hrun Hnd Hnone.
  { cbn in Hrun. simplify_eq. split_and!; try done; set_solver. }
  change (insert_value d v db ≫= (λ db, insert_attribution id d v db ≫=
            run_pure (_insert_normalized_attribution id l)) = Ok db') in Hrun.
  destruct (insert_value d v db) as [db1|] eqn:H1; cbn in Hrun; [|done].
  destruct (insert_attribution id d v db1) as [db2|] eqn:H2; cbn in Hrun; [|done].
  unfold insert_value in H1. destruct (db_dimensions db !! d) as [dim|] eqn:Hdim; simplify_eq.
  unfold insert_attribution in H2. case_bool_decide; simplify_eq/=.
  apply NoDup_cons in Hnd as [Hd Hnd].
  apply IH in Hrun as (Hsame & Hv & Hdims & Ha & Ho); [|done|].
  - destruct Hsame as (H1 & H2 & H3 & H4). cbn in *. split_and!; [split_and!; congruence|..].
    + intros d' v'. rewrite Hv. set_solver.
    + intros d' v' [[= -> ->]|Hin]%elem_of_cons; [by rewrite Hdim|]. by eapply Hdims.
    + intros d' v'. rewrite Ha, insert_new_lookup, elem_of_cons.
      rewrite (Hnone d) by (cbn; set_solver). cbn. case_decide as Heq; simplify_eq.
      * rewrite (Hnone d) by (cbn; set_solver). naive_solver.
      * naive_solver.
    + intros id' d' Hne. rewrite Ho by done. rewrite insert_new_lookup. by rewrite decide_False by congruence.
  - intros d' Hd'. cbn. rewrite insert_new_lookup, decide_False; [|set_solver]. apply Hnone. cbn. set_solver.
Qed.

Section statements.
Context (sql_fault : nat → option string) (bind_text : pyval → res string string).

Lemma execute_ok {A} (f : usage_db → res string (usage_db * A)) db n db' n' a :
  execute sql_fault f (db, n) = ((db', n'), Ok a) → f db = Ok (db', a).
Proof. cbn. destruct (sql_fault n); [done|]. destruct (f db) as [[db1 a1]|e]; cbn; by intros [= -> _ ->]. Qed.

Lemma execute_all_ok l : ∀ db n db' n',
  execute_all sql_fault l (db, n) = ((db', n'), Ok tt) → run_pure l db = Ok db'.
Proof.
  induction l as [|f l IH]; intros db n db' n'; [by intros [= -> _]|]. cbn [execute_all run_pure].
  intros H. unfold st.bind in H.
  destruct (execute sql_fault _ (db, n)) as [[db1 n1] [[]|e]] eqn:He; [|done].
  apply execute_ok in He. destruct (f db) as [db2|]; cbn in *; [|done]. simplify_eq. by eapply IH.
Qed.

(** The tables after the inserts of a record that was new, or known already. *)
Lemma append_inserts_ok q r db n db' n' accepted :
  append_inserts sql_fault bind_text q r (db, n) = ((db', n'), Ok accepted) →
  let id := usage_record_id r in
  ∃ core, core_of bind_text q r = Ok core ∧
  if accepted then
    db_usage db !! id = None ∧
    run_pure (satellites id (measurement_status r) (price_known r) (attribution_values (usage_as_dict r)))
             (with_usage_row id core db) = Ok db'
  else is_Some (db_usage db !! id) ∧ db' = db.
Proof.
  intros H id. unfold append_inserts in H.
  apply st_bind_Ok_inv in H as ([db0 n0] & [] & H0 & H).
  assert (db0 = db) as ->.
  { destruct q; [apply execute_ok in H0|unfold st.ret in H0]; congruence. }
  apply st_bind_Ok_inv in H as ([db1 n1] & acc & H1 & H).
  apply execute_ok in H1. unfold insert_usage in H1.
  destruct (core_of bind_text q r) as [core|] eqn:Hcore; cbn in H1; [|done]. exists core. split; [done|].
  apply st_bind_Ok_inv in H as ([db2 n2] & [] & H2 & H).
  apply st_bind_Ok_inv in H as ([db3 n3] & [] & H3 & H).
  apply execute_ok in H3. unfold st.ret in H. simplify_eq.
  fold id in H1, H2. destruct (db_usage db !! id) as [old|] eqn:Hid; simplify_eq.
  - unfold st.ret in H2. simplify_eq. eauto.
  - split; [done|]. by apply execute_all_ok in H2.
Qed.
End statements.

(** ** Integrity

    Every usage row has its measurement, its price knowledge and its five
    attributions, and no satellite row is without its usage row; the foreign keys
    hold. *)

Definition relational_dimensions : list string := _RELATIONAL_ATTRIBUTION_COLUMNS.*1.

Record ledger_ok (db : usage_db) : Prop := {
  ok_measurement id : is_Some (db_measurements db !! id) ↔ is_Some (db_usage db !! id);
  ok_knowledge id : is_Some (db_knowledge db !! id) ↔ is_Some (db_usage db !! id);
  ok_attribution id d :
    is_Some (db_attributions db !! (id, d)) ↔ is_Some (db_usage db !! id) ∧ d ∈ relational_dimensions;
  ok_value id d v : db_attributions db !! (id, d) = Some v → (d, v) ∈ db_values db;
  ok_dimension d v : (d, v) ∈ db_values db → is_Some (db_dimensions db !! d);
}.

Lemma attribution_values_fst row : (attribution_values row).*1 = relational_dimensions.
Proof. done. Qed.

Lemma relational_NoDup : NoDup relational_dimensions.
Proof. by apply (bool_decide_unpack (NoDup relational_dimensions)); vm_compute. Qed.

(** The tables after a record that was new. *)
Lemma new_record_tables id core status known row db db' :
  ledger_ok db → db_usage db !! id = None →
  run_pure (satellites id status known (attribution_values row)) (with_usage_row id core db) = Ok db' →
  ledger_ok db' ∧ db_usage db' = <[id := core]> (db_usage db) ∧
  db_measurements db' = <[id := status]> (db_measurements db) ∧
  db_knowledge db' = <[id := known]> (db_knowledge db) ∧
  (∀ d v, db_attributions db' !! (id, d) = Some v ↔ (d, v) ∈ attribution_values row) ∧
  (∀ id' d, id' ≠ id → db_attributions db' !! (id', d) = db_attributions db !! (id', d)).
Proof.
  intros Hok Hid Hrun.
  assert (db_measurements db !! id = None) as Hm.
  { apply eq_None_not_Some. intros H%ok_measurement; [|done]. rewrite Hid in H. by destruct H. }
  assert (db_knowledge db !! id = None) as Hk.
  { apply eq_None_not_Some. intros H%ok_knowledge; [|done]. rewrite Hid in H. by destruct H. }
  assert (∀ d, db_attributions db !! (id, d) = None) as Ha.
  { intros d. apply eq_None_not_Some. intros [H _]%ok_attribution; [|done]. rewrite Hid in H. by destruct H. }
  pose proof (attribution_values_fst row) as Hfst. remember (attribution_values row) as values eqn:Hval. clear Hval row.
  unfold satellites in Hrun. rewrite run_pure_app in Hrun. cbn in Hrun. unfold insert_new in Hrun.
  rewrite Hm, Hk in Hrun.
  apply insert_attributions in Hrun as ((Hd' & Hu' & Hm' & Hk') & Hv & Hdim & Ha' & Hother).
  2: { rewrite Hfst. apply relational_NoDup. }
  2: { intros d _. apply Ha. }
  cbn in Hd', Hu', Hm', Hk', Hv, Hdim, Ha', Hother.
  assert (∀ d v, db_attributions db' !! (id, d) = Some v ↔ (d, v) ∈ values) as Hnew.
  { intros d v. rewrite Ha', Ha. naive_solver. }
  split; [|by split_and!].
  split.
  - intros id'. rewrite Hm', Hu'. destruct (decide (id' = id)) as [->|Hne].
    + rewrite !lookup_insert_eq. naive_solver.
    + rewrite !lookup_insert_ne by done. by apply ok_measurement.
  - intros id'. rewrite Hk', Hu'. destruct (decide (id' = id)) as [->|Hne].
    + rewrite !lookup_insert_eq. naive_solver.
    + rewrite !lookup_insert_ne by done. by apply ok_knowledge.
  - intros id' d. rewrite Hu'. destruct (decide (id' = id)) as [->|Hne].
    + rewrite lookup_insert_eq. rewrite <- Hfst, list_elem_of_fmap.
      split.
      * intros [v Hin%Hnew]. split; [eauto|]. by exists (d, v).
      * intros [_ ([d' v] & -> & Hin)]. exists v. by apply Hnew.
    + rewrite lookup_insert_ne, Hother by done. by apply ok_attribution.
  - intros id' d v. rewrite Hv. destruct (decide (id' = id)) as [->|Hne].
    + rewrite Hnew. auto.
    + rewrite Hother by done. intros H. right. by eapply ok_value.
  - intros d v. rewrite Hv, Hd'. intros [H|H]; [by eapply Hdim|by eapply ok_dimension].
Qed.

(** ** Rows *)

Lemma select_row_other db db' id core :
  db_measurements db' !! id = db_measurements db !! id → db_knowledge db' !! id = db_knowledge db !! id →
  (∀ d, db_attributions db' !! (id, d) = db_attributions db !! (id, d)) →
  select_row db' id core = select_row db id core.
Proof. intros Hm Hk Ha. unfold select_row. by rewrite Hm, Hk, !Ha. Qed.

(** The row a store of tables shows for a record: the descriptive dimensions
    normalised, the upstream read from the provider. *)
Definition sql_row (bind_text : pyval → res string string) (r : UsageRecord) : usage_row :=
  let a := attribution r in
  {| row_id := usage_record_id r; row_created_at := created_at r; row_run_id := workflow_run_id r;
     row_channel := request_channel r; row_route_mode := route_mode r; row_provider := provider_name r;
     row_model := model_name r; row_prompt_tokens := Some (prompt_tokens r);
     row_completion_tokens := Some (completion_tokens r); row_total_tokens := Some (total_tokens r);
     row_cost := Some (cost_amount r);
     row_currency := match bind_text (currency_code r) with Ok s => VStr s | Raise _ => currency_code r end;
     row_status := measurement_status r; row_price_known := price_known r;
     row_account := or_unattributed (account a); row_service := or_unattributed (service a);
     row_upstream := provider_name r; row_team := or_unattributed (team a);
     row_group := or_unattributed (group a); row_company := or_unattributed (company a) |}.

Lemma new_row bind_text q r core db' :
  core_of bind_text q r = Ok core →
  db_measurements db' !! usage_record_id r = Some (measurement_status r) →
  db_knowledge db' !! usage_record_id r = Some (price_known r) →
  (∀ d v, db_attributions db' !! (usage_record_id r, d) = Some v ↔ (d, v) ∈ attribution_values (usage_as_dict r)) →
  select_row db' (usage_record_id r) core = sql_row bind_text r.
Proof.
  intros Hcore Hm Hk Ha. unfold core_of in Hcore.
  destruct (negb _); [done|]. destruct (bind_text (currency_code r)) as [currency|] eqn:Hb; cbn in Hcore; simplify_eq.
  assert (∀ d v, (d, v) ∈ attribution_values (usage_as_dict r) →
          db_attributions db' !! (usage_record_id r, d) = Some v) as Hv by (intros; by apply Ha).
  unfold select_row, sql_row. rewrite Hm, Hk, Hb.
  rewrite (Hv "account" (or_unattributed (account (attribution r)))) by (cbn; set_solver).
  rewrite (Hv "service" (or_unattributed (service (attribution r)))) by (cbn; set_solver).
  rewrite (Hv "team" (or_unattributed (team (attribution r)))) by (cbn; set_solver).
  rewrite (Hv "group" (or_unattributed (group (attribution r)))) by (cbn; set_solver).
  rewrite (Hv "company" (or_unattributed (company (attribution r)))) by (cbn; set_solver).
  done.
Qed.

Lemma all_rows_new id core db db' :
  db_usage db !! id = None → db_usage db' = <[id := core]> (db_usage db) →
  (∀ id' core', id' ≠ id → select_row db' id' core' = select_row db id' core') →
  Permutation (all_rows db') (select_row db' id core :: all_rows db).
Proof.
  intros Hid Hu Hrows. unfold all_rows. rewrite Hu.
  etrans; [apply (fmap_Permutation (λ '(i, c), select_row db' i c)), map_to_list_insert, Hid|].
  cbn. constructor. erewrite map_ext_in; [done|].
  intros [i c] Hin%list_elem_of_In%elem_of_map_to_list. apply Hrows. congruence.
Qed.

(** ** Ordered rows *)

Lemma usage_row_le_total a b : usage_row_le a b = true ∨ usage_row_le b a = true.
Proof.
  unfold usage_row_le. destruct (Z.lt_trichotomy (row_created_at a) (row_created_at b)) as [H|[H|H]].
  - left. by rewrite (proj2 (Z.ltb_lt _ _) H).
  - rewrite H, Z.ltb_irrefl, Z.eqb_refl. cbn. destruct (String.leb_total (row_id a) (row_id b)); auto.
  - right. by rewrite (proj2 (Z.ltb_lt _ _) H).
Qed.

Lemma usage_row_le_spec a b :
  usage_row_le a b = true ↔ row_created_at a < row_created_at b ∨
                      (row_created_at a = row_created_at b ∧ String.leb (row_id a) (row_id b) = true).
Proof. unfold usage_row_le. by rewrite orb_true_iff, andb_true_iff, Z.ltb_lt, Z.eqb_eq. Qed.

Lemma usage_row_le_trans a b c : usage_row_le a b = true → usage_row_le b c = true → usage_row_le a c = true.
Proof.
  rewrite !usage_row_le_spec. intros [?|[? ?]] [?|[? ?]]; [left; lia..|]. right. split; [lia|].
  by eapply string_leb_trans.
Qed.

Lemma rows_sorted l : StronglySorted (λ a b, usage_row_le a b = true) (py_sorted usage_row_le l).
Proof.
  apply (py_sorted_sorted usage_row_le (λ _, True)); [intros; apply usage_row_le_total| |by apply Forall_true].
  intros a b c _ _ _. apply usage_row_le_trans.
Qed.

(** Filtering a sorted list, or sorting the filtered one. *)
Lemma filter_insert_sorted (p : usage_row → bool) x l :
  StronglySorted (λ a b, usage_row_le a b = true) l →
  List.filter p (insert_sorted usage_row_le x l) =
    if p x then insert_sorted usage_row_le x (List.filter p l) else List.filter p l.
Proof.
  destruct (p x) eqn:Hx; [|intros _; by apply insert_sorted_filter_other].
  induction 1 as [|y l Hs IH Hy]; cbn; [by rewrite Hx|].
  destruct (usage_row_le x y) eqn:Hxy.
  - symmetry. cbn [List.filter]. rewrite Hx. apply (insert_sorted_head usage_row_le x (List.filter p (y :: l))).
    apply Forall_forall. intros z [[<-|Hz]%in_inv _]%list_elem_of_In%filter_In; [done|].
    rewrite Forall_forall in Hy. apply (usage_row_le_trans x y z Hxy), Hy. by apply list_elem_of_In.
  - cbn [List.filter]. destruct (p y); cbn; [|done]. by rewrite Hxy, IH.
Qed.

Lemma filter_py_sorted (p : usage_row → bool) l :
  List.filter p (py_sorted usage_row_le l) = py_sorted usage_row_le (List.filter p l).
Proof.
  induction l as [|x l IH]; cbn; [done|]. rewrite filter_insert_sorted by apply rows_sorted.
  rewrite IH. by destruct (p x).
Qed.

Lemma query_locked_window start finish c :
  _query_locked start finish c =
    List.filter (λ row, _within_window (row_created_at row) start finish) (_query_locked None None c).
Proof. unfold _query_locked. rewrite filter_py_sorted. f_equal. by rewrite (filter_all (λ row, _within_window (row_created_at row) None None)). Qed.

(** ** The lookup of ids *)

Lemma chunks_elem fuel l x : (length l ≤ fuel)%nat → x ∈ l ↔ ∃ chunk, chunk ∈ chunks fuel l ∧ x ∈ chunk.
Proof.
  revert l. induction fuel as [|fuel IH]; intros l Hl; destruct l as [|y l]; cbn [length] in Hl; try lia.
  - cbn. set_solver.
  - cbn. set_solver.
  - cbn [chunks]. assert (x ∈ y :: l ↔ x ∈ firstn 500 (y :: l) ∨ x ∈ skipn 500 (y :: l)) as ->.
    { rewrite <- elem_of_app. by rewrite (firstn_skipn 500 (y :: l)). }
    rewrite (IH (skipn 500 (y :: l))).
    + generalize (firstn 500 (y :: l)), (skipn 500 (y :: l)). intros a b. split.
      * intros [Ha|(chunk & ? & ?)]; [exists a|exists chunk]; split; (done || by (left + right)).
      * intros (chunk & [->|?]%elem_of_cons & ?); [by left|right; by exists chunk].
    + rewrite length_skipn. cbn [length]. lia.
Qed.

Lemma fold_union (f : list string → gset string) l acc x :
  x ∈ fold_left (λ found chunk, found ∪ f chunk) l acc ↔ x ∈ acc ∨ ∃ chunk, chunk ∈ l ∧ x ∈ f chunk.
Proof.
  revert acc. induction l as [|a l IH]; intros acc; cbn; [set_solver|].
  rewrite IH. setoid_rewrite elem_of_cons. set_solver.
Qed.

Lemma sql_existing_ids l c : sql_existing l c = list_to_set l ∩ dom (db_usage (conn_db c)).
Proof.
  apply set_eq. intros x. unfold sql_existing.
  rewrite (fold_union (λ chunk, list_to_set (List.filter (λ id, bool_decide (is_Some (db_usage (conn_db c) !! id))) chunk))).
  rewrite elem_of_intersection, elem_of_dom, elem_of_list_to_set.
  setoid_rewrite elem_of_list_to_set. setoid_rewrite list_elem_of_In. setoid_rewrite filter_In.
  setoid_rewrite bool_decide_eq_true. rewrite <- list_elem_of_In, <- (fromkeys_elem l x).
  rewrite (chunks_elem (length (fromkeys l)) (fromkeys l) x) by done.
  setoid_rewrite list_elem_of_In. set_solver.
Qed.

(** ** The store keeps its contract *)

Section store.
Context (sql_fault : nat → option string) (bind_text : pyval → res string string).

#[local] Hint Extern 0 (LedgerStore connection) => exact (sql_ledger_store sql_fault bind_text) : typeclass_instances.

Record conn_ok (c : connection) : Prop := {
  conn_db_ok : ledger_ok (conn_db c);
  conn_saved_ok saved : conn_saved c = Some saved → ledger_ok saved;
}.

(** Where a store is used through the contract, psycopg has no caller's
    transaction open: there [append] would commit it. *)
Definition conn_wf (c : connection) : Prop :=
  conn_ok c ∧ (conn_qmark c = false → conn_saved c = None).

Lemma append_tables r c c' accepted :
  conn_ok c → _append_locked sql_fault bind_text r c = (c', Ok accepted) →
  conn_ok c' ∧ conn_qmark c' = conn_qmark c ∧
  (conn_saved c' = if conn_qmark c && in_transaction c then conn_saved c else None) ∧
  if accepted then
    (usage_record_id r ∉ dom (db_usage (conn_db c))) ∧
    dom (db_usage (conn_db c')) = {[usage_record_id r]} ∪ dom (db_usage (conn_db c)) ∧
    Permutation (all_rows (conn_db c')) (sql_row bind_text r :: all_rows (conn_db c))
  else usage_record_id r ∈ dom (db_usage (conn_db c)) ∧ conn_db c' = conn_db c.
Proof.
  intros [Hdb Hsaved]. unfold _append_locked.
  destruct (append_inserts sql_fault bind_text (conn_qmark c) r (conn_db c, conn_statements c))
    as [[db n] [acc|e]] eqn:Hi; [|by destruct (conn_qmark c && in_transaction c)].
  intros [= <- ->]. apply append_inserts_ok in Hi as (core & Hcore & Hi). cbn.
  assert (∀ saved, (if conn_qmark c && in_transaction c then conn_saved c else None) = Some saved → ledger_ok saved) as Hs.
  { intros saved. destruct (conn_qmark c && in_transaction c); [apply Hsaved|done]. }
  destruct accepted.
  - destruct Hi as [Hid Hrun].
    apply new_record_tables in Hrun as (Hok & Hu & Hm & Hk & Hnew & Hother); [|done..].
    split_and!; [by split|done|done|by apply not_elem_of_dom|by rewrite Hu, dom_insert_L|].
    rewrite <- (new_row bind_text (conn_qmark c) r core db Hcore); [|by rewrite Hm, lookup_insert_eq|
      by rewrite Hk, lookup_insert_eq|done].
    apply all_rows_new; [done..|]. intros id' core' Hne.
    apply select_row_other; [by rewrite Hm, lookup_insert_ne|by rewrite Hk, lookup_insert_ne|intros; by apply Hother].
  - destruct Hi as [Hid ->]. split_and!; [by split|done|done|by apply elem_of_dom|done].
Qed.

Lemma append_raises r c c' e :
  conn_ok c → _append_locked sql_fault bind_text r c = (c', Raise e) →
  conn_ok c' ∧ conn_qmark c' = conn_qmark c ∧
  if conn_qmark c && in_transaction c then conn_db c' = conn_db c ∧ conn_saved c' = conn_saved c
  else conn_db c' = default (conn_db c) (conn_saved c) ∧ conn_saved c' = None.
Proof.
  intros [Hdb Hsaved]. unfold _append_locked.
  destruct (append_inserts sql_fault bind_text (conn_qmark c) r (conn_db c, conn_statements c)) as [[db n] [acc|e0]];
    [done|].
  destruct (conn_qmark c && in_transaction c); intros [= <- _]; cbn; (split_and!; [split; cbn|done..]); try done.
  destruct (conn_saved c) as [saved|] eqn:Hc; [by apply Hsaved|done].
Qed.

Lemma in_transaction_false c : in_transaction c = false ↔ conn_saved c = None.
Proof. unfold in_transaction. by rewrite bool_decide_eq_false, <- eq_None_not_Some. Qed.

(** A raised append leaves the rows as they were. *)
Lemma append_raises_wf r c c' e :
  conn_wf c → _append_locked sql_fault bind_text r c = (c', Raise e) → conn_wf c' ∧ conn_db c' = conn_db c.
Proof.
  intros [Hok Hpg] H. pose proof H as (Hok' & Hq & Hdb)%append_raises; [|done].
  destruct (conn_qmark c) eqn:Hqm; cbn in Hdb.
  - destruct (in_transaction c) eqn:Htx; destruct Hdb as [Hdb Hs].
    + split; [|done]. split; [done|]. by rewrite Hq.
    + apply in_transaction_false in Htx. rewrite Htx in Hdb. split; [|done]. by split.
  - rewrite (Hpg eq_refl) in Hdb. destruct Hdb as [Hdb Hs]. split; [|done]. by split.
Qed.

#[local] Instance sql_store_laws : LedgerStoreLaws connection.
Proof.
  refine {| store_wf := conn_wf; store_ids := λ c, dom (db_usage (conn_db c)); stored_row := sql_row bind_text |}.
  - done.
  - intros r c Hwf. cbn. destruct (_append_locked sql_fault bind_text r c) as [c' [a|e]] eqn:H; cbn.
    + destruct Hwf as [Hok Hpg]. apply append_tables in H as (Hok' & Hq & Hs & _); [|done].
      split; [done|]. rewrite Hq. intros Hqf. by rewrite Hs, Hqf.
    + by apply append_raises_wf in H as [? _].
  - intros r c c' [Hok _] H. apply append_tables in H as (_ & _ & _ & Hid & Hdom & Hrows); [|done].
    split_and!; [done..|]. cbn. unfold _query_locked. by rewrite !py_sorted_perm, !filter_all.
  - intros r c c' [Hok _] H. apply append_tables in H as (_ & _ & _ & Hid & Hdb); [|done].
    cbn. unfold _query_locked. by rewrite Hdb.
  - intros r c c' e Hwf H. apply append_raises_wf in H as [_ Hdb]; [|done]. cbn. unfold _query_locked. by rewrite Hdb.
  - intros l c _. apply sql_existing_ids.
  - intros start finish c. apply query_locked_window.
Defined.

(** ** What happens on a connection: appends, and the statements of its caller *)

Inductive ledger_step : connection → connection → Prop :=
| LedgerAppends r c : ledger_step c (_append_locked sql_fault bind_text r c).1
| LedgerCaller c c' : caller_step c c' → ledger_step c c'.

Lemma ledger_step_ok c c' : ledger_step c c' → conn_ok c → conn_ok c'.
Proof.
  intros [r c1|c1 c1' Hcaller] Hok.
  - destruct (_append_locked sql_fault bind_text r c1) as [c2 [a|e]] eqn:H.
    + by apply append_tables in H as (? & _).
    + by apply append_raises in H as (? & _).
  - destruct Hcaller as [c2 Hs|c2 saved Hs|c2 saved Hs]; destruct Hok as [Hdb Hsaved]; split; cbn.
    + done.
    + by intros ? [= <-].
    + done.
    + done.
    + by apply Hsaved.
    + done.
Qed.

(** ** Without faults, nothing raises *)

Definition catalog_ok (db : usage_db) : Prop := ∀ d, d ∈ relational_dimensions → is_Some (db_dimensions db !! d).

Lemma attributions_run id l : ∀ db,
  (∀ d, d ∈ l.*1 → is_Some (db_dimensions db !! d)) →
  ∃ db', run_pure (_insert_normalized_attribution id l) db = Ok db' ∧ db_dimensions db' = db_dimensions db.
Proof.
  induction l as [|[d v] l IH]; intros db Hd; [by exists db|].
  change (∃ db', insert_value d v db ≫= (λ db, insert_attribution id d v db ≫=
            run_pure (_insert_normalized_attribution id l)) = Ok db' ∧ db_dimensions db' = db_dimensions db).
  destruct (Hd d) as [dim Hdim]; [cbn; set_solver|]. unfold insert_value. rewrite Hdim. cbn.
  unfold insert_attribution at 1. cbn. rewrite bool_decide_eq_false_2 by set_solver. cbn.
  edestruct IH as (db' & Hrun & Hsame); [|exists db'; split; [exact Hrun|exact Hsame]].
  intros d' Hd'. cbn. apply Hd. cbn. set_solver.
Qed.

Context (sql_faultless : ∀ n, sql_fault n = None).

Lemma execute_faultless {A} (f : usage_db → res string (usage_db * A)) db n db' a :
  f db = Ok (db', a) → execute sql_fault f (db, n) = ((db', S n), Ok a).
Proof. intros Hf. cbn. by rewrite sql_faultless, Hf. Qed.

Lemma execute_all_faultless l : ∀ db n db',
  run_pure l db = Ok db' → ∃ n', execute_all sql_fault l (db, n) = ((db', n'), Ok tt).
Proof.
  induction l as [|f l IH]; intros db n db'; cbn [run_pure execute_all]; [intros [= ->]; by exists n|].
  destruct (f db) as [db1|] eqn:Hf; cbn; [|done]. intros Hrun. unfold st.bind.
  rewrite (execute_faultless _ db n db1 tt) by (by rewrite Hf). by apply IH.
Qed.

Lemma append_succeeds r c :
  catalog_ok (conn_db c) → (∃ core, core_of bind_text (conn_qmark c) r = Ok core) →
  ∃ c' accepted, _append_locked sql_fault bind_text r c = (c', Ok accepted) ∧
                 db_dimensions (conn_db c') = db_dimensions (conn_db c).
Proof.
  intros Hcat [core Hcore].
  enough (∃ db n accepted, append_inserts sql_fault bind_text (conn_qmark c) r (conn_db c, conn_statements c) =
            ((db, n), Ok accepted) ∧ db_dimensions db = db_dimensions (conn_db c)) as (db & n & acc & H & Hd).
  { unfold _append_locked. rewrite H. eexists _, acc. split; [reflexivity|done]. }
  unfold append_inserts. unfold st.bind at 1.
  assert (∃ n, (if conn_qmark c then control sql_fault else st.ret tt) (conn_db c, conn_statements c) =
            ((conn_db c, n), Ok tt)) as [n0 ->].
  { destruct (conn_qmark c); [eexists; by apply execute_faultless|by eexists]. }
  unfold st.bind at 1. rewrite Hcore.
  destruct (db_usage (conn_db c) !! usage_record_id r) as [old|] eqn:Hid.
  - rewrite (execute_faultless _ (conn_db c) n0 (conn_db c) false) by (unfold insert_usage; cbn; by rewrite Hid).
    unfold st.bind, st.ret. unfold control. rewrite (execute_faultless _ _ _ (conn_db c) tt) by done. by eexists _, _, _.
  - rewrite (execute_faultless _ (conn_db c) n0 (with_usage_row (usage_record_id r) core (conn_db c)) true)
      by (unfold insert_usage; cbn; by rewrite Hid).
    destruct (attributions_run (usage_record_id r) (attribution_values (usage_as_dict r))
      {| db_dimensions := db_dimensions (conn_db c);
         db_usage := <[usage_record_id r := core]> (db_usage (conn_db c));
         db_measurements := insert_new (usage_record_id r) (measurement_status r) (db_measurements (conn_db c));
         db_knowledge := insert_new (usage_record_id r) (price_known r) (db_knowledge (conn_db c));
         db_values := db_values (conn_db c); db_attributions := db_attributions (conn_db c) |})
      as (db & Hrun & Hsame).
    { intros d Hd. rewrite attribution_values_fst in Hd. by apply Hcat. }
    destruct (execute_all_faultless (satellites (usage_record_id r) (row_status (usage_as_dict r))
      (row_price_known (usage_as_dict r)) (attribution_values (usage_as_dict r)))
      (with_usage_row (usage_record_id r) core (conn_db c)) (S n0) db) as [n' Hall].
    { unfold satellites. rewrite run_pure_app. exact Hrun. }
    unfold st.bind at 1. rewrite Hall. unfold st.bind, st.ret, control.
    rewrite (execute_faultless _ db n' db tt) by done. by eexists _, _, _.
Qed.
End store.

(** ** The two stores agree

    The row the tables show for the row of the dictionary store. *)

Definition normal_row (bind_text : pyval → res string string) (row : usage_row) : usage_row :=
  {| row_id := row_id row; row_created_at := row_created_at row; row_run_id := row_run_id row;
     row_channel := row_channel row; row_route_mode := row_route_mode row; row_provider := row_provider row;
     row_model := row_model row; row_prompt_tokens := row_prompt_tokens row;
     row_completion_tokens := row_completion_tokens row; row_total_tokens := row_total_tokens row;
     row_cost := row_cost row;
     row_currency := match bind_text (row_currency row) with Ok s => VStr s | Raise _ => row_currency row end;
     row_status := row_status row; row_price_known := row_price_known row;
     row_account := or_unattributed (row_account row); row_service := or_unattributed (row_service row);
     row_upstream := row_provider row; row_team := or_unattributed (row_team row);
     row_group := or_unattributed (row_group row); row_company := or_unattributed (row_company row) |}.

Definition storable (bind_text : pyval → res string string) (qmark : bool) (r : UsageRecord) : Prop :=
  ∃ core, core_of bind_text qmark r = Ok core.

Lemma filter_perm {A} (p : A → bool) l l' : Permutation l l' → Permutation (List.filter p l) (List.filter p l').
Proof.
  induction 1 as [|x l l' _ IH|x y l|l l' l'' _ IH1 _ IH2]; cbn; [done|..].
  - by destruct (p x); rewrite ?IH.
  - destruct (p x), (p y); (done || apply Permutation_swap).
  - by etrans.
Qed.

Section agreement.
Context (sql_fault : nat → option string) (bind_text : pyval → res string string).

#[local] Hint Extern 0 (LedgerStore connection) => exact (sql_ledger_store sql_fault bind_text) : typeclass_instances.

(** A connection outside of a transaction, over sound tables. *)
Record conn_ready (c : connection) : Prop := {
  ready_ok : conn_ok c;
  ready_idle : conn_saved c = None;
  ready_catalog : catalog_ok (conn_db c);
}.

Record stores_agree (c : connection) (m : InMemoryLedgerStore) : Prop := {
  agree_ready : conn_ready c;
  agree_ids : ms_ids m = dom (db_usage (conn_db c));
  agree_rows : Permutation (all_rows (conn_db c)) (map (normal_row bind_text) (ms_rows m));
}.

Lemma agree_append r c m :
  (∀ n, sql_fault n = None) → storable bind_text (conn_qmark c) r → stores_agree c m →
  ∃ c' m' accepted, append r c = (c', Ok accepted) ∧ append r m = (m', Ok accepted) ∧
    stores_agree c' m' ∧ conn_qmark c' = conn_qmark c.
Proof.
  intros Hfault Hstore [[Hok Hidle Hcat] Hids Hrows].
  destruct (append_succeeds sql_fault bind_text Hfault r c Hcat Hstore) as (c' & accepted & Happ & Hdims).
  pose proof Happ as (Hok' & Hq & Hs & Heff)%append_tables; [|done].
  apply in_transaction_false in Hidle. rewrite Hidle, andb_false_r in Hs.
  assert (conn_ready c') as Hready by (split; [done|done|intros d Hd; rewrite Hdims; by apply Hcat]).
  destruct accepted; destruct Heff as [Hid Heff].
  - destruct Heff as [Hdom Hperm]. eexists c', _, true. split; [exact Happ|].
    split; [cbn; unfold memory_append; rewrite Hids, bool_decide_eq_false_2 by done; reflexivity|].
    split; [|done]. split; cbn; [done|by rewrite Hdom|].
    rewrite map_app, Hperm, Hrows. cbn. apply Permutation_cons_append.
  - eexists c', m, false. split; [exact Happ|].
    split; [cbn; unfold memory_append; by rewrite Hids, bool_decide_eq_true_2|].
    split; [|done]. split; [done|by rewrite Heff|by rewrite Heff].
Qed.

Lemma agree_append_each l : ∀ c m,
  (∀ n, sql_fault n = None) → Forall (storable bind_text (conn_qmark c)) l → stores_agree c m →
  stores_agree (append_each l c).1 (append_each l m).1 ∧ (append_each l c).2 = (append_each l m).2.
Proof.
  induction l as [|r l IH]; intros c m Hfault Hl Hag; [by cbn|]. apply Forall_cons in Hl as [Hr Hl]. cbn [append_each].
  destruct (agree_append r c m Hfault Hr Hag) as (c' & m' & accepted & -> & -> & Hag' & Hq).
  rewrite <- Hq in Hl. destruct (IH c' m' Hfault Hl Hag') as [H1 H2].
  destruct (append_each l c') as [c2 xs]. destruct (append_each l m') as [m2 ys]. cbn in *. by rewrite H2.
Qed.

Lemma filter_map_rows start finish l :
  List.filter (λ row, _within_window (row_created_at row) start finish) (map (normal_row bind_text) l) =
  map (normal_row bind_text) (List.filter (λ row, _within_window (row_created_at row) start finish) l).
Proof. induction l as [|row l IH]; cbn; [done|]. rewrite IH. by destruct (_within_window _ _ _). Qed.

End agreement.

(** ** Creating and migrating the tables

    [llm_usage_records] may be missing, normalised, or of the older flattened
    generation, whose rows carry the attributions in columns; an interrupted
    migration can have left a flattened [llm_usage_records_legacy]. *)

Record legacy_row := {
  legacy_id : string;
  legacy_core : core_row;
  legacy_account : option string;
  legacy_service : option string;
  legacy_upstream : option string;
  legacy_team : option string;
  legacy_group : option string;
  legacy_company : option string;
}.

Record ledger_schema := {
  sc_columns : gset string;                               (* of llm_usage_records; none: no table *)
  sc_flat : list legacy_row;                              (* its rows, while it is flattened *)
  sc_legacy_columns : gset string;                        (* of llm_usage_records_legacy *)
  sc_legacy : list legacy_row;
  sc_db : usage_db;                                       (* the normalised tables *)
}.

Definition _CORE_USAGE_COLUMNS : list string :=
  ["usage_record_id"; "created_at"; "workflow_run_id"; "request_channel"; "route_mode"; "provider_name";
   "model_name"; "prompt_tokens"; "completion_tokens"; "total_tokens"; "cost_amount"; "currency_code"].

Definition _LEGACY_ATTRIBUTION_COLUMNS : list string :=
  ["account_name"; "service_name"; "upstream_api"; "team_name"; "group_name"; "company_name"].

Definition required_columns : gset string := list_to_set (_CORE_USAGE_COLUMNS ++ _LEGACY_ATTRIBUTION_COLUMNS).

(** The row a flattened row stands for: what it measured, and whether its price
    was known, was never recorded. *)
Definition legacy_usage_row (r : legacy_row) : usage_row :=
  let core := legacy_core r in
  let value := λ (o : option string), or_unattributed (default "" o) in
  {| row_id := legacy_id r; row_created_at := core_created_at core; row_run_id := core_run_id core;
     row_channel := core_channel core; row_route_mode := core_route_mode core;
     row_provider := core_provider core; row_model := core_model core;
     row_prompt_tokens := Some (core_prompt_tokens core);
     row_completion_tokens := Some (core_completion_tokens core);
     row_total_tokens := Some (core_total_tokens core); row_cost := Some (core_cost core);
     row_currency := VStr (core_currency core); row_status := "unavailable"; row_price_known := false;
     row_account := value (legacy_account r); row_service := value (legacy_service r);
     row_upstream := core_provider core; row_team := value (legacy_team r);
     row_group := value (legacy_group r); row_company := value (legacy_company r) |}.

Definition insert_core (id : string) (core : core_row) : statement := λ db,
  Ok (match db_usage db !! id with Some _ => db | None => with_usage_row id core db end).

(** The inserts of one flattened row. *)
Definition copy_row (r : legacy_row) : list statement :=
  insert_core (legacy_id r) (legacy_core r) ::
  satellites (legacy_id r) "unavailable" false (attribution_values (legacy_usage_row r)).

Definition _copy_flattened_usage_rows (rows : list legacy_row) : list statement := flat_map copy_row rows.

Definition seed_dimension (order : nat) (name label : string) : statement := λ db,
  Ok {| db_dimensions := insert_new name (label, Z.of_nat order) (db_dimensions db); db_usage := db_usage db;
        db_measurements := db_measurements db; db_knowledge := db_knowledge db; db_values := db_values db;
        db_attributions := db_attributions db |}.

Definition _seed_dimension_catalog_in_transaction : list statement :=
  imap (λ order e, seed_dimension order e.1.1 e.1.2) ATTRIBUTION_DIMENSION_CATALOG.

Inductive migration :=
| CreateTables
| CopyRows (rows : list legacy_row)
| Refuse (message : string).

Definition migration_of (sc : ledger_schema) : migration :=
  let new := sc_columns sc in
  let legacy := sc_legacy_columns sc in
  if bool_decide (new ≠ ∅) && bool_decide (legacy ≠ ∅) then Refuse "both generations exist"
  else if bool_decide (new = ∅) && bool_decide (legacy ≠ ∅) then
    if bool_decide (required_columns ⊆ legacy) then CopyRows (sc_legacy sc)
    else Refuse "orphaned llm_usage_records_legacy schema is unsupported"
  else if bool_decide (new = ∅) then CreateTables
  else if bool_decide ("account_name" ∈ new) then
    if bool_decide (required_columns ⊆ new) then CopyRows (sc_flat sc)
    else Refuse "flattened llm_usage_records schema is unsupported"
  else if bool_decide (list_to_set _CORE_USAGE_COLUMNS ⊆ new) then CreateTables
  else Refuse "unsupported usage ledger schema".

(** [_create_schema]: one transaction, rolled back as a whole. *)
Definition _create_schema (sql_fault : nat → option string) (sc : ledger_schema) (n : nat)
    : ledger_schema * res string unit :=
  match migration_of sc with
  | Refuse message => (sc, Raise message)
  | CreateTables =>
      match execute_all sql_fault _seed_dimension_catalog_in_transaction (sc_db sc, n) with
      | ((db, _), Ok _) =>
          ({| sc_columns := list_to_set _CORE_USAGE_COLUMNS ∪ sc_columns sc; sc_flat := [];
              sc_legacy_columns := ∅; sc_legacy := []; sc_db := db |}, Ok tt)
      | (_, Raise e) => (sc, Raise e)
      end
  | CopyRows rows =>
      match execute_all sql_fault
              (_seed_dimension_catalog_in_transaction ++ _copy_flattened_usage_rows rows) (sc_db sc, n) with
      | ((db, _), Ok _) =>
          ({| sc_columns := list_to_set _CORE_USAGE_COLUMNS; sc_flat := []; sc_legacy_columns := ∅;
              sc_legacy := []; sc_db := db |}, Ok tt)
      | (_, Raise e) => (sc, Raise e)
      end
  end.

(** The rows a schema still has in flattened form. *)
Definition flattened_rows (sc : ledger_schema) : list legacy_row :=
  match migration_of sc with CopyRows rows => rows | _ => [] end.

Lemma or_unattributed_idemp s : or_unattributed (or_unattributed s) = or_unattributed s.
Proof. unfold or_unattributed. destruct (str_truthy s) eqn:Hs; [by rewrite Hs|done]. Qed.

Lemma legacy_select_row r db' :
  db_measurements db' !! legacy_id r = Some "unavailable" → db_knowledge db' !! legacy_id r = Some false →
  (∀ d v, db_attributions db' !! (legacy_id r, d) = Some v ↔ (d, v) ∈ attribution_values (legacy_usage_row r)) →
  select_row db' (legacy_id r) (legacy_core r) = legacy_usage_row r.
Proof.
  intros Hm Hk Ha.
  assert (attribution_values (legacy_usage_row r) =
    [("account", row_account (legacy_usage_row r)); ("service", row_service (legacy_usage_row r));
     ("team", row_team (legacy_usage_row r)); ("group", row_group (legacy_usage_row r));
     ("company", row_company (legacy_usage_row r))]) as Hvalues by (cbn; by rewrite !or_unattributed_idemp).
  rewrite Hvalues in Ha. clear Hvalues.
  assert (∀ d v, In (d, v) [("account", row_account (legacy_usage_row r)); ("service", row_service (legacy_usage_row r));
     ("team", row_team (legacy_usage_row r)); ("group", row_group (legacy_usage_row r));
     ("company", row_company (legacy_usage_row r))] → db_attributions db' !! (legacy_id r, d) = Some v) as Hv
    by (intros d v Hin; by apply Ha, list_elem_of_In).
  unfold select_row. rewrite Hm, Hk.
  rewrite (Hv "account" (row_account (legacy_usage_row r)) (or_introl eq_refl)).
  rewrite (Hv "service" (row_service (legacy_usage_row r)) (or_intror (or_introl eq_refl))).
  rewrite (Hv "team" (row_team (legacy_usage_row r)) (or_intror (or_intror (or_introl eq_refl)))).
  rewrite (Hv "group" (row_group (legacy_usage_row r)) (or_intror (or_intror (or_intror (or_introl eq_refl))))).
  rewrite (Hv "company" (row_company (legacy_usage_row r))
             (or_intror (or_intror (or_intror (or_intror (or_introl eq_refl)))))).
  done.
Qed.

Lemma copy_rows_tables rows : ∀ db db',
  ledger_ok db → NoDup (map legacy_id rows) → (∀ r, r ∈ rows → db_usage db !! legacy_id r = None) →
  run_pure (_copy_flattened_usage_rows rows) db = Ok db' →
  ledger_ok db' ∧ Permutation (all_rows db') (map legacy_usage_row rows ++ all_rows db).
Proof.
  induction rows as [|r rows IH]; intros db db' Hok Hnd Hnew Hrun; [cbn in Hrun; by simplify_eq|].
  change (_copy_flattened_usage_rows (r :: rows)) with (copy_row r ++ _copy_flattened_usage_rows rows) in Hrun.
  rewrite run_pure_app in Hrun. cbn [map] in Hnd. apply NoDup_cons in Hnd as [Hr Hnd].
  destruct (run_pure (copy_row r) db) as [db1|] eqn:H1; cbn in Hrun; [|done].
  assert (db_usage db !! legacy_id r = None) as Hid by (apply Hnew; left).
  assert (run_pure (satellites (legacy_id r) "unavailable" false (attribution_values (legacy_usage_row r)))
            (with_usage_row (legacy_id r) (legacy_core r) db) = Ok db1) as H2.
  { rewrite <- H1. unfold copy_row. cbn [run_pure]. unfold insert_core at 1. by rewrite Hid. }
  destruct (new_record_tables (legacy_id r) (legacy_core r) "unavailable" false (legacy_usage_row r) db db1 Hok Hid H2)
    as (Hok1 & Hu & Hm & Hk & Ha & Hother).
  assert (Permutation (all_rows db1) (legacy_usage_row r :: all_rows db)) as Hrows.
  { rewrite <- (legacy_select_row r db1); [|by rewrite Hm, lookup_insert_eq|by rewrite Hk, lookup_insert_eq|done].
    apply all_rows_new; [done..|]. intros id' core' Hne.
    apply select_row_other; [by rewrite Hm, lookup_insert_ne|by rewrite Hk, lookup_insert_ne|intros; by apply Hother]. }
  apply IH in Hrun as [Hok' Hrows']; [|done..|].
  - split; [done|]. rewrite Hrows', Hrows. cbn. by rewrite Permutation_middle.
  - intros r' Hr'. rewrite Hu, lookup_insert_ne; [apply Hnew; by right|].
    intros Heq. apply Hr. rewrite Heq. apply list_elem_of_fmap. by exists r'.
Qed.

Lemma insert_new_some `{Countable K} {A} (k k' : K) (a : A) m :
  k' = k ∨ is_Some (m !! k') → is_Some (insert_new k a m !! k').
Proof. rewrite insert_new_lookup. case_decide; [by eexists|by intros [?|?]]. Qed.

Lemma seeded_tables db db' :
  run_pure _seed_dimension_catalog_in_transaction db = Ok db' →
  db_usage db' = db_usage db ∧ all_rows db' = all_rows db ∧ (ledger_ok db → ledger_ok db') ∧ catalog_ok db'.
Proof.
  intros Hrun. cbn in Hrun. injection Hrun as <-. split_and!; [done|done|..].
  - intros [H1 H2 H3 H4 H5]. split; [apply H1|apply H2|apply H3|apply H4|].
    intros d v Hin%H5. cbn [db_dimensions]. repeat (apply insert_new_some; right). exact Hin.
  - intros d Hd. cbn [db_dimensions].
    repeat (apply elem_of_cons in Hd as [->|Hd];
            [by repeat (apply insert_new_some; first [by left|right])|]).
    by apply not_elem_of_nil in Hd.
Qed.

(** The copying statements leave the catalog alone. *)
Definition keeps_catalog (f : statement) : Prop :=
  ∀ db db', f db = Ok db' → db_dimensions db' = db_dimensions db.

Lemma run_keeps_catalog l : Forall keeps_catalog l → keeps_catalog (run_pure l).
Proof.
  induction 1 as [|f l Hf _ IH]; intros db db' Hrun; cbn in Hrun; [by simplify_eq|].
  destruct (f db) as [db1|] eqn:H1; cbn in Hrun; [|done]. by rewrite (IH db1 db' Hrun), (Hf db db1 H1).
Qed.

Lemma copy_keeps_catalog rows : keeps_catalog (run_pure (_copy_flattened_usage_rows rows)).
Proof.
  apply run_keeps_catalog, Forall_forall. intros f [r [_ Hf]]%list_elem_of_In%in_flat_map.
  assert (∀ dimension value, keeps_catalog (insert_value dimension value)) as Hv.
  { intros dimension value db db'. unfold insert_value. destruct (_ !! _); [by intros [= <-]|done]. }
  assert (∀ id dimension value, keeps_catalog (insert_attribution id dimension value)) as Ha.
  { intros id dimension value db db'. unfold insert_attribution. case_bool_decide; [done|by intros [= <-]]. }
  destruct Hf as [<-|[<-|[<-|[[d v] [_ Hf]]%in_flat_map]]].
  - intros db db' [= <-]. by destruct (db_usage db !! legacy_id r).
  - by intros db db' [= <-].
  - by intros db db' [= <-].
  - destruct Hf as [<-|[<-|[]]]; [apply Hv|apply Ha].
Qed.

(** What a schema needs for its rows to be copied: distinct keys, which no row of
    the normalised tables has. *)
Definition schema_ok (sc : ledger_schema) : Prop :=
  ledger_ok (sc_db sc) ∧ NoDup (map legacy_id (flattened_rows sc)) ∧
  ∀ r, r ∈ flattened_rows sc → db_usage (sc_db sc) !! legacy_id r = None.

Lemma account_not_core : "account_name" ∉ (list_to_set _CORE_USAGE_COLUMNS : gset string).
Proof. by apply (bool_decide_unpack _); vm_compute. Qed.

Lemma migrated_columns (columns : gset string) flat db :
  columns ≠ ∅ → "account_name" ∉ columns →
  flattened_rows {| sc_columns := columns; sc_flat := flat; sc_legacy_columns := ∅; sc_legacy := [];
                    sc_db := db |} = [].
Proof.
  intros Hne Hacc. unfold flattened_rows, migration_of. cbn [sc_columns sc_legacy_columns].
  rewrite (bool_decide_eq_false_2 ((∅ : gset string) ≠ ∅)), !andb_false_r by auto.
  rewrite (bool_decide_eq_false_2 (columns = ∅)), (bool_decide_eq_false_2 ("account_name" ∈ columns)) by done.
  by destruct (bool_decide _).
Qed.

Lemma core_columns_nonempty (columns : gset string) : (list_to_set _CORE_USAGE_COLUMNS : gset string) ∪ columns ≠ ∅.
Proof. assert ("created_at" ∈ (list_to_set _CORE_USAGE_COLUMNS : gset string)) by (cbn; set_solver). set_solver. Qed.

Lemma create_keeps_columns sc : migration_of sc = CreateTables → "account_name" ∉ sc_columns sc.
Proof.
  unfold migration_of. intros H. repeat case_bool_decide; cbn in H; try discriminate H; set_solver.
Qed.


(** C13. No usage row is ever stranded: over any sequence of appended records and
    of a caller's BEGIN, COMMIT and ROLLBACK on the connection, and whichever
    statements raise, every usage row has its measurement, its price knowledge
    and its five attributions, no satellite row is without its usage row, and
    the foreign keys hold; and an append to SQLite that raises leaves all tables
    as they were, the caller's open transaction included. *)
Theorem ledger_rows_are_never_stranded sql_fault bind_text c c' :
  conn_ok c → rtc (ledger_step sql_fault bind_text) c c' →
  ledger_ok (conn_db c') ∧
  ∀ r c'' e, conn_qmark c' = true → _append_locked sql_fault bind_text r c' = (c'', Raise e) →
    conn_db c'' = conn_db c' ∧ conn_saved c'' = conn_saved c'.
Proof.
  intros Hok Hsteps. assert (conn_ok c') as Hok'.
  { induction Hsteps as [|c1 c2 c3 Hstep _ IH]; [done|]. by eapply IH, ledger_step_ok. }
  split; [apply Hok'|]. intros r c'' e Hq H.
  apply append_raises in H as (_ & _ & H); [|done]. rewrite Hq in H. cbn in H.
  destruct (in_transaction c') eqn:Htx; [done|].
  apply in_transaction_false in Htx. by rewrite Htx in H |- *.
Qed.

(** ** A ledger of two records *)

Definition empty_tables : usage_db :=
  {| db_dimensions := ∅; db_usage := ∅; db_measurements := ∅; db_knowledge := ∅; db_values := ∅;
     db_attributions := ∅ |}.

Definition faultless : nat → option string := λ _, None.
Definition bind_string (v : pyval) : res string string :=
  match v with VStr s => Ok s | VNone => Raise "IntegrityError" | _ => Raise "ProgrammingError" end.

Definition demo_core : core_row :=
  {| core_created_at := 100; core_run_id := None; core_channel := "sync"; core_route_mode := None;
     core_provider := "openai"; core_model := "gpt-4o"; core_prompt_tokens := 10; core_completion_tokens := 5;
     core_total_tokens := 15; core_cost := f0; core_currency := "USD" |}.

Definition demo_legacy : ledger_schema :=
  {| sc_columns := required_columns;
     sc_flat := [{| legacy_id := "usage_1"; legacy_core := demo_core; legacy_account := Some "acme";
                    legacy_service := None; legacy_upstream := Some "openai"; legacy_team := Some "";
                    legacy_group := None; legacy_company := None |}];
     sc_legacy_columns := ∅; sc_legacy := []; sc_db := empty_tables |}.

Lemma empty_tables_ok : ledger_ok empty_tables.
Proof.
  split; cbn.
  - intros id. by rewrite !lookup_empty.
  - intros id. by rewrite !lookup_empty.
  - intros id d. rewrite !lookup_empty. split; [by intros []|by intros [[] _]].
  - intros id d v. by rewrite lookup_empty.
  - intros d v H. by apply not_elem_of_empty in H.
Qed.

Definition demo_connection : connection :=
  {| conn_qmark := true;
     conn_db := sc_db (_create_schema faultless
       {| sc_columns := ∅; sc_flat := []; sc_legacy_columns := ∅; sc_legacy := []; sc_db := empty_tables |} 0).1;
     conn_saved := None; conn_statements := 9 |}.

Lemma demo_connection_ready : conn_ready demo_connection.
Proof.
  destruct (seeded_tables empty_tables (conn_db demo_connection)) as (_ & _ & Hok & Hcat); [reflexivity|].
  split; [split; [apply Hok, empty_tables_ok|done]|done|exact Hcat].
Qed.

Definition demo_record (id : string) (at_time : Z) (a : AttributionDimensions) : UsageRecord :=
  {| usage_record_id := id; created_at := at_time; workflow_run_id := None; request_channel := "sync";
     route_mode := Some "route"; provider_name := "openai"; model_name := "gpt-4o"; prompt_tokens := 12;
     completion_tokens := 3; total_tokens := 15; cost_amount := f0; currency_code := VStr "USD";
     measurement_status := "measured"; price_known := true; attribution := a |}.

Definition demo_records : list UsageRecord :=
  [demo_record "usage_b" 20 unattributed; demo_record "usage_a" 10 unattributed; demo_record "usage_b" 30 unattributed].


Definition demo_migrated : ledger_schema := (_create_schema faultless demo_legacy 0).1.


(** The seventh statement of the second append raises, inside of a caller's
    transaction. *)
Definition late_fault : nat → option string := λ n, if bool_decide (n = 17%nat) then Some "OperationalError" else None.

Definition demo_begun : connection :=
  conn_with (conn_db demo_connection) (Some (conn_db demo_connection)) 10 demo_connection.

Lemma ledger_rows_are_never_stranded_witness :
  let c := (_append_locked late_fault bind_string (demo_record "usage_c" 5 unattributed) demo_begun) in
  c.2 = Raise "OperationalError" ∧ ledger_ok (conn_db c.1) ∧ all_rows (conn_db c.1) = [].
Proof.
  cbv zeta. split; [vm_compute; reflexivity|].
  destruct (ledger_rows_are_never_stranded late_fault bind_string demo_connection
    (_append_locked late_fault bind_string (demo_record "usage_c" 5 unattributed) demo_begun).1) as [H _].
  - apply (ready_ok _ demo_connection_ready).
  - apply (rtc_l _ _ demo_begun).
    + apply LedgerCaller. apply CallerBegins. reflexivity.
    + apply (rtc_l _ _ (_append_locked late_fault bind_string (demo_record "usage_c" 5 unattributed) demo_begun).1).
      * apply LedgerAppends.
      * apply rtc_refl.
  - split; [exact H|vm_compute; reflexivity].
Defined.
