(* ===== verification/LedgerQueue.v ===== *)
(** cost_ledger.py: [UsageTelemetryEvent], [UsageTelemetryHealth] and
    [NonBlockingLedgerStore], the ledger store whose writes happen on a worker
    thread.

    The callers of [append], [flush] and [settle_usage_record_ids] and the worker
    of [_run] are threads: a thread is the list of the actions it still has to
    take, [exec] is one action, and any thread may take the next one. An action
    is one access to what the threads share - the queue, the deferred exports
    under their lock, the health under its lock, the backend - with the telemetry
    event that follows it. The application's statements on the backend's
    connection happen in between. *)

From Stdlib Require Import Ascii String.
From S2P Require Import Prelude PyString PyCollections PyFloat PyValue PriceBook LedgerStore SqlLedger.
Open Scope Z_scope.

(** ** Telemetry *)

Record UsageTelemetryEvent := {
  ev_attributes : list (string * pyval);
  ev_metrics : list (string * float);
  ev_status : string;
  ev_error_type : option string;
}.

Definition opt_attribute (name : string) (value : option string) : list (string * pyval) :=
  match value with Some s => if str_truthy s then [(name, VStr s)] else [] | None => [] end.

Definition attribution_attributes (a : AttributionDimensions) : list (string * pyval) :=
  map (λ '(name, value), ("contextual_orchestrator.attribution." +:+ name, VStr value))
    [("account", account a); ("service", service a); ("upstream_api", upstream_api a);
     ("model_name", model_dimension a); ("team", team a); ("group", group a); ("company", company a)].

(** [UsageTelemetryEvent.from_record]: no prompt and no answer is in a record,
    and a measurement that is not available reports neither tokens nor cost. *)
Definition from_record (r : UsageRecord) (export_state : string) (error_type : option string)
    : UsageTelemetryEvent :=
  {| ev_attributes :=
       [("gen_ai.system", VStr (if str_truthy (provider_name r) then provider_name r else "unknown"));
        ("gen_ai.operation.name", VStr "chat.completions");
        ("gen_ai.request.model", VStr (model_name r));
        ("gen_ai.response.model", VStr (model_name r));
        ("contextual_orchestrator.usage_record_id", VStr (usage_record_id r));
        ("contextual_orchestrator.request_channel", VStr (request_channel r));
        ("contextual_orchestrator.usage.export_state", VStr export_state);
        ("contextual_orchestrator.usage.price_known", VBool (price_known r));
        ("contextual_orchestrator.usage.measurement_status", VStr (measurement_status r))]
       ++ opt_attribute "contextual_orchestrator.workflow_run_id" (workflow_run_id r)
       ++ opt_attribute "contextual_orchestrator.route_mode" (route_mode r)
       ++ attribution_attributes (attribution r)
       ++ opt_attribute "error.type" error_type;
     ev_metrics :=
       [("contextual_orchestrator.usage.records", f1)]
       ++ (if String.eqb (measurement_status r) "unavailable" then []
           else [("gen_ai.usage.input_tokens", float_of_Z (prompt_tokens r));
                 ("gen_ai.usage.output_tokens", float_of_Z (completion_tokens r));
                 ("gen_ai.usage.total_tokens", float_of_Z (total_tokens r))]
                ++ (if price_known r then [("gen_ai.usage.cost", cost_amount r)] else []))
       ++ (match error_type with
           | Some _ => [("contextual_orchestrator.usage.export_failures", f1)]
           | None => []
           end);
     ev_status := match error_type with Some _ => "error" | None => "ok" end;
     ev_error_type := error_type |}.

(** [InMemoryUsageTelemetrySink.emit_usage]: the newest events. *)
Definition sink_emit (max_events : nat) (event : UsageTelemetryEvent) (events : list UsageTelemetryEvent)
    : list UsageTelemetryEvent :=
  let l := events ++ [event] in
  if (max_events <? length l)%nat then skipn (length l - max_events) l else l.

(** ** Health *)

Record UsageTelemetryHealth := {
  records_accepted : Z;
  records_stored : Z;
  records_dropped : Z;
  store_failures : Z;
  export_failures : Z;
  last_error_type : option string;
}.

Definition no_health : UsageTelemetryHealth :=
  {| records_accepted := 0; records_stored := 0; records_dropped := 0; store_failures := 0;
     export_failures := 0; last_error_type := None |}.

Inductive counter := CAccepted | CStored | CDropped | CStoreFailure | CExportFailure.

Definition counted (c c' : counter) : Z :=
  match c, c' with
  | CAccepted, CAccepted | CStored, CStored | CDropped, CDropped | CStoreFailure, CStoreFailure
  | CExportFailure, CExportFailure => 1
  | _, _ => 0
  end.

Definition _mark (c : counter) (error_type : option string) (h : UsageTelemetryHealth) : UsageTelemetryHealth :=
  {| records_accepted := records_accepted h + counted c CAccepted;
     records_stored := records_stored h + counted c CStored;
     records_dropped := records_dropped h + counted c CDropped;
     store_failures := store_failures h + counted c CStoreFailure;
     export_failures := export_failures h + counted c CExportFailure;
     last_error_type := match error_type with
                        | Some e => if str_truthy e then Some e else last_error_type h
                        | None => last_error_type h
                        end |}.

(** ** The shared state

    [q_history] is a history variable, not in the code: what became of each
    record. *)

Inductive fate := Accepted | Persisted | Stored | StoreFailed | Duplicate | RolledBack.

Definition same_fate (f g : fate) : bool :=
  match f, g with
  | Accepted, Accepted | Persisted, Persisted | Stored, Stored | StoreFailed, StoreFailed
  | Duplicate, Duplicate | RolledBack, RolledBack => true
  | _, _ => false
  end.

Section queue.
Context {St : Type} `{!LedgerStore St}.

Record NonBlockingLedgerStore := {
  q_backend : St;
  q_queue : list UsageRecord;
  q_unfinished : nat;
  q_deferred : list UsageRecord;
  q_health : UsageTelemetryHealth;
  q_telemetry : list UsageTelemetryEvent;                 (* what was offered to the telemetry sink *)
  q_exported : list UsageRecord;                          (* the calls of emit_usage_record *)
  q_history : list (fate * UsageRecord);
}.

Definition new_queue (backend : St) : NonBlockingLedgerStore :=
  {| q_backend := backend; q_queue := []; q_unfinished := 0; q_deferred := []; q_health := no_health;
     q_telemetry := []; q_exported := []; q_history := [] |}.

Definition with_backend (b : St) (s : NonBlockingLedgerStore) : NonBlockingLedgerStore :=
  {| q_backend := b; q_queue := q_queue s; q_unfinished := q_unfinished s; q_deferred := q_deferred s;
     q_health := q_health s; q_telemetry := q_telemetry s; q_exported := q_exported s;
     q_history := q_history s |}.

Definition with_queue (l : list UsageRecord) (unfinished : nat) (s : NonBlockingLedgerStore) : NonBlockingLedgerStore :=
  {| q_backend := q_backend s; q_queue := l; q_unfinished := unfinished; q_deferred := q_deferred s;
     q_health := q_health s; q_telemetry := q_telemetry s; q_exported := q_exported s;
     q_history := q_history s |}.

Definition with_deferred (l : list UsageRecord) (s : NonBlockingLedgerStore) : NonBlockingLedgerStore :=
  {| q_backend := q_backend s; q_queue := q_queue s; q_unfinished := q_unfinished s; q_deferred := l;
     q_health := q_health s; q_telemetry := q_telemetry s; q_exported := q_exported s;
     q_history := q_history s |}.

Definition with_exported (r : UsageRecord) (s : NonBlockingLedgerStore) : NonBlockingLedgerStore :=
  {| q_backend := q_backend s; q_queue := q_queue s; q_unfinished := q_unfinished s;
     q_deferred := q_deferred s; q_health := q_health s; q_telemetry := q_telemetry s;
     q_exported := q_exported s ++ [r]; q_history := q_history s |}.

Definition fated (f : fate) (r : UsageRecord) (s : NonBlockingLedgerStore) : NonBlockingLedgerStore :=
  {| q_backend := q_backend s; q_queue := q_queue s; q_unfinished := q_unfinished s;
     q_deferred := q_deferred s; q_health := q_health s; q_telemetry := q_telemetry s;
     q_exported := q_exported s; q_history := q_history s ++ [(f, r)] |}.

(** [self._mark(...)] and the event that follows it. *)
Definition mark (c : counter) (error_type : option string) (s : NonBlockingLedgerStore) : NonBlockingLedgerStore :=
  {| q_backend := q_backend s; q_queue := q_queue s; q_unfinished := q_unfinished s;
     q_deferred := q_deferred s; q_health := _mark c error_type (q_health s); q_telemetry := q_telemetry s;
     q_exported := q_exported s; q_history := q_history s |}.

Definition _emit_usage_event (r : UsageRecord) (export_state : string) (error_type : option string)
    (s : NonBlockingLedgerStore) : NonBlockingLedgerStore :=
  {| q_backend := q_backend s; q_queue := q_queue s; q_unfinished := q_unfinished s;
     q_deferred := q_deferred s; q_health := q_health s;
     q_telemetry := q_telemetry s ++ [from_record r export_state error_type];
     q_exported := q_exported s; q_history := q_history s |}.

Definition dropped (r : UsageRecord) (error_type : string) (s : NonBlockingLedgerStore) : NonBlockingLedgerStore :=
  _emit_usage_event r "dropped" (Some error_type) (mark CDropped (Some error_type) s).

(** ** Actions *)

Inductive action :=
(* append *)
| Append (r : UsageRecord)                                (* is a transaction open? *)
| AppendOpen (r : UsageRecord)                            (* it is: write synchronously *)
| CountOpen (r : UsageRecord)
| DeferOpen (r : UsageRecord)
| PutNowait (r : UsageRecord)
| CountQueued (r : UsageRecord)
(* _run *)
| Get
| Persist (r : UsageRecord)
| TaskDone
(* _record_stored *)
| RecordStored (r : UsageRecord)                          (* is a transaction open? *)
| DeferStored (r : UsageRecord)
| CountStored (r : UsageRecord)
| Export (r : UsageRecord)
(* settle_usage_record_ids *)
| Settle (persisted_ids : gset string)
| TakeSettled (persisted_ids : gset string)
(* flush *)
| AwaitQueue (bounded : bool)                             (* bounded: a timeout was given *)
| FlushCheck
| TakeDeferred
| LookupDeferred (pending : list UsageRecord)
| DropRolledBack (r : UsageRecord).

Definition in_ids (ids : gset string) (r : UsageRecord) : bool := bool_decide (usage_record_id r ∈ ids).

Section exec.
Context (queue_size : nat) (sink : bool).                 (* sink: a usage record sink is configured *)

(** One action: the new state and what the thread has to do next, or [None]
    where it blocks. [x] is what happens to the call out of the store: the
    exception of the export sink or of the lookup, or the deadline of [flush]. *)
Definition exec (x : option string) (a : action) (s : NonBlockingLedgerStore)
    : option (NonBlockingLedgerStore * list action) :=
  match a with
  | Append r => Some (s, if has_open_transaction (q_backend s) then [AppendOpen r] else [PutNowait r])
  | AppendOpen r =>
      match append r (q_backend s) with
      | (b, Ok true) => Some (fated Persisted r (with_backend b s), [CountOpen r])
      | (b, Ok false) => Some (dropped r "duplicate" (with_backend b s), [])
      | (b, Raise _) => Some (with_backend b s, [])       (* to the caller of append *)
      end
  | CountOpen r =>
      let s1 := fated Accepted r (mark CAccepted None s) in
      if sink then Some (s1, [DeferOpen r]) else Some (_emit_usage_event r "queued" None s1, [RecordStored r])
  | DeferOpen r => Some (_emit_usage_event r "queued" None (with_deferred (q_deferred s ++ [r]) s), [])
  | PutNowait r =>
      if (length (q_queue s) <? queue_size)%nat
      then Some (with_queue (q_queue s ++ [r]) (S (q_unfinished s)) s, [CountQueued r])
      else Some (dropped r "queue.Full" s, [])
  | CountQueued r => Some (_emit_usage_event r "queued" None (fated Accepted r (mark CAccepted None s)), [])
  | Get =>
      match q_queue s with
      | r :: l => Some (with_queue l (q_unfinished s) s, [Persist r; TaskDone; Get])
      | [] => None
      end
  | Persist r =>
      match append r (q_backend s) with
      | (b, Ok true) => Some (fated Persisted r (with_backend b s), [RecordStored r])
      | (b, Ok false) => Some (fated Duplicate r (dropped r "duplicate" (with_backend b s)), [])
      | (b, Raise e) =>
          Some (_emit_usage_event r "export_error" (Some e)
                  (fated StoreFailed r (mark CStoreFailure (Some e) (with_backend b s))), [])
      end
  | TaskDone => Some (with_queue (q_queue s) (pred (q_unfinished s)) s, [])
  | RecordStored r => Some (s, if sink && has_open_transaction (q_backend s) then [DeferStored r] else [CountStored r])
  | DeferStored r => Some (with_deferred (q_deferred s ++ [r]) s, [])
  | CountStored r =>
      Some (_emit_usage_event r "stored" None (fated Stored r (mark CStored None s)), if sink then [Export r] else [])
  | Export r =>
      Some (match x with
            | None => with_exported r s
            | Some e => _emit_usage_event r "export_error" (Some e) (mark CExportFailure (Some e) (with_exported r s))
            end, [])
  | Settle ids =>
      Some (s, if bool_decide (ids = ∅) || has_open_transaction (q_backend s) then [] else [TakeSettled ids])
  | TakeSettled ids =>
      Some (with_deferred (List.filter (λ r, negb (in_ids ids r)) (q_deferred s)) s,
            map RecordStored (List.filter (in_ids ids) (q_deferred s)))
  | AwaitQueue bounded =>
      match q_unfinished s, x with
      | O, _ => Some (s, [FlushCheck])
      | S _, Some _ => if bounded then Some (s, []) else None       (* the deadline has passed *)
      | S _, None => None
      end
  | FlushCheck => Some (s, if has_open_transaction (q_backend s) then [] else [TakeDeferred])
  | TakeDeferred =>
      Some (with_deferred [] s, match q_deferred s with [] => [] | pending => [LookupDeferred pending] end)
  | LookupDeferred pending =>
      match x with
      | Some e => Some (mark CStoreFailure (Some e) (with_deferred (pending ++ q_deferred s) s), [])
      | None =>
          let ids := existing_usage_record_ids (map usage_record_id pending) (q_backend s) in
          Some (s, map (λ r, if in_ids ids r then RecordStored r else DropRolledBack r) pending)
      end
  | DropRolledBack r => Some (fated RolledBack r (dropped r "caller_transaction_rollback" s), [])
  end.

(** [query] and [existing_usage_record_ids]: what is durably visible. *)
Definition queue_query (start finish : option Z) (s : NonBlockingLedgerStore) : list usage_row :=
  query start finish (q_backend s).

Definition queue_existing (usage_record_ids : list string) (s : NonBlockingLedgerStore) : gset string :=
  if has_open_transaction (q_backend s) then ∅
  else existing_usage_record_ids usage_record_ids (q_backend s).

(** ** The system *)

Record system := { sys_store : NonBlockingLedgerStore; sys_threads : list (list action) }.

Definition started (backend : St) : system := {| sys_store := new_queue backend; sys_threads := [[Get]] |}.

(** The calls of the store's clients. *)
Definition is_call (a : action) : bool :=
  match a with Append _ | Settle _ | AwaitQueue _ => true | _ => false end.

Inductive thread_step : system → system → Prop :=
| ThreadActs s i x a k store acts :
    sys_threads s !! i = Some (a :: k) → exec x a (sys_store s) = Some (store, acts) →
    thread_step s {| sys_store := store; sys_threads := <[i := acts ++ k]> (sys_threads s) |}.

(** [env]: what the application does to the backend's connection. *)
Inductive system_step (env : relation St) : system → system → Prop :=
| SystemThread s s' : thread_step s s' → system_step env s s'
| SystemCall s a :
    is_call a = true →
    system_step env s {| sys_store := sys_store s; sys_threads := sys_threads s ++ [[a]] |}
| SystemCaller s b :
    env (q_backend (sys_store s)) b →
    system_step env s {| sys_store := with_backend b (sys_store s); sys_threads := sys_threads s |}.

(** A schedule, to run one. *)
Inductive move :=
| MThread (i : nat) (x : option string)
| MCall (a : action)
| MCaller (f : St → St).

Definition run_move (s : system) (m : move) : option system :=
  match m with
  | MThread i x =>
      match sys_threads s !! i with
      | Some (a :: k) =>
          '(store, acts) ← exec x a (sys_store s);
          Some {| sys_store := store; sys_threads := <[i := acts ++ k]> (sys_threads s) |}
      | _ => None
      end
  | MCall a =>
      if is_call a then Some {| sys_store := sys_store s; sys_threads := sys_threads s ++ [[a]] |} else None
  | MCaller f => Some {| sys_store := with_backend (f (q_backend (sys_store s))) (sys_store s);
                         sys_threads := sys_threads s |}
  end.

Definition run_schedule (l : list move) (s : system) : option system :=
  fold_left (λ acc m, acc ≫= λ s, run_move s m) l (Some s).

End exec.
End queue.

Arguments NonBlockingLedgerStore : clear implicits.
Arguments system : clear implicits.
Arguments move : clear implicits.

(** ** Counting

    Every claim about the records in play is a count of those with a property:
    in the queue, in the hands of a thread, or with a fate. *)

Definition many (p : UsageRecord → bool) (l : list UsageRecord) : nat := length (List.filter p l).

Arguments many : simpl never.

Definition hit (p : UsageRecord → bool) (r : UsageRecord) : nat := if p r then 1 else 0.

Lemma many_nil p : many p [] = O.
Proof. done. Qed.

Lemma many_cons p r l : many p (r :: l) = (hit p r + many p l)%nat.
Proof. unfold many, hit. cbn. by destruct (p r). Qed.

Lemma many_app p l l' : many p (l ++ l') = (many p l + many p l')%nat.
Proof. unfold many. by rewrite List.filter_app, length_app. Qed.

Lemma many_split p q l :
  many p l = (many p (List.filter q l) + many p (List.filter (λ r, negb (q r)) l))%nat.
Proof.
  induction l as [|r l IH]; [done|]. rewrite many_cons, IH. cbn [List.filter].
  destruct (q r); cbn [negb]; rewrite many_cons; lia.
Qed.

Lemma many_pos p l : (0 < many p l)%nat ↔ ∃ r, r ∈ l ∧ p r = true.
Proof.
  unfold many. split.
  - destruct (List.filter p l) as [|r l'] eqn:Hf; cbn; [lia|]. intros _. exists r.
    rewrite list_elem_of_In. apply (filter_In p r l). rewrite Hf. by left.
  - intros (r & Hr & Hp). assert (In r (List.filter p l)) as Hin by (apply filter_In; split; [by apply list_elem_of_In|done]).
    destruct (List.filter p l); [done|cbn; lia].
Qed.

(** At most one record per id. *)
Lemma NoDup_many l :
  NoDup (map usage_record_id l) ↔ ∀ i, (many (λ r, bool_decide (usage_record_id r = i)) l ≤ 1)%nat.
Proof.
  induction l as [|r l IH]; cbn [map].
  - split; [intros _ i; rewrite many_nil; lia|intros _; apply NoDup_nil_2].
  - rewrite NoDup_cons, IH. setoid_rewrite many_cons. split.
    + intros [Hr Hl] i. specialize (Hl i). unfold hit. case_bool_decide as Hi; [|lia]. subst i.
      destruct (many _ l) eqn:Hm; [lia|]. exfalso. apply Hr.
      assert (0 < many (λ r0, bool_decide (usage_record_id r0 = usage_record_id r)) l)%nat as Hpos by lia.
      apply many_pos in Hpos as (r' & Hin & Heq). bools. rewrite <- Heq. by apply list_elem_of_fmap_2.
    + intros H. split.
      * intros (r' & Heq & Hin)%list_elem_of_fmap. specialize (H (usage_record_id r)). unfold hit in H.
        rewrite bool_decide_eq_true_2 in H by done.
        assert (0 < many (λ r0, bool_decide (usage_record_id r0 = usage_record_id r)) l)%nat; [|lia].
        apply many_pos. exists r'. split; [done|]. by apply bool_decide_eq_true.
      * intros i. specialize (H i). lia.
Qed.

Create Rewrite HintDb many.
#[export] Hint Rewrite @many_nil many_cons many_app : many.

(** What the threads hold. *)
Definition weigh (w : action → nat) (threads : list (list action)) : nat :=
  sum_list_with (sum_list_with w) threads.

Lemma sum_list_with_app' {A} (f : A → nat) l l' :
  sum_list_with f (l ++ l') = (sum_list_with f l + sum_list_with f l')%nat.
Proof. induction l as [|x l IH]; cbn; [done|]. rewrite IH. lia. Qed.

Lemma weigh_call w threads a : weigh w (threads ++ [[a]]) = (weigh w threads + w a)%nat.
Proof. unfold weigh. rewrite sum_list_with_app'. cbn. lia. Qed.

Lemma weigh_insert w threads i a k acts :
  threads !! i = Some (a :: k) →
  (weigh w (<[i := acts ++ k]> threads) + w a = weigh w threads + sum_list_with w acts)%nat.
Proof.
  revert i. induction threads as [|t threads IH]; intros [|i] Hi; cbn in Hi; try done.
  - simplify_eq. unfold weigh. cbn. rewrite sum_list_with_app'. lia.
  - apply IH in Hi. unfold weigh in *.
    change (<[S i := acts ++ k]> (t :: threads)) with (t :: <[i := acts ++ k]> threads). cbn [sum_list_with]. lia.
Qed.

Lemma sum_list_with_map {A} (w : A → nat) (f : UsageRecord → A) p l :
  (∀ r, w (f r) = hit p r) → sum_list_with w (map f l) = many p l.
Proof. intros Hw. induction l as [|r l IH]; cbn [map sum_list_with]; [done|]. by rewrite Hw, many_cons, IH. Qed.

Lemma sum_list_with_none {A} (w : A → nat) (f : UsageRecord → A) l :
  (∀ r, w (f r) = O) → sum_list_with w (map f l) = O.
Proof. intros Hw. induction l as [|r l IH]; cbn [map sum_list_with]; [done|]. by rewrite Hw, IH. Qed.

Section counts.
Context {St : Type} `{!LedgerStore St} (queue_size : nat) (sink : bool) (p : UsageRecord → bool).

Definition fates (f : fate) (h : list (fate * UsageRecord)) : nat :=
  many p (map snd (List.filter (λ e, same_fate f e.1) h)).

Arguments fates : simpl never.

Lemma fates_snoc f g r h : fates f (h ++ [(g, r)]) = (fates f h + if same_fate f g then hit p r else 0)%nat.
Proof.
  unfold fates. rewrite List.filter_app, map_app, many_app. cbn.
  destruct (same_fate f g); cbn; rewrite ?many_cons, ?many_nil; lia.
Qed.

(** A record the thread has to bring to its fate. *)
Definition held (a : action) : nat :=
  match a with
  | DeferOpen r | Persist r | RecordStored r | DeferStored r | CountStored r | DropRolledBack r => hit p r
  | LookupDeferred pending => many p pending
  | _ => 0
  end.

(** A queued record whose acceptance is not counted yet. *)
Definition uncounted (a : action) : nat := match a with CountQueued r => hit p r | _ => 0 end.

(** A record the backend took, on its way to its fate. *)
Definition in_flight (a : action) : nat :=
  match a with
  | CountOpen r | DeferOpen r | RecordStored r | DeferStored r | CountStored r | DropRolledBack r => hit p r
  | LookupDeferred pending => many p pending
  | _ => 0
  end.

Definition exporting (a : action) : nat := match a with Export r => hit p r | _ => 0 end.

Definition busy (a : action) : nat := match a with TaskDone => 1 | _ => 0 end.

Definition settled (s : NonBlockingLedgerStore St) : nat :=
  fates Stored (q_history s) + fates StoreFailed (q_history s) + fates Duplicate (q_history s) + fates RolledBack (q_history s).

(** What one action moves. *)
Record balanced (a : action) (s s' : NonBlockingLedgerStore St) (acts : list action) : Prop := {
  bal_accepted :
    (fates Accepted (q_history s') + sum_list_with uncounted acts
       + (settled s + many p (q_queue s) + many p (q_deferred s) + held a) =
     fates Accepted (q_history s) + uncounted a
       + (settled s' + many p (q_queue s') + many p (q_deferred s') + sum_list_with held acts))%nat;
  bal_persisted :
    (fates Persisted (q_history s') + (fates Stored (q_history s) + fates RolledBack (q_history s) + many p (q_deferred s) + in_flight a) =
     fates Persisted (q_history s) + (fates Stored (q_history s') + fates RolledBack (q_history s') + many p (q_deferred s') + sum_list_with in_flight acts))%nat;
  bal_exported :
    (sink = true → fates Stored (q_history s') + (many p (q_exported s) + exporting a) =
                   fates Stored (q_history s) + (many p (q_exported s') + sum_list_with exporting acts))%nat;
  bal_at_most :
    (many p (q_exported s') + sum_list_with exporting acts + fates Stored (q_history s) ≤
     fates Stored (q_history s') + (many p (q_exported s) + exporting a))%nat;
}.

Ltac count_action :=
  split; unfold settled, held, uncounted, in_flight, exporting; intros; cbn;
  rewrite ?fates_snoc; cbn; autorewrite with many; try first [lia | congruence].

(** A list of records to bring to their fate, as a list of actions. *)
Lemma balanced_map (f : UsageRecord → action) l :
  (∀ r, (held (f r) = hit p r ∧ in_flight (f r) = hit p r) ∧ uncounted (f r) = O ∧ exporting (f r) = O) →
  sum_list_with held (map f l) = many p l ∧ sum_list_with in_flight (map f l) = many p l ∧
  sum_list_with uncounted (map f l) = O ∧ sum_list_with exporting (map f l) = O.
Proof.
  intros Hf. split_and!; [apply sum_list_with_map|apply sum_list_with_map|apply sum_list_with_none|
    apply sum_list_with_none]; intros r; by destruct (Hf r) as ((? & ?) & ? & ?).
Qed.

Lemma exec_balanced x a s s' acts : exec queue_size sink x a s = Some (s', acts) → balanced a s s' acts.
Proof.
  intros H. destruct a; cbn [exec] in H.
  - case_in H; simplify_eq; count_action.
  - destruct (append r (q_backend s)) as [b [[]|e]]; simplify_eq; count_action.
  - case_in H; simplify_eq; count_action.
  - simplify_eq; count_action.
  - case_in H; simplify_eq; count_action.
  - simplify_eq; count_action.
  - destruct (q_queue s) eqn:Hq; simplify_eq. count_action; rewrite Hq; autorewrite with many; lia.
  - destruct (append r (q_backend s)) as [b [[]|e]]; simplify_eq; count_action.
  - simplify_eq; count_action.
  - case_in H; simplify_eq; count_action.
  - simplify_eq; count_action.
  - destruct sink eqn:?; simplify_eq; count_action.
  - simplify_eq. destruct x; count_action.
  - case_in H; simplify_eq; count_action.
  - simplify_eq. destruct (balanced_map RecordStored (List.filter (in_ids persisted_ids) (q_deferred s)))
      as (Hh & Hf & Hu & He); [done|].
    pose proof (many_split p (in_ids persisted_ids) (q_deferred s)).
    split; rewrite ?Hh, ?Hf, ?Hu, ?He; unfold settled; cbn; lia.
  - repeat case_in H; simplify_eq; count_action.
  - case_in H; simplify_eq; count_action.
  - destruct (q_deferred s) eqn:Hd; simplify_eq; count_action; rewrite ?Hd; autorewrite with many; lia.
  - destruct x; simplify_eq; [count_action|].
    set (ids := existing_usage_record_ids _ _).
    destruct (balanced_map (λ r, if in_ids ids r then RecordStored r else DropRolledBack r) pending)
      as (Hh & Hf & Hu & He); [by intros r; destruct (in_ids ids r)|].
    split; rewrite ?Hh, ?Hf, ?Hu, ?He; unfold settled; cbn; lia.
  - simplify_eq; count_action.
Qed.
End counts.

(** ** Reachable systems *)

Section system.
Context {St : Type} `{!LedgerStore St} (queue_size : nat) (sink : bool) (env : relation St).

Definition everyone (r : UsageRecord) : bool := true.

Record accounted (s : system St) : Prop := {
  acc_accepted p :
    (fates p Accepted (q_history (sys_store s)) + weigh (uncounted p) (sys_threads s) =
     settled p (sys_store s) + many p (q_queue (sys_store s)) + many p (q_deferred (sys_store s))
       + weigh (held p) (sys_threads s))%nat;
  acc_persisted p :
    (fates p Persisted (q_history (sys_store s)) =
     fates p Stored (q_history (sys_store s)) + fates p RolledBack (q_history (sys_store s))
       + many p (q_deferred (sys_store s)) + weigh (in_flight p) (sys_threads s))%nat;
  acc_exported p :
    (sink = true → fates p Stored (q_history (sys_store s)) =
       many p (q_exported (sys_store s)) + weigh (exporting p) (sys_threads s))%nat;
  acc_at_most p :
    (many p (q_exported (sys_store s)) + weigh (exporting p) (sys_threads s)
       ≤ fates p Stored (q_history (sys_store s)))%nat;
  acc_unfinished :
    q_unfinished (sys_store s) = (length (q_queue (sys_store s)) + weigh busy (sys_threads s))%nat;
  acc_health :
    records_accepted (q_health (sys_store s)) = Z.of_nat (fates everyone Accepted (q_history (sys_store s))) ∧
    records_stored (q_health (sys_store s)) = Z.of_nat (fates everyone Stored (q_history (sys_store s)));
}.

Lemma started_accounted b : accounted (started b).
Proof. split; intros; done. Qed.

(** The clerical work of one action. *)
Lemma exec_clerical x a s s' acts :
  exec queue_size sink x a s = Some (s', acts) → (busy a ≤ q_unfinished s)%nat →
  (q_unfinished s' + (length (q_queue s) + busy a) =
   q_unfinished s + (length (q_queue s') + sum_list_with busy acts))%nat ∧
  records_accepted (q_health s') - Z.of_nat (fates everyone Accepted (q_history s')) =
    records_accepted (q_health s) - Z.of_nat (fates everyone Accepted (q_history s)) ∧
  records_stored (q_health s') - Z.of_nat (fates everyone Stored (q_history s')) =
    records_stored (q_health s) - Z.of_nat (fates everyone Stored (q_history s)).
Proof.
  intros H Hb. destruct a; cbn [exec] in H;
    try (destruct (append r (q_backend s)) as [b [[]|e]]);
    try (destruct (q_queue s) as [|r' l] eqn:Hq; [done|]);
    repeat case_in H; simplify_eq; cbn in *; rewrite ?fates_snoc; cbn; unfold hit, everyone;
    rewrite ?length_app; cbn; try (split_and!; lia).
  all: rewrite ?sum_list_with_none by (intros r0; by try destruct (in_ids _ r0)); try (split_and!; lia).
Qed.

Lemma thread_step_accounted s s' : thread_step queue_size sink s s' → accounted s → accounted s'.
Proof.
  intros [s0 i x a k store acts Hi Hx] [H1 H2 H3 H4 H5 H6].
  assert (busy a ≤ q_unfinished (sys_store s0))%nat as Hb.
  { rewrite H5. pose proof (weigh_insert busy _ i a k [] Hi). cbn in *. lia. }
  destruct (exec_clerical x a _ store acts Hx Hb) as (Hu & Ha & Hs).
  split; cbn [sys_store sys_threads]; intros.
  - destruct (exec_balanced queue_size sink p x a _ store acts Hx) as [B1 _ _ _].
    pose proof (weigh_insert (uncounted p) _ i a k acts Hi). pose proof (weigh_insert (held p) _ i a k acts Hi).
    specialize (H1 p). lia.
  - destruct (exec_balanced queue_size sink p x a _ store acts Hx) as [_ B2 _ _].
    pose proof (weigh_insert (in_flight p) _ i a k acts Hi). specialize (H2 p). lia.
  - destruct (exec_balanced queue_size sink p x a _ store acts Hx) as [_ _ B3 _].
    pose proof (weigh_insert (exporting p) _ i a k acts Hi). specialize (H3 p H). specialize (B3 H). lia.
  - destruct (exec_balanced queue_size sink p x a _ store acts Hx) as [_ _ _ B4].
    pose proof (weigh_insert (exporting p) _ i a k acts Hi). specialize (H4 p). lia.
  - pose proof (weigh_insert busy _ i a k acts Hi). lia.
  - lia.
Qed.

Lemma system_step_accounted s s' : system_step queue_size sink env s s' → accounted s → accounted s'.
Proof.
  intros [s0 s1 Hstep|s0 a Ha|s0 b Hb] H; [by eapply thread_step_accounted|..];
    destruct H as [H1 H2 H3 H4 H5 H6].
  - assert (∀ p, (uncounted p a = 0 ∧ held p a = 0 ∧ in_flight p a = 0) ∧ exporting p a = 0 ∧ busy a = 0)%nat as Ha0
      by (intros p; by destruct a).
    split; cbn [sys_store sys_threads]; rewrite ?weigh_call;
      [intros p; rewrite ?weigh_call; destruct (Ha0 p) as ((E1 & E2 & E3) & E4 & _);
       rewrite ?E1, ?E2, ?E3, ?E4, ?Nat.add_0_r..| |done].
    + apply H1.
    + apply H2.
    + apply H3.
    + apply H4.
    + destruct (Ha0 everyone) as (_ & _ & ->). rewrite Nat.add_0_r. apply H5.
  - by split.
Qed.

Definition reachable_from (b : St) : system St → Prop := rtc (system_step queue_size sink env) (started b).

Lemma reachable_accounted b s : reachable_from b s → accounted s.
Proof.
  intros H. assert (accounted (started b)) as Hs by apply started_accounted.
  induction H as [|s1 s2 s3 Hstep _ IH]; [done|]. by eapply IH, system_step_accounted.
Qed.

(** Nothing is under way: the queue is empty, every call has returned, the
    worker waits. *)
Definition idle (s : system St) : Prop :=
  q_queue (sys_store s) = [] ∧ Forall (λ t, t = [] ∨ t = [Get]) (sys_threads s).

Lemma idle_weigh w s : idle s → w Get = O → weigh w (sys_threads s) = O.
Proof.
  intros [_ Hidle] Hw. unfold weigh. induction Hidle as [|t threads [-> | ->] _ IH]; cbn; [done|done|].
  by rewrite Hw, IH.
Qed.

End system.

(** ** Exports *)

Definition has_id (i : string) (r : UsageRecord) : bool := bool_decide (usage_record_id r = i).

Section durable.
Context {St : Type} `{!LedgerStore St, !LedgerStoreLaws St} (queue_size : nat) (sink : bool) (env : relation St).

(** The backend changes by an append, which a record of the history witnesses
    when it was accepted. *)
Lemma exec_backend x a s s' acts :
  exec queue_size sink x a s = Some (s', acts) →
  (q_backend s' = q_backend s ∧ ∀ p, fates p Persisted (q_history s') = fates p Persisted (q_history s)) ∨
  (∃ r result, append r (q_backend s) = (q_backend s', result) ∧
     ∀ p, fates p Persisted (q_history s') =
          (fates p Persisted (q_history s) + match result with Ok true => hit p r | _ => 0 end)%nat).
Proof.
  intros H. destruct a; cbn [exec] in H.
  2, 8: right; exists r; destruct (append r (q_backend s)) as [b [[]|e]] eqn:Happ; simplify_eq;
        eexists; (split; [reflexivity|]); intros p; cbn; rewrite ?fates_snoc; cbn; lia.
  all: left; try (destruct (q_queue s)); repeat case_in H; simplify_eq; (split; [done|]);
       intros p; cbn; rewrite ?fates_snoc; cbn; lia.
Qed.

Record durable (s : system St) : Prop := {
  dur_wf : store_wf (q_backend (sys_store s));
  dur_once i : (fates (has_id i) Persisted (q_history (sys_store s)) ≤ 1)%nat;
  dur_kept i : (0 < fates (has_id i) Persisted (q_history (sys_store s)))%nat →
               i ∈ store_ids (q_backend (sys_store s));
}.

(** Nobody rolls back: what the application does on the connection keeps the
    records the backend knows. *)
Context (env_keeps : ∀ b b', env b b' → store_wf b → store_wf b' ∧ store_ids b ⊆ store_ids b').

Lemma system_step_durable s s' : system_step queue_size sink env s s' → durable s → durable s'.
Proof.
  intros [s0 s1 [s2 i x a k store acts Hi Hx]|s0 a Ha|s0 b Hb] [Hwf Honce Hkept].
  - apply exec_backend in Hx as [[Hb Hp]|(r & result & Happ & Hp)]; split; cbn [sys_store]; intros.
    + by rewrite Hb.
    + by rewrite Hp.
    + rewrite Hb. apply Hkept. by rewrite <- Hp.
    + pose proof (append_wf r _ Hwf) as H. by rewrite Happ in H.
    + rewrite Hp. specialize (Honce i0). destruct result as [[]|e]; [|lia..]. unfold hit, has_id at 2.
      case_bool_decide as Hid; [|lia]. subst i0.
      pose proof (append_accepted r _ _ Hwf Happ) as (Hnew & _).
      destruct (fates (has_id (usage_record_id r)) Persisted _) eqn:Hz; [lia|].
      exfalso. apply Hnew, Hkept. lia.
    + rewrite Hp in H. destruct result as [[]|e].
      * pose proof (append_accepted r _ _ Hwf Happ) as (_ & -> & _). apply elem_of_union.
        destruct (decide (usage_record_id r = i0)) as [<-|Hne]; [left; by apply elem_of_singleton|right].
        apply Hkept. unfold hit, has_id at 2 in H. rewrite bool_decide_eq_false_2 in H by done. lia.
      * pose proof (append_refused r _ _ Hwf Happ) as (_ & -> & _). apply Hkept. lia.
      * pose proof (append_raised r _ _ e Hwf Happ) as (-> & _). apply Hkept. lia.
  - by split.
  - destruct (env_keeps _ _ Hb Hwf) as [Hwf' Hids]. split; cbn [sys_store]; [done|done|].
    intros i Hp. by apply Hids, Hkept.
Qed.

(** What is billed is what is stored, once. As long as the application rolls
    no transaction back, every record handed to the export sink is in the
    backend and no record id is handed to it twice, for every interleaving of
    callers, worker, flushes and transactions, failing appends and exports
    included. *)
Theorem exports_are_durable_and_once b s :
  store_wf b → reachable_from queue_size sink env b s →
  NoDup (map usage_record_id (q_exported (sys_store s))) ∧
  ∀ r, r ∈ q_exported (sys_store s) → usage_record_id r ∈ store_ids (q_backend (sys_store s)).
Proof.
  intros Hwf Hr. pose proof (reachable_accounted queue_size sink env b s Hr) as [_ Hp _ Hx _ _].
  assert (durable s) as [_ Honce Hkept].
  { assert (durable (started b)) as Hs by (split; [done|intros i; unfold fates, many; cbn; lia..]). revert Hs.
    induction Hr as [|s1 s2 s3 Hstep _ IH]; [done|]. intros Hs. by eapply IH, system_step_durable. }
  assert (∀ i, (many (has_id i) (q_exported (sys_store s)) ≤ fates (has_id i) Persisted (q_history (sys_store s)))%nat)
    as Hle by (intros i; specialize (Hp (has_id i)); specialize (Hx (has_id i)); lia).
  split.
  - apply NoDup_many. intros i. specialize (Hle i). specialize (Honce i). unfold has_id in *. lia.
  - intros r Hin. apply Hkept. specialize (Hle (usage_record_id r)).
    assert (0 < many (has_id (usage_record_id r)) (q_exported (sys_store s)))%nat; [|lia].
    apply many_pos. exists r. split; [done|]. by apply bool_decide_eq_true.
Qed.
End durable.

(** ** Draining *)

(** An action that is neither the worker's wait nor a flush's. *)
Definition plain (a : action) : bool := match a with Get | AwaitQueue _ => false | _ => true end.

(** A thread waits for the queue as a whole call, and for a record at its end. *)
Definition shaped (t : list action) : Prop :=
  (∃ bounded, t = [AwaitQueue bounded]) ∨ ∃ l, Forall (λ a, plain a = true) l ∧ (t = l ∨ t = l ++ [Get]).

(** The worker's thread. *)
Definition worker (t : list action) : Prop := ∃ l, Forall (λ a, plain a = true) l ∧ t = l ++ [Get].

(** The weight of an action towards the deferred exports a flush takes up again,
    and towards the record it carries. *)
Definition flush_weight (a : action) : nat :=
  match a with AwaitQueue _ => 4 | FlushCheck => 3 | TakeDeferred => 2 | Settle _ => 2 | TakeSettled _ => 1 | _ => 0 end.

Definition record_weight (a : action) : nat :=
  match a with
  | Append _ => 13 | PutNowait _ => 12 | Persist _ => 8 | AppendOpen _ => 7 | CountOpen _ => 6
  | RecordStored _ => 4 | CountStored _ => 3 | LookupDeferred pending => 1 + 5 * length pending
  | CountQueued _ | DeferOpen _ | TaskDone | DeferStored _ | Export _ | DropRolledBack _ => 1
  | _ => 0
  end.

Lemma sum_weight_map (f : UsageRecord → action) w n l :
  (∀ r, w (f r) ≤ n)%nat → (sum_list_with w (map f l) ≤ n * length l)%nat.
Proof. intros Hw. induction l as [|r l IH]; cbn; [lia|]. specialize (Hw r). lia. Qed.

Section draining.
Context {St : Type} `{!LedgerStore St} (queue_size : nat) (sink : bool) (env : relation St).

Definition flushes (s : system St) : nat := weigh flush_weight (sys_threads s).
Definition records_left (s : system St) : nat :=
  (10 * length (q_queue (sys_store s)) + weigh record_weight (sys_threads s))%nat.

Lemma exec_weights x a s s' acts :
  exec queue_size sink x a s = Some (s', acts) →
  (sum_list_with flush_weight acts < flush_weight a)%nat ∨
  (sum_list_with flush_weight acts = flush_weight a ∧
   10 * length (q_queue s') + sum_list_with record_weight acts < 10 * length (q_queue s) + record_weight a)%nat.
Proof.
  intros H. destruct a; cbn [exec] in H;
    try (destruct (append r (q_backend s)) as [b [[]|e]]);
    try (destruct (q_queue s) as [|r' l] eqn:Hq; [done|]);
    repeat case_in H; simplify_eq; cbn [flush_weight record_weight sum_list_with with_queue with_backend with_deferred
      q_queue dropped mark fated _emit_usage_event with_exported length]; rewrite ?length_app; cbn [length]; try lia.
  - left. rewrite sum_list_with_none by done. lia.
  - right. rewrite sum_list_with_none by (intros r; by destruct (in_ids _ r)).
    pose proof (sum_weight_map (λ r, if in_ids (existing_usage_record_ids (map usage_record_id pending) (q_backend s')) r
      then RecordStored r else DropRolledBack r) record_weight 4 pending) as Hs.
    split; [done|]. enough (sum_list_with record_weight (map (λ r, if in_ids (existing_usage_record_ids
      (map usage_record_id pending) (q_backend s')) r then RecordStored r else DropRolledBack r) pending)
      ≤ 4 * length pending)%nat by lia. apply Hs. intros r. destruct (in_ids _ r); cbn; lia.
Qed.

Lemma thread_step_weights s s' :
  thread_step queue_size sink s s' →
  (flushes s' < flushes s ∨ flushes s' = flushes s ∧ records_left s' < records_left s)%nat.
Proof.
  intros [s0 i x a k store acts Hi Hx]. unfold flushes, records_left. cbn [sys_store sys_threads].
  pose proof (weigh_insert flush_weight _ i a k acts Hi). pose proof (weigh_insert record_weight _ i a k acts Hi).
  apply exec_weights in Hx. lia.
Qed.

Lemma threads_terminate s : sn (thread_step queue_size sink) s.
Proof.
  remember (flushes s) as n eqn:Hn. revert s Hn.
  induction n as [n IHn] using (well_founded_induction lt_wf). intros s Hn.
  remember (records_left s) as m eqn:Hm. revert s Hn Hm.
  induction m as [m IHm] using (well_founded_induction lt_wf). intros s Hn Hm.
  constructor. intros s' Hstep. unfold flip in Hstep.
  apply thread_step_weights in Hstep as [Hlt|[Heq Hlt]].
  - apply (IHn (flushes s')); [lia|done].
  - apply (IHm (records_left s')); [lia|lia|done].
Qed.

(** ** The shape of the threads *)

Lemma exec_plain x a s s' acts :
  exec queue_size sink x a s = Some (s', acts) → plain a = true → Forall (λ a, plain a = true) acts.
Proof.
  intros H Hp. destruct a; try done; cbn [exec] in H;
    try (destruct (append r (q_backend s)) as [b [[]|e]]);
    repeat case_in H; simplify_eq; repeat constructor.
  - apply Forall_map, Forall_true. done.
  - apply Forall_map, Forall_true. intros r. cbn. by destruct (in_ids _ r).
Qed.

Lemma exec_shaped x a k s s' acts :
  exec queue_size sink x a s = Some (s', acts) → shaped (a :: k) →
  shaped (acts ++ k) ∧ (worker (a :: k) → worker (acts ++ k)).
Proof.
  intros Hx [[bounded [= -> ->]]|(l & Hl & Ht)].
  - cbn [exec] in Hx. split.
    + right. exists acts. rewrite app_nil_r. split; [|by left]. repeat case_in Hx; simplify_eq; repeat constructor.
    + intros ([|a l] & Hl & Heq); cbn in Heq; [done|]. injection Heq as <- _. by apply Forall_cons in Hl as [? _].
  - destruct l as [|a' l]; cbn in Ht.
    + destruct Ht as [[=]|[= -> ->]]. cbn [exec] in Hx. destruct (q_queue s) as [|r q]; simplify_eq.
      assert (worker ([Persist r; TaskDone; Get] ++ [])) as Hw.
      { exists [Persist r; TaskDone]. split; [by repeat constructor|done]. }
      split; [|done]. right. destruct Hw as (l & Hl' & ->). exists l. auto.
    + assert (a' = a) as -> by (destruct Ht as [Ht|Ht]; by injection Ht).
      apply Forall_cons in Hl as [Hp Hl]. pose proof (exec_plain x a s s' acts Hx Hp) as Hacts.
      assert (Forall (λ a, plain a = true) (acts ++ l)) as Hal by by apply Forall_app.
      assert (k = l ∨ k = l ++ [Get]) as Hk by (destruct Ht as [[= ->]|[= ->]]; auto).
      split.
      * right. exists (acts ++ l). split; [done|]. destruct Hk as [-> | ->]; [by left|right]. by rewrite app_assoc.
      * intros ([|a0 l0] & Hl0 & Heq); cbn in Heq; injection Heq as Ha Hk0; [by rewrite Ha in Hp|].
        apply Forall_cons in Hl0 as [_ Hl0]. exists (acts ++ l0). split; [by apply Forall_app|]. by rewrite Hk0, app_assoc.
Qed.

Definition well_shaped (s : system St) : Prop :=
  Forall shaped (sys_threads s) ∧ ∃ t, sys_threads s !! 0%nat = Some t ∧ worker t.

Lemma thread_step_shaped s s' : thread_step queue_size sink s s' → well_shaped s → well_shaped s'.
Proof.
  intros [s0 i x a k store acts Hi Hx] [Hs (t & Ht & Hw)].
  pose proof (Forall_lookup_1 _ _ _ _ Hs Hi) as Hshape.
  destruct (exec_shaped x a k _ _ acts Hx Hshape) as [Hshape' Hworker].
  split; cbn [sys_threads]; [by apply Forall_insert|].
  destruct (decide (i = 0%nat)) as [->|Hne].
  - exists (acts ++ k). rewrite list_lookup_insert_eq by (by eapply lookup_lt_Some). split; [done|].
    apply Hworker. rewrite Hi in Ht. by injection Ht as <-.
  - exists t. by rewrite list_lookup_insert_ne.
Qed.

Lemma system_step_shaped s s' : system_step queue_size sink env s s' → well_shaped s → well_shaped s'.
Proof.
  intros [s0 s1 Hstep|s0 a Ha|s0 b Hb] H; [by eapply thread_step_shaped| |done].
  destruct H as [Hs (t & Ht & Hw)]. split; cbn [sys_threads].
  - apply Forall_app. split; [done|]. apply Forall_singleton. destruct a; try done.
    1, 2: right; eexists; (split; [|left; reflexivity]); by repeat constructor.
    left. by eexists.
  - exists t. split; [|done]. rewrite lookup_app_l; [done|]. by eapply lookup_lt_Some.
Qed.

Lemma reachable_shaped b s : reachable_from queue_size sink env b s → well_shaped s.
Proof.
  intros H. assert (well_shaped (started b)) as Hs.
  { assert (worker [Get]) as Hw by (exists []; split; [constructor|done]).
    split; [|by exists [Get]]. apply Forall_singleton. right. exists []. split; [constructor|by right]. }
  induction H as [|s1 s2 s3 Hstep _ IH]; [done|]. by eapply IH, system_step_shaped.
Qed.

Lemma plain_steps a s : plain a = true → is_Some (exec queue_size sink None a s).
Proof.
  intros Hp. destruct a; try done; cbn [exec];
    try (destruct (append r (q_backend s)) as [b [[]|e]]);
    try (destruct (length (q_queue s) <? queue_size)%nat); try destruct sink; by eexists.
Qed.

(** C16. The store drains, and every flush returns. From every reachable state,
    once the callers make no further calls and the application leaves the
    connection alone, no schedule of the threads is infinite; and when none of
    them can take a step the queue is empty, every call to append, flush and
    settle has returned, and the worker waits for the next record. *)
Theorem queue_always_drains b s :
  reachable_from queue_size sink env b s →
  sn (thread_step queue_size sink) s ∧
  ∀ s', rtc (thread_step queue_size sink) s s' → nf (thread_step queue_size sink) s' → idle s'.
Proof.
  intros Hr. split; [apply threads_terminate|]. intros s' Hsteps Hstuck.
  assert (reachable_from queue_size sink env b s') as Hr'.
  { unfold reachable_from in *. etrans; [exact Hr|]. clear -Hsteps. induction Hsteps as [|s1 s2 s3 H _ IH]; [done|].
    eapply rtc_l; [by apply SystemThread|exact IH]. }
  clear Hsteps Hr. pose proof (acc_unfinished _ _ (reachable_accounted queue_size sink env b s' Hr')) as Hu.
  destruct (reachable_shaped b s' Hr') as [Hshape (t0 & Ht0 & l0 & Hl0 & ->)].
  assert (∀ i x a k, sys_threads s' !! i = Some (a :: k) → exec queue_size sink x a (sys_store s') = None) as Hblock.
  { intros i x a k Hi. destruct (exec queue_size sink x a (sys_store s')) as [[store acts]|] eqn:Hx; [|done].
    exfalso. apply Hstuck. eexists. by eapply ThreadActs. }
  assert (∀ i a k, sys_threads s' !! i = Some (a :: k) → plain a = true → False) as Hplain.
  { intros i a k Hi Hp. destruct (plain_steps a (sys_store s') Hp) as [y Hy].
    by rewrite (Hblock i None a k Hi) in Hy. }
  assert (q_queue (sys_store s') = []) as Hq.
  { destruct l0 as [|a l0]; cbn in Ht0.
    - specialize (Hblock 0%nat None Get [] Ht0). cbn [exec] in Hblock. by destruct (q_queue (sys_store s')).
    - exfalso. apply Forall_cons in Hl0 as [Hp _]. by eapply Hplain. }
  assert (∀ t, t ∈ sys_threads s' → t = [] ∨ t = [Get] ∨ ∃ bounded, t = [AwaitQueue bounded]) as Ht.
  { intros t [i Hi]%list_elem_of_lookup_1. destruct (Forall_lookup_1 _ _ _ _ Hshape Hi) as [?|(l & Hl & Hor)]; [auto|].
    destruct l as [|a l]; [destruct Hor; auto|]. apply Forall_cons in Hl as [Hp _].
    exfalso. destruct Hor; subst t; by eapply Hplain. }
  assert (weigh busy (sys_threads s') = O) as Hbusy.
  { unfold weigh. clear -Ht. induction (sys_threads s') as [|t threads IH]; cbn; [done|].
    rewrite IH by (intros; apply Ht; by right).
    destruct (Ht t) as [-> |[-> |[bounded ->]]]; [left|done..]. }
  rewrite Hq, Hbusy in Hu. cbn in Hu.
  split; [done|]. apply Forall_forall. intros t Hin. destruct (Ht t Hin) as [?|[?|[bounded ->]]]; [auto..|].
  apply list_elem_of_lookup_1 in Hin as [i Hi]. specialize (Hblock i None _ _ Hi). cbn [exec] in Hblock.
  by rewrite Hu in Hblock.
Qed.
End draining.

(** ** Schedules *)

Section schedules.
Context {St : Type} `{!LedgerStore St} (queue_size : nat) (sink : bool) (env : relation St).

Definition allowed (m : move St) : Prop := match m with MCaller f => ∀ b, env b (f b) | _ => True end.

Lemma run_move_step s m s' :
  run_move queue_size sink s m = Some s' → allowed m → system_step queue_size sink env s s'.
Proof.
  destruct m as [i x|a|f]; cbn [run_move allowed].
  - intros H _. destruct (sys_threads s !! i) as [[|a k]|] eqn:Hi; [done| |done].
    destruct (exec queue_size sink x a (sys_store s)) as [[store acts]|] eqn:Hx; cbn in H; [|done].
    injection H as <-. apply SystemThread. by eapply ThreadActs.
  - destruct (is_call a) eqn:Ha; [|done]. intros [= <-] _. by apply SystemCall.
  - intros [= <-] Hf. apply SystemCaller, Hf.
Qed.

Lemma schedule_steps l : ∀ s s',
  run_schedule queue_size sink l s = Some s' → Forall allowed l → rtc (system_step queue_size sink env) s s'.
Proof.
  assert (∀ l, fold_left (λ acc m, acc ≫= λ s, run_move queue_size sink s m) l None = None) as Hnone
    by (intros l0; by induction l0).
  unfold run_schedule. induction l as [|m l IH]; intros s s' H Hl; cbn in H; [by simplify_eq|].
  apply Forall_cons in Hl as [Hm Hl].
  destruct (run_move queue_size sink s m) as [s1|] eqn:H1; [|by rewrite Hnone in H].
  eapply rtc_l; [by eapply run_move_step|]. by apply IH.
Qed.
End schedules.

(** ** An application's transactions on a connection to SQLite *)

Definition sql_begin (c : connection) : connection :=
  if conn_qmark c && negb (in_transaction c)
  then conn_with (conn_db c) (Some (conn_db c)) (S (conn_statements c)) c else c.
Definition sql_commit (c : connection) : connection :=
  if in_transaction c then conn_with (conn_db c) None (S (conn_statements c)) c else c.
Definition sql_rollback (c : connection) : connection :=
  match conn_saved c with Some saved => conn_with saved None (S (conn_statements c)) c | None => c end.

(** An application that commits what it begins. *)
Definition commits (c c' : connection) : Prop := c' = sql_begin c ∨ c' = sql_commit c.

#[local] Hint Extern 0 (LedgerStore connection) => exact (sql_ledger_store faultless bind_string) : typeclass_instances.
#[local] Hint Extern 0 (LedgerStoreLaws connection) => exact (sql_store_laws faultless bind_string) : typeclass_instances.

Lemma commits_keep b b' : commits b b' → store_wf b → store_wf b' ∧ store_ids b ⊆ store_ids b'.
Proof.
  intros Hb [[Hdb Hsaved] Hpg]. cbn.
  enough (conn_wf b' ∧ conn_db b' = conn_db b) as [Hwf ->] by (split; [exact Hwf|done]).
  destruct Hb as [-> | ->].
  - unfold sql_begin. destruct (conn_qmark b) eqn:Hq; cbn; [|split; [split; [by split|first [exact Hpg | by rewrite Hq]]|done]].
    destruct (in_transaction b); cbn [negb]; [split; [split; [by split|by rewrite Hq]|done]|].
    split; [|done]. split; [|cbn; by rewrite Hq]. split; cbn; [done|by intros saved [= <-]].
  - unfold sql_commit. destruct (in_transaction b); [|split; [split; [by split|first [exact Hpg | by rewrite Hq]]|done]].
    split; [|done]. split; [|done]. by split.
Qed.

Definition demo_usage (id : string) : UsageRecord := demo_record id 20 unattributed.

(** Thread [i] takes [n] actions. *)
Definition acts {St} (i n : nat) : list (move St) := repeat (MThread i None) n.

(** One record inside of a transaction, one through the queue; commit; flush. *)
Definition demo_schedule : list (move connection) :=
  [MCaller sql_begin; MCall (Append (demo_usage "usage_a"))] ++ acts 1 4 ++
  [MCaller sql_commit; MCall (Append (demo_usage "usage_b"))] ++ acts 2 3 ++ acts 0 6 ++
  [MCall (AwaitQueue false)] ++ acts 3 7.

Definition demo_system : system connection :=
  default (started demo_connection) (run_schedule 10 true demo_schedule (started demo_connection)).

Lemma demo_reachable : reachable_from 10 true commits demo_connection demo_system.
Proof.
  apply (schedule_steps 10 true commits demo_schedule); [vm_compute; reflexivity|].
  unfold demo_schedule, acts. cbn [repeat app].
  repeat (apply Forall_cons; split; [first [exact I | intros c; by left | intros c; by right]|]). by apply Forall_nil.
Qed.

Lemma demo_idle : idle demo_system.
Proof.
  assert (sys_threads demo_system = [[Get]; []; []; []] ∧ q_queue (sys_store demo_system) = []) as [Ht Hq]
    by (vm_compute; split; reflexivity).
  split; [exact Hq|]. rewrite Ht. repeat (apply Forall_cons; split; [auto|]). by apply Forall_nil.
Qed.


Lemma exports_are_durable_and_once_witness :
  map usage_record_id (q_exported (sys_store demo_system)) = ["usage_b"; "usage_a"] ∧
  NoDup (map usage_record_id (q_exported (sys_store demo_system))).
Proof.
  split; [vm_compute; reflexivity|].
  apply (exports_are_durable_and_once 10 true commits commits_keep demo_connection demo_system);
    [|apply demo_reachable].
  split; [apply (ready_ok _ demo_connection_ready)|by intros [=]].
Defined.

Lemma queue_always_drains_witness :
  sn (thread_step 10 true) demo_system ∧ sys_threads demo_system = [[Get]; []; []; []].
Proof.
  split; [|vm_compute; reflexivity].
  apply (queue_always_drains 10 true commits demo_connection demo_system demo_reachable).
Defined.

(** ** What a rollback does

    A record is queued while no transaction is open; the application begins one;
    the worker writes the record into it; the application rolls back; the worker
    then sees no open transaction, counts the record as stored and exports it.
    The backend has no such record. *)
Definition rollback_schedule : list (move connection) :=
  [MCall (Append (demo_usage "usage_a"))] ++ acts 1 3 ++ [MCaller sql_begin] ++ acts 0 2 ++
  [MCaller sql_rollback] ++ acts 0 3.

Lemma rolled_back_record_is_exported :
  ∃ s, run_schedule 10 true rollback_schedule (started demo_connection) = Some s ∧
       map usage_record_id (q_exported (sys_store s)) = ["usage_a"] ∧
       records_stored (q_health (sys_store s)) = 1 ∧
       all_rows (conn_db (q_backend (sys_store s))) = [].
Proof.
  eexists. split; [vm_compute; reflexivity|]. split; [vm_compute; reflexivity|].
  split; vm_compute; reflexivity.
Qed.

(** A record appended inside of a transaction that is rolled back, and appended
    again inside of the next one, is exported twice by the flush after the
    commit: both entries of the deferred exports name the id that is now stored. *)
Definition retry_schedule : list (move connection) :=
  [MCaller sql_begin; MCall (Append (demo_usage "usage_a"))] ++ acts 1 4 ++
  [MCaller sql_rollback; MCaller sql_begin; MCall (Append (demo_usage "usage_a"))] ++ acts 2 4 ++
  [MCaller sql_commit; MCall (AwaitQueue false)] ++ acts 3 10.

Lemma retried_record_is_exported_twice :
  ∃ s, run_schedule 10 true retry_schedule (started demo_connection) = Some s ∧
       map usage_record_id (q_exported (sys_store s)) = ["usage_a"; "usage_a"] ∧
       records_stored (q_health (sys_store s)) = 2 ∧
       length (all_rows (conn_db (q_backend (sys_store s)))) = 1%nat.
Proof.
  eexists. split; [vm_compute; reflexivity|]. split; [vm_compute; reflexivity|].
  split; vm_compute; reflexivity.
Qed.
