(* ===== verification/CostLedger.v ===== *)
(** cost_ledger.py: [CostLedger] over a store that is called inline - recording,
    the exports deferred to the end of a transaction, and the reports.

    Amounts are [Decimal] values accumulated as in the code; costs are finite
    floats. The clock and the fresh id of a record are arguments of [record_usage].
    A ledger over a [NonBlockingLedgerStore] records through the actions of
    LedgerQueue.v: the record it builds is [build_record]'s. *)

From Stdlib Require Import Ascii String.
From S2P Require Import Prelude PyString PyCollections PyFloat PyValue PyDecimal PriceBook LedgerStore SqlLedger LedgerQueue.
Open Scope Z_scope.

(** ** Recording *)

Inductive attribution_argument :=
| NoAttribution
| AttributionMapping (data : list (pyval * pyval))
| AttributionGiven (a : AttributionDimensions).

Record usage_request := {
  ur_provider : string;
  ur_model : string;
  ur_prompt_tokens : Z;
  ur_completion_tokens : Z;
  ur_request_channel : string;
  ur_route_mode : option string;
  ur_workflow_run_id : option string;
  ur_attribution : attribution_argument;
  ur_measurement_status : string;
  ur_created_at : option Z;
  ur_usage_record_id : option string;
}.

(** The keys a caller may not choose. *)
Definition execution_key (k : pyval) : bool :=
  key_is "model_name" k || key_is "provider" k || key_is "upstream_api" k.

Definition described (other_str : pyval → string) (a : attribution_argument) : AttributionDimensions :=
  match a with
  | NoAttribution => from_mapping other_str []
  | AttributionMapping data => from_mapping other_str (List.filter (λ kv, negb (execution_key kv.1)) data)
  | AttributionGiven g =>
      {| account := account g; service := service g; upstream_api := UNATTRIBUTED; model_dimension := UNATTRIBUTED;
         team := team g; group := group g; company := company g |}
  end.

Definition with_execution (provider model : string) (a : AttributionDimensions) : AttributionDimensions :=
  {| account := account a; service := service a;
     upstream_api := if str_truthy provider then provider else upstream_api a;
     model_dimension := if str_truthy model then model else model_dimension a;
     team := team a; group := group a; company := company a |}.

Section recording.
Context (other_str : pyval → string) (default_currency : string).
Context {C : Type} `{!ConfigStore C}.

(** The record of a request, or the exception of [record_usage]. *)
Definition build_record (prices : C) (now : Z) (fresh_id : string) (u : usage_request) : res string UsageRecord :=
  let dims := with_execution (ur_provider u) (ur_model u) (described other_str (ur_attribution u)) in
  '(cost, currency, known) ← compute_cost default_currency (ur_provider u) (ur_model u) (ur_prompt_tokens u)
                               (ur_completion_tokens u) prices;
  let known :=
    if String.eqb (ur_measurement_status u) "unavailable"
       && bool_decide (get_price default_currency (ur_provider u) (ur_model u) prices = None)
    then false else known in
  if negb (existsb (String.eqb (ur_measurement_status u)) MEASUREMENT_STATUSES)
  then Raise "ValueError"
  else Ok {| usage_record_id := match ur_usage_record_id u with
                                | Some i => if str_truthy i then i else fresh_id
                                | None => fresh_id
                                end;
             created_at := default now (ur_created_at u);
             workflow_run_id := ur_workflow_run_id u; request_channel := ur_request_channel u;
             route_mode := ur_route_mode u; provider_name := ur_provider u; model_name := ur_model u;
             prompt_tokens := ur_prompt_tokens u; completion_tokens := ur_completion_tokens u;
             total_tokens := ur_prompt_tokens u + ur_completion_tokens u; cost_amount := cost;
             currency_code := currency; measurement_status := ur_measurement_status u; price_known := known;
             attribution := dims |}.

(** ** The ledger over an inline store *)

Context {St : Type} `{!LedgerStore St}.
(** The export sink, if any: what its [n]-th call raises. *)
Context (usage_sink : option (nat → option string)).
(** What looking ids up in the store raises. *)
Context (lookup_raises : St → option string).

Record CostLedger := {
  cl_prices : C;
  cl_store : St;
  cl_health : UsageTelemetryHealth;
  cl_deferred : list UsageRecord;
  cl_telemetry : list UsageTelemetryEvent;
  cl_exported : list UsageRecord;
}.

Definition cl_with_store (s : St) (l : CostLedger) : CostLedger :=
  {| cl_prices := cl_prices l; cl_store := s; cl_health := cl_health l; cl_deferred := cl_deferred l;
     cl_telemetry := cl_telemetry l; cl_exported := cl_exported l |}.

Definition cl_with_health (f : UsageTelemetryHealth → UsageTelemetryHealth) (l : CostLedger) : CostLedger :=
  {| cl_prices := cl_prices l; cl_store := cl_store l; cl_health := f (cl_health l); cl_deferred := cl_deferred l;
     cl_telemetry := cl_telemetry l; cl_exported := cl_exported l |}.

Definition cl_with_deferred (d : list UsageRecord) (l : CostLedger) : CostLedger :=
  {| cl_prices := cl_prices l; cl_store := cl_store l; cl_health := cl_health l; cl_deferred := d;
     cl_telemetry := cl_telemetry l; cl_exported := cl_exported l |}.

Definition cl_emit (r : UsageRecord) (export_state : string) (error_type : option string) (l : CostLedger) : CostLedger :=
  {| cl_prices := cl_prices l; cl_store := cl_store l; cl_health := cl_health l; cl_deferred := cl_deferred l;
     cl_telemetry := cl_telemetry l ++ [from_record r export_state error_type]; cl_exported := cl_exported l |}.

Definition cl_export (r : UsageRecord) (l : CostLedger) : CostLedger :=
  {| cl_prices := cl_prices l; cl_store := cl_store l; cl_health := cl_health l; cl_deferred := cl_deferred l;
     cl_telemetry := cl_telemetry l; cl_exported := cl_exported l ++ [r] |}.

(** The name of an exception's type is not empty. *)
Definition _mark_inline_success (h : UsageTelemetryHealth) : UsageTelemetryHealth :=
  _mark CStored None (_mark CAccepted None h).

Definition _mark_inline_drop (error_type : string) (was_stored : bool) (h : UsageTelemetryHealth) : UsageTelemetryHealth :=
  let h := _mark CDropped (Some error_type) h in
  {| records_accepted := records_accepted h;
     records_stored := if was_stored then records_stored h - 1 else records_stored h;
     records_dropped := records_dropped h; store_failures := store_failures h;
     export_failures := export_failures h; last_error_type := last_error_type h |}.

Definition _mark_inline_failure (error_type : string) (h : UsageTelemetryHealth) : UsageTelemetryHealth :=
  _mark CStoreFailure (Some error_type) (_mark CAccepted None h).

Definition _mark_inline_export_failure (error_type : string) (h : UsageTelemetryHealth) : UsageTelemetryHealth :=
  _mark CExportFailure (Some error_type) h.

Definition _mark_inline_store_failure (error_type : string) (h : UsageTelemetryHealth) : UsageTelemetryHealth :=
  _mark CStoreFailure (Some error_type) h.

Definition _emit_usage_record (r : UsageRecord) (l : CostLedger) : CostLedger :=
  match usage_sink with
  | None => l
  | Some raises =>
      match raises (length (cl_exported l)) with
      | None => cl_export r l
      | Some e => cl_emit r "export_error" (Some e) (cl_with_health (_mark_inline_export_failure e) (cl_export r l))
      end
  end.

(** One deferred export, once no transaction is open. *)
Definition release (persisted_ids : gset string) (l : CostLedger) (r : UsageRecord) : CostLedger :=
  if bool_decide (usage_record_id r ∈ persisted_ids) then _emit_usage_record r l
  else cl_emit r "dropped" (Some "caller_transaction_rollback")
         (cl_with_health (_mark_inline_drop "caller_transaction_rollback" true) l).

Definition _flush_deferred_usage_exports (l : CostLedger) : CostLedger :=
  if has_open_transaction (cl_store l) then l
  else
    match cl_deferred l with
    | [] => l
    | pending =>
        match lookup_raises (cl_store l) with
        | Some e => cl_with_health (_mark_inline_store_failure e) l
        | None => fold_left (release (existing_usage_record_ids (map usage_record_id pending) (cl_store l))) pending
                    (cl_with_deferred [] l)
        end
    end.

(** The append, and what its outcome does to the health and the telemetry; an
    exception of the store stops here. *)
Definition append_inline (r : UsageRecord) (l : CostLedger) : CostLedger * bool :=
  let '(store, result) := append r (cl_store l) in
  let l := cl_with_store store l in
  match result with
  | Raise e => (cl_emit r "export_error" (Some e) (cl_with_health (_mark_inline_failure e) l), false)
  | Ok true => (cl_emit r "stored" None (cl_with_health _mark_inline_success l), true)
  | Ok false => (cl_emit r "dropped" (Some "duplicate") (cl_with_health (_mark_inline_drop "duplicate" false) l), false)
  end.

Definition record_usage (u : usage_request) (now : Z) (fresh_id : string) (l : CostLedger)
    : CostLedger * res string UsageRecord :=
  let l := _flush_deferred_usage_exports l in
  match build_record (cl_prices l) now fresh_id u with
  | Raise e => (l, Raise e)
  | Ok r =>
      let '(l, accepted) := append_inline r l in
      let l :=
        match usage_sink with
        | Some _ =>
            if accepted then
              if has_open_transaction (cl_store l) then cl_with_deferred (cl_deferred l ++ [r]) l
              else _emit_usage_record r l
            else l
        | None => l
        end in
      (l, Ok r)
  end.

(** [flush]: the inline store has nothing to wait for. *)
Definition flush (l : CostLedger) : CostLedger * bool := (_flush_deferred_usage_exports l, true).

(** [wait_for_usage_record_ids], one look: the loop repeats it until the
    deadline. *)
Definition wait_once (usage_record_ids : list string) (l : CostLedger) : CostLedger * res string bool :=
  let expected : gset string := list_to_set usage_record_ids in
  if bool_decide (expected = ∅) then (l, Ok true)
  else
    match lookup_raises (cl_store l) with
    | Some e => (l, Raise e)
    | None =>
        if bool_decide (expected ⊆ existing_usage_record_ids (elements expected) (cl_store l))
        then (_flush_deferred_usage_exports l, Ok true)
        else (l, Ok false)
    end.
End recording.

Arguments CostLedger : clear implicits.

(** ** Reports *)

(** A value per measurement status, and per price status. *)
Record by_status (A : Type) := { on_measured : A; on_estimated : A; on_unavailable : A }.
Record by_price (A : Type) := { on_known : A; on_unknown : A }.
Arguments on_measured {_}. Arguments on_estimated {_}. Arguments on_unavailable {_}.
Arguments on_known {_}. Arguments on_unknown {_}.

(** [_measurement_status_of] of a row: an unknown status is unavailable. *)
Inductive status := Measured | Estimated | Unavailable.

Definition _measurement_status_of (r : usage_row) : status :=
  if String.eqb (row_status r) "measured" then Measured
  else if String.eqb (row_status r) "estimated" then Estimated
  else Unavailable.

Definition status_name (s : status) : string :=
  match s with Measured => "measured" | Estimated => "estimated" | Unavailable => "unavailable" end.

Definition at_status {A} (s : status) (m : by_status A) : A :=
  match s with Measured => on_measured m | Estimated => on_estimated m | Unavailable => on_unavailable m end.

Definition upd_status {A} (s : status) (f : A → A) (m : by_status A) : by_status A :=
  match s with
  | Measured => {| on_measured := f (on_measured m); on_estimated := on_estimated m; on_unavailable := on_unavailable m |}
  | Estimated => {| on_measured := on_measured m; on_estimated := f (on_estimated m); on_unavailable := on_unavailable m |}
  | Unavailable => {| on_measured := on_measured m; on_estimated := on_estimated m; on_unavailable := f (on_unavailable m) |}
  end.

Definition at_price {A} (known : bool) (m : by_price A) : A := if known then on_known m else on_unknown m.

Definition upd_price {A} (known : bool) (f : A → A) (m : by_price A) : by_price A :=
  if known then {| on_known := f (on_known m); on_unknown := on_unknown m |}
  else {| on_known := on_known m; on_unknown := f (on_unknown m) |}.

Definition all_statuses {A} (a : A) : by_status A := {| on_measured := a; on_estimated := a; on_unavailable := a |}.
Definition all_prices {A} (a : A) : by_price A := {| on_known := a; on_unknown := a |}.

(** [Decimal(str(row.get("cost_amount") or 0))]. *)
Definition row_cost_decimal (r : usage_row) : decimal :=
  match row_cost r with Some c => if float_truthy c then decimal_of_float c else dec0 | None => dec0 end.

(** A bucket while rows are added to it. *)
Record bucket := {
  b_currency : pyval;
  b_records : Z;
  b_prompt : Z;
  b_completion : Z;
  b_total : Z;
  b_cost : decimal;
  b_status_cost : by_status decimal;
  b_status_count : by_status Z;
  b_price_cost : by_price decimal;
  b_price_count : by_price Z;
  b_statuses : by_status bool;                            (* _measurement_statuses *)
}.

Definition new_bucket (currency : pyval) : bucket :=
  {| b_currency := currency; b_records := 0; b_prompt := 0; b_completion := 0; b_total := 0; b_cost := dec0;
     b_status_cost := all_statuses dec0; b_status_count := all_statuses 0; b_price_cost := all_prices dec0;
     b_price_count := all_prices 0; b_statuses := all_statuses false |}.

Definition add_row (b : bucket) (r : usage_row) : bucket :=
  let s := _measurement_status_of r in
  let known := row_price_known r in
  let cost := row_cost_decimal r in
  {| b_currency := b_currency b; b_records := b_records b + 1;
     b_prompt := b_prompt b + default 0 (row_prompt_tokens r);
     b_completion := b_completion b + default 0 (row_completion_tokens r);
     b_total := b_total b + default 0 (row_total_tokens r); b_cost := dec_add (b_cost b) cost;
     b_status_cost := upd_status s (λ d, dec_add d cost) (b_status_cost b);
     b_status_count := upd_status s (Z.add 1) (b_status_count b);
     b_price_cost := upd_price known (λ d, dec_add d cost) (b_price_cost b);
     b_price_count := upd_price known (Z.add 1) (b_price_count b);
     b_statuses := upd_status s (λ _, true) (b_statuses b) |}.

(** A row of a report. *)
Record report_item := {
  ri_records : Z;
  ri_prompt : Z;
  ri_completion : Z;
  ri_total : Z;
  ri_cost : option float;
  ri_currency : option pyval;                             (* a bucket's; the total has none *)
  ri_status : status;
  ri_status_cost : by_status float;
  ri_status_count : by_status Z;
  ri_price_cost : by_price float;
  ri_price_count : by_price Z;
}.

Definition weakest (statuses : by_status bool) : status :=
  if on_unavailable statuses then Unavailable else if on_estimated statuses then Estimated else Measured.

(** [float(amount.quantize(...))]. *)
Definition rounded (d : decimal) : res string float :=
  match quantize_micro d with Some q => Ok (float_of_decimal q) | None => Raise "InvalidOperation" end.

Definition rounded_statuses (m : by_status decimal) : res string (by_status float) :=
  a ← rounded (on_measured m); b ← rounded (on_estimated m); c ← rounded (on_unavailable m);
  Ok {| on_measured := a; on_estimated := b; on_unavailable := c |}.

Definition rounded_prices (m : by_price decimal) : res string (by_price float) :=
  a ← rounded (on_known m); b ← rounded (on_unknown m);
  Ok {| on_known := a; on_unknown := b |}.

Definition rounded_cost (s : status) (d : decimal) : res string (option float) :=
  match s with Unavailable => Ok None | _ => Some <$> rounded d end.

Definition close_bucket (currency : option pyval) (cost : bucket → decimal) (b : bucket) : res string report_item :=
  let s := weakest (b_statuses b) in
  c ← rounded_cost s (cost b);
  by_s ← rounded_statuses (b_status_cost b);
  by_p ← rounded_prices (b_price_cost b);
  Ok {| ri_records := b_records b; ri_prompt := b_prompt b; ri_completion := b_completion b;
        ri_total := b_total b; ri_cost := c; ri_currency := currency; ri_status := s; ri_status_cost := by_s;
        ri_status_count := b_status_count b; ri_price_cost := by_p; ri_price_count := b_price_count b |}.

(** The bucket of a row: [row.get(column) or UNATTRIBUTED]. *)
Definition row_key (column : string) (r : usage_row) : string := or_unattributed (row_column column r).

Definition add_to_buckets (column : string) (buckets : list (string * bucket)) (r : usage_row) : list (string * bucket) :=
  let key := row_key column r in
  od_set key (add_row (default (new_bucket (row_currency r)) (od_get key buckets)) r) buckets.

Definition close_buckets (buckets : list (string * bucket)) : res string (list (string * report_item)) :=
  map_res (λ kb, pair kb.1 <$> close_bucket (Some (b_currency kb.2)) b_cost kb.2) buckets.

Definition rollup_rows (dimension : string) (rows : list usage_row) : res string (list (string * report_item)) :=
  match dimension_column dimension with
  | None => Raise "ValueError"
  | Some column => close_buckets (fold_left (add_to_buckets column) rows [])
  end.

(** [sum(cost_amount_by_status.values(), Decimal("0"))]. *)
Definition cost_over_statuses (b : bucket) : decimal :=
  dec_add (dec_add (dec_add dec0 (on_measured (b_status_cost b))) (on_estimated (b_status_cost b)))
          (on_unavailable (b_status_cost b)).

Definition total_rows (rows : list usage_row) : res string report_item :=
  close_bucket None cost_over_statuses (fold_left add_row rows (new_bucket VNone)).

(** The order of [report]: priced items first, by falling cost. *)
Definition item_le (a b : string * report_item) : bool :=
  match ri_cost a.2, ri_cost b.2 with
  | Some x, Some y => negb (fltb x y)
  | Some _, None => true
  | None, Some _ => false
  | None, None => true
  end.

Section reports.
Context {St : Type} `{!LedgerStore St}.

Definition rollup (dimension : string) (start finish : option Z) (s : St) : res string (list (string * report_item)) :=
  rollup_rows dimension (query start finish s).

Definition total (start finish : option Z) (s : St) : res string report_item := total_rows (query start finish s).

Definition report (dimension : string) (start finish : option Z) (s : St)
    : res string (list (string * report_item) * report_item) :=
  items ← rollup dimension start finish s;
  grand_total ← total start finish s;
  Ok (py_sorted item_le items, grand_total).

(** [records] blanks the counts and the cost of a row of unavailable
    measurement, in the row the query returned. *)
Definition blank (r : usage_row) : usage_row :=
  if String.eqb (row_status r) "unavailable" then
    {| row_id := row_id r; row_created_at := row_created_at r; row_run_id := row_run_id r;
       row_channel := row_channel r; row_route_mode := row_route_mode r; row_provider := row_provider r;
       row_model := row_model r; row_prompt_tokens := None; row_completion_tokens := None;
       row_total_tokens := None; row_cost := None; row_currency := row_currency r; row_status := row_status r;
       row_price_known := row_price_known r; row_account := row_account r; row_service := row_service r;
       row_upstream := row_upstream r; row_team := row_team r; row_group := row_group r;
       row_company := row_company r |}
  else r.

Definition records (start finish : option Z) (s : St) : St * list usage_row :=
  (write_rows blank start finish s, map blank (query start finish s)).
End reports.

(** [dimension_catalog()]. *)
Definition dimension_catalog : list (string * string * string * nat) :=
  imap (λ order e, (e, order)) ATTRIBUTION_DIMENSION_CATALOG.

(** ** Sums over rows *)

Fixpoint sum_of {A} (f : A → Z) (l : list A) : Z :=
  match l with [] => 0 | x :: l' => f x + sum_of f l' end.

Lemma sum_of_app {A} (f : A → Z) l l' : sum_of f (l ++ l') = sum_of f l + sum_of f l'.
Proof. induction l as [|x l IH]; cbn; [done|]. rewrite IH. lia. Qed.

Lemma sum_of_filter {A} (f : A → Z) (p : A → bool) l :
  sum_of f (List.filter p l) = sum_of (λ x, if p x then f x else 0) l.
Proof. induction l as [|x l IH]; cbn; [done|]. destruct (p x); cbn; lia. Qed.

Lemma sum_of_ext {A} (f g : A → Z) l : (∀ x, f x = g x) → sum_of f l = sum_of g l.
Proof. intros H. induction l as [|x l IH]; cbn; [done|]. by rewrite H, IH. Qed.

Lemma sum_of_length {A} (p : A → bool) l : sum_of (λ x, if p x then 1 else 0) l = Z.of_nat (length (List.filter p l)).
Proof. induction l as [|x l IH]; cbn; [done|]. rewrite IH. destruct (p x); cbn; lia. Qed.

Lemma sum_of_abs_filter {A} (f : A → Z) p l : Z.abs (sum_of f (List.filter p l)) ≤ sum_of (λ x, Z.abs (f x)) l.
Proof. rewrite sum_of_filter. induction l as [|x l IH]; cbn; [lia|]. destruct (p x); lia. Qed.

Lemma sum_of_abs {A} (f : A → Z) l : Z.abs (sum_of f l) ≤ sum_of (λ x, Z.abs (f x)) l.
Proof. induction l as [|x l IH]; cbn; lia. Qed.

Lemma sum_of_abs_sub {A} (f : A → Z) p l :
  sum_of (λ x, Z.abs (f x)) (List.filter p l) ≤ sum_of (λ x, Z.abs (f x)) l.
Proof. rewrite sum_of_filter. induction l as [|x l IH]; cbn; [lia|]. destruct (p x); lia. Qed.

(** ** The rows of a ledger

    A cost is recorded in whole millionths; sums stay below the precision. *)

Definition row_units (r : usage_row) : Z := micro_units (row_cost_decimal r).
Definition exact_cost (r : usage_row) : Prop := amount (-6) (row_cost_decimal r) (row_units r).
Definition exact_rows (rows : list usage_row) : Prop :=
  Forall exact_cost rows ∧ sum_of (λ r, Z.abs (row_units r)) rows < 10 ^ PRECISION.

Definition same_status (s t : status) : bool :=
  match s, t with Measured, Measured | Estimated, Estimated | Unavailable, Unavailable => true | _, _ => false end.

Definition on_status (s : status) (rows : list usage_row) : list usage_row :=
  List.filter (λ r, same_status s (_measurement_status_of r)) rows.
Definition on_price (known : bool) (rows : list usage_row) : list usage_row :=
  List.filter (λ r, Bool.eqb known (row_price_known r)) rows.

(** What rows cost, in millionths. *)
Definition spend (rows : list usage_row) : Z := sum_of row_units rows.
Definition dollars (n : Z) : float := float_of_decimal (Dec n (-6)).

Definition statuses_of (rows : list usage_row) : by_status bool :=
  {| on_measured := existsb (λ r, same_status Measured (_measurement_status_of r)) rows;
     on_estimated := existsb (λ r, same_status Estimated (_measurement_status_of r)) rows;
     on_unavailable := existsb (λ r, same_status Unavailable (_measurement_status_of r)) rows |}.

Definition per_status {A} (f : status → A) : by_status A :=
  {| on_measured := f Measured; on_estimated := f Estimated; on_unavailable := f Unavailable |}.
Definition per_price {A} (f : bool → A) : by_price A := {| on_known := f true; on_unknown := f false |}.

(** The report item of a group of rows, by direct sums. *)
Definition item_of (currency : option pyval) (rows : list usage_row) : report_item :=
  let s := weakest (statuses_of rows) in
  {| ri_records := Z.of_nat (length rows);
     ri_prompt := sum_of (λ r, default 0 (row_prompt_tokens r)) rows;
     ri_completion := sum_of (λ r, default 0 (row_completion_tokens r)) rows;
     ri_total := sum_of (λ r, default 0 (row_total_tokens r)) rows;
     ri_cost := match s with Unavailable => None | _ => Some (dollars (spend rows)) end;
     ri_currency := currency; ri_status := s;
     ri_status_cost := per_status (λ s, dollars (spend (on_status s rows)));
     ri_status_count := per_status (λ s, Z.of_nat (length (on_status s rows)));
     ri_price_cost := per_price (λ k, dollars (spend (on_price k rows)));
     ri_price_count := per_price (λ k, Z.of_nat (length (on_price k rows))) |}.

(** ** A bucket holds its rows *)

Record bucket_holds (b : bucket) (rows : list usage_row) : Prop := {
  bh_records : b_records b = Z.of_nat (length rows);
  bh_prompt : b_prompt b = sum_of (λ r, default 0 (row_prompt_tokens r)) rows;
  bh_completion : b_completion b = sum_of (λ r, default 0 (row_completion_tokens r)) rows;
  bh_total : b_total b = sum_of (λ r, default 0 (row_total_tokens r)) rows;
  bh_cost : amount (-6) (b_cost b) (spend rows);
  bh_status_cost s : amount (-6) (at_status s (b_status_cost b)) (spend (on_status s rows));
  bh_status_count s : at_status s (b_status_count b) = Z.of_nat (length (on_status s rows));
  bh_price_cost k : amount (-6) (at_price k (b_price_cost b)) (spend (on_price k rows));
  bh_price_count k : at_price k (b_price_count b) = Z.of_nat (length (on_price k rows));
  bh_statuses : b_statuses b = statuses_of rows;
}.

Lemma new_bucket_holds currency : bucket_holds (new_bucket currency) [].
Proof.
  split; try done; first [apply amount_dec0 | intros []; first [done | apply amount_dec0]].
Qed.

Lemma at_upd_status {A} s t (f : A → A) m :
  at_status t (upd_status s f m) = if same_status t s then f (at_status t m) else at_status t m.
Proof. by destruct s, t. Qed.

Lemma at_upd_price {A} k j (f : A → A) m :
  at_price j (upd_price k f m) = if Bool.eqb j k then f (at_price j m) else at_price j m.
Proof. by destruct k, j. Qed.

Lemma spend_bound rows : sum_of (λ r, Z.abs (row_units r)) rows < 10 ^ PRECISION → Z.abs (spend rows) < 10 ^ PRECISION.
Proof. pose proof (sum_of_abs row_units rows). unfold spend. lia. Qed.

Lemma exact_filter p rows : exact_rows rows → exact_rows (List.filter p rows).
Proof.
  intros [He Hb]. split; [|pose proof (sum_of_abs_sub row_units p rows); lia].
  apply Forall_forall. intros r [Hr _]%list_elem_of_In%filter_In. rewrite Forall_forall in He.
  apply He. by apply list_elem_of_In.
Qed.

Lemma exact_snoc rows r : exact_rows (rows ++ [r]) → exact_rows rows ∧ exact_cost r.
Proof.
  intros [He Hb]. apply Forall_app in He as [He Hr]. rewrite sum_of_app in Hb. cbn in Hb.
  split; [split; [done|lia]|]. rewrite Forall_forall in Hr. apply Hr. left.
Qed.

(** The amount of one more row of a group. *)
Lemma amount_snoc p d rows r :
  exact_rows (rows ++ [r]) → amount (-6) d (spend (List.filter p rows)) →
  amount (-6) (if p r then dec_add d (row_cost_decimal r) else d) (spend (List.filter p (rows ++ [r]))).
Proof.
  intros Hex Hd. pose proof (exact_snoc rows r Hex) as [_ Hr].
  pose proof (exact_filter p _ Hex) as [_ Hb]. apply spend_bound in Hb.
  rewrite List.filter_app in Hb |- *. unfold spend in *. rewrite sum_of_app in Hb |- *. cbn in Hb |- *.
  destruct (p r); cbn in *; [|by rewrite Z.add_0_r].
  rewrite Z.add_0_r in Hb |- *. by apply amount_add.
Qed.

Lemma count_snoc {A} (p : A → bool) (l : list A) (x : A) :
  Z.of_nat (length (List.filter p (l ++ [x]))) =
  if p x then 1 + Z.of_nat (length (List.filter p l)) else Z.of_nat (length (List.filter p l)).
Proof. rewrite List.filter_app, length_app. cbn. destruct (p x); cbn; lia. Qed.

Lemma add_row_holds b rows r :
  exact_rows (rows ++ [r]) → bucket_holds b rows → bucket_holds (add_row b r) (rows ++ [r]).
Proof.
  intros Hex [H1 H2 H3 H4 H5 H6 H7 H8 H9 H10]. split; cbn.
  - rewrite H1, length_app. cbn. lia.
  - rewrite H2, sum_of_app. cbn. lia.
  - rewrite H3, sum_of_app. cbn. lia.
  - rewrite H4, sum_of_app. cbn. lia.
  - pose proof (amount_snoc (λ _, true) (b_cost b) rows r Hex) as H. rewrite !filter_all in H by done. by apply H.
  - intros s. rewrite at_upd_status. apply (amount_snoc (λ r, same_status s (_measurement_status_of r))); [done|apply H6].
  - intros s. rewrite at_upd_status, H7. unfold on_status. rewrite count_snoc. by destruct (same_status _ _).
  - intros k. rewrite at_upd_price. apply (amount_snoc (λ r, Bool.eqb k (row_price_known r))); [done|apply H8].
  - intros k. rewrite at_upd_price, H9. unfold on_price. rewrite count_snoc. by destruct (Bool.eqb _ _).
  - rewrite H10. unfold statuses_of. rewrite !existsb_app. cbn.
    destruct (_measurement_status_of r); cbn; by rewrite ?orb_false_r, ?orb_true_r.
Qed.

Lemma rows_held rows : ∀ b held,
  exact_rows (held ++ rows) → bucket_holds b held → bucket_holds (fold_left add_row rows b) (held ++ rows).
Proof.
  induction rows as [|r rows IH]; intros b held Hex Hb; cbn; [by rewrite app_nil_r|].
  replace (held ++ r :: rows) with ((held ++ [r]) ++ rows) in * by (by rewrite <- app_assoc).
  apply IH; [done|]. apply add_row_holds; [|done].
  destruct Hex as [He Hs]. apply Forall_app in He as [He _]. split; [done|].
  rewrite sum_of_app in Hs. pose proof (sum_of_abs (λ r, Z.abs (row_units r)) rows) as Habs.
  assert (0 ≤ sum_of (λ r, Z.abs (row_units r)) rows); [|lia].
  clear. induction rows; cbn; lia.
Qed.

(** ** Closing a bucket *)

Lemma rounded_amount d n : amount (-6) d n → Z.abs n < 10 ^ PRECISION → rounded d = Ok (dollars n).
Proof. intros Hd Hn. unfold rounded. by rewrite (amount_quantize d n Hd Hn). Qed.

Lemma close_bucket_item currency cost b rows :
  exact_rows rows → bucket_holds b rows → amount (-6) (cost b) (spend rows) →
  close_bucket currency cost b = Ok (item_of currency rows).
Proof.
  intros Hex [H1 H2 H3 H4 _ H6 H7 H8 H9 H10] Hcost. unfold close_bucket.
  assert (∀ s, rounded (at_status s (b_status_cost b)) = Ok (dollars (spend (on_status s rows)))) as Hs.
  { intros s. apply rounded_amount; [apply H6|]. apply spend_bound, exact_filter, Hex. }
  assert (∀ k, rounded (at_price k (b_price_cost b)) = Ok (dollars (spend (on_price k rows)))) as Hk.
  { intros k. apply rounded_amount; [apply H8|]. apply spend_bound, exact_filter, Hex. }
  assert (rounded (cost b) = Ok (dollars (spend rows))) as Hc by (apply rounded_amount, spend_bound, Hex; done).
  assert (rounded_statuses (b_status_cost b) = Ok (per_status (λ s, dollars (spend (on_status s rows))))) as ->.
  { unfold rounded_statuses. pose proof (Hs Measured) as E1. pose proof (Hs Estimated) as E2.
    pose proof (Hs Unavailable) as E3. cbn [at_status] in *. by rewrite E1, E2, E3. }
  assert (rounded_prices (b_price_cost b) = Ok (per_price (λ k, dollars (spend (on_price k rows))))) as ->.
  { unfold rounded_prices. pose proof (Hk true) as E1. pose proof (Hk false) as E2. cbn [at_price] in *. by rewrite E1, E2. }
  assert (b_status_count b = per_status (λ s, Z.of_nat (length (on_status s rows)))) as Hsc.
  { pose proof (H7 Measured) as E1. pose proof (H7 Estimated) as E2. pose proof (H7 Unavailable) as E3.
    cbn [at_status] in *. unfold per_status. rewrite <- E1, <- E2, <- E3. by destruct (b_status_count b). }
  assert (b_price_count b = per_price (λ k, Z.of_nat (length (on_price k rows)))) as Hpc.
  { pose proof (H9 true) as E1. pose proof (H9 false) as E2. cbn [at_price] in *. unfold per_price.
    rewrite <- E1, <- E2. by destruct (b_price_count b). }
  rewrite H10, H1, H2, H3, H4, Hsc, Hpc. unfold rounded_cost, item_of.
  destruct (weakest (statuses_of rows)); rewrite ?Hc; done.
Qed.

(** ** The total *)

Lemma status_partition f rows :
  sum_of f rows = sum_of f (on_status Measured rows) + sum_of f (on_status Estimated rows) + sum_of f (on_status Unavailable rows).
Proof.
  unfold on_status. rewrite !sum_of_filter. induction rows as [|r rows IH]; cbn [sum_of]; [done|]. rewrite IH.
  destruct (_measurement_status_of r); cbn [same_status]; lia.
Qed.

Lemma cost_over_statuses_amount b rows :
  exact_rows rows → bucket_holds b rows → amount (-6) (cost_over_statuses b) (spend rows).
Proof.
  intros [_ Hb] Hh. pose proof (status_partition (λ r, Z.abs (row_units r)) rows) as Hp.
  pose proof (sum_of_abs row_units (on_status Measured rows)). pose proof (sum_of_abs row_units (on_status Estimated rows)).
  pose proof (sum_of_abs row_units (on_status Unavailable rows)).
  unfold spend. rewrite (status_partition row_units), <- (Z.add_0_l (sum_of row_units (on_status Measured rows))).
  unfold cost_over_statuses.
  repeat (apply amount_add; [|by first [apply (bh_status_cost b rows Hh Measured) | apply (bh_status_cost b rows Hh Estimated)
    | apply (bh_status_cost b rows Hh Unavailable)]|lia]).
  apply amount_dec0.
Qed.

Lemma total_rows_item rows : exact_rows rows → total_rows rows = Ok (item_of None rows).
Proof.
  intros Hex. pose proof (rows_held rows (new_bucket VNone) [] Hex (new_bucket_holds _)) as Hh.
  apply close_bucket_item; [done..|]. by apply cost_over_statuses_amount.
Qed.

(** ** Grouping *)

Lemma fromkeys_snoc `{EqDecision A} (l : list A) x :
  fromkeys (l ++ [x]) = if decide (x ∈ l) then fromkeys l else fromkeys l ++ [x].
Proof.
  unfold fromkeys. assert (∀ seen, fromkeys_from seen (l ++ [x]) =
    if decide (x ∈ l ∨ x ∈ seen) then fromkeys_from seen l else fromkeys_from seen l ++ [x]) as H.
  { induction l as [|y l IH]; intros seen; cbn.
    - destruct (decide (x ∈ seen)); [by rewrite decide_True by (by right)|].
      by rewrite decide_False by (by intros [?%elem_of_nil|]).
    - destruct (decide (y ∈ seen)) as [Hy|Hy]; rewrite IH.
      + apply decide_ext. rewrite elem_of_cons. naive_solver.
      + destruct (decide (x ∈ l ∨ x ∈ y :: seen)) as [Hx|Hx]; rewrite ?elem_of_cons in Hx.
        * rewrite decide_True; [done|]. rewrite elem_of_cons. naive_solver.
        * rewrite decide_False; [done|]. rewrite elem_of_cons. naive_solver. }
  rewrite H. apply decide_ext. rewrite elem_of_nil. naive_solver.
Qed.

Lemma od_get_map `{EqDecision K} {V} (f : K → V) ks k :
  od_get k (map (λ k, (k, f k)) ks) = if decide (k ∈ ks) then Some (f k) else None.
Proof.
  induction ks as [|k' ks IH]; cbn [od_get od_set map app]; [by rewrite decide_False by apply not_elem_of_nil|].
  rewrite IH. destruct (decide (k = k')) as [->|Hne]; [by rewrite decide_True by (by left)|].
  destruct (decide (k ∈ ks)); [by rewrite decide_True by (by right)|].
  by rewrite decide_False by (by apply not_elem_of_cons).
Qed.

Lemma od_set_map `{EqDecision K} {V} (f g : K → V) ks k v :
  NoDup ks → (∀ k', k' ∈ ks → k' ≠ k → g k' = f k') → g k = v →
  od_set k v (map (λ k, (k, f k)) ks) = map (λ k, (k, g k)) (if decide (k ∈ ks) then ks else ks ++ [k]).
Proof.
  intros Hks Hg <-. induction ks as [|k' ks IH]; cbn [od_get od_set map app]; [by rewrite decide_False by apply not_elem_of_nil|].
  apply NoDup_cons in Hks as [Hk' Hks]. destruct (decide (k = k')) as [->|He].
  - rewrite decide_True by (by left). cbn [map]. f_equal. apply map_ext_in. intros k Hk%list_elem_of_In.
    rewrite Hg; [done|by right|]. by intros ->.
  - rewrite IH; [|done|intros; apply Hg; [by right|done]]. rewrite <- (Hg k') by (done || by left).
    destruct (decide (k ∈ ks)); [by rewrite decide_True by (by right)|].
    by rewrite decide_False by (by apply not_elem_of_cons).
Qed.

Lemma map_res_all_Ok {E A B} (f : A → res E B) g l : (∀ x, x ∈ l → f x = Ok (g x)) → map_res f l = Ok (map g l).
Proof.
  induction l as [|x l IH]; cbn; intros H; [done|].
  rewrite (H x) by set_solver. rewrite IH; [done|]. intros y Hy. apply H. set_solver.
Qed.

Definition rows_of (column key : string) (rows : list usage_row) : list usage_row :=
  List.filter (λ r, String.eqb key (row_key column r)) rows.

Definition group_currency (rows : list usage_row) : pyval :=
  match rows with [] => VNone | r :: _ => row_currency r end.

Definition group_item (column : string) (rows : list usage_row) (key : string) : report_item :=
  item_of (Some (group_currency (rows_of column key rows))) (rows_of column key rows).

Definition group_keys (column : string) (rows : list usage_row) : list string := fromkeys (map (row_key column) rows).

Definition bucket_of (rows : list usage_row) : bucket := fold_left add_row rows (new_bucket (group_currency rows)).

Lemma bucket_of_snoc rows r :
  bucket_of (rows ++ [r]) = add_row (if decide (rows = []) then new_bucket (row_currency r) else bucket_of rows) r.
Proof. unfold bucket_of. rewrite fold_left_app. by destruct rows. Qed.

Lemma bucket_of_currency rows : b_currency (bucket_of rows) = group_currency rows.
Proof.
  unfold bucket_of. assert (∀ b, b_currency (fold_left add_row rows b) = b_currency b) as ->; [|done].
  induction rows as [|r rows' IH]; intros b; cbn; [done|]. by rewrite IH.
Qed.

Lemma rows_of_snoc column key rows r :
  rows_of column key (rows ++ [r]) = rows_of column key rows ++ (if String.eqb key (row_key column r) then [r] else []).
Proof. unfold rows_of. by rewrite List.filter_app. Qed.

Lemma rows_of_nil column key rows : rows_of column key rows = [] ↔ key ∉ map (row_key column) rows.
Proof.
  induction rows as [|r rows IH]; cbn; [set_solver|].
  destruct (String.eqb_spec key (row_key column r)); rewrite not_elem_of_cons; [naive_solver|]. rewrite IH. naive_solver.
Qed.

Lemma buckets_group column rows :
  fold_left (add_to_buckets column) rows [] = map (λ key, (key, bucket_of (rows_of column key rows))) (group_keys column rows).
Proof.
  induction rows as [|r rows IH] using rev_ind; [done|].
  rewrite fold_left_app. cbn [fold_left]. rewrite IH. unfold add_to_buckets, group_keys.
  rewrite List.map_app. cbn [map]. rewrite fromkeys_snoc, od_get_map.
  rewrite (od_set_map _ (λ key, bucket_of (rows_of column key (rows ++ [r])))).
  - f_equal. pose proof (fromkeys_elem (map (row_key column) rows) (row_key column r)). repeat case_decide; tauto.
  - apply fromkeys_NoDup.
  - intros k' _ Hk'. rewrite rows_of_snoc. apply String.eqb_neq in Hk'. by rewrite Hk', app_nil_r.
  - rewrite rows_of_snoc, String.eqb_refl, bucket_of_snoc. f_equal.
    pose proof (rows_of_nil column (row_key column r) rows). pose proof (fromkeys_elem (map (row_key column) rows) (row_key column r)).
    repeat case_decide; cbn; tauto.
Qed.

Lemma rollup_rows_item dimension column rows :
  dimension_column dimension = Some column → exact_rows rows →
  rollup_rows dimension rows = Ok (map (λ key, (key, group_item column rows key)) (group_keys column rows)).
Proof.
  intros Hd Hex. unfold rollup_rows, close_buckets. rewrite Hd, buckets_group.
  rewrite (map_res_all_Ok _ (λ kb, (kb.1, group_item column rows kb.1))), map_map; [done|].
  intros kb [key [<- _]]%list_elem_of_In%in_map_iff. cbn.
  pose proof (exact_filter (λ r, String.eqb key (row_key column r)) rows Hex) as Hk.
  pose proof (rows_held (rows_of column key rows) (new_bucket (group_currency (rows_of column key rows))) [] Hk (new_bucket_holds _)) as Hh.
  erewrite close_bucket_item; [|exact Hk|exact Hh|exact (bh_cost _ _ Hh)]. unfold group_item.
  by rewrite bucket_of_currency.
Qed.

(** ** The groups partition the rows *)

Lemma sum_of_plus {A} (f g : A → Z) l : sum_of (λ x, f x + g x) l = sum_of f l + sum_of g l.
Proof. induction l as [|x l IH]; cbn; lia. Qed.

Lemma sum_of_single (k : string) z ks : NoDup ks → k ∈ ks → sum_of (λ k', if String.eqb k' k then z else 0) ks = z.
Proof.
  induction ks as [|k' ks IH]; [set_solver|]. intros [Hk' Hks]%NoDup_cons. cbn. rewrite elem_of_cons.
  destruct (String.eqb_spec k' k) as [->|Hne].
  - intros _. assert (sum_of (λ k', if String.eqb k' k then z else 0) ks = 0); [|lia]. clear -Hk'.
    induction ks as [|x ks IH]; cbn; [done|]. apply not_elem_of_cons in Hk' as [Hx Hk'].
    destruct (String.eqb_spec x k); [by subst|]. by apply IH.
  - intros [->|Hk]; [done|]. rewrite IH by done. done.
Qed.

Lemma groups_sum f column rows ks :
  NoDup ks → (∀ r, r ∈ rows → row_key column r ∈ ks) →
  sum_of (λ key, sum_of f (rows_of column key rows)) ks = sum_of f rows.
Proof.
  intros Hks. induction rows as [|r rows IH]; intros Hin; cbn.
  { clear. induction ks; cbn; lia. }
  rewrite <- IH by (intros; apply Hin; by right).
  rewrite <- (sum_of_single (row_key column r) (f r) ks Hks) at 1 by (apply Hin; by left).
  rewrite <- sum_of_plus. apply sum_of_ext. intros key. by destruct (String.eqb _ _); cbn.
Qed.

Lemma group_keys_cover column rows r : r ∈ rows → row_key column r ∈ group_keys column rows.
Proof. intros Hr. apply fromkeys_elem, list_elem_of_fmap. by exists r. Qed.

Lemma sum_of_map {A B} (f : B → Z) (g : A → B) l : sum_of f (map g l) = sum_of (λ x, f (g x)) l.
Proof. induction l as [|x l IH]; cbn; lia. Qed.

Lemma length_sum {A} (l : list A) : Z.of_nat (length l) = sum_of (λ _, 1) l.
Proof. induction l as [|x l IH]; cbn; lia. Qed.

(** A quantity of an item that is a sum over the rows of its group. *)
Lemma group_items_sum f q column rows :
  (∀ c g, q (item_of c g) = sum_of f g) →
  sum_of (λ i, q i.2) (map (λ key, (key, group_item column rows key)) (group_keys column rows)) = q (item_of None rows).
Proof.
  intros Hq. rewrite sum_of_map, Hq. cbn. erewrite sum_of_ext by (intros key; apply Hq).
  apply groups_sum; [apply fromkeys_NoDup|apply group_keys_cover].
Qed.

Section report_properties.
Context {St : Type} `{!LedgerStore St}.

End report_properties.

(** ** Recording *)

Definition with_attribution (a : attribution_argument) (u : usage_request) : usage_request :=
  {| ur_provider := ur_provider u; ur_model := ur_model u; ur_prompt_tokens := ur_prompt_tokens u;
     ur_completion_tokens := ur_completion_tokens u; ur_request_channel := ur_request_channel u;
     ur_route_mode := ur_route_mode u; ur_workflow_run_id := ur_workflow_run_id u; ur_attribution := a;
     ur_measurement_status := ur_measurement_status u; ur_created_at := ur_created_at u;
     ur_usage_record_id := ur_usage_record_id u |}.

(** The fields of a record that say what was executed and what it cost. *)
Definition evidence (r : UsageRecord) :=
  (provider_name r, model_name r, upstream_api (attribution r), model_dimension (attribution r),
   (prompt_tokens r, completion_tokens r, total_tokens r, cost_amount r, currency_code r, price_known r,
    measurement_status r)).

Lemma dget_stripped (p : pyval → bool) k data :
  (∀ k', key_is k k' = true → p k' = true) → dget k (List.filter (λ kv, negb (p kv.1)) data) = VNone.
Proof.
  intros Hp. unfold dget. enough (dict_get k (List.filter (λ kv, negb (p kv.1)) data) = None) as -> by done.
  induction data as [|[k' v] data IH]; cbn; [done|]. specialize (Hp k').
  destruct (p k'); cbn; [done|]. destruct (key_is k k'); [by discriminate Hp|done].
Qed.

Lemma described_has_no_identity other_str a :
  upstream_api (described other_str a) = UNATTRIBUTED ∧ model_dimension (described other_str a) = UNATTRIBUTED.
Proof.
  destruct a as [|data|g]; [done| |done]. cbn. unfold known_dimension, execution_key.
  by rewrite !(dget_stripped (λ k, key_is "model_name" k || key_is "provider" k || key_is "upstream_api" k))
    by (intros k' ->; by rewrite ?orb_true_r).
Qed.

Section recording_properties.
Context (other_str : pyval → string) (default_currency : string).
Context {C : Type} `{!ConfigStore C}.

Lemma build_record_evidence (prices : C) now i a a' u r :
  build_record other_str default_currency prices now i (with_attribution a u) = Ok r →
  ∃ r', build_record other_str default_currency prices now i (with_attribution a' u) = Ok r' ∧ evidence r' = evidence r.
Proof.
  unfold build_record. cbn [ur_provider ur_model ur_prompt_tokens ur_completion_tokens ur_measurement_status with_attribution].
  destruct (compute_cost _ _ _ _ _ prices) as [[[cost currency] known]|]; cbn [mbind res_bind]; [|done].
  destruct (negb _); [done|]. intros [= <-]. eexists. split; [done|]. unfold evidence. cbn [provider_name model_name attribution with_execution upstream_api model_dimension ur_attribution with_attribution].
  pose proof (described_has_no_identity other_str a) as [-> ->]. by pose proof (described_has_no_identity other_str a') as [-> ->].
Qed.

Context {St : Type} `{!LedgerStore St}.
Context (usage_sink : option (nat → option string)) (lookup_raises : St → option string).
Implicit Types l : CostLedger C St.

Abbreviation emit := (_emit_usage_record usage_sink).
Abbreviation flush_exports := (_flush_deferred_usage_exports usage_sink lookup_raises).

Lemma emit_frame r l :
  cl_prices (emit r l) = cl_prices l ∧ cl_store (emit r l) = cl_store l ∧ cl_deferred (emit r l) = cl_deferred l ∧
  records_dropped (cl_health (emit r l)) = records_dropped (cl_health l) ∧
  records_stored (cl_health (emit r l)) = records_stored (cl_health l) ∧
  cl_exported (emit r l) = cl_exported l ++ match usage_sink with Some _ => [r] | None => [] end.
Proof.
  unfold _emit_usage_record. destruct usage_sink as [raises|]; [destruct (raises _)|]; cbn;
    rewrite ?Z.add_0_r, ?app_nil_r; split_and!; reflexivity.
Qed.

Lemma releases_frame ids pending : ∀ l,
  let l' := fold_left (release usage_sink ids) pending l in
  let lost := Z.of_nat (length (List.filter (λ r, negb (bool_decide (usage_record_id r ∈ ids))) pending)) in
  cl_prices l' = cl_prices l ∧ cl_store l' = cl_store l ∧ cl_deferred l' = cl_deferred l ∧
  records_dropped (cl_health l') = records_dropped (cl_health l) + lost ∧
  records_stored (cl_health l') = records_stored (cl_health l) - lost ∧
  cl_exported l' = cl_exported l ++
    match usage_sink with Some _ => List.filter (λ r, bool_decide (usage_record_id r ∈ ids)) pending | None => [] end.
Proof.
  induction pending as [|r pending IH]; intros l; cbn [fold_left].
  { cbn. repeat split; try lia. destruct usage_sink; by rewrite app_nil_r. }
  destruct (IH (release usage_sink ids l r)) as (-> & -> & -> & -> & -> & ->). clear IH. unfold release.
  cbn [List.filter]. destruct (bool_decide _); cbn [negb].
  - pose proof (emit_frame r l) as (-> & -> & -> & -> & -> & ->). rewrite <- app_assoc. repeat split.
    by destruct usage_sink.
  - cbn. repeat split; lia.
Qed.

(** Nothing is released inside of a transaction; a failed lookup keeps what was
    deferred; else every deferred record is exported if the store has it, and
    taken back from the stored ones if not. *)
Lemma deferred_exports_are_settled l :
  let ids := existing_usage_record_ids (map usage_record_id (cl_deferred l)) (cl_store l) in
  let lost := Z.of_nat (length (List.filter (λ r, negb (bool_decide (usage_record_id r ∈ ids))) (cl_deferred l))) in
  let l' := flush_exports l in
  cl_prices l' = cl_prices l ∧ cl_store l' = cl_store l ∧
  if has_open_transaction (cl_store l) then l' = l
  else match cl_deferred l, lookup_raises (cl_store l) with
       | [], _ => l' = l
       | _, Some e => l' = cl_with_health (_mark_inline_store_failure e) l
       | pending, None =>
           cl_deferred l' = [] ∧
           cl_exported l' = cl_exported l ++
             match usage_sink with Some _ => List.filter (λ r, bool_decide (usage_record_id r ∈ ids)) pending | None => [] end ∧
           records_dropped (cl_health l') = records_dropped (cl_health l) + lost ∧
           records_stored (cl_health l') = records_stored (cl_health l) - lost
       end.
Proof.
  unfold _flush_deferred_usage_exports. destruct (has_open_transaction _); [done|].
  destruct (cl_deferred l) as [|r0 pending0]; [done|]. generalize (r0 :: pending0). intros pending.
  destruct (lookup_raises _); [done|].
  pose proof (releases_frame (existing_usage_record_ids (map usage_record_id pending) (cl_store l)) pending (cl_with_deferred [] l)) as H.
  cbn in H. destruct H as (-> & -> & -> & -> & -> & ->). done.
Qed.

Lemma record_usage_result u now i l :
  (record_usage other_str default_currency usage_sink lookup_raises u now i l).2 =
  build_record other_str default_currency (cl_prices l) now i u.
Proof.
  unfold record_usage. destruct (deferred_exports_are_settled l) as (-> & _).
  destruct (build_record _ _ _ _ _ u); [|done]. by destruct (append_inline _ _) as [l1 []].
Qed.

(** Recording usage fails or succeeds, and says who was called and what it
    cost, by the execution alone: whatever attribution a caller sends, the record
    names the provider and the model that ran - in its own fields and in the
    dimensions the bills are grouped by - with the same tokens, cost and price
    status, whatever the store, the sinks and the deferred exports do. *)
Theorem execution_identity_is_evidence a u now i l l' r :
  record_usage other_str default_currency usage_sink lookup_raises (with_attribution a u) now i l = (l', Ok r) →
  provider_name r = ur_provider u ∧ model_name r = ur_model u ∧
  upstream_api (attribution r) = (if str_truthy (ur_provider u) then ur_provider u else UNATTRIBUTED) ∧
  model_dimension (attribution r) = (if str_truthy (ur_model u) then ur_model u else UNATTRIBUTED) ∧
  ∀ a', ∃ l2 r', record_usage other_str default_currency usage_sink lookup_raises (with_attribution a' u) now i l = (l2, Ok r') ∧
                 evidence r' = evidence r.
Proof.
  intros Hr. pose proof (record_usage_result (with_attribution a u) now i l) as Hb. rewrite Hr in Hb. symmetry in Hb.
  pose proof (described_has_no_identity other_str a) as [Hu Hm].
  split_and!; [..|intros a'; destruct (build_record_evidence _ _ _ _ a' _ _ Hb) as (r' & Hb' & He);
    pose proof (record_usage_result (with_attribution a' u) now i l) as Hres; rewrite Hb' in Hres;
    destruct (record_usage _ _ _ _ (with_attribution a' u) _ _ _) as [l2 res]; cbn in Hres; subst res; by eauto].
  all: clear Hr; revert Hb; unfold build_record; destruct (compute_cost _ _ _ _ _ _) as [[[cost currency] known]|]; cbn [mbind res_bind]; [|done];
    destruct (negb _); [done|]; intros [= <-]; cbn; try done; by rewrite ?Hu, ?Hm.
Qed.
End recording_properties.

(** ** A ledger in memory *)

Definition demo_ledger : CostLedger InMemoryConfigStore InMemoryLedgerStore :=
  {| cl_prices := demo_prices; cl_store := empty_memory_store;
     cl_health := no_health;
     cl_deferred := []; cl_telemetry := []; cl_exported := [] |}.

Definition demo_request (model id team status : string) (prompt completion : Z) : usage_request :=
  {| ur_provider := "openai"; ur_model := model; ur_prompt_tokens := prompt; ur_completion_tokens := completion;
     ur_request_channel := "sync"; ur_route_mode := None; ur_workflow_run_id := None;
     ur_attribution := AttributionMapping [(VStr "team", VStr team); (VStr "model_name", VStr "free")];
     ur_measurement_status := status; ur_created_at := None; ur_usage_record_id := Some id |}.

Definition demo_record (u : usage_request) (l : CostLedger InMemoryConfigStore InMemoryLedgerStore) :=
  record_usage (λ _, EmptyString) "USD" (Some (λ _, None)) (λ _, None) u 1700000000 "usage_fresh" l.

Definition demo_recorded : CostLedger InMemoryConfigStore InMemoryLedgerStore :=
  fold_left (λ l u, (demo_record u l).1)
    [demo_request "gpt-4o" "a" "red" "measured" 1234 567; demo_request "gpt-4o" "b" "blue" "estimated" 10 1;
     demo_request "local" "c" "red" "unavailable" 7 7; demo_request "gpt-4o" "a" "red" "measured" 1 1]
    demo_ledger.


Lemma execution_identity_is_evidence_witness :
  ∃ l r, demo_record (demo_request "gpt-4o" "a" "red" "measured" 1234 567) demo_ledger = (l, Ok r) ∧
         model_dimension (attribution r) = "gpt-4o".
Proof.
  destruct (demo_record (demo_request "gpt-4o" "a" "red" "measured" 1234 567) demo_ledger) as [l [r|e]] eqn:E;
    [|exfalso; vm_compute in E; discriminate E].
  exists l, r. split; [reflexivity|].
  apply (execution_identity_is_evidence (λ _, EmptyString) "USD" (Some (λ _, None)) (λ _, None)
           (ur_attribution (demo_request "gpt-4o" "a" "red" "measured" 1234 567))
           (demo_request "gpt-4o" "a" "red" "measured" 1234 567) 1700000000 "usage_fresh" demo_ledger l r E).
Defined.

(** One row of unavailable measurement, and a group has no cost: its amount is
    not the sum of its other rows. *)
Lemma unavailable_row_hides_the_cost currency rows r :
  r ∈ rows → _measurement_status_of r = Unavailable → ri_cost (item_of currency rows) = None.
Proof.
  intros Hr Hs. assert (on_unavailable (statuses_of rows) = true) as Hu; [|cbn [ri_cost item_of]; unfold weakest; by rewrite Hu].
  apply existsb_exists. exists r. split; [by apply list_elem_of_In|]. by rewrite Hs.
Qed.

(** The rows [records] blanks are the rows of the store: reading the records
    of an in-memory ledger removes the tokens of unavailable measurement from
    every later report. *)
Lemma reading_records_erases_usage :
  ∃ before after,
    total None None (cl_store demo_recorded) = Ok before ∧
    total None None (records None None (cl_store demo_recorded)).1 = Ok after ∧
    ri_prompt before = 1251 ∧ ri_prompt after = 1244.
Proof. do 2 eexists. split; [vm_compute; reflexivity|]. split; [vm_compute; reflexivity|]. split; vm_compute; reflexivity. Qed.
