(* ===== verification/VideoJobs.v ===== *)
(** video_jobs.py: who owns an asynchronous video job, what its provider
    reported, and the documents its owner may see, over three registries that
    keep the promises of [MappingLaws]. *)

From Stdlib Require Import Ascii String.
From S2P Require Import Prelude StateLogic PyString PyCollections PyFloat PyValue PyJson JobRegistry Agents.
Open Scope Z_scope.

(** ** Data *)

Inductive video_error :=
| VideoJobContractError (m : string)
| VideoKeyError (k : string).

Record VideoJobRecord := {
  vr_gateway_job_id : string;
  vr_provider_job_id : string;
  vr_agent_id : string;
  vr_submitted_at : Z;
  vr_owner_id : string;
  vr_agent_affinity_key : string;
}.

Record VideoJobUsage := { vu_prompt_tokens : Z; vu_completion_tokens : Z; vu_observed_at : Z }.

(** The public token counts. *)
Record usage_document := { ud_prompt_tokens : Z; ud_completion_tokens : Z }.

Record VideoJobOwner := {
  vo_gateway_job_id : string;
  vo_provider_job_id : string;
  vo_agent_id : string;
  vo_submitted_at : Z;
  vo_owner_id : string;
  vo_usage_measurement_status : string;
  vo_provider_usage : option usage_document;
  vo_agent_affinity_key : string;
}.

(** ** As stored documents *)

Definition dataclass_document (fields : list (pyval * pyval)) : pyval :=
  VDict [(VStr "__dataclass__", VBool true); (VStr "value", VDict fields)].

Definition as_int (v : pyval) : option Z := match v with VInt z => Some z | _ => None end.

Definition record_fields (r : VideoJobRecord) : list (pyval * pyval) :=
  [(VStr "gateway_job_id", VStr (vr_gateway_job_id r)); (VStr "provider_job_id", VStr (vr_provider_job_id r));
   (VStr "agent_id", VStr (vr_agent_id r)); (VStr "submitted_at", VInt (vr_submitted_at r));
   (VStr "owner_id", VStr (vr_owner_id r)); (VStr "agent_affinity_key", VStr (vr_agent_affinity_key r))].

Definition record_of (d : list (pyval * pyval)) : option VideoJobRecord :=
  g ← dict_get "gateway_job_id" d ≫= as_str; p ← dict_get "provider_job_id" d ≫= as_str;
  a ← dict_get "agent_id" d ≫= as_str; t ← dict_get "submitted_at" d ≫= as_int;
  o ← dict_get "owner_id" d ≫= as_str; k ← dict_get "agent_affinity_key" d ≫= as_str;
  Some {| vr_gateway_job_id := g; vr_provider_job_id := p; vr_agent_id := a; vr_submitted_at := t;
          vr_owner_id := o; vr_agent_affinity_key := k |}.

Definition usage_fields (u : VideoJobUsage) : list (pyval * pyval) :=
  [(VStr "prompt_tokens", VInt (vu_prompt_tokens u)); (VStr "completion_tokens", VInt (vu_completion_tokens u));
   (VStr "observed_at", VInt (vu_observed_at u))].

Definition usage_of (d : list (pyval * pyval)) : option VideoJobUsage :=
  p ← dict_get "prompt_tokens" d ≫= as_int; c ← dict_get "completion_tokens" d ≫= as_int;
  t ← dict_get "observed_at" d ≫= as_int;
  Some {| vu_prompt_tokens := p; vu_completion_tokens := c; vu_observed_at := t |}.

Definition provider_usage_value (u : option usage_document) : pyval :=
  match u with
  | None => VNone
  | Some u => VDict [(VStr "prompt_tokens", VInt (ud_prompt_tokens u));
                     (VStr "completion_tokens", VInt (ud_completion_tokens u))]
  end.

Definition provider_usage_of (v : pyval) : option (option usage_document) :=
  match v with
  | VNone => Some None
  | VDict d =>
      p ← dict_get "prompt_tokens" d ≫= as_int; c ← dict_get "completion_tokens" d ≫= as_int;
      Some (Some {| ud_prompt_tokens := p; ud_completion_tokens := c |})
  | _ => None
  end.

Definition owner_fields (o : VideoJobOwner) : list (pyval * pyval) :=
  [(VStr "gateway_job_id", VStr (vo_gateway_job_id o)); (VStr "provider_job_id", VStr (vo_provider_job_id o));
   (VStr "agent_id", VStr (vo_agent_id o)); (VStr "submitted_at", VInt (vo_submitted_at o));
   (VStr "owner_id", VStr (vo_owner_id o));
   (VStr "usage_measurement_status", VStr (vo_usage_measurement_status o));
   (VStr "provider_usage", provider_usage_value (vo_provider_usage o));
   (VStr "agent_affinity_key", VStr (vo_agent_affinity_key o))].

(** [VideoJobOwner( **raw )]: the last four fields have defaults. *)
Definition field_or {A} (k : string) (d : list (pyval * pyval)) (read : pyval → option A) (a : A) : option A :=
  match dict_get k d with Some v => read v | None => Some a end.

Definition owner_of (d : list (pyval * pyval)) : option VideoJobOwner :=
  g ← dict_get "gateway_job_id" d ≫= as_str; p ← dict_get "provider_job_id" d ≫= as_str;
  a ← dict_get "agent_id" d ≫= as_str; t ← dict_get "submitted_at" d ≫= as_int;
  o ← field_or "owner_id" d as_str EmptyString; s ← field_or "usage_measurement_status" d as_str "unavailable";
  u ← field_or "provider_usage" d provider_usage_of None; k ← field_or "agent_affinity_key" d as_str EmptyString;
  Some {| vo_gateway_job_id := g; vo_provider_job_id := p; vo_agent_id := a; vo_submitted_at := t;
          vo_owner_id := o; vo_usage_measurement_status := s; vo_provider_usage := u; vo_agent_affinity_key := k |}.

Definition decode_dataclass {A} (read : list (pyval * pyval) → option A) (v : pyval) : option A :=
  match v with
  | VDict kvs =>
      if truthy (dget "__dataclass__" kvs)
      then match dict_get "value" kvs with Some (VDict d) => read d | _ => None end
      else None
  | _ => None
  end.

Section encodable.
Context `{!JsonCodec}.

(** Every value of these classes is a plain document. *)
#[global] Instance record_encodable : Encodable VideoJobRecord.
Proof.
  refine {| payload r := dataclass_document (record_fields r); decode_document := decode_dataclass record_of;
            encodable _ := True |}; [intros; by apply document_plain|by intros []].
Defined.

#[global] Instance usage_encodable : Encodable VideoJobUsage.
Proof.
  refine {| payload u := dataclass_document (usage_fields u); decode_document := decode_dataclass usage_of;
            encodable _ := True |}; [intros; by apply document_plain|by intros []].
Defined.

#[global] Instance owner_encodable : Encodable VideoJobOwner.
Proof.
  refine {| payload o := dataclass_document (owner_fields o); decode_document := decode_dataclass owner_of;
            encodable _ := True |}; intros [? ? ? ? ? ? [[]|] ?]; [by intros; apply document_plain..|done|done].
Defined.
End encodable.

(** ** [str.replace] *)

(** From left to right, without overlap: after a match, [skip] characters belong
    to it. [old] is not empty. *)
Fixpoint replace_from (old new : list ascii) (skip : nat) (s : list ascii) : list ascii :=
  match s with
  | [] => []
  | c :: s' =>
      match skip with
      | S skip' => replace_from old new skip' s'
      | O => if bool_decide (old `prefix_of` s) then new ++ replace_from old new (pred (length old)) s'
             else c :: replace_from old new O s'
      end
  end.

(** An empty [old] is found before every character and at the end. *)
Fixpoint interleave (new s : list ascii) : list ascii :=
  match s with [] => new | c :: s' => new ++ c :: interleave new s' end.

Definition str_replace (old new s : string) : string :=
  list_str (match str_list old with
            | [] => interleave (str_list new) (str_list s)
            | _ => replace_from (str_list old) (str_list new) O (str_list s)
            end).

(** ** Public documents *)

Section identity.
Context (provider_job_id gateway_job_id : string).

(** A key or a value that is a string. *)
Definition replace_key (k : pyval) : pyval :=
  match k with VStr s => VStr (str_replace provider_job_id gateway_job_id s) | _ => k end.

(** One item of the new dictionary; the keys of a JSON document are strings. *)
Definition put_item (d : list (pyval * pyval)) (k v : pyval) : list (pyval * pyval) :=
  match k with VStr s => dict_set s v d | _ => d ++ [(k, v)] end.

Fixpoint replace_provider_identity (value : pyval) : pyval :=
  match value with
  | VStr s => VStr (str_replace provider_job_id gateway_job_id s)
  | VList l => VList (map replace_provider_identity l)
  | VDict d =>
      VDict ((fix go acc d := match d with
              | [] => acc
              | (k, v) :: d' => go (put_item acc (replace_key k) (replace_provider_identity v)) d'
              end) [] d)
  | _ => value
  end.
End identity.

Definition different_id : video_error := VideoJobContractError "video provider returned a different job id".

Definition public_response (provider_result : list (pyval * pyval)) (owner : VideoJobOwner)
    : res video_error (list (pyval * pyval)) :=
  let response :=
    match replace_provider_identity (vo_provider_job_id owner) (vo_gateway_job_id owner) (VDict provider_result) with
    | VDict d => Ok (dict_set "id" (VStr (vo_gateway_job_id owner)) d)
    | _ => Ok []                                          (* the document is a dictionary *)
    end in
  match dget "id" provider_result with
  | VStr reported_id =>
      if String.eqb reported_id (vo_provider_job_id owner) then response else Raise different_id
  | _ => response
  end.

(** [type(v) is int and v >= 0]. *)
Definition token_count (v : pyval) : option Z :=
  match v with VInt z => if z <? 0 then None else Some z | _ => None end.

Definition _provider_usage (document : list (pyval * pyval)) : option usage_document :=
  match dget "usage" document with
  | VDict usage =>
      p ← token_count (default (dget "input_tokens" usage) (dict_get "prompt_tokens" usage));
      c ← token_count (default (dget "output_tokens" usage) (dict_get "completion_tokens" usage));
      Some {| ud_prompt_tokens := p; ud_completion_tokens := c |}
  | _ => None
  end.

(** ** The registry *)

Section registry.
Context {M1 M2 M3 : Type}.
Context `{!Mapping M1 VideoJobRecord} `{!Mapping M2 VideoJobUsage} `{!Mapping M3 VideoJobOwner}.

Record VideoJobRegistry := { _records : M1; _usages : M2; _legacy_owners : M3 }.

Definition VM (A : Type) : Type := ST VideoJobRegistry video_error A.

Definition with_records (m : M1) (s : VideoJobRegistry) : VideoJobRegistry :=
  {| _records := m; _usages := _usages s; _legacy_owners := _legacy_owners s |}.
Definition with_usages (m : M2) (s : VideoJobRegistry) : VideoJobRegistry :=
  {| _records := _records s; _usages := m; _legacy_owners := _legacy_owners s |}.
Definition with_legacy (m : M3) (s : VideoJobRegistry) : VideoJobRegistry :=
  {| _records := _records s; _usages := _usages s; _legacy_owners := m |}.

(** [self._records[gateway_job_id] = record]. *)
Definition put_record (gateway_job_id : string) (r : VideoJobRecord) : VM unit := λ s,
  (with_records (setitem (_records s) gateway_job_id r) s, Ok tt).

(** [set_if_absent], or the locked test of a plain dict. *)
Definition _store_usage_if_absent (gateway_job_id : string) (usage : VideoJobUsage) : VM unit := λ s,
  (with_usages (set_if_absent (_usages s) gateway_job_id usage).1 s, Ok tt).

Definition _usage_document (gateway_job_id : string) : VM (option usage_document) := λ s,
  let '(m, usage) := getitem (_usages s) gateway_job_id in
  (with_usages m s,
   Ok ((λ u, {| ud_prompt_tokens := vu_prompt_tokens u; ud_completion_tokens := vu_completion_tokens u |}) <$> usage)).

(** The normalized record, or the legacy one. *)
Definition _record (gateway_job_id : string) : VM (VideoJobRecord + VideoJobOwner) := λ s,
  match getitem (_records s) gateway_job_id with
  | (m, Some r) => (with_records m s, Ok (inl r))
  | (m, None) =>
      match getitem (_legacy_owners s) gateway_job_id with
      | (m', Some o) => (with_legacy m' (with_records m s), Ok (inr o))
      | (m', None) => (with_legacy m' (with_records m s), Raise (VideoKeyError gateway_job_id))
      end
  end.

Definition measured_status (u : option usage_document) : string :=
  match u with Some _ => "measured" | None => "unavailable" end.

Definition owner_view (r : VideoJobRecord) (u : option usage_document) : VideoJobOwner :=
  {| vo_gateway_job_id := vr_gateway_job_id r; vo_provider_job_id := vr_provider_job_id r;
     vo_agent_id := vr_agent_id r; vo_submitted_at := vr_submitted_at r; vo_owner_id := vr_owner_id r;
     vo_usage_measurement_status := measured_status u; vo_provider_usage := u;
     vo_agent_affinity_key := vr_agent_affinity_key r |}.

Definition _owner_from_record (r : VideoJobRecord) : VM VideoJobOwner :=
  st.bind (_usage_document (vr_gateway_job_id r)) (λ u, st.ret (owner_view r u)).

Definition owner_with_usage (o : VideoJobOwner) (u : usage_document) : VideoJobOwner :=
  {| vo_gateway_job_id := vo_gateway_job_id o; vo_provider_job_id := vo_provider_job_id o;
     vo_agent_id := vo_agent_id o; vo_submitted_at := vo_submitted_at o; vo_owner_id := vo_owner_id o;
     vo_usage_measurement_status := "measured"; vo_provider_usage := Some u;
     vo_agent_affinity_key := vo_agent_affinity_key o |}.

Definition _owner_from_legacy (o : VideoJobOwner) : VM VideoJobOwner :=
  match vo_provider_usage o with
  | Some _ => st.ret o
  | None =>
      st.bind (_usage_document (vo_gateway_job_id o)) (λ u,
        st.ret match u with None => o | Some u => owner_with_usage o u end)
  end.

Definition observed (u : usage_document) (now : Z) : VideoJobUsage :=
  {| vu_prompt_tokens := ud_prompt_tokens u; vu_completion_tokens := ud_completion_tokens u; vu_observed_at := now |}.

(** The usage of a result, written only where [known] is none. *)
Definition store_reported (now : Z) (gateway_job_id : string) (provider_result : list (pyval * pyval))
    (known : option usage_document) : VM unit :=
  match _provider_usage provider_result, known with
  | Some u, None => _store_usage_if_absent gateway_job_id (observed u now)
  | _, _ => st.ret tt
  end.

(** [uuid_hex] and [now] are the fresh id and the clock; [usage_outage]: storing
    the usage raises, which is logged. *)
Definition register (uuid_hex : string) (now : Z) (usage_outage : bool) (provider_result : list (pyval * pyval))
    (agent_id owner_id agent_affinity_key : string) : VM (list (pyval * pyval)) :=
  match dget "id" provider_result with
  | VStr provider_job_id =>
      if str_blank provider_job_id
      then st.raise (VideoJobContractError "video provider response must contain a non-empty id")
      else if negb (str_truthy owner_id) then st.raise (VideoJobContractError "video job owner is unavailable")
      else
        let gateway_job_id := String.append "videojob_" uuid_hex in
        let record := {| vr_gateway_job_id := gateway_job_id; vr_provider_job_id := provider_job_id;
                         vr_agent_id := agent_id; vr_submitted_at := now; vr_owner_id := owner_id;
                         vr_agent_affinity_key := agent_affinity_key |} in
        st.bind (put_record gateway_job_id record) (λ _,
        st.bind (if usage_outage then st.ret tt else store_reported now gateway_job_id provider_result None) (λ _,
        st.lift (public_response provider_result (owner_view record None))))
  | _ => st.raise (VideoJobContractError "video provider response must contain a non-empty id")
  end.

Definition owner (gateway_job_id owner_id : string) : VM VideoJobOwner :=
  st.bind (_record gateway_job_id) (λ r,
    let stored_owner_id := match r with inl r => vr_owner_id r | inr o => vo_owner_id o end in
    if negb (str_truthy owner_id) || negb (String.eqb stored_owner_id owner_id)
    then st.raise (VideoKeyError gateway_job_id)
    else match r with inl r => _owner_from_record r | inr o => _owner_from_legacy o end).

(** Normalised jobs look at the usage in the caller's owner, legacy ones at the
    stored usage. *)
Definition observe_provider_result (now : Z) (o : VideoJobOwner) (provider_result : list (pyval * pyval))
    : VM VideoJobOwner :=
  st.bind (_record (vo_gateway_job_id o)) (λ r,
    match r with
    | inr legacy =>
        st.bind (_owner_from_legacy legacy) (λ current,
        st.bind (store_reported now (vo_gateway_job_id o) provider_result (vo_provider_usage current)) (λ _,
        _owner_from_legacy legacy))
    | inl r =>
        st.bind (store_reported now (vo_gateway_job_id o) provider_result (vo_provider_usage o)) (λ _,
        _owner_from_record r)
    end).
End registry.

Arguments VideoJobRegistry : clear implicits.

(** ** The routing identity of an agent *)

Section affinity.
Context (float_repr : float → string) (sha256_hex : string → string).

Definition agent_identity (a : ModelAgent) : pyval :=
  VDict [(VStr "base_url", VStr (base_url a)); (VStr "credential_name", VStr (credential_name a));
         (VStr "auth_scheme", VStr (auth_scheme a)); (VStr "local_credential_key", VStr (local_credential_key a))].

Definition video_agent_affinity_key (a : ModelAgent) : string :=
  sha256_hex (json_dumps float_repr true (agent_identity a)).

(** While the digest does not collide, the key tells routing identities apart. *)
Lemma affinity_key_identifies a b :
  (∀ s t, sha256_hex s = sha256_hex t → s = t) →
  video_agent_affinity_key a = video_agent_affinity_key b →
  base_url a = base_url b ∧ credential_name a = credential_name b ∧ auth_scheme a = auth_scheme b ∧
  local_credential_key a = local_credential_key b.
Proof.
  intros Hsha Heq%Hsha. apply json_dumps_inj in Heq; [|done..]. vm_compute in Heq. injection Heq. intros. done.
Qed.
End affinity.

(** ** The provider's id is hidden *)

Definition contains (old s : list ascii) : Prop := ∃ a b, s = a ++ old ++ b.

(** No occurrence of [old] can overlap one of [new]: neither is in the other, and
    no end of one is a beginning of the other. *)
Definition separable (old new : string) : bool :=
  str_truthy old && negb (str_contains old new) && negb (str_contains new old) &&
  forallb (λ k, negb (bool_decide (drop k (str_list old) `prefix_of` str_list new))
                && negb (bool_decide (take k (str_list old) `suffix_of` str_list new)))
          (seq 1 (String.length old - 1)).

Lemma prefix_list p s : String.prefix p s = true ↔ str_list p `prefix_of` str_list s.
Proof.
  revert s. induction p as [|c p IH]; intros s; cbn [str_list list_ascii_of_string].
  { split; [intros _; apply prefix_nil|by destruct s]. }
  destruct s as [|c' s]; cbn.
  { split; [done|]. by intros ?%prefix_nil_not. }
  destruct (ascii_dec c c') as [->|Hne].
  - rewrite IH. split; [apply prefix_cons|apply prefix_cons_inv_2].
  - split; [done|]. by intros ?%prefix_cons_inv_1.
Qed.

Lemma str_contains_list p s : str_contains p s = true ↔ contains (str_list p) (str_list s).
Proof.
  induction s as [|c s IH]; cbn [str_contains]; rewrite orb_true_iff, prefix_list.
  - split.
    + intros [[b Hb]|]; [|done]. by exists [], b.
    + intros (a & b & Hab). left. cbn in Hab. symmetry in Hab. apply app_eq_nil in Hab as [-> Hab].
      apply app_eq_nil in Hab as [-> ->]. apply prefix_nil.
  - rewrite IH. split.
    + intros [[b Hb]|(a & b & Hab)]; [by exists [], b|]. exists (c :: a), b. cbn. by rewrite <- Hab.
    + intros ([|c' a] & b & Hab); [left; by exists b|right]. cbn in Hab. injection Hab as _ Hab. by exists a, b.
Qed.

Section replace.
Context (old new : string) (Hsep : separable old new = true).

Abbreviation o := (str_list old).
Abbreviation n := (str_list new).
Abbreviation replaced := (replace_from (str_list old) (str_list new) O).

Lemma separable_facts :
  o ≠ [] ∧ ¬ contains o n ∧ ¬ contains n o ∧
  (∀ u v, o = u ++ v → u ≠ [] → v ≠ [] → ¬ v `prefix_of` n ∧ ¬ u `suffix_of` n).
Proof.
  unfold separable in Hsep. rewrite !andb_true_iff, !negb_true_iff in Hsep.
  destruct Hsep as [[[Ho Hon] Hno] Hall]. split_and!.
  - apply str_truthy_spec in Ho. by destruct old.
  - rewrite <- str_contains_list. congruence.
  - rewrite <- str_contains_list. congruence.
  - intros u v Huv Hu Hv. rewrite forallb_forall in Hall.
    assert (String.length old = length o) as Hlen by (clear; induction old; cbn; auto).
    assert (length o = (length u + length v)%nat) as Hl by (by rewrite Huv, length_app).
    destruct u as [|x u]; [done|]. destruct v as [|y v]; [done|]. cbn [length] in Hl.
    specialize (Hall (length (x :: u))). rewrite in_seq, Hlen, Hl in Hall. cbn [length] in Hall.
    specialize (Hall ltac:(lia)). rewrite andb_true_iff, !negb_true_iff, !bool_decide_eq_false in Hall.
    rewrite Huv in Hall. change (S (length u)) with (length (x :: u)) in Hall.
    by rewrite drop_app_length, take_app_length in Hall.
Qed.

Lemma no_straddle t r : contains o (t ++ n ++ r) → contains o t ∨ contains o r.
Proof.
  destruct separable_facts as (Ho & Hon & Hno & Hcut). intros (a & b & Hab).
  apply app_eq_inv in Hab as [(k & -> & Hk)|(k & -> & Hk)].
  - apply app_eq_inv in Hk as [(v & Hv & Hr)|(w & -> & _)]; [|left; by exists a, w].
    destruct (decide (v = [])) as [->|Hv0].
    { left. rewrite app_nil_r in Hv. rewrite <- Hv. by exists a, []; rewrite app_nil_r. }
    apply app_eq_inv in Hr as [(w & Hw & _)|(w & Hw & _)].
    + destruct (decide (k = [])) as [->|Hk0].
      { destruct Hon. rewrite Hw, Hv. by exists [], w. }
      destruct (Hcut k v Hv Hk0 Hv0) as [[] _]. by exists w.
    + destruct Hno. rewrite Hv, Hw. by exists k, w.
  - apply app_eq_inv in Hk as [(v & Hv & Hr)|(w & -> & ->)]; [|right; by exists w, b].
    apply app_eq_inv in Hr as [(w & Hw & ->)|(w & -> & _)]; [|destruct Hon; rewrite Hv; by exists k, w].
    destruct (decide (v = [])) as [->|Hv0]; [right; cbn in Hw; subst w; by exists [], b|].
    destruct (decide (w = [])) as [->|Hw0].
    { destruct Hon. rewrite app_nil_r in Hw. rewrite Hv, Hw. by exists k, []; rewrite app_nil_r. }
    destruct (Hcut v w Hw Hv0 Hw0) as [_ []]. by exists k.
Qed.

Lemma replace_skip k s : replace_from o n k s = replaced (drop k s).
Proof. revert k. induction s as [|c s IH]; intros [|k]; cbn; [done..|apply IH]. Qed.

(** A text without [old] stays; else its first occurrence is replaced. *)
Lemma replace_first s :
  (¬ contains o s ∧ replaced s = s) ∨
  (∃ t s', ¬ contains o t ∧ s = t ++ o ++ s' ∧ replaced s = t ++ n ++ replaced s').
Proof.
  destruct separable_facts as (Ho & _). assert (¬ contains o []) as Hnil.
  { intros (a & b & Hab). symmetry in Hab. apply app_eq_nil in Hab as [_ Hab]. by apply app_eq_nil in Hab as [? _]. }
  induction s as [|c s IH]; [by left|]. cbn [replace_from]. case_bool_decide as Hp.
  { right. destruct Hp as [b Hb]. exists [], b. split; [done|]. cbn. split; [by rewrite Hb|]. rewrite replace_skip. do 2 f_equal.
    destruct o as [|x o']; [done|]. cbn in Hb |- *. injection Hb as _ ->. by rewrite drop_app_length. }
  destruct IH as [[Hno ->]|(t & s' & Ht & -> & ->)].
  - left. split; [|done]. intros ([|x a] & b & Hab); [destruct Hp; by exists b|]. injection Hab as _ ->. destruct Hno. by exists a, b.
  - right. exists (c :: t), s'. split; [|done]. intros ([|x a] & b & Hab).
    + destruct Hp. cbn in Hab. exists (b ++ o ++ s'). change (c :: t ++ o ++ s') with ((c :: t) ++ o ++ s').
      by rewrite Hab, <- app_assoc.
    + injection Hab as _ ->. destruct Ht. by exists a, b.
Qed.

Lemma replaced_clean s : ¬ contains o (replaced s).
Proof.
  induction s as [s IH] using (induction_ltof1 _ (@length ascii)). unfold ltof in IH.
  destruct (replace_first s) as [[Hno ->]|(t & s' & Ht & Hs & ->)]; [done|].
  intros [?|?]%no_straddle; [done|]. apply (IH s'); [|done]. rewrite Hs, !length_app.
  destruct separable_facts as (Ho & _). destruct o; [done|]. cbn. lia.
Qed.

Lemma str_replace_clean s : str_contains old (str_replace old new s) = false.
Proof.
  apply not_true_iff_false. rewrite str_contains_list. unfold str_replace. rewrite str_list_str.
  destruct separable_facts as (Ho & _). destruct o as [|c o'] eqn:Hoe; [done|]. rewrite <- Hoe. apply replaced_clean.
Qed.
End replace.

(** Every string of a document, keys included. *)
Fixpoint texts_of (v : pyval) : list string :=
  match v with
  | VStr s => [s]
  | VList l => flat_map texts_of l
  | VDict d => flat_map (λ kv, match kv.1 with VStr k => [k] | _ => [] end ++ texts_of kv.2) d
  | _ => []
  end.

Lemma put_strings P s v d :
  P s → Forall P (texts_of v) → Forall P (texts_of (VDict d)) → Forall P (texts_of (VDict (dict_set s v d))).
Proof.
  intros Hs Hv. induction d as [|[k w] d IH]; cbn; [intros _; rewrite app_nil_r; by constructor|].
  rewrite !Forall_app. intros [[Hk Hw] Hd]. destruct (key_is s k); cbn; rewrite !Forall_app; [done|].
  split; [done|]. by apply IH.
Qed.

Lemma identity_strings P old new v :
  (∀ s, P (str_replace old new s)) → json_shape v = true →
  Forall P (texts_of (replace_provider_identity old new v)).
Proof.
  intros HP. induction v as [|b|z|f|s|l IH|l IH|d IH] using pyval_rect_nested; try (cbn; by repeat constructor); try done.
  - cbn. intros Hs. induction IH as [|x l Hx _ IHl]; cbn in *; [done|]. apply andb_true_iff in Hs as [? ?].
    apply Forall_app. auto.
  - cbn [replace_provider_identity json_shape]. intros Hs.
    match goal with |- Forall P (texts_of (VDict (?go [] d))) => set (f := go) end.
    enough (∀ acc, Forall P (texts_of (VDict acc)) → Forall P (texts_of (VDict (f acc d)))) as H by (by apply H).
    induction IH as [|[k x] d [_ Hx] _ IHd]; intros acc Hacc; [done|]. cbn in Hs. apply andb_true_iff in Hs as [Hkx Hd].
    apply andb_true_iff in Hkx as [Hk Hxs]. apply IHd; [done|]. destruct k; try done. cbn [replace_key put_item].
    apply put_strings; [apply HP|by apply Hx|done].
Qed.

(** C21. A provider's job id never crosses the public boundary. In the document
    a client receives every string, at any depth and keys included, is free of
    the provider's id, and the id of the document is the gateway's - for every
    document the provider may send, as long as the two ids cannot overlap. *)
Theorem provider_identity_is_hidden provider_result o response :
  separable (vo_provider_job_id o) (vo_gateway_job_id o) = true →
  str_contains (vo_provider_job_id o) "id" = false →
  json_shape (VDict provider_result) = true →
  public_response provider_result o = Ok response →
  dget "id" response = VStr (vo_gateway_job_id o) ∧
  ∀ s, s ∈ texts_of (VDict response) → str_contains (vo_provider_job_id o) s = false.
Proof.
  intros Hsep Hid Hshape Hr.
  pose proof (identity_strings (λ s, str_contains (vo_provider_job_id o) s = false) _ (vo_gateway_job_id o) _
    (str_replace_clean _ _ Hsep) Hshape) as Hs.
  assert (∃ d, replace_provider_identity (vo_provider_job_id o) (vo_gateway_job_id o) (VDict provider_result) = VDict d
    ∧ response = dict_set "id" (VStr (vo_gateway_job_id o)) d) as (d & Hd & ->).
  { revert Hr. unfold public_response. cbn [replace_provider_identity].
    destruct (dget "id" provider_result); try (intros [= <-]; by eexists).
    destruct (String.eqb _ _); [|done]. intros [= <-]. by eexists. }
  split; [unfold dget; by rewrite dict_get_set, decide_True|]. apply Forall_forall. rewrite Hd in Hs.
  apply put_strings; [done| |done]. constructor; [|done].
  unfold separable in Hsep. rewrite !andb_true_iff, !negb_true_iff in Hsep. tauto.
Qed.

(** ** The registry as three finite maps *)

Record jobs := {
  job_records : gmap string VideoJobRecord;
  job_usages : gmap string VideoJobUsage;
  job_legacy : gmap string VideoJobOwner;
}.

Definition counts (u : VideoJobUsage) : usage_document :=
  {| ud_prompt_tokens := vu_prompt_tokens u; ud_completion_tokens := vu_completion_tokens u |}.

Definition legacy_view (o : VideoJobOwner) (u : option usage_document) : VideoJobOwner :=
  match vo_provider_usage o, u with None, Some u => owner_with_usage o u | _, _ => o end.

(** The job a gateway id names. *)
Definition view (j : jobs) (gateway_job_id : string) : option VideoJobOwner :=
  match job_records j !! gateway_job_id with
  | Some r => Some (owner_view r (counts <$> job_usages j !! vr_gateway_job_id r))
  | None => (λ o, legacy_view o (counts <$> job_usages j !! vo_gateway_job_id o)) <$> job_legacy j !! gateway_job_id
  end.

Definition owned_by (p : string) (o : VideoJobOwner) : bool := str_truthy p && String.eqb (vo_owner_id o) p.

Definition first_write (k : string) (u : VideoJobUsage) (j : jobs) : jobs :=
  {| job_records := job_records j; job_usages := default (<[k := u]> (job_usages j)) ((λ _, job_usages j) <$> job_usages j !! k);
     job_legacy := job_legacy j |}.

Definition add_record (k : string) (r : VideoJobRecord) (j : jobs) : jobs :=
  {| job_records := <[k := r]> (job_records j); job_usages := job_usages j; job_legacy := job_legacy j |}.

(** [isinstance(id, str) and id.strip()]. *)
Definition provider_result_id (result : list (pyval * pyval)) : option string :=
  match dget "id" result with VStr s => if str_blank s then None else Some s | _ => None end.

Section on_registries.
Context {M1 M2 M3 : Type}.
Context `{!Mapping M1 VideoJobRecord} `{!Mapping M2 VideoJobUsage} `{!Mapping M3 VideoJobOwner}.
Context (models1 : M1 → gmap string VideoJobRecord → Prop) (models2 : M2 → gmap string VideoJobUsage → Prop)
        (models3 : M3 → gmap string VideoJobOwner → Prop).
Context `{!MappingLaws M1 VideoJobRecord (λ _, True) models1} `{!MappingLaws M2 VideoJobUsage (λ _, True) models2}
        `{!MappingLaws M3 VideoJobOwner (λ _, True) models3}.

Abbreviation registry := (VideoJobRegistry M1 M2 M3).

Record holds (s : registry) (j : jobs) : Prop := {
  holds_records : models1 (_records s) (job_records j);
  holds_usages : models2 (_usages s) (job_usages j);
  holds_legacy : models3 (_legacy_owners s) (job_legacy j);
}.

(** A step from a registry that holds [j] to one that holds [j'], with [out]. *)
Definition goes {A} (r : registry * res video_error A) (j' : jobs) (out : res video_error A) : Prop :=
  holds r.1 j' ∧ r.2 = out.

Lemma goes_bind {A B} (m : ST registry video_error A) (k : A → ST registry video_error B) s j1 a j2 out :
  goes (m s) j1 (Ok a) → (∀ s1, holds s1 j1 → goes (k a s1) j2 out) → goes (st.bind m k s) j2 out.
Proof. intros [Hs Ha] Hk. unfold st.bind. destruct (m s) as [s1 r]. cbn in *. subst r. by apply Hk. Qed.

Lemma goes_ret {A} (a : A) s j : holds s j → goes (st.ret a s) j (Ok a).
Proof. by split. Qed.

Lemma put_record_goes k r s j : holds s j → goes (put_record k r s) (add_record k r j) (Ok tt).
Proof. intros [H1 H2 H3]. split; [|done]. split; cbn; [by apply (setitem_models (V := VideoJobRecord))|done..]. Qed.

Lemma store_goes k u s j : holds s j → goes (_store_usage_if_absent k u s) (first_write k u j) (Ok tt).
Proof.
  intros [H1 H2 H3]. split; [|done]. split; cbn; [done| |done].
  pose proof (set_if_absent_models (_usages s) (job_usages j) k u H2 I) as H. destruct (job_usages j !! k); apply H.
Qed.

Lemma usage_goes k s j : holds s j → goes (_usage_document k s) j (Ok (counts <$> job_usages j !! k)).
Proof.
  intros [H1 H2 H3]. pose proof (getitem_models (_usages s) (job_usages j) k H2) as [Hv Hm].
  unfold _usage_document. destruct (getitem (_usages s) k) as [m u]. cbn in *. subst u. split; [|done]. by split.
Qed.

Lemma record_goes k s j :
  holds s j →
  goes (_record k s) j
    match job_records j !! k, job_legacy j !! k with
    | Some r, _ => Ok (inl r) | None, Some o => Ok (inr o) | None, None => Raise (VideoKeyError k)
    end.
Proof.
  intros [H1 H2 H3]. pose proof (getitem_models (_records s) (job_records j) k H1) as [Hv Hm].
  pose proof (getitem_models (_legacy_owners s) (job_legacy j) k H3) as [Hv' Hm'].
  unfold _record. destruct (getitem (_records s) k) as [m r]. cbn in *. subst r.
  destruct (job_records j !! k); [split; [|done]; by split|].
  destruct (getitem (_legacy_owners s) k) as [m' o]. cbn in *. subst o. destruct (job_legacy j !! k); (split; [|done]); by split.
Qed.

Lemma from_record_goes r s j :
  holds s j → goes (_owner_from_record r s) j (Ok (owner_view r (counts <$> job_usages j !! vr_gateway_job_id r))).
Proof. intros Hs. eapply goes_bind; [by apply usage_goes|]. intros s1 H1. by apply goes_ret. Qed.

Lemma from_legacy_goes o s j :
  holds s j → goes (_owner_from_legacy o s) j (Ok (legacy_view o (counts <$> job_usages j !! vo_gateway_job_id o))).
Proof.
  intros Hs. unfold _owner_from_legacy, legacy_view. destruct (vo_provider_usage o); [by apply goes_ret|].
  eapply goes_bind; [by apply usage_goes|]. intros s1 H1. by destruct (counts <$> _); apply goes_ret.
Qed.

(** [owner] is a look at the view; unknown and foreign jobs alike are missing. *)
Lemma owner_goes k p s j :
  holds s j →
  goes (owner k p s) j
    match view j k with
    | Some o => if owned_by p o then Ok o else Raise (VideoKeyError k)
    | None => Raise (VideoKeyError k)
    end.
Proof.
  intros Hs. unfold owner, view. pose proof (record_goes k s j Hs) as Hr.
  destruct (job_records j !! k) as [r|]; [|destruct (job_legacy j !! k) as [o|]; cbn [fmap option_fmap option_map]].
  - eapply goes_bind; [exact Hr|]. intros s1 H1. unfold owned_by. cbn [vo_owner_id owner_view].
    destruct (str_truthy p), (String.eqb _ p); cbn [negb orb andb]; [by apply from_record_goes|by split..].
  - eapply goes_bind; [exact Hr|]. intros s1 H1. unfold owned_by.
    assert (∀ u, vo_owner_id (legacy_view o u) = vo_owner_id o) as -> by (intros u; unfold legacy_view; by destruct (vo_provider_usage o), u).
    destruct (str_truthy p), (String.eqb _ p); cbn [negb orb andb]; [by apply from_legacy_goes|by split..].
  - destruct Hr as [H1 H2]. unfold st.bind. destruct (_record k s) as [s1 r]. cbn in *. by subst r.
Qed.

Definition stored (now : Z) (k : string) (provider_result : list (pyval * pyval)) (known : option usage_document) (j : jobs)
    : jobs :=
  match _provider_usage provider_result, known with
  | Some u, None => first_write k (observed u now) j
  | _, _ => j
  end.

Lemma stored_fields now k result known j :
  job_records (stored now k result known j) = job_records j ∧ job_legacy (stored now k result known j) = job_legacy j.
Proof. unfold stored. by destruct (_provider_usage result), known. Qed.

Lemma stored_goes now k result known s j :
  holds s j → goes (store_reported now k result known s) (stored now k result known j) (Ok tt).
Proof.
  intros Hs. unfold store_reported, stored. destruct (_provider_usage result); [destruct known|];
    [by apply goes_ret|by apply store_goes|by apply goes_ret].
Qed.

(** What [observe_provider_result] does to the maps. *)
Definition observe_jobs (now : Z) (o : VideoJobOwner) (provider_result : list (pyval * pyval)) (j : jobs) : jobs :=
  let k := vo_gateway_job_id o in
  match job_records j !! k, job_legacy j !! k with
  | Some _, _ => stored now k provider_result (vo_provider_usage o) j
  | None, Some l =>
      stored now k provider_result (vo_provider_usage (legacy_view l (counts <$> job_usages j !! vo_gateway_job_id l))) j
  | None, None => j
  end.

Lemma observe_goes now o result s j :
  holds s j →
  goes (observe_provider_result now o result s) (observe_jobs now o result j)
    match view (observe_jobs now o result j) (vo_gateway_job_id o) with
    | Some o' => Ok o'
    | None => Raise (VideoKeyError (vo_gateway_job_id o))
    end.
Proof.
  intros Hs. unfold observe_provider_result, observe_jobs. set (k := vo_gateway_job_id o).
  pose proof (record_goes k s j Hs) as Hr. unfold view.
  destruct (job_records j !! k) as [r|] eqn:Hk; [|destruct (job_legacy j !! k) as [l|] eqn:Hl].
  - eapply goes_bind; [exact Hr|]. intros s1 H1. eapply goes_bind; [by apply stored_goes|]. intros s2 H2.
    destruct (stored_fields now k result (vo_provider_usage o) j) as [-> _]. rewrite Hk. by apply from_record_goes.
  - eapply goes_bind; [exact Hr|]. intros s1 H1. eapply goes_bind; [by apply from_legacy_goes|]. intros s2 H2.
    eapply goes_bind; [by apply stored_goes|]. intros s3 H3.
    set (known := vo_provider_usage _) in *. destruct (stored_fields now k result known j) as [-> ->]. rewrite Hk, Hl.
    by apply from_legacy_goes.
  - rewrite Hk, Hl. destruct Hr as [H1 H2]. unfold st.bind. destruct (_record k s) as [s1 r]. cbn in *. by subst r.
Qed.

(** What [register] does, once its result and owner are accepted. *)
Definition new_record (uuid_hex : string) (now : Z) (provider_job_id agent owner_id affinity : string) : VideoJobRecord :=
  {| vr_gateway_job_id := String.append "videojob_" uuid_hex; vr_provider_job_id := provider_job_id;
     vr_agent_id := agent; vr_submitted_at := now; vr_owner_id := owner_id; vr_agent_affinity_key := affinity |}.

Definition registered (uuid_hex : string) (now : Z) (usage_outage : bool) (provider_result : list (pyval * pyval))
    (r : VideoJobRecord) (j : jobs) : jobs :=
  let k := String.append "videojob_" uuid_hex in
  let j := add_record k r j in
  if usage_outage then j else stored now k provider_result None j.

Lemma register_goes uuid now outage result agent owner_id affinity s j :
  holds s j →
  match provider_result_id result with
  | Some i =>
      if str_truthy owner_id then
        let r := new_record uuid now i agent owner_id affinity in
        goes (register uuid now outage result agent owner_id affinity s) (registered uuid now outage result r j)
             (public_response result (owner_view r None))
      else ∃ e, goes (register uuid now outage result agent owner_id affinity s) j (Raise e)
  | None => ∃ e, goes (register uuid now outage result agent owner_id affinity s) j (Raise e)
  end.
Proof.
  intros Hs. unfold register, provider_result_id. destruct (dget "id" result) as [| | | |i| | |]; try (eexists; by split).
  destruct (str_blank i); [eexists; by split|]. destruct (str_truthy owner_id); [|eexists; by split]. cbn [negb].
  eapply goes_bind; [by apply put_record_goes|]. intros s1 H1.
  eapply (goes_bind _ _ _ (registered uuid now outage result (new_record uuid now i agent owner_id affinity) j)).
  - unfold registered. destruct outage; [by apply goes_ret|by apply stored_goes].
  - intros s2 H2. by split.
Qed.

(** ** Histories

    Replicas that share the registries submit, read and observe in any order;
    an observation comes with any owner its caller ever held. *)

Definition fresh (uuid_hex : string) (s : registry) : Prop :=
  let k := String.append "videojob_" uuid_hex in
  (getitem (_records s) k).2 = None ∧ (getitem (_usages s) k).2 = None ∧ (getitem (_legacy_owners s) k).2 = None.

Inductive video_step : relation registry :=
| SubmitStep uuid now outage result agent owner_id affinity s :
    fresh uuid s → video_step s (register uuid now outage result agent owner_id affinity s).1
| ReadStep k p s : video_step s (owner k p s).1
| ObserveStep now o result s : video_step s (observe_provider_result now o result s).1.

Record jobs_grow (j j' : jobs) : Prop := {
  grows_records : job_records j ⊆ job_records j';
  grows_usages : job_usages j ⊆ job_usages j';
  grows_legacy : job_legacy j' = job_legacy j;
  grows_apart k : is_Some (job_legacy j !! k) → job_records j' !! k = job_records j !! k;
}.

#[global] Instance grows_preorder : PreOrder jobs_grow.
Proof.
  split; [by split|]. intros j1 j2 j3 [A1 B1 C1 D1] [A2 B2 C2 D2]. split; [by etrans|by etrans|congruence|].
  intros k Hk. rewrite D2 by by rewrite C1. by apply D1.
Qed.

Lemma stored_grows now k result known j : jobs_grow j (stored now k result known j).
Proof.
  unfold stored. destruct (_provider_usage result); [destruct known|]; [done| |done]. split; cbn; try done.
  destruct (job_usages j !! k) eqn:Hk; cbn; [done|]. by apply insert_subseteq.
Qed.

Lemma fresh_jobs uuid s j :
  holds s j → fresh uuid s →
  let k := String.append "videojob_" uuid in
  job_records j !! k = None ∧ job_usages j !! k = None ∧ job_legacy j !! k = None.
Proof.
  intros [H1 H2 H3] (F1 & F2 & F3) k.
  pose proof (getitem_models _ _ k H1) as [E1 _]. pose proof (getitem_models _ _ k H2) as [E2 _].
  pose proof (getitem_models _ _ k H3) as [E3 _]. unfold k in *. by rewrite <- E1, <- E2, <- E3.
Qed.

Lemma registered_grows uuid now outage result r s j :
  holds s j → fresh uuid s → jobs_grow j (registered uuid now outage result r j).
Proof.
  intros Hs Hf. destruct (fresh_jobs uuid s j Hs Hf) as (E1 & _ & E3).
  assert (jobs_grow j (add_record (String.append "videojob_" uuid) r j)) as Hadd.
  { split; cbn; [by apply insert_subseteq|done|done|]. intros k [o Hk]. rewrite lookup_insert_ne; [done|].
    intros <-. by rewrite E3 in Hk. }
  unfold registered. destruct outage; [done|]. etrans; [exact Hadd|apply stored_grows].
Qed.

Lemma step_grows s s' j : holds s j → video_step s s' → ∃ j', holds s' j' ∧ jobs_grow j j'.
Proof.
  intros Hs Hstep. destruct Hstep as [uuid now outage result agent owner_id affinity s Hf|k p s|now o result s].
  - pose proof (register_goes uuid now outage result agent owner_id affinity s j Hs) as H.
    destruct (provider_result_id result); [destruct (str_truthy owner_id)|].
    + destruct H as [H _]. eexists. split; [exact H|]. by eapply registered_grows.
    + destruct H as (e & H & _). by exists j.
    + destruct H as (e & H & _). by exists j.
  - destruct (owner_goes k p s j Hs) as [H _]. by exists j.
  - destruct (observe_goes now o result s j Hs) as [H _]. eexists. split; [exact H|].
    unfold observe_jobs. destruct (job_records j !! _); [apply stored_grows|].
    destruct (job_legacy j !! _); [apply stored_grows|done].
Qed.

Lemma history_grows s s' j : holds s j → rtc video_step s s' → ∃ j', holds s' j' ∧ jobs_grow j j'.
Proof.
  intros Hs Hsteps. revert j Hs. induction Hsteps as [s|s1 s2 s3 Hstep _ IH]; intros j Hs; [by exists j|].
  destruct (step_grows s1 s2 j Hs Hstep) as (j2 & H2 & G2). destruct (IH j2 H2) as (j3 & H3 & G3).
  exists j3. split; [done|]. by etrans.
Qed.

(** The same job, whose usage may since have been measured. *)
Definition later (o o' : VideoJobOwner) : Prop :=
  o' = o ∨ (vo_provider_usage o = None ∧ ∃ u, o' = owner_with_usage o u).

Lemma usage_later j j' k u :
  jobs_grow j j' → counts <$> job_usages j !! k = Some u → counts <$> job_usages j' !! k = Some u.
Proof.
  intros Hg. destruct (job_usages j !! k) as [w|] eqn:Hk; [|done]. intros [= <-].
  by rewrite (lookup_weaken _ _ _ _ Hk (grows_usages _ _ Hg)).
Qed.

Lemma view_later j j' k o : jobs_grow j j' → view j k = Some o → ∃ o', view j' k = Some o' ∧ later o o'.
Proof.
  intros Hg. unfold view. destruct (job_records j !! k) as [r|] eqn:Hr.
  - intros [= <-]. rewrite (lookup_weaken _ _ _ _ Hr (grows_records _ _ Hg)). eexists. split; [done|].
    destruct (counts <$> job_usages j !! vr_gateway_job_id r) as [u|] eqn:Hu.
    + rewrite (usage_later j j' _ u Hg Hu). by left.
    + destruct (counts <$> job_usages j' !! vr_gateway_job_id r) as [u|]; [right|by left]. split; [done|by exists u].
  - destruct (job_legacy j !! k) as [l|] eqn:Hl; [|done]. cbn. intros [= <-].
    rewrite (grows_apart _ _ Hg k (mk_is_Some _ _ Hl)), Hr, (grows_legacy _ _ Hg), Hl. cbn. eexists. split; [done|].
    unfold legacy_view. destruct (vo_provider_usage l) eqn:Hv; [by left|].
    destruct (counts <$> job_usages j !! vo_gateway_job_id l) as [u|] eqn:Hu.
    + rewrite (usage_later j j' _ u Hg Hu). by left.
    + destruct (counts <$> job_usages j' !! vo_gateway_job_id l) as [u|]; [right|by left]. split; [done|by exists u].
Qed.

(** C20. A job keeps its owner, and a measured usage is final. Whatever replicas
    submit, read and observe afterwards, with stale or foreign owners and in any
    order: the owner of a job reads the same job again, with the same usage once
    one was measured, and every other principal is told that it does not exist. *)
Theorem measured_usage_is_final s j s' k p o :
  holds s j → rtc video_step s s' → (owner k p s).2 = Ok o →
  (∃ o', (owner k p s').2 = Ok o' ∧ later o o') ∧
  ∀ q, q ≠ p → (owner k q s').2 = Raise (VideoKeyError k).
Proof.
  intros Hs Hsteps Ho. destruct (history_grows s s' j Hs Hsteps) as (j' & Hs' & Hg).
  destruct (owner_goes k p s j Hs) as [_ Hv]. rewrite Ho in Hv.
  destruct (view j k) as [o1|] eqn:Hj; [|done]. destruct (owned_by p o1) eqn:Hp; [|done]. injection Hv as ->.
  destruct (view_later j j' k o1 Hg Hj) as (o' & Hj' & Hl).
  assert (vo_owner_id o' = vo_owner_id o1) as Hid by (by destruct Hl as [->|(_ & u & ->)]).
  assert (vo_owner_id o1 = p) as Hpid by (by apply andb_true_iff in Hp as [_ Hp%String.eqb_eq]).
  split.
  - exists o'. split; [|done]. destruct (owner_goes k p s' j' Hs') as [_ ->]. rewrite Hj'. unfold owned_by in *. by rewrite Hid, Hp.
  - intros q Hq. destruct (owner_goes k q s' j' Hs') as [_ ->]. rewrite Hj'. unfold owned_by.
    assert (String.eqb (vo_owner_id o') q = false) as -> by (apply String.eqb_neq; congruence). by rewrite andb_false_r.
Qed.

Lemma public_response_ok result o i :
  provider_result_id result = Some i → vo_provider_job_id o = i →
  ∃ doc, public_response result o = Ok doc ∧ dget "id" doc = VStr (vo_gateway_job_id o).
Proof.
  unfold provider_result_id, public_response. cbn [replace_provider_identity]. intros Hi Ho.
  destruct (dget "id" result) as [| | | |r| | |]; try done. destruct (str_blank r); [done|]. injection Hi as ->.
  rewrite Ho, String.eqb_refl. eexists. split; [done|]. unfold dget. by rewrite dict_get_set, decide_True.
Qed.

(** Registering either refuses a submission and changes nothing, or binds the
    job: the document it returns carries the fresh gateway id, the submitter
    reads back the provider, the agent and the reported usage under that id,
    and nobody else does. A submission the provider accepted for a known
    principal is never refused, even when its usage cannot be stored. *)
Theorem register_binds_the_job uuid now outage result agent owner_id affinity s j :
  holds s j → fresh uuid s →
  let k := String.append "videojob_" uuid in
  let s' := (register uuid now outage result agent owner_id affinity s).1 in
  let out := (register uuid now outage result agent owner_id affinity s).2 in
  match provider_result_id result, str_truthy owner_id with
  | Some i, true =>
      (∃ doc, out = Ok doc ∧ dget "id" doc = VStr k) ∧
      (owner k owner_id s').2 = Ok (owner_view (new_record uuid now i agent owner_id affinity)
                                      (if outage then None else _provider_usage result)) ∧
      ∀ q, q ≠ owner_id → (owner k q s').2 = Raise (VideoKeyError k)
  | _, _ => (∃ e, out = Raise e) ∧ ∀ k' q, (owner k' q s').2 = (owner k' q s).2
  end.
Proof.
  intros Hs Hf k. pose proof (register_goes uuid now outage result agent owner_id affinity s j Hs) as H.
  destruct (fresh_jobs uuid s j Hs Hf) as (E1 & E2 & E3). fold k in E1, E2, E3.
  destruct (register uuid now outage result agent owner_id affinity s) as [s' out]. cbn [fst snd].
  assert (∀ e, holds s' j ∧ out = Raise e → (∃ e, out = Raise e) ∧ ∀ k' q, (owner k' q s').2 = (owner k' q s).2) as Hrefused.
  { intros e [Hs' ->]. split; [by eexists|]. intros k' q. destruct (owner_goes k' q s j Hs) as [_ ->].
    by destruct (owner_goes k' q s' j Hs') as [_ ->]. }
  destruct (provider_result_id result) as [i|] eqn:Hi; [|destruct H as (e & H); by apply (Hrefused e)].
  destruct (str_truthy owner_id) eqn:Ho; [|destruct H as (e & H); by apply (Hrefused e)].
  destruct H as [Hs' Hout]. cbn in Hs', Hout. set (r := new_record uuid now i agent owner_id affinity) in *.
  assert (view (registered uuid now outage result r j) k = Some (owner_view r (if outage then None else _provider_usage result))) as Hv.
  { unfold view, registered. fold k. change (vr_gateway_job_id r) with k.
    destruct outage; [|unfold stored; destruct (_provider_usage result) as [u|]]; cbn;
      rewrite lookup_insert_eq; change (vr_gateway_job_id r) with k; cbn; rewrite ?E2; cbn; try done.
    rewrite lookup_insert_eq. cbn. by destruct u. }
  split.
  - destruct (public_response_ok result (owner_view r None) i Hi eq_refl) as (doc & Hd & Hg). exists doc. by rewrite Hout.
  - split.
    + destruct (owner_goes k owner_id s' _ Hs') as [_ ->]. rewrite Hv. unfold owned_by. cbn. by rewrite Ho, String.eqb_refl.
    + intros q Hq. destruct (owner_goes k q s' _ Hs') as [_ ->]. rewrite Hv. unfold owned_by. cbn.
      assert (String.eqb owner_id q = false) as -> by (apply String.eqb_neq; congruence). by rewrite andb_false_r.
Qed.
End on_registries.

(** ** A registry over dicts *)

Definition demo_registry : VideoJobRegistry (list (string * VideoJobRecord)) (list (string * VideoJobUsage))
                             (list (string * VideoJobOwner)) :=
  {| _records := []; _usages := []; _legacy_owners := [] |}.

Definition no_jobs : jobs := {| job_records := ∅; job_usages := ∅; job_legacy := ∅ |}.

Lemma dict_models_empty V : dict_models (V := V) [] ∅.
Proof. split; [constructor|]. intros k. by rewrite lookup_empty. Qed.

Lemma demo_holds : holds dict_models dict_models dict_models demo_registry no_jobs.
Proof. split; apply dict_models_empty. Qed.

Definition demo_submission : list (pyval * pyval) :=
  [(VStr "id", VStr "vjob-7"); (VStr "status_url", VStr "https://api/videos/vjob-7");
   (VStr "usage", VDict [(VStr "input_tokens", VInt 12); (VStr "output_tokens", VInt 0)])].

Definition demo_poll : list (pyval * pyval) :=
  [(VStr "id", VStr "vjob-7"); (VStr "usage", VDict [(VStr "prompt_tokens", VInt 900); (VStr "completion_tokens", VInt 9)])].

Definition demo_registered := register "0a1b" 100 true demo_submission "agent_a" "tenant_1" "key" demo_registry.

Definition demo_owner : VideoJobOwner := owner_view (new_record "0a1b" 100 "vjob-7" "agent_a" "tenant_1" "key") None.

Lemma provider_identity_is_hidden_witness :
  ∃ doc, public_response demo_submission demo_owner = Ok doc ∧ dget "id" doc = VStr "videojob_0a1b" ∧
         dget "status_url" doc = VStr "https://api/videos/videojob_0a1b" ∧
         ∀ s, s ∈ texts_of (VDict doc) → str_contains "vjob-7" s = false.
Proof.
  eexists. split; [vm_compute; reflexivity|].
  destruct (provider_identity_is_hidden demo_submission demo_owner _ eq_refl eq_refl eq_refl eq_refl) as [H1 H2].
  split; [exact H1|]. split; [vm_compute; reflexivity|exact H2].
Defined.

Lemma register_binds_the_job_witness :
  (owner "videojob_0a1b" "tenant_1" demo_registered.1).2 = Ok demo_owner.
Proof.
  apply (register_binds_the_job dict_models dict_models dict_models "0a1b" 100 true demo_submission "agent_a" "tenant_1"
           "key" demo_registry no_jobs demo_holds).
  vm_compute. split_and!; reflexivity.
Defined.

(** A poll measures the usage; a second one, by a replica that still holds the
    owner of the submission, does not change it. *)
Lemma measured_usage_is_final_witness :
  let s1 := (observe_provider_result 101 demo_owner demo_poll demo_registered.1).1 in
  let s2 := (observe_provider_result 102 demo_owner demo_submission s1).1 in
  ∃ o, (owner "videojob_0a1b" "tenant_1" s1).2 = Ok o ∧
       vo_provider_usage o = Some {| ud_prompt_tokens := 900; ud_completion_tokens := 9 |} ∧
       (owner "videojob_0a1b" "tenant_1" s2).2 = Ok o ∧
       (owner "videojob_0a1b" "tenant_2" s2).2 = Raise (VideoKeyError "videojob_0a1b").
Proof.
  intros s1 s2.
  assert (∃ j, holds dict_models dict_models dict_models s1 j) as [j Hj].
  { destruct (history_grows dict_models dict_models dict_models demo_registry s1 no_jobs demo_holds) as (j & Hj & _); [|by exists j].
    eapply rtc_l; [apply (SubmitStep "0a1b" 100 true demo_submission "agent_a" "tenant_1" "key" demo_registry)|].
    - vm_compute. split_and!; reflexivity.
    - apply rtc_once, ObserveStep. }
  assert (∃ o, (owner "videojob_0a1b" "tenant_1" s1).2 = Ok o ∧
               vo_provider_usage o = Some {| ud_prompt_tokens := 900; ud_completion_tokens := 9 |}) as (o & Ho & Hu).
  { eexists. split; [vm_compute; reflexivity|reflexivity]. }
  assert (rtc video_step s1 s2) as Hsteps by apply rtc_once, ObserveStep.
  destruct (measured_usage_is_final dict_models dict_models dict_models s1 j s2 "videojob_0a1b" "tenant_1" o Hj Hsteps Ho)
    as [(o' & Ho' & Hl) Hq].
  exists o. split; [exact Ho|]. split; [exact Hu|]. split; [|by apply Hq].
  destruct Hl as [->|[Hn _]]; [exact Ho'|]. rewrite Hu in Hn. discriminate Hn.
Defined.

(** Where the ids overlap the provider's id can come back: replacing ["xv"] in
    ["xxv"] joins the first letter to the gateway's id. *)
Lemma provider_id_reappears :
  ∃ doc, (register "0a1b" 100 false [(VStr "id", VStr "xv"); (VStr "url", VStr "xxv")] "agent_a" "tenant_1" "key" demo_registry).2 = Ok doc ∧
         dget "url" doc = VStr "xvideojob_0a1b" ∧ str_contains "xv" "xvideojob_0a1b" = true.
Proof. eexists. split; [vm_compute; reflexivity|]. split; vm_compute; reflexivity. Qed.

(** A short provider id is replaced inside of every text and key, the prompt's
    and the names of the fields included. *)
Lemma short_id_rewrites_the_document :
  ∃ doc, (register "0a" 100 false [(VStr "id", VStr "1"); (VStr "prompt", VStr "1 cat")] "agent_a" "tenant_1" "key" demo_registry).2 = Ok doc ∧
         dget "prompt" doc = VStr "videojob_0a cat".
Proof. eexists. split; [vm_compute; reflexivity|]. vm_compute; reflexivity. Qed.
