(* ===== verification/BatchRoute.v ===== *)
(** orchestrator.py: [batch_route]. Many prompts, grouped by the worker each one
    selects, run through the provider's Batch API; every answer is stored, and
    so metered, before it is judged, and judged before it counts as complete.

    Latencies, receipts, audit and analytics events are not state of the model. *)

From Stdlib Require Import Ascii String QArith Qcanon.
From S2P Require Import Prelude StateLogic PyString PyCollections PyFloat PyValue PyJson Exceptions ToolFallback.
From S2P Require Import ProviderErrors ModelGroup EndpointRace Agents AgentHealth EffortProfile Ranking Transport Failover.
From S2P Require Import ToolLoop Recovery Workflow Budget Judge ResponseCache Gateway Conduct RouteOnce Triage Response Complete.
Open Scope Z_scope.
Open Scope py_scope.

(** ** The batch client *)

Inductive batch_error :=
| BatchFlow (e : flow_error)
| BatchTypeError (m : string)
| BatchRuntimeError (m : string)
| BatchValueError (m : string)
| BatchUpstream (m : string).                             (* ProviderUpstreamError *)

Abbreviation batch_requests := (list (string * list message)).

(** What a call of the client does. *)
Inductive batch_reply :=
| BatchReturned (value : pyval)
| BatchRaised (e : batch_error).

(** [isinstance(result, Mapping) and isinstance(result.get("content"), str)]. *)
Definition result_content (result : pyval) : option (dict * string) :=
  match result with
  | VDict d => match dget "content" d with VStr s => Some (d, s) | _ => None end
  | _ => None
  end.

(** [set(requests) == set(results)]. *)
Definition same_ids (requests : batch_requests) (results : dict) : bool :=
  forallb (λ kv, match kv.1 with VStr k => in_strs k requests.*1 | _ => false end) results &&
  forallb (λ k, bool_decide (is_Some (dict_get k results))) requests.*1.

Definition _validate_batch_results (requests : batch_requests) (results : pyval)
    : res batch_error (list (string * dict)) :=
  match results with
  | VDict items =>
      if negb (same_ids requests items)
      then Raise (BatchRuntimeError "batch provider returned an incomplete or unexpected result set")
      else
        match mapM (λ kv : pyval * pyval, k ← as_str kv.1; r ← result_content kv.2; Some (k, r.1)) items with
        | Some results => Ok results
        | None => Raise (BatchRuntimeError "batch provider returned result(s) without assistant content")
        end
  | _ => Raise (BatchTypeError "batch provider returned an invalid result map")
  end.

(** [ModelClient.batch_chat] over what the provider does ([_mock],
    [_local_batch_chat] or [_batch_run]). *)
Definition batch_chat (provider : ModelAgent → batch_requests → batch_reply) (a : ModelAgent) (requests : batch_requests)
    : batch_reply :=
  if negb (is_chat_compatible_model_id (model a))
  then BatchRaised (BatchValueError "model is not chat-compatible")
  else
    match provider a requests with
    | BatchRaised e => BatchRaised e
    | BatchReturned results =>
        match _validate_batch_results requests results with
        | Ok items => BatchReturned (VDict (map (λ kd, (VStr kd.1, VDict kd.2)) items))
        | Raise e => BatchRaised e
        end
    end.

(** ** The flow *)

Record batch_env := {
  bt_complete : complete_env;                             (* ranking, policy, budget, judge *)
  bt_client : nat → ModelAgent → batch_requests → batch_reply;   (* the n-th call of client.batch_chat *)
  bt_run_id : nat → string;                               (* fresh ids *)
  bt_now : nat → float;                                   (* clock of the quality ledger *)
}.

(** The entries of [answers], [prepared_rows] and [run_ids] under one index, and
    the verdict [row["realtime_judge"]] is taken of. *)
Record prepared_row := {
  pr_prompt : string;
  pr_agent : ModelAgent;
  pr_result : dict;
  pr_run_id : string;
  pr_verdict : option verification;
}.

Definition content_of (result : dict) : string := match dget "content" result with VStr s => s | _ => "" end.
Definition usage_of_result (result : dict) : option dict := match dget "usage" result with VDict u => Some u | _ => None end.

(** The row of an answer, as accounting reads it. *)
Definition batch_row (p : prepared_row) : trace_row :=
  {| row_agent_id := id (pr_agent p); row_served_agent_id := ""; row_model_name := None;
     row_subtask := "Direct route (batched)"; row_usage := usage_of_result (pr_result p);
     row_output := VStr (content_of (pr_result p)) |}.

(** The run of a row: pending while there is no verdict. *)
Definition run_of_row (p : prepared_row) : workflow_run :=
  {| wr_id := pr_run_id p; wr_request_id := None; wr_prompt_text := VStr (pr_prompt p);
     wr_answer := VStr (content_of (pr_result p)); wr_trace := [batch_row p]; wr_tool_calls := VNone;
     wr_verification := v_base <$> pr_verdict p |}.

(** The gateway, the runs stored with the marker [pending_verification], and the
    local variables. *)
Record batch_state := {
  bs_gateway : gateway;
  bs_pending : gset string;
  bs_next : nat;                                          (* ids drawn *)
  bs_prepared : list (nat * prepared_row);
  bs_calls : list (ModelAgent * batch_requests * pyval);  (* calls that came back, for the theorems *)
}.

Abbreviation BATCH := (ST batch_state batch_error).

Definition bs_with_gateway (g : gateway) (s : batch_state) : batch_state :=
  {| bs_gateway := g; bs_pending := bs_pending s; bs_next := bs_next s; bs_prepared := bs_prepared s;
     bs_calls := bs_calls s |}.

Definition note_batch_call (a : ModelAgent) (requests : batch_requests) (value : pyval) (s : batch_state) : batch_state :=
  {| bs_gateway := bs_gateway s; bs_pending := bs_pending s; bs_next := bs_next s; bs_prepared := bs_prepared s;
     bs_calls := bs_calls s ++ [(a, requests, value)] |}.

Definition task_id (index : nat) : string := String.append "task_" (str_of_Z (Z.of_nat index)).

(** The index below [n] a custom id stands for. *)
Definition task_index (n : nat) (custom_id : string) : option nat :=
  List.find (λ i, String.eqb (task_id i) custom_id) (seq 0 n).

Section flow.
Context (bt : batch_env).

Definition bt_flow : conduct_env := cm_conduct (bt_complete bt).
Definition realtime : bool := realtime_judge (cm_policy (bt_complete bt)).

(** [_replace_workflow_run] of a run of this flow. *)
Definition replace_stored (r : workflow_run) (g : gateway) : gateway :=
  with_meter
    (_replace_workflow_run (ce_count_text bt_flow) (ce_sha256_hex bt_flow) (ce_decimal bt_flow) (ce_budget bt_flow)
       (re_candidates (ce_ranking bt_flow)) (rq_zdr_only (re_ctx (ce_ranking bt_flow))) false (ce_request_id bt_flow) r
       (gw_meter g))
    (gw_run_order g) g.

(** [_persist_pending_batch_row], and the three local entries. *)
Definition _persist_pending_batch_row (index : nat) (prompt : string) (a : ModelAgent) (result : dict) : BATCH unit := λ s,
  let p := {| pr_prompt := prompt; pr_agent := a; pr_result := result; pr_run_id := bt_run_id bt (bs_next s);
              pr_verdict := None |} in
  ({| bs_gateway := replace_stored (run_of_row p) (bs_gateway s);
      bs_pending := {[pr_run_id p]} ∪ bs_pending s; bs_next := S (bs_next s);
      bs_prepared := od_set index p (bs_prepared s); bs_calls := bs_calls s |}, Ok tt).

(** How many rows have their verdict. *)
Definition judged_rows (s : batch_state) : nat :=
  length (List.filter (λ ip, bool_decide (is_Some (pr_verdict ip.2))) (bs_prepared s)).

(** The verdict on a stored answer. *)
Definition batch_verdict (n : nat) (p : prepared_row) (g : gateway) : group_router * res batch_error verification :=
  let '(quality, v) :=
    _realtime_route_judge (ce_judge bt_flow) (now_ranking (ce_ranking bt_flow) g) (cm_policy (bt_complete bt))
      (lg_quality_cfg (re_ledgers (ce_ranking bt_flow))) (pr_prompt p) (content_of (pr_result p)) (id (pr_agent p)) None
      (usage_of_result (pr_result p)) false [] (bt_now bt n) (gw_quality g) in
  (quality, map_raise (λ m, BatchFlow (FlowValueError m)) v).

Definition with_verdict (v : verification) (p : prepared_row) : prepared_row :=
  {| pr_prompt := pr_prompt p; pr_agent := pr_agent p; pr_result := pr_result p; pr_run_id := pr_run_id p;
     pr_verdict := Some v |}.

(** [_finalize_batch_row]: the run is stored again without its marker, and only
    now is one of the completed runs. *)
Definition _finalize_batch_row (index : nat) (p : prepared_row) : BATCH workflow_run := λ s,
  let '(quality, v) := batch_verdict (judged_rows s) p (bs_gateway s) in
  let g := with_quality quality (bs_gateway s) in
  match v with
  | Raise e => (bs_with_gateway g s, Raise e)
  | Ok v =>
      let p := with_verdict v p in
      let g := replace_stored (run_of_row p) g in
      let g := with_meter (gw_meter g) (firstn RUN_ORDER_MAX (pr_run_id p :: gw_run_order g)) g in
      ({| bs_gateway := g; bs_pending := bs_pending s ∖ {[pr_run_id p]}; bs_next := bs_next s;
          bs_prepared := od_set index p (bs_prepared s); bs_calls := bs_calls s |}, Ok (run_of_row p))
  end.

Definition limited : bool :=
  bool_decide (is_Some (bc_max_output_tokens (ce_budget bt_flow))) ||
  bool_decide (is_Some (bc_max_cost_usd (ce_budget bt_flow))).

(** [self.budget_status()["exceeded"]], when a limit is set. *)
Definition over_budget (g : gateway) : bool :=
  limited && bb_exceeded (budget_status (ce_float_of_decimal bt_flow) (ce_budget bt_flow) (re_agents (ce_ranking bt_flow))
                            (gw_meter g)).

Definition spend_exceeded : batch_error := BatchFlow (FlowBudget BudgetExceeded).

(** [prompts] with the agent each one selects. *)
Definition select_agents (prompts : list string) (g : gateway) : res batch_error (list (string * ModelAgent)) :=
  map_res (λ prompt,
    map_raise (λ m, BatchFlow (FlowRuntimeError m))
      (pair prompt <$> _select_agent (now_ranking (ce_ranking bt_flow) g) prompt "worker" false [] [] None None)) prompts.

Definition user_message (prompt : string) : list message :=
  [[(VStr "role", VStr "user"); (VStr "content", VStr prompt)]].

(** [requests_by_agent]; [agents_by_id] keeps the last agent of an id. *)
Definition add_request (groups : list (string * (ModelAgent * batch_requests))) (e : nat * (string * ModelAgent))
    : list (string * (ModelAgent * batch_requests)) :=
  let '(index, (prompt, a)) := e in
  let requests := match od_get (id a) groups with Some (_, l) => l | None => [] end in
  od_set (id a) (a, od_set (task_id index) (user_message prompt) requests) groups.

Definition requests_by_agent (selected : list (string * ModelAgent)) : list (string * (ModelAgent * batch_requests)) :=
  fold_left add_request (imap pair selected) [].

Section selected.
Context (selected : list (string * ModelAgent)).

(** One result of a group that validated. *)
Definition store_result (a : ModelAgent) (kr : string * dict) : BATCH unit := λ s,
  match task_index (length selected) kr.1 with
  | Some index =>
      match od_get index (bs_prepared s), selected !! index with
      | Some _, _ => (s, Raise (BatchRuntimeError "batch provider returned a duplicate request identifier"))
      | None, Some (prompt, _) => _persist_pending_batch_row index prompt a kr.2 s
      | None, None => (s, Raise (BatchFlow FlowIndexError))
      end
  | None => (s, Raise (BatchRuntimeError "batch provider returned an invalid request identifier"))
  end.

(** One item of a response that did not: stored if it stands on its own. *)
Definition salvage_item (requests : batch_requests) (kv : pyval * pyval) : BATCH unit := λ s,
  match kv.1, result_content kv.2 with
  | VStr custom_id, Some (result, _) =>
      if in_strs custom_id requests.*1 then
        match task_index (length selected) custom_id with
        | Some index =>
            match od_get index (bs_prepared s), selected !! index with
            | None, Some (prompt, a) => _persist_pending_batch_row index prompt a result s
            | _, _ => (s, Ok tt)
            end
        | None => (s, Ok tt)
        end
      else (s, Ok tt)
  | _, _ => (s, Ok tt)
  end.

Definition store_results (a : ModelAgent) (requests : batch_requests) (value : pyval) : BATCH unit :=
  match _validate_batch_results requests value with
  | Ok results => let* _ := stm.mapM (store_result a) results in st.ret tt
  | Raise e =>
      let* _ := match value with VDict items => stm.mapM (salvage_item requests) items | _ => st.ret [] end in
      st.raise e
  end.

(** [for pending_index in prepared_rows: self._finalize_batch_row(...)]. *)
Definition finalize_prepared : BATCH unit := λ s,
  st.bind (stm.mapM (λ ip, _finalize_batch_row ip.1 ip.2) (bs_prepared s)) (λ _, st.ret tt) s.

(** One provider group: its budget checkpoint, its call, its answers. *)
Definition run_group (e : string * (ModelAgent * batch_requests)) : BATCH unit := λ s,
  let '(_, (a, requests)) := e in
  if over_budget (bs_gateway s)
  then st.bind (if realtime then st.ret tt else finalize_prepared) (λ _, st.raise spend_exceeded) s
  else
    match bt_client bt (length (bs_calls s)) a requests with
    | BatchRaised e => (s, Raise e)
    | BatchReturned value => store_results a requests value (note_batch_call a requests value s)
    end.

(** One prompt, judged in order. *)
Definition judge_row (index : nat) : BATCH workflow_run := λ s,
  if realtime && over_budget (bs_gateway s) then (s, Raise spend_exceeded)
  else
    match od_get index (bs_prepared s) with
    | Some p => _finalize_batch_row index p s
    | None => (s, Raise (BatchFlow (FlowKeyError (str_of_Z (Z.of_nat index)))))
    end.
End selected.

Definition batch_route (prompts : list string) : BATCH (list workflow_run) := λ s,
  match run_admission (bt_complete bt) (gw_meter (bs_gateway s)) with
  | Raise e => (s, Raise (BatchFlow e))
  | Ok _ =>
      match select_agents prompts (bs_gateway s) with
      | Raise e => (s, Raise e)
      | Ok selected =>
          st.bind (stm.mapM (run_group selected) (requests_by_agent selected)) (λ _,
            stm.mapM judge_row (seq 0 (length selected))) s
      end
  end.
End flow.

(** A flow begins with the runs of earlier ones and empty local variables. *)
Definition batch_start (g : gateway) (pending : gset string) (next : nat) : batch_state :=
  {| bs_gateway := g; bs_pending := pending; bs_next := next; bs_prepared := []; bs_calls := [] |}.

(** ** Dictionaries and identifiers *)

(** A present key keeps its place. *)
Lemma od_split `{EqDecision K} {V} (k : K) (v : V) d :
  od_get k d = Some v →
  ∃ d1 d2, d = d1 ++ (k, v) :: d2 ∧ (k ∉ d1.*1) ∧ ∀ w, od_set k w d = d1 ++ (k, w) :: d2.
Proof.
  induction d as [|[k' v'] d IH]; [done|]. cbn. destruct (decide (k = k')) as [<-|Hne].
  - intros [= ->]. exists [], d. split_and!; [done|apply not_elem_of_nil|done].
  - intros (d1 & d2 & -> & Hk & Hw)%IH. exists ((k', v') :: d1), d2. split_and!; [done| |].
    + cbn. by apply not_elem_of_cons.
    + intros w. cbn. by rewrite Hw.
Qed.

Lemma str_of_Z_inj a b : str_of_Z a = str_of_Z b → a = b.
Proof.
  intros H. pose proof (read_int_text a [] ltac:(done)) as Ha. pose proof (read_int_text b [] ltac:(done)) as Hb.
  rewrite H, Hb in Ha. by injection Ha.
Qed.

Lemma task_id_inj i j : task_id i = task_id j → i = j.
Proof. unfold task_id. intros H%append_inj%str_of_Z_inj. lia. Qed.

Lemma task_index_id n i : (i < n)%nat → task_index n (task_id i) = Some i.
Proof.
  intros Hi. unfold task_index. destruct (List.find _ (seq 0 n)) as [j|] eqn:Hf.
  - apply List.find_some in Hf as [_ Hj%String.eqb_eq]. by apply task_id_inj in Hj as ->.
  - assert (In i (seq 0 n)) as Hin by (apply in_seq; lia). apply (List.find_none _ _ Hf) in Hin.
    by rewrite String.eqb_refl in Hin.
Qed.

(** ** The groups *)

(** A group holds the tasks of its agent's prompts. *)
Record group_ok (selected : list (string * ModelAgent)) (n : nat) (g : string * (ModelAgent * batch_requests)) : Prop := {
  go_agent : id g.2.1 = g.1;
  go_tasks k : k ∈ g.2.2.*1 → ∃ i prompt b, k = task_id i ∧ (i < n)%nat ∧ selected !! i = Some (prompt, b) ∧ id b = g.1;
  go_nodup : NoDup g.2.2.*1;
}.

Record groups_ok (selected : list (string * ModelAgent)) (n : nat) (groups : list (string * (ModelAgent * batch_requests))) : Prop := {
  gs_keys : NoDup groups.*1;
  gs_all : Forall (group_ok selected n) groups;
  gs_cover i prompt b : (i < n)%nat → selected !! i = Some (prompt, b) →
    ∃ g, g ∈ groups ∧ g.1 = id b ∧ task_id i ∈ g.2.2.*1;
}.

Lemma add_request_ok selected groups n prompt a :
  selected !! n = Some (prompt, a) → groups_ok selected n groups →
  groups_ok selected (S n) (add_request groups (n, (prompt, a))).
Proof.
  intros Hn [Hk Hall Hcov]. unfold add_request. rewrite Forall_forall in Hall.
  set (requests := match od_get (id a) groups with Some (_, l) => l | None => [] end).
  set (g0 := (id a, (a, od_set (task_id n) (user_message prompt) requests))).
  assert (∀ k, k ∈ requests.*1 → ∃ i prompt b, k = task_id i ∧ (i < n)%nat ∧ selected !! i = Some (prompt, b) ∧ id b = id a) as Hreq.
  { intros k Hin. unfold requests in Hin. destruct (od_get (id a) groups) as [[b l]|] eqn:Hg; [|by apply elem_of_nil in Hin].
    apply od_get_Some_elem in Hg. exact (go_tasks _ _ _ (Hall _ Hg) k Hin). }
  assert (group_ok selected (S n) g0) as Hg0.
  { split; [done| |].
    - intros k Hin. unfold g0 in Hin. cbn [snd] in Hin. apply od_set_keys in Hin as [->|Hin].
      + exists n, prompt, a. split_and!; [done|lia|done|done].
      + destruct (Hreq k Hin) as (i & p & b & ? & ? & ? & ?). exists i, p, b. split_and!; [done|lia|done|done].
    - unfold g0. cbn [snd]. apply od_set_wf. unfold requests, od_wf. destruct (od_get (id a) groups) as [[b l]|] eqn:Hg; [|constructor].
      apply od_get_Some_elem in Hg. exact (go_nodup _ _ _ (Hall _ Hg)). }
  assert (∀ g, g ∈ od_set (id a) g0.2 groups → g = g0 ∨ g ∈ groups ∧ g.1 ≠ id a) as Hin.
  { intros [k v] Hg. assert (od_get k (od_set (id a) g0.2 groups) = Some v) as Hget by (apply od_get_in; [by apply od_set_wf|done]).
    rewrite od_get_set in Hget. case_decide as Hka; [left; subst k; by injection Hget as <-|]. right. split; [|done].
    by apply od_get_Some_elem. }
  split.
  - by apply od_set_wf.
  - apply Forall_forall. intros g [->|[Hg _]]%Hin; [done|]. destruct (Hall _ Hg) as [H1 H2 H3]. split; [done| |done].
    intros k (i & p & b & ? & ? & ? & ?)%H2. exists i, p, b. split_and!; [done|lia|done|done].
  - intros i p b Hi Hib. assert (g0 ∈ od_set (id a) g0.2 groups) as Hg0in.
    { apply od_get_Some_elem. by rewrite od_get_set, decide_True. }
    destruct (decide (i = n)) as [->|Hne].
    + exists g0. rewrite Hn in Hib. injection Hib as -> ->. split_and!; [done|done|]. cbn [snd g0]. apply od_set_keys. by left.
    + destruct (Hcov i p b ltac:(lia) Hib) as (g & Hg & Hgb & Ht). destruct (decide (g.1 = id a)) as [He|He].
      * exists g0. split_and!; [done|by rewrite <- Hgb, He|]. cbn [snd g0]. apply od_set_keys. right.
        unfold requests. destruct g as [gk [ga gr]]. cbn in He, Ht. subst gk. by rewrite (od_get_in _ _ _ Hk Hg).
      * exists g. split_and!; [|done|done]. destruct g as [gk gv]. cbn in He. apply od_get_Some_elem.
        rewrite od_get_set, decide_False by done. by apply od_get_in.
Qed.

Lemma requests_by_agent_ok selected : groups_ok selected (length selected) (requests_by_agent selected).
Proof.
  unfold requests_by_agent. assert (∀ l pre groups, selected = pre ++ l → groups_ok selected (length pre) groups →
    groups_ok selected (length selected) (fold_left add_request (imap (λ i x, (length pre + i, x)%nat) l) groups)) as H.
  { induction l as [|[prompt a] l IH]; intros pre groups Hs Hg; cbn.
    - rewrite app_nil_r in Hs. by rewrite Hs in Hg |- *.
    - rewrite Nat.add_0_r. specialize (IH (pre ++ [(prompt, a)]) (add_request groups (length pre, (prompt, a)))).
      rewrite <- app_assoc in IH. specialize (IH Hs). rewrite length_app, Nat.add_1_r in IH.
      replace (imap ((λ i x, (length pre + i, x)%nat) ∘ S) l) with (imap (λ i x, (S (length pre) + i, x)%nat) l)
        by (apply imap_ext; intros; cbn; f_equal; lia).
      apply IH, add_request_ok; [|done]. rewrite Hs, lookup_app_r, Nat.sub_diag by done. done. }
  replace (imap pair selected) with (imap (λ i x, (length ([] : list (string * ModelAgent)) + i, x)%nat) selected)
    by (apply imap_ext; done).
  apply H; [done|]. split; [constructor|constructor|]. cbn. lia.
Qed.

(** ** What the stored runs are *)

Lemma find_app {A} (f : A → bool) l1 l2 :
  List.find f (l1 ++ l2) = match List.find f l1 with Some x => Some x | None => List.find f l2 end.
Proof. induction l1 as [|x l1 IH]; cbn; [done|]. by destruct (f x). Qed.

Lemma meter_models_runs decimal cfg sign l : ∀ m, bm_runs (fold_left (meter_model decimal cfg sign) l m) = bm_runs m.
Proof. induction l as [|[model n] l IH]; intros m; cbn; [done|]. by rewrite IH. Qed.

Section stored.
Context (bt : batch_env) (g0 : gateway) (pend0 : gset string) (n0 : nat).

Abbreviation candidates := (re_candidates (ce_ranking (bt_flow bt))).
Context (Hcount : ∀ s m n, ce_count_text (bt_flow bt) s m = Some n → 0 <= n) (Hnamed : models_named candidates).

(** What is stored, and so charged, for a run of the flow. *)
Definition charge (r : workflow_run) : workflow_run :=
  stored_run (ce_count_text (bt_flow bt)) (ce_sha256_hex (bt_flow bt)) (rq_zdr_only (re_ctx (ce_ranking (bt_flow bt))))
    (bind_record candidates None false (ce_request_id (bt_flow bt)) r).

Lemma charge_id r : wr_id (charge r) = wr_id r.
Proof. unfold charge, stored_run. by destruct (rq_zdr_only _). Qed.

Lemma charge_request r : wr_request_id (charge r) = ce_request_id (bt_flow bt).
Proof. unfold charge, stored_run. by destruct (rq_zdr_only _). Qed.

(** A run replaces what its id names, none or a run of the same request. *)
Lemma replace_stored_runs r g :
  (bm_runs (gw_meter g) !! wr_id r = None ∨ ∃ p, bm_runs (gw_meter g) !! wr_id r = Some (charge p)) →
  bm_runs (gw_meter (replace_stored bt r g)) = <[wr_id r := charge r]> (bm_runs (gw_meter g)).
Proof.
  intros Hprev. unfold replace_stored, _replace_workflow_run. cbn [gw_meter with_meter with_run bm_runs].
  assert (bind_record candidates (bm_runs (gw_meter g) !! wr_id r) false (ce_request_id (bt_flow bt)) r =
          bind_record candidates None false (ce_request_id (bt_flow bt)) r) as ->.
  { destruct Hprev as [->|[p ->]]; [done|]. unfold bind_record. by rewrite charge_request. }
  assert (∀ r', wr_id (if rq_zdr_only (re_ctx (ce_ranking (bt_flow bt)))
    then _zdr_redact_workflow_record (ce_count_text (bt_flow bt)) (ce_sha256_hex (bt_flow bt)) r' else r') = wr_id r') as ->
    by (intros r'; by destruct (rq_zdr_only _)).
  unfold meter_run. rewrite meter_models_runs. cbn [bm_runs]. f_equal.
  destruct (bm_runs (gw_meter g) !! wr_id r); [|done]. by rewrite meter_models_runs.
Qed.

(** The meter holds what a rebuild from the stored runs would compute. *)
Definition books_balance (g : gateway) : Prop :=
  meter_ok (ce_count_text (bt_flow bt)) (ce_decimal (bt_flow bt)) (ce_budget (bt_flow bt)) (gw_meter g).

Lemma replace_accounted r g : judged_by_name r → books_balance g → books_balance (replace_stored bt r g).
Proof. apply replace_ok; [apply Hcount|apply Hnamed]. Qed.

(** Fresh ids: distinct, and no run has one. *)
Record fresh_ids : Prop := {
  fi_inj i j : bt_run_id bt i = bt_run_id bt j → i = j;
  fi_pending i : (n0 <= i)%nat → bt_run_id bt i ∉ pend0;
  fi_runs i : (n0 <= i)%nat → bm_runs (gw_meter g0) !! bt_run_id bt i = None;
}.

Context (Hfresh : fresh_ids).

Definition rows (s : batch_state) : list prepared_row := (bs_prepared s).*2.

Definition names (k : string) (p : prepared_row) : bool := String.eqb (pr_run_id p) k.

(** What the flow keeps from its start, in [g0], [pend0] and [n0]. *)
Record inv (s : batch_state) : Prop := {
  i_runs k : bm_runs (gw_meter (bs_gateway s)) !! k =
    match List.find (names k) (rows s) with
    | Some p => Some (charge (run_of_row p))
    | None => bm_runs (gw_meter g0) !! k
    end;
  i_ids : map pr_run_id (rows s) = map (bt_run_id bt) (seq n0 (length (bs_prepared s)));
  i_next : bs_next s = (n0 + length (bs_prepared s))%nat;
  i_keys : NoDup (bs_prepared s).*1;
  i_pending k : k ∈ bs_pending s ↔ k ∈ pend0 ∨ ∃ p, p ∈ rows s ∧ pr_run_id p = k ∧ pr_verdict p = None;
  i_order k : k ∈ gw_run_order (bs_gateway s) →
    k ∈ gw_run_order g0 ∨ ∃ p, p ∈ rows s ∧ pr_run_id p = k ∧ is_Some (pr_verdict p);
  i_meter : books_balance g0 → Forall (λ p, judged_by_name (run_of_row p)) (rows s) → books_balance (bs_gateway s);
}.

Lemma batch_start_inv : inv (batch_start g0 pend0 n0).
Proof.
  split; try done.
  - constructor.
  - intros k. split; [by left|]. intros [?|(p & Hp & _)]; [done|by apply elem_of_nil in Hp].
  - by left.
Qed.

Lemma ids_nodup s : inv s → NoDup (map pr_run_id (rows s)).
Proof.
  intros Hs. rewrite (i_ids s Hs). apply NoDup_fmap_2_strong; [intros i j _ _; apply (fi_inj Hfresh)|].
  apply NoDup_ListNoDup, seq_NoDup.
Qed.

Lemma row_id_from s p : inv s → p ∈ rows s → ∃ i, (n0 <= i)%nat ∧ pr_run_id p = bt_run_id bt i.
Proof.
  intros Hs Hp. assert (pr_run_id p ∈ map (bt_run_id bt) (seq n0 (length (bs_prepared s)))) as Hin
    by (rewrite <- (i_ids s Hs); apply list_elem_of_fmap; by exists p).
  apply list_elem_of_fmap in Hin as (i & Hi & Hin). exists i. split; [|done]. apply list_elem_of_In, in_seq in Hin. lia.
Qed.

Lemma find_none k l : k ∉ map pr_run_id l → List.find (names k) l = None.
Proof.
  induction l as [|p l IH]; cbn; [done|]. rewrite not_elem_of_cons. intros [Hk Hl]. unfold names at 1.
  destruct (String.eqb_spec (pr_run_id p) k); [congruence|]. by apply IH.
Qed.

(** Storing an answer. *)
Definition pending_row (s : batch_state) (prompt : string) (a : ModelAgent) (result : dict) : prepared_row :=
  {| pr_prompt := prompt; pr_agent := a; pr_result := result; pr_run_id := bt_run_id bt (bs_next s); pr_verdict := None |}.

Lemma persist_inv s index prompt a result :
  inv s → index ∉ (bs_prepared s).*1 →
  let s' := (_persist_pending_batch_row bt index prompt a result s).1 in
  inv s' ∧ bs_prepared s' = bs_prepared s ++ [(index, pending_row s prompt a result)] ∧ bs_calls s' = bs_calls s.
Proof.
  intros Hs Hidx s'. set (p := pending_row s prompt a result).
  assert (bs_prepared s' = bs_prepared s ++ [(index, p)]) as Hp by (by apply od_set_new).
  split; [|done]. assert (rows s' = rows s ++ [p]) as Hrows by (unfold rows; by rewrite Hp, fmap_app).
  assert (pr_run_id p ∉ map pr_run_id (rows s)) as Hnew.
  { rewrite (i_ids s Hs). intros (i & Hi & Hin)%list_elem_of_fmap. apply (fi_inj Hfresh) in Hi. subst i.
    rewrite (i_next s Hs) in Hin. apply list_elem_of_In, in_seq in Hin. lia. }
  assert (bm_runs (gw_meter (bs_gateway s)) !! pr_run_id p = None) as Hnone.
  { rewrite (i_runs s Hs), find_none by done. apply (fi_runs Hfresh). rewrite (i_next s Hs). lia. }
  assert (bm_runs (gw_meter (bs_gateway s')) = <[pr_run_id p := charge (run_of_row p)]> (bm_runs (gw_meter (bs_gateway s)))) as Hruns.
  { cbn [s' _persist_pending_batch_row fst bs_gateway]. fold p. by rewrite replace_stored_runs by (left; done). }
  destruct Hs as [Hr Hi Hn Hk Hpd Ho Hm]. split.
  - intros k. rewrite Hruns, Hrows, find_app. cbn [List.find]. unfold names at 2.
    destruct (String.eqb_spec (pr_run_id p) k) as [<-|Hne].
    + by rewrite lookup_insert_eq, find_none.
    + rewrite lookup_insert_ne by done. rewrite Hr. by destruct (List.find _ _).
  - rewrite Hrows, Hp, length_app, seq_app, !List.map_app, Hi. cbn. by rewrite Hn.
  - change (bs_next s') with (S (bs_next s)). rewrite Hp, length_app, Hn. cbn. lia.
  - rewrite Hp, fmap_app. apply NoDup_app. split_and!; [done| |apply NoDup_singleton].
    intros i Hin ->%list_elem_of_singleton. done.
  - intros k. rewrite Hrows. change (bs_pending s') with ({[pr_run_id p]} ∪ bs_pending s). rewrite elem_of_union, elem_of_singleton, Hpd.
    split.
    + intros [->|[?|(q & Hq & ? & ?)]]; [right; exists p|by left|right; exists q]; (split; [set_solver|done]).
    + intros [?|(q & [Hq| ->%list_elem_of_singleton]%elem_of_app & ? & ?)]; [by right; left|right; right; by exists q|by left].
  - intros k. rewrite Hrows. change (gw_run_order (bs_gateway s')) with (gw_run_order (bs_gateway s)).
    intros [?|(q & Hq & ? & ?)]%Ho; [by left|]. right. exists q. split; [set_solver|done].
  - rewrite Hrows. intros H0 [Hrest _]%Forall_app. change (bs_gateway s') with (replace_stored bt (run_of_row p) (bs_gateway s)).
    apply replace_accounted; [done|]. by apply Hm.
Qed.

Lemma quality_inv s q : inv s → inv (bs_with_gateway (with_quality q (bs_gateway s)) s).
Proof. by intros [? ? ? ? ? ? ?]; split. Qed.

(** Judging a row that is pending. *)
Lemma finalize_inv s index p :
  inv s → od_get index (bs_prepared s) = Some p → pr_verdict p = None →
  let '(s', out) := _finalize_batch_row bt index p s in
  inv s' ∧ bs_calls s' = bs_calls s ∧
  match out with
  | Ok r => ∃ v, r = run_of_row (with_verdict v p) ∧ bs_prepared s' = od_set index (with_verdict v p) (bs_prepared s)
  | Raise _ => bs_prepared s' = bs_prepared s
  end.
Proof.
  intros Hs Hget Hpend. unfold _finalize_batch_row. destruct (batch_verdict bt (judged_rows s) p (bs_gateway s)) as [q [v|e]];
    [|split_and!; [by apply quality_inv|done|done]].
  set (p' := with_verdict v p). set (g := replace_stored bt (run_of_row p') (with_quality q (bs_gateway s))).
  split_and!; [|done|by exists v]. destruct (od_split index p _ Hget) as (d1 & d2 & Hd & _ & Hset).
  assert (rows s = d1.*2 ++ p :: d2.*2) as Hrows by (unfold rows; by rewrite Hd, fmap_app).
  pose proof (ids_nodup s Hs) as Hnd. rewrite Hrows, List.map_app in Hnd. cbn [map] in Hnd.
  apply NoDup_app in Hnd as (_ & Hd1 & [Hd2 _]%NoDup_cons).
  assert (pr_run_id p ∉ map pr_run_id d1.*2) as Hnot1 by (intros Hin; apply (Hd1 _ Hin); by left). clear Hd1.
  destruct (row_id_from s p Hs) as (i & Hi & Hid); [rewrite Hrows; set_solver|].
  assert (∀ k, List.find (names k) (d1.*2 ++ p :: d2.*2) = if decide (k = pr_run_id p) then Some p
                 else List.find (names k) (d1.*2 ++ d2.*2)) as Hfind.
  { intros k. rewrite !find_app. cbn. unfold names at 2. destruct (String.eqb_spec (pr_run_id p) k) as [<-|Hne].
    - rewrite decide_True by done. by rewrite find_none.
    - by rewrite decide_False. }
  assert (∀ k, List.find (names k) (d1.*2 ++ p' :: d2.*2) = if decide (k = pr_run_id p) then Some p'
                 else List.find (names k) (d1.*2 ++ d2.*2)) as Hfind'.
  { intros k. rewrite !find_app. cbn. unfold names at 2. cbn [pr_run_id p' with_verdict]. destruct (String.eqb_spec (pr_run_id p) k) as [<-|Hne].
    - rewrite decide_True by done. by rewrite find_none.
    - by rewrite decide_False. }
  destruct Hs as [Hr Hids Hn Hk Hpd Ho Hm].
  assert (bm_runs (gw_meter g) = <[pr_run_id p := charge (run_of_row p')]> (bm_runs (gw_meter (bs_gateway s)))) as Hruns.
  { unfold g. rewrite replace_stored_runs; [done|]. right. exists (run_of_row p). cbn [gw_meter with_quality wr_id run_of_row pr_run_id p' with_verdict].
    by rewrite Hr, Hrows, Hfind, decide_True. }
  assert (rows {| bs_gateway := with_meter (gw_meter g) (firstn RUN_ORDER_MAX (pr_run_id p' :: gw_run_order g)) g;
    bs_pending := bs_pending s ∖ {[pr_run_id p']}; bs_next := bs_next s; bs_prepared := od_set index p' (bs_prepared s);
    bs_calls := bs_calls s |} = d1.*2 ++ p' :: d2.*2) as Hrows' by (unfold rows; cbn; by rewrite Hset, fmap_app).
  split; rewrite ?Hrows'; cbn [bs_gateway bs_prepared bs_pending bs_next gw_meter gw_run_order with_meter].
  - intros k. rewrite Hruns, Hfind'. destruct (decide (k = pr_run_id p)) as [->|Hne]; [by rewrite lookup_insert_eq|].
    rewrite lookup_insert_ne by done. by rewrite Hr, Hrows, Hfind, decide_False.
  - rewrite Hset. rewrite Hrows, Hd in Hids. rewrite !length_app, !List.map_app in *. exact Hids.
  - rewrite Hset, Hn, Hd, !length_app. done.
  - by apply od_set_wf.
  - intros k. rewrite elem_of_difference, elem_of_singleton, Hpd, Hrows. cbn [pr_run_id p' with_verdict]. split.
    + intros [[?|(x & [Hx|[->|Hx]%elem_of_cons]%elem_of_app & ? & ?)] Hne]; [by left| |congruence|];
        right; exists x; (split; [|done]); rewrite elem_of_app, elem_of_cons; tauto.
    + assert (∀ x, x ∈ d1.*2 ++ d2.*2 → pr_run_id x ≠ pr_run_id p) as Hothers.
      { intros x [Hx|Hx]%elem_of_app Heq; [apply Hnot1|apply Hd2]; rewrite <- Heq; apply list_elem_of_fmap; by exists x. }
      intros [Hk0|(x & [Hx|[->|Hx]%elem_of_cons]%elem_of_app & <- & ?)]; [|split|done|split].
      * split; [by left|]. intros ->. rewrite Hid in Hk0. by apply (fi_pending Hfresh i Hi).
      * right. exists x. split; [set_solver|done].
      * apply Hothers. set_solver.
      * right. exists x. split; [set_solver|done].
      * apply Hothers. set_solver.
  - intros k Hin%elem_of_take. assert (k ∈ pr_run_id p :: gw_run_order (bs_gateway s)) as [->|Hin']%elem_of_cons by (destruct Hin as (j & Hj & _); eapply list_elem_of_lookup_2; exact Hj).
    + right. exists p'. split; [set_solver|]. split; [done|by eexists].
    + apply Ho in Hin' as [?|(x & Hx & ? & [w Hw])]; [by left|right]. rewrite Hrows in Hx. exists x. split; [|by eauto].
      apply elem_of_app in Hx as [Hx|[->|Hx]%elem_of_cons]; [set_solver|congruence|set_solver].
  - intros H0 [Hf1 [Hp' Hf2]%Forall_cons]%Forall_app. change (books_balance g). apply replace_accounted; [done|].
    apply Hm; [done|]. rewrite Hrows. apply Forall_app. split; [done|]. apply Forall_cons. split; [|done].
    unfold judged_by_name. cbn. by rewrite Hpend.
Qed.

(** ** What the provider was paid for *)

(** The answers of a call that stand on their own, whatever the others are. *)
Definition valid_items (requests : batch_requests) (value : pyval) : list (string * dict) :=
  match value with
  | VDict items =>
      omap (λ kv : pyval * pyval,
        match kv.1, result_content kv.2 with
        | VStr k, Some (d, _) => if in_strs k requests.*1 then Some (k, d) else None
        | _, _ => None
        end) items
  | _ => []
  end.

Definition paid (c : ModelAgent * batch_requests * pyval) : list (string * dict) :=
  map (λ kd, (id c.1.1, kd.2)) (valid_items c.1.2 c.2).

(** The rows by agent and answer. *)
Definition row_answer (p : prepared_row) : string * dict := (id (pr_agent p), pr_result p).

(** A dictionary has each key once. *)
Definition proper_dict (value : pyval) : Prop := match value with VDict items => NoDup items.*1 | _ => True end.

Lemma valid_key requests items x : x ∈ (valid_items requests (VDict items)).*1 → VStr x ∈ items.*1.
Proof.
  intros ([y d] & -> & ([k' v'] & Hin & Hy)%list_elem_of_omap)%list_elem_of_fmap. cbn in Hy.
  destruct k' as [| | | |k'| | |]; try done. destruct (result_content v') as [[? ?]|]; [|done].
  destruct (in_strs k' _); [|done]. injection Hy as -> _. apply list_elem_of_fmap. by exists (VStr y, v').
Qed.

Lemma valid_nodup requests items : NoDup items.*1 → NoDup (valid_items requests (VDict items)).*1.
Proof.
  induction items as [|[k v] items IH]; [constructor|]. cbn [fmap list_fmap]. intros [Hk Hnd]%NoDup_cons.
  specialize (IH Hnd). cbn [valid_items omap list_omap fst snd].
  destruct k as [| | | |k| | |]; try exact IH. destruct (result_content v) as [[d t]|]; [|exact IH].
  destruct (in_strs k requests.*1); [|exact IH]. cbn [fmap list_fmap fst]. apply NoDup_cons. split; [|exact IH].
  intros Hv. apply Hk. cbn [fst]. by apply (valid_key requests).
Qed.

Lemma finalize_answered s index p v :
  od_get index (bs_prepared s) = Some p →
  map row_answer (od_set index (with_verdict v p) (bs_prepared s)).*2 = map row_answer (rows s).
Proof.
  intros (d1 & d2 & Hd & _ & Hset)%od_split. unfold rows.
  change (@map prepared_row (string * dict) row_answer) with (fmap (M := list) row_answer). by rewrite Hset, Hd, !fmap_app.
Qed.

Section calls.
Context (selected : list (string * ModelAgent)).

Abbreviation tasks_of requests := (λ i, task_id i ∈ (requests : batch_requests).*1).

(** The rows an answer list adds. *)
Record added (requests : batch_requests) (l : list (string * dict)) (a : ModelAgent) (s s' : batch_state) : Prop := {
  ad_inv : inv s';
  ad_calls : bs_calls s' = bs_calls s;
  ad_rows : ∃ new, bs_prepared s' = bs_prepared s ++ new ∧ Forall (λ ip, pr_verdict ip.2 = None) new ∧
    map (λ ip, row_answer ip.2) new = map (λ kd, (id a, kd.2)) l ∧ map (λ ip, task_id ip.1) new = l.*1 ∧
    Forall (λ ip : nat * prepared_row, ∃ b, selected !! ip.1 = Some (pr_prompt ip.2, b) ∧ id (pr_agent ip.2) = id b ∧ id b = id a) new;
}.

Lemma added_nil requests a s : inv s → added requests [] a s s.
Proof. intros Hs. split; [done|done|]. exists []. by rewrite app_nil_r. Qed.

Lemma added_cons requests k i prompt b c d l a s s' :
  k = task_id i → selected !! i = Some (prompt, b) → id b = id a → id c = id a → inv s → i ∉ (bs_prepared s).*1 →
  added requests l a (_persist_pending_batch_row bt i prompt c d s).1 s' →
  added requests ((k, d) :: l) a s s'.
Proof.
  intros -> Hi Hb Hc Hs Hn [H1 H2 (new & Hp & Hv & Ha & Ht & Hf)].
  destruct (persist_inv s i prompt c d Hs Hn) as (_ & Hp1 & Hc1). split; [done|congruence|].
  exists ((i, pending_row s prompt c d) :: new). rewrite Hp, Hp1, <- app_assoc. split_and!; [done|by constructor| | |].
  - cbn [map]. rewrite Ha. unfold row_answer. cbn. by rewrite Hc.
  - cbn [map]. by rewrite Ht.
  - constructor; [|done]. exists b. cbn. by rewrite Hc, Hb.
Qed.

(** No task of the group was answered before. *)
Definition open_tasks (requests : batch_requests) (keys : list string) (s : batch_state) : Prop :=
  ∀ i, task_id i ∈ keys → i ∉ (bs_prepared s).*1.

Lemma open_tasks_after requests s index prompt a d k keys :
  k = task_id index → NoDup (k :: keys) → inv s → open_tasks requests (k :: keys) s →
  open_tasks requests keys (_persist_pending_batch_row bt index prompt a d s).1.
Proof.
  intros -> [Hk _]%NoDup_cons Hs Ho i Hi. assert (index ∉ (bs_prepared s).*1) as Hn by (apply Ho; by left).
  destruct (persist_inv s index prompt a d Hs Hn) as (_ & -> & _). rewrite fmap_app, elem_of_app. cbn.
  intros [?|H]; [by apply (Ho i); [right|]|]. apply list_elem_of_singleton in H as ->. done.
Qed.

Context (n : nat) (Hn : n = length selected).

Lemma store_results_added requests a l : ∀ s,
  group_ok selected n (id a, (a, requests)) → NoDup l.*1 → (∀ k, k ∈ l.*1 → k ∈ requests.*1) →
  inv s → open_tasks requests l.*1 s →
  ∃ s', stm.mapM (store_result bt selected a) l s = (s', Ok (map (λ _, tt) l)) ∧ added requests l a s s'.
Proof.
  induction l as [|[k d] l IH]; intros s Hg Hnd Hsub Hs Ho; [exists s; split; [done|by apply added_nil]|].
  cbn [fmap list_fmap fst] in Hnd, Hsub, Ho.
  destruct (go_tasks _ _ _ Hg k) as (i & prompt & b & -> & Hi & Hsel & Hb); [apply Hsub; by left|]. cbn [snd fst] in Hb.
  assert (i ∉ (bs_prepared s).*1) as Hni by (apply Ho; by left).
  assert (store_result bt selected a (task_id i, d) s = ((_persist_pending_batch_row bt i prompt a d s).1, Ok tt)) as Hstep.
  { unfold store_result. cbn [fst]. rewrite <- Hn, task_index_id, (proj2 (od_get_None _ _) Hni), Hsel by done. done. }
  destruct (persist_inv s i prompt a d Hs Hni) as (Hs1 & _ & _).
  destruct (IH (_persist_pending_batch_row bt i prompt a d s).1 Hg) as (s' & Hm & Had);
    [by apply NoDup_cons in Hnd as [_ ?]|intros k Hin; apply Hsub; right; exact Hin|exact Hs1|eapply open_tasks_after; [reflexivity|exact Hnd|exact Hs|exact Ho]|].
  exists s'. split; [|exact (added_cons requests (task_id i) i prompt b a d l a s s' eq_refl Hsel Hb eq_refl Hs Hni Had)]. cbn [stm.mapM]. unfold st.bind. rewrite Hstep. cbn [map].
  by rewrite Hm.
Qed.

Lemma salvage_added requests a items : ∀ s,
  group_ok selected n (id a, (a, requests)) → NoDup items.*1 → inv s →
  open_tasks requests (valid_items requests (VDict items)).*1 s →
  ∃ s' out, stm.mapM (salvage_item bt selected requests) items s = (s', Ok out) ∧
    added requests (valid_items requests (VDict items)) a s s'.
Proof.
  induction items as [|[k v] items IH]; intros s Hg Hnd Hs Ho; [exists s, []; split; [done|by apply added_nil]|].
  cbn [fmap list_fmap] in Hnd. pose proof Hnd as [Hk Hnd']%NoDup_cons.
  cbn [valid_items omap list_omap fst snd] in *. cbn [stm.mapM]. unfold st.bind at 1, salvage_item at 1. cbn [fst snd].
  destruct k as [| | | |k| | |]; try (destruct (IH s Hg Hnd' Hs Ho) as (s' & out & Hm & Had); exists s', (tt :: out);
    unfold st.bind; by rewrite Hm).
  destruct (result_content v) as [[d t]|]; [|destruct (IH s Hg Hnd' Hs Ho) as (s' & out & Hm & Had); exists s', (tt :: out);
    unfold st.bind; by rewrite Hm].
  destruct (in_strs k requests.*1) eqn:Hin; [|destruct (IH s Hg Hnd' Hs Ho) as (s' & out & Hm & Had); exists s', (tt :: out);
    unfold st.bind; by rewrite Hm].
  apply in_strs_spec in Hin. destruct (go_tasks _ _ _ Hg k Hin) as (i & prompt & b & -> & Hi & Hsel & Hb). cbn [fst] in Hb.
  cbn [fmap list_fmap fst] in Ho. assert (i ∉ (bs_prepared s).*1) as Hni by (apply Ho; by left).
  rewrite <- Hn, task_index_id, (proj2 (od_get_None _ _) Hni), Hsel by done.
  destruct (persist_inv s i prompt b d Hs Hni) as (Hs1 & _ & _).
  destruct (IH (_persist_pending_batch_row bt i prompt b d s).1 Hg Hnd' Hs1) as (s' & out & Hm & Had).
  { eapply open_tasks_after; [done| |done|exact Ho]. apply NoDup_cons. split; [|by apply valid_nodup].
    intros Hv%valid_key. done. }
  exists s', (tt :: out). destruct (_persist_pending_batch_row bt i prompt b d s) as [s1 [[]|e]] eqn:Hp; [|done]. cbn [fst] in *.
  unfold st.bind. rewrite Hm. split; [done|]. apply (added_cons requests (task_id i) i prompt b b d _ a s s' eq_refl Hsel Hb Hb Hs Hni). by rewrite Hp.
Qed.

Lemma validated requests value results :
  proper_dict value → _validate_batch_results requests value = Ok results →
  valid_items requests value = results ∧ NoDup results.*1 ∧ (∀ k, k ∈ results.*1 ↔ k ∈ requests.*1).
Proof.
  unfold _validate_batch_results. destruct value as [| | | | | | |items]; try done. cbn [proper_dict]. intros Hnd.
  destruct (same_ids requests items) eqn:Hsame; [|done]. cbn [negb].
  destruct (mapM _ items) as [l|] eqn:Hm; [|done]. intros [= <-].
  apply andb_true_iff in Hsame as [Hin Hall]. rewrite forallb_forall in Hin, Hall.
  assert (valid_items requests (VDict items) = l ∧ map VStr l.*1 = items.*1) as [Hv Hk].
  { assert (∀ kv, kv ∈ items → match kv.1 with VStr k => in_strs k requests.*1 | _ => false end = true) as Hin'
      by (intros kv Hkv; apply Hin; by apply list_elem_of_In). clear Hin Hall Hnd.
    revert l Hm. induction items as [|[k v] items IH]; intros l Hm; cbn in Hm; [by injection Hm as <-|].
    specialize (IH ltac:(intros kv Hkv; apply Hin'; by right)). specialize (Hin' (k, v) ltac:(by left)). cbn in Hin'.
    destruct k as [| | | |k| | |]; try done. cbn in Hm. destruct (result_content v) as [[d t]|] eqn:Hc; [|done]. cbn in Hm.
    destruct (mapM _ items) as [l'|] eqn:Hl; [|done]. injection Hm as <-. destruct (IH l' eq_refl) as [Hv Hk].
    cbn [valid_items omap list_omap fst snd]. rewrite Hc, Hin'. cbn. rewrite Hk. split; [|done]. f_equal. exact Hv. }
  assert (∀ k, k ∈ l.*1 ↔ VStr k ∈ items.*1) as Hkey.
  { intros k. rewrite <- Hk. split; [intros H; apply list_elem_of_fmap; by exists k|].
    intros (k' & [= ->] & H)%list_elem_of_fmap. done. }
  split; [done|]. split; [rewrite <- Hv; by apply valid_nodup|]. intros k. rewrite Hkey. split.
  - intros ([k' v] & Hkk & Hkv)%list_elem_of_fmap. cbn in Hkk. subst k'. apply list_elem_of_In in Hkv. apply Hin in Hkv.
    by apply in_strs_spec in Hkv.
  - intros Hkr. apply list_elem_of_In, Hall, bool_decide_eq_true in Hkr as [v Hg]. clear -Hg.
    induction items as [|[k' v'] items IH]; cbn in *; [done|]. destruct (key_is k k') eqn:He.
    + destruct k'; try done. apply String.eqb_eq in He as ->. by left.
    + right. by apply IH.
Qed.

(** ** The flow keeps count *)

Record good (s : batch_state) : Prop := {
  gd_inv : inv s;
  gd_paid : map row_answer (rows s) = flat_map paid (bs_calls s);
}.

(** The groups [done] answered, and nothing judged yet. *)
Record batch_progress (done : list (string * (ModelAgent * batch_requests))) (s : batch_state) : Prop := {
  pg_good : good s;
  pg_pending : Forall (λ ip, pr_verdict ip.2 = None) (bs_prepared s);
  pg_rows : Forall (λ ip : nat * prepared_row, ∃ b, selected !! ip.1 = Some (pr_prompt ip.2, b) ∧
              id (pr_agent ip.2) = id b ∧ id b ∈ done.*1) (bs_prepared s);
  pg_done g k : g ∈ done → k ∈ g.2.2.*1 → ∃ i, k = task_id i ∧ i ∈ (bs_prepared s).*1;
}.

Lemma finalize_good s index p s' out :
  good s → od_get index (bs_prepared s) = Some p → pr_verdict p = None →
  _finalize_batch_row bt index p s = (s', out) →
  good s' ∧ match out with
            | Ok r => ∃ v, r = run_of_row (with_verdict v p) ∧ bs_prepared s' = od_set index (with_verdict v p) (bs_prepared s)
            | Raise _ => True
            end.
Proof.
  intros [Hs Hp] Hget Hv Hf. pose proof (finalize_inv s index p Hs Hget Hv) as H. rewrite Hf in H.
  destruct H as (Hs' & Hc & Hout). destruct out as [r|e].
  - destruct Hout as (v & -> & Hset). split; [|by exists v]. split; [done|]. rewrite Hc, <- Hp. unfold rows at 1. rewrite Hset.
    by apply finalize_answered.
  - split; [|done]. split; [done|]. rewrite Hc, <- Hp. unfold rows. by rewrite Hout.
Qed.

Lemma finalize_all l : ∀ s s' out,
  good s → NoDup l.*1 → (∀ ip, ip ∈ l → od_get ip.1 (bs_prepared s) = Some ip.2 ∧ pr_verdict ip.2 = None) →
  stm.mapM (λ ip, _finalize_batch_row bt ip.1 ip.2) l s = (s', out) → good s'.
Proof.
  induction l as [|[i p] l IH]; intros s s' out Hg Hnd Hl; cbn [stm.mapM]; [by intros [= <- _]|].
  unfold st.bind. cbn [fst snd]. destruct (_finalize_batch_row bt i p s) as [s1 r] eqn:Hf.
  destruct (Hl (i, p)) as [Hget Hv]; [by left|].
  destruct (finalize_good s i p s1 r Hg Hget Hv Hf) as [Hg1 Hr]. destruct r as [r|e]; [|by intros [= <- _]].
  destruct Hr as (v & -> & Hset). cbn [fmap list_fmap fst] in Hnd. apply NoDup_cons in Hnd as [Hi Hnd].
  destruct (stm.mapM _ l s1) as [s2 o2] eqn:Hm. intros H. assert (s2 = s') as -> by (by destruct o2; injection H as -> _).
  eapply IH; [exact Hg1|exact Hnd| |exact Hm]. intros [j q] Hj. destruct (Hl (j, q)) as [Hj1 Hj2]; [by right|].
  cbn [fst snd] in *. split; [|done]. rewrite Hset, od_get_set, decide_False; [done|]. intros ->. apply Hi.
  apply list_elem_of_fmap. by exists (i, q).
Qed.

Definition proper_client : Prop :=
  ∀ i a requests value, NoDup requests.*1 → bt_client bt i a requests = BatchReturned value → proper_dict value.

Lemma added_good done0 a requests value l s s' :
  good s → added requests l a (note_batch_call a requests value s) s' → l = valid_items requests value →
  good s' ∧
  (batch_progress done0 s → (∀ k, k ∈ requests.*1 → k ∈ l.*1) → batch_progress (done0 ++ [(id a, (a, requests))]) s').
Proof.
  intros [Hs Hp] [H1 H2 (new & Hpn & Hv & Ha & Ht & Hf)] ->. cbn in Hpn, H2. split.
  - split; [done|]. unfold rows. rewrite Hpn, fmap_app, List.map_app, H2, flat_map_app, <- Hp. f_equal. cbn. rewrite app_nil_r.
    unfold paid. cbn. rewrite <- Ha. clear. induction new as [|ip new IH]; cbn; [done|]. by rewrite IH.
  - intros [_ Hpend Hrows Hdone] Hall. split.
    + split; [done|]. unfold rows. rewrite Hpn, fmap_app, List.map_app, H2, flat_map_app, <- Hp. f_equal. cbn. rewrite app_nil_r.
      unfold paid. cbn. rewrite <- Ha. clear. induction new as [|ip new IH]; cbn; [done|]. by rewrite IH.
    + rewrite Hpn. by apply Forall_app.
    + rewrite Hpn. apply Forall_app. split; (eapply Forall_impl; [eassumption|]); cbn.
      * intros ip (b & Hb & Hi & Hd). exists b. split_and!; [done|done|]. rewrite fmap_app. apply elem_of_app. by left.
      * intros ip (b & Hb & Hi & Hd). exists b. split_and!; [done|done|]. rewrite fmap_app. apply elem_of_app. right. rewrite Hd. by left.
    + intros g k [Hg|Hg]%elem_of_app Hk.
      * destruct (Hdone g k Hg Hk) as (i & -> & Hi). exists i. split; [done|]. rewrite Hpn, fmap_app. apply elem_of_app. by left.
      * apply list_elem_of_singleton in Hg as ->. cbn in Hk. apply Hall in Hk. rewrite <- Ht in Hk.
        apply list_elem_of_fmap in Hk as (ip & -> & Hip). exists ip.1. split; [done|]. rewrite Hpn, fmap_app. apply elem_of_app. right.
        apply list_elem_of_fmap. by exists ip.
Qed.

Lemma run_group_spec done0 a requests s s' out :
  proper_client → group_ok selected n (id a, (a, requests)) → id a ∉ done0.*1 → batch_progress done0 s →
  run_group bt selected (id a, (a, requests)) s = (s', out) →
  good s' ∧ (∀ x, out = Ok x → batch_progress (done0 ++ [(id a, (a, requests))]) s').
Proof.
  intros Hclient Hgrp Hnew Hprog. pose proof (pg_good _ _ Hprog) as Hg. unfold run_group.
  destruct (over_budget bt (bs_gateway s)).
  { unfold st.bind. destruct (realtime bt); [by intros [= <- <-]|]. unfold finalize_prepared, st.bind.
    destruct (stm.mapM _ (bs_prepared s) s) as [s1 o1] eqn:Hm.
    assert (good s1) as Hg1.
    { eapply finalize_all; [exact Hg|apply (i_keys s (gd_inv s Hg))| |exact Hm]. intros [i p] Hip. split.
      - apply od_get_in; [apply (i_keys s (gd_inv s Hg))|done].
      - pose proof (pg_pending _ _ Hprog) as Hpend. rewrite Forall_forall in Hpend. by apply (Hpend (i, p)). }
    destruct o1; by intros [= <- <-]. }
  destruct (bt_client bt (length (bs_calls s)) a requests) as [value|e] eqn:Hcall; [|by intros [= <- <-]].
  apply Hclient in Hcall; [|exact (go_nodup _ _ _ Hgrp)]. set (s0 := note_batch_call a requests value s).
  assert (inv s0) as Hs0 by (destruct Hg as [[? ? ? ? ? ? ?] _]; by split).
  assert (∀ keys, (∀ k, k ∈ keys → k ∈ requests.*1) → open_tasks requests keys s0) as Hopen.
  { intros keys Hk i Hi Hin. cbn in Hin. apply list_elem_of_fmap in Hin as (ip & -> & Hip).
    pose proof (pg_rows _ _ Hprog) as Hr. rewrite Forall_forall in Hr. destruct (Hr _ Hip) as (b & Hb & _ & Hd).
    apply Hk in Hi. destruct (go_tasks _ _ _ Hgrp _ Hi) as (j & prompt & c & Hj%task_id_inj & _ & Hc & Hca). subst j.
    rewrite Hb in Hc. injection Hc as _ <-. cbn in Hca. apply Hnew. by rewrite <- Hca. }
  unfold store_results, st.bind. destruct (_validate_batch_results requests value) as [results|e] eqn:Hval.
  - destruct (validated requests value results Hcall Hval) as (Hv & Hnd & Hkeys).
    destruct (store_results_added requests a results s0 Hgrp Hnd) as (s1 & -> & Had);
      [intros k ?; by apply Hkeys|done|apply Hopen; intros k ?; by apply Hkeys|].
    intros [= <- <-]. destruct (added_good done0 a requests value results s s1 Hg Had) as [H1 H2]; [done|].
    split; [done|]. intros _ _. apply H2; [done|]. intros k ?. by apply Hkeys.
  - destruct value as [| | | | | | |items]; try (intros [= <- <-]; split; [|done]; split; [done|];
      cbn; rewrite flat_map_app; cbn; by rewrite app_nil_r, <- (gd_paid s Hg)).
    destruct (salvage_added requests a items s0 Hgrp Hcall Hs0) as (s1 & o1 & -> & Had).
    { apply Hopen. intros k Hk. clear -Hk. destruct (valid_items requests (VDict items)) eqn:E; [by apply elem_of_nil in Hk|].
      rewrite <- E in Hk. apply list_elem_of_fmap in Hk as ([k' d] & -> & ([kk vv] & _ & Hy)%list_elem_of_omap). cbn in Hy.
      destruct kk as [| | | |kk| | |]; try done. destruct (result_content vv) as [[? ?]|]; [|done].
      destruct (in_strs kk _) eqn:Hin; [|done]. injection Hy as -> _. by apply in_strs_spec in Hin. }
    intros [= <- <-]. split; [|done]. by destruct (added_good done0 a requests (VDict items) _ s s1 Hg Had).
Qed.

Lemma groups_run todo : ∀ done0 s s' out,
  proper_client → NoDup (done0 ++ todo).*1 → Forall (group_ok selected n) todo → batch_progress done0 s →
  stm.mapM (run_group bt selected) todo s = (s', out) →
  good s' ∧ ∀ x, out = Ok x → batch_progress (done0 ++ todo) s'.
Proof.
  induction todo as [|[gid [a requests]] todo IH]; intros done0 s s' out Hc Hnd Hok Hp; cbn [stm.mapM].
  { intros [= <- <-]. split; [apply Hp|]. intros _ _. by rewrite app_nil_r. }
  apply Forall_cons in Hok as [Hg Hok]. pose proof (go_agent _ _ _ Hg) as Hid. cbn in Hid. subst gid.
  unfold st.bind. destruct (run_group bt selected (id a, (a, requests)) s) as [s1 o1] eqn:Hrun.
  assert (id a ∉ done0.*1) as Hnew.
  { rewrite fmap_app in Hnd. apply NoDup_app in Hnd as (_ & Hd & _). intros Hin. apply (Hd _ Hin). by left. }
  destruct (run_group_spec done0 a requests s s1 o1 Hc Hg Hnew Hp Hrun) as [Hg1 Hp1].
  destruct o1 as [x|e]; [|by intros [= <- <-]]. specialize (Hp1 x eq_refl).
  destruct (stm.mapM _ todo s1) as [s2 o2] eqn:Hm. intros H.
  destruct (IH (done0 ++ [(id a, (a, requests))]) s1 s2 o2 Hc) as [Hg2 Hp2]; [by rewrite <- app_assoc|done|done|done|].
  assert (s2 = s') as -> by (by destruct o2; injection H as -> _). split; [done|]. intros y ->.
  destruct o2 as [y'|]; [|done]. specialize (Hp2 _ eq_refl). by rewrite <- app_assoc in Hp2.
Qed.

(** The records are the rows, judged, in the order of the prompts. *)
Record judged_to (l : list nat) (s s' : batch_state) (records : list workflow_run) : Prop := {
  jd_records : Forall2 (λ i r, ∃ p, od_get i (bs_prepared s') = Some p ∧ r = run_of_row p) l records;
  jd_judged i : i ∈ l → ∃ p v, od_get i (bs_prepared s) = Some p ∧ od_get i (bs_prepared s') = Some (with_verdict v p);
  jd_others i : i ∉ l → od_get i (bs_prepared s') = od_get i (bs_prepared s);
}.

Lemma rows_judged l : ∀ s s' out,
  NoDup l → good s → (∀ i, i ∈ l → ∃ p, od_get i (bs_prepared s) = Some p ∧ pr_verdict p = None) →
  stm.mapM (judge_row bt) l s = (s', out) →
  good s' ∧ ∀ records, out = Ok records → judged_to l s s' records.
Proof.
  induction l as [|i l IH]; intros s s' out Hnd Hg Hl; cbn [stm.mapM].
  { intros [= <- <-]. split; [done|]. intros records [= <-]. split; [constructor|intros i Hi; by apply elem_of_nil in Hi|done]. }
  apply NoDup_cons in Hnd as [Hi Hnd]. destruct (Hl i) as (p & Hp & Hv); [by left|].
  unfold st.bind, judge_row at 1. destruct (realtime bt && over_budget bt (bs_gateway s)); [by intros [= <- <-]|].
  rewrite Hp. destruct (_finalize_batch_row bt i p s) as [s1 o1] eqn:Hf.
  destruct (finalize_good s i p s1 o1 Hg Hp Hv Hf) as [Hg1 Ho1]. destruct o1 as [r|e]; [|by intros [= <- <-]].
  destruct Ho1 as (v & -> & Hset). destruct (stm.mapM _ l s1) as [s2 o2] eqn:Hm. intros H.
  assert (∀ j, j ≠ i → od_get j (bs_prepared s1) = od_get j (bs_prepared s)) as Hother
    by (intros j Hj; by rewrite Hset, od_get_set, decide_False).
  destruct (IH s1 s2 o2 Hnd Hg1) as [Hg2 Hj]; [|done|].
  { intros j Hj. rewrite Hother by (by intros ->). apply Hl. by right. }
  assert (s2 = s') as -> by (by destruct o2; injection H as -> _). split; [done|]. intros records ->.
  destruct o2 as [rs|]; [|done]. injection H as <-. destruct (Hj rs eq_refl) as [H1 H2 H3].
  assert (od_get i (bs_prepared s') = Some (with_verdict v p)) as Hi'
    by (rewrite H3 by done; by rewrite Hset, od_get_set, decide_True).
  split.
  - constructor; [by exists (with_verdict v p)|done].
  - intros j [->|Hjl]%elem_of_cons; [by exists p, v|]. destruct (H2 j Hjl) as (q & w & Hq & Hq'). exists q, w.
    split; [|done]. rewrite <- Hother; [done|]. by intros ->.
  - intros j Hjn. apply not_elem_of_cons in Hjn as [Hji Hjl]. by rewrite H3, Hother.
Qed.
End calls.

Lemma start_good : good (batch_start g0 pend0 n0).
Proof. split; [apply batch_start_inv|done]. Qed.

Lemma start_progress selected : batch_progress selected [] (batch_start g0 pend0 n0).
Proof. split; [apply start_good|constructor|constructor|]. intros g k Hg. by apply elem_of_nil in Hg. Qed.

(** What a batch leaves behind, and its records when it returns. *)
Lemma batch_route_spec prompts s' out :
  proper_client → batch_route bt prompts (batch_start g0 pend0 n0) = (s', out) →
  good s' ∧ ∀ records, out = Ok records →
    ∃ selected, select_agents bt prompts g0 = Ok selected ∧
      Forall (λ ip, is_Some (pr_verdict ip.2)) (bs_prepared s') ∧
      (bs_prepared s').*1 ≡ₚ seq 0 (length selected) ∧
      Forall2 (λ pa r, ∃ p, p ∈ rows s' ∧ r = run_of_row p ∧ pr_prompt p = pa.1 ∧ id (pr_agent p) = id pa.2) selected records.
Proof.
  intros Hc. unfold batch_route. pose proof start_good as Hstart.
  destruct (run_admission _ _) as [[]|e]; [|by intros [= <- <-]]. cbn [bs_gateway batch_start].
  destruct (select_agents bt prompts g0) as [selected|e] eqn:Hsel; [|by intros [= <- <-]].
  unfold st.bind. destruct (stm.mapM (run_group bt selected) _ _) as [s1 o1] eqn:Hgroups.
  destruct (requests_by_agent_ok selected) as [Hk Hok Hcov].
  destruct (groups_run selected (length selected) eq_refl (requests_by_agent selected) [] _ s1 o1 Hc Hk Hok (start_progress selected) Hgroups)
    as [Hg1 Hp1].
  destruct o1 as [x|e]; [|by intros [= <- <-]]. destruct (Hp1 x eq_refl) as [_ Hpend Hrows Hdone]. cbn [app] in *.
  rewrite Forall_forall in Hpend, Hrows.
  assert (∀ i, i ∈ seq 0 (length selected) → ∃ p, od_get i (bs_prepared s1) = Some p ∧ pr_verdict p = None) as Hall.
  { intros i Hi%list_elem_of_In%in_seq. destruct (lookup_lt_is_Some_2 selected i) as [[prompt b] Hb]; [lia|].
    destruct (Hcov i prompt b) as (g & Hg & _ & Ht); [lia|done|]. destruct (Hdone g _ Hg Ht) as (j & ->%task_id_inj & Hj).
    apply od_get_elem in Hj as [p Hp]. exists p. split; [done|]. apply od_get_Some_elem in Hp. by apply (Hpend (j, p)). }
  intros Hm. destruct (rows_judged (seq 0 (length selected)) s1 s' out) as [Hg Hj]; [apply NoDup_ListNoDup, seq_NoDup|done|done|done|].
  split; [done|]. intros records ->. destruct (Hj records eq_refl) as [H1 H2 H3]. exists selected. split; [done|].
  assert (∀ i p, od_get i (bs_prepared s') = Some p → ∃ q v, od_get i (bs_prepared s1) = Some q ∧ p = with_verdict v q) as Hfinal.
  { intros i p Hp. destruct (decide (i ∈ seq 0 (length selected))) as [Hi|Hi].
    - destruct (H2 i Hi) as (q & v & Hq & Hq'). exists q, v. rewrite Hp in Hq'. injection Hq' as ->. done.
    - rewrite H3 in Hp by done. apply od_get_Some_elem in Hp. destruct (Hrows _ Hp) as (b & Hb & _). cbn in Hb.
      destruct Hi. apply list_elem_of_In, in_seq. apply lookup_lt_Some in Hb. lia. }
  split_and!.
  - apply Forall_forall. intros [i p] Hip. apply od_get_in in Hip; [|apply (i_keys _ (gd_inv _ Hg))].
    destruct (Hfinal i p Hip) as (q & v & _ & ->). by eexists.
  - apply NoDup_Permutation; [apply (i_keys _ (gd_inv _ Hg))|apply NoDup_ListNoDup, seq_NoDup|]. intros i.
    rewrite <- od_get_elem. split; [|intros Hi; destruct (H2 i Hi) as (q & v & _ & ->); by eexists].
    intros [p (q & v & Hq & _)%Hfinal]. apply od_get_Some_elem in Hq. destruct (Hrows _ Hq) as (b & Hb & _). cbn in Hb.
    apply list_elem_of_In, in_seq. apply lookup_lt_Some in Hb. lia.
  - apply Forall2_lookup. intros i. pose proof (proj1 (Forall2_lookup _ _ _) H1 i) as H1'. clear H1. rename H1' into H1. destruct (selected !! i) as [[prompt b]|] eqn:Hi.
    + rewrite lookup_seq_lt in H1 by (by eapply lookup_lt_Some). inversion H1 as [? r (p & Hp & ->) Hr1 Hr2|]; subst.
      constructor. destruct (Hfinal _ p Hp) as (q & v & Hq & ->). apply od_get_Some_elem in Hq. destruct (Hrows _ Hq) as (c & Hcs & Hca & _).
      cbn in Hcs, Hca. rewrite Hi in Hcs. injection Hcs as Hpr ->. exists (with_verdict v q). split_and!; [|done|done|done].
      unfold rows. apply list_elem_of_fmap. eexists (_, _). split; [|by apply od_get_Some_elem, Hp]. done.
    + rewrite lookup_seq_ge in H1 by (by apply lookup_ge_None_1). inversion H1; subst. constructor.
Qed.
End stored.

Lemma select_agents_prompts bt prompts g selected : select_agents bt prompts g = Ok selected → selected.*1 = prompts.
Proof.
  unfold select_agents. intros H%map_res_Forall2. induction H as [|prompt pa prompts selected H _ IH]; [done|].
  cbn. rewrite IH. f_equal. destruct (_select_agent _ _ _ _ _ _ _ _); [|done]. by injection H as <-.
Qed.

(** ** What a batch promises *)



(** ** A batch over a small pool *)

Definition demo_answer (text : string) : pyval :=
  VDict [(VStr "content", VStr text);
         (VStr "usage", VDict [(VStr "prompt_tokens", VInt 5); (VStr "completion_tokens", VInt 7)])].

(** A provider that answers every request, or every request but the last. *)
Definition answer_all (a : ModelAgent) (requests : batch_requests) : batch_reply :=
  BatchReturned (VDict (map (λ kr, (VStr kr.1, demo_answer (String.append "re: " kr.1))) requests)).
Definition answer_most (a : ModelAgent) (requests : batch_requests) : batch_reply :=
  BatchReturned (VDict (map (λ kr, (VStr kr.1, demo_answer (String.append "re: " kr.1))) (removelast requests))).

Definition demo_batch (client : ModelAgent → batch_requests → batch_reply) : batch_env :=
  {| bt_complete := demo_server_env true; bt_client := λ _, client;
     bt_run_id := λ n, String.append "run_" (str_of_Z (Z.of_nat n)); bt_now := λ _, f0 |}.

Abbreviation demo_prompts := ["What is two and two?"; "Name a prime number."].
Abbreviation run_batch client := (batch_route (demo_batch client) demo_prompts (batch_start fresh_gateway ∅ 0)).

Lemma demo_fresh client : fresh_ids (demo_batch client) fresh_gateway ∅ 0.
Proof.
  split.
  - intros i j H%append_inj%str_of_Z_inj. lia.
  - intros i _. apply not_elem_of_empty.
  - done.
Qed.

Lemma proper_map {A} (f : string * A → pyval) (l : list (string * A)) :
  NoDup l.*1 → NoDup (map (λ kr, (VStr kr.1, f kr)) l).*1.
Proof.
  induction l as [|[k a] l IH]; cbn; [constructor|]. intros [Hk Hnd]%NoDup_cons. apply NoDup_cons. split; [|by apply IH].
  intros ([k' v] & Hkk & Hin)%list_elem_of_fmap. apply list_elem_of_fmap in Hin as ([k2 a2] & [= -> _] & Hin).
  cbn in Hkk. injection Hkk as ->. apply Hk, list_elem_of_fmap. by exists (k2, a2).
Qed.

Lemma keys_removelast {A} (l : list (string * A)) : NoDup l.*1 → NoDup (removelast l).*1.
Proof.
  destruct l as [|r l]; [done|]. rewrite (app_removelast_last r (l := r :: l)) at 1 by done.
  rewrite fmap_app. by intros (? & _ & _)%NoDup_app.
Qed.

Lemma answer_all_proper : proper_client (demo_batch answer_all).
Proof.
  intros i a requests value Hnd H. cbn in H. injection H as <-.
  exact (proper_map (λ kr, demo_answer (String.append "re: " kr.1)) requests Hnd).
Qed.

Lemma answer_most_proper : proper_client (demo_batch answer_most).
Proof.
  intros i a requests value Hnd H. cbn in H. injection H as <-.
  exact (proper_map (λ kr, demo_answer (String.append "re: " kr.1)) (removelast requests) (keys_removelast requests Hnd)).
Qed.

Lemma demo_counts client s m k : ce_count_text (bt_flow (demo_batch client)) s m = Some k → 0 <= k.
Proof. intros [= <-]. apply str_len_nonneg. Qed.

Lemma demo_named client : models_named (re_candidates (ce_ranking (bt_flow (demo_batch client)))).
Proof. vm_compute. repeat constructor. Qed.



(** The salvage is out of reach of the gateway's own client: [ModelClient.batch_chat]
    validates before it returns, so a short provider answer raises out of the call
    and the answers that did come back are neither stored nor charged. *)
Theorem client_forfeits_salvage :
  (let '(s', out) := run_batch answer_most in
   out = Raise (BatchRuntimeError "batch provider returned an incomplete or unexpected result set") ∧
   bm_tokens (gw_meter (bs_gateway s')) = 7) ∧
  (let '(s', out) := run_batch (batch_chat answer_most) in
   out = Raise (BatchRuntimeError "batch provider returned an incomplete or unexpected result set") ∧
   bm_tokens (gw_meter (bs_gateway s')) = 0 ∧ rows s' = []).
Proof. vm_compute. done. Qed.
