(* ===== verification/WorkerPool.v ===== *)
(** batch_routing.py: [_DaemonWorkerPool], a fixed number of daemon threads that
    take their tasks from one queue.

    The callers of [submit] and [shutdown] and the workers are threads; [pool_exec] is
    one action of one of them, and any of them may take the next. What happens
    under [_workers_lock] is one action; the rest of [shutdown] - draining the
    queue, putting a sentinel for each worker, joining them - interleaves with the
    workers and with other calls. *)

From Stdlib Require Import Ascii String.
From S2P Require Import Prelude.
Open Scope nat_scope.

(** ** The pool *)

Section pool.
Context {T : Type}.

(** A thread of [_drain]: at [queue.get], inside of a task, or returned. *)
Inductive drain_thread := Waiting | Running (t : T) | Exited.

(** Where a call of [shutdown] is, after the lock. *)
Inductive stage := Draining | Putting (left : nat) | Joining | Returned.

Record closing := {
  cl_workers : nat;                                       (* the threads it captured *)
  cl_wait : bool;
  cl_cancel : bool;                                       (* the first call, and cancel_futures *)
  cl_stage : stage;
}.

(** [None] in the queue is the shutdown sentinel. [p_submitted], [p_log] and
    [p_finished] are history variables, not in the code: the accepted tasks; the
    tasks that left the queue, with whether a worker took them; the tasks that
    returned or raised. *)
Record worker_pool := {
  p_queue : list (option T);
  p_workers : list drain_thread;
  p_shutdown : bool;
  p_closings : list closing;
  p_submitted : list T;
  p_log : list (T * bool);
  p_finished : list T;
}.

Definition new_pool : worker_pool :=
  {| p_queue := []; p_workers := []; p_shutdown := false; p_closings := []; p_submitted := []; p_log := [];
     p_finished := [] |}.

Definition with_tasks (q : list (option T)) (log : list (T * bool)) (p : worker_pool) : worker_pool :=
  {| p_queue := q; p_workers := p_workers p; p_shutdown := p_shutdown p; p_closings := p_closings p;
     p_submitted := p_submitted p; p_log := p_log p ++ log; p_finished := p_finished p |}.

Definition with_worker (i : nat) (w : drain_thread) (finished : list T) (p : worker_pool) : worker_pool :=
  {| p_queue := p_queue p; p_workers := <[i := w]> (p_workers p); p_shutdown := p_shutdown p;
     p_closings := p_closings p; p_submitted := p_submitted p; p_log := p_log p;
     p_finished := p_finished p ++ finished |}.

Definition at_stage (s : stage) (c : closing) : closing :=
  {| cl_workers := cl_workers c; cl_wait := cl_wait c; cl_cancel := cl_cancel c; cl_stage := s |}.

Definition with_stage (i : nat) (c : closing) (s : stage) (p : worker_pool) : worker_pool :=
  {| p_queue := p_queue p; p_workers := p_workers p; p_shutdown := p_shutdown p;
     p_closings := <[i := at_stage s c]> (p_closings p); p_submitted := p_submitted p; p_log := p_log p;
     p_finished := p_finished p |}.

Inductive submit_error := PoolRuntimeError (m : string).

Definition exited (w : drain_thread) : bool := match w with Exited => true | _ => false end.

(** What left the queue. *)
Definition left_queue (x : option T) (taken : bool) : list (T * bool) :=
  match x with Some t => [(t, taken)] | None => [] end.

Context (max_workers : nat).

(** [submit]: a thread is started for the task while there are fewer than the
    maximum. *)
Definition submit (t : T) (p : worker_pool) : worker_pool * res submit_error unit :=
  if p_shutdown p then (p, Raise (PoolRuntimeError "cannot schedule new work after shutdown"))
  else
    ({| p_queue := p_queue p ++ [Some t];
        p_workers := p_workers p ++ (if length (p_workers p) <? max_workers then [Waiting] else []);
        p_shutdown := false; p_closings := p_closings p; p_submitted := p_submitted p ++ [t];
        p_log := p_log p; p_finished := p_finished p |}, Ok tt).

(** [shutdown] under the lock. Only the first call drains and puts sentinels. *)
Definition shutdown (wait cancel_futures : bool) (p : worker_pool) : worker_pool :=
  let first := negb (p_shutdown p) in
  let n := length (p_workers p) in
  {| p_queue := p_queue p; p_workers := p_workers p; p_shutdown := true;
     p_closings := p_closings p ++
       [{| cl_workers := n; cl_wait := wait; cl_cancel := first && cancel_futures;
           cl_stage := if first then (if cancel_futures then Draining else Putting n)
                       else if wait then Joining else Returned |}];
     p_submitted := p_submitted p; p_log := p_log p; p_finished := p_finished p |}.

(** The rest of a call of [shutdown], one queue operation or join at a time. *)
Definition close_on (i : nat) (c : closing) (p : worker_pool) : option worker_pool :=
  match cl_stage c with
  | Draining =>
      match p_queue p with
      | x :: q => Some (with_tasks q (left_queue x false) p)             (* get_nowait *)
      | [] => Some (with_stage i c (Putting (cl_workers c)) p)             (* queue.Empty *)
      end
  | Putting (S n) => Some (with_stage i c (Putting n) (with_tasks (p_queue p ++ [None]) [] p))
  | Putting O => Some (with_stage i c (if cl_wait c then Joining else Returned) p)
  | Joining => if forallb exited (firstn (cl_workers c) (p_workers p)) then Some (with_stage i c Returned p) else None
  | Returned => None
  end.

(** [_drain]: the next item, and after a task the loop again. *)
Definition drain_get (i : nat) (p : worker_pool) : option worker_pool :=
  match p_workers p !! i, p_queue p with
  | Some Waiting, x :: q =>
      Some (with_worker i (match x with Some t => Running t | None => Exited end) []
              (with_tasks q (left_queue x true) p))
  | _, _ => None
  end.

Definition task_ends (i : nat) (p : worker_pool) : option worker_pool :=
  match p_workers p !! i with
  | Some (Running t) => Some (with_worker i Waiting [t] p)
  | _ => None
  end.

Inductive pool_action :=
| Submit (t : T)
| Shutdown (wait cancel_futures : bool)
| Get (i : nat)
| TaskEnds (i : nat)
| CloseOn (i : nat).

Definition pool_exec (a : pool_action) (p : worker_pool) : option worker_pool :=
  match a with
  | Submit t => Some (submit t p).1
  | Shutdown wait cancel_futures => Some (shutdown wait cancel_futures p)
  | Get i => drain_get i p
  | TaskEnds i => task_ends i p
  | CloseOn i => c ← p_closings p !! i; close_on i c p
  end.

(** A call of a client, or a step of a thread. *)
Definition is_request (a : pool_action) : bool := match a with Submit _ | Shutdown _ _ => true | _ => false end.

Definition pool_step (p p' : worker_pool) : Prop := ∃ a, pool_exec a p = Some p'.
Definition worker_step (p p' : worker_pool) : Prop := ∃ a, is_request a = false ∧ pool_exec a p = Some p'.
Definition reachable_pool (p : worker_pool) : Prop := rtc pool_step new_pool p.

(** ** What the pool holds *)

Definition tasks (q : list (option T)) : list T := omap (λ x, x) q.
Definition running (workers : list drain_thread) : list T :=
  omap (λ w, match w with Running t => Some t | _ => None end) workers.
Definition taken_tasks (log : list (T * bool)) : list T := map fst (List.filter snd log).
Definition dropped_tasks (log : list (T * bool)) : list T := map fst (List.filter (λ e, negb e.2) log).

#[local] Arguments dropped_tasks : simpl never.
#[local] Arguments tasks : simpl never.
#[local] Arguments running : simpl never.
#[local] Arguments taken_tasks : simpl never.

Definition sentinel (x : option T) : nat := match x with None => 1 | Some _ => 0 end.
Definition gone (w : drain_thread) : nat := match w with Exited => 1 | _ => 0 end.
Definition due (c : closing) : nat :=
  match cl_stage c with Draining => cl_workers c | Putting n => n | _ => 0 end.

Abbreviation sentinels q := (sum_list_with sentinel q).
Abbreviation gone_workers l := (sum_list_with gone l).
Abbreviation dues l := (sum_list_with due l).

Record pool_inv (p : worker_pool) : Prop := {
  ok_fifo : p_submitted p = (p_log p).*1 ++ tasks (p_queue p);
  ok_started : taken_tasks (p_log p) ≡ₚ running (p_workers p) ++ p_finished p;
  ok_workers : length (p_workers p) = max_workers `min` length (p_submitted p);
  ok_open : p_shutdown p = false → p_closings p = [] ∧ sentinels (p_queue p) = 0 ∧ gone_workers (p_workers p) = 0;
  ok_closed : p_shutdown p = true →
    sentinels (p_queue p) + gone_workers (p_workers p) + dues (p_closings p) = length (p_workers p);
  ok_tail : ∃ l k, p_queue p = map Some l ++ replicate k None;
  ok_captured : Forall (λ c, cl_workers c = length (p_workers p)) (p_closings p);
  ok_cancelled : Forall (λ c, cl_cancel c = true → cl_stage c ≠ Draining → tasks (p_queue p) = []) (p_closings p);
  ok_draining : Forall (λ c, cl_stage c = Draining → cl_cancel c = true) (p_closings p);
  ok_dropped : (∀ c, c ∈ p_closings p → cl_cancel c = false) → dropped_tasks (p_log p) = [];
  ok_gone : gone_workers (p_workers p) ≠ 0 → tasks (p_queue p) = [];
}.

(** ** Lemmas on the lists *)

Lemma sum_replace {A} (f : A → nat) i x y (l : list A) :
  l !! i = Some x → sum_list_with f (<[i := y]> l) + f x = sum_list_with f l + f y.
Proof.
  intros Hi. rewrite (insert_take_drop l i y) by (by eapply lookup_lt_Some).
  assert (sum_list_with f l = sum_list_with f (take i l ++ x :: drop (S i) l)) as -> by (by rewrite take_drop_middle).
  rewrite !sum_list_with_app. cbn. lia.
Qed.

Definition task_of (w : drain_thread) : list T := match w with Running t => [t] | _ => [] end.

Lemma running_app l l' : running (l ++ l') = running l ++ running l'.
Proof. apply omap_app. Qed.

Lemma running_one w : running [w] = task_of w.
Proof. by destruct w. Qed.

Lemma running_insert i w w' l :
  l !! i = Some w → running (<[i := w']> l) ++ task_of w ≡ₚ running l ++ task_of w'.
Proof.
  intros Hi. rewrite (insert_take_drop l i w') by (by eapply lookup_lt_Some).
  assert (running l = running (take i l ++ w :: drop (S i) l)) as -> by (by rewrite take_drop_middle).
  change (w' :: drop (S i) l) with ([w'] ++ drop (S i) l).
  change (w :: drop (S i) l) with ([w] ++ drop (S i) l). rewrite !running_app.
  rewrite !running_one. solve_Permutation.
Qed.

Lemma running_bound l : length (running l) ≤ length l.
Proof.
  induction l as [|w l IH]; [done|]. change (w :: l) with ([w] ++ l). rewrite running_app, running_one, !length_app.
  destruct w; cbn; lia.
Qed.

Lemma tasks_app q q' : tasks (q ++ q') = tasks q ++ tasks q'.
Proof. apply omap_app. Qed.

Lemma left_tasks x q taken : tasks (x :: q) = (left_queue x taken).*1 ++ tasks q.
Proof. by destruct x. Qed.

Lemma started_app l l' : taken_tasks (l ++ l') = taken_tasks l ++ taken_tasks l'.
Proof. unfold taken_tasks. by rewrite List.filter_app, List.map_app. Qed.

Lemma started_left x taken : taken_tasks (left_queue x taken) = if taken then tasks [x] else [].
Proof. by destruct x, taken. Qed.

Lemma dropped_app l l' : dropped_tasks (l ++ l') = dropped_tasks l ++ dropped_tasks l'.
Proof. unfold dropped_tasks. by rewrite List.filter_app, List.map_app. Qed.

Lemma dropped_left x taken : dropped_tasks (left_queue x taken) = if taken then [] else tasks [x].
Proof. by destruct x, taken. Qed.

Lemma log_split (l : list (T * bool)) : l.*1 ≡ₚ taken_tasks l ++ dropped_tasks l.
Proof.
  induction l as [|[t []] l IH]; [done|..]; change ((t, ?b) :: l) with ([(t, b)] ++ l);
    rewrite started_app, dropped_app; cbn; rewrite IH; [done|]. by rewrite Permutation_middle.
Qed.

(** Sentinels are at the end of the queue. *)
Definition ends_in_sentinels (q : list (option T)) : Prop := ∃ l k, q = map Some l ++ replicate k None.

Lemma ends_tail x q : ends_in_sentinels (x :: q) → ends_in_sentinels q ∧ (x = None → tasks q = []).
Proof.
  intros ([|t l] & k & H).
  - destruct k as [|k]; [done|]. injection H as -> ->. split; [by exists [], k|]. intros _. induction k; cbn; [done|]. exact IHk.
  - injection H as -> ->. split; [by exists l, k|done].
Qed.

Lemma ends_put q : ends_in_sentinels q → ends_in_sentinels (q ++ [None]).
Proof. intros (l & k & ->). exists l, (S k). by rewrite <- app_assoc, replicate_S_end. Qed.

Lemma ends_submit q t : ends_in_sentinels q → sum_list_with sentinel q = 0 → ends_in_sentinels (q ++ [Some t]).
Proof.
  intros (l & k & ->). rewrite sum_list_with_app. destruct k as [|k]; cbn; [|lia]. intros _.
  exists (l ++ [t]), 0. cbn. by rewrite app_nil_r, List.map_app, app_nil_r.
Qed.

(** ** Every action keeps it *)

Lemma new_pool_ok : pool_inv new_pool.
Proof.
  split; try done.
  - cbn. lia.
  - by exists [], 0.
Qed.

Lemma submit_ok t p : pool_inv p → pool_inv (submit t p).1.
Proof.
  intros Hp. pose proof Hp as [Hf Hs Hw Ho Hc Ht Hcap Hcan Hdr Hdp Hgn]. unfold submit. destruct (p_shutdown p) eqn:Hd; [exact Hp|].
  destruct (Ho eq_refl) as (Hcl & Hq & Hg). cbn [fst].
  set (new := if length (p_workers p) <? max_workers then [Waiting] else []).
  assert (running new = [] ∧ gone_workers new = 0 ∧ length (p_workers p ++ new) = max_workers `min` S (length (p_submitted p)))
    as (Hn1 & Hn2 & Hn3).
  { unfold new. rewrite length_app, Hw.
    destruct (Nat.ltb_spec (max_workers `min` length (p_submitted p)) max_workers); (split_and!; [done|done|cbn; lia]). }
  clearbody new. split; cbn.
  - by rewrite Hf, tasks_app, app_assoc.
  - by rewrite Hs, running_app, Hn1, app_nil_r.
  - rewrite Hn3, length_app. cbn. f_equal. lia.
  - intros _. by rewrite !sum_list_with_app, Hq, Hg, Hn2.
  - done.
  - by apply ends_submit.
  - rewrite Hcl. constructor.
  - rewrite Hcl. constructor.
  - rewrite Hcl. constructor.
  - done.
  - rewrite sum_list_with_app, Hg, Hn2. done.
Qed.

Lemma shutdown_ok wait cancel p : pool_inv p → pool_inv (shutdown wait cancel p).
Proof.
  intros [Hf Hs Hw Ho Hc Ht Hcap Hcan Hdr Hdp Hgn]. split; cbn; try done.
  - intros _. rewrite sum_list_with_app. destruct (p_shutdown p) eqn:Hd; cbn.
    + rewrite <- (Hc eq_refl). destruct wait; cbn; lia.
    + destruct (Ho eq_refl) as (-> & -> & ->). destruct cancel; cbn; lia.
  - apply Forall_app. split; [done|]. by constructor.
  - apply Forall_app. split; [done|]. constructor; [|done]. cbn. destruct (negb _), cancel; cbn; done.
  - apply Forall_app. split; [done|]. constructor; [|done]. cbn. destruct (negb _), cancel, wait; done.
  - intros H. apply Hdp. intros c Hin. apply H, elem_of_app. by left.
Qed.

Lemma closing_shut p i c : pool_inv p → p_closings p !! i = Some c → p_shutdown p = true.
Proof. intros Hp Hi. destruct (p_shutdown p) eqn:Hd; [done|]. destruct (ok_open _ Hp Hd) as (Hc & _). by rewrite Hc in Hi. Qed.

Lemma due_lookup l i c : l !! i = Some c → due c ≤ dues l.
Proof. intros Hi. eapply sum_list_with_in, list_elem_of_lookup_2, Hi. Qed.

(** While a call drains the queue no sentinel was put. *)
Lemma draining_first p i c :
  pool_inv p → p_closings p !! i = Some c → cl_stage c = Draining →
  sentinels (p_queue p) = 0 ∧ gone_workers (p_workers p) = 0.
Proof.
  intros Hp Hi Hd. pose proof (ok_closed _ Hp (closing_shut p i c Hp Hi)) as Hsum. apply due_lookup in Hi as Hdue.
  pose proof (Forall_lookup_1 _ _ _ _ (ok_captured _ Hp) Hi) as Hcap. cbn in Hcap. unfold due at 1 in Hdue. rewrite Hd in Hdue. lia.
Qed.

(** Moving one call on, with what it did to the queue. *)
Lemma close_stage_ok p i c s q log :
  pool_inv p → p_closings p !! i = Some c →
  (p_log p).*1 ++ tasks (p_queue p) = (p_log p ++ log).*1 ++ tasks q → taken_tasks log = [] →
  sentinels q + due (at_stage s c) = sentinels (p_queue p) + due c →
  ends_in_sentinels q → (tasks (p_queue p) = [] → tasks q = []) →
  (s ≠ Draining → cl_cancel c = true → cl_stage c = Draining → tasks q = []) →
  (s = Draining → cl_cancel c = true) → (cl_cancel c = false → dropped_tasks log = []) →
  pool_inv (with_stage i c s (with_tasks q log p)).
Proof.
  intros Hp Hi Hfifo Hlog Hsum Hends Hkeep Hcan Hdrain Hdrop. pose proof (closing_shut p i c Hp Hi) as Hshut.
  pose proof (Forall_lookup_1 _ _ _ _ (ok_captured _ Hp) Hi) as Hcap. pose proof (Forall_lookup_1 _ _ _ _ (ok_cancelled _ Hp) Hi) as Hold.
  destruct Hp as [Hf Hs Hw Ho Hc Ht Hcs Hcan0 Hdr Hdp Hgn]. split; cbn; try done.
  - by rewrite Hf.
  - by rewrite started_app, Hlog, app_nil_r.
  - congruence.
  - intros _. specialize (Hc Hshut). pose proof (sum_replace due i c (at_stage s c) _ Hi). lia.
  - by apply Forall_insert.
  - apply Forall_insert; [|].
    + eapply Forall_impl; [exact Hcan0|]. cbn. intros d Hd H1 H2. by apply Hkeep, Hd.
    + cbn. intros H1 H2. destruct (cl_stage c) eqn:Hst; [by apply Hcan|..]; (apply Hkeep, Hold; [done|congruence]).
  - by apply Forall_insert.
  - intros Hall. assert (cl_cancel c = false) as Hcc.
    { apply (Hall (at_stage s c)). eapply list_elem_of_lookup_2, list_lookup_insert_eq, lookup_lt_Some, Hi. }
    rewrite dropped_app, (Hdrop Hcc), app_nil_r. apply Hdp. intros d [j Hj]%list_elem_of_lookup_1.
    destruct (decide (j = i)) as [->|Hne]; [congruence|]. apply (Hall d). eapply list_elem_of_lookup_2.
    by rewrite list_lookup_insert_ne.
  - intros H. by apply Hkeep, Hgn.
Qed.

Lemma with_stage_same p i c : p_closings p !! i = Some c → with_stage i c (cl_stage c) p = p.
Proof.
  intros Hi. unfold with_stage, at_stage. destruct p, c; cbn in *. by rewrite list_insert_id.
Qed.

Lemma close_on_ok p p' i c : pool_inv p → p_closings p !! i = Some c → close_on i c p = Some p' → pool_inv p'.
Proof.
  intros Hp Hi. unfold close_on. pose proof (ok_tail _ Hp) as Htail. pose proof (Forall_lookup_1 _ _ _ _ (ok_draining _ Hp) Hi) as Hcancel. cbn in Hcancel. destruct (cl_stage c) as [|[|n]| |] eqn:Hst.
  - destruct (draining_first p i c Hp Hi Hst) as [Hq _]. destruct (p_queue p) as [|x q] eqn:Hqueue; intros [= <-].
    + assert (with_stage i c (Putting (cl_workers c)) p = with_stage i c (Putting (cl_workers c)) (with_tasks [] [] p)) as ->
        by (unfold with_stage, with_tasks; cbn; by rewrite Hqueue, app_nil_r).
      apply close_stage_ok; try done; [by rewrite (app_nil_r (p_log p)), Hqueue|rewrite Hqueue; unfold due; by rewrite Hst].
    + rewrite <- (with_stage_same (with_tasks q (left_queue x false) p) i c) by done. rewrite Hst.
      apply ends_tail in Htail as [Htail _]. cbn in Hq. pose proof (left_tasks x q false) as Hl.
      apply close_stage_ok; try done.
      * by rewrite Hqueue, Hl, fmap_app, app_assoc.
      * apply started_left.
      * rewrite Hqueue. unfold due. rewrite Hst. cbn. lia.
      * rewrite Hqueue, Hl. by intros [_ ?]%app_nil.
      * by rewrite (Hcancel eq_refl).
  - intros [= <-]. assert (with_stage i c (if cl_wait c then Joining else Returned) p =
      with_stage i c (if cl_wait c then Joining else Returned) (with_tasks (p_queue p) [] p)) as ->
      by (unfold with_stage, with_tasks; cbn; by rewrite app_nil_r).
    apply close_stage_ok; try done; [by rewrite (app_nil_r (p_log p))|unfold due; rewrite Hst; by destruct (cl_wait c)|congruence|by destruct (cl_wait c)].
  - intros [= <-]. apply close_stage_ok; try done.
    + by rewrite (app_nil_r (p_log p)), tasks_app, (app_nil_r (tasks (p_queue p)) : _ ++ tasks [None] = _).
    + rewrite sum_list_with_app. unfold due. rewrite Hst. cbn. lia.
    + by apply ends_put.
    + intros H. by rewrite tasks_app, H.
    + congruence.
  - destruct (forallb _ _); [|done]. intros [= <-].
    assert (with_stage i c Returned p = with_stage i c Returned (with_tasks (p_queue p) [] p)) as ->
      by (unfold with_stage, with_tasks; cbn; by rewrite app_nil_r).
    apply close_stage_ok; try done; [by rewrite (app_nil_r (p_log p))|unfold due; by rewrite Hst|congruence].
  - done.
Qed.

Lemma get_ok p p' i : pool_inv p → drain_get i p = Some p' → pool_inv p'.
Proof.
  intros Hp. unfold drain_get. destruct (p_workers p !! i) as [[| |]|] eqn:Hi; try done.
  destruct (p_queue p) as [|x q] eqn:Hqueue; [done|]. intros [= <-].
  set (w := match x with Some t => Running t | None => Exited end).
  pose proof (running_insert i Waiting w _ Hi) as Hrun. cbn [task_of] in Hrun. rewrite app_nil_r in Hrun.
  pose proof (sum_replace gone i Waiting w _ Hi) as Hgone. pose proof (left_tasks x q true) as Hl.
  destruct Hp as [Hf Hs Hw Ho Hc Ht Hcs Hcan Hdr Hdp Hgn]. rewrite Hqueue in *. apply ends_tail in Ht as [Ht Hend]. split; cbn; try done.
  - by rewrite Hf, Hl, fmap_app, app_assoc.
  - rewrite started_app, started_left, Hs, app_nil_r, Hrun. assert (tasks [x] = task_of w) as -> by (by destruct x). solve_Permutation.
  - by rewrite length_insert.
  - intros Hd. destruct (Ho Hd) as (H1 & H2 & H3). cbn in H2. destruct x; [|cbn in H2; lia]. cbn in Hgone. split_and!; [done|done|lia].
  - intros Hd. specialize (Hc Hd). rewrite length_insert. cbn in Hc. destruct x; cbn in Hgone, Hc; lia.
  - by rewrite length_insert.
  - eapply Forall_impl; [exact Hcan|]. cbn. intros d Hd H1 H2. specialize (Hd H1 H2). rewrite Hl in Hd. by apply app_nil in Hd as [_ ?].
  - intros H. by rewrite dropped_app, dropped_left, app_nil_r, Hdp.
  - intros H. destruct x as [t|]; [|by apply Hend]. cbn in Hgone. rewrite Hl in Hgn. specialize (Hgn ltac:(lia)).
    by apply app_nil in Hgn as [_ ?].
Qed.

Lemma task_ends_ok p p' i : pool_inv p → task_ends i p = Some p' → pool_inv p'.
Proof.
  intros Hp. unfold task_ends. destruct (p_workers p !! i) as [[|t|]|] eqn:Hi; try done. intros [= <-].
  pose proof (running_insert i (Running t) Waiting _ Hi) as Hrun. cbn [task_of] in Hrun. rewrite app_nil_r in Hrun.
  pose proof (sum_replace gone i (Running t) Waiting _ Hi) as Hgone. cbn in Hgone.
  destruct Hp as [Hf Hs Hw Ho Hc Ht Hcs Hcan Hdr Hdp Hgn]. split; cbn; try done; rewrite ?length_insert; try done.
  - rewrite Hs, <- Hrun. solve_Permutation.
  - intros Hd. destruct (Ho Hd) as (H1 & H2 & H3). split_and!; [done|done|lia].
  - intros Hd. specialize (Hc Hd). lia.
  - intros H. apply Hgn. lia.
Qed.

Lemma exec_ok a p p' : pool_inv p → pool_exec a p = Some p' → pool_inv p'.
Proof.
  intros Hp. destruct a as [t|wait cancel|i|i|i]; cbn.
  - intros [= <-]. by apply submit_ok.
  - intros [= <-]. by apply shutdown_ok.
  - by apply get_ok.
  - by apply task_ends_ok.
  - destruct (p_closings p !! i) as [c|] eqn:Hi; [|done]. by apply close_on_ok.
Qed.

Lemma steps_ok p p' : pool_inv p → rtc pool_step p p' → pool_inv p'.
Proof. intros Hp H. induction H as [|p1 p2 p3 [a Ha] _ IH]; [done|]. by eapply IH, exec_ok. Qed.

Lemma reachable_ok p : reachable_pool p → pool_inv p.
Proof. apply steps_ok, new_pool_ok. Qed.

(** ** What the pool promises *)

Lemma step_after_shutdown a p p' :
  pool_exec a p = Some p' → p_shutdown p = true →
  p_shutdown p' = true ∧ p_submitted p' = p_submitted p ∧
  (tasks (p_queue p) = [] → tasks (p_queue p') = [] ∧ p_log p' = p_log p).
Proof.
  intros H Hd. destruct a as [t|wait cancel|i|i|i]; cbn in H.
  - injection H as <-. unfold submit. by rewrite Hd.
  - by injection H as <-.
  - unfold drain_get in H. destruct (p_workers p !! i) as [[| |]|]; try done. destruct (p_queue p) as [|x q] eqn:Hq; [done|].
    injection H as <-. cbn. split_and!; [done|done|]. rewrite (left_tasks x q true). intros [Hl ?]%app_nil. split; [done|].
    destruct x; [done|]. by rewrite app_nil_r.
  - unfold task_ends in H. destruct (p_workers p !! i) as [[| |]|]; try done. by injection H as <-.
  - destruct (p_closings p !! i) as [c|]; [|done]. cbn in H. unfold close_on in H.
    destruct (cl_stage c) as [|[|n]| |]; [destruct (p_queue p) as [|x q] eqn:Hq|..]; try (destruct (forallb _ _)); simplify_eq;
      cbn; (split_and!; [done|done|]); rewrite ?Hq; try done.
    + rewrite (left_tasks x q false). intros [Hl ?]%app_nil. split; [done|]. destruct x; [done|]. by rewrite app_nil_r.
    + rewrite tasks_app. intros ->. split; [done|]. by rewrite app_nil_r.
Qed.

Lemma after_shutdown p p' :
  rtc pool_step p p' → p_shutdown p = true →
  p_submitted p' = p_submitted p ∧ (tasks (p_queue p) = [] → p_log p' = p_log p).
Proof.
  intros H. induction H as [|p1 p2 p3 [a Ha] _ IH]; [done|]. intros Hd.
  destruct (step_after_shutdown a p1 p2 Ha Hd) as (Hd2 & Hs & Hl). destruct (IH Hd2) as [Hs' Hl']. split; [congruence|].
  intros Ht. destruct (Hl Ht) as [Ht' <-]. by apply Hl'.
Qed.

(** C24. Each accepted task runs once or is cancelled, and nothing gets past a
    shutdown. However calls and workers interleave: the accepted tasks leave the
    queue in order, taken by a worker or dropped; the taken ones are those that
    run or have ended, at most one for each of at most [max_workers] threads;
    without a cancelling shutdown none is dropped. Once a shutdown began no task
    is accepted, and once one that cancels has drained the queue none starts. *)
Theorem pool_runs_each_task_once p :
  reachable_pool p →
  p_submitted p = (p_log p).*1 ++ tasks (p_queue p) ∧
  taken_tasks (p_log p) ≡ₚ running (p_workers p) ++ p_finished p ∧
  length (running (p_workers p)) ≤ max_workers ∧
  ((∀ c, c ∈ p_closings p → cl_cancel c = false) → dropped_tasks (p_log p) = []) ∧
  ∀ p', rtc pool_step p p' → p_shutdown p = true →
    p_submitted p' = p_submitted p ∧
    ∀ c, c ∈ p_closings p → cl_cancel c = true → cl_stage c ≠ Draining → p_log p' = p_log p.
Proof.
  intros Hp%reachable_ok. split_and!.
  - apply (ok_fifo p Hp).
  - apply (ok_started p Hp).
  - pose proof (running_bound (p_workers p)). pose proof (ok_workers p Hp). lia.
  - apply (ok_dropped p Hp).
  - intros p' Hsteps Hd. destruct (after_shutdown p p' Hsteps Hd) as [Hs Hl]. split; [done|]. intros c Hc H1 H2. apply Hl.
    pose proof (ok_cancelled p Hp) as Hcan. rewrite Forall_forall in Hcan. by apply (Hcan c).
Qed.

(** ** The pool comes to rest *)

Definition stage_weight (c : closing) : nat :=
  match cl_stage c with
  | Draining => 3 * cl_workers c + 3
  | Putting n => 3 * n + 2
  | Joining => 1
  | Returned => 0
  end.

Definition work (w : drain_thread) : nat := match w with Running _ => 1 | _ => 0 end.

Definition pool_weight (p : worker_pool) : nat :=
  2 * length (p_queue p) + sum_list_with work (p_workers p) + sum_list_with stage_weight (p_closings p).

Lemma thread_step_weight p p' : worker_step p p' → pool_weight p' < pool_weight p.
Proof.
  intros ([t|wait cancel|i|i|i] & Hcall & H); try done; cbn in H; unfold pool_weight.
  - unfold drain_get in H. destruct (p_workers p !! i) as [[| |]|] eqn:Hi; try done. destruct (p_queue p) as [|x q] eqn:Hq; [done|].
    injection H as <-. cbn. pose proof (sum_replace work i Waiting (match x with Some t => Running t | None => Exited end) _ Hi) as Hs.
    destruct x; cbn in Hs |- *; lia.
  - unfold task_ends in H. destruct (p_workers p !! i) as [[|t|]|] eqn:Hi; try done. injection H as <-. cbn.
    pose proof (sum_replace work i (Running t) Waiting _ Hi) as Hs. cbn in Hs. lia.
  - destruct (p_closings p !! i) as [c|] eqn:Hi; [|done]. cbn in H. unfold close_on in H.
    pose proof (λ s, sum_replace stage_weight i c (at_stage s c) _ Hi) as Hs. unfold stage_weight at 2 4 in Hs.
    destruct (cl_stage c) as [|[|n]| |] eqn:Hst; [destruct (p_queue p) as [|x q] eqn:Hq|..]; try (destruct (forallb _ _); [|done]);
      simplify_eq; cbn; rewrite ?length_app; cbn.
    + specialize (Hs (Putting (cl_workers c))). cbn in Hs. rewrite Hq. cbn. lia.
    + lia.
    + specialize (Hs (if cl_wait c then Joining else Returned)). destruct (cl_wait c); cbn in Hs; lia.
    + specialize (Hs (Putting n)). cbn in Hs. lia.
    + specialize (Hs Returned). cbn in Hs. lia.
Qed.

Lemma workers_terminate p : sn worker_step p.
Proof.
  induction p as [p IH] using (well_founded_induction (well_founded_ltof _ pool_weight)).
  constructor. intros p' H. unfold flip in H. by apply IH, thread_step_weight.
Qed.

Lemma no_tasks q : ends_in_sentinels q → tasks q = [] → sum_list_with sentinel q = 0 → q = [].
Proof. intros (l & k & ->). destruct l as [|t l]; [|done]. destruct k; [done|]. cbn. lia. Qed.

Lemma all_gone l : sum_list_with gone l = length l ↔ Forall (λ w, w = Exited) l.
Proof.
  split.
  - induction l as [|w l IH]; cbn; [constructor|]. intros H.
    assert (sum_list_with gone l ≤ length l) as Hle by (clear; induction l as [|[] l IH]; cbn in *; lia).
    destruct w; cbn in H; [lia..|]. constructor; [done|]. apply IH. lia.
  - intros H. induction H as [|w l -> _ IH]; cbn; [done|]. by rewrite IH.
Qed.

Lemma exited_all l : Forall (λ w, w = Exited) l → forallb exited l = true.
Proof. intros H. by induction H as [|w l -> _ IH]. Qed.

(** At rest: what every thread of the pool is waiting for. *)
Record at_rest (p : worker_pool) : Prop := {
  ar_queue : p_queue p = [];
  ar_running : running (p_workers p) = [];
  ar_tasks : p_submitted p ≡ₚ p_finished p ++ dropped_tasks (p_log p);
  ar_workers : Forall (λ w, w = if p_shutdown p then Exited else Waiting) (p_workers p);
  ar_closings : Forall (λ c, cl_stage c = Returned) (p_closings p);
}.

Lemma stuck_workers p :
  nf worker_step p → Forall (λ w, w = Exited ∨ w = Waiting ∧ p_queue p = []) (p_workers p).
Proof.
  intros Hnf. apply Forall_forall. intros w [i Hi]%list_elem_of_lookup_1. destruct w as [|t|]; [right|exfalso|by left].
  - destruct (p_queue p) as [|x q] eqn:Hq; [done|]. exfalso. apply Hnf. eexists. exists (Get i). split; [done|].
    cbn. unfold drain_get. by rewrite Hi, Hq.
  - apply Hnf. eexists. exists (TaskEnds i). split; [done|]. cbn. unfold task_ends. by rewrite Hi.
Qed.

Lemma stuck_running l : Forall (λ w, w = Exited ∨ w = Waiting ∧ True) l → running l = [].
Proof.
  intros H. induction H as [|w l Hw _ IH]; [done|]. change (w :: l) with ([w] ++ l). rewrite running_app, running_one, IH.
  by destruct Hw as [->|[-> _]].
Qed.

Lemma stuck_closings p i c :
  nf worker_step p → p_closings p !! i = Some c →
  cl_stage c = Returned ∨ cl_stage c = Joining ∧ forallb exited (firstn (cl_workers c) (p_workers p)) = false.
Proof.
  intros Hnf Hi. destruct (close_on i c p) as [p'|] eqn:Hc.
  - exfalso. apply Hnf. exists p', (CloseOn i). split; [done|]. cbn. by rewrite Hi.
  - unfold close_on in Hc. destruct (cl_stage c) as [|[|n]| |]; [by destruct (p_queue p)|done|done| |by left].
    right. destruct (forallb _ _); [done|]. done.
Qed.

Lemma stuck_dues p : nf worker_step p → dues (p_closings p) = 0.
Proof.
  intros Hnf. assert (∀ c, c ∈ p_closings p → due c = 0) as H.
  { intros c [i Hi]%list_elem_of_lookup_1. unfold due. by destruct (stuck_closings p i c Hnf Hi) as [->|[-> _]]. }
  revert H. generalize (p_closings p). intros l. induction l as [|c l IH]; [done|]. intros H. cbn.
  rewrite (H c) by by left. apply IH. intros d Hd. apply H. by right.
Qed.

Lemma stuck_empty p : pool_inv p → 0 < max_workers → nf worker_step p → p_queue p = [] ∧ (p_shutdown p = true → Forall (λ w, w = Exited) (p_workers p)).
Proof.
  intros Hp Hmax Hnf. pose proof (stuck_workers p Hnf) as Hw. pose proof (stuck_dues p Hnf) as Hdue.
  assert (p_workers p = [] → tasks (p_queue p) = []) as Hnone.
  { intros Hl. pose proof (ok_workers p Hp) as Hn. rewrite Hl in Hn. cbn in Hn. pose proof (ok_fifo p Hp) as Hf.
    destruct (p_submitted p); [|cbn in Hn; lia]. symmetry in Hf. by apply app_nil in Hf as [_ ?]. }
  destruct (p_queue p) as [|x q] eqn:Hq.
  - split; [done|]. intros Hd. apply all_gone. pose proof (ok_closed p Hp Hd) as Hc. rewrite Hq, Hdue in Hc. cbn in Hc. lia.
  - exfalso. assert (Forall (λ w, w = Exited) (p_workers p)) as Hex by (eapply Forall_impl; [exact Hw|]; intros w [?|[_ ?]]; done).
    apply all_gone in Hex. assert (tasks (p_queue p) = []) as Ht.
    { rewrite Hq. destruct (p_workers p) as [|w l] eqn:Hl; [by apply Hnone|]. rewrite <- Hq. apply (ok_gone p Hp).
      rewrite Hl, Hex. cbn. lia. }
    assert (sentinels (p_queue p) = 0) as Hs.
    { destruct (p_shutdown p) eqn:Hd; [|by apply (ok_open p Hp)]. pose proof (ok_closed p Hp Hd). lia. }
    pose proof (no_tasks _ (ok_tail p Hp) Ht Hs). congruence.
Qed.

(** C25. The pool always comes to rest. From every reachable state, while the
    callers make no further call and running tasks end, no schedule is infinite,
    and where nothing can step the queue is empty, each accepted task has ended or
    was cancelled, every shutdown has returned, and the threads have exited after
    a shutdown and wait for work without one. *)
Theorem pool_comes_to_rest p :
  0 < max_workers → reachable_pool p →
  sn worker_step p ∧ ∀ p', rtc worker_step p p' → nf worker_step p' → at_rest p'.
Proof.
  intros Hmax Hreach%reachable_ok. split; [apply workers_terminate|]. intros p' Hsteps Hnf.
  assert (pool_inv p') as Hp.
  { eapply steps_ok; [exact Hreach|]. clear -Hsteps. induction Hsteps as [|p1 p2 p3 (a & _ & Ha) _ IH]; [done|].
    eapply rtc_l; [by exists a|exact IH]. }
  pose proof (stuck_workers p' Hnf) as Hw. destruct (stuck_empty p' Hp Hmax Hnf) as [Hq Hex].
  assert (running (p_workers p') = []) as Hrun
    by (apply stuck_running; eapply Forall_impl; [exact Hw|]; intros w [?|[? _]]; auto).
  split; [done|done| | |].
  - rewrite (ok_fifo p' Hp), Hq. change (tasks []) with (@nil T). rewrite app_nil_r, log_split, (ok_started p' Hp), Hrun. done.
  - destruct (p_shutdown p') eqn:Hd; [by apply Hex|]. destruct (ok_open p' Hp Hd) as (_ & _ & Hg). clear -Hw Hg.
    induction Hw as [|w l Hw _ IH]; [constructor|]. cbn in Hg. destruct Hw as [->|[-> _]]; [cbn in Hg; lia|]. constructor; [done|by apply IH].
  - apply Forall_forall. intros c [i Hi]%list_elem_of_lookup_1. destruct (stuck_closings p' i c Hnf Hi) as [?|[_ Hj]]; [done|exfalso].
    pose proof (closing_shut p' i c Hp Hi) as Hd. rewrite exited_all in Hj; [done|]. by apply Forall_take, Hex.
Qed.
End pool.

Arguments worker_pool : clear implicits.
Arguments drain_thread : clear implicits.
Arguments pool_action : clear implicits.

(** ** Two threads *)

Definition run_pool (max_workers : nat) (l : list (pool_action nat)) (p : worker_pool nat) : option (worker_pool nat) :=
  foldl (λ o a, p ← o; pool_exec max_workers a p) (Some p) l.

Lemma run_pool_steps n l p p' : run_pool n l p = Some p' → rtc (pool_step n) p p'.
Proof.
  unfold run_pool. revert p. induction l as [|a l IH]; intros p; cbn [foldl]; [by intros [= <-]|]. cbn.
  destruct (pool_exec n a p) as [p1|] eqn:Ha; [intros H; eapply rtc_l; [by exists a|by apply IH]|].
  intros H. exfalso. clear -H. induction l as [|b l IH]; [done|]. by apply IH.
Qed.

(** Four tasks; a shutdown that cancels while two run and one was taken between
    its drain. *)
Definition pool_schedule : list (pool_action nat) :=
  [Submit 1; Get 0; Submit 2; Submit 3; Submit 4; Get 1; Shutdown true true; TaskEnds 0; Get 0; CloseOn 0; CloseOn 0].

Lemma pool_runs_each_task_once_witness :
  ∃ p, run_pool 2 pool_schedule new_pool = Some p ∧ running (p_workers p) = [3; 2] ∧ p_finished p = [1] ∧
       dropped_tasks (p_log p) = [4] ∧ ∀ p', rtc (pool_step 2) p p' → p_log p' = p_log p.
Proof.
  eexists. split; [vm_compute; reflexivity|]. split; [reflexivity|]. split; [reflexivity|]. split; [reflexivity|].
  match goal with |- ∀ p', rtc _ ?p p' → _ => assert (reachable_pool 2 p) as Hr by (apply (run_pool_steps 2 pool_schedule); vm_compute; reflexivity) end.
  destruct (pool_runs_each_task_once 2 _ Hr) as (_ & _ & _ & _ & Hlate). intros p' Hp'.
  destruct (Hlate p' Hp' eq_refl) as [_ Hlog]. eapply Hlog; [by left|reflexivity|discriminate].
Defined.

Definition rest_schedule : list (pool_action nat) :=
  pool_schedule ++ [CloseOn 0; CloseOn 0; CloseOn 0; TaskEnds 1; Get 1; TaskEnds 0; Get 0; CloseOn 0].

Lemma pool_comes_to_rest_witness :
  ∃ p, run_pool 2 rest_schedule new_pool = Some p ∧
       at_rest p ∧ p_finished p = [1; 2; 3] ∧ dropped_tasks (p_log p) = [4].
Proof.
  eexists. split; [vm_compute; reflexivity|]. split; [|split; reflexivity].
  match goal with |- at_rest ?p => assert (reachable_pool 2 p) as Hr by (apply (run_pool_steps 2 rest_schedule); vm_compute; reflexivity) end.
  destruct (pool_comes_to_rest 2 _ ltac:(lia) Hr) as [_ Hrest]. apply Hrest; [reflexivity|].
  intros [p' ([t|b c|i|i|i] & Hcall & H)]; try discriminate Hcall; destruct i as [|[|i]]; discriminate H.
Defined.
