(* ===== verification/BatchRouting.v ===== *)
(** batch_routing.py: the choice between the synchronous and the batch channel,
    the cheapest upstream, and the batch backends over a provider's Batch API -
    what is submitted, what is remembered of it, and what a download becomes.

    The Batch API client is not in the repository: its answers are arguments. *)

From Stdlib Require Import Ascii String.
From S2P Require Import Prelude StateLogic PyString PyCollections PyFloat PyValue JobRegistry Agents Workflow PyDecimal PriceBook.
Open Scope Z_scope.
Open Scope py_scope.

Abbreviation dict := (list (pyval * pyval)).
Abbreviation candidate := (list (string * string)).       (* {"provider": ..., "model": ...} *)

Inductive routing_error :=
| BatchDownloadError (job_id : string) (reason : pyval)
| RoutingValueError (m : string)
| RoutingTypeError
| RoutingAttributeError
| RoutingRuntimeError (m : string)
| RoutingKeyError (k : string)
| RoutingInvalidOperation.

Section routing.
Context {C : Type} `{!ConfigStore C}.
Context (other_str : pyval → string) (default_currency : string). (* str() of a float, list or dict *)

Abbreviation str_val := (str_val other_str).

(** ** Sync or batch *)

Record RoutingHints := {
  hint_channel : option string;
  hint_latency_tolerant : bool;
  hint_priority : string;
}.

(** [RoutingHints.from_mapping]. *)
Definition hints_of_mapping (data : dict) : RoutingHints :=
  {| hint_channel := match dget "channel" data with VNone => None | v => Some (str_lower (str_val v)) end;
     hint_latency_tolerant := truthy (default (VBool false) (dict_get "latency_tolerant" data));
     hint_priority := str_lower (str_val (default (VStr "normal") (dict_get "priority" data))) |}.

Inductive channel := Sync | Batch.

Record RoutingDecision := { rd_channel : channel; rd_reason : string }.

Definition routing_config (key : string) (dflt : pyval) (c : C) : pyval := default dflt (config_get "routing" key c).

Definition _batch_enabled (c : C) : bool := truthy (routing_config "batch_enabled" (VBool true) c).

(** [int(v)]. *)
Definition int_val (v : pyval) : res routing_error Z :=
  map_raise (λ e, match e with PlanValueError m => RoutingValueError m | _ => RoutingTypeError end) (int_value v).

Definition sync (reason : string) : res routing_error RoutingDecision := Ok {| rd_channel := Sync; rd_reason := reason |}.
Definition batch (reason : string) : res routing_error RoutingDecision := Ok {| rd_channel := Batch; rd_reason := reason |}.

Definition channel_is (name : string) (h : RoutingHints) : bool :=
  match hint_channel h with Some c => String.eqb c name | None => false end.

Definition decide_channel (c : C) (h : RoutingHints) (prompt_tokens : option Z) : res routing_error RoutingDecision :=
  if negb (_batch_enabled c) then sync "batch routing disabled by config"
  else if String.eqb (hint_priority h) "interactive" && truthy (routing_config "interactive_forces_sync" (VBool true) c)
  then sync "interactive priority forces sync"
  else if channel_is "sync" h then sync "caller requested sync channel"
  else if channel_is "batch" h then batch "caller requested batch channel"
  else if hint_latency_tolerant h || String.eqb (hint_priority h) "bulk"
  then batch "latency-tolerant request routed to batch"
  else
    batch_min_tokens ← int_val (routing_config "batch_min_tokens" (VInt 0) c);
    if batch_min_tokens =? 0 then sync "default interactive path"
    else
      match prompt_tokens with
      | None => sync "prompt token count unavailable; conservative sync path"
      | Some n =>
          if batch_min_tokens <=? n
          then batch ("prompt tokens " +:+ str_of_Z n +:+ " >= batch_min_tokens " +:+ str_of_Z batch_min_tokens)
          else sync "default interactive path"
      end.

(** ** The cheapest upstream *)



Definition upstream_cost (c : C) (assumed_prompt_tokens assumed_completion_tokens : Z) (u : candidate)
    : res routing_error (option float) :=
  match compute_cost default_currency (default "" (od_get "provider" u)) (default "" (od_get "model" u))
          assumed_prompt_tokens assumed_completion_tokens c with
  | Ok (cost, _, price_known) => Ok (if price_known then Some cost else None)
  | Raise _ => Raise RoutingInvalidOperation
  end.

(** The loop, with the best candidate so far and its cost. *)
Fixpoint cheapest_from (cost : candidate → res routing_error (option float)) (best : option (candidate * float))
    (candidates : list candidate) : res routing_error (option candidate) :=
  match candidates with
  | [] => Ok (fst <$> best)
  | u :: candidates =>
      x ← cost u;
      cheapest_from cost
        match x, best with
        | None, _ => best
        | Some x, None => Some (u, x)
        | Some x, Some (_, y) => if fltb x y then Some (u, x) else best
        end candidates
  end.

Definition cheapest_upstream (candidates : list candidate) (c : C) (assumed_prompt_tokens assumed_completion_tokens : Z)
    : res routing_error (option candidate) :=
  cheapest_from (upstream_cost c assumed_prompt_tokens assumed_completion_tokens) None candidates.

(** ** Requests, jobs, results *)

Record BatchRequest := {
  br_messages : list pyval;
  br_model : string;
  br_custom_id : string;
  br_attribution : dict;
  br_mode : string;
  br_zdr_only : bool;
}.

Definition to_jsonl_line (endpoint : string) (r : BatchRequest) : dict :=
  [(VStr "custom_id", VStr (br_custom_id r)); (VStr "method", VStr "POST"); (VStr "url", VStr endpoint);
   (VStr "body", VDict [(VStr "model", VStr (br_model r)); (VStr "messages", VList (br_messages r))])].

Record BatchResultItem := {
  ri_custom_id : string;
  ri_answer : pyval;
  ri_prompt_tokens : Z;
  ri_completion_tokens : Z;
  ri_attribution : dict;
  ri_model : string;
  ri_mode : pyval;
  ri_messages : list pyval;
  ri_trace : list pyval;
  ri_cache_status : pyval;
  ri_race_usage : list pyval;
  ri_usage_valid : option bool;
}.

(** ** Downloads *)

Definition download_failed {A} (job_id reason : string) : res routing_error A := Raise (BatchDownloadError job_id (VStr reason)).

Definition successful_status (v : pyval) : bool :=
  match v with VNone => true | VInt z => (200 <=? z) && (z <? 300) | _ => false end.

(** The loop over the rows, with the identifiers seen. *)
Fixpoint validate_rows (expected : list string) (job_id : string) (seen : list string) (rows : list pyval)
    : res routing_error (list (string * dict)) :=
  match rows with
  | [] => Ok []
  | VDict entry :: rows =>
      match dget "custom_id" entry with
      | VStr custom_id =>
          if negb (in_strs custom_id expected) || in_strs custom_id seen
          then download_failed job_id "response identifiers do not match the submission"
          else
            match dget "error" entry, dget "response" entry with
            | VNone, VDict response =>
                if successful_status (dget "status_code" response)
                then cons (custom_id, entry) <$> validate_rows expected job_id (custom_id :: seen) rows
                else download_failed job_id "one or more batch items failed"
            | VNone, _ => download_failed job_id "malformed response row"
            | _, _ => download_failed job_id "one or more batch items failed"
            end
      | _ => download_failed job_id "response identifiers do not match the submission"
      end
  | _ => download_failed job_id "malformed response row"
  end.

(** The rows with their identifiers; [expected_custom_ids] lists a set. *)
Definition _validated_download_responses (payload : dict) (expected_custom_ids : list string) (request_count : Z)
    (job_id : string) : res routing_error (list (string * dict)) :=
  match dget "responses" payload with
  | VList responses =>
      if negb (request_count =? 0) && bool_decide (expected_custom_ids = [])
      then download_failed job_id "submitted request metadata is unavailable"
      else
        rows ← validate_rows expected_custom_ids job_id [] responses;
        if forallb (λ k, in_strs k rows.*1) expected_custom_ids && (Z.of_nat (length responses) =? request_count)
        then Ok rows
        else download_failed job_id "download returned an incomplete result set"
  | _ => download_failed job_id "malformed response list"
  end.

(** [v or {}], and then its items. *)
Definition dict_or_empty (v : pyval) : res routing_error dict :=
  match v with VDict d => Ok d | _ => if truthy v then Raise RoutingAttributeError else Ok [] end.

(** [v[0]]. *)
Definition first_of (v : pyval) : res routing_error pyval :=
  match v with
  | VList (x :: _) | VTuple (x :: _) => Ok x
  | VStr (String c _) => Ok (VStr (String c EmptyString))
  | VDict _ => Raise (RoutingKeyError "0")
  | _ => Raise RoutingTypeError
  end.

(** [v.get(k, default)]. *)
Definition get_of (v : pyval) (k : string) (dflt : pyval) : res routing_error pyval :=
  match v with VDict d => Ok (default dflt (dict_get k d)) | _ => Raise RoutingAttributeError end.

Definition _extract_answer (body : dict) : res routing_error string :=
  let choices := dget "choices" body in
  if truthy choices then
    choice ← first_of choices;
    message ← get_of choice "message" VNone;
    message ← dict_or_empty message;
    Ok (str_val (default (VStr "") (dict_get "content" message)))
  else Ok "".

(** ** The provider's Batch API *)

(** What is remembered of a submission. *)
Record pg_job := {
  pj_endpoint_alias : string;
  pj_recovery_identity : option string;
  pj_endpoint : string;
  pj_requests : list (string * BatchRequest);             (* a dictionary *)
}.

Record BatchJob := {
  bj_job_id : string;
  bj_backend : string;
  bj_status : pyval;
  bj_request_count : Z;
  bj_registry_status : string;                            (* backend_registry_persistence_status *)
  bj_recovered : option (list (string * BatchRequest));   (* recovered_request_metadata *)
}.

(** The configuration of a [PgLlmBatchBackend]. *)
Record pg_backend := { pb_endpoint_alias : string; pb_endpoint : string; pb_recovery_identity : option string }.

(** [{request.custom_id: ... for request in requests}]. *)
Definition tracked_of (requests : list BatchRequest) : list (string * BatchRequest) :=
  fold_left (λ d r, od_set (br_custom_id r) r d) requests [].

Section pg.
Context {M : Type} `{!Mapping M pg_job}.
Context (b : pg_backend).

(** [created] is what uploading the file and creating the job give: the id and
    the status of the job; [outage]: the registry cannot be written. *)
Definition pg_submit (created : res routing_error (string * option pyval)) (outage : bool) (requests : list BatchRequest)
    : ST M routing_error BatchJob := λ jobs,
  match created with
  | Raise e => (jobs, Raise e)
  | Ok (batch_id, status) =>
      let jobs :=
        if outage then jobs
        else setitem jobs batch_id
               {| pj_endpoint_alias := pb_endpoint_alias b; pj_recovery_identity := pb_recovery_identity b;
                  pj_endpoint := pb_endpoint b; pj_requests := tracked_of requests |} in
      (jobs,
       Ok {| bj_job_id := batch_id; bj_backend := "pg-llm-batch"; bj_status := default (VStr "validating") status;
             bj_request_count := Z.of_nat (length requests);
             bj_registry_status := if outage then "write_failed" else "stored"; bj_recovered := None |})
  end.

Definition token_pair (usage : dict) : option (Z * Z) :=
  match dget "prompt_tokens" usage, dget "completion_tokens" usage with
  | VInt p, VInt c => if (0 <=? p) && (0 <=? c) then Some (p, c) else None
  | _, _ => None
  end.

(** One row of a download. *)
Definition pg_item (tracked : list (string * BatchRequest)) (row : string * dict) : res routing_error BatchResultItem :=
  response ← dict_or_empty (dget "response" row.2);
  body ← dict_or_empty (dget "body" response);
  answer ← _extract_answer body;
  usage ← dict_or_empty (dget "usage" body);
  let request := od_get row.1 tracked in
  Ok {| ri_custom_id := row.1; ri_answer := VStr answer;
        ri_prompt_tokens := default 0 (fst <$> token_pair usage);
        ri_completion_tokens := default 0 (snd <$> token_pair usage);
        ri_attribution := default [] (br_attribution <$> request);
        ri_model := default "contextual-orchestrator" (br_model <$> request);
        ri_mode := VStr (default "auto" (br_mode <$> request));
        ri_messages := default [] (br_messages <$> request);
        ri_trace := []; ri_cache_status := VNone; ri_race_usage := [];
        ri_usage_valid := Some (bool_decide (is_Some (token_pair usage))) |}.

Definition pg_retrieve (payload : dict) (job : BatchJob) : ST M routing_error (list BatchResultItem) := λ jobs,
  if negb (truthy (dget "success" payload))
  then (jobs, Raise (BatchDownloadError (bj_job_id job) (py_or (dget "reason" payload) (dget "error" payload))))
  else
    let '(jobs, tracked) :=
      match bj_recovered job with
      | Some restored => (jobs, restored)
      | None => let '(jobs, document) := getitem jobs (bj_job_id job) in (jobs, default [] (pj_requests <$> document))
      end in
    (jobs,
     rows ← _validated_download_responses payload tracked.*1 (bj_request_count job) (bj_job_id job);
     map_res (pg_item tracked) rows).

(** [has_job_metadata]. *)
Definition has_job_metadata (job : BatchJob) (jobs : M) : bool :=
  match (getitem jobs (bj_job_id job)).2 with
  | Some document =>
      String.eqb (pj_endpoint_alias document) (pb_endpoint_alias b) &&
      bool_decide (pj_recovery_identity document = pb_recovery_identity b) &&
      String.eqb (pj_endpoint document) (pb_endpoint b) &&
      (Z.of_nat (length (pj_requests document)) =? bj_request_count job)
  | None => false
  end.

(** ** Recovery without the registry *)

Definition dims_as_dict (a : AttributionDimensions) : dict :=
  map (λ '(name, v), (VStr name, VStr v))
    [("account", account a); ("service", service a); ("upstream_api", upstream_api a); ("model_name", model_dimension a);
     ("team", team a); ("group", group a); ("company", company a)].

Definition opt_str (o : option string) : pyval := match o with Some s => VStr s | None => VNone end.

Definition item_descriptor (r : BatchRequest) : pyval :=
  VDict [(VStr "custom_id", VStr (br_custom_id r)); (VStr "model", VStr (br_model r)); (VStr "mode", VStr (br_mode r));
         (VStr "attribution", VDict (dims_as_dict (from_mapping other_str (br_attribution r))))].

Definition recovery_descriptor (requests : list BatchRequest) : dict :=
  [(VStr "recovery_identity", opt_str (pb_recovery_identity b)); (VStr "backend_name", VStr "pg-llm-batch");
   (VStr "endpoint_alias", VStr (pb_endpoint_alias b)); (VStr "endpoint", VStr (pb_endpoint b));
   (VStr "items", VList (map item_descriptor requests))].

Definition string_is (s : string) (v : pyval) : bool := match v with VStr s' => String.eqb s' s | _ => false end.

(** [set(item) == {...}] of an item with string keys. *)
Definition descriptor_keys (item : dict) : bool :=
  forallb (λ kv, match kv.1 with
                 | VStr k => in_strs k ["custom_id"; "model"; "mode"; "attribution"]
                 | _ => false
                 end) item &&
  forallb (λ k, bool_decide (is_Some (dict_get k item))) ["custom_id"; "model"; "mode"; "attribution"].

Definition nonempty_text (v : pyval) : option string :=
  match v with VStr s => if str_truthy s then Some s else None | _ => None end.

(** The loop over the descriptors; a restored item has no messages. *)
Fixpoint restore_items (items : list pyval) (restored : list (string * BatchRequest))
    : res routing_error (list (string * BatchRequest)) :=
  match items with
  | [] => Ok restored
  | VDict item :: items =>
      if negb (descriptor_keys item) then Raise (RoutingValueError "invalid batch item descriptor")
      else
        match nonempty_text (dget "custom_id" item), nonempty_text (dget "model" item), nonempty_text (dget "mode" item) with
        | Some custom_id, Some model, Some mode =>
            match od_get custom_id restored, dget "attribution" item with
            | None, VDict attribution =>
                restore_items items
                  (od_set custom_id {| br_messages := []; br_model := model; br_custom_id := custom_id;
                                       br_attribution := attribution; br_mode := mode; br_zdr_only := false |} restored)
            | _, _ => Raise (RoutingValueError "invalid batch item metadata")
            end
        | _, _, _ => Raise (RoutingValueError "invalid batch item identity")
        end
  | _ => Raise (RoutingValueError "invalid batch item descriptor")
  end.

Definition with_recovered (restored : list (string * BatchRequest)) (job : BatchJob) : BatchJob :=
  {| bj_job_id := bj_job_id job; bj_backend := bj_backend job; bj_status := bj_status job;
     bj_request_count := bj_request_count job; bj_registry_status := bj_registry_status job;
     bj_recovered := Some restored |}.

Definition restore_descriptor (job : BatchJob) (descriptor : dict) : res routing_error BatchJob :=
  match pb_recovery_identity b with
  | Some identity =>
      if string_is "pg-llm-batch" (dget "backend_name" descriptor) && string_is identity (dget "recovery_identity" descriptor) &&
         string_is (pb_endpoint_alias b) (dget "endpoint_alias" descriptor) &&
         string_is (pb_endpoint b) (dget "endpoint" descriptor)
      then
        match dget "items" descriptor with
        | VList items =>
            if Z.of_nat (length items) =? bj_request_count job
            then (λ restored, with_recovered restored job) <$> restore_items items []
            else Raise (RoutingValueError "batch item count mismatch")
        | _ => Raise (RoutingValueError "batch item count mismatch")
        end
      else Raise (RoutingValueError "batch target mismatch")
  | None => Raise (RoutingValueError "batch target mismatch")
  end.
End pg.

(** ** The local backend *)

(** [reported]: a count that is an [int] and not negative. *)
Definition reported (key : string) (step : pyval) : Z :=
  match step with
  | VDict d =>
      match dget "usage" d with
      | VDict usage => match dget key usage with VInt z => if 0 <=? z then z else 0 | _ => 0 end
      | _ => 0
      end
  | _ => 0
  end.

(** The items of [v or []]. *)
Definition items_of (v : pyval) : res routing_error (list pyval) :=
  match v with
  | VList l | VTuple l => Ok l
  | VStr s => Ok (map (λ c, VStr (String c EmptyString)) (str_list s))
  | VDict d => Ok d.*1
  | _ => if truthy v then Raise RoutingTypeError else Ok []
  end.

Definition trace_step (step : pyval) : option pyval :=
  match step with
  | VDict d =>
      Some (VDict (omap (λ k, v ← dict_get k d; Some (VStr k, v)) ["agent_id"; "served_agent_id"; "usage"; "output"]))
  | _ => None
  end.

Definition local_item (request : BatchRequest) (result : dict) : res routing_error BatchResultItem :=
  steps ← items_of (dget "trace" result);
  race ← items_of (dget "_batch_race_usage" result);
  let trace := omap trace_step steps in
  Ok {| ri_custom_id := br_custom_id request; ri_answer := default (VStr "") (dict_get "answer" result);
        ri_prompt_tokens := foldr (λ s n, reported "prompt_tokens" s + n) 0 trace;
        ri_completion_tokens := foldr (λ s n, reported "completion_tokens" s + n) 0 trace;
        ri_attribution := br_attribution request; ri_model := br_model request;
        ri_mode := default (VStr (br_mode request)) (dict_get "mode" result); ri_messages := br_messages request;
        ri_trace := trace; ri_cache_status := dget "cache_status" result; ri_race_usage := race; ri_usage_valid := None |}.

(** [LocalBatchBackend.submit]: [runner i] is what the runner does with the i-th
    request; the results keep the order of the requests also when they run in a
    pool. *)
Definition local_submit {M} `{!Mapping M (list BatchResultItem)} (uuid_hex : string)
    (runner : nat → BatchRequest → res routing_error dict) (requests : list BatchRequest) : ST M routing_error BatchJob := λ results,
  match map_res (λ ir, result ← runner ir.1 ir.2; local_item ir.2 result) (imap pair requests) with
  | Raise e => (results, Raise e)
  | Ok items =>
      let job_id := "localbatch_" +:+ uuid_hex in
      (setitem results job_id items,
       Ok {| bj_job_id := job_id; bj_backend := "local"; bj_status := VStr "completed";
             bj_request_count := Z.of_nat (length requests); bj_registry_status := "unavailable"; bj_recovered := None |})
  end.

Definition local_retrieve {M} `{!Mapping M (list BatchResultItem)} (job : BatchJob) (results : M) : M * list BatchResultItem :=
  let '(results, items) := getitem results (bj_job_id job) in (results, default [] items).

(** ** Embeddings *)

Record EmbeddingBatchRequest := {
  eb_input_text : string;
  eb_model : string;
  eb_custom_id : string;
  eb_attribution : dict;
  eb_metadata : dict;
  eb_source_index : Z;
  eb_part_index : Z;
  eb_part_count : Z;
  eb_token_count : Z;
  eb_token_start : Z;
  eb_token_end : Z;
  eb_shard_index : Z;
  eb_routing_agent_id : option string;
  eb_zdr_only : bool;
  eb_agent_id : option string;
  eb_provider_routing : option dict;
}.

Record EmbeddingBatchResultItem := {
  ei_custom_id : string;
  ei_index : Z;
  ei_embedding : list float;
  ei_prompt_tokens : Z;
  ei_model : string;
  ei_agent_id : option string;
}.

Context (sha256_hex : string → string) (other_float : pyval → option float). (* hashlib; float() of a string *)

Definition _PROVIDER_CUSTOM_ID_MAX_LENGTH : Z := 64.

(** The agent and the id with a NUL between them. *)
Definition wire_identity (r : EmbeddingBatchRequest) : string :=
  match eb_agent_id r with
  | None => eb_custom_id r
  | Some a => a +:+ String (ascii_of_nat 0) (eb_custom_id r)
  end.

Definition wire_custom_id (r : EmbeddingBatchRequest) : string :=
  if bool_decide (eb_agent_id r = None) && (str_len (eb_custom_id r) <=? _PROVIDER_CUSTOM_ID_MAX_LENGTH)
  then eb_custom_id r
  else sha256_hex (wire_identity r).

Definition embedding_jsonl_line (endpoint : string) (r : EmbeddingBatchRequest) : dict :=
  let body := [(VStr "model", VStr (eb_model r)); (VStr "input", VStr (eb_input_text r))] in
  [(VStr "custom_id", VStr (wire_custom_id r)); (VStr "method", VStr "POST"); (VStr "url", VStr endpoint);
   (VStr "body", VDict (match eb_provider_routing r with
                        | Some routing => body ++ [(VStr "provider", VDict routing)]
                        | None => body
                        end))].

(** The metadata of the job: the agents of its requests. *)
Definition embedding_metadata (metadata : option dict) (requests : list EmbeddingBatchRequest) : option dict :=
  let agent_ids :=
    py_sorted String.leb (remove_dups (omap (λ r, a ← eb_agent_id r; if str_truthy a then Some a else None) requests)) in
  match agent_ids with
  | [] => metadata
  | [agent_id] => Some (dict_set "agent_id" (VStr agent_id) (default [] metadata))
  | _ => Some (dict_set "agent_ids" (VList (map VStr agent_ids)) (default [] metadata))
  end.

Record embedding_job := {
  ej_endpoint_alias : string;
  ej_requests : list (string * EmbeddingBatchRequest);
  ej_order : list string;
}.

(** [{wire_id: ... for wire_id, request in zip(wire_custom_ids, requests)}]. *)
Definition tracked_embeddings (requests : list EmbeddingBatchRequest) : list (string * EmbeddingBatchRequest) :=
  fold_left (λ d r, od_set (wire_custom_id r) r d) requests [].

(** [{custom_id: pos for pos, custom_id in enumerate(order)}]. *)
Definition positions (order : list string) : list (string * Z) :=
  fold_left (λ d ik, od_set ik.2 (Z.of_nat ik.1) d) (imap pair order) [].

(** [float(v)]. *)
Definition float_val (v : pyval) : res routing_error float :=
  match v with
  | VFloat x => Ok x
  | VInt z => Ok (float_of_Z z)
  | VBool b => Ok (float_of_Z (if b then 1 else 0))
  | VStr _ => match other_float v with
              | Some x => Ok x
              | None => Raise (RoutingValueError "could not convert string to float")
              end
  | _ => Raise RoutingTypeError
  end.

Definition _extract_embedding (body : pyval) : res routing_error (list float) :=
  data ← get_of body "data" VNone;
  if truthy data then
    entry ← first_of data;
    vector ← get_of entry "embedding" VNone;
    values ← items_of vector;
    map_res float_val values
  else Ok [].

(** [LocalEmbeddingBatchBackend]: the embedder and the token counter are given to it. *)
Definition _count_tokens (token_counter : option (string → string → res routing_error Z)) (text model : string) : res routing_error Z :=
  match token_counter with
  | None => Raise (RoutingRuntimeError "an authoritative embedding tokenizer is required")
  | Some count_text => count_text text model
  end.

Definition local_embedding_item (embedder : string → res routing_error (list float))
    (token_counter : option (string → string → res routing_error Z)) (ir : nat * EmbeddingBatchRequest)
    : res routing_error EmbeddingBatchResultItem :=
  vector ← embedder (eb_input_text ir.2);
  prompt_tokens ← _count_tokens token_counter (eb_input_text ir.2) (eb_model ir.2);
  Ok {| ei_custom_id := eb_custom_id ir.2; ei_index := Z.of_nat ir.1; ei_embedding := vector;
        ei_prompt_tokens := prompt_tokens; ei_model := eb_model ir.2; ei_agent_id := eb_agent_id ir.2 |}.

Definition local_embedding_submit {M} `{!Mapping M (list EmbeddingBatchResultItem)} (uuid_hex : string)
    (embedder : string → res routing_error (list float)) (token_counter : option (string → string → res routing_error Z))
    (requests : list EmbeddingBatchRequest) : ST M routing_error BatchJob := λ results,
  match map_res (local_embedding_item embedder token_counter) (imap pair requests) with
  | Raise e => (results, Raise e)
  | Ok items =>
      let job_id := "localembed_" +:+ uuid_hex in
      (setitem results job_id items,
       Ok {| bj_job_id := job_id; bj_backend := "local"; bj_status := VStr "completed";
             bj_request_count := Z.of_nat (length requests); bj_registry_status := "unavailable"; bj_recovered := None |})
  end.

Section pg_embeddings.
Context {M : Type} `{!Mapping M embedding_job} (endpoint_alias : string).

Definition embedding_submit (created : res routing_error (string * option pyval)) (requests : list EmbeddingBatchRequest)
    : ST M routing_error BatchJob := λ jobs,
  match created with
  | Raise e => (jobs, Raise e)
  | Ok (batch_id, status) =>
      (setitem jobs batch_id
         {| ej_endpoint_alias := endpoint_alias; ej_requests := tracked_embeddings requests;
            ej_order := map wire_custom_id requests |},
       Ok {| bj_job_id := batch_id; bj_backend := "pg-llm-batch"; bj_status := default (VStr "validating") status;
             bj_request_count := Z.of_nat (length requests); bj_registry_status := "unavailable"; bj_recovered := None |})
  end.

(** One row; [count] results precede it. *)
Definition embedding_item (tracked : list (string * EmbeddingBatchRequest)) (order : list string)
    (count : nat) (row : string * dict) : res routing_error EmbeddingBatchResultItem :=
  response ← dict_or_empty (dget "response" row.2);
  let body := default (VDict []) (dict_get "body" response) in
  embedding ← _extract_embedding body;
  usage ← get_of body "usage" (VDict []);
  usage ← dict_or_empty usage;
  prompt_tokens ← int_val (default (VInt 0) (dict_get "prompt_tokens" usage));
  let request := od_get row.1 tracked in
  Ok {| ei_custom_id := default row.1 (eb_custom_id <$> request);
        ei_index := default (Z.of_nat count) (od_get row.1 (positions order));
        ei_embedding := embedding; ei_prompt_tokens := prompt_tokens;
        ei_model := default "contextual-orchestrator" (eb_model <$> request);
        ei_agent_id := request ≫= eb_agent_id |}.

Definition index_leb (x y : EmbeddingBatchResultItem) : bool := ei_index x <=? ei_index y.

Definition embedding_retrieve (payload : dict) (job : BatchJob) : ST M routing_error (list EmbeddingBatchResultItem) := λ jobs,
  if negb (truthy (dget "success" payload))
  then (jobs, Raise (BatchDownloadError (bj_job_id job) (py_or (dget "reason" payload) (dget "error" payload))))
  else
    let '(jobs, document) := getitem jobs (bj_job_id job) in
    let tracked := default [] (ej_requests <$> document) in
    let order := default [] (ej_order <$> document) in
    (jobs,
     rows ← _validated_download_responses payload tracked.*1 (bj_request_count job) (bj_job_id job);
     items ← map_res (λ ir, embedding_item tracked order ir.1 ir.2) (imap pair rows);
     Ok (py_sorted index_leb items)).
End pg_embeddings.
End routing.

(** ** Lemmas *)

Lemma fleb_fltb_trans x y z : fleb x y = true → fltb y z = true → fltb x z = true.
Proof.
  intros Hxy Hyz. assert (is_nan x = false) as Hx by (by destruct x). assert (is_nan y = false) as Hy by (by destruct x, y).
  assert (is_nan z = false) as Hz by (by destruct y, z). rewrite fleb_fltb in Hxy by done. apply negb_true_iff in Hxy.
  rewrite fltb_rank in * by done. rewrite lex_ltb_spec in *. apply not_true_iff_false in Hxy. rewrite lex_ltb_spec in Hxy. lia.
Qed.

(** A dictionary comprehension over distinct keys. *)
Lemma od_comprehension {A V} (key : A → string) (val : A → V) l :
  NoDup (map key l) → fold_left (λ d x, od_set (key x) (val x) d) l [] = map (λ x, (key x, val x)) l.
Proof.
  intros Hnd. change (map (λ x, (key x, val x)) l) with ([] ++ map (λ x, (key x, val x)) l).
  assert (∀ x, x ∈ l → key x ∉ ([] : list (string * V)).*1) as Hnew by (intros x _; apply not_elem_of_nil).
  revert Hnew. generalize ([] : list (string * V)). induction l as [|x l IH]; intros d Hnew; cbn; [by rewrite app_nil_r|].
  cbn in Hnd. apply NoDup_cons in Hnd as [Hx Hnd]. rewrite od_set_new by (apply Hnew; by left). rewrite IH; [|done|].
  - by rewrite <- app_assoc.
  - intros y Hy. rewrite fmap_app, elem_of_app. intros [Hin|Hin].
    + apply (Hnew y); [by right|done].
    + apply list_elem_of_singleton in Hin. apply Hx. cbn in Hin. rewrite <- Hin. apply list_elem_of_fmap. by exists y.
Qed.

(** ** The cheapest upstream *)

Section cheapest.
Context (cost : candidate → res routing_error (option float)).

(** The best of the candidates so far. *)
Definition best_of (seen : list candidate) (best : option (candidate * float)) : Prop :=
  match best with
  | None => ∀ v, v ∈ seen → cost v = Ok None
  | Some (u, x) =>
      ∃ i, seen !! i = Some u ∧ cost u = Ok (Some x) ∧
        (∀ v y, v ∈ seen → cost v = Ok (Some y) → fltb y x = false) ∧
        (∀ j v y, (j < i)%nat → seen !! j = Some v → cost v = Ok (Some y) → fleb y x = false)
  end.

Lemma best_of_unpriced seen best u : cost u = Ok None → best_of seen best → best_of (seen ++ [u]) best.
Proof.
  intros Hu. destruct best as [[w x]|]; cbn.
  - intros (i & Hi & Hw & Hmin & Hfirst). exists i. pose proof (lookup_lt_Some _ _ _ Hi). split_and!; [|done| |].
    + by apply lookup_app_l_Some.
    + intros v y [Hv| ->%list_elem_of_singleton]%elem_of_app Hy; [by apply (Hmin v)|congruence].
    + intros j v y Hj Hv. rewrite lookup_app_l in Hv by lia. by apply (Hfirst j).
  - intros H v [Hv| ->%list_elem_of_singleton]%elem_of_app; [by apply H|done].
Qed.

Lemma best_of_dearer seen w x u y :
  cost u = Ok (Some y) → fltb y x = false → best_of seen (Some (w, x)) → best_of (seen ++ [u]) (Some (w, x)).
Proof.
  intros Hu Hlt (i & Hi & Hw & Hmin & Hfirst). exists i. pose proof (lookup_lt_Some _ _ _ Hi). split_and!; [|done| |].
  - by apply lookup_app_l_Some.
  - intros v z [Hv| ->%list_elem_of_singleton]%elem_of_app Hz; [by apply (Hmin v)|congruence].
  - intros j v z Hj Hv. rewrite lookup_app_l in Hv by lia. by apply (Hfirst j).
Qed.

Lemma best_of_cheaper seen best u y :
  cost u = Ok (Some y) → match best with Some (_, x) => fltb y x = true | None => True end →
  best_of seen best → best_of (seen ++ [u]) (Some (u, y)).
Proof.
  intros Hu Hlt Hbest. assert (∀ v z, v ∈ seen → cost v = Ok (Some z) → fleb z y = false) as Hseen.
  { intros v z Hv Hz. destruct best as [[w x]|]; cbn in Hbest.
    - destruct Hbest as (i & _ & _ & Hmin & _). destruct (fleb z y) eqn:Hzy; [|done].
      specialize (Hmin v z Hv Hz). by rewrite (fleb_fltb_trans z y x Hzy Hlt) in Hmin.
    - rewrite (Hbest v Hv) in Hz. done. }
  exists (length seen). split_and!; [by apply list_lookup_middle|done| |].
  - intros v z [Hv| ->%list_elem_of_singleton]%elem_of_app Hz.
    + specialize (Hseen v z Hv Hz). destruct (fltb z y) eqn:Hzy; [|done].
      unfold fleb, fltb, SFleb, SFltb in *. destruct (SFcompare z y) as [[]|]; done.
    + rewrite Hu in Hz. injection Hz as <-. apply fltb_irrefl.
  - intros j v z Hj Hv. rewrite lookup_app_l in Hv by done. apply (Hseen v). by eapply list_elem_of_lookup_2.
Qed.

Lemma cheapest_from_best l : ∀ seen best o,
  best_of seen best → cheapest_from cost best l = Ok o → ∃ best', o = fst <$> best' ∧ best_of (seen ++ l) best'.
Proof.
  induction l as [|u l IH]; intros seen best o Hbest; cbn.
  { intros [= <-]. exists best. by rewrite app_nil_r. }
  destruct (cost u) as [[y|]|e] eqn:Hu; cbn; [| |done].
  - replace (seen ++ u :: l) with ((seen ++ [u]) ++ l) by (by rewrite <- app_assoc). apply IH.
    destruct best as [[w x]|]; [destruct (fltb y x) eqn:Hlt|].
    + by eapply best_of_cheaper; [|instantiate (1 := Some (w, x))|].
    + by eapply best_of_dearer.
    + by eapply best_of_cheaper; [|instantiate (1 := None)|].
  - replace (seen ++ u :: l) with ((seen ++ [u]) ++ l) by (by rewrite <- app_assoc). by apply IH, best_of_unpriced.
Qed.
End cheapest.

(** The upstream chosen is the cheapest: it is priced, no priced candidate
    costs less, and every priced candidate before it costs more; nothing is
    chosen only when no candidate has a known price. *)
Theorem cheapest_is_cheapest {C} `{!ConfigStore C} default_currency (candidates : list candidate) (c : C) pt ct o :
  cheapest_upstream default_currency candidates c pt ct = Ok o →
  match o with
  | Some u => ∃ i x, candidates !! i = Some u ∧ upstream_cost default_currency c pt ct u = Ok (Some x) ∧
      (∀ v y, v ∈ candidates → upstream_cost default_currency c pt ct v = Ok (Some y) → fltb y x = false) ∧
      (∀ j v y, (j < i)%nat → candidates !! j = Some v → upstream_cost default_currency c pt ct v = Ok (Some y) → fleb y x = false)
  | None => ∀ v, v ∈ candidates → upstream_cost default_currency c pt ct v = Ok None
  end.
Proof.
  intros H. unfold cheapest_upstream in H. apply (cheapest_from_best _ candidates [] None) in H as (best & -> & Hb); [|by intros v Hv%elem_of_nil].
  destruct best as [[u x]|]; [|exact Hb]. destruct Hb as (i & Hi). by exists i, x.
Qed.

(** ** Downloads *)

(** A row that counts. *)
Definition row_ok (ke : string * dict) : Prop :=
  dget "custom_id" ke.2 = VStr ke.1 ∧ dget "error" ke.2 = VNone ∧
  ∃ response, dget "response" ke.2 = VDict response ∧ successful_status (dget "status_code" response) = true.

Lemma validate_rows_ok expected job_id rows : ∀ seen out,
  validate_rows expected job_id seen rows = Ok out →
  NoDup out.*1 ∧ (∀ k, k ∈ out.*1 → k ∈ expected ∧ k ∉ seen) ∧ Forall row_ok out ∧ rows = map (λ ke, VDict ke.2) out.
Proof.
  induction rows as [|row rows IH]; intros seen out; cbn.
  { intros [= <-]. split_and!; [constructor|intros k Hk; by apply elem_of_nil in Hk|constructor|done]. }
  destruct row as [| | | | | | |entry]; try done. destruct (dget "custom_id" entry) as [| | | |k| | |] eqn:Hk; try done.
  destruct (negb (in_strs k expected) || in_strs k seen) eqn:Hin; [done|]. apply orb_false_iff in Hin as [Hexp Hseen].
  apply negb_false_iff, in_strs_spec in Hexp.
  destruct (dget "error" entry) eqn:He; try done. destruct (dget "response" entry) as [| | | | | | |response] eqn:Hr; try done.
  destruct (successful_status _) eqn:Hs; [|done]. destruct (validate_rows expected job_id (k :: seen) rows) as [l|] eqn:Hl; [|done].
  intros [= <-]. destruct (IH _ _ Hl) as (Hnd & Hsub & Hok & ->). split_and!.
  - cbn. apply NoDup_cons. split; [|done]. intros Hkl. destruct (Hsub k Hkl) as [_ Hn]. apply Hn. by left.
  - intros k' [->|Hk']%elem_of_cons; [split; [done|]|destruct (Hsub k' Hk') as [? Hn]; split; [done|]].
    + intros Hk'%in_strs_spec. cbn in Hk'. by rewrite Hseen in Hk'.
    + intros ?. apply Hn. by right.
  - constructor; [|done]. split_and!; [done|done|]. by exists response.
  - done.
Qed.

Lemma download_validated payload expected request_count job_id rows :
  NoDup expected → _validated_download_responses payload expected request_count job_id = Ok rows →
  rows.*1 ≡ₚ expected ∧ Forall row_ok rows ∧ dget "responses" payload = VList (map (λ ke, VDict ke.2) rows) ∧
  Z.of_nat (length rows) = request_count.
Proof.
  intros Hexp. unfold _validated_download_responses. destruct (dget "responses" payload) as [| | | | |responses| |]; try done.
  destruct (negb _ && _); [done|]. destruct (validate_rows _ _ _ _) as [l|] eqn:Hl; cbn; [|done].
  destruct (forallb _ _ && _) eqn:Hall; [|done]. intros [= <-]. apply andb_true_iff in Hall as [Hall Hlen%Z.eqb_eq].
  apply validate_rows_ok in Hl as (Hnd & Hsub & Hok & ->). rewrite forallb_forall in Hall. split_and!; [|done|done|by rewrite length_map in Hlen].
  apply NoDup_Permutation; [done|done|]. intros k. split; [by intros [? _]%Hsub|]. intros Hk. apply in_strs_spec, Hall. by apply list_elem_of_In.
Qed.

Section submissions.
Context (other_str : pyval → string) {M : Type} `{!Mapping M pg_job} {admissible : pg_job → Prop} {models : M → gmap string pg_job → Prop}.
Context `{!MappingLaws M pg_job admissible models}.
Context (b : pg_backend).

(** What is stored of a submission. *)
Definition submission (requests : list BatchRequest) : pg_job :=
  {| pj_endpoint_alias := pb_endpoint_alias b; pj_recovery_identity := pb_recovery_identity b;
     pj_endpoint := pb_endpoint b; pj_requests := map (λ r, (br_custom_id r, r)) requests |}.

Lemma submit_stores batch_id status requests jobs c :
  NoDup (map br_custom_id requests) → models jobs c → admissible (submission requests) →
  ∃ job, pg_submit b (Ok (batch_id, status)) false requests jobs = (setitem jobs batch_id (submission requests), Ok job) ∧
    models (setitem jobs batch_id (submission requests)) (<[batch_id := submission requests]> c) ∧
    bj_job_id job = batch_id ∧ bj_request_count job = Z.of_nat (length requests) ∧ bj_recovered job = None.
Proof.
  intros Hnd Hm Ha. unfold pg_submit, tracked_of. rewrite (od_comprehension br_custom_id (λ r, r)) by done.
  eexists. split; [reflexivity|]. split; [by apply setitem_models|done].
Qed.

(** What a row says, and what the submission knew of it. *)
Definition item_of_request (r : BatchRequest) (it : BatchResultItem) : Prop :=
  ri_custom_id it = br_custom_id r ∧ ri_attribution it = br_attribution r ∧ ri_model it = br_model r ∧
  ri_mode it = VStr (br_mode r) ∧ ri_messages it = br_messages r.

Definition item_of_row (row : dict) (it : BatchResultItem) : Prop :=
  ∃ response body usage,
    dget "custom_id" row = VStr (ri_custom_id it) ∧ dget "error" row = VNone ∧ dget "response" row = VDict response ∧
    successful_status (dget "status_code" response) = true ∧
    dict_or_empty (dget "body" response) = Ok body ∧ dict_or_empty (dget "usage" body) = Ok usage ∧
    VStr <$> _extract_answer other_str body = Ok (ri_answer it) ∧
    (ri_prompt_tokens it, ri_completion_tokens it) = default (0, 0) (token_pair usage) ∧
    ri_usage_valid it = Some (bool_decide (is_Some (token_pair usage))).

Lemma pg_item_spec tracked row it :
  row_ok row → pg_item other_str tracked row = Ok it →
  item_of_row row.2 it ∧ ri_custom_id it = row.1 ∧ ∀ r, od_get row.1 tracked = Some r → br_custom_id r = row.1 → item_of_request r it.
Proof.
  intros (Hid & He & response & Hr & Hst). unfold pg_item. rewrite Hr. cbn [dict_or_empty mbind res_bind].
  destruct (dict_or_empty (dget "body" response)) as [body|] eqn:Hb; cbn; [|done].
  destruct (_extract_answer other_str body) as [answer|] eqn:Ha; cbn; [|done].
  destruct (dict_or_empty (dget "usage" body)) as [usage|] eqn:Hu; cbn; [|done]. intros [= <-]. split_and!.
  - exists response, body, usage. cbn. rewrite Ha. split_and!; try done. by destruct (token_pair usage) as [[]|].
  - done.
  - intros r -> Hk. unfold item_of_request. cbn. by rewrite Hk.
Qed.

Lemma tracked_get requests k :
  NoDup (map br_custom_id requests) → k ∈ map br_custom_id requests →
  ∃ r, r ∈ requests ∧ br_custom_id r = k ∧ od_get k (map (λ r, (br_custom_id r, r)) requests) = Some r.
Proof.
  intros Hnd (r & -> & Hr)%list_elem_of_fmap. exists r. split_and!; [done|done|]. apply od_get_in.
  - clear Hr. induction requests as [|r' requests IH]; cbn in *; [constructor|]. apply NoDup_cons in Hnd as [Hn Hnd].
    constructor; [|by apply IH]. intros ([k v] & Hk & Hin)%list_elem_of_fmap. cbn in Hk. subst k.
    apply list_elem_of_fmap in Hin as (r'' & [= Hr'' ->] & Hin). apply Hn, list_elem_of_fmap. by exists r''.
  - apply list_elem_of_fmap. by exists r.
Qed.

Lemma tracked_keys requests : (map (λ r, (br_custom_id r, r)) requests).*1 = map br_custom_id requests.
Proof. induction requests as [|r requests IH]; cbn; [done|]. by rewrite IH. Qed.


(** ** Recovery *)

(** What a descriptor keeps of a request: no text of a prompt. *)
Definition prompt_free (r : BatchRequest) : BatchRequest :=
  {| br_messages := []; br_model := br_model r; br_custom_id := br_custom_id r;
     br_attribution := dims_as_dict (from_mapping other_str (br_attribution r)); br_mode := br_mode r; br_zdr_only := false |}.

Definition identified (r : BatchRequest) : Prop :=
  str_truthy (br_custom_id r) = true ∧ str_truthy (br_model r) = true ∧ str_truthy (br_mode r) = true.

Lemma restore_items_spec requests : ∀ restored,
  Forall identified requests → NoDup (restored.*1 ++ map br_custom_id requests) →
  restore_items (map (item_descriptor other_str) requests) restored =
    Ok (restored ++ map (λ r, (br_custom_id r, prompt_free r)) requests).
Proof.
  induction requests as [|r requests IH]; intros restored Hid Hnd; cbn [map restore_items]; [by rewrite app_nil_r|].
  apply Forall_cons in Hid as [(H1 & H2 & H3) Hid]. cbn [map] in Hnd.
  assert (br_custom_id r ∉ restored.*1) as Hnew.
  { apply NoDup_app in Hnd as (_ & Hd & _). intros Hin. apply (Hd _ Hin). by left. }
  unfold item_descriptor at 1. cbn [descriptor_keys]. change (negb (descriptor_keys _)) with false. cbn [dget dict_get key_is String.eqb default nonempty_text].
  cbn. rewrite H1, H2, H3. rewrite (proj2 (od_get_None _ _) Hnew), od_set_new by done.
  rewrite IH; [|done|].
  - by rewrite <- app_assoc.
  - rewrite fmap_app, <- app_assoc. exact Hnd.
Qed.

(** A result without what a descriptor does not keep. *)
Definition prompt_free_item (it : BatchResultItem) : BatchResultItem :=
  {| ri_custom_id := ri_custom_id it; ri_answer := ri_answer it; ri_prompt_tokens := ri_prompt_tokens it;
     ri_completion_tokens := ri_completion_tokens it;
     ri_attribution := dims_as_dict (from_mapping other_str (ri_attribution it)); ri_model := ri_model it;
     ri_mode := ri_mode it; ri_messages := []; ri_trace := ri_trace it; ri_cache_status := ri_cache_status it;
     ri_race_usage := ri_race_usage it; ri_usage_valid := ri_usage_valid it |}.

Lemma recovered_keys requests : (map (λ r, (br_custom_id r, prompt_free r)) requests).*1 = map br_custom_id requests.
Proof. induction requests as [|r requests IH]; cbn; [done|]. by rewrite IH. Qed.

Lemma recovered_get requests k :
  od_get k (map (λ r, (br_custom_id r, prompt_free r)) requests) = prompt_free <$> od_get k (map (λ r, (br_custom_id r, r)) requests).
Proof. induction requests as [|r requests IH]; cbn; [done|]. by case_decide. Qed.

Lemma recovered_item requests row :
  NoDup (map br_custom_id requests) → row.1 ∈ map br_custom_id requests →
  pg_item other_str (map (λ r, (br_custom_id r, prompt_free r)) requests) row =
    prompt_free_item <$> pg_item other_str (map (λ r, (br_custom_id r, r)) requests) row.
Proof.
  intros Hnd Hk. destruct (tracked_get requests row.1 Hnd Hk) as (r & _ & _ & Hr). unfold pg_item. rewrite recovered_get, Hr.
  destruct (dict_or_empty (dget "response" row.2)) as [response|]; cbn; [|done].
  destruct (dict_or_empty (dget "body" response)) as [body|]; cbn; [|done].
  destruct (_extract_answer other_str body) as [answer|]; cbn; [|done]. by destruct (dict_or_empty (dget "usage" body)).
Qed.

Lemma map_res_fmap {E A B B'} (f : A → res E B) (g : A → res E B') (h : B → B') l :
  (∀ x, x ∈ l → g x = h <$> f x) → map_res g l = map h <$> map_res f l.
Proof.
  induction l as [|x l IH]; cbn; [done|]. intros H. rewrite (H x) by by left.
  rewrite IH by (intros; apply H; by right). destruct (f x); cbn; [|done]. by destruct (map_res f l).
Qed.

End submissions.

(** ** Embeddings *)

Lemma imap_pair_snd {A} (l : list A) : map snd (imap pair l) = l.
Proof.
  change (map snd (imap pair l)) with (snd <$> imap pair l). rewrite fmap_imap. 
  transitivity (imap (λ _ (x : A), x) l); [by apply imap_ext|]. apply list_eq. intros i. rewrite list_lookup_imap. by destruct (l !! i).
Qed.

Lemma positions_spec order i k : NoDup order → order !! i = Some k → od_get k (positions order) = Some (Z.of_nat i).
Proof.
  intros Hnd Hi. unfold positions. rewrite (od_comprehension snd (λ ik : nat * string, Z.of_nat ik.1)) by (by rewrite imap_pair_snd).
  apply od_get_in.
  - unfold od_wf. assert ((map (λ x : nat * string, (x.2, Z.of_nat x.1)) (imap pair order)).*1 = order) as ->; [|done].
    rewrite <- (imap_pair_snd order) at 2. generalize (imap pair order). induction l as [|x l IH]; cbn; [done|]. by rewrite IH.
  - apply list_elem_of_fmap. exists (i, k). split; [done|]. apply list_elem_of_lookup_2 with i. by rewrite list_lookup_imap, Hi.
Qed.

Section embeddings.
Context (sha256_hex : string → string) (other_float : pyval → option float).
Context {M : Type} `{!Mapping M embedding_job} {admissible : embedding_job → Prop} {models : M → gmap string embedding_job → Prop}.
Context `{!MappingLaws M embedding_job admissible models} (endpoint_alias : string).

Abbreviation wire := (wire_custom_id sha256_hex).

Definition embedding_submission (requests : list EmbeddingBatchRequest) : embedding_job :=
  {| ej_endpoint_alias := endpoint_alias; ej_requests := map (λ r, (wire r, r)) requests; ej_order := map wire requests |}.

(** The result of the [i]-th request. *)
Definition embedded (payload : dict) (i : nat) (r : EmbeddingBatchRequest) (it : EmbeddingBatchResultItem) : Prop :=
  ei_index it = Z.of_nat i ∧ ei_custom_id it = eb_custom_id r ∧ ei_model it = eb_model r ∧ ei_agent_id it = eb_agent_id r ∧
  ∃ rows row response, dget "responses" payload = VList rows ∧ VDict row ∈ rows ∧ dget "custom_id" row = VStr (wire r) ∧
    dget "error" row = VNone ∧ dget "response" row = VDict response ∧ successful_status (dget "status_code" response) = true ∧
    _extract_embedding other_float (default (VDict []) (dict_get "body" response)) = Ok (ei_embedding it).

Lemma embedding_item_spec tracked order count row it :
  row_ok row → embedding_item other_float tracked order count row = Ok it →
  ∃ response, dget "response" row.2 = VDict response ∧ successful_status (dget "status_code" response) = true ∧
    _extract_embedding other_float (default (VDict []) (dict_get "body" response)) = Ok (ei_embedding it) ∧
    ei_index it = default (Z.of_nat count) (od_get row.1 (positions order)) ∧
    ∀ r, od_get row.1 tracked = Some r → ei_custom_id it = eb_custom_id r ∧ ei_model it = eb_model r ∧ ei_agent_id it = eb_agent_id r.
Proof.
  intros (Hid & He & response & Hr & Hst). unfold embedding_item. rewrite Hr. cbn [dict_or_empty mbind res_bind].
  set (body := default (VDict []) (dict_get "body" response)).
  destruct (_extract_embedding other_float body) as [embedding|] eqn:Hb; cbn; [|done].
  destruct (get_of body "usage" (VDict [])) as [usage|]; cbn; [|done]. destruct (dict_or_empty usage) as [d|]; cbn; [|done].
  destruct (int_val _) as [n|]; cbn; [|done]. intros [= <-]. exists response. cbn. split_and!; [done|done|exact Hb|done|].
  intros r Hget. by rewrite Hget.
Qed.

Lemma wire_get requests i r :
  NoDup (map wire requests) → requests !! i = Some r → od_get (wire r) (map (λ r, (wire r, r)) requests) = Some r.
Proof.
  intros Hnd Hi. apply od_get_in.
  - unfold od_wf. assert ((map (λ r, (wire r, r)) requests).*1 = map wire requests) as ->; [|done].
    clear. induction requests as [|r requests IH]; cbn; [done|]. by rewrite IH.
  - apply list_elem_of_fmap. exists r. split; [done|]. by eapply list_elem_of_lookup_2.
Qed.

Lemma sorted_by_position (l : list EmbeddingBatchResultItem) n :
  map ei_index l ≡ₚ map Z.of_nat (seq 0 n) → map ei_index (py_sorted index_leb l) = map Z.of_nat (seq 0 n).
Proof.
  intros Hperm. apply (StronglySorted_unique Z.le).
  - assert (StronglySorted (λ a b, index_leb a b = true) (py_sorted index_leb l)) as Hs.
    { apply (py_sorted_sorted index_leb (λ _, True)); [| |by apply Forall_true].
      - intros x y _ _. unfold index_leb. rewrite !Z.leb_le. lia.
      - intros x y z _ _ _. unfold index_leb. rewrite !Z.leb_le. lia. }
    induction Hs as [|x l' Hs IH Hx]; [constructor|]. cbn. constructor; [done|]. apply Forall_map. eapply Forall_impl; [exact Hx|].
    intros y. unfold index_leb. by rewrite Z.leb_le.
  - clear. generalize 0%nat. induction n as [|n IH]; intros a; cbn; [constructor|]. constructor; [apply IH|].
    apply Forall_forall. intros z (i & -> & Hi)%list_elem_of_fmap. apply elem_of_seq in Hi. lia.
  - rewrite <- Hperm. change (fmap (M := list) ei_index (py_sorted index_leb l) ≡ₚ fmap (M := list) ei_index l). by rewrite py_sorted_perm.
Qed.

(** Each row has its place among the requests. *)
Definition placed (payload : dict) (requests : list EmbeddingBatchRequest) (row : string * dict) (it : EmbeddingBatchResultItem) : Prop :=
  ∃ i r, requests !! i = Some r ∧ row.1 = wire r ∧ embedded payload i r it.

Lemma rows_placed payload requests rows l :
  NoDup (map wire requests) → rows.*1 ≡ₚ map wire requests → Forall row_ok rows →
  dget "responses" payload = VList (map (λ ke, VDict ke.2) rows) →
  map_res (λ ir, embedding_item other_float (map (λ r, (wire r, r)) requests) (map wire requests) ir.1 ir.2) (imap pair rows) = Ok l →
  Forall2 (placed payload requests) rows l.
Proof.
  intros Hnd Hperm Hok Hresp Hl%map_res_Forall2. apply Forall2_lookup. intros n.
  pose proof (proj1 (Forall2_lookup _ _ _) Hl n) as Hn. rewrite list_lookup_imap in Hn.
  destruct (rows !! n) as [row|] eqn:Hrow; cbn in Hn; inversion Hn as [x it Hit|]; subst; constructor. cbn in Hit.
  apply list_elem_of_lookup_2 in Hrow. rewrite Forall_forall in Hok. pose proof (Hok row Hrow) as Hrok.
  destruct (embedding_item_spec _ _ _ _ _ Hrok Hit) as (response & Hr & Hst & Hemb & Hidx & Hreq). destruct Hrok as (Hid & He & _).
  assert (row.1 ∈ map wire requests) as Hin by (rewrite <- Hperm; apply list_elem_of_fmap; by exists row).
  apply list_elem_of_fmap in Hin as (r & Hk & [i Hi]%list_elem_of_lookup_1). exists i, r. split_and!; [done|done|]. rewrite Hk in *.
  rewrite (positions_spec (map wire requests) i (wire r)) in Hidx; [|done|by rewrite list_lookup_fmap, Hi].
  destruct (Hreq r) as (H1 & H2 & H3); [by eapply wire_get|]. split_and!; [done|done|done|done|].
  eexists _, row.2, response. split_and!; [exact Hresp| |done|done|done|done|done]. apply list_elem_of_fmap. by exists row.
Qed.

Lemma placed_indices payload requests rows l :
  NoDup (map wire requests) → rows.*1 ≡ₚ map wire requests → Forall2 (placed payload requests) rows l →
  map ei_index l ≡ₚ map Z.of_nat (seq 0 (length requests)).
Proof.
  intros Hnd Hperm Hl. set (place k := default 0 (od_get k (positions (map wire requests)))).
  assert (map ei_index l = map place rows.*1) as ->.
  { clear Hperm. induction Hl as [|row it rows l (i & r & Hi & Hk & Hidx & _) _ IH]; [done|]. cbn. rewrite IH. f_equal.
    unfold place. rewrite Hidx, Hk, (positions_spec _ i); [done|done|by rewrite list_lookup_fmap, Hi]. }
  change (fmap (M := list) place rows.*1 ≡ₚ map Z.of_nat (seq 0 (length requests))). rewrite Hperm.
  assert (fmap (M := list) place (map wire requests) = map Z.of_nat (seq 0 (length requests))) as ->; [|done].
  apply list_eq. intros i. rewrite !list_lookup_fmap. destruct (requests !! i) as [r|] eqn:Hi; cbn.
  - rewrite lookup_seq_lt by (by eapply lookup_lt_Some). cbn. unfold place. by rewrite (positions_spec _ i) by (rewrite ?list_lookup_fmap, ?Hi; done).
  - by rewrite lookup_seq_ge by (by apply lookup_ge_None_1).
Qed.

End embeddings.

(** ** The channel *)

(** A request goes to a batch only where batching is enabled, no forced
    interactive priority and no explicit wish for the synchronous channel stand
    against it, and something asks for it. *)
Theorem batch_needs_a_reason {C} `{!ConfigStore C} (c : C) h prompt_tokens d :
  decide_channel c h prompt_tokens = Ok d → rd_channel d = Batch →
  _batch_enabled c = true ∧ channel_is "sync" h = false ∧
  (hint_priority h = "interactive" → truthy (routing_config "interactive_forces_sync" (VBool true) c) = false) ∧
  (channel_is "batch" h = true ∨ hint_latency_tolerant h = true ∨ hint_priority h = "bulk" ∨
   ∃ n m, prompt_tokens = Some n ∧ int_val (routing_config "batch_min_tokens" (VInt 0) c) = Ok m ∧ m ≠ 0 ∧ m <= n).
Proof.
  unfold decide_channel, sync, batch. intros H Hb. destruct (_batch_enabled c); cbn [negb] in H; [|by injection H as <-].
  destruct (String.eqb (hint_priority h) "interactive" && _) eqn:Hforced; [by injection H as <-|].
  destruct (channel_is "sync" h); [by injection H as <-|]. split_and!; [done|done| |].
  { intros Hi. by rewrite Hi in Hforced. }
  destruct (channel_is "batch" h); [by left|]. right. destruct (hint_latency_tolerant h); [by left|]. right. cbn [orb] in H.
  destruct (String.eqb_spec (hint_priority h) "bulk") as [?|_]; [by left|]. right.
  destruct (int_val _) as [m|]; cbn in H; [|done]. destruct (Z.eqb_spec m 0) as [|Hm]; [by injection H as <-|].
  destruct prompt_tokens as [n|]; [|by injection H as <-]. destruct (Z.leb_spec m n) as [Hle|]; [|by injection H as <-]. by exists n, m.
Qed.

(** ** A batch of two *)

Definition priced (provider model : string) (prompt completion : Z) (c : InMemoryConfigStore) : InMemoryConfigStore :=
  set_price provider model
    {| price_provider := VStr provider; price_model := VStr model; prompt_price_per_1k := float_of_Z prompt;
       completion_price_per_1k := float_of_Z completion; price_currency := VStr "USD" |} c.

Definition demo_upstreams : list candidate :=
  [[("provider", "lab"); ("model", "unpriced")]; [("provider", "openai"); ("model", "large")];
   [("provider", "local"); ("model", "small")]; [("provider", "other"); ("model", "small")]].

Definition demo_price_table : InMemoryConfigStore :=
  priced "openai" "large" 3 6 (priced "local" "small" 1 2 (priced "other" "small" 1 2 ∅)).

Lemma cheapest_is_cheapest_witness :
  cheapest_upstream "USD" demo_upstreams demo_price_table 1000 1000 = Ok (Some [("provider", "local"); ("model", "small")]) ∧
  ∃ x, ∀ v y, v ∈ demo_upstreams → upstream_cost "USD" demo_price_table 1000 1000 v = Ok (Some y) → fltb y x = false.
Proof.
  assert (cheapest_upstream "USD" demo_upstreams demo_price_table 1000 1000 = Ok (Some [("provider", "local"); ("model", "small")])) as H
    by (vm_compute; reflexivity).
  split; [exact H|]. destruct (cheapest_is_cheapest "USD" demo_upstreams demo_price_table 1000 1000 _ H) as (_ & x & _ & _ & Hmin & _).
  exists x. exact Hmin.
Defined.

Definition demo_request (custom_id team : string) : BatchRequest :=
  {| br_messages := [VDict [(VStr "role", VStr "user"); (VStr "content", VStr custom_id)]]; br_model := "gpt-4o";
     br_custom_id := custom_id; br_attribution := [(VStr "team", VStr team)]; br_mode := "route"; br_zdr_only := false |}.
Definition demo_requests : list BatchRequest := [demo_request "a" "red"; demo_request "b" "blue"].

Definition demo_row (custom_id : string) (content : pyval) : pyval :=
  VDict [(VStr "custom_id", VStr custom_id); (VStr "error", VNone);
         (VStr "response", VDict [(VStr "status_code", VInt 200);
            (VStr "body", VDict [(VStr "choices", VList [VDict [(VStr "message", VDict [(VStr "content", content)])]]);
                                 (VStr "usage", VDict [(VStr "prompt_tokens", VInt 3); (VStr "completion_tokens", VInt 4)])])])].

(** The provider lists its rows in another order. *)
Definition demo_download (first second : pyval) : dict :=
  [(VStr "success", VBool true); (VStr "responses", VList [demo_row "b" second; demo_row "a" first])].

Definition demo_backend : pg_backend :=
  {| pb_endpoint_alias := "default"; pb_endpoint := "/v1/chat/completions"; pb_recovery_identity := Some "acct" |}.

Abbreviation demo_str := (λ _ : pyval, "?").
Abbreviation demo_registry := (list (string * pg_job)).

Definition demo_submitted : demo_registry * res routing_error BatchJob :=
  pg_submit (M := demo_registry) demo_backend (Ok ("batch_1", None)) false demo_requests [].

Definition demo_job : BatchJob := match demo_submitted.2 with Ok job => job | Raise _ => {| bj_job_id := ""; bj_backend := "";
  bj_status := VNone; bj_request_count := 0; bj_registry_status := ""; bj_recovered := None |} end.

Lemma empty_dict_models {V} : dict_models (V := V) [] ∅.
Proof. split; [constructor|]. intros k. by rewrite lookup_empty. Qed.

Lemma demo_stored : dict_models demo_submitted.1 (<["batch_1" := submission demo_backend demo_requests]> ∅).
Proof. apply (setitem_models (M := demo_registry) (models := dict_models)); [apply empty_dict_models|done]. Qed.

Lemma demo_ids : NoDup (map br_custom_id demo_requests).
Proof. apply (bool_decide_unpack _). by vm_compute. Qed.

Definition demo_retrieved : res routing_error (list BatchResultItem) :=
  (pg_retrieve demo_str (demo_download (VStr "two") (VStr "four")) demo_job demo_submitted.1).2.



(** A message without content - a refusal, or a tool call - is answered with the
    text "None". *)
Lemma missing_content_is_answered :
  ∃ items, (pg_retrieve demo_str (demo_download VNone (VStr "four")) demo_job demo_submitted.1).2 = Ok items ∧
    map ri_answer items = [VStr "four"; VStr "None"].
Proof. eexists. split; vm_compute; reflexivity. Qed.

(** The local backend embeds the inputs in order; one that fails leaves no job. *)
Lemma local_embeddings_in_order {M} `{!Mapping M (list EmbeddingBatchResultItem)} hex embedder counter requests (results : M) :
  let '(results', r) := local_embedding_submit hex embedder counter requests results in
  match r with
  | Ok job =>
      ∃ items, results' = setitem results (bj_job_id job) items ∧ length items = length requests ∧
        ∀ i r, requests !! i = Some r → ∃ it, items !! i = Some it ∧ ei_index it = Z.of_nat i ∧
          ei_custom_id it = eb_custom_id r ∧ embedder (eb_input_text r) = Ok (ei_embedding it) ∧
          _count_tokens counter (eb_input_text r) (eb_model r) = Ok (ei_prompt_tokens it)
  | Raise _ => results' = results
  end.
Proof.
  unfold local_embedding_submit. destruct (map_res _ (imap pair requests)) as [items|e] eqn:Hitems; [|done].
  exists items. split; [done|]. apply map_res_Forall2 in Hitems. split; [by rewrite <- (Forall2_length _ _ _ Hitems), length_imap|].
  intros i r Hi. assert (imap pair requests !! i = Some (i, r)) as Hp by (by rewrite list_lookup_imap, Hi).
  destruct (Forall2_lookup_l _ _ _ _ _ Hitems Hp) as (it & Hit & Heq). exists it. split; [done|].
  unfold local_embedding_item in Heq. cbn in Heq. destruct (embedder (eb_input_text r)) as [v|]; [|done]. cbn in Heq.
  destruct (_count_tokens counter _ _) as [n|]; [|done]. cbn in Heq. by injection Heq as <-.
Qed.

Definition demo_text (text agent : string) : EmbeddingBatchRequest :=
  {| eb_input_text := text; eb_model := "embed"; eb_custom_id := text; eb_attribution := []; eb_metadata := [];
     eb_source_index := 0; eb_part_index := 0; eb_part_count := 1; eb_token_count := 0; eb_token_start := 0; eb_token_end := 0;
     eb_shard_index := 0; eb_routing_agent_id := None; eb_zdr_only := false; eb_agent_id := Some agent; eb_provider_routing := None |}.
Definition demo_texts : list EmbeddingBatchRequest := [demo_text "t0" "ag"; demo_text "t1" "ag"].

Abbreviation demo_hash := (λ s : string, "#" +:+ s).
Lemma demo_wire_ids : NoDup (map (wire_custom_id demo_hash) demo_texts).
Proof. apply (bool_decide_unpack _). by vm_compute. Qed.

Abbreviation demo_embeddings := (list (string * embedding_job)).

Definition demo_vector (custom_id : string) (z : Z) : pyval :=
  VDict [(VStr "custom_id", VStr custom_id);
         (VStr "response", VDict [(VStr "body", VDict [(VStr "data", VList [VDict [(VStr "embedding", VList [VInt z])]])])])].

Definition demo_vectors : dict :=
  [(VStr "success", VBool true);
   (VStr "responses", VList (map (λ rz, demo_vector (wire_custom_id demo_hash rz.1) rz.2) [(demo_text "t1" "ag", 11); (demo_text "t0" "ag", 10)]))].

Definition demo_embedded : demo_embeddings * res routing_error BatchJob :=
  embedding_submit (M := demo_embeddings) demo_hash "default" (Ok ("batch_2", None)) demo_texts [].

Definition demo_embedding_job : BatchJob := match demo_embedded.2 with Ok job => job | Raise _ => demo_job end.

Definition demo_vectors_retrieved : res routing_error (list EmbeddingBatchResultItem) :=
  (embedding_retrieve (λ _, None) demo_vectors demo_embedding_job demo_embedded.1).2.

