(* ===== verification/EmbeddingJobs.v ===== *)
(** batch_routing.py: [ProviderEmbeddingBatchBackend] over the registries of one
    process: the life of an embedding job, from its reservation to the state its
    callers poll.

    The callers of [reserve], [start], [cancel] and [close] and the workers of the
    pool are threads; an action is one access to what they share. [start] holds
    [_executor_lock] between its check and its write, cancelling and publishing
    hold the state lock of the job between the documents they write and the state.
    The lock of a job's execution is taken by its run alone, of which there is
    one; waiting on the events of [wait] changes nothing and is left out. *)

From Stdlib Require Import Ascii String.
From S2P Require Import Prelude PyString PyFloat PyValue BatchRouting WorkerPool.
Open Scope Z_scope.

(** ** Registries *)

Inductive job_status := Reserved | Queued | Executing | Completed | Failed | Cancelled.

#[global] Instance job_status_eq : EqDecision job_status.
Proof. solve_decision. Defined.

(** [in {"queued", "running"}], and [in {"completed", "failed", "cancelled"}]. *)
Definition pending_state (s : option job_status) : bool := match s with Some Queued | Some Executing => true | _ => false end.
Definition terminal_status (s : job_status) : bool := match s with Completed | Failed | Cancelled => true | _ => false end.

Record failure_document := {
  fd_error_type : string;
  fd_http_status : pyval;
  fd_provider_code : pyval;
  fd_retryable : bool;
  fd_failed_shard_index : pyval;
}.

(** What the registries hold under one job id. *)
Record job_entry := {
  je_requests : option (list EmbeddingBatchRequest);
  je_state : option job_status;
  je_results : option (list EmbeddingBatchResultItem);
  je_usage : option Z;                                    (* prompt_tokens *)
  je_error : option failure_document;
  je_cancellation : option string;                        (* reason *)
  je_deadline : option float;
}.

Definition no_entry : job_entry :=
  {| je_requests := None; je_state := None; je_results := None; je_usage := None; je_error := None;
     je_cancellation := None; je_deadline := None |}.

Definition with_state (s : job_status) (e : job_entry) : job_entry :=
  {| je_requests := je_requests e; je_state := Some s; je_results := je_results e; je_usage := je_usage e;
     je_error := je_error e; je_cancellation := je_cancellation e; je_deadline := je_deadline e |}.

Definition with_requests (requests : list EmbeddingBatchRequest) (e : job_entry) : job_entry :=
  {| je_requests := Some requests; je_state := je_state e; je_results := je_results e; je_usage := je_usage e;
     je_error := je_error e; je_cancellation := je_cancellation e; je_deadline := je_deadline e |}.

Definition with_cancellation (reason : string) (e : job_entry) : job_entry :=
  {| je_requests := je_requests e; je_state := je_state e; je_results := je_results e; je_usage := je_usage e;
     je_error := je_error e; je_cancellation := Some reason; je_deadline := je_deadline e |}.

Definition with_deadline (deadline : float) (e : job_entry) : job_entry :=
  {| je_requests := je_requests e; je_state := je_state e; je_results := je_results e; je_usage := je_usage e;
     je_error := je_error e; je_cancellation := je_cancellation e; je_deadline := Some deadline |}.

(** What is published with a terminal state. *)
Record job_outcome := {
  oc_status : job_status;
  oc_results : option (list EmbeddingBatchResultItem);
  oc_usage : option Z;
  oc_error : option failure_document;
}.

(** [if results is not None: ...], and so on. *)
Definition with_documents (o : job_outcome) (e : job_entry) : job_entry :=
  {| je_requests := je_requests e; je_state := je_state e;
     je_results := match oc_results o with Some r => Some r | None => je_results e end;
     je_usage := match oc_usage o with Some u => Some u | None => je_usage e end;
     je_error := match oc_error o with Some f => Some f | None => je_error e end;
     je_cancellation := je_cancellation e; je_deadline := je_deadline e |}.

(** ** What a runner gives *)

(** An exception, with the attributes that are looked up on it. *)
Record runner_exception := {
  rx_type : string;
  rx_client_status : option pyval;
  rx_status_code : option pyval;
  rx_error_code : option pyval;
  rx_provider_code : option pyval;
  rx_retryable : option pyval;
  rx_failed_shard_index : option pyval;
}.

Inductive runner_reply :=
| RunnerReturned (vectors : list (list float)) (prompt_tokens : Z)
| RunnerRaised (e : runner_exception).

(** [getattr(exc, a, getattr(exc, b, None))]. *)
Definition attribute (a b : option pyval) : pyval := default (default VNone b) a.

Definition failure_of (e : runner_exception) : failure_document :=
  {| fd_error_type := rx_type e; fd_http_status := attribute (rx_client_status e) (rx_status_code e);
     fd_provider_code := attribute (rx_error_code e) (rx_provider_code e);
     fd_retryable := truthy (default (VBool false) (rx_retryable e));
     fd_failed_shard_index := default VNone (rx_failed_shard_index e) |}.

Definition ValueError : runner_exception :=
  {| rx_type := "ValueError"; rx_client_status := None; rx_status_code := None; rx_error_code := None;
     rx_provider_code := None; rx_retryable := None; rx_failed_shard_index := None |}.

Definition deadline_exceeded : failure_document :=
  {| fd_error_type := "TimeoutError"; fd_http_status := VNone;
     fd_provider_code := VStr "provider_embedding_deadline_exceeded"; fd_retryable := true; fd_failed_shard_index := VNone |}.

Definition failed (f : failure_document) : job_outcome :=
  {| oc_status := Failed; oc_results := None; oc_usage := None; oc_error := Some f |}.

(** [dimensions == {0} or len(dimensions) != 1]. *)
Definition same_dimension (vectors : list (list float)) : bool :=
  match vectors with
  | [] => true
  | v :: rest => negb (Nat.eqb (length v) 0) && forallb (λ w, Nat.eqb (length w) (length v)) rest
  end.

Definition result_items (requests : list EmbeddingBatchRequest) (vectors : list (list float)) : list EmbeddingBatchResultItem :=
  imap (λ i rv, {| ei_custom_id := eb_custom_id rv.1; ei_index := Z.of_nat i; ei_embedding := rv.2; ei_prompt_tokens := 0;
                   ei_model := eb_model rv.1; ei_agent_id := None |}) (zip requests vectors).

(** From the reply of the runner to what is published. *)
Definition outcome_of (late : bool) (requests : list EmbeddingBatchRequest) (reply : runner_reply) : job_outcome :=
  match reply with
  | RunnerRaised e => failed (failure_of e)
  | RunnerReturned vectors prompt_tokens =>
      if late then failed deadline_exceeded
      else if negb (Nat.eqb (length vectors) (length requests)) then failed (failure_of ValueError)
      else if negb (same_dimension vectors) then failed (failure_of ValueError)
      else {| oc_status := Completed; oc_results := Some (result_items requests vectors); oc_usage := Some prompt_tokens;
              oc_error := None |}
  end.

(** ** Threads *)

(** Where a call is. *)
Inductive client_action :=
| Reserve (job : string) (requests : list EmbeddingBatchRequest)
| StartCheck (job : string)
| StartWrite (job : string)                               (* the executor lock is held *)
| CancelCheck (job reason : string)
| CancelWrite (job : string)                              (* the state lock is held *)
| CloseFlag
| CloseSwap.

(** Where a worker is in [_run_job]; [expired]: in [_fail_expired_job]. *)
Inductive run_action :=
| RunJob (job : string)
| RunLoop (job : string)
| MarkRunning (job : string)
| CallRunner (job : string)
| Outcome (job : string) (reply : runner_reply)
| Publish (job : string) (o : job_outcome) (expired : bool)
| PublishState (job : string) (s : job_status) (expired : bool)  (* the state lock is held *)
| RunEnd (job : string)
| FailExpired (job : string).

(** [bk_calls] is a history variable, not in the code: the jobs the runner was
    called for. *)
Record backend := {
  bk_jobs : gmap string job_entry;
  bk_pool : worker_pool string;
  bk_executor : bool;                                     (* _executor is not None *)
  bk_closed : bool;
  bk_starting : option string;                            (* who holds _executor_lock, for which job *)
  bk_locked : gset string;                                (* the state locks held *)
  bk_clients : list (option client_action);
  bk_runs : gmap nat run_action;                          (* by worker *)
  bk_calls : list string;
}.

Definition new_backend : backend :=
  {| bk_jobs := ∅; bk_pool := new_pool; bk_executor := false; bk_closed := false; bk_starting := None; bk_locked := ∅;
     bk_clients := []; bk_runs := ∅; bk_calls := [] |}.

Definition entry (job : string) (b : backend) : job_entry := default no_entry (bk_jobs b !! job).
Definition job_state (job : string) (b : backend) : option job_status := je_state (entry job b).

(** A write to the registries. *)
Definition write (job : string) (f : job_entry → job_entry) (b : backend) : backend :=
  {| bk_jobs := <[job := f (entry job b)]> (bk_jobs b); bk_pool := bk_pool b; bk_executor := bk_executor b;
     bk_closed := bk_closed b; bk_starting := bk_starting b; bk_locked := bk_locked b; bk_clients := bk_clients b;
     bk_runs := bk_runs b; bk_calls := bk_calls b |}.

Definition with_locked (l : gset string) (b : backend) : backend :=
  {| bk_jobs := bk_jobs b; bk_pool := bk_pool b; bk_executor := bk_executor b; bk_closed := bk_closed b;
     bk_starting := bk_starting b; bk_locked := l; bk_clients := bk_clients b; bk_runs := bk_runs b; bk_calls := bk_calls b |}.

Definition with_starting (o : option string) (b : backend) : backend :=
  {| bk_jobs := bk_jobs b; bk_pool := bk_pool b; bk_executor := bk_executor b; bk_closed := bk_closed b;
     bk_starting := o; bk_locked := bk_locked b; bk_clients := bk_clients b; bk_runs := bk_runs b; bk_calls := bk_calls b |}.

Definition with_pool (p : worker_pool string) (executor : bool) (b : backend) : backend :=
  {| bk_jobs := bk_jobs b; bk_pool := p; bk_executor := executor; bk_closed := bk_closed b;
     bk_starting := bk_starting b; bk_locked := bk_locked b; bk_clients := bk_clients b; bk_runs := bk_runs b;
     bk_calls := bk_calls b |}.

Definition with_runs (runs : gmap nat run_action) (b : backend) : backend :=
  {| bk_jobs := bk_jobs b; bk_pool := bk_pool b; bk_executor := bk_executor b; bk_closed := bk_closed b;
     bk_starting := bk_starting b; bk_locked := bk_locked b; bk_clients := bk_clients b; bk_runs := runs;
     bk_calls := bk_calls b |}.

Definition with_clients (clients : list (option client_action)) (b : backend) : backend :=
  {| bk_jobs := bk_jobs b; bk_pool := bk_pool b; bk_executor := bk_executor b; bk_closed := bk_closed b;
     bk_starting := bk_starting b; bk_locked := bk_locked b; bk_clients := clients; bk_runs := bk_runs b;
     bk_calls := bk_calls b |}.

Definition closing_backend (b : backend) : backend :=
  {| bk_jobs := bk_jobs b; bk_pool := bk_pool b; bk_executor := bk_executor b; bk_closed := true;
     bk_starting := bk_starting b; bk_locked := bk_locked b; bk_clients := bk_clients b; bk_runs := bk_runs b;
     bk_calls := bk_calls b |}.

Definition called (job : string) (b : backend) : backend :=
  {| bk_jobs := bk_jobs b; bk_pool := bk_pool b; bk_executor := bk_executor b; bk_closed := bk_closed b;
     bk_starting := bk_starting b; bk_locked := bk_locked b; bk_clients := bk_clients b; bk_runs := bk_runs b;
     bk_calls := bk_calls b ++ [job] |}.

Section backend.
Context (max_concurrency : nat) (execution_timeout_seconds : option float).
Context (runner : nat → list EmbeddingBatchRequest → runner_reply). (* the n-th call *)

(** [reserve]; a closed backend raises. *)
Definition reserve (job : string) (requests : list EmbeddingBatchRequest) (b : backend) : option (backend * option client_action) :=
  if bk_closed b then Some (b, None)
  else match bk_jobs b !! job with
       | None => Some (write job (λ e, with_state Reserved (with_requests requests e)) b, None)
       | Some _ => None                                   (* uuid4 is fresh *)
       end.

(** [start], up to its check, with the executor lock it takes. *)
Definition start_check (job : string) (b : backend) : option (backend * option client_action) :=
  match bk_starting b with
  | Some _ => None
  | None =>
      if bk_closed b then Some (b, None)
      else match job_state job b with
           | Some Reserved => Some (with_starting (Some job) b, Some (StartWrite job))
           | _ => Some (b, None)
           end
  end.

Definition start_write (job : string) (b : backend) : backend :=
  with_starting None (with_pool (submit max_concurrency job (bk_pool b)).1 true (write job (with_state Queued) b)).

(** [cancel], up to the reason it stores, with the state lock it takes. *)
Definition cancel_check (job reason : string) (b : backend) : option (backend * option client_action) :=
  if bool_decide (job ∈ bk_locked b) then None
  else match job_state job b with
       | Some s => if terminal_status s then Some (b, None)
                   else Some (with_locked ({[job]} ∪ bk_locked b) (write job (with_cancellation reason) b), Some (CancelWrite job))
       | None => Some (b, None)
       end.

Definition cancel_write (job : string) (b : backend) : backend :=
  with_locked (bk_locked b ∖ {[job]}) (write job (with_state Cancelled) b).

(** [close], after its flag. *)
Definition close_swap (b : backend) : option (backend * option client_action) :=
  match bk_starting b with
  | Some _ => None
  | None => if bk_executor b then Some (with_pool (shutdown false true (bk_pool b)) false b, None) else Some (b, None)
  end.

(** One action of a caller: the new state and where the call is then, or [None]
    while it waits for a lock. *)
Definition client_act (a : client_action) (b : backend) : option (backend * option client_action) :=
  match a with
  | Reserve job requests => reserve job requests b
  | StartCheck job => start_check job b
  | StartWrite job => Some (start_write job b, None)
  | CancelCheck job reason => cancel_check job reason b
  | CancelWrite job => Some (cancel_write job b, None)
  | CloseFlag => Some (closing_backend b, Some CloseSwap)
  | CloseSwap => close_swap b
  end.

(** [_execution_deadline]: stored by the first claim. *)
Definition new_deadline (now : float) (requests : list EmbeddingBatchRequest) : float :=
  match execution_timeout_seconds with
  | None => S754_infinity false
  | Some t => fadd now (fmul t (float_of_Z (Z.max 1 (Z.of_nat (length requests)))))
  end.

Definition late (now : float) (job : string) (b : backend) : bool :=
  fleb (default (S754_infinity false) (je_deadline (entry job b))) now.

Definition requests_of (job : string) (b : backend) : list EmbeddingBatchRequest := default [] (je_requests (entry job b)).

(** [_run_job]: up to the deadline of the job. *)
Definition enter_run (now : float) (job : string) (b : backend) : backend * option run_action :=
  if bk_closed b || negb (pending_state (job_state job b)) then (b, None)
  else match je_deadline (entry job b) with
       | Some _ => (b, Some (RunLoop job))
       | None => (write job (with_deadline (new_deadline now (requests_of job b))) b, Some (RunLoop job))
       end.

(** The condition of its loop, and what follows the loop. *)
Definition claim_loop (now : float) (job : string) (b : backend) : run_action :=
  if bk_closed b || negb (pending_state (job_state job b)) || late now job b then RunEnd job else MarkRunning job.

Definition run_end (now : float) (job : string) (b : backend) : option run_action :=
  if negb (bk_closed b) && late now job b && pending_state (job_state job b) then Some (FailExpired job) else None.

(** [_run_claimed_job], under the state lock. *)
Definition mark_running (job : string) (b : backend) : option (backend * option run_action) :=
  if bool_decide (job ∈ bk_locked b) then None
  else if pending_state (job_state job b) then Some (write job (with_state Executing) b, Some (CallRunner job))
  else Some (b, Some (RunLoop job)).

(** [_publish_terminal], which raises [ClaimNotAcquired] for a terminal job. *)
Definition publish_terminal (job : string) (o : job_outcome) (expired : bool) (b : backend) : option (backend * option run_action) :=
  if bool_decide (job ∈ bk_locked b) then None
  else if pending_state (job_state job b)
  then Some (with_locked ({[job]} ∪ bk_locked b) (write job (with_documents o) b), Some (PublishState job (oc_status o) expired))
  else Some (b, Some (if expired then FailExpired job else RunLoop job)).

Definition publish_state (job : string) (s : job_status) (b : backend) : backend :=
  with_locked (bk_locked b ∖ {[job]}) (write job (with_state s) b).

Definition fail_expired (job : string) (b : backend) : option run_action :=
  if negb (bk_closed b) && pending_state (job_state job b) then Some (Publish job (failed deadline_exceeded) true) else None.

(** One action of a worker; [now] is what it reads of the clock. *)
Definition run_act (now : float) (a : run_action) (b : backend) : option (backend * option run_action) :=
  match a with
  | RunJob job => Some (enter_run now job b)
  | RunLoop job => Some (b, Some (claim_loop now job b))
  | MarkRunning job => mark_running job b
  | CallRunner job => Some (called job b, Some (Outcome job (runner (length (bk_calls b)) (requests_of job b))))
  | Outcome job reply => Some (b, Some (Publish job (outcome_of (late now job b) (requests_of job b) reply) false))
  | Publish job o expired => publish_terminal job o expired b
  | PublishState job s expired => Some (publish_state job s b, Some (if expired then FailExpired job else RunLoop job))
  | RunEnd job => Some (b, run_end now job b)
  | FailExpired job => Some (b, fail_expired job b)
  end.

Definition is_client_call (a : client_action) : bool := match a with StartWrite _ | CancelWrite _ | CloseSwap => false | _ => true end.

Definition client_step (i : nat) (b : backend) : option backend :=
  match bk_clients b !! i with
  | Some (Some a) => '(b', next) ← client_act a b; Some (with_clients (<[i := next]> (bk_clients b')) b')
  | _ => None
  end.

(** A worker takes a job, or exits. *)
Definition worker_gets (i : nat) (b : backend) : option backend :=
  p ← drain_get i (bk_pool b);
  Some (with_runs (match p_workers p !! i with Some (Running job) => <[i := RunJob job]> (bk_runs b) | _ => bk_runs b end)
          (with_pool p (bk_executor b) b)).

(** A worker goes on with its job, and ends the task after the last action. *)
Definition run_step (now : float) (i : nat) (b : backend) : option backend :=
  match bk_runs b !! i with
  | Some a =>
      '(b', next) ← run_act now a b;
      match next with
      | Some a' => Some (with_runs (<[i := a']> (bk_runs b')) b')
      | None => p ← task_ends i (bk_pool b'); Some (with_runs (delete i (bk_runs b')) (with_pool p (bk_executor b') b'))
      end
  | None => None
  end.

Inductive backend_move :=
| MCall (a : client_action)
| MClient (i : nat)
| MGet (i : nat)
| MWork (now : float) (i : nat)
| MClose (i : nat).

Definition run_backend_move (m : backend_move) (b : backend) : option backend :=
  match m with
  | MCall a => if is_client_call a then Some (with_clients (bk_clients b ++ [Some a]) b) else None
  | MClient i => client_step i b
  | MGet i => worker_gets i b
  | MWork now i => run_step now i b
  | MClose i => p ← pool_exec max_concurrency (CloseOn i) (bk_pool b); Some (with_pool p (bk_executor b) b)
  end.

Definition backend_step (b b' : backend) : Prop := ∃ m, run_backend_move m b = Some b'.
Definition reachable_backend (b : backend) : Prop := rtc backend_step new_backend b.

(** ** What callers see *)

Definition status_text (s : job_status) : string :=
  match s with
  | Reserved => "reserved" | Queued => "queued" | Executing => "running" | Completed => "completed"
  | Failed => "failed" | Cancelled => "cancelled"
  end.

Record job_document := {
  jd_status : string;
  jd_is_complete : bool;
  jd_failure : option failure_document;
  jd_cancellation : option string;
  jd_usage : option Z;
}.

(** [poll]: an unknown job has failed. *)
Definition poll_job (job : string) (b : backend) : job_document :=
  let e := entry job b in
  let s := default Failed (je_state e) in
  {| jd_status := status_text s; jd_is_complete := terminal_status s;
     jd_failure := if decide (s = Failed) then je_error e else None;
     jd_cancellation := if decide (s = Cancelled) then je_cancellation e else None;
     jd_usage := if decide (s = Completed) then je_usage e else None |}.

Definition retrieve_job (job : string) (b : backend) : list EmbeddingBatchResultItem := default [] (je_results (entry job b)).
End backend.

(** ** Lists of what threads hold *)

Lemma flat_insert {A B} (f : A → list B) i x y l :
  l !! i = Some x → flat_map f (<[i := y]> l) ++ f x ≡ₚ flat_map f l ++ f y.
Proof.
  intros Hi. rewrite (insert_take_drop l i y) by (by eapply lookup_lt_Some).
  assert (flat_map f l = flat_map f (take i l ++ x :: drop (S i) l)) as -> by (by rewrite take_drop_middle).
  rewrite !flat_map_app. cbn. solve_Permutation.
Qed.

Definition over {B} (f : run_action → list B) (runs : gmap nat run_action) : list B := flat_map (λ ia, f ia.2) (map_to_list runs).

Lemma flat_map_perm {A B} (f : A → list B) l l' : l ≡ₚ l' → flat_map f l ≡ₚ flat_map f l'.
Proof.
  intros H. induction H as [|x l l' _ IH|x y l|l l' l'' _ IH1 _ IH2]; cbn; [done|by rewrite IH|solve_Permutation|by etrans].
Qed.

Lemma over_delete {B} (f : run_action → list B) i a runs : runs !! i = Some a → over f runs ≡ₚ f a ++ over f (delete i runs).
Proof. intros Hi. unfold over. etrans; [apply flat_map_perm; symmetry; by apply map_to_list_delete|done]. Qed.

Lemma over_insert {B} (f : run_action → list B) i a runs : runs !! i = None → over f (<[i := a]> runs) ≡ₚ f a ++ over f runs.
Proof. intros Hi. unfold over. etrans; [apply flat_map_perm; by apply map_to_list_insert|done]. Qed.

Lemma over_update {B} (f : run_action → list B) i a a' runs :
  runs !! i = Some a → over f (<[i := a']> runs) ++ f a ≡ₚ over f runs ++ f a'.
Proof.
  intros Hi. rewrite (over_delete f i a runs Hi), <- insert_delete_eq, over_insert by apply lookup_delete_eq. solve_Permutation.
Qed.

(** ** What holds of every reachable backend *)

Definition run_job (a : run_action) : string :=
  match a with
  | RunJob j | RunLoop j | MarkRunning j | CallRunner j | Outcome j _ | Publish j _ _ | PublishState j _ _ | RunEnd j
  | FailExpired j => j
  end.

Definition client_hold (o : option client_action) : list string := match o with Some (CancelWrite j) => [j] | _ => [] end.
Definition client_start (o : option client_action) : list string := match o with Some (StartWrite j) => [j] | _ => [] end.
Definition run_hold (a : run_action) : list string := match a with PublishState j _ _ => [j] | _ => [] end.

Definition held_locks (b : backend) : list string := flat_map client_hold (bk_clients b) ++ over run_hold (bk_runs b).

(** The results are those of the requests, in order, as vectors of one dimension. *)
Definition results_match (requests : list EmbeddingBatchRequest) (items : list EmbeddingBatchResultItem) : Prop :=
  Forall2 (λ ir it, ei_index it = Z.of_nat ir.1 ∧ ei_custom_id it = eb_custom_id ir.2 ∧ ei_model it = eb_model ir.2)
    (imap pair requests) items ∧
  ∃ d, Forall (λ it, length (ei_embedding it) = d ∧ (0 < d)%nat) items.

(** A terminal state has its documents. *)
Definition documented (s : job_status) (e : job_entry) : Prop :=
  match s with
  | Completed => (∃ requests items, je_requests e = Some requests ∧ je_results e = Some items ∧ results_match requests items) ∧
                 is_Some (je_usage e)
  | Failed => is_Some (je_error e)
  | Cancelled => is_Some (je_cancellation e)
  | _ => True
  end.

Definition entry_ok (e : job_entry) : Prop := ∀ s, je_state e = Some s → documented s e ∧ is_Some (je_requests e).

Definition ended (e : job_entry) : Prop := ∃ s, je_state e = Some s ∧ terminal_status s = true.
Definition begun (e : job_entry) : Prop := ∃ s, je_state e = Some s ∧ s ≠ Reserved.
Definition open_job (e : job_entry) : Prop := ∃ s, je_state e = Some s ∧ terminal_status s = false.

(** Where the run of a job may be, for its entry and whether the runner was called. *)
Definition run_ok (was_called : Prop) (e : job_entry) (a : run_action) : Prop :=
  match a with
  | CallRunner _ => ¬ was_called
  | Outcome _ _ => True
  | Publish _ o _ => terminal_status (oc_status o) = true ∧ oc_status o ≠ Cancelled ∧ documented (oc_status o) (with_documents o e)
  | PublishState _ s _ => terminal_status s = true ∧ s ≠ Cancelled ∧ documented s e
  | _ => was_called → ended e
  end.

Section backend_ok.
Context (max_concurrency : nat) (execution_timeout_seconds : option float).
Context (runner : nat → list EmbeddingBatchRequest → runner_reply).

Record backend_ok (b : backend) : Prop := {
  bo_pool : pool_inv max_concurrency (bk_pool b);
  bo_once : NoDup (p_submitted (bk_pool b));
  bo_submitted j : j ∈ p_submitted (bk_pool b) → begun (entry j b);
  bo_starts : flat_map client_start (bk_clients b) ≡ₚ option_list (bk_starting b);
  bo_starting j : bk_starting b = Some j → (j ∉ p_submitted (bk_pool b)) ∧ is_Some (job_state j b);
  bo_locks : held_locks b ≡ₚ elements (bk_locked b);
  bo_locked j : j ∈ bk_locked b → open_job (entry j b);
  bo_cancels j : j ∈ flat_map client_hold (bk_clients b) → is_Some (je_cancellation (entry j b));
  bo_entries j : entry_ok (entry j b);
  bo_runs i a : bk_runs b !! i = Some a →
    p_workers (bk_pool b) !! i = Some (Running (run_job a)) ∧ run_ok (run_job a ∈ bk_calls b) (entry (run_job a) b) a;
  bo_calls : NoDup (bk_calls b);
  bo_called j : j ∈ bk_calls b → j ∈ taken_tasks (p_log (bk_pool b));
}.

Lemma new_backend_ok : backend_ok new_backend.
Proof.
  split; try done.
  - apply new_pool_ok.
  - constructor.
  - by intros j ?%elem_of_nil.
  - by intros j ?%elem_of_nil.
  - constructor.
Qed.

(** The pool runs a job in one place. *)
Lemma started_submitted (p : worker_pool string) j : pool_inv max_concurrency p → j ∈ taken_tasks (p_log p) → j ∈ p_submitted p.
Proof.
  intros Hp Hj. rewrite (ok_fifo _ _ Hp), log_split. apply elem_of_app. left. apply elem_of_app. by left.
Qed.

Lemma started_nodup (p : worker_pool string) : pool_inv max_concurrency p → NoDup (p_submitted p) → NoDup (running (p_workers p) ++ p_finished p).
Proof.
  intros Hp Hnd. rewrite <- (ok_started _ _ Hp). rewrite (ok_fifo _ _ Hp) in Hnd. apply NoDup_app in Hnd as [Hnd _].
  rewrite log_split in Hnd. by apply NoDup_app in Hnd as [? _].
Qed.

Lemma worker_running (ws : list (drain_thread string)) i j : ws !! i = Some (Running j) → j ∈ running ws.
Proof. intros Hi. apply list_elem_of_omap. exists (Running j). split; [by eapply list_elem_of_lookup_2|done]. Qed.

Lemma running_once (ws : list (drain_thread string)) i i' j :
  NoDup (running ws) → ws !! i = Some (Running j) → ws !! i' = Some (Running j) → i = i'.
Proof.
  revert i i'. induction ws as [|w ws IH]; intros i i' Hnd Hi Hi'; [done|].
  change (w :: ws) with ([w] ++ ws) in Hnd. rewrite running_app, running_one in Hnd. apply NoDup_app in Hnd as (_ & Hd & Hnd).
  destruct i as [|i], i' as [|i']; cbn in Hi, Hi'; [done| | |f_equal; by eapply IH].
  - injection Hi as ->. exfalso. apply (Hd j); [by left|by eapply worker_running].
  - injection Hi' as ->. exfalso. apply (Hd j); [by left|by eapply worker_running].
Qed.

Lemma runs_submitted b i a : backend_ok b → bk_runs b !! i = Some a → run_job a ∈ p_submitted (bk_pool b).
Proof.
  intros Hb Hi. destruct (bo_runs b Hb i a Hi) as [Hw _]. apply started_submitted; [apply Hb|].
  rewrite (ok_started _ _ (bo_pool b Hb)). apply elem_of_app. left. by eapply worker_running.
Qed.

Lemma one_run b i a i' a' :
  backend_ok b → bk_runs b !! i = Some a → bk_runs b !! i' = Some a' → run_job a = run_job a' → i = i'.
Proof.
  intros Hb Hi Hi' Hj. destruct (bo_runs b Hb i a Hi) as [Hw _]. destruct (bo_runs b Hb i' a' Hi') as [Hw' _]. rewrite <- Hj in Hw'.
  pose proof (started_nodup _ (bo_pool b Hb) (bo_once b Hb)) as Hnd. apply NoDup_app in Hnd as [Hnd _]. by eapply running_once.
Qed.

(** ** The changes an action is made of *)

Definition same_work (e e' : job_entry) : Prop :=
  je_requests e' = je_requests e ∧ je_results e' = je_results e ∧ je_usage e' = je_usage e ∧ je_error e' = je_error e.

Lemma documented_same s e e' : same_work e e' → s ≠ Cancelled → documented s e → documented s e'.
Proof. intros (H1 & H2 & H3 & H4) Hs H. destruct s; cbn in *; [done|done|done|by rewrite H1, H2, H3|by rewrite H4|done]. Qed.

Lemma with_documents_same o e e' : same_work e e' → same_work (with_documents o e) (with_documents o e').
Proof. intros (H1 & H2 & H3 & H4). unfold same_work; cbn. by rewrite H1, H2, H3, H4. Qed.

Lemma run_ok_same P e e' a : same_work e e' → (ended e → ended e') → run_ok P e a → run_ok P e' a.
Proof.
  intros Hw He Ha. destruct a; cbn in *; try by eauto.
  - destruct Ha as (? & ? & ?). split_and!; [done|done|]. by eapply documented_same; [apply with_documents_same| |].
  - destruct Ha as (? & ? & ?). split_and!; [done|done|]. by eapply documented_same.
Qed.

Lemma entry_write j f b j' : entry j' (write j f b) = if decide (j' = j) then f (entry j b) else entry j' b.
Proof.
  unfold entry at 1. cbn. destruct (decide (j' = j)) as [->|Hj]; [by rewrite lookup_insert_eq|]. by rewrite lookup_insert_ne.
Qed.

(** A write to one job that keeps what others rely on. *)
Record good_write (e e' : job_entry) : Prop := {
  gw_begun : begun e → begun e';
  gw_state : is_Some (je_state e) → is_Some (je_state e');
  gw_cancelled : is_Some (je_cancellation e) → is_Some (je_cancellation e');
  gw_ok : entry_ok e';
}.

Lemma write_ok j f b :
  backend_ok b → good_write (entry j b) (f (entry j b)) →
  (j ∈ bk_locked b → open_job (f (entry j b))) →
  (∀ i a, bk_runs b !! i = Some a → run_job a = j → run_ok (j ∈ bk_calls b) (f (entry j b)) a) →
  backend_ok (write j f b).
Proof.
  intros Hb [Hbeg Hst Hcan Hok] Hlock Hruns. split; try (apply Hb); cbn -[entry].
  - intros j' Hj'. rewrite ?entry_write. pose proof (bo_submitted b Hb j' Hj'). case_decide; subst; auto.
  - intros j' Hj'. destruct (bo_starting b Hb j' Hj') as [Hs Hstate]. split; [done|]. unfold job_state. rewrite entry_write.
    case_decide; subst; auto.
  - intros j' Hj'. rewrite ?entry_write. pose proof (bo_locked b Hb j' Hj'). case_decide; subst; auto.
  - intros j' Hj'. rewrite ?entry_write. pose proof (bo_cancels b Hb j' Hj'). case_decide; subst; auto.
  - intros j'. rewrite entry_write. pose proof (bo_entries b Hb j'). case_decide; subst; auto.
  - intros i a Hi. destruct (bo_runs b Hb i a Hi) as [Hw Ha]. split; [done|]. rewrite entry_write. case_decide as Hj; [|done].
    rewrite Hj. by eapply Hruns.
Qed.

(** Calls of clients: what they hold changes with the locks. *)
Lemma client_ok b i o o' starting locked :
  backend_ok b → bk_clients b !! i = Some o →
  client_start o' ++ option_list (bk_starting b) ≡ₚ client_start o ++ option_list starting →
  client_hold o' ++ elements (bk_locked b) ≡ₚ client_hold o ++ elements locked →
  (∀ j, starting = Some j → bk_starting b = Some j ∨ (j ∉ p_submitted (bk_pool b)) ∧ is_Some (job_state j b)) →
  (∀ j, j ∈ locked → j ∈ bk_locked b ∨ open_job (entry j b)) →
  (∀ j, j ∈ client_hold o' → is_Some (je_cancellation (entry j b))) →
  backend_ok (with_clients (<[i := o']> (bk_clients b)) (with_starting starting (with_locked locked b))).
Proof.
  intros Hb Hi Hstart Hhold Hnew Hopen Hcan. pose proof (flat_insert client_start i o o' _ Hi) as Hs.
  pose proof (flat_insert client_hold i o o' _ Hi) as Hh. split; try (apply Hb); cbn -[entry job_state].
  - apply (Permutation_app_inv_l (client_start o)). rewrite (Permutation_app_comm (client_start o)), Hs, <- Hstart, (bo_starts b Hb).
    solve_Permutation.
  - intros j Hj. destruct (Hnew j Hj) as [Hold|Hn]; [by apply (bo_starting b Hb)|done].
  - apply (Permutation_app_inv_l (client_hold o)). rewrite <- Hhold, <- (bo_locks b Hb). unfold held_locks. cbn.
    rewrite (Permutation_app_comm _ (over _ _)), app_assoc, (Permutation_app_comm (client_hold o)), <- app_assoc, (Permutation_app_comm (client_hold o)), Hh.
    solve_Permutation.
  - intros j Hj. destruct (Hopen j Hj) as [Hold|Hn]; [by apply (bo_locked b Hb)|done].
  - intros j Hj. assert (j ∈ flat_map client_hold (<[i:=o']> (bk_clients b)) ++ client_hold o) as Hin by (apply elem_of_app; by left).
    rewrite Hh in Hin. apply elem_of_app in Hin as [Hin|Hin]; [by apply (bo_cancels b Hb)|by apply Hcan].
Qed.

Lemma call_ok b a : backend_ok b → client_start (Some a) = [] → client_hold (Some a) = [] → backend_ok (with_clients (bk_clients b ++ [Some a]) b).
Proof.
  intros Hb Hs Hh. split; try (apply Hb); cbn -[entry].
  - rewrite flat_map_app. cbn [flat_map]. rewrite Hs, !app_nil_r. apply Hb.
  - unfold held_locks. cbn [bk_clients bk_runs with_clients]. rewrite flat_map_app. cbn [flat_map]. rewrite Hh, !app_nil_r. apply Hb.
  - intros j. rewrite flat_map_app. cbn [flat_map]. rewrite Hh, !app_nil_r. by apply Hb.
Qed.

(** The pool takes other tasks, or none, and its threads run the same. *)
Lemma pool_changes_ok b p executor :
  backend_ok b → pool_inv max_concurrency p → NoDup (p_submitted p) →
  (∀ j, j ∈ p_submitted p → begun (entry j b)) → (∀ j, bk_starting b = Some j → j ∉ p_submitted p) →
  (∀ i j, p_workers (bk_pool b) !! i = Some (Running j) → p_workers p !! i = Some (Running j)) →
  (∀ j, j ∈ taken_tasks (p_log (bk_pool b)) → j ∈ taken_tasks (p_log p)) →
  backend_ok (with_pool p executor b).
Proof.
  intros Hb Hp Hnd Hbeg Hst Hw Hlog. split; try (apply Hb); cbn -[entry job_state]; try done.
  - intros j Hj. split; [by apply Hst|by apply (bo_starting b Hb)].
  - intros i a Hi. destruct (bo_runs b Hb i a Hi) as [Hr Ha]. split; [by apply Hw|exact Ha].
  - intros j Hj. by apply Hlog, (bo_called b Hb).
Qed.

(** The run of a worker moves on. *)
Lemma run_moves b i a a' locked :
  backend_ok b → bk_runs b !! i = Some a → run_job a' = run_job a →
  run_hold a' ++ elements (bk_locked b) ≡ₚ run_hold a ++ elements locked →
  (∀ j, j ∈ locked → j ∈ bk_locked b ∨ open_job (entry j b)) →
  run_ok (run_job a ∈ bk_calls b) (entry (run_job a) b) a' →
  backend_ok (with_runs (<[i := a']> (bk_runs b)) (with_locked locked b)).
Proof.
  intros Hb Hi Hj Hhold Hopen Ha'. pose proof (over_update run_hold i a a' _ Hi) as Hh. split; try (apply Hb); cbn -[entry].
  - apply (Permutation_app_inv_l (run_hold a)). rewrite <- Hhold, <- (bo_locks b Hb). unfold held_locks. cbn.
    rewrite (Permutation_app_comm (run_hold a)), <- app_assoc, Hh. solve_Permutation.
  - intros j Hl. destruct (Hopen j Hl) as [Hold|Hn]; [by apply (bo_locked b Hb)|done].
  - intros i' a1 Hi'. apply lookup_insert_Some in Hi' as [[<- <-]|[Hne Hi']]; [|by apply (bo_runs b Hb)].
    rewrite Hj. split; [by apply (bo_runs b Hb)|done].
Qed.

(** The runner is called. *)
Lemma called_ok b i j reply :
  backend_ok b → bk_runs b !! i = Some (CallRunner j) →
  backend_ok (with_runs (<[i := Outcome j reply]> (bk_runs b)) (called j b)).
Proof.
  intros Hb Hi. destruct (bo_runs b Hb i _ Hi) as [Hw Ha]. cbn in Ha, Hw.
  pose proof (over_update run_hold i _ (Outcome j reply) _ Hi) as Hh. cbn in Hh. rewrite !app_nil_r in Hh.
  split; try (apply Hb); cbn -[entry].
  - rewrite <- (bo_locks b Hb). unfold held_locks. cbn. by rewrite Hh.
  - intros i' a1 Hi'. apply lookup_insert_Some in Hi' as [[<- <-]|[Hne Hi']]; [done|].
    destruct (bo_runs b Hb i' a1 Hi') as [Hw1 Ha1]. split; [done|].
    assert (run_job a1 ≠ j) as Hj by (intros Heq; apply Hne; by eapply (one_run b i _ i' a1 Hb Hi Hi')).
    assert (run_job a1 ∈ bk_calls b ++ [j] → run_job a1 ∈ bk_calls b) as Hc
      by (intros [?|Heq%list_elem_of_singleton]%elem_of_app; [done|by destruct Hj]).
    destruct a1; cbn in *; auto.
  - apply NoDup_app. split; [apply Hb|]. split; [|apply NoDup_singleton]. intros x Hx Heq%list_elem_of_singleton. by subst.
  - intros x [Hx|Heq%list_elem_of_singleton]%elem_of_app; [by apply Hb|]. subst x.
    rewrite (ok_started _ _ (bo_pool b Hb)). apply elem_of_app. left. by eapply worker_running.
Qed.

(** A worker takes an item of the queue. *)
Lemma gets_ok b i b' : backend_ok b → worker_gets i b = Some b' → backend_ok b'.
Proof.
  intros Hb H. unfold worker_gets in H. destruct (drain_get i (bk_pool b)) as [p|] eqn:Hg; [|done]. cbn in H.
  assert (bk_runs b !! i = None) as Hnone.
  { destruct (bk_runs b !! i) as [a|] eqn:Hi; [|done]. destruct (bo_runs b Hb i a Hi) as [Hw _]. unfold drain_get in Hg.
    by rewrite Hw in Hg. }
  assert (pool_inv max_concurrency p) as Hp by (eapply get_ok; [apply Hb|exact Hg]).
  unfold drain_get in Hg. destruct (p_workers (bk_pool b) !! i) as [[| |]|] eqn:Hw; try done. destruct (p_queue (bk_pool b)) as [|x q] eqn:Hq; [done|].
  injection Hg as <-. cbn in H. rewrite list_lookup_insert_eq in H by (by eapply lookup_lt_Some).
  assert (backend_ok (with_pool (with_worker i (match x with Some t => Running t | None => Exited end) []
    (with_tasks q (left_queue x true) (bk_pool b))) (bk_executor b) b)) as Hb1.
  { apply pool_changes_ok; cbn -[taken_tasks]; try done; try (apply Hb).
    - intros i' j Hi'. rewrite list_lookup_insert_ne; [done|]. intros ->. by rewrite Hw in Hi'.
    - intros j Hj. rewrite started_app. apply elem_of_app. by left. }
  destruct x as [j|]; injection H as <-; [|exact Hb1]. split; try (apply Hb1); cbn -[entry].
  - rewrite <- (bo_locks b Hb). unfold held_locks. cbn. by rewrite over_insert.
  - intros i' a Hi'. apply lookup_insert_Some in Hi' as [[<- <-]|[Hne Hi']]; [|by apply (bo_runs _ Hb1)].
    cbn. rewrite list_lookup_insert_eq by (by eapply lookup_lt_Some). split; [done|]. intros Hc.
    exfalso. pose proof (started_nodup _ Hp (bo_once b Hb)) as Hnd. rewrite <- (ok_started _ _ Hp) in Hnd. cbn -[taken_tasks] in Hnd.
    rewrite started_app in Hnd. apply NoDup_app in Hnd as (_ & Hd & _). apply (Hd j); [by apply (bo_called b Hb)|by left].
Qed.

(** A worker ends its task. *)
Lemma ends_ok b i a p :
  backend_ok b → bk_runs b !! i = Some a → run_hold a = [] → task_ends i (bk_pool b) = Some p →
  backend_ok (with_runs (delete i (bk_runs b)) (with_pool p (bk_executor b) b)).
Proof.
  intros Hb Hi Hh H. assert (pool_inv max_concurrency p) as Hp by (eapply task_ends_ok; [apply Hb|exact H]).
  unfold task_ends in H. destruct (p_workers (bk_pool b) !! i) as [[|j|]|] eqn:Hw; try done. injection H as <-.
  pose proof (over_delete run_hold i a _ Hi) as Hd. rewrite Hh in Hd. split; try (apply Hb); cbn -[entry].
  - exact Hp.
  - rewrite <- (bo_locks b Hb). unfold held_locks. cbn. by rewrite Hd.
  - intros i' a1 Hi'. apply lookup_delete_Some in Hi' as [Hne Hi']. rewrite list_lookup_insert_ne by done. by apply (bo_runs b Hb).
Qed.

(** ** Every move keeps it *)

Lemma begun_of e s : je_state e = Some s → s ≠ Reserved → begun e.
Proof. intros H1 H2. by exists s. Qed.

Lemma pending_open e : pending_state (je_state e) = true → open_job e ∧ ¬ ended e.
Proof.
  intros H. destruct (je_state e) as [s|] eqn:Hs; [|done]. split; [exists s; split; [done|by destruct s]|].
  intros (s' & Hs' & Ht). rewrite Hs in Hs'. injection Hs' as <-. by destruct s.
Qed.

(** The job of a run is under way or has ended. *)
Lemma not_pending_ended b i a :
  backend_ok b → bk_runs b !! i = Some a → pending_state (job_state (run_job a) b) = false → ended (entry (run_job a) b).
Proof.
  intros Hb Hi H. destruct (bo_submitted b Hb _ (runs_submitted b i a Hb Hi)) as (s & Hs & Hr). unfold job_state in H.
  rewrite Hs in H. exists s. split; [done|]. by destruct s.
Qed.

Lemma reserve_ok b j requests :
  backend_ok b → bk_jobs b !! j = None → backend_ok (write j (λ e, with_state Reserved (with_requests requests e)) b).
Proof.
  intros Hb Hj. assert (entry j b = no_entry) as He by (unfold entry; by rewrite Hj).
  assert (j ∉ p_submitted (bk_pool b)) as Hns by (intros H; destruct (bo_submitted b Hb j H) as (s & Hs & _); by rewrite He in Hs).
  apply write_ok; [done|split| |]; rewrite ?He.
  - by intros (s & Hs & _).
  - by eexists.
  - done.
  - intros s [= <-]. split; [done|by eexists].
  - intros _. by exists Reserved.
  - intros i a Hi <-. exfalso. by eapply Hns, runs_submitted.
Qed.

Lemma start_check_ok b i j :
  backend_ok b → bk_clients b !! i = Some (Some (StartCheck j)) → bk_starting b = None → job_state j b = Some Reserved →
  backend_ok (with_clients (<[i := Some (StartWrite j)]> (bk_clients b)) (with_starting (Some j) b)).
Proof.
  intros Hb Hi Hs Hj. refine (client_ok b i _ (Some (StartWrite j)) (Some j) (bk_locked b) Hb Hi _ _ _ _ _).
  - by rewrite Hs.
  - done.
  - intros j' [= <-]. right. split; [|by eexists]. intros H. destruct (bo_submitted b Hb j H) as (s & Hst & Hne).
    unfold job_state in Hj. congruence.
  - auto.
  - by intros ? ?%elem_of_nil.
Qed.

Lemma starting_client b i j :
  backend_ok b → bk_clients b !! i = Some (Some (StartWrite j)) → bk_starting b = Some j.
Proof.
  intros Hb Hi. assert (j ∈ flat_map client_start (bk_clients b)) as Hin.
  { apply list_elem_of_In, in_flat_map. exists (Some (StartWrite j)). split; [|by left].
    by eapply list_elem_of_In, list_elem_of_lookup_2. }
  rewrite (bo_starts b Hb) in Hin. destruct (bk_starting b) as [j'|]; cbn in Hin; [|by apply elem_of_nil in Hin].
  apply list_elem_of_singleton in Hin. by subst.
Qed.

Lemma start_write_ok b i j :
  backend_ok b → bk_clients b !! i = Some (Some (StartWrite j)) →
  backend_ok (with_clients (<[i := None]> (bk_clients b)) (with_starting None
    (with_pool (submit max_concurrency j (bk_pool b)).1 true (write j (with_state Queued) b)))).
Proof.
  intros Hb Hi. pose proof (starting_client b i j Hb Hi) as Hs. destruct (bo_starting b Hb j Hs) as [Hns [s Hst]].
  assert (backend_ok (write j (with_state Queued) b)) as Hb1.
  { apply write_ok; [done|split| |]; cbn.
    - intros _. by exists Queued.
    - by eexists.
    - done.
    - intros s' [= <-]. split; [done|]. by apply (bo_entries b Hb j s).
    - intros _. by exists Queued.
    - intros i' a Hi' <-. exfalso. by eapply Hns, runs_submitted. }
  set (b1 := write j (with_state Queued) b) in *.
  assert (backend_ok (with_clients (<[i := None]> (bk_clients b1)) (with_starting None (with_locked (bk_locked b1) b1)))) as Hb2.
  { refine (client_ok b1 i _ None None (bk_locked b1) Hb1 Hi _ _ _ _ _).
    - cbn. by rewrite Hs.
    - done.
    - done.
    - auto.
    - by intros ? ?%elem_of_nil. }
  assert (begun (entry j b1)) as Hq by (exists Queued; unfold b1; by rewrite entry_write, decide_True).
  refine (pool_changes_ok _ (submit max_concurrency j (bk_pool b)).1 true Hb2 _ _ _ _ _ _).
  - by apply submit_ok, (bo_pool b Hb).
  - unfold submit. destruct (p_shutdown _); cbn; [by apply (bo_once b Hb)|]. apply NoDup_app. split; [by apply (bo_once b Hb)|].
    split; [|apply NoDup_singleton]. intros x Hx Heq%list_elem_of_singleton. by subst.
  - intros j' Hj'. change (begun (entry j' b1)). unfold submit in Hj'. destruct (p_shutdown _); cbn in Hj'; [by apply (bo_submitted b1 Hb1)|].
    apply elem_of_app in Hj' as [Hj'|Heq%list_elem_of_singleton]; [by apply (bo_submitted b1 Hb1)|by subst].
  - done.
  - intros i' j' Hi'. unfold submit. destruct (p_shutdown _); cbn; [done|]. by apply lookup_app_l_Some.
  - intros j' Hj'. unfold submit. by destruct (p_shutdown _).
Qed.

Lemma cancel_check_ok b i j reason s :
  backend_ok b → bk_clients b !! i = Some (Some (CancelCheck j reason)) → j ∉ bk_locked b →
  job_state j b = Some s → terminal_status s = false →
  backend_ok (with_clients (<[i := Some (CancelWrite j)]> (bk_clients b))
    (with_locked ({[j]} ∪ bk_locked b) (write j (with_cancellation reason) b))).
Proof.
  intros Hb Hi Hl Hj Ht. unfold job_state in Hj. assert (backend_ok (write j (with_cancellation reason) b)) as Hb1.
  { apply write_ok; [done|split| |]; cbn.
    - done.
    - done.
    - by eexists.
    - intros s' Hs'. destruct (bo_entries b Hb j s' Hs') as [Hd Hr]. split; [|done]. destruct s'; cbn in *; eauto; by eexists.
    - done.
    - intros i' a Hi' <-. eapply run_ok_same; [..|by apply (bo_runs b Hb i' a)]; done. }
  set (b1 := write j (with_cancellation reason) b) in *.
  change (backend_ok (with_clients (<[i := Some (CancelWrite j)]> (bk_clients b1))
    (with_starting (bk_starting b1) (with_locked ({[j]} ∪ bk_locked b1) b1)))).
  apply (client_ok b1 i (Some (CancelCheck j reason)) _ _ _ Hb1 Hi).
  - done.
  - cbn. by rewrite elements_union_singleton.
  - auto.
  - intros j' [Heq%elem_of_singleton|Hj']%elem_of_union; [subst j'; right|by left]. unfold b1. rewrite entry_write, decide_True by done. by exists s.
  - intros j' Heq%list_elem_of_singleton. subst j'. unfold b1. rewrite entry_write, decide_True by done. by eexists.
Qed.

Lemma locked_once b : backend_ok b → NoDup (held_locks b).
Proof. intros Hb. rewrite (bo_locks b Hb). apply NoDup_elements. Qed.

Lemma elements_remove (j : string) (l : gset string) : j ∈ l → elements l ≡ₚ j :: elements (l ∖ {[j]}).
Proof.
  intros Hj. rewrite <- elements_union_singleton by set_solver.
  by rewrite <- (union_difference_L {[j]} l) by set_solver.
Qed.

Lemma cancel_write_ok b i j :
  backend_ok b → bk_clients b !! i = Some (Some (CancelWrite j)) →
  backend_ok (with_clients (<[i := None]> (bk_clients b)) (with_locked (bk_locked b ∖ {[j]}) (write j (with_state Cancelled) b))).
Proof.
  intros Hb Hi. assert (j ∈ flat_map client_hold (bk_clients b)) as Hin.
  { apply list_elem_of_In, in_flat_map. exists (Some (CancelWrite j)). split; [|by left].
    by eapply list_elem_of_In, list_elem_of_lookup_2. }
  assert (j ∈ bk_locked b) as Hl.
  { apply elem_of_elements. rewrite <- (bo_locks b Hb). apply elem_of_app. by left. }
  pose proof (bo_cancels b Hb j Hin) as Hc. destruct (bo_locked b Hb j Hl) as (s & Hs & Ht).
  assert (backend_ok (with_clients (<[i := None]> (bk_clients b)) (with_starting (bk_starting b) (with_locked (bk_locked b ∖ {[j]}) b)))) as Hb1.
  { refine (client_ok b i _ None (bk_starting b) (bk_locked b ∖ {[j]}) Hb Hi _ _ _ _ _).
    - done.
    - cbn. by apply elements_remove.
    - auto.
    - intros j' Hj'. left. set_solver.
    - by intros ? ?%elem_of_nil. }
  refine (write_ok j (with_state Cancelled) _ Hb1 _ _ _).
  - split.
    + intros _. by exists Cancelled.
    + by eexists.
    + done.
    + intros s' [= <-]. split; [exact Hc|]. by apply (bo_entries b Hb j s).
  - intros H. cbn in H. set_solver.
  - intros i' a Hi' <-. refine (run_ok_same _ (entry (run_job a) b) _ _ _ _ _); [done|by exists Cancelled|by apply (bo_runs b Hb i' a)].
Qed.

(** ** Runs *)

(** Results of the requests in order, of one dimension. *)
Lemma result_items_match requests vectors :
  length vectors = length requests → same_dimension vectors = true → results_match requests (result_items requests vectors).
Proof.
  intros Hlen Hdim. split.
  - apply Forall2_same_length_lookup_2.
    { unfold result_items. rewrite !length_imap, length_zip_with. lia. }
    intros i [k r] it Hr Hit. rewrite list_lookup_imap in Hr. unfold result_items in Hit. rewrite list_lookup_imap in Hit.
    destruct (requests !! i) as [r0|] eqn:Hi; [|done]. injection Hr as <- <-.
    destruct (zip requests vectors !! i) as [[r1 v]|] eqn:Hz; [|done]. injection Hit as <-.
    apply lookup_zip_with_Some in Hz as (? & ? & [= <- <-] & H1 & H2). rewrite Hi in H1. by injection H1 as <-.
  - assert (∃ d, Forall (λ v, length v = d ∧ (0 < d)%nat) vectors) as [d Hd].
    { destruct vectors as [|v rest]; [by exists 0%nat; constructor|]. cbn in Hdim. apply andb_true_iff in Hdim as [Hv Hrest].
      apply negb_true_iff, Nat.eqb_neq in Hv. exists (length v). constructor; [split; [done|lia]|].
      apply Forall_forall. intros w Hw. apply forallb_forall with (x := w) in Hrest; [|by apply list_elem_of_In].
      apply Nat.eqb_eq in Hrest. split; [done|lia]. }
    exists d. apply Forall_lookup. intros i it Hit. unfold result_items in Hit. rewrite list_lookup_imap in Hit.
    destruct (zip requests vectors !! i) as [[r1 v]|] eqn:Hz; [|done]. injection Hit as <-.
    apply lookup_zip_with_Some in Hz as (? & ? & [= <- <-] & H1 & H2). by apply (Forall_lookup_1 _ _ _ _ Hd H2).
Qed.

Lemma outcome_ok late requests reply e :
  je_requests e = Some requests →
  let o := outcome_of late requests reply in
  terminal_status (oc_status o) = true ∧ oc_status o ≠ Cancelled ∧ documented (oc_status o) (with_documents o e).
Proof.
  intros He. destruct reply as [vectors n|x]; cbn; [|by split_and!; [..|eexists]].
  destruct late; [by split_and!; [..|eexists]|].
  destruct (Nat.eqb_spec (length vectors) (length requests)) as [Hl|]; cbn; [|by split_and!; [..|eexists]].
  destruct (same_dimension vectors) eqn:Hd; cbn; [|by split_and!; [..|eexists]]. split_and!; [done|done| |by eexists].
  exists requests. eexists. split_and!; [done|done|]. by apply result_items_match.
Qed.

Lemma run_requests b i a : backend_ok b → bk_runs b !! i = Some a → ∃ requests, je_requests (entry (run_job a) b) = Some requests.
Proof.
  intros Hb Hi. destruct (bo_submitted b Hb _ (runs_submitted b i a Hb Hi)) as (s & Hs & _).
  by apply (bo_entries b Hb _ s).
Qed.

Lemma run_next b i a a' :
  backend_ok b → bk_runs b !! i = Some a → run_job a' = run_job a → run_hold a = [] → run_hold a' = [] →
  run_ok (run_job a ∈ bk_calls b) (entry (run_job a) b) a' → backend_ok (with_runs (<[i := a']> (bk_runs b)) b).
Proof.
  intros Hb Hi Hj Hh Hh' Ha'. apply (run_moves b i a a' (bk_locked b) Hb Hi Hj); [by rewrite Hh, Hh'|by left|done].
Qed.

(** A write that keeps the state, or the state of an open job. *)
Lemma write_same_state b j f :
  backend_ok b → je_state (f (entry j b)) = je_state (entry j b) → same_work (entry j b) (f (entry j b)) →
  je_cancellation (f (entry j b)) = je_cancellation (entry j b) → backend_ok (write j f b).
Proof.
  intros Hb Hs Hw Hc. apply write_ok; [done|split| |]; unfold begun, open_job; rewrite ?Hs, ?Hc; try done.
  - intros s Hs'. rewrite Hs in Hs'. destruct (bo_entries b Hb j s Hs') as [Hd Hr]. destruct Hw as (Hw1 & Hw2 & Hw3 & Hw4).
    rewrite Hw1. split; [|done]. destruct s; cbn in *; rewrite ?Hw1, ?Hw2, ?Hw3, ?Hw4, ?Hc; done.
  - by apply (bo_locked b Hb).
  - intros i a Hi <-. eapply run_ok_same; [exact Hw| |by apply (bo_runs b Hb i a)]. unfold ended. by rewrite Hs.
Qed.

Lemma mark_ok b i j :
  backend_ok b → bk_runs b !! i = Some (MarkRunning j) → j ∉ bk_locked b → pending_state (job_state j b) = true →
  backend_ok (with_runs (<[i := CallRunner j]> (bk_runs b)) (write j (with_state Executing) b)).
Proof.
  intros Hb Hi Hl Hp. destruct (pending_open _ Hp) as [Hopen Hne]. destruct (run_requests b i _ Hb Hi) as [requests Hreq].
  destruct (bo_runs b Hb i _ Hi) as [_ Ha]. cbn in Ha, Hreq.
  assert (backend_ok (write j (with_state Executing) b)) as Hb1.
  { apply write_ok; [done|split|done|]; cbn; try done.
    - intros _. by exists Executing.
    - intros s [= <-]. split; [done|]. exists requests. exact Hreq.
    - intros i' a Hi' Hj. apply (run_ok_same _ (entry j b)); [done|by intros ?%Hne|]. rewrite <- Hj. by apply (bo_runs b Hb i' a). }
  refine (run_next _ i (MarkRunning j) (CallRunner j) Hb1 Hi _ _ _ _); [done..|]. cbn. auto.
Qed.

Lemma documents_twice o e : same_work (with_documents o e) (with_documents o (with_documents o e)).
Proof. unfold same_work. cbn. by destruct (oc_results o), (oc_usage o), (oc_error o). Qed.

Lemma publish_ok b i j o expired :
  backend_ok b → bk_runs b !! i = Some (Publish j o expired) → j ∉ bk_locked b → pending_state (job_state j b) = true →
  backend_ok (with_runs (<[i := PublishState j (oc_status o) expired]> (bk_runs b))
    (with_locked ({[j]} ∪ bk_locked b) (write j (with_documents o) b))).
Proof.
  intros Hb Hi Hl Hp. destruct (pending_open _ Hp) as [Hopen Hne]. destruct (run_requests b i _ Hb Hi) as [requests Hreq].
  destruct (bo_runs b Hb i _ Hi) as [_ (Ht & Hc & Hd)]. cbn in Hd, Hreq.
  assert (backend_ok (write j (with_documents o) b)) as Hb1.
  { apply write_ok; [done|split| |]; cbn; try done.
    - intros s Hs. cbn in Hs. unfold job_state in Hp. rewrite Hs in Hp. split; [by destruct s|exists requests; exact Hreq].
    - intros i' a Hi' Hj. assert (i' = i) as -> by (eapply one_run; eauto). rewrite Hi in Hi'. injection Hi' as <-.
      cbn. split_and!; [done|done|]. eapply documented_same; [apply documents_twice|done|done]. }
  assert (entry j (write j (with_documents o) b) = with_documents o (entry j b)) as He by (by rewrite entry_write, decide_True).
  apply (run_moves (write j (with_documents o) b) i (Publish j o expired) _ _ Hb1 Hi); [done|..].
  - cbn. by rewrite elements_union_singleton.
  - intros j' [Heq%elem_of_singleton|Hj']%elem_of_union; [subst j'; right|by left]. rewrite He. exact Hopen.
  - cbn -[entry]. by rewrite He.
Qed.

Lemma publish_state_ok b i j s expired :
  backend_ok b → bk_runs b !! i = Some (PublishState j s expired) →
  backend_ok (with_runs (<[i := if expired then FailExpired j else RunLoop j]> (bk_runs b))
    (with_locked (bk_locked b ∖ {[j]}) (write j (with_state s) b))).
Proof.
  intros Hb Hi. destruct (run_requests b i _ Hb Hi) as [requests Hreq]. destruct (bo_runs b Hb i _ Hi) as [_ (Ht & Hc & Hd)]. cbn in Hd, Hreq.
  assert (j ∈ bk_locked b) as Hl.
  { apply elem_of_elements. rewrite <- (bo_locks b Hb). apply elem_of_app. right.
    rewrite (over_delete run_hold i _ _ Hi). by left. }
  set (idle := Outcome j (RunnerReturned [] 0)).
  assert (backend_ok (with_runs (<[i := idle]> (bk_runs b)) (with_locked (bk_locked b ∖ {[j]}) b))) as Hb1.
  { apply (run_moves b i (PublishState j s expired) idle _ Hb Hi); [done|by apply elements_remove| |done].
    intros j' Hj'. left. set_solver. }
  set (b1 := with_runs _ _) in Hb1.
  assert (backend_ok (write j (with_state s) b1)) as Hb2.
  { apply write_ok; [done|split| |]; cbn.
    - intros _. exists s. split; [done|by destruct s].
    - by eexists.
    - done.
    - intros s' [= <-]. change (documented s (with_state s (entry j b)) ∧ is_Some (je_requests (entry j b))). rewrite Hreq.
      split; [|by eexists]. by eapply documented_same; [| |exact Hd].
    - set_solver.
    - intros i' a Hi' Hj. assert (i' = i) as -> by (eapply (one_run b1 i' a i idle Hb1 Hi'); [apply lookup_insert_eq|done]).
      cbn in Hi'. rewrite lookup_insert_eq in Hi'. by injection Hi' as <-. }
  assert (backend_ok (with_runs (<[i := if expired then FailExpired j else RunLoop j]> (bk_runs (write j (with_state s) b1))) (write j (with_state s) b1))) as Hb3.
  { eapply run_next; [exact Hb2|apply lookup_insert_eq|by destruct expired|done|by destruct expired|].
    assert (ended (entry j (write j (with_state s) b1))) as He by (exists s; rewrite entry_write, decide_True by done; done).
    destruct expired; intros _; exact He. }
  cbn in Hb3. rewrite insert_insert_eq in Hb3. exact Hb3.
Qed.

(** ** Every move keeps it *)

Lemma closing_ok b : backend_ok b → backend_ok (closing_backend b).
Proof. intros []. by split. Qed.

Lemma client_step_ok b b' i : backend_ok b → client_step max_concurrency i b = Some b' → backend_ok b'.
Proof.
  intros Hb H. unfold client_step in H. destruct (bk_clients b !! i) as [[a|]|] eqn:Hi; [|done|done].
  assert (client_start (Some a) = [] → client_hold (Some a) = [] →
    ∀ next, client_start next = [] → client_hold next = [] → backend_ok (with_clients (<[i := next]> (bk_clients b)) b)) as Hskip.
  { intros Hs Hh next Hs' Hh'. apply (client_ok b i (Some a) next (bk_starting b) (bk_locked b) Hb Hi); rewrite ?Hs, ?Hs', ?Hh, ?Hh'; auto.
    by intros ? ?%elem_of_nil. }
  destruct a as [j requests|j|j|j reason|j| |]; cbn in H;
    unfold reserve, start_check, cancel_check, close_swap in H.
  - destruct (bk_closed b); [injection H as <-; by apply Hskip|]. destruct (bk_jobs b !! j) eqn:Hj; [done|]. injection H as <-.
    pose proof (Hskip eq_refl eq_refl None eq_refl eq_refl) as Hb1. by apply (reserve_ok _ j requests Hb1).
  - destruct (bk_starting b) eqn:Hs; [done|]. destruct (bk_closed b); [injection H as <-; by apply Hskip|].
    destruct (job_state j b) as [[]|] eqn:Hj; injection H as <-; try (by apply Hskip). by apply start_check_ok.
  - injection H as <-. by apply start_write_ok.
  - case_bool_decide as Hl; [done|]. destruct (job_state j b) as [s|] eqn:Hj; [|injection H as <-; by apply Hskip].
    destruct (terminal_status s) eqn:Ht; injection H as <-; [by apply Hskip|]. by eapply cancel_check_ok.
  - injection H as <-. by apply cancel_write_ok.
  - injection H as <-. exact (closing_ok _ (Hskip eq_refl eq_refl (Some CloseSwap) eq_refl eq_refl)).
  - destruct (bk_starting b) eqn:Hs; [done|]. pose proof (Hskip eq_refl eq_refl None eq_refl eq_refl) as Hb1.
    destruct (bk_executor b); injection H as <-; [|done].
    refine (pool_changes_ok _ (shutdown false true (bk_pool b)) false Hb1 _ _ _ _ _ _); cbn; try done.
    + by apply shutdown_ok, (bo_pool b Hb).
    + by apply (bo_once b Hb).
    + by apply (bo_submitted b Hb).
    + intros j. by rewrite Hs.
Qed.

Lemma run_step_ok now b b' i : backend_ok b → run_step execution_timeout_seconds runner now i b = Some b' → backend_ok b'.
Proof.
  intros Hb H. unfold run_step in H. destruct (bk_runs b !! i) as [a|] eqn:Hi; [|done].
  destruct (bo_runs b Hb i a Hi) as [Hw Ha].
  assert (∀ p, run_hold a = [] → task_ends i (bk_pool b) = Some p → backend_ok (with_runs (delete i (bk_runs b)) (with_pool p (bk_executor b) b)))
    as Hend by (intros p; by apply (ends_ok b i a p Hb Hi)).
  assert (∀ next o, run_hold a = [] → (∀ a', next = Some a' → run_job a' = run_job a ∧ run_hold a' = [] ∧
      run_ok (run_job a ∈ bk_calls b) (entry (run_job a) b) a') →
    ('(b', next) ← Some (b, next);
     match next with
     | Some a' => Some (with_runs (<[i := a']> (bk_runs b')) b')
     | None => p ← task_ends i (bk_pool b'); Some (with_runs (delete i (bk_runs b')) (with_pool p (bk_executor b') b'))
     end) = Some o → backend_ok o) as Hgo.
  { intros [a'|] o Hh Hnext Ho; cbn in Ho.
    - injection Ho as <-. destruct (Hnext a' eq_refl) as (? & ? & ?). by apply (run_next b i a a').
    - destruct (task_ends i (bk_pool b)) as [p|] eqn:He; [|done]. injection Ho as <-. by apply Hend. }
  destruct a as [j|j|j|j|j reply|j o expired|j s expired|j|j]; cbn in H, Ha, Hw;
    unfold enter_run, mark_running, publish_terminal, run_end, fail_expired in H.
  - destruct (bk_closed b || _); [by apply (Hgo None) in H|].
    destruct (je_deadline (entry j b)); [apply (Hgo (Some (RunLoop j))) in H; [exact H|done|]; by intros ? [= <-]|].
    injection H as <-. refine (run_next _ i (RunJob j) (RunLoop j) _ _ _ _ _ _); try done.
    + by apply write_same_state.
    + cbn -[entry]. rewrite entry_write, decide_True by done. exact Ha.
  - refine (Hgo (Some (claim_loop now j b)) _ _ _ H); [done|]. intros ? [= <-]. unfold claim_loop. by destruct (_ || _).
  - case_bool_decide; [done|]. destruct (pending_state (job_state j b)) eqn:Hp; injection H as <-; [by apply mark_ok|].
    by apply (run_next b i (MarkRunning j)).
  - injection H as <-. by apply called_ok.
  - injection H as <-. destruct (run_requests b i _ Hb Hi) as [requests Hreq]. cbn in Hreq.
    apply (run_next b i (Outcome j reply)); try done. apply outcome_ok. unfold requests_of. by rewrite Hreq.
  - case_bool_decide; [done|]. destruct (pending_state (job_state j b)) eqn:Hp; injection H as <-; [by apply publish_ok|].
    pose proof (not_pending_ended b i _ Hb Hi Hp) as He. apply (run_next b i (Publish j o expired)); try done; destruct expired; first [done|intros _; exact He].
  - injection H as <-. by apply publish_state_ok.
  - destruct (negb (bk_closed b) && _ && _); [|by apply (Hgo None) in H].
    apply (Hgo (Some (FailExpired j))) in H; [exact H|done|]. by intros ? [= <-].
  - destruct (negb (bk_closed b) && pending_state (job_state j b)); [|by apply (Hgo None) in H].
    apply (Hgo (Some (Publish j (failed deadline_exceeded) true))) in H; [exact H|done|]. intros ? [= <-].
    split_and!; [done|done|]. cbn. split_and!; [done|done|by eexists].
Qed.

Lemma close_step_ok b b' i :
  backend_ok b → run_backend_move max_concurrency execution_timeout_seconds runner (MClose i) b = Some b' → backend_ok b'.
Proof.
  intros Hb H. cbn in H. destruct (p_closings (bk_pool b) !! i) as [c|] eqn:Hi; [|done]. cbn in H.
  destruct (close_on i c (bk_pool b)) as [p|] eqn:Hp; [|done]. injection H as <-.
  assert (pool_inv max_concurrency p) as Hok by (eapply close_on_ok; [apply Hb|exact Hi|exact Hp]).
  assert (p_workers p = p_workers (bk_pool b) ∧ p_submitted p = p_submitted (bk_pool b) ∧
          ∀ j, j ∈ taken_tasks (p_log (bk_pool b)) → j ∈ taken_tasks (p_log p)) as (H1 & H2 & H3).
  { unfold close_on in Hp. destruct (cl_stage c) as [|[|n]| |]; [destruct (p_queue (bk_pool b))|..|destruct (forallb _ _)|];
      try done; injection Hp as <-; (split_and!; [done|done|]); intros j Hj; cbn -[taken_tasks];
      rewrite ?started_app, ?app_nil_r; try apply elem_of_app; auto. }
  apply pool_changes_ok; rewrite ?H1, ?H2; try done; try (apply Hb).
Qed.

Lemma move_ok b b' m :
  backend_ok b → run_backend_move max_concurrency execution_timeout_seconds runner m b = Some b' → backend_ok b'.
Proof.
  intros Hb H. destruct m as [a|i|i|now i|i]; [|by eapply client_step_ok|by eapply gets_ok|by eapply run_step_ok|by eapply close_step_ok].
  cbn in H. destruct (is_client_call a) eqn:Ha; [|done]. injection H as <-. apply call_ok; [done|by destruct a..].
Qed.

Lemma backend_steps_ok b b' : backend_ok b → rtc (backend_step max_concurrency execution_timeout_seconds runner) b b' → backend_ok b'.
Proof. intros Hb H. induction H as [|b1 b2 b3 [m Hm] _ IH]; [done|]. by eapply IH, move_ok. Qed.

Lemma reachable_backend_ok b : reachable_backend max_concurrency execution_timeout_seconds runner b → backend_ok b.
Proof. apply backend_steps_ok, new_backend_ok. Qed.

(** ** Ended jobs *)

Definition same_public (e e' : job_entry) : Prop :=
  je_state e' = je_state e ∧ je_cancellation e' = je_cancellation e ∧ same_work e e'.

(** Nothing is about to write to an ended job, unless it is being started. *)
Definition settled_job (j : string) (b : backend) : Prop := ended (entry j b) ∧ bk_starting b ≠ Some j.

Lemma settled_unlocked j b : backend_ok b → settled_job j b → j ∉ bk_locked b.
Proof.
  intros Hb [(s & Hs & Ht) _] Hl. destruct (bo_locked b Hb j Hl) as (s' & Hs' & Ht'). congruence.
Qed.

Lemma settled_state j b : settled_job j b → ∃ s, job_state j b = Some s ∧ terminal_status s = true.
Proof. intros [H _]. exact H. Qed.

(** A write to another job, or one that changes nothing that is seen. *)
Lemma write_public j j' f b : (j = j' → same_public (entry j b) (f (entry j b))) → same_public (entry j b) (entry j (write j' f b)).
Proof. intros H. rewrite entry_write. case_decide; subst; [by apply H|done]. Qed.

Lemma client_public j b b' i :
  backend_ok b → client_step max_concurrency i b = Some b' → settled_job j b →
  same_public (entry j b) (entry j b') ∧ bk_starting b' ≠ Some j.
Proof.
  intros Hb H Hset. pose proof (settled_unlocked j b Hb Hset) as Hnl. destruct (settled_state j b Hset) as (s & Hs & Ht).
  destruct Hset as [_ Hns]. unfold client_step in H. destruct (bk_clients b !! i) as [[a|]|] eqn:Hi; [|done|done].
  destruct a as [j' requests|j'|j'|j' reason|j'| |]; cbn in H;
    unfold reserve, start_check, cancel_check, close_swap in H.
  - destruct (bk_closed b); [by injection H as <-|]. destruct (bk_jobs b !! j') eqn:Hj; [done|]. injection H as <-. split; [|done].
    apply write_public. intros <-. unfold job_state, entry in Hs. by rewrite Hj in Hs.
  - destruct (bk_starting b) eqn:Hst; [done|]. destruct (bk_closed b); [injection H as <-; cbn; by rewrite Hst|].
    destruct (job_state j' b) as [[]|] eqn:Hj; injection H as <-; (split; [done|cbn]); rewrite ?Hst; try done.
    intros [= ->]. rewrite Hs in Hj. by injection Hj as ->.
  - injection H as <-. split; [|done]. apply write_public. intros <-. by destruct Hns; apply (starting_client b i j Hb).
  - case_bool_decide as Hl; [done|]. destruct (job_state j' b) as [s'|] eqn:Hj; [|by injection H as <-].
    destruct (terminal_status s') eqn:Ht'; injection H as <-; (split; [|done]); [done|]. apply write_public. intros <-. congruence.
  - injection H as <-. split; [|done]. apply write_public. intros <-. destruct Hnl. apply elem_of_elements.
    rewrite <- (bo_locks b Hb). apply elem_of_app. left. apply list_elem_of_In, in_flat_map. exists (Some (CancelWrite j)).
    split; [|by left]. by eapply list_elem_of_In, list_elem_of_lookup_2.
  - by injection H as <-.
  - destruct (bk_starting b) eqn:Hst; [done|]. destruct (bk_executor b); injection H as <-; cbn; by rewrite Hst.
Qed.

Lemma run_public now j b b' i :
  backend_ok b → run_step execution_timeout_seconds runner now i b = Some b' → settled_job j b →
  same_public (entry j b) (entry j b') ∧ bk_starting b' ≠ Some j.
Proof.
  intros Hb H Hset. pose proof (settled_unlocked j b Hb Hset) as Hnl. destruct (settled_state j b Hset) as (s & Hs & Ht).
  destruct Hset as [_ Hns]. unfold run_step in H. destruct (bk_runs b !! i) as [a|] eqn:Hi; [|done].
  destruct (run_act execution_timeout_seconds runner now a b) as [[b1 next]|] eqn:Hact; [|done]. cbn in H.
  assert (same_public (entry j b) (entry j b1) ∧ bk_starting b1 ≠ Some j) as Hb1.
  { assert (∀ f next', Some (write (run_job a) f b, next') = Some (b1, next) →
      (run_job a = j → same_public (entry j b) (f (entry j b))) → same_public (entry j b) (entry j b1) ∧ bk_starting b1 ≠ Some j) as Hw.
    { intros f next' Heq Hf. injection Heq as <- _. split; [|done]. apply write_public. intros Hj. by apply Hf. }
    destruct a as [j'|j'|j'|j'|j' reply|j' o expired|j' s' expired|j'|j'];
      cbn in Hact, Hw; unfold enter_run, claim_loop, mark_running, publish_terminal, run_end, fail_expired in Hact.
    - destruct (bk_closed b || _); [by injection Hact as <- <-|]. destruct (je_deadline _); [by injection Hact as <- <-|]. by eapply Hw.
    - destruct (bk_closed b || _ || _); by injection Hact as <- <-.
    - case_bool_decide; [done|]. destruct (pending_state (job_state j' b)) eqn:Hp; [|by injection Hact as <- <-]. eapply Hw; [done|].
      intros ->. rewrite Hs in Hp. by destruct s.
    - by injection Hact as <- <-.
    - by injection Hact as <- <-.
    - case_bool_decide; [done|]. destruct (pending_state (job_state j' b)) eqn:Hp; [|by injection Hact as <- <-]. injection Hact as <- <-.
      split; [|done]. apply write_public. intros <-. rewrite Hs in Hp. by destruct s.
    - injection Hact as <- <-. split; [|done]. apply write_public. intros <-. destruct Hnl. apply elem_of_elements.
      rewrite <- (bo_locks b Hb). apply elem_of_app. right. rewrite (over_delete run_hold i _ _ Hi). by left.
    - by injection Hact as <- <-.
    - by injection Hact as <- <-. }
  destruct next as [a'|]; [by injection H as <-|]. destruct (task_ends i (bk_pool b1)) as [p|]; [|done]. by injection H as <-.
Qed.

Lemma move_public j b b' m :
  backend_ok b → run_backend_move max_concurrency execution_timeout_seconds runner m b = Some b' → settled_job j b →
  same_public (entry j b) (entry j b') ∧ settled_job j b'.
Proof.
  intros Hb H Hset. assert (same_public (entry j b) (entry j b') ∧ bk_starting b' ≠ Some j) as [Hp Hs].
  { destruct m as [a|i|i|now i|i]; cbn in H.
    - destruct (is_client_call a); [|done]. injection H as <-. by destruct Hset.
    - by eapply client_public.
    - unfold worker_gets in H. destruct (drain_get i (bk_pool b)) as [p|]; [|done]. cbn in H. injection H as <-. by destruct Hset.
    - by eapply run_public.
    - destruct (p_closings (bk_pool b) !! i) as [c|]; [|done]. cbn in H. destruct (close_on i c (bk_pool b)) as [p|]; [|done].
      injection H as <-. by destruct Hset. }
  split; [done|]. split; [|done]. destruct Hset as [(s & Hst & Ht) _], Hp as (Hst' & _). exists s. by rewrite Hst'.
Qed.

Lemma same_public_seen j b b' :
  same_public (entry j b) (entry j b') → poll_job j b' = poll_job j b ∧ retrieve_job j b' = retrieve_job j b.
Proof. intros (H1 & H2 & _ & H3 & H4 & H5). unfold poll_job, retrieve_job. by rewrite H1, H2, H3, H4, H5. Qed.


(** C23. What a caller was told is final. A job polled as complete keeps its
    document and its results whatever clients, workers and [close] do afterwards;
    a cancelled job stays cancelled although its provider call returns. The one
    exception is a job whose [start] is between its check and its write. *)
Theorem terminal_documents_are_final b b' j :
  reachable_backend max_concurrency execution_timeout_seconds runner b →
  is_Some (job_state j b) → jd_is_complete (poll_job j b) = true → bk_starting b ≠ Some j →
  rtc (backend_step max_concurrency execution_timeout_seconds runner) b b' →
  poll_job j b' = poll_job j b ∧ retrieve_job j b' = retrieve_job j b.
Proof.
  intros Hb%reachable_backend_ok [s Hs] Hc Hns Hsteps.
  assert (settled_job j b) as Hset.
  { split; [|done]. exists s. unfold poll_job, job_state in *. rewrite Hs in Hc. done. }
  apply same_public_seen. clear s Hs Hc Hns. induction Hsteps as [b|b b1 b2 [m Hm] _ IH]; [done|].
  destruct (move_public j b b1 m Hb Hm Hset) as [(H1 & H2 & H3 & H4 & H5 & H6) Hset1].
  destruct (IH (move_ok b b1 m Hb Hm) Hset1) as (H1' & H2' & H3' & H4' & H5' & H6').
  unfold same_public, same_work. split_and!; by etrans.
Qed.
End backend_ok.

(** ** A job, and a job that is cancelled while it is started *)

Definition demo_input : EmbeddingBatchRequest :=
  {| eb_input_text := "text"; eb_model := "m"; eb_custom_id := "emb_1"; eb_attribution := []; eb_metadata := [];
     eb_source_index := 0; eb_part_index := 0; eb_part_count := 1; eb_token_count := 0; eb_token_start := 0;
     eb_token_end := 0; eb_shard_index := 0; eb_routing_agent_id := None; eb_zdr_only := false; eb_agent_id := None;
     eb_provider_routing := None |}.

Definition demo_runner (n : nat) (requests : list EmbeddingBatchRequest) : runner_reply :=
  RunnerReturned (map (λ _, [float_of_Z 1; float_of_Z 2]) requests) 3.

Definition run_backend (l : list backend_move) (b : backend) : option backend :=
  foldl (λ o m, b ← o; run_backend_move 1 None demo_runner m b) (Some b) l.

Lemma run_backend_steps l b b' : run_backend l b = Some b' → rtc (backend_step 1 None demo_runner) b b'.
Proof.
  unfold run_backend. revert b. induction l as [|m l IH]; intros b; cbn [foldl]; [by intros [= <-]|]. cbn -[run_backend_move].
  destruct (run_backend_move 1 None demo_runner m b) as [b1|] eqn:Hm; [intros H; eapply rtc_l; [by exists m|by apply IH]|].
  intros H. exfalso. clear -H. induction l as [|m' l IH]; [done|]. by apply IH.
Qed.

Definition tick : backend_move := MWork (float_of_Z 0) 0.

(** Reserved, queued, taken by the worker, executed and published. *)
Definition demo_moves : list backend_move :=
  [MCall (Reserve "job" [demo_input]); MClient 0; MCall (StartCheck "job"); MClient 1; MClient 1; MGet 0;
   tick; tick; tick; tick; tick; tick; tick].


(** Cancelled while the runner is called. *)
Definition cancel_moves : list backend_move :=
  [MCall (Reserve "job" [demo_input]); MClient 0; MCall (StartCheck "job"); MClient 1; MClient 1; MGet 0;
   tick; tick; tick; tick; MCall (CancelCheck "job" "stop"); MClient 2; MClient 2].

Lemma terminal_documents_are_final_witness :
  ∃ b, run_backend cancel_moves new_backend = Some b ∧ jd_status (poll_job "job" b) = "cancelled" ∧
       ∀ b', run_backend [tick; tick; tick; tick] b = Some b' → jd_status (poll_job "job" b') = "cancelled".
Proof.
  eexists. split; [vm_compute; reflexivity|]. split; [reflexivity|]. intros b' Hb'.
  match type of Hb' with run_backend _ ?b = _ =>
    assert (reachable_backend 1 None demo_runner b) as Hb by (apply (run_backend_steps cancel_moves); vm_compute; reflexivity);
    destruct (terminal_documents_are_final 1 None demo_runner b b' "job" Hb ltac:(eexists; reflexivity) eq_refl ltac:(discriminate)
      (run_backend_steps _ _ _ Hb')) as [-> _]
  end.
  reflexivity.
Defined.

(** [start] does not hold the state lock: a cancellation between its check and its
    write is overwritten, and the job its caller was told is cancelled is executed
    and completes. *)
Definition cancelled_start : list backend_move :=
  [MCall (Reserve "job" [demo_input]); MClient 0; MCall (StartCheck "job"); MClient 1;
   MCall (CancelCheck "job" "stop"); MClient 2; MClient 2].

Lemma cancelled_job_is_revived :
  ∃ b b', run_backend cancelled_start new_backend = Some b ∧
    jd_status (poll_job "job" b) = "cancelled" ∧ jd_is_complete (poll_job "job" b) = true ∧
    run_backend (MClient 1 :: MGet 0 :: replicate 7 tick) b = Some b' ∧
    jd_status (poll_job "job" b') = "completed" ∧ bk_calls b' = ["job"].
Proof.
  eexists _, _. split; [vm_compute; reflexivity|]. split; [vm_compute; reflexivity|]. split; [vm_compute; reflexivity|].
  split; [vm_compute; reflexivity|]. split; vm_compute; reflexivity.
Qed.
